(* ===== verification/_CoqProject ===== *)
-Q . S2P
Prelude.v
RustStr.v
RustFloat.v
FloatOrder.v
Json.v
Budget.v
BuildBudget.v
BTree.v
Calendar.v
Kinds.v
Health.v
Readiness.v
RepoPath.v
Scan.v
Owners.v
Diff.v
Graph.v
Edits.v
Patch.v
Imports.v
Refactor.v
Metrics.v
Scc.v
HistoryDiff.v
HistoryGit.v
Sqlite.v
HistoryTables.v
HistoryInvariant.v
HistoryLifecycle.v
HistoryPrune.v
HistoryBuild.v
HistoryReplay.v
HistorySnapshot.v
HistoryCommit.v
HistoryRun.v
ContextData.v
ContextRank.v
ContextWorkflow.v
Impact.v
ContextBuild.v
ContextPayload.v
Chunking.v
Tasks.v
SearchData.v
SearchRank.v
Search.v
Redact.v
Auth.v
GraphTables.v
GraphStore.v
GraphQueries.v
Reasoning.v
CallResolution.v
