(* ===== verification/Prelude.v ===== *)
(** * A verification library for the Atlas Context Router

    Atlas builds a graph of the symbols of a repository and answers questions about it for
    coding agents: what a change affects, what may be renamed or removed, what a tool may do
    while the graph is stale. This library models the parts of it that compute (the sources
    are under [src/packages]) and proves what they promise.

    ** The parts and how they interact

    A run of the build engine reads files within the limits of a budget policy and reports
    what it spent ([Budget], [BuildBudget]); the paths of all files go through one canonical
    form first ([RepoPath]). Which files there are is found from git's listing, filtered by
    ignore globs ([Scan]); which of them changed, inside submodules too, from its diff
    ([Diff]); and which package each belongs to from the manifests among them ([Owners]). The
    graph it writes consists of typed nodes and edges ([Kinds], [Graph]), kept in the tables of
    a SQLite database ([GraphTables], [GraphStore]) and read by queries ([GraphQueries]); calls
    are resolved across files through their imports ([CallResolution]). Before a tool answers
    from the graph, its health is classified ([Health]) and a safety gate decides what the tool
    may do ([Readiness]). Searches are expanded, fused and boosted ([Search]). From a part of
    the graph the impact analysis scores and classifies a change ([Impact]); the reasoning
    engine answers what a removal reaches, what is dead and how safe a change of one symbol is
    ([Reasoning]); the cycles of the graph and of its history are its strongly connected
    components ([Scc]). The history keeps the graph of every commit as a snapshot: commits and
    trees are read from git ([HistoryGit]), the files of a commit are listed or replayed from
    its parent, parsed and written in one transaction ([HistoryBuild]) on the tables of the
    store ([HistoryTables]); from the snapshots in order the life cycle of each symbol is
    computed ([HistoryLifecycle]), a retention policy deletes some of them ([HistoryPrune]),
    and two of them are compared by files, symbols, edges, modules and architecture
    ([HistoryDiff]). A review context selects the neighbourhood of a symbol or of a change
    ([ContextBuild], with the data of [ContextData]), ranks it and cuts it to its caps
    ([ContextRank]), summarises it ([ContextWorkflow]) and trims its serialized form to the
    byte and token budgets ([ContextPayload]). The refactoring engine plans edits from the
    graph, checks and applies them and shows them as a patch ([Refactor] on [Edits], [Patch]
    and [Imports]). Requests to the server are authorized ([Auth]); long tool calls run as
    durable tasks next to the clients that watch them ([Tasks]); payloads of events are
    redacted before they are stored ([Redact]); what tools print is chunked into the content
    store ([Chunking]); everything is counted by the metrics ([Metrics]).

    ** Files

    - [Prelude] (this file): results, machine integers, list and sorting lemmas,
      automation. [RustStr]: byte strings with the operations of [str] the sources use
      (UTF-8 boundaries, [lines], [split], [trim], [find]). [RustFloat]: [f32] and [f64] on the
      standard library's specification of floats; [FloatOrder]: their product is monotone.
      [Json]: the JSON values of [serde_json]. [BTree]: the ordered maps and sets of the
      standard library. [Sqlite]: connections, transactions and failing statements.
    - [Budget], [BuildBudget]: atlas-core budget.rs and the run tracker of atlas-engine:
      limit rules, policies, the report manager, acceptance of files.
    - [Kinds], [Graph], [Health], [Readiness]: atlas-core kinds, graph records, health
      classification, and the readiness record with its gate.
    - [RepoPath], [Scan], [Owners], [Diff]: atlas-repo path.rs (canonical repo-relative
      paths), files.rs, owners.rs and diff.rs.
    - [GraphTables], [GraphStore], [GraphQueries]: mutation.rs, helpers.rs, retrieval.rs,
      graph.rs and context.rs of atlas-store-sqlite. [CallResolution]: call_resolution.rs of
      atlas-engine. [SearchData], [SearchRank], [Search]: atlas-search and the search records
      of atlas-core.
    - [Edits], [Patch], [Imports], [Refactor]: atlas-refactor edit.rs, patch.rs,
      the import scanner and engine.rs (rename, dead-code removal, import cleanup, the
      checked application with rollback).
    - [Reasoning]: helpers.rs, removal.rs, dead_code.rs, rename.rs and the questions about one
      symbol of risk.rs of atlas-reasoning. [Scc]: scc.rs of atlas-reasoning and atlas-history.
      [Metrics]: atlas-metrics. [HistoryDiff]: diff.rs, reports.rs and error.rs of
      atlas-history and the rows of the history tables.
    - [Calendar]: the dates written by hand in atlas-store-sqlite, atlas-adapters, atlas-review.
      [HistoryGit]: git.rs and select.rs of atlas-history. [HistoryTables]: history.rs of
      atlas-store-sqlite and its modules, on a connection of [Sqlite];
      [HistoryInvariant]: the invariant of the tables and what deleting keeps.
      [HistoryLifecycle], [HistoryPrune]: lifecycle.rs and prune.rs. [HistoryBuild]: build.rs,
      update.rs and ingest.rs, with the theorems in [HistoryReplay] (listings),
      [HistorySnapshot] and [HistoryCommit] (one commit) and [HistoryRun] (a run, an update).
    - [ContextData], [ContextRank], [ContextWorkflow], [ContextBuild], [ContextPayload]: the
      context records of atlas-core; ranking.rs and the modules rank, spans, workflow, resolve,
      symbol, build, payload and mod of context/ in atlas-review; atlas-token-count. The store
      is the class [ContextStore] of its ten queries.
    - [Impact]: atlas-impact lib.rs. [Chunking]: atlas-contentstore chunking.rs. [Redact]:
      redact.rs of atlas-adapters. [Auth]: auth.rs of atlas-mcp.
    - [Tasks]: atlas-mcp tasks.rs with the task records of atlas-session: the worker threads
      of one server process beside its clients, on a store that may hold the records of earlier
      processes.

    Each definition carries the name of the function it models; state is passed explicitly,
    errors are values of [result], statements of SQLite run on an explicit connection, and what
    may be interleaved (tasks) is a step relation over atomic operations.

    ** What the theorems show

    Invariants and safety: a plan of edits is applied entirely, or not at all where the old
    texts could be written back; no changed file is lost, invented or repeated; task records
    tell the truth in every interleaving; a commit is indexed whole or not at all, whatever
    fails, as long as SQLite does not end the transaction itself; the tables of the graph keep
    their keys and their full-text index; pruning keeps exactly what its policy retains; no
    secret value survives redaction; budgets are kept and overruns reported, a context stays
    within its caps and the policy's limits, its edges join its nodes, and what it lacks is
    reported. Functional and reference results: diffs are minimal and their hunks apply,
    components are exactly the classes of mutual reachability, impact scores are those of the
    best walks, replacing and deleting the graph of a file does exactly that, what an impact
    query, a removal, a graph expansion or the neighbourhood of a symbol reaches is exactly a
    breadth-first search, call edges move only for a reason, the owner of a path is the
    nearest, the comparison of two snapshots replays and reports exactly the dependencies and
    cycles that came and went, a replayed listing agrees with the full one, life cycles are
    those of the ordered snapshots, blobs are read from git byte for byte, timestamps sort
    like times, listing shows every task once. Termination: the propagation of impact ends on
    every graph in spite of rounding, the listing of files ends on repositories that contain
    themselves (the search for changes need not, and a theorem shows where), payload trimming
    fits its limits or runs out of what may go, and a build of the history gives every commit
    a snapshot or an error while the database answers. Error behaviour: where the code panics,
    loses a result, splits a commit after a rolled back transaction or blocks itself with an
    open one, a theorem or an example exhibits it.

    ** Fuel and bounds

    Recursion that is not structural has fuel, and a theorem or lemma says how much is enough:
    the number of nodes for the depth of Tarjan's recursion, the sum of the lengths for a
    traceback, the length of the text for byte windows, string splitting and layout, one more
    than the number of rows for a listing, one more than the removable units for payload
    trimming, the seeds and the cap for the walk of a removal; for the propagation of impact
    the theorem gives some fuel for every graph. Machine integers are bounded numbers with their wrap-around
    where it can occur ([wadd64], [sat_add64]); lengths are natural numbers, as no text is
    longer than the address space.

    ** Parameters

    Unicode normalisation and the Unicode tables of the standard library, the file system, the
    git process, the TOML and JSON parsers, the failures of SQLite (which access fails is a
    function of its number; some failures make SQLite roll the open transaction back) and its
    clock, the queries of the stores where a component asks an interface, the parser, file
    writing, the order of hash tables, node metadata, SHA-256, [serde_json] texts, tokenizers,
    the edit distance of [strsim], the embedding service, JSON web tokens and the HTTP client,
    the retrieval of saved context, the conversion of input requests to the client library,
    and the clock are arguments, with their documented behaviour as hypotheses where a theorem
    needs it.

    ** Not modelled

    SQL text, the SQLite engine and the content and session stores other than the task
    records, tree-sitter grammars, the MCP transports, command line, printing, generated
    documentation, embeddings and the tokenizer are input and output or outside code. The
    insights reports of the reasoning engine, session curation, configuration checks, the
    free-text query parser, extract-function detection and the measures of the history compute
    but are not modelled. What a metrics snapshot sees of observations that run beside it
    depends on the memory order of relaxed atomics, which is not modelled. *)

From Stdlib Require Export String Ascii.
From stdpp Require Export base numbers gmap sets list strings pretty sorting relations.

#[global] Set Default Goal Selector "!".
#[global] Open Scope string_scope.
#[global] Open Scope list_scope.

(** ** Fallible code: [Result<T, E>] *)

Inductive result (E A : Type) : Type :=
| Ok (a : A)
| Err (e : E).
Arguments Ok {E A} a.
Arguments Err {E A} e.

Declare Scope rust_scope.
Delimit Scope rust_scope with rust.
#[global] Open Scope rust_scope.

Definition res_bind {E A B : Type} (r : result E A) (k : A → result E B) : result E B :=
  match r with
  | Ok a => k a
  | Err e => Err e
  end.

(** The [?] operator. *)
Notation "x <-? m ;; k" := (res_bind m (λ x, k))
  (at level 20, m at level 99, k at level 200, right associativity,
   only parsing) : rust_scope.

Definition res_is_ok {E A : Type} (r : result E A) : bool :=
  match r with Ok _ => true | Err _ => false end.

#[global] Instance result_eq_dec {E A : Type} `{EqDecision E, EqDecision A} :
  EqDecision (result E A).
Proof. solve_decision. Defined.

Lemma res_bind_ok {E A B : Type} (r : result E A) (k : A → result E B) (b : B) :
  res_bind r k = Ok b ↔ ∃ a, r = Ok a ∧ k a = Ok b.
Proof. destruct r; naive_solver. Qed.

(** ** Machine integers

    Unsigned machine integers are [N] values below the width's bound. [+=] wraps in
    the release profile the repository ships (overflow checks are off there);
    [saturating_add] and [saturating_sub] are the standard library's. *)

Definition u32_max : N := 4294967295.
Definition u64_max : N := 18446744073709551615.
Definition wrap64 (n : N) : N := (n mod (u64_max + 1))%N.
Definition wadd64 (a b : N) : N := wrap64 (a + b).
Definition sat_add64 (a b : N) : N := N.min (a + b) u64_max.

Lemma wadd64_small (a b : N) : (a + b ≤ u64_max)%N → wadd64 a b = (a + b)%N.
Proof. intros H. unfold wadd64, wrap64. apply N.mod_small. lia. Qed.

Lemma wadd64_bound (a b : N) : (wadd64 a b ≤ u64_max)%N.
Proof.
  unfold wadd64, wrap64.
  assert ((a + b) mod (u64_max + 1) < u64_max + 1)%N by (apply N.mod_lt; lia). lia.
Qed.

Lemma sat_add64_le (a b : N) : (sat_add64 a b ≤ u64_max)%N.
Proof. unfold sat_add64. lia. Qed.

(** ** Case analysis *)

(** Destruct the scrutinee of the first [match] or [if] of the goal. *)
Ltac case_match_goal :=
  match goal with
  | |- context [match ?x with _ => _ end] =>
      lazymatch x with
      | context [match _ with _ => _ end] => fail
      | _ => let E := fresh "E" in destruct x eqn:E
      end
  end.

(** Split boolean hypotheses into propositions. *)
Ltac split_bools :=
  repeat match goal with
  | H : (_ && _)%bool = true |- _ => apply andb_true_iff in H as [? ?]
  | H : (_ || _)%bool = false |- _ => apply orb_false_iff in H as [? ?]
  | H : negb _ = true |- _ => apply negb_true_iff in H
  | H : negb _ = false |- _ => apply negb_false_iff in H
  | H : bool_decide _ = true |- _ => apply bool_decide_eq_true_1 in H
  | H : bool_decide _ = false |- _ => apply bool_decide_eq_false_1 in H
  end.

(** Facts used without being named by the components' proofs. *)
Create HintDb atlas discriminated.
#[export] Hint Resolve wadd64_bound sat_add64_le : atlas.

(** ** Comparators

    A comparator is a function into [Ordering]. [TotalCmp] is the contract
    [sort_by], [max_by] and [dedup] rely on: a total preorder. [StrictCmp] adds that
    [Equal] means equal. *)

Class TotalCmp {A : Type} (cmp : A → A → comparison) : Prop := {
  cmp_opp x y : cmp y x = CompOpp (cmp x y);
  cmp_trans x y z : cmp x y ≠ Gt → cmp y z ≠ Gt → cmp x z ≠ Gt
}.

Class StrictCmp {A : Type} (cmp : A → A → comparison) : Prop := {
  strict_total :: TotalCmp cmp;
  cmp_eq x y : cmp x y = Eq → x = y
}.

Arguments cmp_opp {A} cmp {_} x y.
Arguments cmp_trans {A} cmp {_} x y z.
Arguments cmp_eq {A} cmp {_} x y.

(** [Ordering::then_with], [Ordering::reverse], and comparison by a key. *)
Definition then_with (c d : comparison) : comparison :=
  match c with Eq => d | _ => c end.
Definition cmp_on {A B : Type} (f : A → B) (cmp : B → B → comparison) (x y : A) : comparison :=
  cmp (f x) (f y).
Definition cmp_lex {A : Type} (c1 c2 : A → A → comparison) (x y : A) : comparison :=
  then_with (c1 x y) (c2 x y).
Definition cmp_rev {A : Type} (c : A → A → comparison) (x y : A) : comparison :=
  CompOpp (c x y).

Definition leb_of {A : Type} (cmp : A → A → comparison) (x y : A) : bool :=
  match cmp x y with Gt => false | _ => true end.

Section total_cmp.
Context {A : Type} (cmp : A → A → comparison) `{!TotalCmp cmp}.

Lemma cmp_refl x : cmp x x = Eq.
Proof. pose proof (cmp_opp cmp x x) as H. by destruct (cmp x x). Qed.

Lemma cmp_eq_sym x y : cmp x y = Eq → cmp y x = Eq.
Proof. intros H. by rewrite (cmp_opp cmp x y), H. Qed.

Lemma cmp_lt_gt x y : cmp x y = Lt ↔ cmp y x = Gt.
Proof. rewrite (cmp_opp cmp x y). by destruct (cmp x y). Qed.

Lemma cmp_eq_l x y z : cmp x y = Eq → cmp x z = cmp y z.
Proof.
  intros Hxy. pose proof (cmp_eq_sym _ _ Hxy) as Hyx.
  destruct (cmp x z) eqn:Hxz, (cmp y z) eqn:Hyz; try done; exfalso.
  - apply cmp_eq_sym in Hxz. apply cmp_lt_gt in Hyz.
    apply (cmp_trans cmp z x y); congruence.
  - apply (cmp_trans cmp y x z); congruence.
  - apply cmp_lt_gt in Hxz. apply cmp_eq_sym in Hyz.
    apply (cmp_trans cmp z y x); congruence.
  - apply (cmp_trans cmp y x z); congruence.
  - apply (cmp_trans cmp x y z); congruence.
  - apply (cmp_trans cmp x y z); congruence.
Qed.

Lemma cmp_eq_r x y z : cmp y z = Eq → cmp x y = cmp x z.
Proof.
  intros H. rewrite (cmp_opp cmp y x), (cmp_opp cmp z x). f_equal. by apply cmp_eq_l.
Qed.

Lemma leb_of_total x y : leb_of cmp x y = true ∨ leb_of cmp y x = true.
Proof. unfold leb_of. rewrite (cmp_opp cmp x y). destruct (cmp x y); auto. Qed.

Lemma leb_of_trans x y z :
  leb_of cmp x y = true → leb_of cmp y z = true → leb_of cmp x z = true.
Proof.
  unfold leb_of. pose proof (cmp_trans cmp x y z).
  destruct (cmp x y), (cmp y z), (cmp x z); naive_solver.
Qed.

Lemma leb_of_false x y : leb_of cmp x y = false → leb_of cmp y x = true.
Proof. destruct (leb_of_total x y); congruence. Qed.

#[export] Instance cmp_on_total {B} (f : B → A) : TotalCmp (cmp_on f cmp).
Proof. unfold cmp_on. split; eauto using cmp_opp, cmp_trans. Qed.

#[export] Instance cmp_rev_total : TotalCmp (cmp_rev cmp).
Proof.
  unfold cmp_rev. split.
  - intros x y. by rewrite (cmp_opp cmp x y).
  - intros x y z Hxy Hyz.
    pose proof (cmp_trans cmp z y x). rewrite (cmp_opp cmp z x), CompOpp_involutive.
    rewrite (cmp_opp cmp z y), CompOpp_involutive in Hyz.
    rewrite (cmp_opp cmp y x), CompOpp_involutive in Hxy. auto.
Qed.
End total_cmp.

#[export] Instance cmp_lex_total {A : Type} (c1 c2 : A → A → comparison)
  `{!TotalCmp c1, !TotalCmp c2} : TotalCmp (cmp_lex c1 c2).
Proof.
  unfold cmp_lex, then_with. split.
  - intros x y. rewrite (cmp_opp c1 x y), (cmp_opp c2 x y).
    by destruct (c1 x y).
  - intros x y z Hxy Hyz.
    destruct (c1 x y) eqn:E1; [|clear Hxy|done].
    + rewrite (cmp_eq_l c1 x y z E1). destruct (c1 y z); [|done..].
      eauto using cmp_trans.
    + assert (c1 y z ≠ Gt) as Hn by (by destruct (c1 y z)).
      destruct (c1 x z) eqn:E3; [|done|].
      * exfalso. apply (cmp_eq_sym c1) in E3. apply (cmp_lt_gt c1) in E1.
        apply (cmp_trans c1 y z x); congruence.
      * exfalso. apply (cmp_trans c1 x y z); congruence.
Qed.

#[export] Instance N_cmp_strict : StrictCmp N.compare.
Proof.
  split; [split|].
  - intros. apply N.compare_antisym.
  - intros x y z. intros H1 H2 H3. apply N.compare_gt_iff in H3.
    apply H1, N.compare_gt_iff. destruct (N.lt_ge_cases y x); [done|].
    exfalso. apply H2, N.compare_gt_iff. lia.
  - apply N.compare_eq.
Qed.

#[export] Instance nat_cmp_strict : StrictCmp Nat.compare.
Proof.
  split; [split|].
  - intros. apply Nat.compare_antisym.
  - intros x y z H1 H2 H3. apply Nat.compare_gt_iff in H3.
    apply H1, Nat.compare_gt_iff. destruct (Nat.lt_ge_cases y x); [done|].
    exfalso. apply H2, Nat.compare_gt_iff. lia.
  - apply Nat.compare_eq.
Qed.

(** Byte-wise lexicographic order on strings: [str::cmp]. *)
Lemma string_compare_cons a b s t :
  String.compare (String a s) (String b t) =
  then_with (N.compare (N_of_ascii a) (N_of_ascii b)) (String.compare s t).
Proof. simpl. unfold Ascii.compare. by destruct (N.compare _ _). Qed.

#[export] Instance string_cmp_strict : StrictCmp String.compare.
Proof.
  split; [split|].
  - intros. apply String.compare_antisym.
  - intros x y z. revert y z.
    induction x as [|a x IH]; intros [|b y] [|c z]; try done.
    rewrite !string_compare_cons.
    pose proof (N.compare_antisym (N_of_ascii a) (N_of_ascii b)).
    pose proof (cmp_trans N.compare (N_of_ascii a) (N_of_ascii b) (N_of_ascii c)) as Ht.
    destruct (N.compare_spec (N_of_ascii a) (N_of_ascii b)) as [Hab|Hab|Hab]; simpl; [| |done].
    + rewrite Hab. destruct (N_of_ascii b ?= N_of_ascii c)%N; simpl; eauto.
    + destruct (N.compare_spec (N_of_ascii b) (N_of_ascii c)) as [Hbc|Hbc|Hbc]; simpl; [| |done];
        intros _ _; assert (N_of_ascii a < N_of_ascii c)%N as Hac by lia;
        apply N.compare_lt_iff in Hac; by rewrite Hac.
  - intros. by apply String.compare_eq_iff.
Qed.

(** ** [slice::sort_by], [Vec::dedup_by_key] and [Iterator::max_by]

    The standard library's sort is stable, so on a total preorder its result is
    determined: insertion from the right computes it. *)

Section sorting.
Context {A : Type} (cmp : A → A → comparison).

Fixpoint insert_by (x : A) (l : list A) : list A :=
  match l with
  | [] => [x]
  | y :: l' => if leb_of cmp x y then x :: l else y :: insert_by x l'
  end.

Definition sort_by (l : list A) : list A := foldr insert_by [] l.

(** The last maximal element, as [Iterator::max_by] returns. *)
Definition max_by (l : list A) : option A :=
  match l with
  | [] => None
  | x :: l' => Some (foldl (λ m y, match cmp m y with Gt => m | _ => y end) x l')
  end.

Definition sorted_by : list A → Prop := StronglySorted (λ x y, leb_of cmp x y = true).

Lemma insert_by_perm x l : insert_by x l ≡ₚ x :: l.
Proof.
  induction l as [|y l IH]; simpl; [done|]. case_match; [done|].
  rewrite IH. apply Permutation_swap.
Qed.

Lemma sort_by_perm l : sort_by l ≡ₚ l.
Proof. induction l as [|x l IH]; simpl; [done|]. by rewrite insert_by_perm, IH. Qed.

Lemma sort_by_elem x l : x ∈ sort_by l ↔ x ∈ l.
Proof. by rewrite sort_by_perm. Qed.

Lemma sort_by_sorted_id l : sorted_by l → sort_by l = l.
Proof.
  induction 1 as [|x l Hs IH Hx]; simpl; [done|]. rewrite IH.
  destruct l as [|y l]; simpl; [done|].
  apply Forall_cons in Hx as [Hx _]. by rewrite Hx.
Qed.

Context `{!TotalCmp cmp}.

Lemma insert_by_sorted x l : sorted_by l → sorted_by (insert_by x l).
Proof.
  induction 1 as [|y l Hs IH Hy]; simpl; [repeat constructor|].
  destruct (leb_of cmp x y) eqn:E.
  - constructor; [by constructor|]. constructor; [done|].
    eapply Forall_impl; [done|]. intros z ?. by eapply leb_of_trans.
  - constructor; [done|]. rewrite insert_by_perm. constructor; [|done].
    by apply leb_of_false.
Qed.

Lemma sort_by_sorted l : sorted_by (sort_by l).
Proof. induction l; simpl; [constructor|by apply insert_by_sorted]. Qed.

(** Stability: a subset on which the comparator never orders keeps its order. *)
Lemma insert_by_stable (p : A → bool) x l :
  sorted_by l →
  (∀ y z, p y = true → p z = true → cmp y z = Eq) →
  filter p (insert_by x l) = filter p (x :: l).
Proof.
  intros Hs Hp. induction Hs as [|y l Hs IH Hy]; [done|]. simpl.
  destruct (leb_of cmp x y) eqn:E; [done|].
  rewrite filter_cons, IH, !filter_cons.
  destruct (decide (p y)) as [Hpy|], (decide (p x)) as [Hpx|]; try done.
  unfold leb_of in E. rewrite (Hp x y) in E; [done|by apply Is_true_true..].
Qed.

Lemma sort_by_stable (p : A → bool) l :
  (∀ y z, p y = true → p z = true → cmp y z = Eq) →
  filter p (sort_by l) = filter p l.
Proof.
  intros Hp. induction l as [|x l IH]; [done|]. simpl.
  rewrite insert_by_stable by auto using sort_by_sorted.
  rewrite !filter_cons. by rewrite IH.
Qed.

Lemma sort_by_unique `{!StrictCmp cmp} l1 l2 : l1 ≡ₚ l2 → sort_by l1 = sort_by l2.
Proof.
  intros Hp.
  assert (AntiSymm (=) (λ x y, leb_of cmp x y = true)).
  { intros x y H1 H2. apply (cmp_eq cmp).
    unfold leb_of in *. rewrite (cmp_opp cmp x y) in H2. by destruct (cmp x y). }
  apply (StronglySorted_unique (λ x y, leb_of cmp x y = true)).
  - apply sort_by_sorted.
  - apply sort_by_sorted.
  - by rewrite !sort_by_perm.
Qed.

Lemma max_by_acc_spec x l :
  let m := foldl (λ m y, match cmp m y with Gt => m | _ => y end) x l in
  m ∈ x :: l ∧ ∀ y, y ∈ x :: l → leb_of cmp y m = true.
Proof.
  revert x. induction l as [|y l IH]; intros x; simpl.
  { split; [constructor|]. intros z ->%list_elem_of_singleton.
    unfold leb_of. by rewrite cmp_refl. }
  set (x' := match cmp x y with Gt => x | _ => y end).
  destruct (IH x') as [Hin Hmax].
  assert (leb_of cmp x x' = true ∧ leb_of cmp y x' = true ∧ (x' = x ∨ x' = y))
    as (Hx & Hy & Hor).
  { unfold x', leb_of. destruct (cmp x y) eqn:E; rewrite ?(cmp_refl cmp), ?E; auto.
    apply (cmp_lt_gt cmp) in E. rewrite E. auto. }
  clearbody x'. rewrite !elem_of_cons.
  apply elem_of_cons in Hin.
  assert (leb_of cmp x' (foldl (λ m y, match cmp m y with Gt => m | _ => y end) x' l) = true)
    as Hx' by (apply Hmax; constructor).
  split; [destruct Hin as [Hin|Hin]; [|by auto]; rewrite Hin; naive_solver|].
  intros z Hz. apply elem_of_cons in Hz as [->|[->|Hz]%elem_of_cons].
  - by eapply leb_of_trans.
  - by eapply leb_of_trans.
  - apply Hmax. by constructor.
Qed.

Lemma max_by_spec l m :
  max_by l = Some m → m ∈ l ∧ ∀ y, y ∈ l → leb_of cmp y m = true.
Proof. destruct l as [|x l]; simpl; [done|]. intros [= <-]. apply max_by_acc_spec. Qed.

Lemma max_by_is_Some l : l ≠ [] → is_Some (max_by l).
Proof. destruct l; [done|]. intros _. by eexists. Qed.
End sorting.

(** [Vec::dedup_by_key]: drop every element whose key equals the key of the last
    element kept. *)
Section dedup.
Context {A B : Type} `{EqDecision B} (key : A → B).

Fixpoint dedup_from (last : B) (l : list A) : list A :=
  match l with
  | [] => []
  | x :: l' =>
      if bool_decide (key x = last) then dedup_from last l'
      else x :: dedup_from (key x) l'
  end.

Definition dedup_by_key (l : list A) : list A :=
  match l with
  | [] => []
  | x :: l' => x :: dedup_from (key x) l'
  end.

Lemma dedup_from_sublist b l : sublist (dedup_from b l) l.
Proof.
  revert b. induction l as [|x l IH]; intros b; simpl; [constructor|].
  case_match; constructor; auto.
Qed.

Lemma dedup_by_key_sublist l : sublist (dedup_by_key l) l.
Proof. destruct l; simpl; constructor. apply dedup_from_sublist. Qed.

Lemma dedup_from_covers b l x :
  x ∈ l → key x = b ∨ ∃ y, y ∈ dedup_from b l ∧ key y = key x.
Proof.
  revert b. induction l as [|y l IH]; intros b; [by intros ?%elem_of_nil|].
  intros [->|Hx]%elem_of_cons; simpl; case_bool_decide; simplify_eq; auto.
  - right. exists y. set_solver.
  - destruct (IH (key y) Hx) as [Hk|(z & Hz & Hk)]; right.
    + exists y. set_solver.
    + exists z. set_solver.
Qed.

Lemma dedup_by_key_covers l x :
  x ∈ l → ∃ y, y ∈ dedup_by_key l ∧ key y = key x.
Proof.
  destruct l as [|y l]; [by intros ?%elem_of_nil|].
  intros [->|Hx]%elem_of_cons; simpl.
  - exists y. set_solver.
  - destruct (dedup_from_covers (key y) l x Hx) as [Hk|(z & Hz & Hk)].
    + exists y. set_solver.
    + exists z. set_solver.
Qed.
End dedup.

Lemma insert_by_ext {A} (cmp1 cmp2 : A → A → comparison) x l :
  (∀ y, y ∈ l → cmp1 x y = cmp2 x y) → insert_by cmp1 x l = insert_by cmp2 x l.
Proof.
  induction l as [|y l IH]; intros H; simpl; [done|]. unfold leb_of.
  rewrite (H y) by constructor. rewrite IH; [done|]. intros z Hz. apply H. by constructor.
Qed.

Lemma sort_by_ext {A} (cmp1 cmp2 : A → A → comparison) l :
  (∀ x y, x ∈ l → y ∈ l → cmp1 x y = cmp2 x y) → sort_by cmp1 l = sort_by cmp2 l.
Proof.
  induction l as [|x l IH]; intros H; simpl; [done|].
  rewrite IH by (intros; apply H; by constructor).
  apply insert_by_ext. intros y Hy%sort_by_elem. apply H; by constructor.
Qed.

#[export] Instance Z_cmp_total : TotalCmp Z.compare.
Proof.
  split.
  - intros x y. apply Z.compare_antisym.
  - intros x y z. rewrite !Z.compare_le_iff. lia.
Qed.

(** Sorting and filtering commute. *)
Lemma insert_by_head {A} (cmp : A → A → comparison) x l :
  Forall (λ y, leb_of cmp x y = true) l → insert_by cmp x l = x :: l.
Proof. destruct 1 as [|y l Hy _]; simpl; [done|]. by rewrite Hy. Qed.

Lemma insert_by_filter {A} (cmp : A → A → comparison) `{!TotalCmp cmp} (p : A → bool) x l :
  sorted_by cmp l →
  filter p (insert_by cmp x l) = if p x then insert_by cmp x (filter p l) else filter p l.
Proof.
  induction 1 as [|y l Hs IH Hy]; simpl.
  { rewrite filter_cons. by destruct (p x). }
  destruct (leb_of cmp x y) eqn:E.
  - rewrite (filter_cons _ x). destruct (p x); simpl; [|done].
    symmetry. apply insert_by_head. apply Forall_forall. intros z [_ Hz]%list_elem_of_filter.
    apply elem_of_cons in Hz as [->|Hz]; [done|]. rewrite Forall_forall in Hy.
    eapply leb_of_trans; eauto.
  - rewrite !filter_cons, IH. destruct (p x), (p y); simpl; try done. by rewrite E.
Qed.

Lemma sort_by_filter {A} (cmp : A → A → comparison) `{!TotalCmp cmp} (p : A → bool) l :
  sort_by cmp (filter p l) = filter p (sort_by cmp l).
Proof.
  induction l as [|x l IH]; [done|]. simpl.
  rewrite (insert_by_filter cmp p x) by apply (sort_by_sorted cmp).
  rewrite filter_cons, <-IH. by destruct (p x).
Qed.

(** Distinct keys make the order strict. *)
Lemma sorted_by_strict {A B} (cmp : A → A → comparison) (key : A → B) l :
  (∀ x y, cmp x y = Eq → key x = key y) → NoDup (map key l) → sorted_by cmp l →
  StronglySorted (λ x y, cmp x y = Lt) l.
Proof.
  intros Hk Hnd Hs. induction Hs as [|x l Hs IH Hx]; [constructor|].
  simpl in Hnd. apply NoDup_cons in Hnd as [Hn Hnd]. constructor; [by apply IH|].
  rewrite Forall_forall in *. intros y Hy. specialize (Hx y Hy). unfold leb_of in Hx.
  destruct (cmp x y) eqn:E; [|done|done]. exfalso. apply Hn. rewrite (Hk x y E).
  apply list_elem_of_fmap. by exists y.
Qed.

(** Indices that a projection forgets. *)
Lemma map_imap {A B C} (f : nat → A → B) (g : B → C) (h : A → C) l :
  (∀ i x, g (f i x) = h x) → map g (imap f l) = map h l.
Proof.
  revert f. induction l as [|x l IH]; intros f H; [done|]. simpl. rewrite H. f_equal.
  apply IH. intros i y. apply H.
Qed.

(** A loop that pushes each candidate it meets unless one with the same key was kept. *)
Section push_new.
Context {A B K : Type} (key : A → K) (cand : B → option A) (step : list A → B → list A).
Context (step_spec : ∀ acc b,
  match cand b with
  | None => step acc b = acc
  | Some a => (key a ∈ map key acc ∧ step acc b = acc) ∨
              ((key a ∉ map key acc) ∧ step acc b = acc ++ [a])
  end).

Lemma push_new_NoDup acc bs :
  NoDup (map key acc) → NoDup (map key (foldl step acc bs)).
Proof.
  revert acc. induction bs as [|b bs IH]; intros acc Hnd; simpl; [done|].
  apply IH. pose proof (step_spec acc b) as Hs.
  destruct (cand b) as [a|]; [|by rewrite Hs].
  destruct Hs as [[_ ->]|[Hn ->]]; [done|].
  rewrite map_app. apply NoDup_app. split_and!; [done| |apply NoDup_singleton].
  intros k Hk ->%list_elem_of_singleton. done.
Qed.

Lemma push_new_keys acc bs k :
  k ∈ map key (foldl step acc bs) ↔
  k ∈ map key acc ∨ ∃ b a, b ∈ bs ∧ cand b = Some a ∧ key a = k.
Proof.
  revert acc. induction bs as [|b bs IH]; intros acc; simpl.
  { set_solver. }
  rewrite IH. pose proof (step_spec acc b) as Hs.
  destruct (cand b) as [a|] eqn:E.
  - destruct Hs as [[Hk ->]|[Hk ->]]; rewrite ?map_app; set_solver.
  - rewrite Hs. set_solver.
Qed.

Lemma push_new_elem acc bs x :
  x ∈ foldl step acc bs → x ∈ acc ∨ ∃ b, b ∈ bs ∧ cand b = Some x.
Proof.
  revert acc. induction bs as [|b bs IH]; intros acc; simpl; [auto|].
  intros [Hx|(b' & ? & ?)]%IH; [|right; exists b'; set_solver].
  pose proof (step_spec acc b) as Hs. destruct (cand b) as [a|] eqn:E.
  - destruct Hs as [[_ Hs]|[_ Hs]]; rewrite Hs in Hx; [auto|].
    apply elem_of_app in Hx as [?| ->%list_elem_of_singleton]; [auto|].
    right. exists b. set_solver.
  - rewrite Hs in Hx. auto.
Qed.
End push_new.

Lemma StronglySorted_weaken {A} (R S : A → A → Prop) l :
  (∀ x y, R x y → S x y) → StronglySorted R l → StronglySorted S l.
Proof.
  intros H. induction 1 as [|x l Hs IH Hx]; constructor; [done|].
  eapply Forall_impl; [exact Hx|]. apply H.
Qed.

(** On a list sorted by a comparator whose [Eq] is equality of keys, [dedup_by_key] leaves
    every key once, in strict order. *)
Section dedup_sorted.
Context {A B : Type} `{EqDecision B} (key : A → B) (cmp : A → A → comparison) `{!TotalCmp cmp}.
Context (key_eq : ∀ x y, cmp x y = Eq ↔ key x = key y).

Lemma dedup_from_sorted z l :
  sorted_by cmp l → Forall (λ x, leb_of cmp z x = true) l →
  StronglySorted (λ x y, cmp x y = Lt) (dedup_from key (key z) l) ∧
  Forall (λ x, cmp z x = Lt) (dedup_from key (key z) l).
Proof.
  intros Hs. revert z. induction Hs as [|x l Hs IH Hx]; intros z Hz; simpl; [by repeat constructor|].
  apply Forall_cons in Hz as [Hzx Hz]. case_bool_decide as Hk; [by apply IH|].
  destruct (IH x Hx) as [Hd Hxs].
  assert (cmp z x = Lt) as Hlt.
  { unfold leb_of in Hzx. destruct (cmp z x) eqn:E; [|done|done].
    apply key_eq in E. congruence. }
  split; [by constructor|]. constructor; [done|].
  eapply Forall_impl; [exact Hxs|]. intros y Hy. simpl in Hy.
  destruct (cmp z y) eqn:E; [|done|].
  - apply (cmp_eq_sym cmp) in E. exfalso.
    rewrite (cmp_eq_r cmp x y z E) in Hy. apply (cmp_lt_gt cmp) in Hy. congruence.
  - exfalso. apply (cmp_trans cmp z x y); congruence.
Qed.

Lemma dedup_by_key_sorted l :
  sorted_by cmp l → StronglySorted (λ x y, cmp x y = Lt) (dedup_by_key key l).
Proof.
  destruct 1 as [|x l Hs Hx]; simpl; [constructor|].
  destruct (dedup_from_sorted x l) as [H1 H2]; [done..|]. by constructor.
Qed.
End dedup_sorted.

(** Elements with distinct keys are sorted in one way, whatever order they come in. *)
Lemma sort_by_unique_on {A B} (cmp : A → A → comparison) `{!TotalCmp cmp} (key : A → B) l1 l2 :
  (∀ x y, cmp x y = Eq → key x = key y) → NoDup (map key l1) → l1 ≡ₚ l2 →
  sort_by cmp l1 = sort_by cmp l2.
Proof.
  intros Hk Hnd Hp.
  assert (∀ l, NoDup (map key l) → StronglySorted (λ x y, cmp x y = Lt ∨ x = y) (sort_by cmp l)) as Hs.
  { intros l Hl. eapply StronglySorted_weaken; [|eapply (sorted_by_strict cmp key); [done| |apply sort_by_sorted; apply _]].
    - intros x y ?. by left.
    - by rewrite sort_by_perm. }
  assert (AntiSymm (=) (λ x y, cmp x y = Lt ∨ x = y)).
  { intros x y [H1|H1] [H2|H2]; try done. apply (cmp_lt_gt cmp) in H1. congruence. }
  apply (StronglySorted_unique (λ x y, cmp x y = Lt ∨ x = y)).
  - by apply Hs.
  - apply Hs. by rewrite <-Hp.
  - by rewrite !sort_by_perm.
Qed.

(** ** Boolean tests as propositions *)

Lemma negb_Is_true b : Is_true (negb b) ↔ ¬ Is_true b.
Proof. by destruct b; cbn; tauto. Qed.
Lemma andb_Is_true a b : Is_true (a && b) ↔ Is_true a ∧ Is_true b.
Proof. by destruct a, b; cbn; tauto. Qed.
Lemma orb_Is_true a b : Is_true (a || b) ↔ Is_true a ∨ Is_true b.
Proof. by destruct a, b; cbn; tauto. Qed.

(** ** Filters by a boolean test *)

Lemma filter_all {A} (p : A → bool) (l : list A) : (∀ x, x ∈ l → p x = true) → filter (λ x, p x) l = l.
Proof.
  induction l as [|x l IH]; intros Hp; [done|]. rewrite filter_cons_True; [|by rewrite Hp by set_solver].
  f_equal. apply IH. set_solver.
Qed.

Lemma filter_filter_bool {A} (p q r : A → bool) (l : list A) :
  (∀ x, r x = q x && p x) → filter (λ x, p x) (filter (λ x, q x) l) = filter (λ x, r x) l.
Proof.
  intros Hr. induction l as [|x l IH]; [done|]. specialize (Hr x).
  destruct (q x) eqn:Hq; cbn [andb] in Hr.
  - rewrite (filter_cons_True (λ x, q x)) by by rewrite Hq.
    destruct (p x) eqn:Hp.
    + rewrite !filter_cons_True by (by rewrite ?Hr, ?Hp). by rewrite IH.
    + rewrite !filter_cons_False by (rewrite ?Hr, ?Hp; by intros ?). done.
  - rewrite (filter_cons_False (λ x, q x)) by (rewrite Hq; by intros ?).
    rewrite (filter_cons_False (λ x, r x)) by (rewrite Hr; by intros ?). done.
Qed.

Lemma filter_idem {A} (p : A → bool) (l : list A) : filter (λ x, p x) (filter (λ x, p x) l) = filter (λ x, p x) l.
Proof. apply filter_all. intros x [Hx _]%list_elem_of_filter. by apply Is_true_true. Qed.

Lemma NoDup_map_filter {A B} (f : A → B) (p : A → bool) (l : list A) :
  NoDup (map f l) → NoDup (map f (filter (λ x, p x) l)).
Proof.
  intros Hnd. eapply sublist_NoDup; [exact Hnd|]. apply (fmap_sublist f), sublist_filter.
Qed.

Lemma filter_split {A} (p : A → bool) (l : list A) : l ≡ₚ filter (λ x, p x) l ++ filter (λ x, negb (p x)) l.
Proof.
  induction l as [|x l IH]; [done|]. destruct (p x) eqn:Hp.
  - rewrite filter_cons_True by by rewrite Hp. rewrite (filter_cons_False (λ x, negb (p x))) by (rewrite Hp; by intros ?).
    cbn. by rewrite <- IH.
  - rewrite filter_cons_False by (rewrite Hp; by intros ?). rewrite (filter_cons_True (λ x, negb (p x))) by by rewrite Hp.
    rewrite <- Permutation_middle. by rewrite <- IH.
Qed.

Lemma dedup_id_elem {A} `{EqDecision A} (x : A) l : x ∈ dedup_by_key id l ↔ x ∈ l.
Proof.
  split; [intros Hx; eapply elem_of_sublist, dedup_by_key_sublist; exact Hx|].
  intros (y & Hy & Heq)%(dedup_by_key_covers id). cbn in Heq. by subst.
Qed.
