(* ===== verification/RustStr.v ===== *)
(** * The parts of Rust's [str] and [std::path] that the program uses

    A [str] is its UTF-8 encoding, a [string] of bytes (one [ascii] per byte), so
    [len], slicing and comparison are on bytes as in Rust. [char::is_whitespace] is
    decoded from the encoded White_Space code points. Paths are Unix paths. *)

From S2P Require Import Prelude.

(** ** Bytes *)

Definition byte_val (a : ascii) : N := N_of_ascii a.
Definition chr (n : N) : ascii := ascii_of_N n.

Definition byte_in (lo hi : N) (a : ascii) : bool :=
  ((lo <=? byte_val a) && (byte_val a <=? hi))%N.

Definition is_ascii_byte (a : ascii) : bool := (byte_val a <? 128)%N.
Definition is_ascii_upper (a : ascii) : bool := byte_in 65 90 a.
Definition is_ascii_lower (a : ascii) : bool := byte_in 97 122 a.
Definition is_ascii_digit (a : ascii) : bool := byte_in 48 57 a.
Definition is_ascii_alphabetic (a : ascii) : bool := is_ascii_upper a || is_ascii_lower a.
Definition is_ascii_alphanumeric (a : ascii) : bool := is_ascii_alphabetic a || is_ascii_digit a.

Definition to_ascii_lower (a : ascii) : ascii :=
  if is_ascii_upper a then chr (byte_val a + 32) else a.

(** A UTF-8 continuation byte, [b & 0xC0 == 0x80]. *)
Definition is_continuation (a : ascii) : bool := (N.land (byte_val a) 192 =? 128)%N.

Definition slash : ascii := "/".
Definition backslash : ascii := "\".
Definition newline : ascii := chr 10.
Definition carriage_return : ascii := chr 13.

Fixpoint str_map (f : ascii → ascii) (s : string) : string :=
  match s with
  | EmptyString => EmptyString
  | String a s' => String (f a) (str_map f s')
  end.

Fixpoint str_forall (p : ascii → bool) (s : string) : bool :=
  match s with
  | EmptyString => true
  | String a s' => p a && str_forall p s'
  end.

Definition is_ascii_str (s : string) : bool := str_forall is_ascii_byte s.
Definition to_ascii_lowercase (s : string) : string := str_map to_ascii_lower s.
Definition str_is_empty (s : string) : bool := (String.length s =? 0)%nat.

(** [s.replace(c, d)] for two characters of one byte. *)
Definition replace_char (c d : ascii) (s : string) : string :=
  str_map (λ a, if Ascii.eqb a c then d else a) s.

Fixpoint str_rev_app (s acc : string) : string :=
  match s with
  | EmptyString => acc
  | String a s' => str_rev_app s' (String a acc)
  end.
Definition str_rev (s : string) : string := str_rev_app s "".

(** ** Prefixes, suffixes and search *)

Fixpoint starts_with (p s : string) : bool :=
  match p, s with
  | EmptyString, _ => true
  | String a p', String b s' => Ascii.eqb a b && starts_with p' s'
  | _, _ => false
  end.

Fixpoint strip_prefix (p s : string) : option string :=
  match p, s with
  | EmptyString, _ => Some s
  | String a p', String b s' => if Ascii.eqb a b then strip_prefix p' s' else None
  | _, _ => None
  end.

Fixpoint contains (needle s : string) : bool :=
  starts_with needle s ||
  match s with
  | EmptyString => false
  | String _ s' => contains needle s'
  end.

Fixpoint last_byte (s : string) : option ascii :=
  match s with
  | EmptyString => None
  | String a EmptyString => Some a
  | String _ s' => last_byte s'
  end.

Definition ends_with_char (c : ascii) (s : string) : bool :=
  match last_byte s with Some a => Ascii.eqb a c | None => false end.

Definition starts_with_char (c : ascii) (s : string) : bool :=
  match s with String a _ => Ascii.eqb a c | EmptyString => false end.

(** ** [str::trim]

    The White_Space code points by the length of their encoding: U+0009..U+000D and
    U+0020; U+0085 and U+00A0; U+1680, U+2000..U+200A, U+2028, U+2029, U+202F, U+205F
    and U+3000. *)

Definition ws1 (a : ascii) : bool := byte_in 9 13 a || (byte_val a =? 32)%N.
Definition ws2 (a b : ascii) : bool :=
  (byte_val a =? 194)%N && ((byte_val b =? 133) || (byte_val b =? 160))%N.
Definition ws3 (a b c : ascii) : bool :=
  let x := byte_val a in let y := byte_val b in let z := byte_val c in
  (((x =? 225) && (y =? 154) && (z =? 128)) ||
   ((x =? 226) && (y =? 128) &&
    (((128 <=? z) && (z <=? 138)) || (z =? 168) || (z =? 169) || (z =? 175))) ||
   ((x =? 226) && (y =? 129) && (z =? 159)) ||
   ((x =? 227) && (y =? 128) && (z =? 128)))%N.

Fixpoint trim_start (s : string) : string :=
  match s with
  | String a ((String b ((String c s3) as s2)) as s1) =>
      if ws1 a then trim_start s1
      else if ws2 a b then trim_start s2
      else if ws3 a b c then trim_start s3
      else s
  | String a ((String b EmptyString) as s1) =>
      if ws1 a then trim_start s1
      else if ws2 a b then EmptyString
      else s
  | String a EmptyString => if ws1 a then EmptyString else s
  | EmptyString => EmptyString
  end.

(** The same scan on the reversed bytes. *)
Fixpoint trim_start_rev (s : string) : string :=
  match s with
  | String a ((String b ((String c s3) as s2)) as s1) =>
      if ws1 a then trim_start_rev s1
      else if ws2 b a then trim_start_rev s2
      else if ws3 c b a then trim_start_rev s3
      else s
  | String a ((String b EmptyString) as s1) =>
      if ws1 a then trim_start_rev s1
      else if ws2 b a then EmptyString
      else s
  | String a EmptyString => if ws1 a then EmptyString else s
  | EmptyString => EmptyString
  end.

Definition trim_end (s : string) : string := str_rev (trim_start_rev (str_rev s)).
Definition trim (s : string) : string := trim_end (trim_start s).

(** ** Splitting and joining *)

Fixpoint split_char (c : ascii) (s : string) : list string :=
  match s with
  | EmptyString => [EmptyString]
  | String a s' =>
      if Ascii.eqb a c then EmptyString :: split_char c s'
      else match split_char c s' with
           | [] => [String a EmptyString]
           | w :: ws => String a w :: ws
           end
  end.

Definition join (sep : string) (l : list string) : string := String.concat sep l.

Definition strip_cr (s : string) : string :=
  if ends_with_char carriage_return s
  then str_rev (match str_rev s with String _ r => r | EmptyString => EmptyString end)
  else s.

(** [str::lines]: lines end at LF or CR LF; a final line needs no terminator, and a
    CR it ends with is then kept. *)
Fixpoint lines_of (ws : list string) : list string :=
  match ws with
  | [] => []
  | [w] => if str_is_empty w then [] else [w]
  | w :: ws' => strip_cr w :: lines_of ws'
  end.
Definition lines (s : string) : list string := lines_of (split_char newline s).

(** Decimal rendering of an unsigned integer, as [format!] prints it. *)
Definition show_N (n : N) : string := pretty n.
Definition show_nat (n : nat) : string := pretty (N.of_nat n).

(** ** UTF-8

    [str::from_utf8]: the well-formed byte sequences of the Unicode standard (table 3-7). *)

Fixpoint valid_utf8 (s : string) : bool :=
  match s with
  | EmptyString => true
  | String a s1 =>
      if is_ascii_byte a then valid_utf8 s1
      else
        match s1 with
        | EmptyString => false
        | String b s2 =>
            if byte_in 194 223 a then byte_in 128 191 b && valid_utf8 s2
            else
              match s2 with
              | EmptyString => false
              | String c s3 =>
                  if (byte_val a =? 224)%N then
                    byte_in 160 191 b && byte_in 128 191 c && valid_utf8 s3
                  else if (byte_val a =? 237)%N then
                    byte_in 128 159 b && byte_in 128 191 c && valid_utf8 s3
                  else if byte_in 225 239 a then
                    byte_in 128 191 b && byte_in 128 191 c && valid_utf8 s3
                  else
                    match s3 with
                    | EmptyString => false
                    | String d s4 =>
                        ((byte_val a =? 240)%N && byte_in 144 191 b
                         || byte_in 241 243 a && byte_in 128 191 b
                         || (byte_val a =? 244)%N && byte_in 128 143 b)
                        && byte_in 128 191 c && byte_in 128 191 d && valid_utf8 s4
                    end
              end
        end
  end.

(** ** [std::path] on Unix

    [camino::Utf8Path] is the UTF-8 view of [std::path::Path]; its operations are the
    standard library's. Empty and non-leading [.] segments are not components. *)

Inductive Component :=
| RootDir
| CurDir
| ParentDir
| Normal (name : string).

Definition is_absolute (p : string) : bool := starts_with_char slash p.

Definition segment_component (seg : string) : list Component :=
  if String.eqb seg "" then []
  else if String.eqb seg "." then []
  else if String.eqb seg ".." then [ParentDir]
  else [Normal seg].

Definition components (p : string) : list Component :=
  let segs := split_char slash p in
  if is_absolute p then RootDir :: mbind segment_component segs
  else
    match segs with
    | seg :: segs => (if String.eqb seg "." then [CurDir] else segment_component seg)
                     ++ mbind segment_component segs
    | [] => []
    end.

(** [Path::file_name]. *)
Definition file_name (p : string) : option string :=
  match last (components p) with Some (Normal n) => Some n | _ => None end.

(** [Path::join]. *)
Definition path_join (base rel : string) : string :=
  if is_absolute rel then rel
  else if str_is_empty base || ends_with_char slash base then base +:+ rel
  else base +:+ "/" +:+ rel.

(** [Path::parent], on the raw text: drop the trailing segments that are no components,
    the last component, and the separators and dots before it. *)
Fixpoint drop_ignored (leading_dot : bool) (segs : list string) : list string :=
  match segs with
  | seg :: segs' =>
      if String.eqb seg "" ||
         String.eqb seg "." && negb (leading_dot && bool_decide (segs' = []))
      then drop_ignored leading_dot segs' else segs
  | [] => []
  end.

Definition path_parent (p : string) : option string :=
  let segs := split_char slash p in
  if is_absolute p then
    match drop_ignored false (rev (tail segs)) with
    | [] => None
    | _ :: rest => Some ("/" +:+ join "/" (rev (drop_ignored false rest)))
    end
  else
    match drop_ignored true (rev segs) with
    | [] => None
    | _ :: rest => Some (join "/" (rev (drop_ignored true rest)))
    end.

(** *** Searching for a text *)

Fixpoint str_drop (n : nat) (s : string) : string :=
  match n, s with
  | S n, String _ s => str_drop n s
  | _, _ => s
  end.

Fixpoint str_take (n : nat) (s : string) : string :=
  match n, s with
  | S n, String a s => String a (str_take n s)
  | _, _ => ""
  end.

Definition ends_with (p s : string) : bool := starts_with (str_rev p) (str_rev s).

(** [str::find] and [str::rfind] of a non-empty text: byte positions. *)
Fixpoint find_sub (p s : string) : option nat :=
  if starts_with p s then Some 0%nat
  else match s with
       | EmptyString => None
       | String _ s => S <$> find_sub p s
       end.

Fixpoint rfind_sub (p s : string) : option nat :=
  match s with
  | EmptyString => None
  | String _ s' =>
      match rfind_sub p s' with
      | Some n => Some (S n)
      | None => if starts_with p s then Some 0%nat else None
      end
  end.

(** [str::split] by a non-empty text; every occurrence takes at least one byte. *)
Fixpoint split_str_fuel (fuel : nat) (sep s : string) : list string :=
  match fuel with
  | O => [s]
  | S fuel =>
      match find_sub sep s with
      | None => [s]
      | Some n => str_take n s :: split_str_fuel fuel sep (str_drop (n + String.length sep) s)
      end
  end.

Definition split_str (sep s : string) : list string := split_str_fuel (String.length s) sep s.

(** [trim_start_matches] of a non-empty text, and of a character at either end. *)
Fixpoint trim_start_str_fuel (fuel : nat) (p s : string) : string :=
  match fuel with
  | O => s
  | S fuel =>
      match strip_prefix p s with
      | Some s => trim_start_str_fuel fuel p s
      | None => s
      end
  end.

Definition trim_start_str (p s : string) : string := trim_start_str_fuel (String.length s) p s.

Fixpoint trim_start_char (c : ascii) (s : string) : string :=
  match s with
  | String a s' => if Ascii.eqb a c then trim_start_char c s' else s
  | EmptyString => ""
  end.

Definition trim_end_char (c : ascii) (s : string) : string :=
  str_rev (trim_start_char c (str_rev s)).
Definition trim_char (c : ascii) (s : string) : string := trim_end_char c (trim_start_char c s).

(** ** Lemmas *)

Lemma to_ascii_lower_idemp a : to_ascii_lower (to_ascii_lower a) = to_ascii_lower a.
Proof. by destruct a as [[] [] [] [] [] [] [] []]. Qed.

Lemma str_map_map f g s : str_map f (str_map g s) = str_map (f ∘ g) s.
Proof. induction s as [|a s IH]; simpl; [done|]. by rewrite IH. Qed.

Lemma str_map_ext f g s : (∀ a, f a = g a) → str_map f s = str_map g s.
Proof. intros H. induction s as [|a s IH]; simpl; [done|]. by rewrite IH, H. Qed.

Lemma to_ascii_lowercase_idemp s :
  to_ascii_lowercase (to_ascii_lowercase s) = to_ascii_lowercase s.
Proof. unfold to_ascii_lowercase. rewrite str_map_map. apply str_map_ext, to_ascii_lower_idemp. Qed.

(** *** Splitting and joining *)

Definition no_char (c : ascii) (s : string) : bool := str_forall (λ a, negb (Ascii.eqb a c)) s.

Lemma str_app_cons a s t : String a s +:+ t = String a (s +:+ t).
Proof. reflexivity. Qed.

Lemma str_app_nil_l s : "" +:+ s = s.
Proof. reflexivity. Qed.

Lemma str_app_nil_r s : s +:+ "" = s.
Proof. induction s as [|a s IH]; [done|]. by rewrite str_app_cons, IH. Qed.

Lemma str_app_assoc s t u : s +:+ (t +:+ u) = (s +:+ t) +:+ u.
Proof. induction s as [|a s IH]; [done|]. by rewrite !str_app_cons, IH. Qed.

Lemma str_forall_app p s t : str_forall p (s +:+ t) = str_forall p s && str_forall p t.
Proof. induction s as [|a s IH]; [done|]. rewrite str_app_cons. simpl. by rewrite IH, andb_assoc. Qed.

Lemma str_length_app s t : String.length (s +:+ t) = (String.length s + String.length t)%nat.
Proof. induction s as [|a s IH]; [done|]. rewrite str_app_cons. simpl. by rewrite IH. Qed.

Lemma str_is_empty_iff s : str_is_empty s = true ↔ s = "".
Proof. by destruct s. Qed.

Lemma split_char_ne c s : split_char c s ≠ [].
Proof.
  destruct s as [|a s]; simpl; [done|]. destruct (Ascii.eqb a c); [done|].
  by destruct (split_char c s).
Qed.

Lemma split_char_no_char c s : Forall (λ w, no_char c w = true) (split_char c s).
Proof.
  induction s as [|a s IH]; simpl; [by repeat constructor|].
  destruct (Ascii.eqb a c) eqn:E; [by constructor|].
  destruct (split_char c s) as [|w ws]; [repeat constructor; unfold no_char; simpl; by rewrite E|].
  apply Forall_cons in IH as [Hw Hws]. constructor; [|done].
  unfold no_char in *. simpl. by rewrite E, Hw.
Qed.

Lemma join_cons2 sep w w' ws : join sep (w :: w' :: ws) = w +:+ sep +:+ join sep (w' :: ws).
Proof. reflexivity. Qed.

Lemma join_cons sep w ws : ws ≠ [] → join sep (w :: ws) = w +:+ sep +:+ join sep ws.
Proof. by destruct ws. Qed.

Lemma join_app sep ws ws' :
  ws ≠ [] → ws' ≠ [] → join sep (ws ++ ws') = join sep ws +:+ sep +:+ join sep ws'.
Proof.
  intros Hne Hne'. induction ws as [|w ws IH]; [done|]. clear Hne.
  destruct (decide (ws = [])) as [->|Hws]; simpl app.
  - rewrite join_cons by done. done.
  - rewrite !join_cons by (by destruct ws). rewrite IH by done. by rewrite !str_app_assoc.
Qed.

Lemma join_split c s : join (String c "") (split_char c s) = s.
Proof.
  induction s as [|a s IH]; [done|]. simpl.
  destruct (Ascii.eqb_spec a c) as [->|Hne].
  - rewrite join_cons by apply split_char_ne. rewrite IH. reflexivity.
  - destruct (split_char c s) as [|w ws] eqn:E; [by apply split_char_ne in E|].
    rewrite <-IH. destruct ws; reflexivity.
Qed.

Lemma split_char_app c w s :
  no_char c w = true → split_char c (w +:+ String c s) = w :: split_char c s.
Proof.
  induction w as [|a w IH]; [intros _; simpl; by rewrite Ascii.eqb_refl|].
  intros [Ha Hw]%andb_true_iff. apply negb_true_iff in Ha.
  rewrite str_app_cons. cbn [split_char]. by rewrite Ha, IH.
Qed.

Lemma split_char_single c w : no_char c w = true → split_char c w = [w].
Proof.
  induction w as [|a w IH]; [done|]. unfold no_char. simpl.
  intros [Ha Hw]%andb_true_iff. apply negb_true_iff in Ha. by rewrite Ha, IH.
Qed.

Lemma split_join c ws :
  ws ≠ [] → Forall (λ w, no_char c w = true) ws → split_char c (join (String c "") ws) = ws.
Proof.
  intros Hne. induction 1 as [|w ws Hw Hws IH]; [done|].
  destruct (decide (ws = [])) as [->|Hws'].
  - by apply split_char_single.
  - rewrite join_cons by done. rewrite str_app_cons, str_app_nil_l, split_char_app by done.
    by rewrite IH.
Qed.

Lemma split_inj c a b s t :
  no_char c a = true → no_char c b = true →
  a +:+ String c s = b +:+ String c t → a = b ∧ s = t.
Proof.
  intros Ha Hb H. pose proof (f_equal (split_char c) H) as Hs.
  rewrite !split_char_app in Hs by done. injection Hs as -> Hs. split; [done|].
  rewrite <-(join_split c s), <-(join_split c t). by rewrite Hs.
Qed.

Lemma no_char_join c d ws :
  c ≠ d → Forall (λ w, no_char c w = true) ws → no_char c (join (String d "") ws) = true.
Proof.
  intros Hne. induction 1 as [|w ws Hw Hws IH]; [done|].
  destruct (decide (ws = [])) as [->|]; [done|].
  rewrite join_cons by done. unfold no_char in *.
  rewrite !str_forall_app, Hw, IH. simpl. destruct (Ascii.eqb_spec d c); [congruence|done].
Qed.

Lemma no_char_split c d s : no_char c s = true → Forall (λ w, no_char c w = true) (split_char d s).
Proof.
  unfold no_char. induction s as [|a s IH]; simpl; [by repeat constructor|].
  intros [Ha Hs]%andb_true_iff. specialize (IH Hs).
  destruct (Ascii.eqb a d); [by constructor|].
  destruct (split_char d s) as [|w ws]; [repeat constructor; simpl; by rewrite Ha|].
  apply Forall_cons in IH as [Hw Hws]. constructor; [|done]. simpl. by rewrite Ha, Hw.
Qed.

(** *** Last byte and replacement *)

Lemma last_byte_app s a t : last_byte (s +:+ String a t) = last_byte (String a t).
Proof.
  induction s as [|b s IH]; [done|]. rewrite str_app_cons.
  destruct s as [|b' s]; [done|]. rewrite str_app_cons in *. simpl in *. done.
Qed.

Lemma last_byte_None s : last_byte s = None ↔ s = "".
Proof.
  split; [|by intros ->]. induction s as [|a s IH]; [done|].
  destruct s; simpl in *; [done|]. intros H. by apply IH in H.
Qed.

Lemma replace_char_no_char c d s : c ≠ d → no_char c (replace_char c d s) = true.
Proof.
  intros Hne. unfold no_char, replace_char. induction s as [|a s IH]; simpl; [done|].
  rewrite IH, andb_true_r. destruct (Ascii.eqb_spec a c) as [->|Hac].
  - by destruct (Ascii.eqb_spec d c) as [->|].
  - by destruct (Ascii.eqb_spec a c).
Qed.

Lemma replace_char_id c d s : no_char c s = true → replace_char c d s = s.
Proof.
  unfold no_char, replace_char. induction s as [|a s IH]; simpl; [done|].
  intros [Ha Hs]%andb_true_iff. apply negb_true_iff in Ha. by rewrite Ha, IH.
Qed.

(** *** Pieces of a text *)

Lemma str_take_app t r : str_take (String.length t) (t +:+ r) = t.
Proof. induction t as [|a t IH]; [by destruct r|]. rewrite str_app_cons. simpl. by rewrite IH. Qed.

Lemma str_drop_app t r n : str_drop (String.length t + n) (t +:+ r) = str_drop n r.
Proof. induction t as [|a t IH]; [done|]. rewrite str_app_cons. simpl. exact IH. Qed.

Lemma str_drop_0 s : str_drop 0 s = s.
Proof. done. Qed.

Lemma str_take_drop n s : str_take n s +:+ str_drop n s = s.
Proof.
  revert s. induction n as [|n IH]; intros s; [done|]. destruct s as [|a s]; [done|].
  simpl str_take. simpl str_drop. by rewrite str_app_cons, IH.
Qed.

Lemma str_drop_drop n m s : str_drop n (str_drop m s) = str_drop (m + n) s.
Proof.
  revert s. induction m as [|m IH]; intros s; [done|].
  destruct s as [|a s]; [by destruct n|]. apply IH.
Qed.

Lemma str_length_drop n s : String.length (str_drop n s) = (String.length s - n)%nat.
Proof. revert s. induction n as [|n IH]; intros [|a s]; simpl; auto. Qed.

Lemma str_length_take n s : String.length (str_take n s) = Nat.min n (String.length s).
Proof. revert s. induction n as [|n IH]; intros [|a s]; simpl; auto. Qed.

Lemma str_get_lt s i : (i < String.length s)%nat ↔ is_Some (String.get i s).
Proof.
  revert i. induction s as [|a s IH]; intros [|i]; simpl.
  - split; [lia|by intros [? ?]].
  - split; [lia|by intros [? ?]].
  - split; [by eexists|lia].
  - rewrite <-IH. lia.
Qed.

Lemma str_forall_get p s i a : str_forall p s = true → String.get i s = Some a → p a = true.
Proof.
  revert i. induction s as [|b s IH]; intros [|i]; simpl; try done.
  - intros [Hb _]%andb_true_iff. congruence.
  - intros [_ Hs]%andb_true_iff. by apply IH.
Qed.

Lemma last_byte_get s : last_byte s = String.get (String.length s - 1) s.
Proof.
  induction s as [|a s IH]; [done|]. destruct s as [|b s]; [done|].
  change (last_byte (String a (String b s))) with (last_byte (String b s)). rewrite IH. simpl.
  by rewrite Nat.sub_0_r.
Qed.

(** All bytes of the pieces, all bytes of a joined text. *)
Lemma str_forall_split p c s : str_forall p s = true → Forall (λ w, str_forall p w = true) (split_char c s).
Proof.
  induction s as [|a s IH]; simpl; [by repeat constructor|].
  intros [Ha Hs]%andb_true_iff. specialize (IH Hs). destruct (Ascii.eqb a c); [by constructor|].
  destruct (split_char c s) as [|w ws]; [repeat constructor; simpl; by rewrite Ha|].
  apply Forall_cons in IH as [Hw Hws]. constructor; [|done]. simpl. by rewrite Ha, Hw.
Qed.

Lemma str_forall_join p c ws :
  p c = true → Forall (λ w, str_forall p w = true) ws → str_forall p (join (String c "") ws) = true.
Proof.
  intros Hc. induction 1 as [|w ws Hw Hws IH]; [done|].
  destruct (decide (ws = [])) as [->|]; [done|].
  rewrite join_cons by done. rewrite !str_forall_app, Hw, IH. simpl. by rewrite Hc.
Qed.

(** The texts of a list, one after the other, and the bytes that satisfy a test. *)
Definition str_cat (ws : list string) : string := foldr String.append "" ws.

Lemma str_cat_app ws ws' : str_cat (ws ++ ws') = str_cat ws +:+ str_cat ws'.
Proof. induction ws as [|w ws IH]; [done|]. simpl. by rewrite IH, str_app_assoc. Qed.

Lemma str_cat_concat wss : str_cat (concat wss) = str_cat (map str_cat wss).
Proof. induction wss as [|ws wss IH]; [done|]. simpl. by rewrite str_cat_app, IH. Qed.

Fixpoint str_filter (p : ascii → bool) (s : string) : string :=
  match s with
  | EmptyString => EmptyString
  | String a s => if p a then String a (str_filter p s) else str_filter p s
  end.

Lemma str_filter_app p s t : str_filter p (s +:+ t) = str_filter p s +:+ str_filter p t.
Proof.
  induction s as [|a s IH]; [done|]. rewrite str_app_cons. simpl. rewrite IH.
  by destruct (p a).
Qed.

Lemma str_filter_all p s : str_forall p s = true → str_filter p s = s.
Proof.
  induction s as [|a s IH]; [done|]. simpl. intros [-> Hs]%andb_true_iff. by rewrite IH.
Qed.

Lemma str_filter_cat p ws : str_filter p (str_cat ws) = str_cat (map (str_filter p) ws).
Proof. induction ws as [|w ws IH]; [done|]. simpl. by rewrite str_filter_app, IH. Qed.

(** A text without the bytes [c]. *)
Definition without (c : ascii) : string → string := str_filter (λ a, negb (Ascii.eqb a c)).

Lemma without_split c s : without c s = str_cat (split_char c s).
Proof.
  unfold without. induction s as [|a s IH]; [done|]. simpl. destruct (Ascii.eqb a c); simpl.
  - by rewrite IH.
  - rewrite IH. destruct (split_char c s) as [|w ws]; [done|]. simpl. by rewrite str_app_cons.
Qed.

Lemma without_join c ws : without c (join (String c "") ws) = str_cat (map (without c) ws).
Proof.
  induction ws as [|w ws IH]; [done|]. destruct (decide (ws = [])) as [->|Hne].
  - simpl. by rewrite str_app_nil_r.
  - rewrite join_cons by done. unfold without in *. rewrite !str_filter_app, IH. simpl.
    by rewrite Ascii.eqb_refl.
Qed.

Lemma without_id c s : no_char c s = true → without c s = s.
Proof. apply str_filter_all. Qed.

(** *** Lines of a text without carriage returns *)

Lemma ends_with_char_no c s : no_char c s = true → ends_with_char c s = false.
Proof.
  intros H. unfold ends_with_char. rewrite last_byte_get.
  destruct (String.get _ s) as [a|] eqn:E; [|done].
  pose proof (str_forall_get _ _ _ _ H E) as Ha. by apply negb_true_iff in Ha.
Qed.

Lemma strip_cr_id s : no_char carriage_return s = true → strip_cr s = s.
Proof. intros H. unfold strip_cr. by rewrite ends_with_char_no. Qed.

Lemma lines_of_sub ws :
  Forall (λ w, no_char carriage_return w = true) ws →
  ∀ w, w ∈ lines_of ws → w ∈ ws.
Proof.
  induction 1 as [|w ws Hw Hws IH]; [by intros x ?%elem_of_nil|]. intros x.
  destruct ws as [|w' ws]; simpl.
  - destruct (str_is_empty w); [by intros ?%elem_of_nil|done].
  - rewrite strip_cr_id by done. intros [->|Hx]%elem_of_cons; [constructor|].
    constructor. by apply IH.
Qed.

Lemma lines_of_cat ws :
  Forall (λ w, no_char carriage_return w = true) ws → str_cat (lines_of ws) = str_cat ws.
Proof.
  induction 1 as [|w ws Hw Hws IH]; [done|]. destruct ws as [|w' ws].
  - simpl. destruct (str_is_empty w) eqn:E; [|done]. apply str_is_empty_iff in E. by subst.
  - change (str_cat (lines_of (w :: w' :: ws))) with (strip_cr w +:+ str_cat (lines_of (w' :: ws))).
    by rewrite strip_cr_id, IH.
Qed.

Lemma lines_cat s : no_char carriage_return s = true → str_cat (lines s) = without newline s.
Proof. intros H. unfold lines. by rewrite lines_of_cat, without_split by by apply no_char_split. Qed.

(** The lines of a text have no line feeds, and only bytes of the text. *)
Lemma lines_forall p s :
  no_char carriage_return s = true → str_forall p s = true →
  Forall (λ l, str_forall p l = true ∧ no_char newline l = true ∧ no_char carriage_return l = true)
    (lines s).
Proof.
  intros Hcr Hp. apply Forall_forall. intros l Hl.
  apply lines_of_sub in Hl; [|by apply no_char_split].
  pose proof (str_forall_split p newline s Hp) as H1.
  pose proof (split_char_no_char newline s) as H2.
  pose proof (no_char_split carriage_return newline s Hcr) as H3.
  rewrite Forall_forall in H1, H2, H3. auto.
Qed.

(** ** Words and bounded splits *)

(** The bytes of the white-space character a text begins with, if any. *)
Definition ws_len (s : string) : nat :=
  match s with
  | String a s1 =>
      if ws1 a then 1
      else match s1 with
           | String b s2 =>
               if ws2 a b then 2
               else match s2 with String c _ => if ws3 a b c then 3 else 0 | EmptyString => 0 end
           | EmptyString => 0
           end
  | EmptyString => 0
  end%nat.

Fixpoint take_word (s : string) : string * string :=
  match s with
  | EmptyString => (EmptyString, EmptyString)
  | String a s' =>
      if (0 <? ws_len s)%nat then (EmptyString, s)
      else let '(w, r) := take_word s' in (String a w, r)
  end.

(** [str::split_whitespace]: every word takes at least one byte. *)
Fixpoint split_whitespace_fuel (fuel : nat) (s : string) : list string :=
  match fuel with
  | O => []
  | S fuel =>
      let s := trim_start s in
      if str_is_empty s then []
      else let '(w, r) := take_word s in w :: split_whitespace_fuel fuel r
  end.
Definition split_whitespace (s : string) : list string := split_whitespace_fuel (S (String.length s)) s.

(** [str::split_once] of a non-empty separator. *)
Definition split_once (sep s : string) : option (string * string) :=
  n ← find_sub sep s; Some (str_take n s, str_drop (n + String.length sep) s).

(** [str::splitn] with a character: at most [n] parts. *)
Fixpoint splitn_char (n : nat) (c : ascii) (s : string) : list string :=
  match n with
  | O => []
  | S O => [s]
  | S n' =>
      match split_once (String c "") s with
      | Some (w, r) => w :: splitn_char n' c r
      | None => [s]
      end
  end.

Definition trim_end_str (p s : string) : string := str_rev (trim_start_str (str_rev p) (str_rev s)).

(** ** Numbers read from texts: [str::parse] *)

Fixpoint parse_digits (acc : N) (s : string) : option N :=
  match s with
  | EmptyString => Some acc
  | String a s => if is_ascii_digit a then parse_digits (acc * 10 + (byte_val a - 48)) s else None
  end%N.

Definition parse_unsigned (max : N) (s : string) : option N :=
  let digits := default s (strip_prefix "+" s) in
  if str_is_empty digits then None
  else n ← parse_digits 0 digits; if (n <=? max)%N then Some n else None.

Definition parse_u64 : string → option N := parse_unsigned u64_max.

Definition parse_i64 (s : string) : option Z :=
  match strip_prefix "-" s with
  | Some digits =>
      if str_is_empty digits then None
      else n ← parse_digits 0 digits;
           if (n <=? 9223372036854775808)%N then Some (- Z.of_N n)%Z else None
  | None => Z.of_N <$> parse_unsigned 9223372036854775807 s
  end.

Lemma parse_pretty_go n : ∀ s acc, (acc = 0)%N → parse_digits acc (pretty_N_go n s) = parse_digits n s.
Proof.
  induction (N.lt_wf_0 n) as [n _ IH]. intros s acc ->.
  destruct (decide (n = 0)%N) as [->|Hn].
  - by rewrite pretty_N_go_0.
  - rewrite pretty_N_go_step by lia. rewrite IH; [|by apply N.div_lt; lia|done].
    cbn [parse_digits]. pose proof (N.mod_lt n 10 ltac:(lia)) as Hm.
    pose proof (N.div_mod n 10 ltac:(lia)) as Hd.
    assert (is_ascii_digit (pretty_N_char (n mod 10)) = true ∧
            (byte_val (pretty_N_char (n mod 10)) - 48 = n mod 10)%N) as [-> ->].
    { clear Hd. revert Hm. generalize (n mod 10)%N. intros m Hm.
      assert (m = 0 ∨ m = 1 ∨ m = 2 ∨ m = 3 ∨ m = 4 ∨ m = 5 ∨ m = 6 ∨ m = 7 ∨ m = 8 ∨ m = 9)%N as Hc by lia.
      by repeat destruct Hc as [->|Hc]; subst. }
    f_equal. lia.
Qed.

Lemma parse_digits_show (n : N) : parse_digits 0 (pretty n) = Some n.
Proof.
  unfold pretty, pretty_N. case_decide as Hn; [by subst|]. by rewrite parse_pretty_go.
Qed.

Lemma show_N_digits (n : N) : str_forall is_ascii_digit (pretty n) = true ∧ pretty n ≠ "".
Proof.
  assert (∀ (n : N) s, str_forall is_ascii_digit s = true → str_forall is_ascii_digit (pretty_N_go n s) = true) as Hgo.
  { intros m. induction (N.lt_wf_0 m) as [m _ IH]. intros s Hs.
    destruct (decide (m = 0)%N) as [->|Hm]; [by rewrite pretty_N_go_0|].
    rewrite pretty_N_go_step by lia. apply IH; [by apply N.div_lt; lia|].
    cbn [str_forall]. rewrite Hs, andb_true_r.
    pose proof (N.mod_lt m 10 ltac:(lia)) as Hr. revert Hr. generalize (m mod 10)%N. intros r Hr.
    assert (r = 0 ∨ r = 1 ∨ r = 2 ∨ r = 3 ∨ r = 4 ∨ r = 5 ∨ r = 6 ∨ r = 7 ∨ r = 8 ∨ r = 9)%N as Hc by lia.
    by repeat destruct Hc as [->|Hc]; subst. }
  split.
  - unfold pretty, pretty_N. case_decide; [done|]. by apply Hgo.
  - intros He. pose proof (parse_digits_show n) as Hp. rewrite He in Hp. cbn in Hp.
    injection Hp as <-. by vm_compute in He.
Qed.

Lemma parse_unsigned_show (max n : N) : (n ≤ max)%N → parse_unsigned max (pretty n) = Some n.
Proof.
  intros Hn. unfold parse_unsigned. destruct (show_N_digits n) as [Hd Hne].
  destruct (pretty n) as [|a s] eqn:Hs; [done|]. cbn [strip_prefix].
  cbn [str_forall] in Hd. apply andb_true_iff in Hd as [Ha _].
  destruct (Ascii.eqb_spec "+" a) as [<-|]; [done|]. cbn [default str_is_empty String.length Nat.eqb].
  rewrite <- Hs, parse_digits_show. cbn [mbind option_bind]. by rewrite (proj2 (N.leb_le _ _) Hn).
Qed.

(** Visible ASCII is never trimmed. *)
Definition graphic (a : ascii) : bool := byte_in 33 126 a.

Lemma graphic_not_ws a b c : graphic a = true →
  ws1 a = false ∧ ws2 a b = false ∧ ws3 a b c = false ∧ ws2 b a = false ∧ ws3 c b a = false.
Proof.
  unfold graphic, ws1, ws2, ws3, byte_in. rewrite andb_true_iff, !N.leb_le. intros [H1 H2].
  rewrite !orb_false_iff, !andb_false_iff, !orb_false_iff, !andb_false_iff, !N.eqb_neq, !N.leb_gt.
  split_and!; lia.
Qed.

Lemma trim_start_graphic s : match s with String a _ => graphic a = true | EmptyString => True end →
  trim_start s = s ∧ trim_start_rev s = s.
Proof.
  destruct s as [|a [|b [|c s]]]; intros Ha; [done|..]; cbn [trim_start trim_start_rev].
  - by destruct (graphic_not_ws a a a Ha) as (-> & _).
  - by destruct (graphic_not_ws a b b Ha) as (-> & -> & _ & -> & _).
  - by destruct (graphic_not_ws a b c Ha) as (-> & -> & -> & -> & ->).
Qed.

Lemma str_rev_app_rev s : ∀ acc, str_rev (str_rev_app s acc) = str_rev_app acc s.
Proof. induction s as [|a s IH]; intros acc; [done|]. apply (IH (String a acc)). Qed.

Lemma str_rev_rev s : str_rev (str_rev s) = s.
Proof. apply str_rev_app_rev. Qed.

Lemma str_forall_rev_app p s : ∀ acc, str_forall p (str_rev_app s acc) = str_forall p s && str_forall p acc.
Proof.
  induction s as [|a s IH]; intros acc; [done|]. cbn [str_rev_app str_forall]. rewrite IH. cbn [str_forall].
  by rewrite andb_assoc, (andb_comm _ (p a)).
Qed.

Lemma trim_graphic s : str_forall graphic s = true → trim s = s.
Proof.
  intros Hs. unfold trim, trim_end.
  assert (∀ t, str_forall graphic t = true → trim_start t = t ∧ trim_start_rev t = t) as Ht.
  { intros t Ht. apply trim_start_graphic. destruct t as [|a t]; [done|].
    cbn [str_forall] in Ht. by apply andb_true_iff in Ht as [? _]. }
  assert (str_forall graphic (str_rev s) = true) as Hr
    by (unfold str_rev; by rewrite str_forall_rev_app, Hs).
  rewrite (proj1 (Ht s Hs)), (proj2 (Ht _ Hr)). apply str_rev_rev.
Qed.

(** ** Prefixes, suffixes and the first occurrence *)

Lemma starts_with_iff p s : starts_with p s = true ↔ ∃ r, s = p +:+ r.
Proof.
  revert s. induction p as [|a p IH]; intros s; cbn [starts_with].
  - split; [by exists s|done].
  - destruct s as [|b s]; [split; [done|intros [r Hr]; rewrite str_app_cons in Hr; done]|].
    rewrite andb_true_iff, Ascii.eqb_eq, IH. setoid_rewrite str_app_cons. split.
    + intros [-> [r ->]]. by exists r.
    + intros [r [= -> ->]]. eauto.
Qed.

Lemma find_sub_char c w r : no_char c w = true → find_sub (String c "") (w +:+ String c r) = Some (String.length w).
Proof.
  induction w as [|a w IH]; intros Hw.
  - rewrite str_app_nil_l. cbn. by rewrite Ascii.eqb_refl.
  - unfold no_char in Hw. cbn [str_forall] in Hw. apply andb_true_iff in Hw as [Ha Hw].
    apply negb_true_iff in Ha. rewrite str_app_cons. cbn [find_sub starts_with].
    rewrite Ascii.eqb_sym, Ha. cbn [andb]. by rewrite IH.
Qed.

Lemma split_once_char c w r : no_char c w = true → split_once (String c "") (w +:+ String c r) = Some (w, r).
Proof.
  intros Hw. unfold split_once. rewrite find_sub_char by done. cbn [mbind option_bind].
  by rewrite str_take_app, str_drop_app.
Qed.

Lemma str_rev_app_acc s : ∀ acc, str_rev_app s acc = str_rev s +:+ acc.
Proof.
  unfold str_rev. induction s as [|a s IH]; intros acc; simpl; [done|].
  rewrite IH, (IH (String a "")). by rewrite <-str_app_assoc.
Qed.

Lemma str_rev_cat s t : str_rev (s +:+ t) = str_rev t +:+ str_rev s.
Proof.
  induction s as [|a s IH]; [by rewrite str_app_nil_l, str_app_nil_r|].
  rewrite str_app_cons. unfold str_rev at 1 3. cbn [str_rev_app].
  by rewrite !str_rev_app_acc, IH, str_app_assoc.
Qed.

Lemma ends_with_iff p s : ends_with p s = true ↔ ∃ r, s = r +:+ p.
Proof.
  unfold ends_with. rewrite starts_with_iff. split.
  - intros [r Hr]. exists (str_rev r). rewrite <-(str_rev_rev s), Hr. by rewrite str_rev_cat, str_rev_rev.
  - intros [r ->]. rewrite str_rev_cat. eauto.
Qed.

Lemma eqb_Is_true x y : Is_true (String.eqb x y) ↔ x = y.
Proof. rewrite Is_true_true. apply String.eqb_eq. Qed.
