(* ===== verification/RustFloat.v ===== *)
(** * [f32] and [f64]

    The floating-point operations the program uses, on the Standard Library's [SpecFloat]:
    round-to-nearest-even in binary64 (precision 53, maximal exponent 1024). A decimal
    literal is the correctly rounded quotient of two integers that are represented exactly.
    [f64_rank] embeds the non-negative values in the integers, in order: it is the measure
    of loops that run while a score grows. *)

From Stdlib Require Import Floats.SpecFloat.
From S2P Require Import Prelude.

(** Comparisons of [f32] and [f64]: false when an operand is not a number. *)
Definition float_lt (x y : spec_float) : bool := SFltb x y.
Definition float_ge (x y : spec_float) : bool := SFleb y x.
Definition float_gt (x y : spec_float) : bool := SFltb y x.

(** [partial_cmp(..).unwrap_or(Equal)]. *)
Definition partial_cmp_or_equal (x y : spec_float) : comparison := default Eq (SFcompare x y).

(** The binary32 values closest to one half and to six tenths. *)
Definition f32_0_5 : spec_float := S754_finite false 8388608 (-24).
Definition f32_0_6 : spec_float := S754_finite false 10066330 (-24).
Definition f32_1 : spec_float := S754_finite false 8388608 (-23).

Definition f64_zero : spec_float := S754_zero false.
(** [u64 as f64]. *)
Definition f64_of_N (n : N) : spec_float := binary_normalize 53 1024 (Z.of_N n) 0 false.
Definition f64_mul (x y : spec_float) : spec_float := SFmul 53 1024 x y.
Definition f64_add (x y : spec_float) : spec_float := SFadd 53 1024 x y.
Definition f64_div (x y : spec_float) : spec_float := SFdiv 53 1024 x y.
(** [f32 as f64], which is exact. *)
Definition f64_of_f32 (x : spec_float) : spec_float :=
  match x with
  | S754_finite s m e => binary_round 53 1024 s m e
  | x => x
  end.
Definition f64_sub (x y : spec_float) : spec_float := SFsub 53 1024 x y.
(** [f64 as f32]: rounded to binary32. *)
Definition f32_of_f64 (x : spec_float) : spec_float :=
  match x with
  | S754_finite s m e => binary_round 24 128 s m e
  | x => x
  end.
(** [usize as f32] and the operations of [f32]. *)
Definition f32_of_N (n : N) : spec_float := binary_normalize 24 128 (Z.of_N n) 0 false.
Definition f32_zero : spec_float := S754_zero false.
Definition f32_add (x y : spec_float) : spec_float := SFadd 24 128 x y.
Definition f32_mul (x y : spec_float) : spec_float := SFmul 24 128 x y.
Definition f32_div (x y : spec_float) : spec_float := SFdiv 24 128 x y.
Definition is_nan (x : spec_float) : bool := match x with S754_nan => true | _ => false end.
(** [f64::max]: the other operand when one is not a number. *)
Definition f64_max (x y : spec_float) : spec_float :=
  if is_nan x then y else if is_nan y then x else if SFltb x y then y else x.
(** [f64::min], and [f64::clamp] between two bounds. *)
Definition f64_min (x y : spec_float) : spec_float :=
  if is_nan x then y else if is_nan y then x else if SFltb y x then y else x.
Definition f64_clamp (lo hi x : spec_float) : spec_float :=
  if SFltb x lo then lo else if SFltb hi x then hi else x.
(** The literal [num / den]. *)
Definition f64_lit (num den : N) : spec_float := f64_div (f64_of_N num) (f64_of_N den).

(** ** The order of the non-negative values *)

Definition f64_top : Z := 2 ^ 65.

Definition f64_rank (x : spec_float) : Z :=
  match x with
  | S754_finite false m e => (e + 1074) * 2 ^ 53 + Z.pos m
  | S754_infinity false => f64_top
  | _ => 0
  end%Z.

(** A number that is not negative and in the range of binary64. *)
Definition f64_nonneg (x : spec_float) : bool :=
  match x with
  | S754_finite s m e =>
      (negb s && (-1074 <=? e) && (e <=? 971) && (Z.pos m <? 2 ^ 53))%Z
  | S754_infinity s => negb s
  | S754_zero _ => true
  | S754_nan => false
  end.

Lemma f64_rank_bounds x : f64_nonneg x = true → (0 ≤ f64_rank x ≤ f64_top)%Z.
Proof.
  unfold f64_top. destruct x as [s|[]| |[] m e]; simpl; intros H; split_bools; try done; lia.
Qed.

(** The order of the non-negative values is the order of their ranks. *)
Lemma f64_compare_rank x y :
  f64_nonneg x = true → f64_nonneg y = true →
  SFcompare x y = Some (f64_rank x ?= f64_rank y)%Z.
Proof.
  assert (∀ a b, (a < b)%Z → Some Lt = Some (a ?= b)%Z) as Hlt.
  { intros a b H. by apply Z.compare_lt_iff in H as ->. }
  assert (∀ a b, (b < a)%Z → Some Gt = Some (a ?= b)%Z) as Hgt.
  { intros a b H. by apply Z.compare_gt_iff in H as ->. }
  destruct x as [s|[]| |[] m e], y as [s'|[]| |[] m' e']; cbn [f64_rank SFcompare f64_nonneg negb];
    intros Hx Hy; split_bools; try done; change (2 ^ 53)%Z with 9007199254740992%Z in *;
    try change f64_top with 36893488147419103232%Z;
    try (apply Hlt; lia); try (apply Hgt; lia).
  destruct (Z.compare_spec e e') as [->|He|He]; [|apply Hlt; lia|apply Hgt; lia].
  rewrite Z.add_compare_mono_l. done.
Qed.

Lemma float_gt_rank x y :
  f64_nonneg x = true → f64_nonneg y = true →
  float_gt y x = true ↔ (f64_rank x < f64_rank y)%Z.
Proof.
  intros Hx Hy. unfold float_gt, SFltb. rewrite f64_compare_rank by done.
  destruct (Z.compare_spec (f64_rank x) (f64_rank y)); split; (done || lia).
Qed.

(** ** Products stay in range *)

Lemma digits2_pos_bound m : (Z.pos m < 2 ^ Z.pos (digits2_pos m))%Z.
Proof.
  induction m as [m IH|m IH|]; simpl digits2_pos; [| |done];
    rewrite Pos2Z.inj_succ, Z.pow_succ_r by lia; lia.
Qed.

Lemma digits2_bound m d : (0 ≤ m)%Z → (Zdigits2 m ≤ d)%Z → (m < 2 ^ d)%Z.
Proof.
  intros Hm Hd. destruct m as [|m|m]; simpl in Hd; [by apply Z.pow_pos_nonneg| |done].
  eapply Z.lt_le_trans; [apply digits2_pos_bound|]. apply Z.pow_le_mono_r; lia.
Qed.

Lemma shr_1_half r : (0 ≤ shr_m r)%Z → shr_m (shr_1 r) = (shr_m r / 2)%Z.
Proof.
  destruct r as [[|m|m] a b]; simpl; [done| |lia]. intros _. destruct m as [m|m|]; simpl; [| |done].
  - rewrite Pos2Z.inj_xI. apply Z.div_unique with 1%Z; lia.
  - rewrite Pos2Z.inj_xO. apply Z.div_unique with 0%Z; lia.
Qed.

Lemma iter_pos_shr n : ∀ r, (0 ≤ shr_m r)%Z →
  shr_m (SpecFloat.iter_pos shr_1 n r) = (shr_m r / 2 ^ Z.pos n)%Z.
Proof.
  assert (∀ a b c, (0 ≤ b)%Z → (0 ≤ c)%Z → a / 2 ^ b / 2 ^ c = a / 2 ^ (b + c))%Z as Hdiv.
  { intros a b c Hb Hc. rewrite Z.pow_add_r by done. rewrite Z.div_div; [done|lia|].
    by apply Z.pow_pos_nonneg. }
  assert (∀ a b, (0 ≤ a)%Z → (0 ≤ b)%Z → 0 ≤ a / 2 ^ b)%Z as Hpos.
  { intros a b Ha Hb. apply Z.div_pos; [done|]. by apply Z.pow_pos_nonneg. }
  induction n as [n IH|n IH|]; intros r Hr; simpl.
  - pose proof (shr_1_half r Hr) as H1. change 2%Z with (2 ^ 1)%Z in H1.
    pose proof (Hpos (shr_m r) 1%Z Hr ltac:(lia)) as Hp. rewrite <-H1 in Hp.
    rewrite IH, IH by (try rewrite IH by done; auto with lia).
    rewrite H1, !Hdiv by lia. do 2 f_equal. lia.
  - rewrite IH, IH by (try rewrite IH by done; auto with lia).
    rewrite Hdiv by lia. do 2 f_equal. lia.
  - rewrite shr_1_half by done. done.
Qed.

(** One normalisation brings mantissa and exponent in range. *)
Lemma shr_fexp_range m e mrs e' :
  (0 ≤ m)%Z → shr_fexp 53 1024 m e loc_Exact = (mrs, e') →
  (-1074 ≤ e' ∧ 0 ≤ shr_m mrs < 2 ^ 53)%Z.
Proof.
  intros Hm. unfold shr_fexp, fexp, emin. simpl shr_record_of_loc.
  set (d := Zdigits2 m). set (t := Z.max (d + e - 53) (3 - 1024 - 53)).
  destruct (t - e)%Z as [|n|n] eqn:Hn; simpl; intros [= <- <-]; simpl.
  - split; [lia|]. split; [done|]. apply digits2_bound; [done|]. fold d. lia.
  - rewrite iter_pos_shr by done. simpl.
    assert (0 < 2 ^ Z.pos n)%Z as Hp by (by apply Z.pow_pos_nonneg).
    split; [lia|]. split; [by apply Z.div_pos|].
    apply Z.div_lt_upper_bound; [done|]. rewrite <-Z.pow_add_r by lia.
    apply digits2_bound; [done|]. fold d. lia.
  - split; [lia|]. split; [done|]. apply digits2_bound; [done|]. fold d. lia.
Qed.

Lemma round_nearest_even_nonneg m l : (0 ≤ m)%Z → (0 ≤ round_nearest_even m l)%Z.
Proof. intros H. destruct l as [|[]]; simpl; repeat case_match; lia. Qed.

Lemma shr_fexp_nonneg m e mrs e' :
  (0 ≤ m)%Z → shr_fexp 53 1024 m e loc_Exact = (mrs, e') → (0 ≤ shr_m mrs)%Z.
Proof. intros Hm H. by apply (shr_fexp_range m e mrs e'). Qed.

Lemma binary_round_aux_range s m e :
  match binary_round_aux 53 1024 s (Z.pos m) e loc_Exact with
  | S754_finite s' m' e' => s' = s ∧ (-1074 ≤ e' ≤ 971)%Z ∧ (Z.pos m' < 2 ^ 53)%Z
  | S754_infinity s' | S754_zero s' => s' = s
  | S754_nan => False
  end.
Proof.
  unfold binary_round_aux.
  destruct (shr_fexp 53 1024 (Z.pos m) e loc_Exact) as [mrs e1] eqn:E1.
  pose proof (shr_fexp_nonneg (Z.pos m) e mrs e1 ltac:(lia) E1) as H1.
  destruct (shr_fexp 53 1024 (round_nearest_even _ _) e1 loc_Exact) as [mrs2 e2] eqn:E2.
  destruct (shr_fexp_range _ _ _ _ (round_nearest_even_nonneg _ _ H1) E2) as (He & Hm0 & Hm).
  destruct (shr_m mrs2) as [|m2|m2]; [done| |lia].
  destruct (Z.leb_spec e2 (1024 - 53)); split_and?; (done || lia).
Qed.

(** A product that exceeds a non-negative value is itself non-negative and in range. *)
Lemma f64_mul_exceeds x y z :
  f64_nonneg x = true → float_gt (f64_mul y z) x = true → f64_nonneg (f64_mul y z) = true.
Proof.
  unfold float_gt, SFltb, f64_mul. intros Hx.
  destruct y as [sy|sy| |sy my ey], z as [sz|sz| |sz mz ez]; simpl;
    try (by destruct x as [|[]| |[]]);
    try (destruct x as [|[]| |[]], sy, sz; simpl in *; by split_bools).
  pose proof (binary_round_aux_range (xorb sy sz) (my * mz) (ey + ez)) as Hr.
  destruct (binary_round_aux _ _ _ _ _ _) as [s|s| |s m e]; simpl; [done| |done|].
  - subst. destruct x as [|[]| |[]], (xorb sy sz); simpl in *; by split_bools.
  - destruct Hr as (-> & He & Hm). intros Hgt.
    assert (xorb sy sz = false) as ->.
    { destruct (xorb sy sz); [|done]. destruct x as [|[]| |[]]; simpl in *; by split_bools. }
    apply andb_true_iff; split; [|lia]. rewrite !andb_true_iff. split_and!; [done|lia..].
Qed.

(** ** Sums stay in range *)

Lemma binary_round_nonneg m e : f64_nonneg (binary_round 53 1024 false m e) = true.
Proof.
  unfold binary_round. destruct (shl_align _ _ _) as [mz ez].
  pose proof (binary_round_aux_range false mz ez) as Hr.
  destruct (binary_round_aux _ _ _ _ _ _) as [s|s| |s m' e']; simpl; [done|by subst|done|].
  destruct Hr as (-> & He & Hm). rewrite !andb_true_iff. split_and!; [done|lia..].
Qed.

Lemma f64_add_nonneg x y :
  f64_nonneg x = true → f64_nonneg y = true → f64_nonneg (f64_add x y) = true.
Proof.
  destruct x as [[]|[]| |[] m e], y as [[]|[]| |[] m' e']; intros Hx Hy; try done.
  apply binary_round_nonneg.
Qed.

(** ** The order of the numbers

    On values that are numbers the comparison is the lexicographic order of a key: sign and
    magnitude class, exponent, mantissa. *)

Definition float_key (x : spec_float) : Z * Z * Z :=
  match x with
  | S754_infinity true => (-2, 0, 0)
  | S754_finite true m e => (-1, -e, Z.neg m)
  | S754_zero _ | S754_nan => (0, 0, 0)
  | S754_finite false m e => (1, e, Z.pos m)
  | S754_infinity false => (2, 0, 0)
  end%Z.

Definition key_compare : Z * Z * Z → Z * Z * Z → comparison :=
  cmp_lex (cmp_on (fst ∘ fst) Z.compare) (cmp_lex (cmp_on (snd ∘ fst) Z.compare) (cmp_on snd Z.compare)).

#[export] Instance key_compare_total : TotalCmp key_compare.
Proof. unfold key_compare. apply _. Qed.

Lemma float_compare_key x y :
  is_nan x = false → is_nan y = false →
  partial_cmp_or_equal x y = key_compare (float_key x) (float_key y).
Proof.
  destruct x as [[]|[]| |[] m e], y as [[]|[]| |[] m' e']; try done; intros _ _;
    unfold partial_cmp_or_equal, key_compare, cmp_lex, cmp_on; simpl; try done.
  - rewrite Z.compare_opp, (Z.compare_antisym e e'). by destruct (e ?= e')%Z.
  - by destruct (e ?= e')%Z.
Qed.

(** Sums and products of numbers that are finite are numbers. *)
Definition is_finite (x : spec_float) : bool :=
  match x with S754_finite _ _ _ | S754_zero _ => true | _ => false end.

Lemma shr_fexp_number prec emax m e :
  (0 ≤ m)%Z → (0 ≤ shr_m (fst (shr_fexp prec emax m e loc_Exact)))%Z.
Proof.
  intros Hm. unfold shr_fexp, shr. destruct (_ - e)%Z as [|n|n]; simpl; try done.
  rewrite iter_pos_shr by done. simpl. apply Z.div_pos; [done|]. by apply Z.pow_pos_nonneg.
Qed.

Lemma binary_round_number prec emax s m e : is_nan (binary_round prec emax s m e) = false.
Proof.
  unfold binary_round. destruct (shl_align _ _ _) as [mz ez]. unfold binary_round_aux.
  pose proof (shr_fexp_number prec emax (Z.pos mz) ez ltac:(lia)) as H1.
  destruct (shr_fexp prec emax (Z.pos mz) ez loc_Exact) as [r1 e1]. simpl in H1.
  pose proof (shr_fexp_number prec emax (round_nearest_even (shr_m r1) (loc_of_shr_record r1)) e1
    (round_nearest_even_nonneg _ _ H1)) as H2.
  destruct (shr_fexp prec emax (round_nearest_even _ _) e1 loc_Exact) as [r2 e2]. simpl in H2.
  destruct (shr_m r2); [done| |lia]. by destruct (_ <=? _)%Z.
Qed.

Lemma binary_normalize_number prec emax m e s : is_nan (binary_normalize prec emax m e s) = false.
Proof. destruct m; [done|apply binary_round_number..]. Qed.

Lemma f64_add_number x y : is_nan x = false → is_finite y = true → is_nan (f64_add x y) = false.
Proof.
  unfold f64_add. destruct x as [[]|[]| |[] m e], y as [[]|[]| |[] m' e']; intros Hx Hy;
    done || apply binary_normalize_number.
Qed.

Lemma f64_sub_number x y : is_nan x = false → is_finite y = true → is_nan (f64_sub x y) = false.
Proof.
  unfold f64_sub. destruct x as [[]|[]| |[] m e], y as [[]|[]| |[] m' e']; intros Hx Hy;
    done || apply binary_normalize_number.
Qed.

Lemma f64_max_number x y : is_nan y = false → is_nan (f64_max x y) = false.
Proof.
  intros Hy. unfold f64_max. destruct (is_nan x) eqn:Hx; [done|]. rewrite Hy.
  by destruct (SFltb x y).
Qed.

Lemma f32_of_f64_number x : is_nan x = false → is_nan (f32_of_f64 x) = false.
Proof. destruct x; try done. intros _. apply binary_round_number. Qed.

Lemma f64_of_f32_number x : is_nan x = false → is_nan (f64_of_f32 x) = false.
Proof. destruct x; try done. intros _. apply binary_round_number. Qed.

(** ** Magnitudes

    [f64_mag] bounds the binary exponent: the value is below two to that power. Rounding
    and addition raise it by at most one, so small values never overflow. *)

Definition f64_mag (x : spec_float) (d : Z) : Prop :=
  match x with
  | S754_finite _ m e => (Z.pos (digits2_pos m) + e ≤ d)%Z
  | S754_zero _ => True
  | _ => False
  end.

Lemma f64_mag_finite x d : f64_mag x d → is_finite x = true.
Proof. by destruct x. Qed.

Lemma digits2_pos_lower m : (2 ^ (Z.pos (digits2_pos m) - 1) ≤ Z.pos m)%Z.
Proof.
  assert (∀ p, 2 ^ (Z.pos (Pos.succ p) - 1) = 2 * 2 ^ (Z.pos p - 1))%Z as Hs.
  { intros p. rewrite Pos2Z.inj_succ, <-Z.pow_succ_r by lia. f_equal. lia. }
  induction m as [m IH|m IH|]; simpl digits2_pos; rewrite ?Hs; lia.
Qed.

Lemma digits2_pos_le m d : (0 ≤ d)%Z → (Z.pos m < 2 ^ d)%Z → (Z.pos (digits2_pos m) ≤ d)%Z.
Proof.
  intros Hd Hm. destruct (Z.le_gt_cases (Z.pos (digits2_pos m)) d) as [|Hgt]; [done|exfalso].
  pose proof (digits2_pos_lower m) as Hl.
  assert (2 ^ d ≤ 2 ^ (Z.pos (digits2_pos m) - 1))%Z by (apply Z.pow_le_mono_r; lia). lia.
Qed.

Lemma shl_align_digits m e e' :
  let r := shl_align m e e' in
  (Z.pos (digits2_pos (fst r)) + snd r = Z.pos (digits2_pos m) + e ∧ snd r = Z.min e e')%Z.
Proof.
  unfold shl_align. destruct (e' - e)%Z as [|d|d] eqn:Hd; simpl; [lia..|].
  assert (Z.pos (digits2_pos (Pos.iter xO m d)) = Z.pos (digits2_pos m) + Z.pos d)%Z as ->; [|lia].
  clear Hd. induction d as [|d IH] using Pos.peano_ind; [by simpl; lia|].
  rewrite Pos.iter_succ. simpl. lia.
Qed.

Lemma shr_fexp_exponent m e mrs e' :
  shr_fexp 53 1024 m e loc_Exact = (mrs, e') →
  (e' ≤ Z.max e (Z.max (Zdigits2 m + e - 53) (-1074)))%Z.
Proof.
  unfold shr_fexp, fexp, emin, shr.
  destruct (_ - e)%Z as [|n|n] eqn:Hn; simpl in *; intros [= <- <-]; lia.
Qed.

Lemma round_nearest_even_le m l : (round_nearest_even m l ≤ m + 1)%Z.
Proof. destruct l as [|[]]; simpl; repeat case_match; lia. Qed.

Lemma binary_round_mag s m e d :
  (Z.pos (digits2_pos m) + e ≤ d)%Z → (-1000 ≤ d ≤ 1000)%Z →
  f64_mag (binary_round 53 1024 s m e) (d + 1).
Proof.
  intros Hd Hr. unfold binary_round.
  pose proof (shl_align_digits m e (fexp 53 1024 (Z.pos (digits2_pos m) + e))) as Hal.
  destruct (shl_align _ _ _) as [mz ez]. simpl in Hal. destruct Hal as [Hdig Hez].
  unfold fexp, emin in Hez. unfold binary_round_aux.
  destruct (shr_fexp 53 1024 (Z.pos mz) ez loc_Exact) as [r1 e1] eqn:E1.
  destruct (shr_fexp_range (Z.pos mz) ez r1 e1 ltac:(lia) E1) as (He1 & H1p & H1m).
  pose proof (shr_fexp_exponent _ _ _ _ E1) as H1e.
  change (Zdigits2 (Z.pos mz)) with (Z.pos (digits2_pos mz)) in H1e.
  set (m1 := round_nearest_even (shr_m r1) (loc_of_shr_record r1)).
  assert (0 ≤ m1 ≤ 2 ^ 53)%Z as Hm1.
  { split; [by apply round_nearest_even_nonneg|].
    pose proof (round_nearest_even_le (shr_m r1) (loc_of_shr_record r1)). unfold m1. lia. }
  destruct (shr_fexp 53 1024 m1 e1 loc_Exact) as [r2 e2] eqn:E2.
  destruct (shr_fexp_range m1 e1 r2 e2 ltac:(lia) E2) as (He2 & H2p & H2m).
  pose proof (shr_fexp_exponent _ _ _ _ E2) as H2e.
  assert (Zdigits2 m1 ≤ 54)%Z.
  { destruct m1 as [|p|p]; [done| |lia]. apply digits2_pos_le; [done|]. simpl; lia. }
  destruct (shr_m r2) as [|m2|m2]; [done| |lia].
  assert (e2 ≤ 1024 - 53)%Z as Hle by lia. apply Z.leb_le in Hle. rewrite Hle. simpl.
  assert (Z.pos (digits2_pos m2) ≤ 53)%Z by (apply digits2_pos_le; [done|]; simpl in *; lia). lia.
Qed.

Lemma f64_of_N_mag n : (n ≤ u64_max)%N → f64_mag (f64_of_N n) 65.
Proof.
  intros Hn. unfold f64_of_N. destruct n as [|p]; simpl; [done|].
  apply (binary_round_mag false p 0 64); [|lia].
  enough (Z.pos (digits2_pos p) ≤ 64)%Z by lia. apply digits2_pos_le; [done|].
  unfold u64_max in Hn. change (2 ^ 64)%Z with 18446744073709551616%Z. lia.
Qed.

(** A sum of values below a power of two is below the next but one. *)
Lemma f64_add_mag x y d :
  f64_mag x d → f64_mag y d → f64_nonneg x = true → f64_nonneg y = true → (0 ≤ d ≤ 900)%Z →
  f64_mag (f64_add x y) (d + 2).
Proof.
  intros Hx Hy Hnx Hny Hd.
  destruct x as [sx| | |sx mx ex], y as [sy| | |sy my ey]; simpl in Hx, Hy; try done; simpl.
  - by destruct sx, sy.
  - lia.
  - lia.
  - simpl in Hnx, Hny. destruct sx, sy; try done. simpl.
    set (ez := Z.min ex ey).
    destruct (shl_align_digits mx ex ez) as [H1 H1e].
    destruct (shl_align_digits my ey ez) as [H2 H2e].
    set (a := fst (shl_align mx ex ez)) in *. set (b := fst (shl_align my ey ez)) in *.
    rewrite H1e in H1. rewrite H2e in H2.
    replace (d + 2)%Z with ((d + 1) + 1)%Z by lia. apply binary_round_mag; [|lia].
    enough (Z.pos (digits2_pos (a + b)) ≤ d + 1 - ez)%Z by lia.
    assert (Z.pos (digits2_pos a) ≤ d - ez)%Z by lia.
    assert (Z.pos (digits2_pos b) ≤ d - ez)%Z by lia.
    apply digits2_pos_le; [lia|]. replace (d + 1 - ez)%Z with (Z.succ (d - ez)) by lia.
    rewrite Z.pow_succ_r by lia.
    assert (Z.pos a < 2 ^ (d - ez))%Z by (eapply Z.lt_le_trans; [apply digits2_pos_bound|apply Z.pow_le_mono_r; lia]).
    assert (Z.pos b < 2 ^ (d - ez))%Z by (eapply Z.lt_le_trans; [apply digits2_pos_bound|apply Z.pow_le_mono_r; lia]).
    lia.
Qed.

Lemma f64_of_N_nonneg n : f64_nonneg (f64_of_N n) = true.
Proof. unfold f64_of_N. destruct n as [|p]; simpl; [done|]. apply binary_round_nonneg. Qed.

(** ** Quotients *)

Lemma f64_nonneg_number x : f64_nonneg x = true → is_nan x = false.
Proof. by destruct x. Qed.

Lemma binary_round_aux_number s m e l : (0 ≤ m)%Z → is_nan (binary_round_aux 53 1024 s m e l) = false.
Proof.
  assert (∀ m e l, (0 ≤ m)%Z → (0 ≤ shr_m (fst (shr_fexp 53 1024 m e l)))%Z) as Hs.
  { intros n f k Hn. assert (0 ≤ shr_m (shr_record_of_loc n k))%Z by (by destruct k as [|[]]).
    unfold shr_fexp, shr. destruct (_ - f)%Z as [|d|d]; [done| |done].
    cbn [fst]. rewrite iter_pos_shr by done. apply Z.div_pos; [by destruct k as [|[]]|].
    by apply Z.pow_pos_nonneg. }
  intros Hm. unfold binary_round_aux. pose proof (Hs m e l Hm) as H1.
  destruct (shr_fexp 53 1024 m e l) as [r1 e1]. simpl in H1.
  pose proof (Hs _ e1 loc_Exact (round_nearest_even_nonneg _ (loc_of_shr_record r1) H1)) as H2.
  destruct (shr_fexp 53 1024 (round_nearest_even _ _) e1 loc_Exact) as [r2 e2]. simpl in H2.
  destruct (shr_m r2); [done| |lia]. by destruct (_ <=? _)%Z.
Qed.

Lemma f64_div_number_finite s m e y : is_nan y = false → is_nan (f64_div (S754_finite s m e) y) = false.
Proof.
  unfold f64_div. destruct y as [|[]| |sy my ey]; intros Hy; try done. cbn [SFdiv].
  unfold SFdiv_core_binary. set (m' := match (_ - _)%Z with Z0 => _ | _ => _ end).
  assert (0 ≤ m')%Z as Hm'.
  { unfold m'. destruct (_ - _)%Z as [|p|p]; [lia| |lia]. apply Z.shiftl_nonneg. lia. }
  pose proof (Z.div_pos m' (Z.pos my) Hm' ltac:(lia)) as Hq. unfold Z.div in Hq.
  destruct (Z.div_eucl m' (Z.pos my)) as [q r]. by apply binary_round_aux_number.
Qed.

Lemma f64_div_number x y :
  is_nan x = false → is_finite y = true → float_gt x f64_zero = true → is_nan (f64_div x y) = false.
Proof.
  destruct x as [s|s| |s m e]; intros Hx Hy Hp; try done.
  - destruct y as [| | |]; done.
  - apply f64_div_number_finite. by destruct y.
Qed.
