(* ===== verification/FloatOrder.v ===== *)
(** * Multiplication in binary64 is monotone

    Rounding to the nearest even value respects the order, so the product of values that are
    not negative grows with its factors. The proof follows the code of [SpecFloat]: shifting
    a mantissa right keeps a quotient and tells how the remainder compares with a half, and
    the rank of the rounded value is a monotone function of quotient and exponent. *)

From Stdlib Require Import Floats.SpecFloat.
From S2P Require Import Prelude RustFloat.

#[local] Open Scope Z_scope.

(** A value as the format represents it. *)
Definition canonical (x : spec_float) : bool := valid_binary 53 1024 x.

(** ** Shifting right *)

(** What the two extra bits say of the remainder [rem] of a division by [n]. *)
Definition remainder_bits (r s : bool) (rem n : Z) : Prop :=
  match r, s with
  | false, false => rem = 0
  | false, true => 0 < 2 * rem < n
  | true, false => 2 * rem = n
  | true, true => n < 2 * rem < 2 * n
  end.

Lemma iter_pos_shift {A} (f : A → A) p : ∀ x,
  SpecFloat.iter_pos f p (f x) = f (SpecFloat.iter_pos f p x).
Proof. induction p as [p IH|p IH|]; intros x; simpl; by rewrite ?IH. Qed.

Lemma iter_pos_succ {A} (f : A → A) p : ∀ x,
  SpecFloat.iter_pos f (Pos.succ p) x = f (SpecFloat.iter_pos f p x).
Proof.
  induction p as [p IH|p IH|]; intros x; simpl; [|by rewrite <-iter_pos_shift, <-iter_pos_shift|done].
  by rewrite !IH, !iter_pos_shift.
Qed.

Lemma shr_1_bits m r s rem n :
  0 ≤ m → 0 < n → remainder_bits r s rem n →
  ∃ q r' s' b, shr_1 {| shr_m := m; shr_r := r; shr_s := s |} =
    {| shr_m := q; shr_r := r'; shr_s := s' |} ∧
    m = 2 * q + b ∧ 0 ≤ q ∧ remainder_bits r' s' (rem + b * n) (2 * n).
Proof.
  intros Hm Hn Hb. unfold remainder_bits in *. destruct m as [|[p|p|]|]; [| | | |lia].
  - eexists 0, false, _, 0. split; [reflexivity|]. destruct r, s; simpl; lia.
  - eexists (Z.pos p), true, _, 1. split; [reflexivity|]. destruct r, s; simpl; lia.
  - eexists (Z.pos p), false, _, 0. split; [reflexivity|]. destruct r, s; simpl; lia.
  - eexists 0, true, _, 1. split; [reflexivity|]. destruct r, s; simpl; lia.
Qed.

Lemma shr_bits m p : 0 ≤ m →
  ∃ q r s rem, SpecFloat.iter_pos shr_1 p {| shr_m := m; shr_r := false; shr_s := false |} =
    {| shr_m := q; shr_r := r; shr_s := s |} ∧
    0 ≤ q ∧ m = q * 2 ^ Z.pos p + rem ∧ remainder_bits r s rem (2 ^ Z.pos p).
Proof.
  intros Hm. induction p as [|p (q & r & s & rem & Heq & Hq & Hrem & Hb)] using Pos.peano_ind.
  - destruct (shr_1_bits m false false 0 1 Hm) as (q & r & s & b & Heq & Hb & Hq & Hr); [lia|done|].
    exists q, r, s, b. change (2 ^ 1) with 2. split_and!; [exact Heq|done|lia|].
    replace b with (0 + b * 1) by lia. done.
  - rewrite iter_pos_succ, Heq. rewrite Pos2Z.inj_succ, Z.pow_succ_r by lia.
    assert (0 < 2 ^ Z.pos p) as Hp by (by apply Z.pow_pos_nonneg).
    destruct (shr_1_bits q r s rem _ Hq Hp Hb) as (q' & r' & s' & b & -> & Hqb & Hq' & Hb').
    exists q', r', s', (rem + b * 2 ^ Z.pos p). split_and!; [done|done|nia|done].
Qed.

(** ** Rounding a quotient *)

(** [m / 2 ^ n], rounded to the nearest, to the even one when two are equally near. *)
Definition rne (m n : Z) : Z :=
  let q := m / 2 ^ n in
  let rem := m mod 2 ^ n in
  if 2 * rem <? 2 ^ n then q
  else if 2 * rem =? 2 ^ n then (if Z.even q then q else q + 1) else q + 1.

Lemma rne_shr m p : 0 ≤ m →
  let mrs := SpecFloat.iter_pos shr_1 p {| shr_m := m; shr_r := false; shr_s := false |} in
  round_nearest_even (shr_m mrs) (loc_of_shr_record mrs) = rne m (Z.pos p).
Proof.
  intros Hm mrs. subst mrs. destruct (shr_bits m p Hm) as (q & r & s & rem & -> & Hq & -> & Hb).
  assert (0 < 2 ^ Z.pos p) as Hp by (by apply Z.pow_pos_nonneg).
  assert (0 ≤ rem < 2 ^ Z.pos p) as Hr by (destruct r, s; simpl in Hb; lia).
  unfold rne. rewrite Z.div_add_l, Z.div_small, Z.add_0_r by lia.
  rewrite Z.add_comm, Z.mod_add, Z.mod_small by lia.
  destruct r, s; simpl in *; destruct (Z.ltb_spec (2 * rem) (2 ^ Z.pos p)); try lia;
    destruct (Z.eqb_spec (2 * rem) (2 ^ Z.pos p)); (done || lia).
Qed.

Lemma rne_bounds m n : 0 ≤ n → m / 2 ^ n ≤ rne m n ≤ m / 2 ^ n + 1.
Proof. intros _. unfold rne. repeat case_match; lia. Qed.

Lemma rne_mono m1 m2 n : 0 ≤ n → m1 ≤ m2 → rne m1 n ≤ rne m2 n.
Proof.
  intros Hn Hm. assert (0 < 2 ^ n) as Hp by (by apply Z.pow_pos_nonneg).
  pose proof (Z.div_le_mono m1 m2 (2 ^ n) Hp Hm) as Hq.
  pose proof (rne_bounds m1 n Hn). pose proof (rne_bounds m2 n Hn).
  destruct (Z.eq_dec (m1 / 2 ^ n) (m2 / 2 ^ n)) as [He|]; [|lia].
  pose proof (Z.div_mod m1 (2 ^ n) ltac:(lia)). pose proof (Z.div_mod m2 (2 ^ n) ltac:(lia)).
  unfold rne. rewrite He in *.
  destruct (Z.ltb_spec (2 * (m1 mod 2 ^ n)) (2 ^ n)), (Z.ltb_spec (2 * (m2 mod 2 ^ n)) (2 ^ n));
    repeat case_match; lia.
Qed.

Lemma rne_scale m n j : 0 ≤ n → 0 ≤ j → rne (m * 2 ^ j) (n + j) = rne m n.
Proof.
  intros Hn Hj. assert (0 < 2 ^ n) by (by apply Z.pow_pos_nonneg).
  assert (0 < 2 ^ j) by (by apply Z.pow_pos_nonneg).
  unfold rne. rewrite Z.pow_add_r by done.
  rewrite Z.div_mul_cancel_r, Z.mul_mod_distr_r by lia.
  replace (2 * (m mod 2 ^ n * 2 ^ j)) with (2 * (m mod 2 ^ n) * 2 ^ j) by ring.
  assert (∀ a b, (a * 2 ^ j <? b * 2 ^ j) = (a <? b)) as ->.
  { intros a b. destruct (Z.ltb_spec a b); [apply Z.ltb_lt|apply Z.ltb_ge]; nia. }
  assert (∀ a b, (a * 2 ^ j =? b * 2 ^ j) = (a =? b)) as ->; [|done].
  intros a b. destruct (Z.eqb_spec a b) as [->|]; [apply Z.eqb_refl|]. apply Z.eqb_neq. nia.
Qed.

(** ** The rank of a rounded value *)

(** The exponent that a mantissa of this size and exponent is rounded to. *)
Definition target (m : positive) (e : Z) : Z := Z.max (Z.pos (digits2_pos m) + e - 53) (-1074).
Definition placed (m : positive) (e : Z) : Prop := e ≤ target m e.

Lemma first_shift m e : placed m e →
  let '(mrs, e') := shr_fexp 53 1024 (Z.pos m) e loc_Exact in
  e' = target m e ∧
  round_nearest_even (shr_m mrs) (loc_of_shr_record mrs) = rne (Z.pos m) (target m e - e).
Proof.
  unfold placed. intros Hp. unfold shr_fexp, fexp, emin.
  change (Z.max (Zdigits2 (Z.pos m) + e - 53) (3 - 1024 - 53)) with (target m e).
  unfold shr. cbn [shr_record_of_loc]. destruct (target m e - e) as [|p|p] eqn:Hd; [| |lia].
  - split; [lia|]. cbn [loc_of_shr_record round_nearest_even shr_m]. unfold rne.
    change (2 ^ 0) with 1. rewrite Z.div_1_r, Z.mod_1_r. done.
  - split; [lia|]. by apply rne_shr.
Qed.

(** The rank of mantissa [m] with exponent [e], where [m] may have reached [2 ^ 53]. *)
Definition rank_of (m e : Z) : Z :=
  if m =? 0 then 0
  else if m <? 2 ^ 53 then (if e <=? 971 then (e + 1074) * 2 ^ 53 + m else f64_top)
  else (if e + 1 <=? 971 then (e + 1075) * 2 ^ 53 + 2 ^ 52 else f64_top).

Lemma second_shift m e : 0 ≤ m ≤ 2 ^ 53 → -1074 ≤ e → (e = -1074 ∨ 2 ^ 52 ≤ m) →
  let '(mrs, e') := shr_fexp 53 1024 m e loc_Exact in
  let x := match shr_m mrs with
           | Z0 => S754_zero false
           | Z.pos m => if e' <=? 1024 - 53 then S754_finite false m e' else S754_infinity false
           | Z.neg _ => S754_nan
           end in
  f64_rank x = rank_of m e ∧ canonical x = true ∧ f64_nonneg x = true.
Proof.
  intros Hm He Hn. destruct (Z.eq_dec m (2 ^ 53)) as [->|Hne].
  - unfold shr_fexp, fexp, emin. change (Zdigits2 (2 ^ 53)) with 54.
    replace (Z.max (54 + e - 53) (3 - 1024 - 53) - e) with 1 by lia.
    change (shr (shr_record_of_loc (2 ^ 53) loc_Exact) e 1)
      with ({| shr_m := 2 ^ 52; shr_r := false; shr_s := false |}, e + 1).
    cbn [shr_m]. change (2 ^ 52) with 4503599627370496. cbv zeta. change (1024 - 53) with 971.
    unfold rank_of. change (2 ^ 53 =? 0) with false. change (2 ^ 53 <? 2 ^ 53) with false. cbv iota.
    destruct (Z.leb_spec (e + 1) 971); [|done].
    cbn [f64_rank canonical valid_binary f64_nonneg negb]. split_and!.
    + change (2 ^ 53) with 9007199254740992. lia.
    + unfold bounded, canonical_mantissa, fexp, emin. change (Z.pos (digits2_pos 4503599627370496)) with 53.
      apply andb_true_iff. split; [apply Z.eqb_eq; lia|apply Z.leb_le; lia].
    + rewrite !andb_true_iff. split_and!; (done || lia).
  - assert (m < 2 ^ 53) as Hlt by lia.
    assert (∀ p, m = Z.pos p → Z.pos (digits2_pos p) ≤ 53) as Hdig.
    { intros p ->. apply digits2_pos_le; lia. }
    assert (shr_fexp 53 1024 m e loc_Exact = ({| shr_m := m; shr_r := false; shr_s := false |}, e)) as ->.
    { unfold shr_fexp, fexp, emin, shr.
      destruct (Z.max (Zdigits2 m + e - 53) (3 - 1024 - 53) - e) as [|q|q] eqn:Hd; [done| |done].
      exfalso. destruct m as [|p|p]; [simpl in Hd; lia| |lia].
      specialize (Hdig p eq_refl). simpl in Hd. lia. }
    cbn [shr_m]. unfold rank_of. destruct m as [|p|p]; [done| |lia].
    change (Z.pos p =? 0) with false. cbv iota zeta.
    destruct (Z.ltb_spec (Z.pos p) (2 ^ 53)) as [_|]; [|lia]. change (1024 - 53) with 971.
    destruct (Z.leb_spec e 971) as [Hle|]; [|done].
    cbn [f64_rank canonical valid_binary f64_nonneg negb]. split_and!; [done| |].
    + specialize (Hdig p eq_refl). unfold bounded, canonical_mantissa, fexp, emin. apply andb_true_iff.
      split; [apply Z.eqb_eq|by apply Z.leb_le]. destruct Hn as [->|Hn]; [lia|].
      assert (53 ≤ Z.pos (digits2_pos p)); [|lia].
      destruct (Z.le_gt_cases 53 (Z.pos (digits2_pos p))) as [|Hg]; [done|exfalso].
      assert (Z.pos p < 2 ^ 52); [|lia]. eapply Z.lt_le_trans; [apply digits2_pos_bound|].
      apply Z.pow_le_mono_r; lia.
    + rewrite !andb_true_iff. split_and!; (done || lia).
Qed.

(** The rounded mantissa has its place in the format. *)
Lemma rne_place m e : placed m e →
  let q := rne (Z.pos m) (target m e - e) in
  0 ≤ q ≤ 2 ^ 53 ∧ (target m e = -1074 ∨ 2 ^ 52 ≤ q).
Proof.
  unfold placed. intros Hp. cbv zeta. set (n := target m e - e).
  assert (0 ≤ n) as Hn by lia. assert (0 < 2 ^ n) as Hpow by (by apply Z.pow_pos_nonneg).
  pose proof (rne_bounds (Z.pos m) n Hn) as Hb.
  pose proof (digits2_pos_bound m) as Hu. pose proof (digits2_pos_lower m) as Hl.
  assert (0 ≤ Z.pos m / 2 ^ n < 2 ^ 53) as Hq.
  { split; [apply Z.div_pos; lia|]. apply Z.div_lt_upper_bound; [done|].
    rewrite <-Z.pow_add_r by lia. eapply Z.lt_le_trans; [exact Hu|].
    apply Z.pow_le_mono_r; unfold target in *; lia. }
  split; [lia|]. destruct (Z.eq_dec (target m e) (-1074)) as [|Hne]; [by left|right].
  assert (2 ^ 52 ≤ Z.pos m / 2 ^ n); [|lia]. apply Z.div_le_lower_bound; [done|].
  rewrite <-Z.pow_add_r by lia. etrans; [|exact Hl]. apply Z.pow_le_mono_r; unfold target in *; lia.
Qed.

Lemma round_rank m e : placed m e →
  let x := binary_round_aux 53 1024 false (Z.pos m) e loc_Exact in
  f64_rank x = rank_of (rne (Z.pos m) (target m e - e)) (target m e) ∧
  canonical x = true ∧ f64_nonneg x = true.
Proof.
  intros Hp. pose proof (first_shift m e Hp) as H1. pose proof (rne_place m e Hp) as [Hq Hn].
  unfold binary_round_aux. destruct (shr_fexp 53 1024 (Z.pos m) e loc_Exact) as [mrs e1].
  destruct H1 as [-> ->]. pose proof (second_shift _ (target m e) Hq ltac:(unfold target; lia) Hn) as H2.
  destruct (shr_fexp 53 1024 (rne _ _) _ loc_Exact) as [mrs2 e2]. exact H2.
Qed.

Lemma rank_of_mono m1 e1 m2 e2 :
  0 ≤ m1 ≤ 2 ^ 53 → 0 ≤ m2 ≤ 2 ^ 53 → -1074 ≤ e1 → 
  (e1 = e2 ∧ m1 ≤ m2) ∨ (e1 < e2 ∧ 2 ^ 52 ≤ m2) →
  rank_of m1 e1 ≤ rank_of m2 e2.
Proof.
  intros H1 H2 He Hc. unfold rank_of, f64_top. change (2 ^ 65) with (4096 * 2 ^ 53).
  destruct (Z.eqb_spec m1 0), (Z.eqb_spec m2 0), (Z.ltb_spec m1 (2 ^ 53)), (Z.ltb_spec m2 (2 ^ 53)),
    (Z.leb_spec e1 971), (Z.leb_spec e2 971), (Z.leb_spec (e1 + 1) 971), (Z.leb_spec (e2 + 1) 971);
    try lia; nia.
Qed.

(** Rounding respects the order of the values [m * 2 ^ e]. *)
Theorem round_mono m1 e1 m2 e2 k :
  placed m1 e1 → placed m2 e2 → k ≤ e1 → k ≤ e2 →
  Z.pos m1 * 2 ^ (e1 - k) ≤ Z.pos m2 * 2 ^ (e2 - k) →
  f64_rank (binary_round_aux 53 1024 false (Z.pos m1) e1 loc_Exact) ≤
  f64_rank (binary_round_aux 53 1024 false (Z.pos m2) e2 loc_Exact).
Proof.
  intros Hp1 Hp2 Hk1 Hk2 Hle.
  pose proof (round_rank m1 e1 Hp1) as (-> & _ & _). pose proof (round_rank m2 e2 Hp2) as (-> & _ & _).
  pose proof (rne_place m1 e1 Hp1) as [Hq1 _]. pose proof (rne_place m2 e2 Hp2) as [Hq2 Hn2].
  assert (Z.pos (digits2_pos m1) + e1 ≤ Z.pos (digits2_pos m2) + e2) as Hd.
  { pose proof (digits2_pos_bound m2) as Hu. pose proof (digits2_pos_lower m1) as Hl.
    assert (2 ^ (Z.pos (digits2_pos m1) - 1 + (e1 - k)) < 2 ^ (Z.pos (digits2_pos m2) + (e2 - k))) as Hpow.
    { rewrite !Z.pow_add_r by lia.
      assert (0 < 2 ^ (e1 - k)) by (apply Z.pow_pos_nonneg; lia).
      assert (0 < 2 ^ (e2 - k)) by (apply Z.pow_pos_nonneg; lia). nia. }
    apply Z.pow_lt_mono_r_iff in Hpow; lia. }
  assert (target m1 e1 ≤ target m2 e2) as Ht by (unfold target; lia).
  apply rank_of_mono; [done..|unfold target; lia|].
  destruct (Z.eq_dec (target m1 e1) (target m2 e2)) as [Heq|Hne]; [left|right; split; [lia|]].
  - split; [done|]. unfold placed in *.
    rewrite <-(rne_scale (Z.pos m1) _ (e1 - k)), <-(rne_scale (Z.pos m2) _ (e2 - k)) by lia.
    replace (target m1 e1 - e1 + (e1 - k)) with (target m2 e2 - k) by lia.
    replace (target m2 e2 - e2 + (e2 - k)) with (target m2 e2 - k) by lia.
    apply rne_mono; lia.
  - destruct Hn2 as [Hn2|]; [|done]. unfold target in *. lia.
Qed.

(** ** Products *)

Lemma canonical_exponent s m e : canonical (S754_finite s m e) = true →
  e = target m e ∧ e ≤ 971.
Proof.
  cbn [canonical valid_binary]. unfold bounded, canonical_mantissa, fexp, emin.
  intros [H1%Z.eqb_eq H2%Z.leb_le]%andb_true_iff. unfold target. lia.
Qed.

Lemma digits2_pos_mul a b :
  Z.pos (digits2_pos a) + Z.pos (digits2_pos b) - 1 ≤ Z.pos (digits2_pos (a * b)).
Proof.
  pose proof (digits2_pos_lower a) as Ha. pose proof (digits2_pos_lower b) as Hb.
  pose proof (digits2_pos_bound (a * b)) as Hab. rewrite Pos2Z.inj_mul in Hab.
  assert (2 ^ (Z.pos (digits2_pos a) - 1 + (Z.pos (digits2_pos b) - 1)) <
    2 ^ Z.pos (digits2_pos (a * b))) as Hp.
  { rewrite Z.pow_add_r by lia. eapply Z.le_lt_trans; [|exact Hab].
    apply Z.mul_le_mono_nonneg; (done || (apply Z.pow_nonneg; lia)). }
  apply Z.pow_lt_mono_r_iff in Hp; lia.
Qed.

Lemma product_placed m e m' e' :
  e = target m e → e' = target m' e' → placed (m * m') (e + e').
Proof. unfold placed, target. pose proof (digits2_pos_mul m m'). lia. Qed.

(** The value of a canonical number grows with its rank. *)
Lemma rank_value m1 e1 m2 e2 k :
  e1 = target m1 e1 → e2 = target m2 e2 → k ≤ e1 → k ≤ e2 →
  f64_rank (S754_finite false m1 e1) ≤ f64_rank (S754_finite false m2 e2) →
  Z.pos m1 * 2 ^ (e1 - k) ≤ Z.pos m2 * 2 ^ (e2 - k).
Proof.
  intros H1 H2 Hk1 Hk2 Hr. cbn [f64_rank] in Hr.
  assert (∀ m e, e = target m e → Z.pos m < 2 ^ 53) as Hb.
  { intros m e He. eapply Z.lt_le_trans; [apply digits2_pos_bound|].
    apply Z.pow_le_mono_r; unfold target in He; lia. }
  pose proof (Hb _ _ H1). pose proof (Hb _ _ H2).
  destruct (Z.lt_trichotomy e1 e2) as [Hlt|[<-|Hgt]]; [| |exfalso; nia].
  - assert (2 ^ 52 ≤ Z.pos m2) as Hm2.
    { etrans; [|apply digits2_pos_lower]. apply Z.pow_le_mono_r; unfold target in *; lia. }
    assert (2 ^ (e2 - k) = 2 ^ (e2 - e1 - 1) * (2 * 2 ^ (e1 - k))) as ->.
    { replace (2 * 2 ^ (e1 - k)) with (2 ^ (1 + (e1 - k))) by (rewrite Z.pow_add_r by lia; done).
      rewrite <-Z.pow_add_r by lia. f_equal. lia. }
    assert (0 < 2 ^ (e2 - e1 - 1)) by (apply Z.pow_pos_nonneg; lia).
    assert (0 < 2 ^ (e1 - k)) by (apply Z.pow_pos_nonneg; lia).
    assert (Z.pos m1 ≤ 2 * Z.pos m2) as H12 by (change (2 ^ 53) with (2 * 2 ^ 52) in *; lia).
    set (P := 2 ^ (e1 - k)) in *. set (Q := 2 ^ (e2 - e1 - 1)) in *.
    assert (Z.pos m1 * P ≤ 2 * Z.pos m2 * P) by nia. nia.
  - apply Z.mul_le_mono_nonneg_r; [apply Z.pow_nonneg; lia|lia].
Qed.

Lemma f64_mul_canonical x y :
  canonical x = true → canonical y = true → f64_nonneg x = true → f64_nonneg y = true →
  is_nan (f64_mul x y) = false →
  canonical (f64_mul x y) = true ∧ f64_nonneg (f64_mul x y) = true.
Proof.
  intros Hx Hy Hnx Hny. destruct x as [sx|sx| |sx m e], y as [sy|sy| |sy m' e']; try done;
    cbn [f64_nonneg] in Hnx, Hny; intros Hn; try (destruct sx, sy; done).
  destruct sx, sy; try done. cbn [f64_mul SFmul xorb].
  destruct (canonical_exponent _ _ _ Hx) as [He _]. destruct (canonical_exponent _ _ _ Hy) as [He' _].
  pose proof (round_rank _ _ (product_placed m e m' e' He He')) as (_ & Hc & Hp). done.
Qed.

(** A product of values that are not negative grows with its first factor. *)
Theorem f64_mul_mono x y w :
  canonical x = true → canonical y = true → canonical w = true →
  f64_nonneg x = true → f64_nonneg y = true → f64_nonneg w = true →
  f64_rank x ≤ f64_rank y → is_nan (f64_mul y w) = false →
  f64_rank (f64_mul x w) ≤ f64_rank (f64_mul y w).
Proof.
  intros Hx Hy Hw Hnx Hny Hnw Hr Hnan.
  pose proof (f64_mul_canonical y w Hy Hw Hny Hnw Hnan) as [_ Hnn].
  pose proof (f64_rank_bounds _ Hnn) as Hb.
  destruct x as [sx|sx| |sx m1 e1]; try done; cbn [f64_nonneg] in Hnx.
  - etrans; [|apply Hb]. by destruct w.
  - destruct sx; [done|]. destruct y as [sy|sy| |sy m2 e2]; cbn [f64_nonneg f64_rank] in *.
    + unfold f64_top in Hr. lia.
    + destruct sy; [done|]. done.
    + done.
    + exfalso. destruct sy; [done|]. unfold f64_top in Hr. split_bools. lia.
  - destruct sx; [done|]. destruct y as [sy|sy| |sy m2 e2]; cbn [f64_nonneg] in Hny; try done.
    + exfalso. cbn [f64_rank] in Hr. split_bools. lia.
    + destruct sy; [done|]. destruct w as [sw|sw| |sw mw ew]; try done; cbn [f64_nonneg] in Hnw;
        destruct sw; try done; cbn [f64_mul SFmul xorb f64_rank].
      apply f64_rank_bounds. destruct (canonical_exponent _ _ _ Hx) as [He _].
      destruct (canonical_exponent _ _ _ Hw) as [He' _].
      by pose proof (round_rank _ _ (product_placed m1 e1 mw ew He He')) as (_ & _ & ?).
    + destruct sy; [done|]. destruct w as [sw|sw| |sw mw ew]; try done; cbn [f64_nonneg] in Hnw;
        destruct sw; try done; cbn [f64_mul SFmul xorb]. 
      destruct (canonical_exponent _ _ _ Hx) as [He1 _]. destruct (canonical_exponent _ _ _ Hy) as [He2 _].
      destruct (canonical_exponent _ _ _ Hw) as [Hew _].
      apply (round_mono _ _ _ _ (Z.min e1 e2 + ew)); [by apply product_placed..|lia|lia|].
      replace (e1 + ew - (Z.min e1 e2 + ew)) with (e1 - Z.min e1 e2) by lia.
      replace (e2 + ew - (Z.min e1 e2 + ew)) with (e2 - Z.min e1 e2) by lia.
      pose proof (rank_value m1 e1 m2 e2 (Z.min e1 e2) He1 He2 ltac:(lia) ltac:(lia) Hr).
      rewrite !Pos2Z.inj_mul. nia.
Qed.

(** A finite factor makes no product that is not a number. *)
Lemma f64_mul_finite x y :
  canonical x = true → canonical y = true → f64_nonneg x = true → f64_nonneg y = true →
  is_finite x = true → y ≠ S754_infinity false → is_nan (f64_mul x y) = false.
Proof.
  intros Hx Hy Hnx Hny Hfx Hinf. destruct x as [sx| | |[] m e], y as [sy|[]| |[] m' e']; try done.
  destruct (canonical_exponent _ _ _ Hx) as [He _]. destruct (canonical_exponent _ _ _ Hy) as [He' _].
  pose proof (round_rank _ _ (product_placed m e m' e' He He')) as (_ & _ & Hp).
  by apply f64_nonneg_number.
Qed.

(** ** Conversions *)

Lemma shl_align_value m e e' :
  let r := shl_align m e e' in
  Z.pos (fst r) = Z.pos m * 2 ^ (e - snd r) ∧ snd r = Z.min e e'.
Proof.
  cbv zeta. unfold shl_align. destruct (e' - e) as [|d|d] eqn:Hd; cbn [fst snd].
  - split; [|lia]. rewrite Z.sub_diag. lia.
  - split; [|lia]. rewrite Z.sub_diag. lia.
  - split; [|lia]. replace (e - e') with (Z.pos d) by lia. clear Hd.
    induction d as [|d IH] using Pos.peano_ind; [simpl; lia|].
    rewrite Pos.iter_succ, Pos2Z.inj_xO, IH, Pos2Z.inj_succ, Z.pow_succ_r by lia. lia.
Qed.

Lemma binary_round_placed m e :
  let r := shl_align m e (fexp 53 1024 (Z.pos (digits2_pos m) + e)) in
  placed (fst r) (snd r) ∧ snd r ≤ e ∧ Z.pos (fst r) = Z.pos m * 2 ^ (e - snd r).
Proof.
  intros r. pose proof (shl_align_digits m e (fexp 53 1024 (Z.pos (digits2_pos m) + e))) as [Hd He].
  pose proof (shl_align_value m e (fexp 53 1024 (Z.pos (digits2_pos m) + e))) as [Hv _].
  fold r in Hd, He, Hv. split_and!; [|lia|done].
  unfold placed, target. rewrite Hd. unfold fexp, emin in He. lia.
Qed.

Lemma binary_round_canonical m e :
  canonical (binary_round 53 1024 false m e) = true ∧
  f64_nonneg (binary_round 53 1024 false m e) = true.
Proof.
  unfold binary_round. pose proof (binary_round_placed m e) as (Hp & _ & _).
  destruct (shl_align _ _ _) as [mz ez]. by pose proof (round_rank _ _ Hp) as (_ & ? & ?).
Qed.

Lemma binary_round_mono m1 m2 e : Z.pos m1 ≤ Z.pos m2 →
  f64_rank (binary_round 53 1024 false m1 e) ≤ f64_rank (binary_round 53 1024 false m2 e).
Proof.
  intros Hle. unfold binary_round.
  pose proof (binary_round_placed m1 e) as (Hp1 & He1 & Hv1).
  pose proof (binary_round_placed m2 e) as (Hp2 & He2 & Hv2).
  destruct (shl_align m1 _ _) as [z1 k1], (shl_align m2 _ _) as [z2 k2]. cbn [fst snd] in *.
  apply (round_mono _ _ _ _ (Z.min k1 k2)); [done|done|lia|lia|].
  rewrite Hv1, Hv2, <-!Z.mul_assoc, <-!Z.pow_add_r by lia.
  replace (e - k1 + (k1 - Z.min k1 k2)) with (e - Z.min k1 k2) by lia.
  replace (e - k2 + (k2 - Z.min k1 k2)) with (e - Z.min k1 k2) by lia.
  apply Z.mul_le_mono_nonneg_r; [apply Z.pow_nonneg; lia|done].
Qed.

Lemma f64_of_N_canonical n : canonical (f64_of_N n) = true.
Proof. destruct n as [|p]; [done|]. apply binary_round_canonical. Qed.

Lemma f64_of_N_mono n1 n2 : (n1 ≤ n2)%N → f64_rank (f64_of_N n1) ≤ f64_rank (f64_of_N n2).
Proof.
  intros Hle. destruct n1 as [|p1].
  - apply f64_rank_bounds. apply f64_of_N_nonneg.
  - destruct n2 as [|p2]; [lia|]. apply binary_round_mono. lia.
Qed.

Lemma f64_of_f32_canonical x :
  f64_nonneg (f64_of_f32 x) = true → canonical (f64_of_f32 x) = true.
Proof.
  destruct x as [s|s| |[] m e]; try done; intros H; [|apply binary_round_canonical].
  revert H. cbn [f64_of_f32]. unfold binary_round. destruct (shl_align _ _ _) as [mz ez].
  pose proof (binary_round_aux_range true mz ez) as Hr.
  destruct (binary_round_aux _ _ _ _ _ _) as [s|s| |s m' e']; [done|by subst|done|].
  by destruct Hr as (-> & _).
Qed.

(** An [f32] that is not negative stays so in [f64]. *)
Lemma f64_of_f32_nonneg x : float_ge x f32_zero = true → f64_nonneg (f64_of_f32 x) = true.
Proof.
  destruct x as [s|[]| |[] m e]; try done. intros _. apply binary_round_canonical.
Qed.
