(* ===== verification/Json.v ===== *)
(** * JSON documents

    The public variants of [serde_json::Value] and the accessors the program reads documents
    with. An object keeps its entries in the map's order, keys are distinct. Parsing and
    printing are parameters of the components that use them. *)

From Stdlib Require Import Floats.SpecFloat.
From S2P Require Import Prelude RustStr.

Inductive JsonNumber := PosInt (n : N) | NegInt (z : Z) | Float (f : spec_float).

Inductive Json :=
| JNull
| JBool (b : bool)
| JNumber (n : JsonNumber)
| JString (s : string)
| JArray (items : list Json)
| JObject (entries : list (string * Json)).

Fixpoint assoc {A} (key : string) (entries : list (string * A)) : option A :=
  match entries with
  | [] => None
  | (k, v) :: entries => if String.eqb k key then Some v else assoc key entries
  end.

(** [Value::get] with a key, [as_str], [as_u64], [as_object]. *)
Definition json_get (key : string) (v : Json) : option Json :=
  match v with JObject entries => assoc key entries | _ => None end.
Definition as_str (v : Json) : option string :=
  match v with JString s => Some s | _ => None end.
Definition as_u64 (v : Json) : option N :=
  match v with JNumber (PosInt n) => Some n | _ => None end.
Definition as_object (v : Json) : option (list (string * Json)) :=
  match v with JObject entries => Some entries | _ => None end.

(** [Option<T>] serialised by [json!]. *)
Definition json_opt {A} (f : A → Json) (o : option A) : Json :=
  match o with Some x => f x | None => JNull end.
Definition json_u64 (n : N) : Json := JNumber (PosInt n).

(** [Map::insert], in the order of the keys. *)
Fixpoint obj_insert (key : string) (v : Json) (entries : list (string * Json)) : list (string * Json) :=
  match entries with
  | [] => [(key, v)]
  | (k, x) :: rest =>
      match String.compare key k with
      | Lt => (key, v) :: entries
      | Eq => (key, v) :: rest
      | Gt => (k, x) :: obj_insert key v rest
      end
  end.

(** [Entry::or_insert]. *)
Definition obj_or_insert (key : string) (v : Json) (entries : list (string * Json)) : list (string * Json) :=
  match assoc key entries with Some _ => entries | None => obj_insert key v entries end.

Definition object_or_empty (v : Json) : list (string * Json) := default [] (as_object v).

Lemma assoc_obj_insert_ne k k' v l : k' ≠ k → assoc k' (obj_insert k v l) = assoc k' l.
Proof.
  intros Hne. assert (String.eqb k k' = false) as Hk by by apply String.eqb_neq.
  induction l as [|[k0 x] l IH]; simpl; [by rewrite Hk|].
  destruct (String.compare k k0) eqn:Hc; simpl; rewrite ?Hk; [|done|].
  - apply String.compare_eq_iff in Hc as <-. by rewrite Hk.
  - by destruct (String.eqb k0 k').
Qed.
