(* ===== verification/Budget.v ===== *)
(** * Budgets: limits, reports and the manager that collects them

    Model of [packages/atlas-core/src/budget.rs]. Sizes are [usize] values, [N] below
    2^64; a policy is a record of limit rules, a manager is the list of the reports it
    recorded, oldest first. *)

From S2P Require Import Prelude RustStr.

(** ** Data *)

Inductive BudgetNamespace :=
| BuildUpdate | GraphTraversal | QueryCandidatesAndSeeds | ReviewContextExtraction
| ContentSavedContextLookup | McpCliPayloadSerialization.

Definition BudgetNamespace_as_str (n : BudgetNamespace) : string :=
  match n with
  | BuildUpdate => "build_update"
  | GraphTraversal => "graph_traversal"
  | QueryCandidatesAndSeeds => "query_candidates_and_seeds"
  | ReviewContextExtraction => "review_context_extraction"
  | ContentSavedContextLookup => "content_saved_context_lookup"
  | McpCliPayloadSerialization => "mcp_cli_payload_serialization"
  end.

Inductive BudgetHitBehavior := Clamp | Partial | FailClosed.

Inductive BudgetStatus := WithinBudget | OverrideClamped | PartialResult | Blocked.

#[global] Instance BudgetHitBehavior_eq_dec : EqDecision BudgetHitBehavior.
Proof. solve_decision. Defined.
#[global] Instance BudgetStatus_eq_dec : EqDecision BudgetStatus.
Proof. solve_decision. Defined.

Definition severity (s : BudgetStatus) : N :=
  match s with
  | WithinBudget => 0
  | OverrideClamped => 1
  | PartialResult => 2
  | Blocked => 3
  end.

Inductive BudgetStage :=
| Build | Update | Query | Impact | ReviewContext | MinimalContext
| SavedContextRetrieval | McpResponseSerialization.

Inductive BudgetOutcomeClass := HardError | SoftPartial | DegradedState.

#[global] Instance BudgetStage_eq_dec : EqDecision BudgetStage.
Proof. solve_decision. Defined.
#[global] Instance BudgetOutcomeClass_eq_dec : EqDecision BudgetOutcomeClass.
Proof. solve_decision. Defined.

Record BudgetStageRule := mk_stage_rule {
  stage : BudgetStage;
  rule_budget_name : string;
  outcome : BudgetOutcomeClass;
  rule_safe_to_answer : bool
}.

Definition budget_stage_rules : list BudgetStageRule :=
  [ mk_stage_rule Build "build_update.max_files_per_run" DegradedState false;
    mk_stage_rule Build "build_update.max_total_bytes_per_run" DegradedState false;
    mk_stage_rule Build "build_update.max_file_bytes" DegradedState false;
    mk_stage_rule Build "build_update.max_parse_failures" HardError false;
    mk_stage_rule Build "build_update.max_parse_failure_ratio" HardError false;
    mk_stage_rule Build "build_update.max_wall_time_ms" DegradedState false;
    mk_stage_rule Update "build_update.max_files_per_run" DegradedState false;
    mk_stage_rule Update "build_update.max_total_bytes_per_run" DegradedState false;
    mk_stage_rule Update "build_update.max_file_bytes" DegradedState false;
    mk_stage_rule Update "build_update.max_parse_failures" HardError false;
    mk_stage_rule Update "build_update.max_parse_failure_ratio" HardError false;
    mk_stage_rule Update "build_update.max_wall_time_ms" DegradedState false;
    mk_stage_rule Query "query_candidates_and_seeds.max_candidates" SoftPartial true;
    mk_stage_rule Query "query_candidates_and_seeds.max_query_wall_time_ms" SoftPartial true;
    mk_stage_rule Impact "graph_traversal.max_seed_nodes" SoftPartial true;
    mk_stage_rule Impact "query_candidates_and_seeds.symbol_resolution" HardError false;
    mk_stage_rule Impact "graph_traversal.max_depth" SoftPartial true;
    mk_stage_rule Impact "graph_traversal.max_nodes" SoftPartial true;
    mk_stage_rule Impact "graph_traversal.max_edges" SoftPartial true;
    mk_stage_rule ReviewContext "graph_traversal.max_seed_files" SoftPartial true;
    mk_stage_rule ReviewContext "review_context_extraction.max_nodes" SoftPartial true;
    mk_stage_rule ReviewContext "review_context_extraction.max_edges" SoftPartial true;
    mk_stage_rule ReviewContext "review_context_extraction.max_files" SoftPartial true;
    mk_stage_rule ReviewContext "mcp_cli_payload_serialization.max_context_payload_bytes" SoftPartial true;
    mk_stage_rule ReviewContext "mcp_cli_payload_serialization.max_context_tokens_estimate" SoftPartial true;
    mk_stage_rule MinimalContext "graph_traversal.max_depth" SoftPartial true;
    mk_stage_rule MinimalContext "graph_traversal.max_nodes" SoftPartial true;
    mk_stage_rule MinimalContext "graph_traversal.max_edges" SoftPartial true;
    mk_stage_rule SavedContextRetrieval "content_saved_context_lookup.max_sources" SoftPartial true;
    mk_stage_rule McpResponseSerialization "mcp_cli_payload_serialization.max_mcp_response_bytes" SoftPartial true ].

Record BudgetLimitRule := mk_limit {
  default_limit : N;
  max_limit : N;
  hit_behavior : BudgetHitBehavior;
  safe_to_answer_on_hit : bool
}.

Record BudgetReport := mk_report {
  budget_status : BudgetStatus;
  budget_hit : bool;
  budget_name : string;
  budget_limit : N;
  budget_observed : N;
  partial : bool;
  safe_to_answer : bool
}.

#[global] Instance BudgetReport_eq_dec : EqDecision BudgetReport.
Proof. solve_decision. Defined.

Definition within_budget (name : string) (limit observed : N) : BudgetReport :=
  mk_report WithinBudget false name limit observed false true.
Definition not_applicable : BudgetReport := within_budget "none" 0 0.
Definition override_clamped (name : string) (limit observed : N) : BudgetReport :=
  mk_report OverrideClamped true name limit observed false true.
Definition partial_result (name : string) (limit observed : N) (safe : bool) : BudgetReport :=
  mk_report PartialResult true name limit observed true safe.
Definition blocked (name : string) (limit observed : N) : BudgetReport :=
  mk_report Blocked true name limit observed false false.

Definition is_worse_than (r other : BudgetReport) : bool :=
  (severity (budget_status other) <? severity (budget_status r))%N
  || ((severity (budget_status r) =? severity (budget_status other))%N
      && (budget_observed other <? budget_observed r)%N).

Definition merge (r other : BudgetReport) : BudgetReport :=
  if is_worse_than other r then other else r.

Record BuildUpdateBudgetCounters := mk_counters {
  files_discovered : N;
  files_accepted : N;
  files_skipped_by_byte_budget : N;
  bytes_accepted : N;
  bytes_skipped : N;
  parse_failures : N;
  budget_stop_reason : option string
}.

Definition default_counters : BuildUpdateBudgetCounters := mk_counters 0 0 0 0 0 0 None.

(** ** Policies *)

Record BuildUpdateBudgetPolicy := mk_build_update_policy {
  bu_files_per_run : BudgetLimitRule;
  bu_total_bytes_per_run : BudgetLimitRule;
  bu_file_bytes : BudgetLimitRule;
  bu_parse_failures : BudgetLimitRule;
  bu_parse_failure_ratio_bps : BudgetLimitRule;
  bu_wall_time_ms : BudgetLimitRule
}.

Record GraphTraversalBudgetPolicy := mk_graph_traversal_policy {
  gt_seed_nodes : BudgetLimitRule;
  gt_seed_files : BudgetLimitRule;
  gt_depth : BudgetLimitRule;
  gt_nodes : BudgetLimitRule;
  gt_edges : BudgetLimitRule
}.

Record QueryBudgetPolicy := mk_query_policy {
  q_candidates : BudgetLimitRule;
  q_seeds : BudgetLimitRule;
  q_wall_time_ms : BudgetLimitRule
}.

Record ReviewContextBudgetPolicy := mk_review_policy {
  rc_nodes : BudgetLimitRule;
  rc_edges : BudgetLimitRule;
  rc_files : BudgetLimitRule
}.

Record ContentLookupBudgetPolicy := mk_content_policy {
  cl_sources : BudgetLimitRule;
  cl_content_assets : BudgetLimitRule
}.

Record PayloadSerializationBudgetPolicy := mk_payload_policy {
  pl_nodes : BudgetLimitRule;
  pl_edges : BudgetLimitRule;
  pl_bytes : BudgetLimitRule;
  pl_review_source_bytes : BudgetLimitRule;
  pl_context_payload_bytes : BudgetLimitRule;
  pl_context_tokens_estimate : BudgetLimitRule;
  pl_file_excerpt_bytes : BudgetLimitRule;
  pl_saved_context_bytes : BudgetLimitRule;
  pl_mcp_response_bytes : BudgetLimitRule
}.

Record BudgetPolicy := mk_policy {
  build_update : BuildUpdateBudgetPolicy;
  graph_traversal : GraphTraversalBudgetPolicy;
  query_candidates_and_seeds : QueryBudgetPolicy;
  review_context_extraction : ReviewContextBudgetPolicy;
  content_saved_context_lookup : ContentLookupBudgetPolicy;
  mcp_cli_payload_serialization : PayloadSerializationBudgetPolicy
}.

Definition default_policy : BudgetPolicy :=
  mk_policy
    (mk_build_update_policy
       (mk_limit 10000 50000 Partial false)
       (mk_limit (64 * 1024 * 1024) (512 * 1024 * 1024) Partial false)
       (mk_limit (10 * 1024 * 1024) (64 * 1024 * 1024) Partial false)
       (mk_limit 100 10000 FailClosed false)
       (mk_limit 2500 10000 FailClosed false)
       (mk_limit 30000 300000 Partial false))
    (mk_graph_traversal_policy
       (mk_limit 20 100 Clamp true)
       (mk_limit 20 100 Clamp true)
       (mk_limit 3 10 Clamp true)
       (mk_limit 200 1000 Clamp true)
       (mk_limit 500 2000 Clamp true))
    (mk_query_policy
       (mk_limit 20 200 Clamp true)
       (mk_limit 20 100 Partial true)
       (mk_limit 5000 30000 Partial true))
    (mk_review_policy
       (mk_limit 50 200 Clamp true)
       (mk_limit 100 400 Clamp true)
       (mk_limit 20 100 Clamp true))
    (mk_content_policy
       (mk_limit 5 25 Clamp true)
       (mk_limit 5 20 Clamp true))
    (mk_payload_policy
       (mk_limit 100 200 Clamp true)
       (mk_limit 100 200 Clamp true)
       (mk_limit (64 * 1024) (256 * 1024) Clamp true)
       (mk_limit (12 * 1024) (128 * 1024) Partial true)
       (mk_limit (32 * 1024) (256 * 1024) Partial true)
       (mk_limit 8000 64000 Partial true)
       (mk_limit (4 * 1024) (64 * 1024) Partial true)
       (mk_limit (2 * 1024) (32 * 1024) Partial true)
       (mk_limit (48 * 1024) (256 * 1024) Partial true)).

(** Every rule of a policy. *)
Definition policy_rules (p : BudgetPolicy) : list BudgetLimitRule :=
  let b := build_update p in let g := graph_traversal p in
  let q := query_candidates_and_seeds p in let r := review_context_extraction p in
  let c := content_saved_context_lookup p in let m := mcp_cli_payload_serialization p in
  [ bu_files_per_run b; bu_total_bytes_per_run b; bu_file_bytes b; bu_parse_failures b;
    bu_parse_failure_ratio_bps b; bu_wall_time_ms b;
    gt_seed_nodes g; gt_seed_files g; gt_depth g; gt_nodes g; gt_edges g;
    q_candidates q; q_seeds q; q_wall_time_ms q;
    rc_nodes r; rc_edges r; rc_files r; cl_sources c; cl_content_assets c;
    pl_nodes m; pl_edges m; pl_bytes m; pl_review_source_bytes m; pl_context_payload_bytes m;
    pl_context_tokens_estimate m; pl_file_excerpt_bytes m; pl_saved_context_bytes m;
    pl_mcp_response_bytes m ].

(** ** The manager *)

Record BudgetManager := mk_manager { reports : list BudgetReport }.

Definition new_manager : BudgetManager := mk_manager [].

Definition push_report (m : BudgetManager) (r : BudgetReport) : BudgetManager :=
  mk_manager (reports m ++ [r]).

Definition resolve_limit (m : BudgetManager) (rule : BudgetLimitRule) (name : string)
    (requested : option N) : N * BudgetManager :=
  let observed := default (default_limit rule) requested in
  if (observed <=? max_limit rule)%N then (observed, m)
  else
    let report :=
      match hit_behavior rule with
      | Clamp => override_clamped name (max_limit rule) observed
      | Partial => partial_result name (max_limit rule) observed (safe_to_answer_on_hit rule)
      | FailClosed => blocked name (max_limit rule) observed
      end in
    (max_limit rule, push_report m report).

Definition record_report (m : BudgetManager) (r : BudgetReport) : BudgetManager :=
  if budget_hit r then push_report m r else m.

Definition record_usage (m : BudgetManager) (rule : BudgetLimitRule) (name : string)
    (limit observed : N) (is_partial : bool) : BudgetManager :=
  if (observed <=? limit)%N && negb is_partial then m
  else
    push_report m
      match hit_behavior rule with
      | FailClosed => blocked name limit observed
      | Clamp | Partial => partial_result name limit observed (safe_to_answer_on_hit rule)
      end.

(** The order [summary] maximises. *)
Definition report_cmp : BudgetReport → BudgetReport → comparison :=
  cmp_lex (cmp_on (severity ∘ budget_status) N.compare) (cmp_on budget_observed N.compare).

Definition summary (m : BudgetManager) (default_name : string) (limit observed : N) :
    BudgetReport :=
  default (within_budget default_name limit observed) (max_by report_cmp (reports m)).

(** ** Well-formed reports

    The constructors of [BudgetReport] tie the flags to the status: a blocked report is
    never safe to answer from, a report within budget is never a hit. *)

Definition wf_report (r : BudgetReport) : bool :=
  match budget_status r with
  | WithinBudget => negb (budget_hit r) && negb (partial r) && safe_to_answer r
  | OverrideClamped => budget_hit r && negb (partial r) && safe_to_answer r
  | PartialResult => budget_hit r && partial r
  | Blocked => budget_hit r && negb (partial r) && negb (safe_to_answer r)
  end.

(** The calls a client makes on the manager it owns. *)
Inductive BudgetOp :=
| OpResolve (rule : BudgetLimitRule) (name : string) (requested : option N)
| OpReport (r : BudgetReport)
| OpUsage (rule : BudgetLimitRule) (name : string) (limit observed : N) (is_partial : bool).

Definition run_op (m : BudgetManager) (op : BudgetOp) : BudgetManager :=
  match op with
  | OpResolve rule name req => snd (resolve_limit m rule name req)
  | OpReport r => record_report m r
  | OpUsage rule name limit observed p => record_usage m rule name limit observed p
  end.

Definition run_ops (m : BudgetManager) (ops : list BudgetOp) : BudgetManager :=
  foldl run_op m ops.

(** What a call means, independently of the manager: did it run over, and if so how
    severely and with what observed amount. *)
Definition op_overrun (op : BudgetOp) : option (BudgetStatus * N) :=
  match op with
  | OpResolve rule _ req =>
      let observed := default (default_limit rule) req in
      if (max_limit rule <? observed)%N
      then Some (match hit_behavior rule with
                 | Clamp => OverrideClamped | Partial => PartialResult
                 | FailClosed => Blocked end, observed)
      else None
  | OpReport r => if budget_hit r then Some (budget_status r, budget_observed r) else None
  | OpUsage rule _ limit observed p =>
      if (limit <? observed)%N || p
      then Some (match hit_behavior rule with FailClosed => Blocked | _ => PartialResult end,
                 observed)
      else None
  end.

Definition op_wf (op : BudgetOp) : Prop :=
  match op with OpReport r => wf_report r = true | _ => True end.

Definition report_key (r : BudgetReport) : BudgetStatus * N :=
  (budget_status r, budget_observed r).

(** ** Lemmas *)

Lemma run_op_reports m op :
  ∃ rs, reports (run_op m op) = reports m ++ rs ∧
        map report_key rs = option_list (op_overrun op) ∧
        Forall (λ r, budget_hit r = true) rs ∧
        (op_wf op → Forall (λ r, wf_report r = true) rs).
Proof.
  destruct op as [rule name req|r|rule name limit observed p]; simpl.
  - unfold resolve_limit. rewrite N.ltb_antisym.
    destruct (default _ _ <=? _)%N; simpl.
    { exists []. rewrite app_nil_r. auto. }
    eexists [_]; split; [done|]. destruct (hit_behavior rule); simpl; auto.
  - unfold record_report. destruct (budget_hit r) eqn:E; simpl.
    + exists [r]. auto.
    + exists []. rewrite app_nil_r. auto.
  - unfold record_usage. rewrite N.ltb_antisym.
    destruct (observed <=? limit)%N, p; simpl;
      try (exists []; rewrite app_nil_r; by auto);
      eexists [_]; (split; [done|]); destruct (hit_behavior rule); simpl; auto.
Qed.

Lemma run_ops_reports m ops :
  ∃ rs, reports (run_ops m ops) = reports m ++ rs ∧
        map report_key rs = omap op_overrun ops ∧
        Forall (λ r, budget_hit r = true) rs ∧
        (Forall op_wf ops → Forall (λ r, wf_report r = true) rs).
Proof.
  unfold run_ops. revert m. induction ops as [|op ops IH]; intros m; simpl.
  { exists []. rewrite app_nil_r. auto. }
  destruct (run_op_reports m op) as (rs1 & Hr1 & Hk1 & Hh1 & Hw1).
  destruct (IH (run_op m op)) as (rs2 & Hr2 & Hk2 & Hh2 & Hw2).
  exists (rs1 ++ rs2). rewrite Hr2, Hr1, map_app, Hk1, Hk2.
  split_and!.
  - by rewrite app_assoc.
  - by destruct (op_overrun op).
  - by apply Forall_app.
  - intros [??]%Forall_cons. apply Forall_app; auto.
Qed.

#[global] Instance report_cmp_total : TotalCmp report_cmp.
Proof. unfold report_cmp. apply _. Qed.

Lemma report_leb_key r s :
  leb_of report_cmp r s = true ↔ is_worse_than r s = false.
Proof.
  unfold leb_of, report_cmp, cmp_lex, cmp_on, then_with, is_worse_than, compose.
  destruct (N.compare_spec (severity (budget_status r)) (severity (budget_status s)));
    destruct (N.compare_spec (budget_observed r) (budget_observed s));
    repeat match goal with
    | |- context [(?a <? ?b)%N] => destruct (N.ltb_spec a b)
    | |- context [(?a =? ?b)%N] => destruct (N.eqb_spec a b)
    end; simpl; naive_solver lia.
Qed.

Lemma new_manager_ops ops :
  reports (run_ops new_manager ops) = [] ↔ omap op_overrun ops = [].
Proof.
  destruct (run_ops_reports new_manager ops) as (rs & Hr & Hk & _). simpl in Hr.
  rewrite Hr, <-Hk. by destruct rs.
Qed.

(** [summary] returns one of the recorded reports when there is one. *)
Lemma summary_elem m dn l o :
  reports m ≠ [] →
  summary m dn l o ∈ reports m ∧
  ∀ r, r ∈ reports m → is_worse_than r (summary m dn l o) = false.
Proof.
  intros Hne. unfold summary.
  destruct (max_by_is_Some report_cmp (reports m) Hne) as [s Hs]. rewrite Hs. simpl.
  apply max_by_spec in Hs as [Hin Hmax]; [|apply _].
  split; [done|]. intros r Hr. by apply report_leb_key, Hmax.
Qed.

Lemma severity_inj s t : severity s = severity t → s = t.
Proof. by destruct s, t. Qed.

Lemma is_worse_false_iff r s :
  is_worse_than r s = false ↔
  (severity (budget_status r) < severity (budget_status s))%N ∨
  budget_status r = budget_status s ∧ (budget_observed r ≤ budget_observed s)%N.
Proof.
  unfold is_worse_than. rewrite orb_false_iff, andb_false_iff, !N.ltb_ge, N.eqb_neq.
  split.
  - intros [H1 H2].
    destruct (N.eq_dec (severity (budget_status r)) (severity (budget_status s))) as [E|].
    + right. split; [by apply severity_inj|]. lia.
    + left. lia.
  - intros [?|[-> ?]]; lia.
Qed.

(** ** Properties *)

(** The manager's summary is the worst thing that happened: after any sequence of
    calls, the summary is a hit exactly when some call ran over its limit; every
    overrun is at most as severe as the summary (by status, then by observed amount);
    and the summary's status and amount are those of one of the overruns. *)
Theorem summary_is_worst_overrun ops dn limit observed :
  let s := summary (run_ops new_manager ops) dn limit observed in
  (budget_hit s = true ↔ ∃ op, op ∈ ops ∧ is_Some (op_overrun op)) ∧
  (∀ op st n, op ∈ ops → op_overrun op = Some (st, n) →
     (severity st < severity (budget_status s))%N ∨
     st = budget_status s ∧ (n ≤ budget_observed s)%N) ∧
  (budget_hit s = true →
     ∃ op, op ∈ ops ∧ op_overrun op = Some (budget_status s, budget_observed s)).
Proof.
  intros s.
  destruct (run_ops_reports new_manager ops) as (rs & Hr & Hk & Hh & _). simpl in Hr.
  assert (∀ op k, op ∈ ops → op_overrun op = Some k → k ∈ map report_key rs) as Hkey.
  { intros op k Hin Ho. rewrite Hk. apply list_elem_of_omap. eauto. }
  destruct (decide (rs = [])) as [->|Hne].
  { assert (∀ op k, op ∈ ops → op_overrun op = Some k → False) as Hno.
    { intros op k Hin Ho. by eapply elem_of_nil, Hkey. }
    unfold s, summary. rewrite Hr. simpl.
    split_and!; [|naive_solver..]. split; [done|]. intros (op & Hin & k & Ho). naive_solver. }
  destruct (summary_elem (run_ops new_manager ops) dn limit observed) as [Hin Hmax];
    [by rewrite Hr|].
  fold s in Hin, Hmax. rewrite Hr in Hin, Hmax.
  assert (budget_hit s = true) as Hhit by (rewrite Forall_forall in Hh; by apply Hh).
  assert (report_key s ∈ omap op_overrun ops) as Hs
    by (rewrite <-Hk; by apply list_elem_of_fmap_2).
  apply list_elem_of_omap in Hs as (op & Hop & Ho).
  split_and!.
  - split; [|done]. intros _. exists op. rewrite Ho. eauto.
  - intros op' st n Hin' Ho'. apply (Hkey op' (st, n)) in Hin'; [|done].
    apply list_elem_of_fmap in Hin' as (r & [= -> ->] & Hr').
    by apply is_worse_false_iff, Hmax.
  - eauto.
Qed.

(** Fail-closed limits fail closed: when every report handed to the manager is
    well formed, an overrun of a fail-closed limit anywhere in the run makes the summary
    blocked, and a blocked summary is never partial and never safe to answer from. *)
Theorem fail_closed_blocks_answer ops dn limit observed :
  Forall op_wf ops →
  (∃ op n, op ∈ ops ∧ op_overrun op = Some (Blocked, n)) →
  let s := summary (run_ops new_manager ops) dn limit observed in
  budget_status s = Blocked ∧ budget_hit s = true ∧ partial s = false ∧
  safe_to_answer s = false.
Proof.
  intros Hwf (op & n & Hin & Ho) s.
  destruct (run_ops_reports new_manager ops) as (rs & Hr & Hk & _ & Hw). simpl in Hr.
  assert ((Blocked, n) ∈ map report_key rs) as Hkey
    by (rewrite Hk; apply list_elem_of_omap; eauto).
  apply list_elem_of_fmap in Hkey as (r & [= Hst ->] & Hrin).
  destruct (summary_elem (run_ops new_manager ops) dn limit observed) as [Hsin Hmax].
  { rewrite Hr. by intros ->; apply elem_of_nil in Hrin. }
  fold s in Hsin, Hmax. rewrite Hr in Hsin, Hmax.
  specialize (Hmax r Hrin). apply is_worse_false_iff in Hmax.
  assert (budget_status s = Blocked) as Hs.
  { rewrite <-Hst in Hmax. destruct Hmax as [Hlt|[<- _]]; [|done].
    destruct (budget_status s); simpl in Hlt; lia. }
  assert (wf_report s = true) as Hsw.
  { specialize (Hw Hwf). rewrite Forall_forall in Hw. auto. }
  unfold wf_report in Hsw. rewrite Hs in Hsw. split_bools. auto.
Qed.


Lemma merge_spec r other :
  (merge r other = r ∨ merge r other = other) ∧
  is_worse_than r (merge r other) = false ∧ is_worse_than other (merge r other) = false.
Proof.
  unfold merge.
  assert (∀ x, is_worse_than x x = false) as Hrefl
    by (intros; apply is_worse_false_iff; right; split; [done|lia]).
  destruct (is_worse_than other r) eqn:E; auto.
  split_and!; auto.
  unfold is_worse_than in *.
  rewrite orb_true_iff, andb_true_iff, !N.ltb_lt, N.eqb_eq in E.
  rewrite orb_false_iff, andb_false_iff, !N.ltb_ge, N.eqb_neq. lia.
Qed.

Lemma is_worse_false_trans r s t :
  is_worse_than r s = false → is_worse_than s t = false → is_worse_than r t = false.
Proof.
  rewrite <-!report_leb_key. apply (leb_of_trans report_cmp).
Qed.

Lemma merge_fold_spec b rs :
  foldl merge b rs ∈ b :: rs ∧
  ∀ r, r ∈ b :: rs → is_worse_than r (foldl merge b rs) = false.
Proof.
  revert b. induction rs as [|x rs IH]; intros b; simpl.
  { split; [set_solver|]. intros r ->%list_elem_of_singleton.
    apply is_worse_false_iff. right. split; [done|lia]. }
  destruct (merge_spec b x) as (Hor & Hb & Hx), (IH (merge b x)) as [Hin Hmax].
  pose proof (Hmax (merge b x) ltac:(constructor)) as Hm.
  split.
  - apply elem_of_cons in Hin as [->|]; [destruct Hor as [->| ->]|]; set_solver.
  - intros r Hr. apply elem_of_cons in Hr as [->|[->|Hr]%elem_of_cons].
    + by eapply is_worse_false_trans.
    + by eapply is_worse_false_trans.
    + apply Hmax. by constructor.
Qed.

Lemma is_worse_antisym r s :
  is_worse_than r s = false → is_worse_than s r = false → report_key r = report_key s.
Proof.
  rewrite !is_worse_false_iff. unfold report_key. intros H1 H2. f_equal.
  - apply severity_inj. destruct H1 as [?|[-> _]], H2 as [?|[? _]]; congruence || lia.
  - destruct H1 as [?|[E1 ?]], H2 as [?|[E2 ?]]; rewrite ?E1, ?E2 in *; lia.
Qed.

(** Folding the recorded reports with [merge] and taking the manager's [summary]
    agree on the status and the observed amount after any sequence of calls with
    well-formed reports (they may differ in which of several equally bad reports they
    name: [merge] keeps the first, [summary] the last). *)
Theorem merge_fold_agrees_with_summary ops dn limit observed :
  Forall op_wf ops →
  let m := run_ops new_manager ops in
  report_key (foldl merge (within_budget dn limit observed) (reports m)) =
  report_key (summary m dn limit observed).
Proof.
  intros Hwf m.
  destruct (run_ops_reports new_manager ops) as (rs & Hr & _ & Hh & Hw). simpl in Hr.
  fold m in Hr. specialize (Hw Hwf). rewrite Forall_forall in Hh, Hw.
  destruct (merge_fold_spec (within_budget dn limit observed) (reports m)) as [Hin Hmax].
  set (f := foldl merge _ _) in *.
  destruct (decide (rs = [])) as [->|Hne].
  { unfold summary, f. by rewrite Hr. }
  destruct (summary_elem m dn limit observed) as [Hsin Hsmax]; [by rewrite Hr|].
  apply is_worse_antisym.
  - apply elem_of_cons in Hin as [->|Hin]; [|by apply Hsmax].
    rewrite Hr in Hsin. apply is_worse_false_iff. left. simpl.
    specialize (Hh _ Hsin). specialize (Hw _ Hsin). unfold wf_report in Hw.
    destruct (budget_status _); simpl; try lia. rewrite Hh in Hw. done.
  - apply Hmax. by constructor.
Qed.

(** A resolved limit never exceeds the rule's maximum; within the maximum the
    request is honoured unchanged and nothing is recorded; over it the maximum is used
    and exactly one report of the rule's kind is recorded. *)
Theorem resolve_limit_bounds m rule name requested n m' :
  resolve_limit m rule name requested = (n, m') →
  let asked := default (default_limit rule) requested in
  n = N.min asked (max_limit rule) ∧
  ((asked ≤ max_limit rule)%N → m' = m) ∧
  ((max_limit rule < asked)%N →
     ∃ r, reports m' = reports m ++ [r] ∧ budget_hit r = true ∧ wf_report r = true ∧
          budget_limit r = max_limit rule ∧ budget_observed r = asked ∧
          budget_name r = name ∧
          (budget_status r = Blocked ↔ hit_behavior rule = FailClosed)).
Proof.
  intros H asked. unfold resolve_limit in H. fold asked in H. cbv zeta in H.
  destruct (N.leb_spec asked (max_limit rule)); simplify_eq.
  - split_and!; [lia|done|lia].
  - split_and!; [lia|lia|]. intros _. eexists. split; [done|].
    by destruct (hit_behavior rule).
Qed.

Definition rule_ok (r : BudgetLimitRule) : bool :=
  (0 <? default_limit r)%N && (default_limit r <=? max_limit r)%N
  && (max_limit r <=? u32_max)%N
  && implb (bool_decide (hit_behavior r = FailClosed)) (negb (safe_to_answer_on_hit r)).

(** The shipped policy is coherent: every rule has a positive default within its
    maximum, every maximum fits 32 bits, fail-closed rules are never safe on a hit; so
    a caller that asks for nothing gets the default and no report is recorded. *)
Theorem default_policy_coherent rule m name :
  rule ∈ policy_rules default_policy →
  rule_ok rule = true ∧ resolve_limit m rule name None = (default_limit rule, m).
Proof.
  intros Hin.
  assert (forallb rule_ok (policy_rules default_policy) = true) as Hall by (by vm_compute).
  rewrite forallb_forall in Hall.
  specialize (Hall rule ltac:(by apply list_elem_of_In)). split; [done|].
  unfold rule_ok in Hall. split_bools. unfold resolve_limit. simpl.
  by match goal with H : (default_limit _ <=? _)%N = true |- _ => rewrite H end.
Qed.

(** The stage table is a function of (stage, budget name), and a stage's answer is
    safe exactly when its budget only makes the result partial. *)
Theorem stage_rules_consistent :
  NoDup (map (λ r, (stage r, rule_budget_name r)) budget_stage_rules) ∧
  (∀ r, r ∈ budget_stage_rules → rule_safe_to_answer r = bool_decide (outcome r = SoftPartial)) ∧
  (∀ s, ∃ r, r ∈ budget_stage_rules ∧ stage r = s).
Proof.
  split_and!.
  - by apply (bool_decide_unpack _); vm_compute.
  - intros r Hr.
    assert (forallb (λ r, Bool.eqb (rule_safe_to_answer r) (bool_decide (outcome r = SoftPartial)))
              budget_stage_rules = true) as Hall by (by vm_compute).
    rewrite forallb_forall in Hall. apply Bool.eqb_prop, Hall. by apply list_elem_of_In.
  - intros s.
    assert (existsb (λ r, bool_decide (stage r = s)) budget_stage_rules = true) as H
      by (by destruct s).
    apply existsb_exists in H as (r & Hin & Hr). apply bool_decide_eq_true_1 in Hr.
    exists r. split; [by apply list_elem_of_In|done].
Qed.

(** ** Witnesses *)

(** A run with a clamped request and a fail-closed overrun. *)
Definition sample_ops : list BudgetOp :=
  [ OpResolve (mk_limit 50 200 Clamp true) "review_context_extraction.max_nodes" (Some 500%N);
    OpUsage (mk_limit 100 10000 FailClosed false) "build_update.max_parse_failures" 100 101 false;
    OpReport (partial_result "graph_traversal.max_nodes" 200 9000 true) ].

Lemma fail_closed_blocks_answer_witness :
  let s := summary (run_ops new_manager sample_ops) "none" 0 0 in
  budget_status s = Blocked ∧ budget_hit s = true ∧ partial s = false ∧
  safe_to_answer s = false.
Proof.
  apply (fail_closed_blocks_answer sample_ops "none" 0 0).
  - repeat constructor.
  - eexists _, 101%N. split; [apply list_elem_of_further, list_elem_of_here|reflexivity].
Defined.

Lemma merge_fold_agrees_with_summary_witness :
  report_key (foldl merge (within_budget "none" 0 0) (reports (run_ops new_manager sample_ops))) =
  (Blocked, 101%N).
Proof.
  rewrite (merge_fold_agrees_with_summary sample_ops "none" 0 0); [reflexivity|].
  repeat constructor.
Defined.

Lemma resolve_limit_bounds_witness :
  ∃ r, reports (snd (resolve_limit new_manager (mk_limit 50 200 Clamp true) "n" (Some 500%N)))
         = [r] ∧ budget_limit r = 200%N.
Proof.
  destruct (resolve_limit_bounds new_manager (mk_limit 50 200 Clamp true) "n" (Some 500%N)
    200 _ eq_refl) as (_ & _ & H).
  destruct H as (r & Hr & _ & _ & Hl & _); [reflexivity|]. exists r. auto.
Defined.

Lemma default_policy_coherent_witness :
  resolve_limit new_manager (bu_wall_time_ms (build_update default_policy)) "wall" None =
  (30000%N, new_manager).
Proof.
  apply (default_policy_coherent (bu_wall_time_ms (build_update default_policy))
           new_manager "wall").
  do 5 apply list_elem_of_further. apply list_elem_of_here.
Defined.
