(* ===== verification/BuildBudget.v ===== *)
(** * The budget tracker of one build or update run

    Model of [packages/atlas-engine/src/build_budget.rs] and of the run limits of
    [packages/atlas-engine/src/config/build.rs]. The tracker owns a [BudgetManager]
    (file [Budget]) and the run's counters; the engine calls its methods while it scans,
    accepts and parses files, and [finish] yields the counters and the run's report.
    The wall clock is an argument ([elapsed_ms], what [Instant::elapsed] returned). *)

From S2P Require Import Prelude RustStr Budget.

Record BuildRunBudget := mk_limits {
  max_files_per_run : N;
  max_total_bytes_per_run : N;
  max_file_bytes : N;
  max_parse_failures : N;
  max_parse_failure_ratio_bps : N;
  max_wall_time_ms : N
}.

Definition default_run_budget : BuildRunBudget :=
  let p := build_update default_policy in
  mk_limits (default_limit (bu_files_per_run p)) (default_limit (bu_total_bytes_per_run p))
    (default_limit (bu_file_bytes p)) (default_limit (bu_parse_failures p))
    (default_limit (bu_parse_failure_ratio_bps p)) (default_limit (bu_wall_time_ms p)).

Inductive BuildBudgetDecision := Continue | DecDegraded | DecBlocked.

#[global] Instance BuildBudgetDecision_eq_dec : EqDecision BuildBudgetDecision.
Proof. solve_decision. Defined.

Record BuildBudgetTracker := mk_tracker {
  policy : BudgetPolicy;
  manager : BudgetManager;
  limits : BuildRunBudget;
  counters : BuildUpdateBudgetCounters
}.

Definition new_tracker (l : BuildRunBudget) : BuildBudgetTracker :=
  mk_tracker default_policy new_manager l default_counters.

(** ** Field updates *)

Definition with_counters (t : BuildBudgetTracker) (c : BuildUpdateBudgetCounters) :
    BuildBudgetTracker :=
  mk_tracker (policy t) (manager t) (limits t) c.

Definition with_manager (t : BuildBudgetTracker) (m : BudgetManager) : BuildBudgetTracker :=
  mk_tracker (policy t) m (limits t) (counters t).

Definition with_stop_reason (c : BuildUpdateBudgetCounters) (r : option string) :
    BuildUpdateBudgetCounters :=
  mk_counters (files_discovered c) (files_accepted c) (files_skipped_by_byte_budget c)
    (bytes_accepted c) (bytes_skipped c) (parse_failures c) r.

(** [Option::get_or_insert_with]. *)
Definition get_or_insert (o : option string) (s : string) : option string :=
  match o with Some _ => o | None => Some s end.

(** ** Operations *)

Definition set_files_discovered (t : BuildBudgetTracker) (n : N) : BuildBudgetTracker :=
  let c := counters t in
  with_counters t
    (mk_counters n (files_accepted c) (files_skipped_by_byte_budget c) (bytes_accepted c)
       (bytes_skipped c) (parse_failures c) (budget_stop_reason c)).

Definition note_skipped_by_file_bytes (t : BuildBudgetTracker) (file_bytes : N) :
    BuildBudgetTracker :=
  let c := counters t in
  let t := with_counters t
    (mk_counters (files_discovered c) (files_accepted c)
       (wadd64 (files_skipped_by_byte_budget c) 1) (bytes_accepted c)
       (sat_add64 (bytes_skipped c) file_bytes) (parse_failures c)
       (get_or_insert (budget_stop_reason c) "max_file_bytes")) in
  with_manager t
    (record_usage (manager t) (bu_file_bytes (build_update (policy t)))
       "build_update.max_file_bytes" (max_file_bytes (limits t)) file_bytes true).

Definition note_scanned_file_byte_skips (t : BuildBudgetTracker) (count : N) :
    BuildBudgetTracker :=
  if (count =? 0)%N then t
  else
    let c := counters t in
    let t := with_counters t
      (mk_counters (files_discovered c) (files_accepted c)
         (wadd64 (files_skipped_by_byte_budget c) count) (bytes_accepted c)
         (bytes_skipped c) (parse_failures c)
         (get_or_insert (budget_stop_reason c) "max_file_bytes")) in
    with_manager t
      (record_usage (manager t) (bu_file_bytes (build_update (policy t)))
         "build_update.max_file_bytes" (max_file_bytes (limits t))
         (wadd64 (max_file_bytes (limits t)) 1) true).

Definition maybe_stop_for_time (t : BuildBudgetTracker) (elapsed_ms : N) :
    BuildBudgetDecision * BuildBudgetTracker :=
  if (elapsed_ms <=? max_wall_time_ms (limits t))%N then (Continue, t)
  else
    let t := with_counters t (with_stop_reason (counters t) (Some "max_wall_time_ms")) in
    (DecDegraded,
     with_manager t
       (record_usage (manager t) (bu_wall_time_ms (build_update (policy t)))
          "build_update.max_wall_time_ms" (max_wall_time_ms (limits t)) elapsed_ms true)).

Definition try_accept_file (t : BuildBudgetTracker) (file_bytes : N) :
    BuildBudgetDecision * BuildBudgetTracker :=
  let c := counters t in
  if (max_files_per_run (limits t) <=? files_accepted c)%N then
    let t := with_counters t (with_stop_reason c (Some "max_files_per_run")) in
    (DecDegraded,
     with_manager t
       (record_usage (manager t) (bu_files_per_run (build_update (policy t)))
          "build_update.max_files_per_run" (max_files_per_run (limits t))
          (sat_add64 (files_accepted c) 1) true))
  else
    let next_bytes := sat_add64 (bytes_accepted c) file_bytes in
    if (max_total_bytes_per_run (limits t) <? next_bytes)%N then
      let t := with_counters t
        (mk_counters (files_discovered c) (files_accepted c)
           (wadd64 (files_skipped_by_byte_budget c) 1) (bytes_accepted c)
           (sat_add64 (bytes_skipped c) file_bytes) (parse_failures c)
           (Some "max_total_bytes_per_run")) in
      (DecDegraded,
       with_manager t
         (record_usage (manager t) (bu_total_bytes_per_run (build_update (policy t)))
            "build_update.max_total_bytes_per_run" (max_total_bytes_per_run (limits t))
            next_bytes true))
    else
      (Continue,
       with_counters t
         (mk_counters (files_discovered c) (wadd64 (files_accepted c) 1)
            (files_skipped_by_byte_budget c) next_bytes (bytes_skipped c)
            (parse_failures c) (budget_stop_reason c))).

Definition note_parse_failure (t : BuildBudgetTracker) (attempted_files : N) :
    BuildBudgetDecision * BuildBudgetTracker :=
  let c0 := counters t in
  let t := with_counters t
    (mk_counters (files_discovered c0) (files_accepted c0) (files_skipped_by_byte_budget c0)
       (bytes_accepted c0) (bytes_skipped c0) (wadd64 (parse_failures c0) 1)
       (budget_stop_reason c0)) in
  let c := counters t in
  if (max_parse_failures (limits t) <? parse_failures c)%N then
    let t := with_counters t (with_stop_reason c (Some "max_parse_failures")) in
    (DecBlocked,
     with_manager t
       (record_usage (manager t) (bu_parse_failures (build_update (policy t)))
          "build_update.max_parse_failures" (max_parse_failures (limits t))
          (parse_failures c) false))
  else
    let failure_ratio_bps :=
      if (attempted_files =? 0)%N then 0%N
      else wrap64 (parse_failures c * 10000 / attempted_files) in
    if (max_parse_failure_ratio_bps (limits t) <? failure_ratio_bps)%N then
      let t := with_counters t (with_stop_reason c (Some "max_parse_failure_ratio")) in
      (DecBlocked,
       with_manager t
         (record_usage (manager t) (bu_parse_failure_ratio_bps (build_update (policy t)))
            "build_update.max_parse_failure_ratio" (max_parse_failure_ratio_bps (limits t))
            failure_ratio_bps false))
    else (Continue, t).

Definition finish (t : BuildBudgetTracker) : BuildUpdateBudgetCounters * BudgetReport :=
  let c := counters t in
  let observed :=
    N.max (N.max (parse_failures c) (files_skipped_by_byte_budget c)) (files_accepted c) in
  (c, summary (manager t) "build_update" (N.max (files_accepted c) 1) observed).

(** ** Runs *)

Inductive TrackerOp :=
| SetDiscovered (n : N)
| SkipFileBytes (bytes : N)
| ScannedSkips (count : N)
| CheckTime (elapsed_ms : N)
| AcceptFile (bytes : N)
| ParseFailure (attempted : N).

Definition step (t : BuildBudgetTracker) (op : TrackerOp) :
    BuildBudgetDecision * BuildBudgetTracker :=
  match op with
  | SetDiscovered n => (Continue, set_files_discovered t n)
  | SkipFileBytes b => (Continue, note_skipped_by_file_bytes t b)
  | ScannedSkips n => (Continue, note_scanned_file_byte_skips t n)
  | CheckTime e => maybe_stop_for_time t e
  | AcceptFile b => try_accept_file t b
  | ParseFailure n => note_parse_failure t n
  end.

(** The decisions a run returned, in order, and the tracker it left. *)
Fixpoint run (t : BuildBudgetTracker) (ops : list TrackerOp) :
    list BuildBudgetDecision * BuildBudgetTracker :=
  match ops with
  | [] => ([], t)
  | op :: ops =>
      let (d, t) := step t op in
      let (ds, t) := run t ops in
      (d :: ds, t)
  end.

(** Sizes of the files a run accepted. *)
Fixpoint accepted (ops : list TrackerOp) (ds : list BuildBudgetDecision) : list N :=
  match ops, ds with
  | AcceptFile b :: ops, Continue :: ds => b :: accepted ops ds
  | _ :: ops, _ :: ds => accepted ops ds
  | _, _ => []
  end.

Definition sum_N (l : list N) : N := foldr N.add 0%N l.

(** An operation that skips files without stopping the run. *)
Definition skips (op : TrackerOp) : bool :=
  match op with
  | SkipFileBytes _ => true
  | ScannedSkips n => negb (n =? 0)%N
  | _ => false
  end.

(** ** Lemmas *)

Definition unsafe_hit (r : BudgetReport) : Prop :=
  budget_hit r = true ∧ safe_to_answer r = false.

Lemma record_usage_hits m rule name lim obs p :
  safe_to_answer_on_hit rule = false → (lim < obs)%N ∨ p = true →
  ∃ r, reports (record_usage m rule name lim obs p) = reports m ++ [r] ∧ unsafe_hit r ∧
       (budget_status r = Blocked ↔ hit_behavior rule = FailClosed).
Proof.
  intros Hs Ho. unfold record_usage.
  destruct (N.leb_spec obs lim), p; simpl; try (destruct Ho; done || lia);
    (eexists; split; [done|]); unfold unsafe_hit;
    destruct (hit_behavior rule); simpl; rewrite ?Hs; naive_solver.
Qed.

(** What one call does to the manager and to the stop reason. *)
Definition step_effect (t t' : BuildBudgetTracker) (op : TrackerOp) (d : BuildBudgetDecision)
    (rs : list BudgetReport) : Prop :=
  policy t' = policy t ∧ limits t' = limits t ∧
  reports (manager t') = reports (manager t) ++ rs ∧
  Forall unsafe_hit rs ∧
  (d = DecBlocked ↔ Exists (λ r, budget_status r = Blocked) rs) ∧
  (rs = [] ↔ d = Continue ∧ skips op = false) ∧
  (is_Some (budget_stop_reason (counters t')) ↔
     is_Some (budget_stop_reason (counters t)) ∨ rs ≠ []).

Lemma quiet_effect t t' op :
  policy t' = policy t → limits t' = limits t → manager t' = manager t →
  budget_stop_reason (counters t') = budget_stop_reason (counters t) → skips op = false →
  ∃ rs, step_effect t t' op Continue rs.
Proof.
  intros Hp Hl Hm Hs Hq. exists []. unfold step_effect.
  rewrite Hp, Hl, Hm, Hs, app_nil_r, Exists_nil. naive_solver.
Qed.

Lemma hit_effect t t' op d rule name lim obs p :
  policy t' = policy t → limits t' = limits t →
  manager t' = record_usage (manager t) rule name lim obs p →
  safe_to_answer_on_hit rule = false → (lim < obs)%N ∨ p = true →
  is_Some (budget_stop_reason (counters t')) →
  (d = DecBlocked ↔ hit_behavior rule = FailClosed) →
  d ≠ Continue ∨ skips op = true →
  ∃ rs, step_effect t t' op d rs.
Proof.
  intros Hp Hl Hm Hs Ho Hr Hd Hc.
  destruct (record_usage_hits (manager t) rule name lim obs p Hs Ho) as (r & Hrep & Hu & Hb).
  exists [r]. unfold step_effect. rewrite Hp, Hl, Hm, Hrep, Exists_cons, Exists_nil, Hd.
  split_and!; try done; try naive_solver.
  split; [done|]. intros [-> Hsk]. destruct Hc; congruence.
Qed.

Lemma get_or_insert_Some o s : is_Some (get_or_insert o s).
Proof. destruct o; simpl; eauto. Qed.

#[local] Hint Resolve get_or_insert_Some : core.

(** Close a goal of [hit_effect] for a rule of the default policy. *)
Ltac hit Hp :=
  eapply hit_effect; simpl; rewrite ?Hp; simpl; eauto; naive_solver.

Lemma step_effect_spec t op d t' :
  policy t = default_policy → step t op = (d, t') → ∃ rs, step_effect t t' op d rs.
Proof.
  intros Hp Hstep.
  destruct op as [n|b|n|e|b|n]; simpl in Hstep; simplify_eq.
  - by apply quiet_effect.
  - hit Hp.
  - unfold note_scanned_file_byte_skips. destruct (N.eqb_spec n 0) as [->|Hn].
    + by apply quiet_effect.
    + apply N.eqb_neq in Hn. eapply hit_effect; simpl; rewrite ?Hp, ?Hn; simpl; eauto; naive_solver.
  - unfold maybe_stop_for_time in Hstep.
    destruct (e <=? max_wall_time_ms (limits t))%N; simplify_eq; [by apply quiet_effect|hit Hp].
  - unfold try_accept_file in Hstep.
    destruct (max_files_per_run (limits t) <=? files_accepted (counters t))%N;
      [|destruct (max_total_bytes_per_run (limits t) <? _)%N];
      simplify_eq; [hit Hp..|by apply quiet_effect].
  - unfold note_parse_failure in Hstep. cbn -[wadd64 wrap64 record_usage N.mul N.div] in Hstep.
    destruct (N.ltb_spec (max_parse_failures (limits t)) (wadd64 (parse_failures (counters t)) 1));
      [|match type of Hstep with context [(?a <? ?b)%N] => destruct (N.ltb_spec a b) end];
      simplify_eq; [hit Hp..|by apply quiet_effect].
Qed.

Lemma run_effect t ops ds t' :
  policy t = default_policy → run t ops = (ds, t') →
  policy t' = default_policy ∧ limits t' = limits t ∧
  ∃ rs, reports (manager t') = reports (manager t) ++ rs ∧ Forall unsafe_hit rs ∧
    (DecBlocked ∈ ds ↔ Exists (λ r, budget_status r = Blocked) rs) ∧
    (rs = [] ↔ Forall (λ d, d = Continue) ds ∧ Forall (λ op, skips op = false) ops) ∧
    (is_Some (budget_stop_reason (counters t')) ↔
       is_Some (budget_stop_reason (counters t)) ∨ rs ≠ []).
Proof.
  revert t ds. induction ops as [|op ops IH]; intros t ds Hp Hrun; simpl in Hrun.
  { simplify_eq. split_and!; [done..|]. exists [].
    rewrite app_nil_r, Exists_nil, elem_of_nil. naive_solver. }
  destruct (step t op) as [d t1] eqn:Hstep, (run t1 ops) as [ds1 t2] eqn:Hrest. simplify_eq.
  destruct (step_effect_spec t op d t1 Hp Hstep)
    as (rs1 & Hp1 & Hl1 & Hr1 & Hu1 & Hb1 & Hq1 & Hs1).
  destruct (IH t1 ds1) as (Hp2 & Hl2 & rs2 & Hr2 & Hu2 & Hb2 & Hq2 & Hs2); [congruence|done|].
  split_and!; [done|congruence|]. exists (rs1 ++ rs2).
  rewrite Hr2, Hr1, Exists_app, Forall_app, !Forall_cons, elem_of_cons, Hs2, Hs1, Hb2, <-Hb1.
  split_and!; [by rewrite app_assoc|done|done|naive_solver| |].
  - rewrite app_nil, Hq1, Hq2. tauto.
  - assert (rs1 ++ rs2 ≠ [] ↔ rs1 ≠ [] ∨ rs2 ≠ []) as ->; [|tauto].
    destruct rs1, rs2; simpl; naive_solver.
Qed.

Lemma step_accepts t op d t1 :
  step t op = (d, t1) → (max_files_per_run (limits t) ≤ u64_max)%N →
  limits t1 = limits t ∧
  ((∃ b, op = AcceptFile b ∧ d = Continue ∧ files_accepted (counters t1) = files_accepted (counters t) + 1 ∧
      files_accepted (counters t) + 1 ≤ max_files_per_run (limits t) ∧
      sat_add64 (bytes_accepted (counters t)) b ≤ max_total_bytes_per_run (limits t) ∧
      bytes_accepted (counters t1) = sat_add64 (bytes_accepted (counters t)) b)
   ∨ ((∀ ops ds, accepted (op :: ops) (d :: ds) = accepted ops ds) ∧
      files_accepted (counters t1) = files_accepted (counters t) ∧ bytes_accepted (counters t1) = bytes_accepted (counters t)))%N.
Proof.
  intros Hstep Hmax.
  destruct op as [n|b|n|e|b|n]; simpl in Hstep; simplify_eq; try (split; [done|right; done]).
  - unfold note_scanned_file_byte_skips. case_match; (split; [done|right; done]).
  - unfold maybe_stop_for_time in Hstep. case_match; simplify_eq; (split; [done|right; done]).
  - unfold try_accept_file in Hstep.
    destruct (N.leb_spec (max_files_per_run (limits t)) (files_accepted (counters t)));
      [simplify_eq; (split; [done|right; done])|].
    destruct (N.ltb_spec (max_total_bytes_per_run (limits t))
                (sat_add64 (bytes_accepted (counters t)) b));
      simplify_eq; [(split; [done|right; done])|]. split; [done|].
    left. exists b. split_and!; try done; simpl.
    + apply wadd64_small. lia.
    + lia.
  - unfold note_parse_failure in Hstep. cbn -[wadd64 wrap64 record_usage N.mul N.div] in Hstep.
    repeat case_match; simplify_eq; (split; [done|right; done]).
Qed.

Lemma run_accepts t ops ds t' :
  run t ops = (ds, t') →
  (max_files_per_run (limits t) ≤ u64_max)%N →
  (files_accepted (counters t) ≤ max_files_per_run (limits t))%N →
  (bytes_accepted (counters t) ≤ max_total_bytes_per_run (limits t))%N →
  limits t' = limits t ∧
  (files_accepted (counters t') ≤ max_files_per_run (limits t))%N ∧
  (bytes_accepted (counters t') ≤ max_total_bytes_per_run (limits t))%N ∧
  files_accepted (counters t') = (files_accepted (counters t) + N.of_nat (length (accepted ops ds)))%N ∧
  ((max_total_bytes_per_run (limits t) < u64_max)%N →
   bytes_accepted (counters t') = (bytes_accepted (counters t) + sum_N (accepted ops ds))%N).
Proof.
  revert t ds. induction ops as [|op ops IH]; intros t ds Hrun; simpl in Hrun.
  { simplify_eq. simpl. intros. split_and!; try done; lia. }
  destruct (step t op) as [d t1] eqn:Hstep, (run t1 ops) as [ds1 t2] eqn:Hrest.
  simplify_eq. intros Hmax Hf Hb.
  destruct (step_accepts t op d t1 Hstep Hmax) as [Hl Hcase].
  specialize (IH t1 ds1 Hrest). rewrite Hl in IH.
  destruct Hcase as [(b & -> & -> & Hf1 & Hf2 & Hb2 & Hb1)|(Hacc & Hf1 & Hb1)]; rewrite ?Hacc;
    destruct IH as (Hl' & H1 & H2 & H3 & H4); try lia; split_and!; try done; try lia.
  - cbn [accepted length]. lia.
  - intros Hlt. rewrite H4 by done. cbn [accepted sum_N foldr].
    rewrite Hb1. unfold sat_add64 in *. unfold sum_N. lia.
Qed.

Lemma summary_blocked_iff m dn l o :
  budget_status (summary m dn l o) = Blocked ↔
  Exists (λ r, budget_status r = Blocked) (reports m).
Proof.
  rewrite Exists_exists. destruct (decide (reports m = [])) as [Hn|Hne].
  { unfold summary. rewrite Hn. simpl. split; [done|]. intros (r & ?%elem_of_nil & _). done. }
  destruct (summary_elem m dn l o Hne) as [Hin Hmax]. split; [eauto|].
  intros (r & Hr & Hb). specialize (Hmax r Hr). apply is_worse_false_iff in Hmax.
  rewrite Hb in Hmax. destruct Hmax as [Hlt|[<- _]]; [|done].
  destruct (budget_status _); simpl in Hlt; lia.
Qed.

(** ** Properties *)

(** A run's report and counters tell the truth about the run: the report is blocked
    exactly when some call told the engine to stop as blocked; it is safe to answer from
    exactly when every call said to continue and no file was skipped for its size; and
    it is a hit exactly when a stop reason was recorded. *)
Theorem run_report_faithful l ops ds t c r :
  run (new_tracker l) ops = (ds, t) → finish t = (c, r) →
  (budget_status r = Blocked ↔ DecBlocked ∈ ds) ∧
  (safe_to_answer r = true ↔
     Forall (λ d, d = Continue) ds ∧ Forall (λ op, skips op = false) ops) ∧
  (budget_hit r = true ↔ is_Some (budget_stop_reason c)) ∧
  budget_hit r = negb (safe_to_answer r).
Proof.
  intros Hrun Hfin. unfold finish in Hfin. simplify_eq.
  destruct (run_effect (new_tracker l) ops ds t eq_refl Hrun) as (_ & _ & rs & Hr & Hu & Hb & Hq & Hs).
  simpl in Hr, Hs. rewrite summary_blocked_iff, Hr, <-Hb, <-Hq, Hs.
  split; [done|]. destruct (decide (rs = [])) as [->|Hne].
  { unfold summary. rewrite Hr. simpl. split_and!; [done| |done].
    split; [done|]. intros [[? ?]|?]; done. }
  edestruct summary_elem as [Hin _]; [by rewrite Hr|]. rewrite Hr in Hin.
  rewrite Forall_forall in Hu. destruct (Hu _ Hin) as [-> ->].
  split_and!; [by split; [|intros ->]| |done]. split; auto.
Qed.

(** The run's acceptance limits hold after any sequence of calls: at most
    [max_files_per_run] files and [max_total_bytes_per_run] bytes are ever accepted, the
    file counter counts exactly the accepted calls (it cannot wrap), and below the 64-bit
    ceiling the byte counter is the exact sum of the accepted sizes. *)
Theorem accept_limits_hold l ops ds t :
  run (new_tracker l) ops = (ds, t) → (max_files_per_run l ≤ u64_max)%N →
  (files_accepted (counters t) ≤ max_files_per_run l)%N ∧
  (bytes_accepted (counters t) ≤ max_total_bytes_per_run l)%N ∧
  files_accepted (counters t) = N.of_nat (length (accepted ops ds)) ∧
  ((max_total_bytes_per_run l < u64_max)%N →
   bytes_accepted (counters t) = sum_N (accepted ops ds)).
Proof.
  intros Hrun Hmax. apply run_accepts in Hrun; simpl in *; [|lia..].
  destruct Hrun as (_ & H1 & H2 & H3 & H4). split_and!; auto.
Qed.

(** ** Witnesses *)

Definition tiny_limits : BuildRunBudget := mk_limits 2 100 50 1 2500 1000.

Definition sample_run : list TrackerOp :=
  [SetDiscovered 4; AcceptFile 40; AcceptFile 45; AcceptFile 10; ParseFailure 1; ParseFailure 2].

Definition sample_result : list BuildBudgetDecision * BuildBudgetTracker :=
  Eval vm_compute in run (new_tracker tiny_limits) sample_run.

Lemma run_report_faithful_witness :
  budget_status (snd (finish (snd sample_result))) = Blocked.
Proof.
  assert (run (new_tracker tiny_limits) sample_run = (fst sample_result, snd sample_result))
    as Hrun by (vm_compute; reflexivity).
  assert (finish (snd sample_result) =
          (fst (finish (snd sample_result)), snd (finish (snd sample_result))))
    as Hfin by (vm_compute; reflexivity).
  apply (proj1 (run_report_faithful _ _ _ _ _ _ Hrun Hfin)).
  do 5 apply list_elem_of_further. apply list_elem_of_here.
Defined.

Lemma accept_limits_hold_witness :
  files_accepted (counters (snd sample_result)) = 2%N ∧
  bytes_accepted (counters (snd sample_result)) = 85%N.
Proof.
  assert (run (new_tracker tiny_limits) sample_run = (fst sample_result, snd sample_result))
    as Hrun by (vm_compute; reflexivity).
  destruct (accept_limits_hold _ _ _ _ Hrun) as (_ & _ & Hf & Hb); [done|].
  split; [rewrite Hf; reflexivity|rewrite Hb; reflexivity].
Defined.
