(* ===== verification/BTree.v ===== *)
(** * Ordered maps and sets

    [BTreeMap] and [BTreeSet]: a map is a finite map read in the order of its keys, a set a
    strictly sorted list. *)

From S2P Require Import Prelude RustStr.

(** ** Orders of keys *)

(** The derived order of a pair, and of a list. *)
Definition pair_cmp {A B} (ca : A → A → comparison) (cb : B → B → comparison) :
    A * B → A * B → comparison :=
  cmp_lex (cmp_on fst ca) (cmp_on snd cb).

#[export] Instance pair_cmp_strict {A B} (ca : A → A → comparison) (cb : B → B → comparison)
  `{!StrictCmp ca, !StrictCmp cb} : StrictCmp (pair_cmp ca cb).
Proof.
  split; [unfold pair_cmp; apply _|]. intros [a b] [a' b']. unfold pair_cmp, cmp_lex, cmp_on. cbn.
  destruct (ca a a') eqn:E; [|done|done]. cbn. intros H.
  by rewrite (cmp_eq ca a a' E), (cmp_eq cb b b' H).
Qed.

#[export] Instance Z_cmp_strict : StrictCmp Z.compare.
Proof.
  split; [split|].
  - intros. apply Z.compare_antisym.
  - intros x y z. intros H1 H2 H3. apply Z.compare_gt_iff in H3.
    apply H1, Z.compare_gt_iff. destruct (Z.lt_ge_cases y x); [done|].
    exfalso. apply H2, Z.compare_gt_iff. lia.
  - apply Z.compare_eq.
Qed.

(** ** Sets *)

Section sets.
Context {A : Type} `{EqDecision A} (cmp : A → A → comparison).

Definition btree_set (l : list A) : list A := dedup_by_key id (sort_by cmp l).

Definition btree_difference (l r : list A) : list A := filter (λ x, x ∉ r) l.

Definition btree_union (l r : list A) : list A := btree_set (l ++ r).

(** Strictly increasing. *)
Definition increasing (l : list A) : Prop := StronglySorted (λ x y, cmp x y = Lt) l.

Context `{!StrictCmp cmp}.

Lemma btree_set_elem x l : x ∈ btree_set l ↔ x ∈ l.
Proof.
  unfold btree_set. split.
  - intros Hx. apply (sort_by_elem cmp). eapply elem_of_submseteq; [exact Hx|].
    apply sublist_submseteq, dedup_by_key_sublist.
  - intros Hx. apply (sort_by_elem cmp) in Hx.
    apply (dedup_by_key_covers id) in Hx as (y & Hy & Heq). unfold id in Heq. by subst.
Qed.

Lemma cmp_lt_irrefl x : cmp x x ≠ Lt.
Proof. by rewrite (cmp_refl cmp). Qed.

Lemma btree_set_increasing l : increasing (btree_set l).
Proof.
  unfold btree_set, increasing.
  assert (∀ z l, sorted_by cmp l → Forall (λ x, leb_of cmp z x = true) l →
    StronglySorted (λ x y, cmp x y = Lt) (z :: dedup_from id z l)) as Hfrom.
  { intros z l' Hs. revert z. induction Hs as [|x l' Hs IH Hx]; intros z Hz; cbn [dedup_from];
      [repeat constructor|].
    apply Forall_cons in Hz as [Hzx Hz]. unfold id at 1. case_bool_decide as Heq; [by apply IH|].
    pose proof (IH x Hx) as Hsub. apply StronglySorted_inv in Hsub as [Hsub Hfa].
    assert (cmp z x = Lt) as Hlt.
    { unfold leb_of in Hzx. destruct (cmp z x) eqn:E; [|done|done].
      apply (cmp_eq cmp) in E. by subst. }
    constructor; [by constructor|]. constructor; [done|].
    eapply Forall_impl; [exact Hfa|]. cbn. intros y Hxy.
    destruct (cmp z y) eqn:E; [|done|].
    - apply (cmp_eq cmp) in E. subst y. rewrite (cmp_opp cmp z x), Hlt in Hxy. done.
    - exfalso. apply (cmp_trans cmp z x y); congruence. }
  pose proof (sort_by_sorted cmp l) as Hs. destruct Hs as [|z l' Hs Hz]; [constructor|].
  by apply Hfrom.
Qed.

Lemma increasing_NoDup l : increasing l → NoDup l.
Proof.
  induction 1 as [|x l Hs IH Hx]; constructor; [|done].
  intros Hin. rewrite Forall_forall in Hx. by apply (cmp_lt_irrefl x), Hx.
Qed.

Lemma increasing_filter (P : A → Prop) `{!∀ x, Decision (P x)} l :
  increasing l → increasing (filter P l).
Proof.
  induction 1 as [|x l Hs IH Hx]; [constructor|]. rewrite filter_cons. destruct (decide _); [|done].
  constructor; [done|]. rewrite Forall_forall in *. intros y [_ Hy]%list_elem_of_filter. auto.
Qed.

(** A strictly increasing list is determined by its elements. *)
Lemma increasing_ext l1 l2 :
  increasing l1 → increasing l2 → (∀ x, x ∈ l1 ↔ x ∈ l2) → l1 = l2.
Proof.
  intros H1 H2 Hx. apply (StronglySorted_unique_strong (λ x y, cmp x y = Lt)).
  - intros x y _ _ Hxy Hyx. rewrite (cmp_opp cmp x y), Hxy in Hyx. done.
  - done.
  - done.
  - apply NoDup_Permutation; [by apply increasing_NoDup..|done].
Qed.
End sets.

(** ** Maps *)

Section maps.
Context {K A : Type} `{Countable K} (cmp : K → K → comparison) `{!StrictCmp cmp}.

(** [iter()]: the entries in the order of their keys. *)
Definition entries (m : gmap K A) : list (K * A) := sort_by (cmp_on fst cmp) (map_to_list m).

(** [collect()]: a later entry replaces an earlier one. *)
Definition collect_map (l : list (K * A)) : gmap K A :=
  foldl (λ m kv, <[kv.1 := kv.2]> m) ∅ l.

Lemma entries_elem (m : gmap K A) k a : (k, a) ∈ entries m ↔ m !! k = Some a.
Proof. unfold entries. rewrite (sort_by_elem (cmp_on fst cmp)). apply elem_of_map_to_list. Qed.

Lemma entries_sorted (m : gmap K A) :
  StronglySorted (λ x y, cmp (fst x) (fst y) = Lt) (entries m).
Proof.
  pose proof (sort_by_sorted (cmp_on fst cmp) (map_to_list m)) as Hs. fold (entries m) in Hs.
  assert (NoDup (map fst (entries m))) as Hnd.
  { unfold entries. rewrite (sort_by_perm (cmp_on fst cmp)). apply NoDup_fst_map_to_list. }
  induction Hs as [|x l Hs IH Hx]; [constructor|]. apply NoDup_cons in Hnd as [Hn Hnd].
  constructor; [by apply IH|]. rewrite Forall_forall in *. intros y Hy. specialize (Hx y Hy).
  unfold leb_of, cmp_on in Hx. destruct (cmp (fst x) (fst y)) eqn:E; [|done|done].
  exfalso. apply Hn. rewrite (cmp_eq cmp _ _ E). apply list_elem_of_fmap. by exists y.
Qed.

Lemma entries_NoDup (m : gmap K A) : NoDup (map fst (entries m)).
Proof. unfold entries. rewrite (sort_by_perm (cmp_on fst cmp)). apply NoDup_fst_map_to_list. Qed.

Lemma entries_keys_increasing (m : gmap K A) : increasing cmp (map fst (entries m)).
Proof.
  unfold increasing. pose proof (entries_sorted m) as Hs.
  induction Hs as [|x l Hs IH Hx]; [constructor|]. cbn. constructor; [done|].
  rewrite Forall_fmap. exact Hx.
Qed.

Lemma entries_key_elem (m : gmap K A) k : k ∈ map fst (entries m) ↔ is_Some (m !! k).
Proof.
  rewrite list_elem_of_fmap. split.
  - intros ([k' a] & -> & Ha%entries_elem). by exists a.
  - intros [a Ha]. exists (k, a). by split; [|apply entries_elem].
Qed.

Lemma collect_map_rev l : collect_map l = list_to_map (reverse l).
Proof.
  unfold collect_map. induction l as [|[k a] l IH] using rev_ind; [done|].
  rewrite foldl_app, reverse_app. cbn. by rewrite IH.
Qed.

Lemma collect_map_is_Some l k : is_Some (collect_map l !! k) ↔ k ∈ map fst l.
Proof.
  rewrite collect_map_rev. split.
  - intros [a Ha%elem_of_list_to_map_2]. apply list_elem_of_fmap. exists (k, a). split; [done|].
    by apply elem_of_reverse.
  - intros Hk. apply not_eq_None_Some. rewrite <-not_elem_of_list_to_map.
    intros Hn. apply Hn. change (k ∈ fst <$> reverse l). rewrite fmap_reverse. by apply elem_of_reverse.
Qed.

Lemma collect_map_elem l k a : collect_map l !! k = Some a → (k, a) ∈ l.
Proof.
  rewrite collect_map_rev. intros Ha%elem_of_list_to_map_2. by apply elem_of_reverse.
Qed.

Lemma collect_map_lookup l k a : NoDup (map fst l) → collect_map l !! k = Some a ↔ (k, a) ∈ l.
Proof.
  intros Hnd. rewrite collect_map_rev. rewrite <-elem_of_list_to_map.
  - apply elem_of_reverse.
  - by rewrite fmap_reverse, reverse_Permutation.
Qed.
End maps.
