(* ===== verification/Calendar.v ===== *)
(** * Dates of timestamps

    Model of the calendar arithmetic the stores carry instead of a date library: the loop of
    [packages/atlas-store-sqlite/src/store/history.rs] ([days_to_ymd]), the closed form of
    [packages/atlas-adapters/src/bridge.rs] and [packages/atlas-agent-events/src/wake_pack.rs]
    ([epoch_days_to_ymd]), its signed variant in
    [packages/atlas-review/src/context/saved.rs], and the timestamps made from them, which
    the queries order as texts. *)

From S2P Require Import Prelude RustStr BTree.
#[local] Open Scope N_scope.

(** ** The loop of the history store *)

Definition is_leap (year : N) : bool :=
  ((year mod 4 =? 0) && negb (year mod 100 =? 0)) || (year mod 400 =? 0).

Definition span (year : N) : N := if is_leap year then 366 else 365.

Definition months (year : N) : list N :=
  if is_leap year
  then [31; 29; 31; 30; 31; 30; 31; 31; 30; 31; 30; 31]
  else [31; 28; 31; 30; 31; 30; 31; 31; 30; 31; 30; 31].

Fixpoint year_loop (fuel : nat) (year days : N) : N * N :=
  match fuel with
  | O => (year, days)
  | S fuel => if days <? span year then (year, days) else year_loop fuel (year + 1) (days - span year)
  end.

Fixpoint month_loop (lengths : list N) (month days : N) : N * N :=
  match lengths with
  | [] => (month, days)
  | days_in_month :: lengths =>
      if days <? days_in_month then (month, days)
      else month_loop lengths (month + 1) (days - days_in_month)
  end.

(** A year has at least 365 days, so the loop runs at most once per 365 of them. *)
Definition days_to_ymd (days : N) : N * N * N :=
  let '(year, rest) := year_loop (S (N.to_nat (days / 365))) 1970 days in
  let '(month, rest) := month_loop (months year) 1 rest in
  (year, month, rest + 1).

(** ** The closed form of the adapters *)

Definition epoch_days_to_ymd (days : N) : N * N * N :=
  let days := days + 719468 in
  let era := days / 146097 in
  let doe := days mod 146097 in
  let yoe := (doe - doe / 1460 + doe / 36524 - doe / 146096) / 365 in
  let y := yoe + era * 400 in
  let doy := doe - (365 * yoe + yoe / 4 - yoe / 100) in
  let mp := (5 * doy + 2) / 153 in
  let da := doy - (153 * mp + 2) / 5 + 1 in
  let mo := if mp <? 10 then mp + 3 else mp - 9 in
  let y := if mo <=? 2 then y + 1 else y in
  (y, mo, da).

(** The variant of the saved context: the era is signed and truncates towards zero. *)
Definition saved_epoch_days_to_ymd (days : N) : N * N * N :=
  let z := (Z.of_N days + 719468)%Z in
  let era := Z.quot (if (0 <=? z)%Z then z else z - 146096)%Z 146097 in
  let doe := Z.to_N (z - era * 146097)%Z in
  let yoe := (doe - doe / 1460 + doe / 36524 - doe / 146096) / 365 in
  let y := (Z.of_N yoe + era * 400)%Z in
  let doy := doe - (365 * yoe + yoe / 4 - yoe / 100) in
  let mp := (5 * doy + 2) / 153 in
  let d := doy - (153 * mp + 2) / 5 + 1 in
  let m := if mp <? 10 then mp + 3 else mp - 9 in
  let y := if m <=? 2 then (y + 1)%Z else y in
  (Z.to_N y, m, d).

(** ** Timestamps *)

(** [{n:04}] and [{n:02}]: at least so many digits. *)
Definition pad (width : nat) (n : N) : string :=
  Nat.iter (width - String.length (pretty n)) (String "0"%char) (pretty n).

Definition stamp (date : N * N * N) (hour min sec : N) : string :=
  let '(year, month, day) := date in
  pad 4 year +:+ "-" +:+ pad 2 month +:+ "-" +:+ pad 2 day +:+ "T" +:+
  pad 2 hour +:+ ":" +:+ pad 2 min +:+ ":" +:+ pad 2 sec +:+ "Z".

Definition format_unix_secs (secs : N) : string :=
  let sec := secs mod 60 in
  let min := (secs / 60) mod 60 in
  let hour := (secs / 3600) mod 24 in
  let days := secs / 86400 in
  stamp (days_to_ymd days) hour min sec.

(** The same text by the closed form, as the bridge files and the wake-up pack carry it. *)
Definition format_now_rfc3339 (secs : N) : string :=
  let s := secs mod 60 in
  let m := (secs / 60) mod 60 in
  let h := (secs / 3600) mod 24 in
  let days := secs / 86400 in
  stamp (epoch_days_to_ymd days) h m s.

(** ** The calendar

    The number of days from the beginning of 1970 to a date, with the rule of leap years. *)

Definition days_before_year (year : N) : N :=
  365 * year + (year + 3) / 4 - (year + 99) / 100 + (year + 399) / 400.

Fixpoint sum_list (l : list N) : N :=
  match l with [] => 0 | x :: l => x + sum_list l end.

Definition day_number (date : N * N * N) : N :=
  let '(year, month, day) := date in
  days_before_year year + sum_list (take (N.to_nat (month - 1)) (months year)) + day - 1.

Definition valid_date (date : N * N * N) : bool :=
  let '(year, month, day) := date in
  (1 <=? month) && (month <=? 12) && (1 <=? day) &&
  (day <=? nth (N.to_nat (month - 1)) (months year) 0).

Definition date_cmp : N * N * N → N * N * N → comparison :=
  pair_cmp (pair_cmp N.compare N.compare) N.compare.

Ltac div_lia := zify; Z.to_euclidean_division_equations; lia.

Lemma next_div y k : 0 < k → (y + 1 + (k - 1)) / k = (y + (k - 1)) / k + (if y mod k =? 0 then 1 else 0).
Proof.
  intros Hk. pose proof (N.div_mod y k ltac:(lia)) as Hy. pose proof (N.mod_lt y k ltac:(lia)) as Hr.
  generalize dependent (y mod k). generalize (y / k). intros q r -> Hr.
  destruct (N.eqb_spec r 0) as [->|Hz].
  - rewrite <- (N.div_unique (k * q + 0 + 1 + (k - 1)) k (q + 1) 0) by nia.
    rewrite <- (N.div_unique (k * q + 0 + (k - 1)) k q (k - 1)) by nia. done.
  - rewrite <- (N.div_unique (k * q + r + 1 + (k - 1)) k (q + 1) r) by nia.
    rewrite <- (N.div_unique (k * q + r + (k - 1)) k (q + 1) (r - 1)) by nia. lia.
Qed.

Lemma days_before_next y : days_before_year (y + 1) = days_before_year y + span y.
Proof.
  unfold span, days_before_year, is_leap.
  pose proof (next_div y 4 ltac:(lia)) as H4. pose proof (next_div y 100 ltac:(lia)) as H100.
  pose proof (next_div y 400 ltac:(lia)) as H400.
  change (4 - 1) with 3 in H4. change (100 - 1) with 99 in H100. change (400 - 1) with 399 in H400.
  rewrite H4, H100, H400. clear H4 H100 H400.
  assert (y mod 400 = 0 → y mod 100 = 0) by div_lia.
  assert (y mod 100 = 0 → y mod 4 = 0) by div_lia.
  assert ((y + 99) / 100 ≤ (y + 3) / 4) by div_lia.
  destruct (N.eqb_spec (y mod 4) 0), (N.eqb_spec (y mod 100) 0), (N.eqb_spec (y mod 400) 0);
    cbn [andb orb negb]; lia.
Qed.

Lemma span_bounds y : 365 ≤ span y ≤ 366.
Proof. unfold span. destruct (is_leap y); lia. Qed.

Lemma months_sum y : sum_list (months y) = span y.
Proof. unfold months, span. by destruct (is_leap y). Qed.

Lemma year_loop_spec fuel : ∀ year days y rest,
  (N.to_nat (days / 365) < fuel)%nat → year_loop fuel year days = (y, rest) →
  year ≤ y ∧ days_before_year y + rest = days_before_year year + days ∧ rest < span y.
Proof.
  induction fuel as [|fuel IH]; intros year days y rest Hf; [by apply Nat.nlt_0_r in Hf|]. cbn [year_loop].
  pose proof (span_bounds year). destruct (N.ltb_spec days (span year)).
  - intros [= <- <-]. lia.
  - intros (Hy & Hd & Hr)%IH.
    + rewrite days_before_next in Hd. lia.
    + assert ((days - span year) / 365 < days / 365); [|lia].
      div_lia.
Qed.

Lemma month_loop_spec lengths : ∀ month days m rest,
  days < sum_list lengths → month_loop lengths month days = (m, rest) →
  month ≤ m ∧ (N.to_nat (m - month) < length lengths)%nat ∧
  sum_list (take (N.to_nat (m - month)) lengths) + rest = days ∧
  rest < nth (N.to_nat (m - month)) lengths 0.
Proof.
  induction lengths as [|len lengths IH]; intros month days m rest Hd; cbn [sum_list] in Hd; cbn [month_loop length]; [by apply N.nlt_0_r in Hd|].
  destruct (N.ltb_spec days len).
  - intros [= <- <-]. rewrite N.sub_diag. change (N.to_nat 0) with 0%nat.
    cbn [take nth sum_list]. split_and!; lia.
  - intros (Hm & Hl & Hs & Hr)%IH; [|lia].
    replace (N.to_nat (m - month)) with (S (N.to_nat (m - (month + 1)))) by lia.
    cbn [take nth sum_list]. lia.
Qed.

Lemma months_length y : length (months y) = 12%nat.
Proof. unfold months. by destruct (is_leap y). Qed.

Lemma days_to_ymd_day_number days :
  valid_date (days_to_ymd days) = true ∧
  day_number (days_to_ymd days) = days_before_year 1970 + days.
Proof.
  unfold days_to_ymd.
  destruct (year_loop _ _ _) as [y rest] eqn:Hy. apply year_loop_spec in Hy as (Hy & Hd & Hr); [|lia].
  destruct (month_loop _ _ _) as [m r] eqn:Hm.
  apply month_loop_spec in Hm as (Hm & Hl & Hs & Hn); [|by rewrite months_sum].
  rewrite months_length in Hl. cbn [valid_date day_number]. split; [|lia].
  rewrite !andb_true_iff, !N.leb_le. lia.
Qed.

(** Dates in order have day numbers in order. *)

Lemma days_before_mono y1 y2 : y1 < y2 → days_before_year y1 + span y1 ≤ days_before_year y2.
Proof.
  intros Hlt. rewrite <- days_before_next. replace y2 with (y1 + 1 + (y2 - (y1 + 1))) by lia.
  induction (y2 - (y1 + 1)) as [|k IH] using N.peano_ind; [by rewrite N.add_0_r|].
  rewrite N.add_succ_r, <- N.add_1_r, (days_before_next (y1 + 1 + k)). lia.
Qed.

Lemma sum_take_mono (l : list N) i j :
  (i < j)%nat → (i < length l)%nat → sum_list (take i l) + nth i l 0 ≤ sum_list (take j l).
Proof.
  revert i j. induction l as [|x l IH]; intros i j Hij Hi; cbn [length] in Hi; [by apply Nat.nlt_0_r in Hi|].
  destruct i as [|i], j as [|j]; cbn [take nth sum_list]; try lia.
  specialize (IH i j ltac:(lia) ltac:(lia)). lia.
Qed.

Lemma sum_take_all (l : list N) i :
  (i < length l)%nat → sum_list (take i l) + nth i l 0 ≤ sum_list l.
Proof.
  intros Hi. rewrite <- (firstn_all l) at 3. by apply sum_take_mono.
Qed.

Lemma day_number_mono a b :
  valid_date a = true → valid_date b = true → date_cmp a b = Lt → day_number a < day_number b.
Proof.
  destruct a as [[y1 m1] d1], b as [[y2 m2] d2]. unfold valid_date, date_cmp, pair_cmp, cmp_lex, cmp_on, day_number. cbn [fst snd].
  rewrite !andb_true_iff, !N.leb_le. intros Ha Hb.
  pose proof (sum_take_all (months y1) (N.to_nat (m1 - 1))) as Hs. rewrite months_length, months_sum in Hs.
  destruct (N.compare_spec y1 y2) as [->|Hlt|]; cbn [then_with]; [|intros _|done].
  - destruct (N.compare_spec m1 m2) as [->|Hlt|]; cbn [then_with]; [|intros _|done].
    + rewrite N.compare_lt_iff. lia.
    + pose proof (sum_take_mono (months y2) (N.to_nat (m1 - 1)) (N.to_nat (m2 - 1))) as Ht.
      rewrite months_length in Ht. lia.
  - pose proof (days_before_mono _ _ Hlt). lia.
Qed.


Lemma day_number_inj a b :
  valid_date a = true → valid_date b = true → day_number a = day_number b → a = b.
Proof.
  intros Ha Hb Hn. destruct (date_cmp a b) eqn:Hc.
  - by apply (cmp_eq date_cmp).
  - pose proof (day_number_mono a b Ha Hb Hc). lia.
  - apply (cmp_lt_gt date_cmp) in Hc. pose proof (day_number_mono b a Hb Ha Hc). lia.
Qed.

(** One cycle of 400 years of the closed form, which counts years and days from March. *)
Definition march_year (doe : N) : N := (doe - doe / 1460 + doe / 36524 - doe / 146096) / 365.
Definition march_start (yoe : N) : N := 365 * yoe + yoe / 4 - yoe / 100.

Definition civil_of (yoe doy : N) : N * N * N :=
  let mp := (5 * doy + 2) / 153 in
  let mo := if mp <? 10 then mp + 3 else mp - 9 in
  (if mo <=? 2 then yoe + 1 else yoe, mo, doy - (153 * mp + 2) / 5 + 1).

Definition civil (doe : N) : N * N * N :=
  let yoe := march_year doe in civil_of yoe (doe - march_start yoe).

Fixpoint all_below (f : N → bool) (n : nat) (from : N) : bool :=
  match n with O => true | S n => f from && all_below f n (from + 1) end.

Lemma all_below_spec f n : ∀ from, all_below f n from = true →
  ∀ x, from ≤ x → x < from + N.of_nat n → f x = true.
Proof.
  induction n as [|n IH]; intros from; cbn [all_below]; [lia|].
  rewrite andb_true_iff. intros [Hf Ha] x Hx Hlt.
  destruct (N.eq_dec x from) as [->|]; [done|]. apply (IH _ Ha); lia.
Qed.

(** The year from March is exact at both ends of every year, and monotone between them. *)
Definition year_ok (y : N) : bool :=
  let stop := if y =? 399 then 146097 else march_start (y + 1) in
  (march_year (march_start y) =? y) && (march_year (stop - 1) =? y) &&
  (march_start y <? stop) &&
  (stop - march_start y =? span (y + 1)) && (days_before_year (y + 1) =? march_start y + 366).

Lemma year_ok_all y : y < 400 → year_ok y = true.
Proof.
  intros Hy. apply (all_below_spec year_ok (N.to_nat 400) 0); [by vm_compute|lia..].
Qed.

Lemma march_year_mono a b : a ≤ b → b < 146097 → march_year a ≤ march_year b.
Proof.
  intros Hab Hb. apply N.Div0.div_le_mono.
  assert (b / 1460 - a / 1460 ≤ b - a) by div_lia.
  assert (a / 36524 ≤ b / 36524) by div_lia.
  assert (a / 1460 ≤ a ∧ b / 1460 ≤ b) by div_lia.
  destruct (N.eq_dec b 146096) as [->|Hne].
  - destruct (N.eq_dec a 146096) as [->|]; [lia|].
    assert (a / 146096 = 0) as -> by div_lia. change (146096 / 146096) with 1.
    change (146096 / 1460) with 100 in *. change (146096 / 36524) with 4 in *.
    assert (a / 36524 ≤ 3) as Hq by div_lia. revert Hq H H1. generalize (a / 1460), (a / 36524). lia.
  - assert (b / 146096 = 0) as -> by div_lia. assert (a / 146096 = 0) as -> by div_lia.
    revert H H0 H1. generalize (a / 1460), (a / 36524), (b / 1460), (b / 36524). lia.
Qed.

Lemma march_year_bounds doe : doe < 146097 →
  march_year doe < 400 ∧ march_start (march_year doe) ≤ doe ∧
  doe - march_start (march_year doe) < span (march_year doe + 1).
Proof.
  intros Hd. assert (march_year doe < 400) as Hy.
  { pose proof (march_year_mono doe 146096 ltac:(lia) ltac:(lia)) as H.
    change (march_year 146096) with 399 in H. lia. }
  remember (march_year doe) as y eqn:Hyd.
  pose proof (year_ok_all y Hy) as Hok. unfold year_ok in Hok. cbn zeta in Hok.
  rewrite !andb_true_iff, !N.eqb_eq, N.ltb_lt in Hok. destruct Hok as [[[[H1 H2] H3] H4] H5].
  assert (march_start y < 146097) as Hstart by (unfold march_start; clear - Hy; div_lia).
  assert (march_start y ≤ doe) as Hle.
  { destruct (N.eq_dec y 0) as [->|Hz]; [change (march_start 0) with 0; lia|].
    destruct (N.lt_ge_cases doe (march_start y)) as [Hlt|]; [|done]. exfalso.
    pose proof (year_ok_all (y - 1) ltac:(lia)) as Hp. unfold year_ok in Hp. cbn zeta in Hp.
    rewrite !andb_true_iff, !N.eqb_eq, N.ltb_lt in Hp. destruct Hp as [[[[_ Hp] _] _] _].
    rewrite (proj2 (N.eqb_neq (y - 1) 399)) in Hp by lia.
    rewrite N.sub_add in Hp by lia.
    pose proof (march_year_mono doe (march_start y - 1) ltac:(lia) ltac:(lia)) as Hm.
    rewrite <- Hyd, Hp in Hm. lia. }
  split_and!; [done..|].
  destruct (N.lt_ge_cases (doe - march_start y) (span (y + 1))) as [|Hge]; [done|]. exfalso.
  destruct (N.eqb_spec y 399) as [He|He]; [lia|].
  pose proof (year_ok_all (y + 1) ltac:(lia)) as Hn. unfold year_ok in Hn. cbn zeta in Hn.
  rewrite !andb_true_iff, !N.eqb_eq, N.ltb_lt in Hn. destruct Hn as [[[[Hn _] _] _] _].
  pose proof (march_year_mono (march_start (y + 1)) doe ltac:(lia) Hd). lia.
Qed.

(** Months and days do not depend on the year, leap days apart. *)
Definition doy_ok (leap_before leap_after : bool) (doy : N) : bool :=
  let months leap := [31; if leap : bool then 29 else 28; 31; 30; 31; 30; 31; 31; 30; 31; 30; 31] in
  let '(_, mo, da) := civil_of 0 doy in
  let lengths := months (if mo <=? 2 then leap_after else leap_before) in
  implb (doy <? (if leap_after then 366 else 365))
    ((1 <=? mo) && (mo <=? 12) && (1 <=? da) && (da <=? nth (N.to_nat (mo - 1)) lengths 0) &&
     (sum_list (take (N.to_nat (mo - 1)) lengths) + da - 1 + 306 =?
      doy + (if mo <=? 2 then 0 else if leap_before then 366 else 365))).

Lemma doy_ok_all lb la doy : doy < 366 → doy_ok lb la doy = true.
Proof.
  intros Hd. apply (all_below_spec (doy_ok lb la) (N.to_nat 366) 0); [|lia..].
  destruct lb, la; by vm_compute.
Qed.

Lemma civil_cycle doe : doe < 146097 →
  valid_date (civil doe) = true ∧ day_number (civil doe) = doe + 60.
Proof.
  intros Hd. destruct (march_year_bounds doe Hd) as (Hy & Hs & Hr). unfold civil. cbn zeta.
  set (y := march_year doe) in *.
  pose proof (year_ok_all y Hy) as Hok. unfold year_ok in Hok. cbn zeta in Hok.
  rewrite !andb_true_iff, !N.eqb_eq, N.ltb_lt in Hok. destruct Hok as [[[_ _] _] Hdb].
  pose proof (days_before_next y) as Hnext. pose proof (span_bounds (y + 1)).
  pose proof (doy_ok_all (is_leap y) (is_leap (y + 1)) (doe - march_start y) ltac:(lia)) as Ho.
  unfold doy_ok in Ho. unfold civil_of in *. cbn zeta in *.
  set (doy := doe - march_start y) in *. set (mp := (5 * doy + 2) / 153) in *.
  set (mo := if mp <? 10 then mp + 3 else mp - 9) in *. set (da := doy - _ + 1) in *.
  unfold span in Hr. destruct (N.ltb_spec doy (if is_leap (y + 1) then 366 else 365)); [|lia].
  cbn [implb] in Ho. rewrite !andb_true_iff, N.eqb_eq in Ho. destruct Ho as [Hv Hn].
  unfold valid_date, day_number, span, months in *.
  destruct (mo <=? 2), (is_leap y), (is_leap (y + 1)); rewrite !andb_true_iff; (split; [done|]);
    subst doy; rewrite ?Hdb; lia.
Qed.

Definition shift_years (era : N) (date : N * N * N) : N * N * N :=
  let '(y, m, d) := date in (y + era * 400, m, d).

Lemma is_leap_shift y era : is_leap (y + era * 400) = is_leap y.
Proof.
  unfold is_leap.
  replace ((y + era * 400) mod 4) with (y mod 4) by div_lia.
  replace ((y + era * 400) mod 100) with (y mod 100) by div_lia.
  by replace ((y + era * 400) mod 400) with (y mod 400) by div_lia.
Qed.

Lemma days_before_shift y era :
  days_before_year (y + era * 400) = days_before_year y + era * 146097.
Proof.
  unfold days_before_year.
  replace ((y + era * 400 + 3) / 4) with ((y + 3) / 4 + era * 100) by div_lia.
  replace ((y + era * 400 + 99) / 100) with ((y + 99) / 100 + era * 4) by div_lia.
  replace ((y + era * 400 + 399) / 400) with ((y + 399) / 400 + era) by div_lia.
  assert ((y + 99) / 100 ≤ (y + 3) / 4) by div_lia. lia.
Qed.

Lemma shift_years_spec era date :
  valid_date date = true →
  valid_date (shift_years era date) = true ∧
  day_number (shift_years era date) = day_number date + era * 146097.
Proof.
  destruct date as [[y m] d]. unfold valid_date, shift_years, day_number, months.
  rewrite is_leap_shift, days_before_shift, !andb_true_iff, !N.leb_le. intros H.
  split; [done|]. lia.
Qed.

Lemma epoch_days_civil days :
  epoch_days_to_ymd days = shift_years ((days + 719468) / 146097) (civil ((days + 719468) mod 146097)).
Proof.
  unfold epoch_days_to_ymd, civil, civil_of, march_year, march_start, shift_years. cbn zeta.
  set (era := _ / 146097). set (doe := _ mod 146097). generalize doe era. clear doe era. intros doe era.
  destruct (_ <=? 2); [|done]. f_equal. f_equal. lia.
Qed.

Lemma epoch_days_day_number days :
  valid_date (epoch_days_to_ymd days) = true ∧
  day_number (epoch_days_to_ymd days) = days_before_year 1970 + days.
Proof.
  rewrite epoch_days_civil. set (n := days + 719468).
  pose proof (N.div_mod n 146097 ltac:(lia)) as Hn.
  pose proof (civil_cycle (n mod 146097) (N.mod_lt n 146097 ltac:(lia))) as [Hv Hd].
  pose proof (shift_years_spec (n / 146097) _ Hv) as [Hv' Hd']. split; [done|].
  rewrite Hd', Hd. change (days_before_year 1970) with 719528. subst n. lia.
Qed.

Lemma epoch_days_agree days : epoch_days_to_ymd days = days_to_ymd days.
Proof.
  pose proof (epoch_days_day_number days) as [Hv1 Hn1].
  pose proof (days_to_ymd_day_number days) as [Hv2 Hn2].
  apply day_number_inj; [done..|congruence].
Qed.

(** The signed variant takes the same branch, as no day of a timestamp is before the epoch. *)
Lemma saved_epoch_days_agree days : saved_epoch_days_to_ymd days = epoch_days_to_ymd days.
Proof.
  unfold saved_epoch_days_to_ymd, epoch_days_to_ymd. cbn zeta.
  set (n := days + 719468).
  assert (Z.of_N days + 719468 = Z.of_N n)%Z as -> by (subst n; lia). clearbody n.
  rewrite (proj2 (Z.leb_le 0 (Z.of_N n)) (N2Z.is_nonneg n)).
  rewrite Z.quot_div_nonneg by (done || apply N2Z.is_nonneg).
  assert (Z.of_N n / 146097 = Z.of_N (n / 146097))%Z as -> by (by rewrite N2Z.inj_div).
  replace (Z.to_N (Z.of_N n - Z.of_N (n / 146097) * 146097)%Z) with (n mod 146097)
    by (pose proof (N.div_mod n 146097 ltac:(lia)) as Hn; revert Hn;
        generalize (n / 146097), (n mod 146097); lia).
  generalize (n mod 146097), (n / 146097). intros doe era.
  destruct (_ <=? 2); do 2 f_equal;
    match goal with |- context [?a / 365] => generalize (a / 365) end; lia.
Qed.

Lemma days_to_ymd_mono d1 d2 : d1 < d2 → date_cmp (days_to_ymd d1) (days_to_ymd d2) = Lt.
Proof.
  intros Hlt.
  pose proof (days_to_ymd_day_number d1) as [Hv1 Hn1].
  pose proof (days_to_ymd_day_number d2) as [Hv2 Hn2].
  destruct (date_cmp _ _) eqn:Hc; [|done|].
  - apply (cmp_eq date_cmp) in Hc. rewrite Hc in Hn1. lia.
  - apply (cmp_lt_gt date_cmp) in Hc. pose proof (day_number_mono _ _ Hv2 Hv1 Hc). lia.
Qed.

(** ** The order of the texts *)

Lemma compare_app_same s t u : String.compare (s +:+ t) (s +:+ u) = String.compare t u.
Proof.
  induction s as [|a s IH]; [done|].
  rewrite !str_app_cons, string_compare_cons, N.compare_refl. done.
Qed.

Lemma compare_app (s s' t t' : string) :
  String.length s = String.length s' →
  String.compare (s +:+ t) (s' +:+ t') = then_with (String.compare s s') (String.compare t t').
Proof.
  revert s'. induction s as [|a s IH]; intros [|b s'] Hl; try done.
  rewrite !str_app_cons, !string_compare_cons, IH by (cbn in Hl; lia).
  by destruct (N.compare _ _).
Qed.

(** A field of a fixed number of digits. *)
Fixpoint digits (width : nat) (n : N) : string :=
  match width with
  | O => ""
  | S width => digits width (n / 10) +:+ String (ascii_of_N (48 + n mod 10)) ""
  end.

Lemma digits_length width : ∀ n, String.length (digits width n) = width.
Proof.
  induction width as [|width IH]; intros n; cbn [digits]; [done|].
  rewrite str_length_app, IH. cbn. lia.
Qed.

Lemma digits_compare width : ∀ n m,
  n < 10 ^ N.of_nat width → m < 10 ^ N.of_nat width →
  String.compare (digits width n) (digits width m) = N.compare n m.
Proof.
  induction width as [|width IH]; intros n m Hn Hm; cbn [digits].
  - change (10 ^ N.of_nat 0) with 1 in *. replace n with m by lia. by rewrite N.compare_refl.
  - rewrite Nat2N.inj_succ, N.pow_succ_r' in Hn, Hm.
    rewrite compare_app by (by rewrite !digits_length).
    rewrite IH by (apply N.Div0.div_lt_upper_bound; lia).
    rewrite string_compare_cons.
    pose proof (N.div_mod n 10 ltac:(lia)) as Hnd. pose proof (N.mod_lt n 10 ltac:(lia)) as Hn9.
    pose proof (N.div_mod m 10 ltac:(lia)) as Hmd. pose proof (N.mod_lt m 10 ltac:(lia)) as Hm9.
    clear Hn Hm. revert Hnd Hn9 Hmd Hm9.
    generalize (n / 10), (n mod 10), (m / 10), (m mod 10). intros qn rn qm rm -> Hn9 -> Hm9.
    rewrite !N_ascii_embedding by lia.
    assert ((48 + rn ?= 48 + rm) = (rn ?= rm)) as ->.
    { destruct (N.compare_spec rn rm), (N.compare_spec (48 + rn) (48 + rm)); done || (exfalso; lia). }
    change (String.compare "" "") with Eq.
    destruct (N.compare_spec qn qm), (N.compare_spec rn rm),
      (N.compare_spec (10 * qn + rn) (10 * qm + rm)); done || (exfalso; lia).
Qed.

Lemma pad_digits width bound n :
  all_below (λ n, String.eqb (pad width n) (digits width n)) (N.to_nat bound) 0 = true →
  n < bound → pad width n = digits width n.
Proof.
  intros Ha Hn. apply String.eqb_eq. apply (all_below_spec _ _ _ Ha); lia.
Qed.

Lemma pad_2 n : n < 100 → pad 2 n = digits 2 n.
Proof. apply pad_digits. by vm_compute. Qed.
Lemma pad_4 n : n < 10000 → pad 4 n = digits 4 n.
Proof. apply pad_digits. by vm_compute. Qed.

Definition stamp_cmp (a b : (N * N * N) * (N * (N * N))) : comparison :=
  pair_cmp date_cmp (pair_cmp N.compare (pair_cmp N.compare N.compare)) a b.

Lemma valid_date_bounds y m d : valid_date (y, m, d) = true → m < 100 ∧ d < 100.
Proof.
  unfold valid_date. rewrite !andb_true_iff, !N.leb_le. intros [[[Hm1 Hm] Hd1] Hd].
  split; [lia|]. assert (nth (N.to_nat (m - 1)) (months y) 0 ≤ 31) as Hle; [|lia].
  unfold months. destruct (is_leap y);
    (destruct (N.to_nat (m - 1)) as [|[|[|[|[|[|[|[|[|[|[|[|k]]]]]]]]]]]]; cbn; [lia..|]; by destruct k).
Qed.

Lemma stamp_compare a b h1 m1 s1 h2 m2 s2 :
  valid_date a = true → valid_date b = true → fst (fst a) < 10000 → fst (fst b) < 10000 →
  h1 < 100 → m1 < 100 → s1 < 100 → h2 < 100 → m2 < 100 → s2 < 100 →
  String.compare (stamp a h1 m1 s1) (stamp b h2 m2 s2) =
  stamp_cmp (a, (h1, (m1, s1))) (b, (h2, (m2, s2))).
Proof.
  destruct a as [[ya ma] da], b as [[yb mb] db]. intros Ha Hb Hya Hyb ??????. cbn [fst] in *.
  apply valid_date_bounds in Ha as [??], Hb as [??]. unfold stamp.
  rewrite !pad_4, !pad_2 by done.
  rewrite !compare_app_same || idtac.
  repeat (rewrite compare_app by (by rewrite !digits_length);
          rewrite digits_compare by (cbn; lia); rewrite ?compare_app_same).
  unfold stamp_cmp, date_cmp, pair_cmp, cmp_lex, cmp_on. cbn [fst snd].
  rewrite (cmp_refl String.compare "Z").
  destruct (N.compare ya yb), (N.compare ma mb), (N.compare da db), (N.compare h1 h2),
    (N.compare m1 m2), (N.compare s1 s2); done.
Qed.

Lemma secs_split s : s = 60 * (60 * (24 * (s / 86400) + (s / 3600) mod 24) + (s / 60) mod 60) + s mod 60.
Proof.
  pose proof (N.div_mod s 60 ltac:(lia)) as H1. pose proof (N.div_mod (s / 60) 60 ltac:(lia)) as H2.
  pose proof (N.div_mod (s / 3600) 24 ltac:(lia)) as H3.
  rewrite N.Div0.div_div in H2, H3. change (60 * 60) with 3600 in H2. change (3600 * 24) with 86400 in H3.
  lia.
Qed.

Lemma secs_cmp s1 s2 : s1 < s2 →
  stamp_cmp (days_to_ymd (s1 / 86400), ((s1 / 3600) mod 24, ((s1 / 60) mod 60, s1 mod 60)))
            (days_to_ymd (s2 / 86400), ((s2 / 3600) mod 24, ((s2 / 60) mod 60, s2 mod 60))) = Lt.
Proof.
  intros Hlt. unfold stamp_cmp, pair_cmp, cmp_lex, cmp_on. cbn [fst snd].
  assert (s1 / 86400 ≤ s2 / 86400) as Hd by (apply N.Div0.div_le_mono; lia).
  destruct (N.eq_dec (s1 / 86400) (s2 / 86400)) as [He|Hne]; [|by rewrite days_to_ymd_mono by lia].
  pose proof (secs_split s1) as H1. pose proof (secs_split s2) as H2. rewrite He in H1 |- *.
  rewrite (cmp_refl date_cmp). cbn [then_with].
  pose proof (N.mod_lt (s1 / 3600) 24 ltac:(lia)). pose proof (N.mod_lt (s2 / 3600) 24 ltac:(lia)).
  pose proof (N.mod_lt (s1 / 60) 60 ltac:(lia)). pose proof (N.mod_lt (s2 / 60) 60 ltac:(lia)).
  pose proof (N.mod_lt s1 60 ltac:(lia)). pose proof (N.mod_lt s2 60 ltac:(lia)). clear He Hd.
  generalize dependent s1. generalize dependent s2. intros s2.
  generalize (s2 mod 60), ((s2 / 60) mod 60), ((s2 / 3600) mod 24), (s2 / 86400).
  intros r2 m2 h2 d H2 ??? s1. generalize (s1 mod 60), ((s1 / 60) mod 60), ((s1 / 3600) mod 24).
  intros r1 m1 h1. intros.
  destruct (N.compare_spec h1 h2), (N.compare_spec m1 m2), (N.compare_spec r1 r2); cbn [then_with];
    done || (exfalso; lia).
Qed.

(** C38. Timestamps are written in an order the database can sort: until the year 10000 a later
    second has a greater text, so texts compare like times and different seconds never share
    one; and the closed form of the adapters writes the same texts as the loop of the store. *)
Theorem timestamps_sort s1 s2 :
  fst (fst (days_to_ymd (s1 / 86400))) < 10000 → fst (fst (days_to_ymd (s2 / 86400))) < 10000 →
  String.compare (format_unix_secs s1) (format_unix_secs s2) = N.compare s1 s2 ∧
  format_now_rfc3339 s1 = format_unix_secs s1 ∧
  saved_epoch_days_to_ymd (s1 / 86400) = days_to_ymd (s1 / 86400).
Proof.
  intros H1 H2. split; [|unfold format_now_rfc3339, format_unix_secs; cbn zeta;
    by rewrite saved_epoch_days_agree, !epoch_days_agree].
  unfold format_unix_secs. cbn zeta.
  pose proof (days_to_ymd_day_number (s1 / 86400)) as [Hv1 _].
  pose proof (days_to_ymd_day_number (s2 / 86400)) as [Hv2 _].
  assert (∀ n, n mod 60 < 100 ∧ n mod 24 < 100) as Hb
    by (intros n; pose proof (N.mod_lt n 60 ltac:(lia)); pose proof (N.mod_lt n 24 ltac:(lia)); lia).
  rewrite stamp_compare by (done || apply Hb).
  destruct (N.compare_spec s1 s2) as [->|Hlt|Hlt].
  - apply (cmp_refl stamp_cmp).
  - by apply secs_cmp.
  - apply secs_cmp in Hlt. by rewrite (cmp_opp stamp_cmp), Hlt.
Qed.

Lemma timestamps_sort_witness :
  String.compare (format_unix_secs 1700000000) (format_unix_secs 1700000060) =
    N.compare 1700000000 1700000060 ∧
  format_now_rfc3339 1700000000 = format_unix_secs 1700000000 ∧
  saved_epoch_days_to_ymd (1700000000 / 86400) = days_to_ymd (1700000000 / 86400).
Proof. apply (timestamps_sort 1700000000 1700000060); vm_compute; reflexivity. Defined.

Example stamp_1 : format_unix_secs 1700000000 = "2023-11-14T22:13:20Z".
Proof. vm_compute. reflexivity. Qed.
