(* ===== verification/Kinds.v ===== *)
(** * Node and edge kinds

    Model of [packages/atlas-core/src/kinds.rs]: the graph's node and edge kinds, their
    stored names, and the alias table user-supplied kind filters go through. *)

From S2P Require Import Prelude RustStr.

Inductive NodeKind :=
| NkFile
| NkPackage
| NkModule
| NkImport
| NkClass
| NkInterface
| NkStruct
| NkEnum
| NkFunction
| NkMethod
| NkVariable
| NkConstant
| NkTrait
| NkTest.

Inductive EdgeKind :=
| EkContains
| EkImports
| EkCalls
| EkDefines
| EkImplements
| EkExtends
| EkTests
| EkReferences
| EkTestedBy.

#[global] Instance NodeKind_eq_dec : EqDecision NodeKind.
Proof. solve_decision. Defined.
#[global] Instance EdgeKind_eq_dec : EqDecision EdgeKind.
Proof. solve_decision. Defined.

Definition NodeKind_as_str (k : NodeKind) : string :=
  match k with
  | NkFile => "file"
  | NkPackage => "package"
  | NkModule => "module"
  | NkImport => "import"
  | NkClass => "class"
  | NkInterface => "interface"
  | NkStruct => "struct"
  | NkEnum => "enum"
  | NkFunction => "function"
  | NkMethod => "method"
  | NkVariable => "variable"
  | NkConstant => "constant"
  | NkTrait => "trait"
  | NkTest => "test"
  end.

Definition EdgeKind_as_str (k : EdgeKind) : string :=
  match k with
  | EkContains => "contains"
  | EkImports => "imports"
  | EkCalls => "calls"
  | EkDefines => "defines"
  | EkImplements => "implements"
  | EkExtends => "extends"
  | EkTests => "tests"
  | EkReferences => "references"
  | EkTestedBy => "tested_by"
  end.

(** A [match] on a string: the first arm whose literal is the string. *)
Definition match_str {A : Type} (s : string) (arms : list (string * A)) : option A :=
  snd <$> find (λ arm, String.eqb (fst arm) s) arms.

Definition NodeKind_arms : list (string * NodeKind) :=
  [ ("file", NkFile);
    ("package", NkPackage);
    ("module", NkModule);
    ("import", NkImport);
    ("class", NkClass);
    ("interface", NkInterface);
    ("struct", NkStruct);
    ("enum", NkEnum);
    ("function", NkFunction);
    ("method", NkMethod);
    ("variable", NkVariable);
    ("constant", NkConstant);
    ("trait", NkTrait);
    ("test", NkTest) ].

Definition NodeKind_from_str (s : string) : result string NodeKind :=
  match match_str s NodeKind_arms with
  | Some k => Ok k
  | None => Err ("unknown node kind: " +:+ s)
  end.

Definition EdgeKind_arms : list (string * EdgeKind) :=
  [ ("contains", EkContains);
    ("imports", EkImports);
    ("calls", EkCalls);
    ("defines", EkDefines);
    ("implements", EkImplements);
    ("extends", EkExtends);
    ("tests", EkTests);
    ("references", EkReferences);
    ("tested_by", EkTestedBy) ].

Definition EdgeKind_from_str (s : string) : result string EdgeKind :=
  match match_str s EdgeKind_arms with
  | Some k => Ok k
  | None => Err ("unknown edge kind: " +:+ s)
  end.

Definition kind_aliases : list (string * string) :=
  [ ("fn", "function");
    ("func", "function");
    ("function", "function");
    ("method", "method");
    ("meth", "method");
    ("class", "class");
    ("struct", "struct");
    ("record", "struct");
    ("interface", "interface");
    ("iface", "interface");
    ("trait", "trait");
    ("enum", "enum");
    ("module", "module");
    ("mod", "module");
    ("variable", "variable");
    ("var", "variable");
    ("field", "variable");
    ("constant", "constant");
    ("const", "constant");
    ("test", "test");
    ("import", "import");
    ("use", "import");
    ("package", "package");
    ("pkg", "package");
    ("file", "file") ].

Definition normalize_kind_alias (input : string) : string :=
  let lower := to_ascii_lowercase input in
  default lower (match_str lower kind_aliases).

Definition parse_kind_alias (input : string) : option NodeKind :=
  match NodeKind_from_str (normalize_kind_alias input) with
  | Ok k => Some k
  | Err _ => None
  end.

(** ** Lemmas *)

Lemma match_str_Some {A} (s : string) (arms : list (string * A)) (a : A) :
  match_str s arms = Some a → (s, a) ∈ arms.
Proof.
  unfold match_str. destruct (find _ arms) as [[t b]|] eqn:E; simpl; [|done].
  intros [= ->]. apply find_some in E as [Hin Heq].
  apply String.eqb_eq in Heq as <-. by apply list_elem_of_In.
Qed.

Lemma match_str_None {A} (s : string) (arms : list (string * A)) (a : A) :
  match_str s arms = None → (s, a) ∉ arms.
Proof.
  unfold match_str. destruct (find _ arms) as [[t b]|] eqn:E; simpl; [done|].
  intros _ Hin. apply list_elem_of_In in Hin.
  pose proof (find_none _ _ E _ Hin) as H. simpl in H. by rewrite String.eqb_refl in H.
Qed.

Lemma NodeKind_from_as_str k : NodeKind_from_str (NodeKind_as_str k) = Ok k.
Proof. by destruct k. Qed.

Lemma EdgeKind_from_as_str k : EdgeKind_from_str (EdgeKind_as_str k) = Ok k.
Proof. by destruct k. Qed.

Lemma NodeKind_from_str_ok s k : NodeKind_from_str s = Ok k → s = NodeKind_as_str k.
Proof.
  unfold NodeKind_from_str. destruct (match_str s _) as [k'|] eqn:E; [|done].
  intros [= ->]. apply match_str_Some in E. unfold NodeKind_arms in E.
  repeat (apply elem_of_cons in E as [[= -> ->]|E]; [done|]). by apply elem_of_nil in E.
Qed.

Lemma EdgeKind_from_str_ok s k : EdgeKind_from_str s = Ok k → s = EdgeKind_as_str k.
Proof.
  unfold EdgeKind_from_str. destruct (match_str s _) as [k'|] eqn:E; [|done].
  intros [= ->]. apply match_str_Some in E. unfold EdgeKind_arms in E.
  repeat (apply elem_of_cons in E as [[= -> ->]|E]; [done|]). by apply elem_of_nil in E.
Qed.

Lemma normalize_lower s : normalize_kind_alias (to_ascii_lowercase s) = normalize_kind_alias s.
Proof. unfold normalize_kind_alias. by rewrite to_ascii_lowercase_idemp. Qed.

(** ** Properties *)

(** Stored kind names round-trip: every node and edge kind is read back from the name
    it is written as, and a name that is read is exactly the name of the kind it yields. *)
Theorem kind_names_roundtrip :
  (∀ k s, NodeKind_from_str s = Ok k ↔ s = NodeKind_as_str k) ∧
  (∀ k s, EdgeKind_from_str s = Ok k ↔ s = EdgeKind_as_str k).
Proof.
  split; intros k s; split.
  - apply NodeKind_from_str_ok.
  - intros ->. apply NodeKind_from_as_str.
  - apply EdgeKind_from_str_ok.
  - intros ->. apply EdgeKind_from_as_str.
Qed.

(** Kind filters are resolved independently of ASCII case, resolving twice changes
    nothing, canonical names resolve to themselves, and an input is accepted as a kind
    exactly when its lower-case form is listed in the alias table. *)
Theorem kind_alias_resolution s :
  normalize_kind_alias (to_ascii_lowercase s) = normalize_kind_alias s ∧
  normalize_kind_alias (normalize_kind_alias s) = normalize_kind_alias s ∧
  (∀ k, parse_kind_alias (NodeKind_as_str k) = Some k) ∧
  (∀ k, parse_kind_alias s = Some k ↔
        (to_ascii_lowercase s, NodeKind_as_str k) ∈ kind_aliases).
Proof.
  assert (∀ t, match_str t kind_aliases = None → ∀ k, t ≠ NodeKind_as_str k) as Hnone.
  { intros t Ht k ->. by destruct k. }
  assert (∀ t v, (t, v) ∈ kind_aliases →
    normalize_kind_alias t = v ∧ normalize_kind_alias v = v) as Htab.
  { intros t v Hin. unfold kind_aliases in Hin.
    repeat (apply elem_of_cons in Hin as [[= -> ->]|Hin]; [done|]). by apply elem_of_nil in Hin. }
  split_and!.
  - apply normalize_lower.
  - unfold normalize_kind_alias at 2 3.
    destruct (match_str (to_ascii_lowercase s) kind_aliases) as [v|] eqn:E; simpl.
    + apply match_str_Some in E. by apply Htab in E as [_ ->].
    + unfold normalize_kind_alias. by rewrite to_ascii_lowercase_idemp, E.
  - by intros [].
  - intros k. unfold parse_kind_alias. rewrite <-normalize_lower. split.
    + destruct (NodeKind_from_str _) as [k'|] eqn:E; [|done]. intros [= ->].
      apply NodeKind_from_str_ok in E. rewrite normalize_lower in E.
      unfold normalize_kind_alias in E.
      destruct (match_str _ kind_aliases) as [v|] eqn:Em; simpl in E.
      * apply match_str_Some in Em. congruence.
      * by apply Hnone with (k := k) in Em.
    + intros Hin. pose proof (Htab _ _ Hin) as [Hn _].
      by rewrite Hn, NodeKind_from_as_str.
Qed.
