(* ===== verification/Health.v ===== *)
(** * Graph health: error classification and error codes

    Model of [packages/atlas-core/src/health.rs]. Errors reach this code as text; the
    classifiers look for the needles of the tables below in the lower-cased text. *)

From S2P Require Import Prelude RustStr.

Inductive GraphStoreHealthClass :=
| Healthy | Stale | InterruptedBuild | FailedBuild | SqliteCorrupt | SchemaMismatch
| LogicalInconsistency.

#[global] Instance GraphStoreHealthClass_eq_dec : EqDecision GraphStoreHealthClass.
Proof. solve_decision. Defined.

Record GraphHealthInput := mk_health_input {
  hi_db_exists : bool;
  hi_graph_built : bool;
  hi_health_class : option GraphStoreHealthClass;
  hi_build_state : option string;
  hi_retrieval_unavailable : bool
}.

Definition GraphStoreHealthClass_as_str (c : GraphStoreHealthClass) : string :=
  match c with
  | Healthy => "healthy"
  | Stale => "stale"
  | InterruptedBuild => "interrupted_build"
  | FailedBuild => "failed_build"
  | SqliteCorrupt => "sqlite_corrupt"
  | SchemaMismatch => "schema_mismatch"
  | LogicalInconsistency => "logical_inconsistency"
  end.

(** [needles.iter().any(|needle| s.contains(needle))]. *)
Definition contains_any (needles : list string) (s : string) : bool :=
  existsb (λ n, contains n s) needles.

Definition schema_mismatch_needles : list string :=
  [ "no such column";
      "has no column named";
      "duplicate column name";
      "no such table";
      "unknown column";
      "table graph_build_state has";
      "table edges has";
      "table nodes has";
      "table files has";
      "table retrieval_index_state has" ].

Definition is_schema_mismatch_error (error : string) : bool :=
  contains_any schema_mismatch_needles (to_ascii_lowercase error).

Definition looks_like_logical_inconsistency (lower : string) : bool :=
  contains_any
    [ "noncanonical_path:";
        "noncanonical_path_rows";
        "missing_repo_provenance:";
        "legacy_repo_identity";
        "foreign_key_check:";
        "foreign key";
        "pragma foreign_key_check";
        "dangling edge";
        "dangling_edge";
        "orphan node";
        "orphan_node";
        "graph invariant";
        "missing endpoint" ] lower.

Definition classify_graph_store_error (error : string) : GraphStoreHealthClass :=
  if is_schema_mismatch_error error then SchemaMismatch
  else if looks_like_logical_inconsistency (to_ascii_lowercase error)
  then LogicalInconsistency
  else SqliteCorrupt.

Definition is_logical_inconsistency_issue (issue : string) : bool :=
  looks_like_logical_inconsistency (to_ascii_lowercase issue).

Definition looks_like_missing_graph_db (lower : string) : bool :=
  (contains "cannot open database at" lower
   || contains "unable to open database file" lower
   || contains "cannot open database" lower)
  && (contains "no such file or directory" lower || contains "os error 2" lower).

Definition contains_sql_statement (lower : string) : bool :=
  contains_any [ "select ";
        "insert into ";
        "delete from ";
        "create table ";
        "drop table ";
        "alter table ";
        "pragma " ] lower.

Definition looks_like_internal_storage_error (lower : string) : bool :=
  contains_any
    [ "sqlite";
        "rusqlite";
        "fts5";
        "database disk image is malformed";
        "file is not a database";
        "file is encrypted or is not a database";
        "readonly database";
        "constraint failed";
        "failed to prepare";
        "failed to execute";
        "cannot execute";
        "execute returned results";
        "no such table";
        "no such column";
        "has no column named";
        "duplicate column name";
        "table graph_build_state has";
        "table edges has";
        "table nodes has";
        "table files has";
        "table retrieval_index_state has";
        "worldtree.db";
        "context.db";
        "session.db";
        "wal" ] lower
  || contains_sql_statement lower.

Definition opt_is (o : option string) (s : string) : bool :=
  match o with Some t => String.eqb t s | None => false end.

Definition select_graph_health_error_code (input : GraphHealthInput) : string :=
  if negb (hi_db_exists input) then "missing_graph_db"
  else
    match hi_health_class input with
    | Some Healthy =>
        if hi_retrieval_unavailable input && hi_graph_built input
        then "retrieval_index_unavailable" else "none"
    | Some Stale => "stale_index"
    | Some InterruptedBuild => "interrupted_build"
    | Some FailedBuild => "failed_build"
    | Some SqliteCorrupt => "sqlite_corrupt"
    | Some SchemaMismatch => "schema_mismatch"
    | Some LogicalInconsistency => "logical_inconsistency"
    | None =>
        if opt_is (hi_build_state input) "degraded" then "degraded_build"
        else if opt_is (hi_build_state input) "building" then "interrupted_build"
        else if opt_is (hi_build_state input) "build_failed" then "failed_build"
        else if hi_retrieval_unavailable input && hi_graph_built input
        then "retrieval_index_unavailable"
        else "none"
    end.

Definition error_messages : list (string * string) :=
  [ ("none",
     "Graph is healthy and up-to-date.");
    ("missing_graph_db",
     "Graph database not found. Run `atlas build` to create it.");
    ("noncanonical_path_rows",
     "Persisted path rows are not canonical. Rebuild graph/content state from clean canonical inputs.");
    ("schema_mismatch",
     "Graph database schema does not match this Atlas build. Rebuild the graph to refresh the schema.");
    ("sqlite_corrupt",
     "Graph SQLite store is physically corrupt or unreadable. Rebuild graph data from repository source.");
    ("logical_inconsistency",
     "Graph database opened, but graph invariants failed. Rebuild graph data from repository source.");
    ("corrupt_or_inconsistent_graph_rows",
     "Graph database has integrity issues. Run `atlas build` to rebuild from scratch.");
    ("interrupted_build",
     "Previous build was interrupted and did not complete. Run `atlas build` to restart.");
    ("degraded_build",
     "Last build finished in degraded mode because an operational budget was hit. Check build_status for counters and stop reason, then run `atlas build` with narrower scope or higher safe limits.");
    ("failed_build",
     "Last build failed. Check build_last_error for details, then run `atlas build` to retry.");
    ("legacy_repo_identity",
     "Legacy repo identity rows detected. Rebuild the graph under the stable repo identity before using graph-backed features.");
    ("stale_index",
     "Graph-backed answers may be stale because graph-relevant files changed after the last index.");
    ("retrieval_index_unavailable",
     "Retrieval/content index is unavailable. Graph queries may still work, but retrieval-backed features are degraded.");
    ("node_not_found",
     "No graph nodes matched this request.");
    ("checks_failed",
     "One or more health checks failed.") ].

(** The value of the first entry with this key. *)
Definition assoc_str {A : Type} (d : A) (s : string) (l : list (string * A)) : A :=
  match find (λ e, String.eqb (fst e) s) l with Some e => snd e | None => d end.

Definition graph_health_error_message (error_code : string) : string :=
  assoc_str "An unknown error occurred." error_code error_messages.

Definition error_suggestions : list (string * list string) :=
  [ ("none",
     []);
    ("missing_graph_db",
     [ "run `atlas build` to create the graph";
       "run `atlas init` if the project is new" ]);
    ("noncanonical_path_rows",
     [ "run `atlas build` to rebuild canonical graph rows";
       "run `atlas purge-noncanonical` to remove stale repo-local context/session stores";
       "delete stale context/session artifacts that still reference raw repo paths" ]);
    ("schema_mismatch",
     [ "run `atlas build` to rebuild the graph with the current schema";
       "delete the stale database file if rebuild keeps failing" ]);
    ("sqlite_corrupt",
     [ "run `atlas build` to recreate the graph database from repository source";
       "inspect `.atlas/worldtree.db` before deleting it if forensic evidence matters" ]);
    ("logical_inconsistency",
     [ "run `atlas db-check` to inspect failing graph invariants";
       "run `atlas build` to rebuild the graph from repository source" ]);
    ("corrupt_or_inconsistent_graph_rows",
     [ "run `atlas build` to rebuild the graph from scratch" ]);
    ("interrupted_build",
     [ "run `atlas build` to restart the interrupted build" ]);
    ("degraded_build",
     [ "check the build_status counters and budget_stop_reason fields";
       "rerun `atlas build` or `atlas update` with narrower scope or adjusted safe limits" ]);
    ("failed_build",
     [ "check the build_last_error field for details";
       "run `atlas build` to retry" ]);
    ("legacy_repo_identity",
     [ "run `atlas build` to quarantine the legacy graph and rebuild under the stable repo identity";
       "run `atlas db-check` to inspect legacy identity rows" ]);
    ("stale_index",
     [ "run `atlas update` or `update_graph` to refresh graph facts";
       "run `atlas detect-changes` to inspect pending graph-relevant files" ]);
    ("retrieval_index_unavailable",
     [ "run `atlas build` or `atlas update` to refresh retrieval index state";
       "run `atlas doctor` to inspect retrieval_index details" ]);
    ("node_not_found",
     [ "verify the symbol name with query_graph or resolve_symbol";
       "run status to confirm the graph is built";
       "run update_graph to index the repo first" ]);
    ("checks_failed",
     [ "inspect the checks array for details" ]) ].

Definition graph_health_error_suggestions (error_code : string) : list string :=
  assoc_str [] error_code error_suggestions.

Definition internal_error_code (detail : string) : option string :=
  if str_is_empty (trim detail) then None
  else
    let lower := to_ascii_lowercase detail in
    if is_schema_mismatch_error detail then Some "schema_mismatch"
    else if looks_like_logical_inconsistency lower then Some "logical_inconsistency"
    else if looks_like_missing_graph_db lower then Some "missing_graph_db"
    else if looks_like_internal_storage_error lower then
      Some match classify_graph_store_error detail with
           | SchemaMismatch => "schema_mismatch"
           | LogicalInconsistency => "logical_inconsistency"
           | SqliteCorrupt => "sqlite_corrupt"
           | Healthy | Stale | InterruptedBuild | FailedBuild => "sqlite_corrupt"
           end
    else None.

Definition user_facing_error_message (primary_error detail : string) : string :=
  match internal_error_code detail with
  | Some error_code => graph_health_error_message error_code
  | None =>
      default "An unknown error occurred."
        (head (filter (λ l, str_is_empty l = false) (map trim (lines primary_error))))
  end.

(** ** Lemmas *)

(** The codes [select_graph_health_error_code] and [internal_error_code] produce. *)
Definition known_codes : list string :=
  [ "none"; "missing_graph_db"; "schema_mismatch"; "sqlite_corrupt"; "logical_inconsistency";
    "interrupted_build"; "degraded_build"; "failed_build"; "stale_index";
    "retrieval_index_unavailable" ].

Ltac in_codes := unfold known_codes; repeat first [by constructor | apply list_elem_of_further].

Lemma select_code_known input : select_graph_health_error_code input ∈ known_codes.
Proof.
  unfold select_graph_health_error_code.
  repeat case_match; simplify_eq; in_codes.
Qed.

Lemma internal_code_known detail c : internal_error_code detail = Some c → c ∈ known_codes.
Proof.
  unfold internal_error_code. intros H.
  repeat case_match; simplify_eq; in_codes.
Qed.

Lemma known_code_documented c :
  c ∈ known_codes →
  graph_health_error_message c ≠ "An unknown error occurred." ∧
  (graph_health_error_suggestions c = [] ↔ c = "none").
Proof.
  unfold known_codes. intros Hin.
  repeat (apply elem_of_cons in Hin as [->|Hin]; [vm_compute; split; [done|split; done]|]).
  by apply elem_of_nil in Hin.
Qed.

(** ** Properties *)

(** Every error code the selector can produce is documented: it has a message of its
    own and, unless it is [none], at least one suggestion; and the code is [none] exactly
    when the database exists and its class is healthy (or unclassified with no unfinished
    build) with no unavailable retrieval index over a built graph. *)
Theorem error_code_documented input :
  let c := select_graph_health_error_code input in
  graph_health_error_message c ≠ "An unknown error occurred." ∧
  (graph_health_error_suggestions c = [] ↔ c = "none") ∧
  (c = "none" ↔
     hi_db_exists input = true ∧
     hi_retrieval_unavailable input && hi_graph_built input = false ∧
     (hi_health_class input = Some Healthy ∨
      hi_health_class input = None ∧
      opt_is (hi_build_state input) "degraded" = false ∧
      opt_is (hi_build_state input) "building" = false ∧
      opt_is (hi_build_state input) "build_failed" = false)).
Proof.
  intros c.
  destruct (known_code_documented c (select_code_known input)) as [Hm Hs].
  split_and!; [done|done|].
  subst c. unfold select_graph_health_error_code. clear.
  destruct input as [[] built [[]|] st []]; simpl; repeat case_match; simpl;
    split; try done; naive_solver.
Qed.

(** Storage internals never reach the user: when the detail text of an error is not
    blank and mentions the storage layer or any SQL statement, the message shown is a
    catalogued one, whatever the primary error says. *)
Theorem storage_errors_are_masked primary detail :
  str_is_empty (trim detail) = false →
  looks_like_internal_storage_error (to_ascii_lowercase detail) = true →
  ∃ code, code ∈ known_codes ∧
    user_facing_error_message primary detail = graph_health_error_message code ∧
    graph_health_error_message code ≠ "An unknown error occurred.".
Proof.
  intros Hne Hst. unfold user_facing_error_message.
  destruct (internal_error_code detail) as [c|] eqn:E.
  - exists c. pose proof (internal_code_known _ _ E) as Hc.
    split_and!; [done|done|by apply known_code_documented].
  - exfalso. unfold internal_error_code in E. rewrite Hne, Hst in E.
    repeat case_match; simplify_eq.
Qed.

(** The needle [wal] also occurs in ordinary words: an error about a directory walk is
    shown as physical corruption of the graph store. *)
Example walk_error_shown_as_corruption :
  user_facing_error_message "scan failed" "cannot walk directory src/a" =
  graph_health_error_message "sqlite_corrupt".
Proof. vm_compute. reflexivity. Qed.

(** ** Witnesses *)

Lemma storage_errors_are_masked_witness :
  ∃ code, code ∈ known_codes ∧
    user_facing_error_message "boom" "near SELECT * FROM nodes: syntax error" =
      graph_health_error_message code ∧
    graph_health_error_message code ≠ "An unknown error occurred.".
Proof.
  apply (storage_errors_are_masked "boom" "near SELECT * FROM nodes: syntax error");
    vm_compute; reflexivity.
Defined.
