(* ===== verification/Readiness.v ===== *)
(** * Graph readiness and the execution-state gate

    Model of [packages/atlas-core/src/readiness.rs]: one record is derived from the raw
    inputs ([derive]), and [check_tool] decides from its execution state whether a class
    of tool may run. *)

From S2P Require Import Prelude RustStr Health.

(** ** Data *)

Inductive IntegrityState :=
| IsClean | IsSchemaMismatch | IsSqliteCorrupt | IsLogicalInconsistency.

Definition IntegrityState_as_str (s : IntegrityState) : string :=
  match s with
  | IsClean => "clean"
  | IsSchemaMismatch => "schema_mismatch"
  | IsSqliteCorrupt => "sqlite_corrupt"
  | IsLogicalInconsistency => "logical_inconsistency"
  end.

Definition is_clean (s : IntegrityState) : bool :=
  match s with IsClean => true | _ => false end.

Definition health_class (s : IntegrityState) : option GraphStoreHealthClass :=
  match s with
  | IsClean => None
  | IsSchemaMismatch => Some SchemaMismatch
  | IsSqliteCorrupt => Some SqliteCorrupt
  | IsLogicalInconsistency => Some LogicalInconsistency
  end.

Inductive GraphExecutionState := Fresh | EsStale | EsPartial | Corrupt | Missing.

#[global] Instance IntegrityState_eq_dec : EqDecision IntegrityState.
Proof. solve_decision. Defined.
#[global] Instance GraphExecutionState_eq_dec : EqDecision GraphExecutionState.
Proof. solve_decision. Defined.

Definition GraphExecutionState_as_str (s : GraphExecutionState) : string :=
  match s with
  | Fresh => "fresh"
  | EsStale => "stale"
  | EsPartial => "partial"
  | Corrupt => "corrupt"
  | Missing => "missing"
  end.

Definition is_queryable (s : GraphExecutionState) : bool :=
  match s with Fresh | EsStale | EsPartial => true | _ => false end.

Inductive GraphToolRequirement := Diagnostics | SymbolLookup | Traversal | Analysis.

#[global] Instance GraphToolRequirement_eq_dec : EqDecision GraphToolRequirement.
Proof. solve_decision. Defined.

Record ReadinessOverride := mk_override { allow_stale : bool; allow_partial : bool }.

Inductive ReadinessVerdict :=
| Allowed (execution_state : GraphExecutionState) (safe_to_answer : bool)
    (warning : option string)
| VBlocked (execution_state : GraphExecutionState) (reason : string)
    (suggestions : list string).

Definition is_allowed (v : ReadinessVerdict) : bool :=
  match v with Allowed _ _ _ => true | VBlocked _ _ _ => false end.

Definition is_blocked (v : ReadinessVerdict) : bool :=
  match v with VBlocked _ _ _ => true | Allowed _ _ _ => false end.

Definition verdict_execution_state (v : ReadinessVerdict) : GraphExecutionState :=
  match v with Allowed s _ _ => s | VBlocked s _ _ => s end.

Record GraphReadiness := mk_readiness {
  repo_root : string;
  db_path : string;
  db_exists : bool;
  db_open_error : option string;
  build_state : option string;
  build_last_error : option string;
  graph_built : bool;
  graph_queryable : bool;
  graph_current : bool;
  stale_index : bool;
  pending_graph_changes : list string;
  integrity_state : IntegrityState;
  gr_health_class : option GraphStoreHealthClass;
  error_code : string;
  recovery_mode : option string;
  quarantine_path : option string;
  message : string;
  suggestions : list string;
  last_indexed_at : option string;
  indexed_file_count : Z;
  execution_state : GraphExecutionState
}.

Definition is_ok (g : GraphReadiness) : bool :=
  String.eqb (error_code g) "none" && graph_built g.

Definition recommended_rebuild_command (g : GraphReadiness) : string := "atlas build".

(** ** The gate *)

Definition check_tool (g : GraphReadiness) (requirement : GraphToolRequirement)
    (overrides : ReadinessOverride) : ReadinessVerdict :=
  let state := execution_state g in
  if bool_decide (requirement = Diagnostics) then Allowed state true None
  else
    match state with
    | Corrupt =>
        VBlocked state "graph has integrity errors and cannot serve queries" (suggestions g)
    | Missing => VBlocked state "graph has not been built yet" (suggestions g)
    | EsPartial =>
        match requirement with
        | Diagnostics => Allowed state true None (* unreachable: handled above *)
        | SymbolLookup =>
            if allow_partial overrides then
              Allowed state false
                (Some "graph is in partial (degraded) state; results may be incomplete")
            else
              VBlocked state
                "graph is in partial (degraded) state; symbol lookup results may be incomplete — pass allow_partial=true to override"
                (suggestions g)
        | Traversal | Analysis =>
            VBlocked state
              ("graph is in partial (degraded) state; " +:+
               match requirement with
               | Traversal => "traversal"
               | Analysis => "analysis"
               | _ => "this tool"
               end +:+ " requires a complete graph")
              (suggestions g)
        end
    | EsStale =>
        let warn := "graph is stale; working-tree changes are not yet indexed" in
        if allow_stale overrides || bool_decide (requirement = SymbolLookup)
        then Allowed state false (Some warn)
        else Allowed state false (Some warn)
    | Fresh => Allowed state true None
    end.

(** ** Derivation *)

Record GraphReadinessInput := mk_input {
  i_repo_root : string;
  i_db_path : string;
  i_db_exists : bool;
  i_db_open_error : option string;
  i_build_state : option string;
  i_build_last_error : option string;
  i_graph_error : option string;
  i_recovery_mode : option string;
  i_quarantine_path : option string;
  i_pending_graph_changes : list string;
  i_indexed_file_count : Z;
  i_graph_has_content : bool;
  i_last_indexed_at : option string;
  i_retrieval_unavailable : bool
}.

Definition is_none {A} (o : option A) : bool :=
  match o with None => true | Some _ => false end.

Definition derive_integrity_state (db_open_error graph_error : option string) :
    IntegrityState :=
  let combined := match db_open_error with Some e => Some e | None => graph_error end in
  match combined with
  | None => IsClean
  | Some err =>
      match classify_graph_store_error err with
      | SchemaMismatch => IsSchemaMismatch
      | SqliteCorrupt => IsSqliteCorrupt
      | LogicalInconsistency => IsLogicalInconsistency
      | Healthy | Stale | InterruptedBuild | FailedBuild => IsSqliteCorrupt
      end
  end.

Definition derive_health_class (db_exists : bool) (integrity : IntegrityState)
    (graph_built : bool) (build_state : option string) (stale_index : bool) :
    option GraphStoreHealthClass :=
  if negb db_exists then None
  else
    match health_class integrity with
    | Some c => Some c
    | None =>
        if opt_is build_state "building" then Some InterruptedBuild
        else if opt_is build_state "build_failed" then Some FailedBuild
        else if stale_index then Some Stale
        else if graph_built then Some Healthy
        else None
    end.

Definition derive_execution_state (integrity : IntegrityState) (graph_built : bool)
    (build_state : option string) (graph_has_content stale_index : bool) :
    GraphExecutionState :=
  if negb (is_clean integrity) then Corrupt
  else if opt_is build_state "degraded" && graph_has_content then EsPartial
  else if negb graph_built then Missing
  else if stale_index then EsStale
  else Fresh.

Definition derive (input : GraphReadinessInput) : GraphReadiness :=
  let integrity := derive_integrity_state (i_db_open_error input) (i_graph_error input) in
  let built :=
    opt_is (i_build_state input) "built"
    || (is_none (i_build_state input) && is_none (i_db_open_error input)
        && is_none (i_graph_error input) && i_graph_has_content input) in
  let queryable :=
    built && is_none (i_db_open_error input) && is_none (i_graph_error input)
    && is_clean integrity in
  let stale := built && negb (bool_decide (i_pending_graph_changes input = [])) in
  let current := queryable && negb stale in
  let hc := derive_health_class (i_db_exists input) integrity built (i_build_state input) stale in
  let code :=
    select_graph_health_error_code
      (mk_health_input (i_db_exists input) built hc (i_build_state input)
         (i_retrieval_unavailable input)) in
  mk_readiness (i_repo_root input) (i_db_path input) (i_db_exists input)
    (i_db_open_error input) (i_build_state input) (i_build_last_error input)
    built queryable current stale (i_pending_graph_changes input) integrity hc code
    (i_recovery_mode input) (i_quarantine_path input)
    (graph_health_error_message code) (graph_health_error_suggestions code)
    (i_last_indexed_at input) (i_indexed_file_count input)
    (derive_execution_state integrity built (i_build_state input)
       (i_graph_has_content input) stale).

(** ** Lemmas *)

Definition has_error (i : GraphReadinessInput) : bool :=
  negb (is_none (i_db_open_error i) && is_none (i_graph_error i)).

Definition built_of (i : GraphReadinessInput) : bool :=
  opt_is (i_build_state i) "built"
  || (is_none (i_build_state i) && negb (has_error i) && i_graph_has_content i).

Definition degraded_with_content (i : GraphReadinessInput) : bool :=
  opt_is (i_build_state i) "degraded" && i_graph_has_content i.

Definition pending (i : GraphReadinessInput) : bool :=
  negb (bool_decide (i_pending_graph_changes i = [])).

Lemma integrity_clean_iff oe ge :
  is_clean (derive_integrity_state oe ge) = is_none oe && is_none ge.
Proof.
  unfold derive_integrity_state.
  destruct oe, ge; simpl; [..|done]; by destruct (classify_graph_store_error _).
Qed.

Lemma derive_flags i :
  graph_built (derive i) = built_of i ∧
  graph_queryable (derive i) = built_of i && negb (has_error i) ∧
  stale_index (derive i) = built_of i && pending i ∧
  graph_current (derive i) = built_of i && negb (has_error i) && negb (pending i) ∧
  execution_state (derive i) =
    (if has_error i then Corrupt
     else if degraded_with_content i then EsPartial
     else if negb (built_of i) then Missing
     else if pending i then EsStale else Fresh).
Proof.
  unfold derive, derive_execution_state, built_of, has_error, degraded_with_content, pending.
  simpl. rewrite integrity_clean_iff.
  destruct i as [? ? ? [?|] bs ? [?|] ? ? pc ? [] ? ?]; simpl;
    destruct bs as [bs|]; simpl; try destruct (String.eqb bs "built");
    destruct (bool_decide (pc = [])); simpl; auto;
    try (destruct (String.eqb bs "degraded"); simpl; auto).
Qed.

Lemma built_not_degraded i : built_of i = true → degraded_with_content i = false.
Proof.
  unfold built_of, degraded_with_content, opt_is.
  destruct (i_build_state i) as [s|]; simpl; [|done].
  destruct (String.eqb_spec s "built") as [->|]; [done|]. simpl. done.
Qed.

Lemma derive_health_class_spec i :
  gr_health_class (derive i) =
    (if negb (i_db_exists i) then None
     else match health_class (integrity_state (derive i)) with
          | Some c => Some c
          | None =>
              if opt_is (i_build_state i) "building" then Some InterruptedBuild
              else if opt_is (i_build_state i) "build_failed" then Some FailedBuild
              else if built_of i && pending i then Some Stale
              else if built_of i then Some Healthy else None
          end).
Proof.
  destruct (derive_flags i) as (Hb & _ & Hs & _). rewrite <-Hs, <-Hb. reflexivity.
Qed.

Lemma clean_health_class i :
  has_error i = false → health_class (integrity_state (derive i)) = None.
Proof.
  intros H.
  assert (is_clean (integrity_state (derive i)) = true) as Hc.
  { simpl. rewrite integrity_clean_iff. unfold has_error in H. by apply negb_false_iff in H. }
  by destruct (integrity_state (derive i)).
Qed.

Lemma error_health_class i :
  has_error i = true → ∃ c, health_class (integrity_state (derive i)) = Some c ∧
                            c ≠ Healthy ∧ c ≠ Stale.
Proof.
  intros H.
  assert (is_clean (integrity_state (derive i)) = false) as Hc.
  { simpl. rewrite integrity_clean_iff. unfold has_error in H. by apply negb_true_iff in H. }
  destruct (integrity_state (derive i)); simpl in *; naive_solver.
Qed.

Ltac health_fields :=
  cbn [hi_db_exists hi_graph_built hi_health_class hi_build_state hi_retrieval_unavailable].

(** ** Properties *)

(** The single execution state agrees with the boolean dimensions and with the raw
    inputs: corrupt exactly on an open or query error; partial exactly for an error-free
    degraded build that has content; fresh exactly when the graph is current; stale
    exactly when it is queryable with pending changes; and missing in every other case. *)
Theorem execution_state_spec i :
  let g := derive i in
  (execution_state g = Corrupt ↔ has_error i = true) ∧
  (execution_state g = EsPartial ↔ has_error i = false ∧ degraded_with_content i = true) ∧
  (execution_state g = Fresh ↔ graph_current g = true) ∧
  (execution_state g = EsStale ↔ graph_queryable g = true ∧ stale_index g = true) ∧
  (execution_state g = Missing ↔
     has_error i = false ∧ degraded_with_content i = false ∧ graph_built g = false).
Proof.
  cbv zeta. destruct (derive_flags i) as (-> & -> & -> & -> & ->).
  pose proof (built_not_degraded i).
  destruct (has_error i), (built_of i), (pending i); simpl in *;
    destruct (degraded_with_content i); simpl; naive_solver.
Qed.

(** The gate never lets a graph-backed tool claim a full answer from a graph that is
    not current: a diagnostics tool always runs; any other tool is allowed exactly when
    the graph is queryable, or is a degraded build and the tool is a symbol lookup with
    [allow_partial]; and it is allowed as safe to answer exactly when the graph is
    current. *)
Theorem gate_allows_exactly i requirement overrides :
  let g := derive i in let v := check_tool g requirement overrides in
  verdict_execution_state v = execution_state g ∧
  (requirement = Diagnostics → is_allowed v = true) ∧
  (requirement ≠ Diagnostics →
    (is_allowed v = true ↔
       graph_queryable g = true ∨
       has_error i = false ∧ degraded_with_content i = true ∧
       requirement = SymbolLookup ∧ allow_partial overrides = true) ∧
    ((∃ s w, v = Allowed s true w) ↔ graph_current g = true)).
Proof.
  cbv zeta. destruct (derive_flags i) as (_ & -> & _ & -> & Hs).
  unfold check_tool. rewrite Hs. pose proof (built_not_degraded i).
  split_and!.
  - repeat case_match; done.
  - by intros ->.
  - intros Hreq. rewrite bool_decide_eq_false_2 by done.
    destruct (has_error i), (built_of i), (pending i); simpl in *;
      destruct (degraded_with_content i); simpl;
      destruct requirement, overrides as [[] []]; simpl; naive_solver.
Qed.

(** Overrides and tool classes are ordered: granting [allow_partial] never blocks a
    tool, [allow_stale] changes no verdict, and whatever a traversal or analysis is
    allowed a symbol lookup is allowed too, which itself is never more than diagnostics. *)
Theorem gate_monotone g r s1 s2 p :
  check_tool g r (mk_override s1 p) = check_tool g r (mk_override s2 p) ∧
  (is_allowed (check_tool g r (mk_override s1 false)) = true →
   is_allowed (check_tool g r (mk_override s1 true)) = true) ∧
  (is_allowed (check_tool g Traversal (mk_override s1 p)) =
   is_allowed (check_tool g Analysis (mk_override s1 p))) ∧
  (is_allowed (check_tool g Traversal (mk_override s1 p)) = true →
   is_allowed (check_tool g SymbolLookup (mk_override s1 p)) = true) ∧
  is_allowed (check_tool g Diagnostics (mk_override s1 p)) = true.
Proof.
  unfold check_tool. destruct r, (execution_state g), s1, s2, p; simpl; naive_solver.
Qed.

(** [is_ok] is exact: the record reports no error over a built graph exactly when the
    database exists, the graph is fresh and the retrieval index is available. *)
Theorem is_ok_exact i :
  is_ok (derive i) = true ↔
  i_db_exists i = true ∧ execution_state (derive i) = Fresh ∧
  i_retrieval_unavailable i = false.
Proof.
  unfold is_ok. rewrite andb_true_iff, String.eqb_eq.
  replace (error_code (derive i)) with
    (select_graph_health_error_code
       (mk_health_input (i_db_exists i) (graph_built (derive i)) (gr_health_class (derive i))
          (i_build_state i) (i_retrieval_unavailable i))) by reflexivity.
  destruct (derive_flags i) as (-> & _ & _ & _ & ->). rewrite derive_health_class_spec.
  unfold select_graph_health_error_code. health_fields. pose proof (built_not_degraded i) as Hd.
  destruct (i_db_exists i); cbn [negb]; [|intuition congruence].
  destruct (has_error i) eqn:He.
  - destruct (error_health_class i He) as (c & -> & ? & ?). destruct c; intuition congruence.
  - rewrite (clean_health_class i He). unfold built_of in *. rewrite He in *. simpl in *.
    unfold opt_is in *.
    destruct (i_build_state i) as [s|]; simpl.
    + destruct (String.eqb_spec s "building") as [->|]; [destruct (degraded_with_content i); simpl; intuition congruence|].
      destruct (String.eqb_spec s "build_failed") as [->|]; [destruct (degraded_with_content i); simpl; intuition congruence|].
      destruct (String.eqb s "built"), (pending i), (i_retrieval_unavailable i),
        (degraded_with_content i); simpl in *; intuition congruence.
    + destruct (i_graph_has_content i), (pending i), (i_retrieval_unavailable i),
        (degraded_with_content i); simpl in *; intuition congruence.
Qed.

(** A graph that was never built is described as healthy: the record says the graph
    is healthy and up to date, with no suggestion, while the gate blocks it as missing,
    exactly when the database exists, nothing failed, no content is indexed under an
    absent build record (or the record's state is none of the known ones), and no build
    is unfinished. *)
Theorem unbuilt_graph_reported_healthy i :
  execution_state (derive i) = Missing ∧ error_code (derive i) = "none" ↔
  i_db_exists i = true ∧ has_error i = false ∧ built_of i = false ∧
  opt_is (i_build_state i) "degraded" = false ∧
  opt_is (i_build_state i) "building" = false ∧
  opt_is (i_build_state i) "build_failed" = false.
Proof.
  replace (error_code (derive i)) with
    (select_graph_health_error_code
       (mk_health_input (i_db_exists i) (graph_built (derive i)) (gr_health_class (derive i))
          (i_build_state i) (i_retrieval_unavailable i))) by reflexivity.
  destruct (derive_flags i) as (-> & _ & _ & _ & ->). rewrite derive_health_class_spec.
  unfold select_graph_health_error_code, degraded_with_content. health_fields.
  destruct (i_db_exists i); cbn [negb]; [|intuition congruence].
  destruct (has_error i) eqn:He; [intuition congruence|].
  rewrite (clean_health_class i He).
  destruct (opt_is (i_build_state i) "building") eqn:E1; [intuition congruence|].
  destruct (opt_is (i_build_state i) "build_failed") eqn:E2; [intuition congruence|].
  destruct (built_of i), (pending i); simpl;
    destruct (opt_is (i_build_state i) "degraded") eqn:E3; simpl;
    destruct (i_graph_has_content i), (i_retrieval_unavailable i); simpl; intuition congruence.
Qed.

(** A freshly created, empty database shows the last property at work. *)
Definition empty_db_input : GraphReadinessInput :=
  mk_input "/repo" "/repo/.atlas/worldtree.db" true None None None None None None [] 0 false
    None false.

Lemma empty_db_message :
  message (derive empty_db_input) = "Graph is healthy and up-to-date." ∧
  suggestions (derive empty_db_input) = [] ∧
  is_blocked (check_tool (derive empty_db_input) SymbolLookup (mk_override true true)) = true.
Proof. vm_compute. auto. Qed.
