(* ===== verification/RepoPath.v ===== *)
(** * Canonical repo-relative path identity

    Model of [packages/atlas-repo/src/path.rs] and [path/change.rs] on a Unix target
    ([normalize_case] is the identity there). Unicode normalisation ([nfc], the
    unicode-normalization crate) and the file system ([exists], [is_dir], [canonicalize])
    are parameters; [NfcLaws] states what the code relies on of the former. *)

From S2P Require Import Prelude RustStr.

(** ** Errors *)

Inductive RepoPathError :=
| Empty
| RepoRootNotAbsolute (p : string)
| AbsoluteInputNotAbsolute (p : string)
| AbsoluteNotAllowed (p : string)
| NotUnderRepoRoot (repo_root path : string)
| EscapesRepoRoot (p : string)
| TrailingSlash (p : string)
| FilesystemCanonicalize (path message : string)
| NonUtf8Path (p : string)
| PathNotFound (requested : string)
| AmbiguousPath (requested : string) (candidates : list string).

#[global] Instance RepoPathError_eq_dec : EqDecision RepoPathError.
Proof. solve_decision. Defined.

Inductive AbsoluteRole := RepoRoot | InputPath.

Record NormalizedRepoPath := mk_normalized { canonical : string; reason : string }.

#[global] Instance NormalizedRepoPath_eq_dec : EqDecision NormalizedRepoPath.
Proof. solve_decision. Defined.

(** ** Parameters *)

(** Documented behaviour of Unicode normalisation form C: it is idempotent, ASCII
    separators neither combine with their neighbours nor come out of other characters. *)
Class NfcLaws (nfc : string → string) : Prop := {
  nfc_idemp s : nfc (nfc s) = nfc s;
  nfc_slash s t : nfc (s +:+ String slash t) = nfc s +:+ String slash (nfc t);
  nfc_no_slash s : no_char slash s = true → no_char slash (nfc s) = true;
  nfc_no_backslash s : no_char backslash s = true → no_char backslash (nfc s) = true
}.

(** What the code asks of the file system, at one moment. [fs_canonicalize] is
    [std::fs::canonicalize]; a failure carries the operating system's message. *)
Record FileSystem := mk_fs {
  fs_exists : string → bool;
  fs_is_dir : string → bool;
  fs_canonicalize : string → result string string
}.

(** ** Lexical normalisation *)

Definition to_forward_slashes (s : string) : string := replace_char backslash slash s.
Definition normalize_case (s : string) : string := s.

(** A path as the stack of names reached so far, newest first; [None] when [..] leaves
    the top. *)
Fixpoint walk (stack : list string) (cs : list Component) : option (list string) :=
  match cs with
  | [] => Some stack
  | CurDir :: cs => walk stack cs
  | RootDir :: cs => walk stack cs
  | ParentDir :: cs =>
      match stack with
      | [] => None
      | _ :: stack => walk stack cs
      end
  | Normal n :: cs => walk (n :: stack) cs
  end.

Section paths.
Context (nfc : string → string).

Definition normalize_unicode (s : string) : string := nfc s.

Definition normalize_identity (s : string) : string :=
  normalize_case (normalize_unicode (to_forward_slashes s)).

Definition canonicalize_relative (raw : string) : result RepoPathError string :=
  let raw := trim raw in
  if str_is_empty raw then Err Empty
  else
    let slashed := normalize_identity raw in
    if is_absolute slashed then Err (AbsoluteNotAllowed slashed)
    else
      match walk [] (components slashed) with
      | None => Err (EscapesRepoRoot slashed)
      | Some [] => Err Empty
      | Some parts =>
          if ends_with_char slash slashed then Err (TrailingSlash slashed)
          else Ok (normalize_case (join "/" (rev parts)))
      end.

Definition normalize_absolute (path : string) (role : AbsoluteRole) :
    result RepoPathError string :=
  let cased := normalize_identity path in
  if negb (is_absolute cased) then
    Err match role with
        | RepoRoot => RepoRootNotAbsolute path
        | InputPath => AbsoluteInputNotAbsolute path
        end
  else
    match walk [] (components cased) with
    | None => Err (EscapesRepoRoot cased)
    | Some parts => Ok ("/" +:+ join "/" (rev parts))
    end.

Definition canonical_absolute_path (path : string) : result RepoPathError string :=
  normalize_absolute path InputPath.

Definition from_repo_relative (path : string) : result RepoPathError string :=
  canonicalize_relative path.
Definition from_git_diff_path (path : string) : result RepoPathError string :=
  from_repo_relative path.
Definition from_synthetic_path (path : string) : result RepoPathError string :=
  from_repo_relative path.

(** [Path::strip_prefix], for operands without empty or dot segments, where the text of
    the remainder is the join of its components. *)
Fixpoint strip_components (pre cs : list Component) : option (list Component) :=
  match pre, cs with
  | [], _ => Some cs
  | RootDir :: pre, RootDir :: cs => strip_components pre cs
  | CurDir :: pre, CurDir :: cs => strip_components pre cs
  | ParentDir :: pre, ParentDir :: cs => strip_components pre cs
  | Normal n :: pre, Normal m :: cs =>
      if String.eqb n m then strip_components pre cs else None
  | _, _ => None
  end.

Definition component_text (c : Component) : string :=
  match c with
  | RootDir => ""
  | CurDir => "."
  | ParentDir => ".."
  | Normal n => n
  end.

Definition path_strip_prefix (path base : string) : option string :=
  (λ cs, join "/" (map component_text cs)) <$>
    strip_components (components base) (components path).

Definition from_absolute_path (repo_root abs_path : string) : result RepoPathError string :=
  canonical_root <-? normalize_absolute repo_root RepoRoot;;
  canonical_abs <-? normalize_absolute abs_path InputPath;;
  match path_strip_prefix canonical_abs canonical_root with
  | None => Err (NotUnderRepoRoot canonical_root canonical_abs)
  | Some relative => from_repo_relative relative
  end.

(** ** Boundary resolution against the file system *)

Context (fs : FileSystem).

(** The loop of [canonicalize_existing_ancestor] over an absolute path without empty or
    dot segments, given as its names, last first: drop names until the rest exists. *)
Fixpoint existing_ancestor (path : string) (names : list string) (suffix : list string) :
    result RepoPathError (string * list string) :=
  let existing := "/" +:+ join "/" (rev names) in
  if fs_exists fs existing then Ok (existing, suffix)
  else
    match names with
    | [] => Err (FilesystemCanonicalize path "no existing ancestor was found")
    | name :: names => existing_ancestor path names (suffix ++ [name])
    end.

Definition normal_names (cs : list Component) : list string :=
  omap (λ c, match c with Normal n => Some n | _ => None end) cs.

Definition canonicalize_existing_ancestor (path : string) : result RepoPathError string :=
  found <-? existing_ancestor path (rev (normal_names (components path))) [];;
  match fs_canonicalize fs (fst found) with
  | Err message => Err (FilesystemCanonicalize (fst found) message)
  | Ok canonical => Ok (foldl path_join canonical (rev (snd found)))
  end.

Definition canonical_filesystem_path (path : string) : result RepoPathError string :=
  normalized <-? canonical_absolute_path path;;
  canonical <-? canonicalize_existing_ancestor normalized;;
  if valid_utf8 canonical then canonical_absolute_path canonical
  else Err (NonUtf8Path canonical).

Definition from_boundary_input (repo_root path : string) : result RepoPathError string :=
  let absolute := if is_absolute path then path else path_join repo_root path in
  match canonical_filesystem_path repo_root, canonical_filesystem_path absolute with
  | Ok physical_root, Ok physical_path => from_absolute_path physical_root physical_path
  | _, _ =>
      if is_absolute path then from_absolute_path repo_root path
      else from_repo_relative path
  end.

Definition from_watch_event_path (repo_root path : string) : result RepoPathError string :=
  from_boundary_input repo_root path.
Definition from_cli_argument (repo_root path : string) : result RepoPathError string :=
  from_boundary_input repo_root path.

Definition repo_relative (repo_root abs_path : string) : result RepoPathError string :=
  from_absolute_path repo_root abs_path.

Definition nonempty_segments (s : string) : list string :=
  filter (λ seg, str_is_empty seg = false) (split_char slash s).

Definition opt_eqb (o : option string) (s : string) : bool :=
  match o with Some t => String.eqb t s | None => false end.

(** One iteration of the prefix-stripping loop. *)
Definition strip_step (repo_root repo_name : string) (segments : list string)
    (candidates : list (string * string)) (strip_count : nat) : list (string * string) :=
  let tail := join "/" (drop strip_count segments) in
  if str_is_empty tail then candidates
  else
    match from_repo_relative tail with
    | Err _ => candidates
    | Ok canonical =>
        if negb (fs_exists fs (path_join repo_root canonical)) then candidates
        else
          let reason :=
            if (strip_count =? 1)%nat && opt_eqb (head segments) repo_name
            then "stripped_duplicated_root_prefix"
            else if (strip_count =? 1)%nat then "stripped_foreign_root_prefix"
            else "stripped_nested_subdir_prefix" in
          if existsb (λ c, String.eqb (fst c) canonical) candidates then candidates
          else candidates ++ [(canonical, reason)]
    end.

Definition candidate_cmp : string * string → string * string → comparison :=
  cmp_lex (cmp_on fst String.compare) (cmp_on snd String.compare).

Definition strip_candidates (repo_root repo_name : string) (segments : list string) :
    list (string * string) :=
  foldl (strip_step repo_root repo_name segments) [] (seq 1 (length segments - 1)).

(** The direct reading: the input itself names an existing file. *)
Definition direct_candidate (repo_root normalized : string) : option string :=
  match from_repo_relative normalized with
  | Ok canonical =>
      if fs_exists fs (path_join repo_root canonical) then Some canonical else None
  | Err _ => None
  end.

Definition normalize_repo_file_path (repo_root raw : string) :
    result RepoPathError NormalizedRepoPath :=
  let trimmed := trim raw in
  if str_is_empty trimmed then Err Empty
  else
    let normalized := replace_char backslash slash trimmed in
    if is_absolute normalized then
      canonical <-? from_cli_argument repo_root normalized;;
      Ok (mk_normalized canonical "absolute")
    else
      match direct_candidate repo_root normalized with
      | Some canonical => Ok (mk_normalized canonical "direct")
      | None =>
          let repo_name := default "" (file_name repo_root) in
          let candidates :=
            strip_candidates repo_root repo_name (nonempty_segments normalized) in
          match candidates with
          | [(path, reason)] => Ok (mk_normalized path reason)
          | [] => Err (PathNotFound trimmed)
          | _ => Err (AmbiguousPath trimmed (map fst (sort_by candidate_cmp candidates)))
          end
      end.

(** ** Change workflows: paths that may be gone ([path/change.rs]) *)

Definition segments_equal (left right : string) : bool :=
  String.eqb (normalize_identity left) (normalize_identity right).

Definition missing_path_from_segments (repo_root : string) (segments : list string)
    (reason : string) : result RepoPathError NormalizedRepoPath :=
  canonical <-? from_cli_argument repo_root (join "/" segments);;
  Ok (mk_normalized canonical reason).

Definition ancestor_chain_suffix (repo_root : string) (leading : list string) : bool :=
  if bool_decide (leading = []) then false
  else
    match path_parent repo_root with
    | None => false
    | Some parent =>
        let parent_parts := normal_names (components parent) in
        if (length parent_parts <? length leading)%nat then false
        else
          let start := (length parent_parts - length leading)%nat in
          forallb (λ p, segments_equal (fst p) (snd p)) (zip (drop start parent_parts) leading)
    end.

(** First index in [1, len - 1) whose segment is the repository's name behind a suffix of
    the root's ancestor chain. *)
Definition embedded_root_index (repo_root repo_name : string) (segments : list string) :
    option nat :=
  find (λ index,
    match segments !! index with
    | Some segment =>
        segments_equal segment repo_name && ancestor_chain_suffix repo_root (take index segments)
    | None => false
    end) (seq 1 (length segments - 2)).

Definition resolve_missing_change_path (repo_root raw : string) :
    result RepoPathError NormalizedRepoPath :=
  let normalized := replace_char backslash slash (trim raw) in
  if str_is_empty normalized then Err Empty
  else if is_absolute normalized then
    missing_path_from_segments repo_root (nonempty_segments normalized) "missing_path"
  else if ends_with_char slash normalized then Err (TrailingSlash normalized)
  else
    match nonempty_segments normalized with
    | [] => Err Empty
    | first :: rest =>
        let segments := first :: rest in
        let repo_name := default "" (file_name repo_root) in
        let first_segment_is_dir := fs_is_dir fs (path_join repo_root first) in
        if (1 <? length segments)%nat && segments_equal first repo_name
           && negb first_segment_is_dir
        then missing_path_from_segments repo_root rest
               "missing_path_stripped_duplicated_root_prefix"
        else
          match (if first_segment_is_dir then None
                 else embedded_root_index repo_root repo_name segments) with
          | Some index =>
              missing_path_from_segments repo_root (drop (S index) segments)
                "missing_path_stripped_embedded_root_prefix"
          | None => missing_path_from_segments repo_root segments "missing_path"
          end
    end.

Definition normalize_repo_change_path (repo_root raw : string) :
    result RepoPathError NormalizedRepoPath :=
  match normalize_repo_file_path repo_root raw with
  | Ok resolved => Ok resolved
  | Err (PathNotFound _) => resolve_missing_change_path repo_root raw
  | Err other => Err other
  end.

Definition missing_candidate_step (repo_root : string) (segments : list string)
    (candidates : list NormalizedRepoPath) (strip_count : nat) : list NormalizedRepoPath :=
  match from_cli_argument repo_root (join "/" (drop strip_count segments)) with
  | Err _ => candidates
  | Ok path =>
      if existsb (λ c, String.eqb (canonical c) path) candidates then candidates
      else
        candidates ++
          [mk_normalized path
             (if (strip_count =? 1)%nat then "missing_path_stripped_foreign_root_prefix"
              else "missing_path_stripped_nested_subdir_prefix")]
  end.

Definition missing_change_path_candidates (repo_root raw : string) : list NormalizedRepoPath :=
  let normalized := replace_char backslash slash (trim raw) in
  if str_is_empty normalized || is_absolute normalized then []
  else
    let segments := nonempty_segments normalized in
    foldl (missing_candidate_step repo_root segments) [] (seq 1 (length segments - 1)).

End paths.

(** ** Lemmas: names, components and walks *)

(** A name that is one ordinary path segment. *)
Definition good_name (n : string) : bool :=
  negb (String.eqb n "") && negb (String.eqb n ".") && negb (String.eqb n "..")
  && no_char slash n.

(** A canonical repo-relative path: one or more ordinary names joined by slashes, without
    backslashes and in normal form. *)
Definition canonical_form (nfc : string → string) (p : string) : Prop :=
  ∃ names, names ≠ [] ∧ Forall (λ n, good_name n = true) names ∧ p = join "/" names ∧
           no_char backslash p = true ∧ nfc p = p.

Lemma good_name_spec n :
  good_name n = true ↔ n ≠ "" ∧ n ≠ "." ∧ n ≠ ".." ∧ no_char slash n = true.
Proof.
  unfold good_name. rewrite !andb_true_iff, !negb_true_iff, !String.eqb_neq. tauto.
Qed.

Lemma segment_component_good n : good_name n = true → segment_component n = [Normal n].
Proof.
  intros (H1 & H2 & H3 & _)%good_name_spec. unfold segment_component.
  by destruct (String.eqb_spec n ""), (String.eqb_spec n "."), (String.eqb_spec n "..").
Qed.

Lemma segment_components_good names :
  Forall (λ n, good_name n = true) names → mbind segment_component names = map Normal names.
Proof.
  induction 1 as [|n names Hn _ IH]; [done|]. cbn.
  rewrite segment_component_good by done. simpl. f_equal. exact IH.
Qed.

Lemma good_no_slash names :
  Forall (λ n, good_name n = true) names → Forall (λ n, no_char slash n = true) names.
Proof.
  intros H. eapply Forall_impl; [exact H|]. by intros n (_ & _ & _ & ?)%good_name_spec.
Qed.

Lemma good_not_absolute names :
  names ≠ [] → Forall (λ n, good_name n = true) names → is_absolute (join "/" names) = false.
Proof.
  intros Hne Hg. destruct Hg as [|n names (Hn & _ & _ & Hs)%good_name_spec Hg]; [done|].
  destruct n as [|a n]; [done|].
  unfold no_char in Hs. cbn in Hs. apply andb_true_iff in Hs as [Ha _].
  apply negb_true_iff in Ha.
  destruct (decide (names = [])) as [->|]; [done|]. by rewrite join_cons.
Qed.

Lemma components_join names :
  names ≠ [] → Forall (λ n, good_name n = true) names →
  components (join "/" names) = map Normal names.
Proof.
  intros Hne Hg. unfold components. rewrite good_not_absolute by done.
  unfold slash. rewrite split_join by auto using good_no_slash.
  destruct Hg as [|n names Hn Hg]; [done|].
  destruct (String.eqb_spec n ".") as [->|]; [done|].
  rewrite segment_component_good, segment_components_good by done. done.
Qed.

Lemma components_absolute_join names :
  Forall (λ n, good_name n = true) names →
  components ("/" +:+ join "/" names) = RootDir :: map Normal names.
Proof.
  intros Hg. unfold components. simpl is_absolute.
  replace ("/" +:+ join "/" names) with ("" +:+ String slash (join "/" names)) by done.
  rewrite split_char_app by done. cbn. f_equal.
  destruct (decide (names = [])) as [->|Hne]; [done|].
  unfold slash. rewrite split_join by auto using good_no_slash.
  by apply segment_components_good.
Qed.

Lemma segment_component_names seg n :
  Normal n ∈ segment_component seg → no_char slash seg = true → n = seg ∧ good_name n = true.
Proof.
  unfold segment_component.
  destruct (String.eqb_spec seg ""); [by intros ?%elem_of_nil|].
  destruct (String.eqb_spec seg "."); [by intros ?%elem_of_nil|].
  destruct (String.eqb_spec seg ".."); [by intros ?%list_elem_of_singleton|].
  intros [= ->]%list_elem_of_singleton ?. split; [done|]. by apply good_name_spec.
Qed.

Lemma components_names p n :
  Normal n ∈ components p → n ∈ split_char slash p ∧ good_name n = true.
Proof.
  pose proof (split_char_no_char slash p) as Hns. rewrite Forall_forall in Hns.
  assert (∀ segs, (∀ x, x ∈ segs → no_char slash x = true) →
    Normal n ∈ mbind segment_component segs → n ∈ segs ∧ good_name n = true) as Hb.
  { intros segs Hs (seg & Hn & Hseg)%list_elem_of_bind.
    apply segment_component_names in Hn as [-> ?]; auto. }
  unfold components. destruct (is_absolute p).
  - intros [?|?]%elem_of_cons; [done|]. by apply Hb.
  - destruct (split_char slash p) as [|seg segs]; [by intros ?%elem_of_nil|].
    intros [Hn|Hn]%elem_of_app.
    + destruct (String.eqb seg "."); [by apply list_elem_of_singleton in Hn|].
      apply segment_component_names in Hn as [-> ?]; [|apply Hns; constructor].
      split; [constructor|done].
    + apply Hb in Hn as [??]; [|intros; apply Hns; by constructor].
      split; [by constructor|done].
Qed.

Lemma walk_app stack base cs st :
  walk stack cs = Some st → walk (stack ++ base) cs = Some (st ++ base).
Proof.
  revert stack. induction cs as [|c cs IH]; intros stack; simpl.
  { by intros [= ->]. }
  destruct c as [| | |n]; auto.
  - destruct stack; [done|]. simpl. auto.
  - apply (IH (n :: stack)).
Qed.

Lemma walk_normal stack names : walk stack (map Normal names) = Some (rev names ++ stack).
Proof.
  revert stack. induction names as [|n names IH]; intros stack; simpl; [done|].
  rewrite IH. by rewrite <-app_assoc.
Qed.

Lemma walk_names (P : string → Prop) stack cs st :
  walk stack cs = Some st → Forall P stack → (∀ n, Normal n ∈ cs → P n) → Forall P st.
Proof.
  revert stack. induction cs as [|c cs IH]; intros stack; simpl.
  { by intros [= ->]. }
  intros Hw Hst Hcs.
  assert (∀ n, Normal n ∈ cs → P n) by (intros; apply Hcs; by constructor).
  destruct c as [| | |n]; eauto.
  - destruct stack; [done|]. apply Forall_cons in Hst as [??]. eauto.
  - eapply IH; eauto. constructor; [apply Hcs; constructor|done].
Qed.

Lemma split_char_cons c a s :
  split_char c (String a s) =
  if Ascii.eqb a c then "" :: split_char c s
  else match split_char c s with
       | [] => [String a ""]
       | w :: ws => String a w :: ws
       end.
Proof. done. Qed.

Lemma ends_with_char_split c s :
  ends_with_char c s = true → last (split_char c s) = Some "".
Proof.
  unfold ends_with_char. induction s as [|a s IH]; [done|].
  destruct s as [|b s].
  { simpl. intros ->. done. }
  intros H. specialize (IH H). rewrite split_char_cons.
  pose proof (split_char_cons c b s) as E.
  destruct (split_char c (String b s)) as [|w ws]; [done|].
  destruct (Ascii.eqb a c); [done|].
  destruct ws as [|w' ws]; [|done]. exfalso. simpl in IH. simplify_eq.
  destruct (Ascii.eqb b c); [by simplify_eq; apply (split_char_ne c s)|].
  by destruct (split_char c s).
Qed.

Lemma ends_with_slash_join names :
  names ≠ [] → Forall (λ n, good_name n = true) names →
  ends_with_char slash (join "/" names) = false.
Proof.
  intros Hne Hg. destruct (ends_with_char slash _) eqn:E; [|done]. exfalso.
  apply ends_with_char_split in E. unfold slash in E.
  rewrite split_join in E by auto using good_no_slash.
  apply last_Some_elem_of in E. rewrite Forall_forall in Hg. by specialize (Hg _ E).
Qed.

Lemma join_good_not_empty names :
  names ≠ [] → Forall (λ n, good_name n = true) names → str_is_empty (join "/" names) = false.
Proof.
  intros Hne Hg. destruct Hg as [|n names (Hn & _)%good_name_spec Hg]; [done|].
  destruct n as [|a n]; [done|].
  destruct (decide (names = [])) as [->|]; [done|]. by rewrite join_cons.
Qed.

Lemma no_char_join_inv c d ws :
  no_char c (join (String d "") ws) = true → Forall (λ w, no_char c w = true) ws.
Proof.
  induction ws as [|w ws IH]; [constructor|].
  destruct (decide (ws = [])) as [->|]; [by repeat constructor|].
  rewrite join_cons by done. unfold no_char in *. rewrite !str_forall_app.
  intros [Hw [_ Hws]%andb_true_iff]%andb_true_iff. constructor; auto.
Qed.

Lemma walk_components_good p st :
  walk [] (components p) = Some st → Forall (λ n, good_name n = true) st.
Proof.
  intros Hw. eapply walk_names in Hw; [exact Hw|constructor|].
  by intros n [_ ?]%components_names.
Qed.

Lemma walk_components_segments p st :
  walk [] (components p) = Some st → Forall (λ n, n ∈ split_char slash p) st.
Proof.
  intros Hw. eapply walk_names in Hw; [exact Hw|constructor|].
  by intros n [? _]%components_names.
Qed.

Lemma existsb_key {A} (key : A → string) (l : list A) (k : string) :
  existsb (λ c, String.eqb (key c) k) l = true ↔ k ∈ map key l.
Proof.
  rewrite existsb_exists. setoid_rewrite String.eqb_eq. rewrite list_elem_of_In, in_map_iff.
  firstorder.
Qed.

(** ** Lemmas: normalisation *)

Section laws.
Context (nfc : string → string) `{!NfcLaws nfc}.

Lemma nfc_join ws : ws ≠ [] → nfc (join "/" ws) = join "/" (map nfc ws).
Proof.
  intros Hne. induction ws as [|w ws IH]; [done|]. clear Hne.
  destruct (decide (ws = [])) as [->|]; [done|]. cbn [map].
  rewrite !join_cons by (by destruct ws).
  change (w +:+ "/" +:+ join "/" ws) with (w +:+ String slash (join "/" ws)).
  rewrite nfc_slash, IH by done. done.
Qed.

(** The segments of a normalised text are normalised one by one. *)
Lemma nfc_segments s : nfc s = s → Forall (λ w, nfc w = w) (split_char slash s).
Proof.
  intros Hs. pose proof (split_char_no_char slash s) as Hns.
  assert (split_char slash s = map nfc (split_char slash s)) as E.
  { rewrite <-(split_join slash (map nfc (split_char slash s))).
    - change (String slash "") with "/". rewrite <-nfc_join by apply split_char_ne.
      change "/" with (String slash ""). by rewrite join_split, Hs.
    - pose proof (split_char_ne slash s). by destruct (split_char slash s).
    - apply Forall_map. eapply Forall_impl; [exact Hns|]. intros w. apply nfc_no_slash. }
  clear Hns Hs. induction (split_char slash s) as [|w ws IH]; [constructor|].
  simpl in E. injection E as Hw Hws. by constructor; auto.
Qed.

Lemma normalize_identity_stable s : nfc (normalize_identity nfc s) = normalize_identity nfc s.
Proof. unfold normalize_identity, normalize_case, normalize_unicode. apply nfc_idemp. Qed.

Lemma normalize_identity_no_backslash s :
  no_char backslash (normalize_identity nfc s) = true.
Proof.
  unfold normalize_identity, normalize_case, normalize_unicode.
  apply nfc_no_backslash. by apply replace_char_no_char.
Qed.

Lemma normalize_identity_id s :
  no_char backslash s = true → nfc s = s → normalize_identity nfc s = s.
Proof.
  intros Hb Hn. unfold normalize_identity, normalize_case, normalize_unicode, to_forward_slashes.
  by rewrite replace_char_id.
Qed.

(** The names left by a walk over a normalised text form a canonical path. *)
Lemma walk_canonical raw st :
  walk [] (components (normalize_identity nfc raw)) = Some st →
  Forall (λ n, good_name n = true ∧ no_char backslash n = true ∧ nfc n = n) st.
Proof.
  intros Hw. pose proof (walk_components_good _ _ Hw) as Hg.
  pose proof (walk_components_segments _ _ Hw) as Hs.
  pose proof (nfc_segments _ (normalize_identity_stable raw)) as Hn.
  pose proof (no_char_split backslash slash _ (normalize_identity_no_backslash raw)) as Hb.
  rewrite !Forall_forall in *. intros n Hin. auto.
Qed.

Lemma canonical_form_intro names :
  names ≠ [] →
  Forall (λ n, good_name n = true ∧ no_char backslash n = true ∧ nfc n = n) names →
  canonical_form nfc (join "/" names).
Proof.
  intros Hne Hg. apply Forall_and in Hg as [Hg [Hb Hn]%Forall_and].
  exists names. split_and!; auto.
  - by apply (no_char_join backslash slash).
  - rewrite nfc_join by done. f_equal. clear -Hn. induction Hn; simpl; congruence.
Qed.

Lemma canonicalize_relative_inv raw p :
  canonicalize_relative nfc raw = Ok p →
  ∃ names, names ≠ [] ∧ p = join "/" names ∧
    Forall (λ n, good_name n = true ∧ no_char backslash n = true ∧ nfc n = n) names ∧
    walk [] (components (normalize_identity nfc (trim raw))) = Some (rev names).
Proof.
  unfold canonicalize_relative. destruct (str_is_empty _); [done|].
  destruct (is_absolute _); [done|].
  destruct (walk [] _) as [parts|] eqn:Hw; [|done].
  destruct parts as [|n parts]; [done|]. destruct (ends_with_char _ _); [done|].
  intros [= <-]. exists (rev (n :: parts)). split_and!.
  - intros E. apply (f_equal length) in E. by rewrite length_rev in E.
  - done.
  - apply Forall_rev. by apply walk_canonical in Hw.
  - by rewrite rev_involutive.
Qed.

Lemma canonicalize_relative_canonical raw p :
  canonicalize_relative nfc raw = Ok p → canonical_form nfc p.
Proof.
  intros (names & ? & -> & ? & _)%canonicalize_relative_inv. by apply canonical_form_intro.
Qed.

Lemma canonicalize_relative_join names :
  names ≠ [] → Forall (λ n, good_name n = true) names →
  no_char backslash (join "/" names) = true → nfc (join "/" names) = join "/" names →
  trim (join "/" names) = join "/" names →
  canonicalize_relative nfc (join "/" names) = Ok (join "/" names).
Proof.
  intros Hne Hg Hb Hn Ht. unfold canonicalize_relative.
  rewrite Ht, join_good_not_empty by done.
  rewrite normalize_identity_id by done.
  rewrite good_not_absolute, components_join, walk_normal by done.
  rewrite app_nil_r. destruct (rev names) as [|n parts] eqn:E.
  { apply (f_equal (@rev string)) in E. by rewrite rev_involutive in E. }
  rewrite ends_with_slash_join, <-E by done. by rewrite rev_involutive.
Qed.

Lemma normalize_absolute_inv path role r :
  normalize_absolute nfc path role = Ok r →
  ∃ names, r = "/" +:+ join "/" names ∧
    Forall (λ n, good_name n = true ∧ no_char backslash n = true ∧ nfc n = n) names.
Proof.
  unfold normalize_absolute. destruct (negb _); [done|].
  destruct (walk [] _) as [parts|] eqn:Hw; [|done]. intros [= <-].
  exists (rev parts). split; [done|]. apply Forall_rev. by apply walk_canonical in Hw.
Qed.

Lemma from_absolute_path_canonical root abs p :
  from_absolute_path nfc root abs = Ok p → canonical_form nfc p.
Proof.
  unfold from_absolute_path. intros (r & _ & (a & _ & H)%res_bind_ok)%res_bind_ok.
  destruct (path_strip_prefix a r); [|done]. by eapply canonicalize_relative_canonical.
Qed.

Lemma from_boundary_input_canonical fs root path p :
  from_boundary_input nfc fs root path = Ok p → canonical_form nfc p.
Proof.
  unfold from_boundary_input. intros H.
  repeat case_match; eauto using from_absolute_path_canonical, canonicalize_relative_canonical.
Qed.

Lemma strip_components_names rn an cs :
  strip_components (map Normal rn) (map Normal an) = Some cs ↔
  ∃ rel, an = rn ++ rel ∧ cs = map Normal rel.
Proof.
  revert an. induction rn as [|n rn IH]; intros an; simpl.
  { split; [intros [= <-]; by exists an|]. by intros (rel & -> & ->). }
  destruct an as [|m an]; simpl; [by split; [|intros (? & ? & _)]|].
  destruct (String.eqb_spec n m) as [->|Hne].
  - rewrite IH. split; intros (rel & Heq & ->); exists rel; [by rewrite Heq|].
    by injection Heq as ->.
  - split; [done|]. intros (? & [= -> _] & _). done.
Qed.

Lemma path_strip_prefix_names rn an :
  Forall (λ n, good_name n = true) rn → Forall (λ n, good_name n = true) an →
  (∀ rel, an = rn ++ rel →
     path_strip_prefix ("/" +:+ join "/" an) ("/" +:+ join "/" rn) = Some (join "/" rel)) ∧
  ((∀ rel, an ≠ rn ++ rel) →
     path_strip_prefix ("/" +:+ join "/" an) ("/" +:+ join "/" rn) = None).
Proof.
  intros Hr Ha. unfold path_strip_prefix. rewrite !components_absolute_join by done.
  simpl strip_components. split.
  - intros rel ->. destruct (strip_components_names rn (rn ++ rel) (map Normal rel)) as [_ ->].
    + simpl. do 2 f_equal. rewrite map_map. apply map_id.
    + by exists rel.
  - intros Hn. destruct (strip_components _ _) as [cs|] eqn:E; [|done].
    apply strip_components_names in E as (rel & ? & _). by destruct (Hn rel).
Qed.

End laws.

(** ** Properties *)

(** C20. A successful canonicalisation yields a canonical path that names the same place as
    the input: from any directory, following the (trimmed, slash- and Unicode-normalised)
    input and following the result lead to the same place; and it never leaves that
    directory. *)
Theorem canonical_path_same_location (nfc : string → string) `{!NfcLaws nfc} (raw p : string) :
  canonicalize_relative nfc raw = Ok p →
  canonical_form nfc p ∧
  ∀ dir, ∃ names, names ≠ [] ∧
    walk dir (components (normalize_identity nfc (trim raw))) = Some (names ++ dir) ∧
    walk dir (components p) = Some (names ++ dir).
Proof.
  intros H. split; [by eapply canonicalize_relative_canonical|]. intros dir.
  apply canonicalize_relative_inv in H as (names & Hne & -> & Hg & Hw); [|done].
  apply (walk_app _ dir) in Hw. exists (rev names). split_and!; [|done|].
  - intros E. apply (f_equal length) in E. rewrite length_rev in E. by destruct names.
  - rewrite components_join; [by rewrite walk_normal|done|].
    eapply Forall_impl; [exact Hg|]. by intros n [? _].
Qed.

(** Canonicalisation is the identity on its own results, unless the result begins or
    ends with white space. *)
Theorem canonicalize_relative_idempotent (nfc : string → string) `{!NfcLaws nfc} (raw p : string) :
  canonicalize_relative nfc raw = Ok p → trim p = p → canonicalize_relative nfc p = Ok p.
Proof.
  intros (names & Hne & Hg & -> & Hb & Hn)%canonicalize_relative_canonical Ht; [|done].
  by apply canonicalize_relative_join.
Qed.

#[global] Instance nfc_identity : NfcLaws (λ s, s).
Proof. split; done. Qed.

(** A file whose name begins with a space loses it: the result of the canonicalisation
    names another file when it is canonicalised again. *)
Example leading_space_lost :
  canonicalize_relative (λ s, s) "./ b" = Ok " b" ∧
  canonicalize_relative (λ s, s) " b" = Ok "b" ∧
  from_absolute_path (λ s, s) "/repo" "/repo/ b" = Ok "b".
Proof. by vm_compute. Qed.

(** Relative identity of an absolute path: once both paths are normalised, with the
    root [r] and the path [a] as sequences of names, a path strictly below the root gets
    the remaining names, the root itself is rejected as empty and every other path is
    rejected with both normalised paths in the error. *)
Theorem from_absolute_path_spec (nfc : string → string) `{!NfcLaws nfc} (root abs r a : string) :
  normalize_absolute nfc root RepoRoot = Ok r →
  normalize_absolute nfc abs InputPath = Ok a →
  ∃ root_names names,
    r = "/" +:+ join "/" root_names ∧ a = "/" +:+ join "/" names ∧
    (∀ rel, names = root_names ++ rel → rel ≠ [] → trim (join "/" rel) = join "/" rel →
       from_absolute_path nfc root abs = Ok (join "/" rel)) ∧
    (names = root_names → from_absolute_path nfc root abs = Err Empty) ∧
    ((∀ rel, names ≠ root_names ++ rel) →
       from_absolute_path nfc root abs = Err (NotUnderRepoRoot r a)).
Proof.
  intros Hr Ha. unfold from_absolute_path. rewrite Hr, Ha. cbn.
  apply normalize_absolute_inv in Hr as (rn & -> & Hrn), Ha as (an & -> & Han); [|done..].
  assert (∀ l, Forall (λ n, good_name n = true ∧ no_char backslash n = true ∧ nfc n = n) l →
    Forall (λ n, good_name n = true) l) as Hgood.
  { intros l Hl. eapply Forall_impl; [exact Hl|]. by intros n [? _]. }
  destruct (path_strip_prefix_names rn an) as [Hyes Hno]; [by auto..|].
  exists rn, an. split_and!; [done..| | |].
  - intros rel -> Hne Ht. rewrite (Hyes rel) by done. unfold from_repo_relative.
    apply Forall_app in Han as [_ Hrel].
    destruct (canonical_form_intro nfc rel) as (l & ? & ? & E & ? & ?); [done..|].
    rewrite E in *. by apply canonicalize_relative_join.
  - intros ->. rewrite (Hyes []) by (by rewrite app_nil_r). done.
  - intros Hn. by rewrite (Hno Hn).
Qed.

(** ** Properties of the boundary resolution *)

Section boundary.
Context (nfc : string → string) (fs : FileSystem).

(** A reading of the input: the canonical form of one of its proper tails, where it names
    a file that exists below the root. *)
Definition strip_reading (root : string) (segments : list string) (k : nat) :
    option (string * string) :=
  match from_repo_relative nfc (join "/" (drop k segments)) with
  | Ok p =>
      if fs_exists fs (path_join root p)
      then Some (p, if (k =? 1)%nat && opt_eqb (head segments) (default "" (file_name root))
                    then "stripped_duplicated_root_prefix"
                    else if (k =? 1)%nat then "stripped_foreign_root_prefix"
                    else "stripped_nested_subdir_prefix")
      else None
  | Err _ => None
  end.

Definition existing_tail (root : string) (segments : list string) (p : string) : Prop :=
  ∃ k, (1 ≤ k < length segments)%nat ∧
    from_repo_relative nfc (join "/" (drop k segments)) = Ok p ∧
    fs_exists fs (path_join root p) = true.

Lemma strip_step_spec root segments acc k :
  match strip_reading root segments k with
  | None => strip_step nfc fs root (default "" (file_name root)) segments acc k = acc
  | Some c => (fst c ∈ map fst acc ∧
                 strip_step nfc fs root (default "" (file_name root)) segments acc k = acc) ∨
              ((fst c ∉ map fst acc) ∧
                 strip_step nfc fs root (default "" (file_name root)) segments acc k = acc ++ [c])
  end.
Proof.
  unfold strip_reading, strip_step.
  destruct (str_is_empty (join "/" (drop k segments))) eqn:Ee.
  { apply str_is_empty_iff in Ee. rewrite Ee. done. }
  destruct (from_repo_relative nfc _) as [p|e]; [|done].
  destruct (fs_exists fs (path_join root p)); simpl; [|done].
  pose proof (existsb_key fst acc p) as Hk.
  destruct (existsb _ acc).
  - left. split; [by apply Hk|done].
  - right. split; [|done]. intros ?%Hk. done.
Qed.

Lemma strip_candidates_keys root segments p :
  p ∈ map fst (strip_candidates nfc fs root (default "" (file_name root)) segments) ↔
  existing_tail root segments p.
Proof.
  unfold strip_candidates. rewrite (push_new_keys _ _ _ (strip_step_spec root segments)).
  unfold existing_tail, strip_reading. split.
  - intros [Hn|(k & c & Hk%elem_of_seq & Hc & <-)]; [by apply elem_of_nil in Hn|].
    exists k. split; [lia|].
    destruct (from_repo_relative nfc _) as [q|]; [|done].
    destruct (fs_exists fs _) eqn:E; [|done]. by simplify_eq.
  - intros (k & Hk & Hp & He). right. eexists k, _. split; [apply elem_of_seq; lia|].
    rewrite Hp, He. done.
Qed.

Lemma strip_candidates_NoDup root segments :
  NoDup (map fst (strip_candidates nfc fs root (default "" (file_name root)) segments)).
Proof.
  apply (push_new_NoDup _ _ _ (strip_step_spec root segments)). constructor.
Qed.

Lemma candidate_cmp_paths l :
  sorted_by candidate_cmp l → StronglySorted (λ p q, String.compare p q ≠ Gt) (map fst l).
Proof.
  induction 1 as [|c l Hs IH Hc]; simpl; constructor; [done|].
  apply Forall_map. eapply Forall_impl; [exact Hc|]. intros d. cbn.
  unfold leb_of, candidate_cmp, cmp_lex, cmp_on. by destruct (String.compare _ _).
Qed.

Lemma candidate_sort_spec l :
  NoDup (map fst l) →
  NoDup (map fst (sort_by candidate_cmp l)) ∧
  StronglySorted (λ p q, String.compare p q ≠ Gt) (map fst (sort_by candidate_cmp l)) ∧
  ∀ p, p ∈ map fst (sort_by candidate_cmp l) ↔ p ∈ map fst l.
Proof.
  intros Hnd. assert (map fst (sort_by candidate_cmp l) ≡ₚ map fst l) as Hp.
  { apply Permutation_map, sort_by_perm. }
  split_and!; [by rewrite Hp| |intros p; by rewrite Hp].
  apply candidate_cmp_paths, sort_by_sorted. typeclasses eauto.
Qed.

(** Resolving a file path that is not absolute: when the input names an existing file
    it is taken as it is; otherwise the result is decided by the set of proper tails of the
    input that name existing files: not found when there is none, that file when there is
    one, and otherwise an ambiguity error that lists exactly the candidates, sorted and
    each once. *)
Theorem file_path_resolution (root raw : string) :
  str_is_empty (trim raw) = false →
  is_absolute (replace_char backslash slash (trim raw)) = false →
  match direct_candidate nfc fs root (replace_char backslash slash (trim raw)) with
  | Some p => normalize_repo_file_path nfc fs root raw = Ok (mk_normalized p "direct")
  | None =>
      match normalize_repo_file_path nfc fs root raw with
      | Ok r => ∀ p, existing_tail root
                  (nonempty_segments (replace_char backslash slash (trim raw))) p ↔
                p = canonical r
      | Err (PathNotFound requested) =>
          requested = trim raw ∧
          ∀ p, ¬ existing_tail root
                   (nonempty_segments (replace_char backslash slash (trim raw))) p
      | Err (AmbiguousPath requested candidates) =>
          requested = trim raw ∧ (2 ≤ length candidates)%nat ∧ NoDup candidates ∧
          StronglySorted (λ p q, String.compare p q ≠ Gt) candidates ∧
          ∀ p, p ∈ candidates ↔
            existing_tail root (nonempty_segments (replace_char backslash slash (trim raw))) p
      | Err _ => False
      end
  end.
Proof.
  intros He Ha. unfold normalize_repo_file_path. rewrite He, Ha.
  destruct (direct_candidate _ _ _ _) as [p|]; [done|].
  pose proof (strip_candidates_keys root
    (nonempty_segments (replace_char backslash slash (trim raw)))) as Hk.
  pose proof (strip_candidates_NoDup root
    (nonempty_segments (replace_char backslash slash (trim raw)))) as Hnd.
  destruct (strip_candidates _ _ _ _ _) as [|[p r] [|d l]].
  - split; [done|]. intros p Hp%Hk. by apply elem_of_nil in Hp.
  - intros q. rewrite <-Hk. apply list_elem_of_singleton.
  - destruct (candidate_sort_spec _ Hnd) as (Hnd' & Hs & Hp).
    split_and!; [done| |done|done|intros q; by rewrite Hp].
    rewrite length_map, sort_by_perm. simpl. lia.
Qed.

Definition missing_reading (root : string) (segments : list string) (k : nat) :
    option NormalizedRepoPath :=
  match from_cli_argument nfc fs root (join "/" (drop k segments)) with
  | Err _ => None
  | Ok p => Some (mk_normalized p
              (if (k =? 1)%nat then "missing_path_stripped_foreign_root_prefix"
               else "missing_path_stripped_nested_subdir_prefix"))
  end.

Lemma missing_step_spec root segments acc k :
  match missing_reading root segments k with
  | None => missing_candidate_step nfc fs root segments acc k = acc
  | Some c =>
      (canonical c ∈ map canonical acc ∧
         missing_candidate_step nfc fs root segments acc k = acc) ∨
      ((canonical c ∉ map canonical acc) ∧
         missing_candidate_step nfc fs root segments acc k = acc ++ [c])
  end.
Proof.
  unfold missing_reading, missing_candidate_step.
  destruct (from_cli_argument nfc fs root _) as [p|e]; [|done].
  pose proof (existsb_key canonical acc p) as Hk.
  destruct (existsb _ acc).
  - left. split; [by apply Hk|done].
  - right. split; [|done]. intros ?%Hk. done.
Qed.

Lemma missing_candidates_elem root raw r :
  r ∈ missing_change_path_candidates nfc fs root raw →
  ∃ tail, from_cli_argument nfc fs root tail = Ok (canonical r).
Proof.
  unfold missing_change_path_candidates. case_match; [by intros ?%elem_of_nil|].
  intros [?%elem_of_nil|(k & _ & Hc)]%(push_new_elem _ _ _ (missing_step_spec root _)); [done|].
  unfold missing_reading in Hc.
  destruct (from_cli_argument _ _ _ _) eqn:E; simplify_eq. eauto.
Qed.

(** The candidates offered for a missing relative path are the identities of its
    proper tails, each once. *)
Theorem missing_candidates_spec (root raw : string) :
  NoDup (map canonical (missing_change_path_candidates nfc fs root raw)) ∧
  ∀ p, p ∈ map canonical (missing_change_path_candidates nfc fs root raw) ↔
    is_absolute (replace_char backslash slash (trim raw)) = false ∧
    ∃ k, (1 ≤ k < length (nonempty_segments (replace_char backslash slash (trim raw))))%nat ∧
      from_cli_argument nfc fs root
        (join "/" (drop k (nonempty_segments (replace_char backslash slash (trim raw))))) = Ok p.
Proof.
  unfold missing_change_path_candidates.
  set (normalized := replace_char backslash slash (trim raw)).
  destruct (str_is_empty normalized) eqn:Ee; cbn [orb].
  { apply str_is_empty_iff in Ee. rewrite Ee. split; [constructor|]. intros p. simpl.
    split; [by intros ?%elem_of_nil|]. intros (_ & k & Hk & _). simpl in Hk. lia. }
  destruct (is_absolute normalized).
  { split; [constructor|]. intros p. split; [by intros ?%elem_of_nil|by intros []]. }
  split; [apply (push_new_NoDup _ _ _ (missing_step_spec root _)); constructor|].
  intros p. rewrite (push_new_keys _ _ _ (missing_step_spec root _)).
  unfold missing_reading. split.
  - intros [?%elem_of_nil|(k & c & Hk%elem_of_seq & Hc & <-)]; [done|]. split; [done|].
    exists k. split; [lia|]. by destruct (from_cli_argument _ _ _ _); simplify_eq.
  - intros (_ & k & Hk & Hp). right. eexists k, _. split; [apply elem_of_seq; lia|].
    by rewrite Hp.
Qed.

Context `{!NfcLaws nfc}.

Lemma normalize_repo_file_path_canonical root raw r :
  normalize_repo_file_path nfc fs root raw = Ok r → canonical_form nfc (canonical r).
Proof.
  unfold normalize_repo_file_path. destruct (str_is_empty _); [done|].
  destruct (is_absolute _).
  { intros (p & Hp & [= <-])%res_bind_ok. by eapply from_boundary_input_canonical. }
  destruct (direct_candidate _ _ _ _) as [p|] eqn:Hd.
  { intros [= <-]. unfold direct_candidate in Hd. case_match; [|done].
    case_match; [|done]. simplify_eq. by eapply canonicalize_relative_canonical. }
  pose proof (strip_candidates_keys root
    (nonempty_segments (replace_char backslash slash (trim raw)))) as Hk.
  destruct (strip_candidates _ _ _ _ _) as [|[p reason] [|]]; [done| |done].
  intros [= <-]. simpl. destruct (Hk p) as [(k & _ & Hp & _) _]; [constructor|].
  by eapply canonicalize_relative_canonical.
Qed.

Lemma missing_path_canonical root segments reason r :
  missing_path_from_segments nfc fs root segments reason = Ok r →
  canonical_form nfc (canonical r).
Proof.
  intros (p & Hp & [= <-])%res_bind_ok. by eapply from_boundary_input_canonical.
Qed.

(** Every identity that leaves the boundary is canonical, whichever reading, stripped
    prefix or file-system answer it came from. *)
Theorem boundary_paths_canonical (root raw : string) :
  (∀ p, from_cli_argument nfc fs root raw = Ok p → canonical_form nfc p) ∧
  (∀ r, normalize_repo_change_path nfc fs root raw = Ok r → canonical_form nfc (canonical r)) ∧
  (∀ r, r ∈ missing_change_path_candidates nfc fs root raw → canonical_form nfc (canonical r)).
Proof.
  split_and!.
  - intros p Hp. by eapply from_boundary_input_canonical.
  - intros r. unfold normalize_repo_change_path.
    destruct (normalize_repo_file_path nfc fs root raw) as [r'|e] eqn:Hf.
    { intros [= <-]. by eapply normalize_repo_file_path_canonical. }
    intros Hr. destruct e; try done. unfold resolve_missing_change_path in Hr. repeat case_match; try done; by eapply missing_path_canonical.
  - intros r (tail & Ht)%missing_candidates_elem. by eapply from_boundary_input_canonical.
Qed.

End boundary.

(** ** Witnesses *)

(** A repository with one file, without symbolic links. *)
Definition demo_fs : FileSystem :=
  mk_fs (λ p, existsb (String.eqb p) ["/"; "/work"; "/work/repo"; "/work/repo/src/lib.rs"])
        (λ p, existsb (String.eqb p) ["/"; "/work"; "/work/repo"]) (λ p, Ok p).

Lemma canonical_path_same_location_witness :
  canonical_form (λ s, s) "src/lib.rs" ∧
  ∀ dir, ∃ names, names ≠ [] ∧
    walk dir (components (normalize_identity (λ s, s) (trim " src/./gen/../lib.rs"))) =
      Some (names ++ dir) ∧
    walk dir (components "src/lib.rs") = Some (names ++ dir).
Proof.
  apply (canonical_path_same_location (λ s, s) " src/./gen/../lib.rs"). by vm_compute.
Defined.

Lemma canonicalize_relative_idempotent_witness :
  canonicalize_relative (λ s, s) "src\lib.rs" = Ok "src//lib.rs" ∨
  canonicalize_relative (λ s, s) "src/lib.rs" = Ok "src/lib.rs".
Proof.
  right. apply (canonicalize_relative_idempotent (λ s, s) "src\lib.rs"); by vm_compute.
Defined.

Lemma from_absolute_path_spec_witness :
  ∃ root_names names,
    "/work/repo" = "/" +:+ join "/" root_names ∧
    "/work/repo/src/lib.rs" = "/" +:+ join "/" names ∧
    (∀ rel, names = root_names ++ rel → rel ≠ [] → trim (join "/" rel) = join "/" rel →
       from_absolute_path (λ s, s) "/work/./repo" "/work/repo/src/lib.rs" = Ok (join "/" rel)) ∧
    (names = root_names →
       from_absolute_path (λ s, s) "/work/./repo" "/work/repo/src/lib.rs" = Err Empty) ∧
    ((∀ rel, names ≠ root_names ++ rel) →
       from_absolute_path (λ s, s) "/work/./repo" "/work/repo/src/lib.rs" =
       Err (NotUnderRepoRoot "/work/repo" "/work/repo/src/lib.rs")).
Proof.
  apply (from_absolute_path_spec (λ s, s) "/work/./repo" "/work/repo/src/lib.rs");
    by vm_compute.
Defined.

Lemma file_path_resolution_witness :
  normalize_repo_file_path (λ s, s) demo_fs "/work/repo" "repo/src/lib.rs" =
    Ok (mk_normalized "src/lib.rs" "stripped_duplicated_root_prefix") ∧
  match direct_candidate (λ s, s) demo_fs "/work/repo"
          (replace_char backslash slash (trim "repo/src/lib.rs")) with
  | Some p => normalize_repo_file_path (λ s, s) demo_fs "/work/repo" "repo/src/lib.rs" =
              Ok (mk_normalized p "direct")
  | None =>
      match normalize_repo_file_path (λ s, s) demo_fs "/work/repo" "repo/src/lib.rs" with
      | Ok r => ∀ p, existing_tail (λ s, s) demo_fs "/work/repo"
                  (nonempty_segments (replace_char backslash slash (trim "repo/src/lib.rs"))) p ↔
                p = canonical r
      | Err (PathNotFound requested) =>
          requested = trim "repo/src/lib.rs" ∧
          ∀ p, ¬ existing_tail (λ s, s) demo_fs "/work/repo"
                   (nonempty_segments (replace_char backslash slash (trim "repo/src/lib.rs"))) p
      | Err (AmbiguousPath requested candidates) =>
          requested = trim "repo/src/lib.rs" ∧ (2 ≤ length candidates)%nat ∧ NoDup candidates ∧
          StronglySorted (λ p q, String.compare p q ≠ Gt) candidates ∧
          ∀ p, p ∈ candidates ↔
            existing_tail (λ s, s) demo_fs "/work/repo"
              (nonempty_segments (replace_char backslash slash (trim "repo/src/lib.rs"))) p
      | Err _ => False
      end
  end.
Proof.
  split; [by vm_compute|].
  apply (file_path_resolution (λ s, s) demo_fs "/work/repo" "repo/src/lib.rs"); by vm_compute.
Defined.

Lemma boundary_paths_canonical_witness :
  normalize_repo_change_path (λ s, s) demo_fs "/work/repo" "repo/src/gone.rs" =
    Ok (mk_normalized "src/gone.rs" "missing_path_stripped_duplicated_root_prefix") ∧
  ∀ r, normalize_repo_change_path (λ s, s) demo_fs "/work/repo" "repo/src/gone.rs" = Ok r →
    canonical_form (λ s, s) (canonical r).
Proof.
  split; [by vm_compute|].
  apply (boundary_paths_canonical (λ s, s) demo_fs "/work/repo" "repo/src/gone.rs").
Defined.
