(* ===== verification/Scan.v ===== *)
(** * File discovery: globs, ignore rules and the scan of a repository

    Model of [packages/atlas-repo/src/files.rs]: which tracked files of a repository, with
    its submodules, enter the graph. Git, the file system and the predicate of supported
    languages are parameters; what git prints is parsed as the code does it. Texts are bytes,
    as the matcher works on bytes. *)

From S2P Require Import Prelude RustStr RepoPath.

(** ** Constants *)

Definition DEFAULT_MAX_FILE_BYTES : N := (10 * 1024 * 1024)%N.

Definition DEFAULT_IGNORE_PATTERNS : list string :=
  [".atlas"; ".git"; "node_modules"; "vendor"; "dist"; "build"; ".next"; "target"; ".venv";
   "__pycache__"].

Record CollectFilesStats := mk_stats { skipped_unsupported : N; skipped_by_size : N }.

Inductive CheckFileOutcome := Accept | SkipBySize | SkipOther | Disappeared.

(** The errors of the scan; [Failed] carries the message of a git command that failed, was
    not run or printed no UTF-8, or of the file system. *)
Inductive ScanError :=
| Failed (message : string)
| PathError (e : RepoPathError)
| MalformedEntry (entry : string).

Definition lift_path {A} (r : result RepoPathError A) : result ScanError A :=
  match r with Ok x => Ok x | Err e => Err (PathError e) end.

(** [collect::<Result<Vec<_>, _>>]: the first error wins. *)
Fixpoint try_map {E A B} (f : A → result E B) (l : list A) : result E (list B) :=
  match l with
  | [] => Ok []
  | x :: l => y <-? f x;; ys <-? try_map f l;; Ok (y :: ys)
  end.

(** ** Globs *)

Definition star : ascii := "*".
Definition question : ascii := "?".

(** [for i in 0..=text.len()]: some suffix of the text. *)
Fixpoint any_suffix (m : string → bool) (t : string) : bool :=
  m t || match t with EmptyString => false | String _ t => any_suffix m t end.

(** The same, up to the first separator. *)
Fixpoint any_suffix_in_segment (m : string → bool) (t : string) : bool :=
  m t ||
  match t with
  | EmptyString => false
  | String c t => negb (Ascii.eqb c slash) && any_suffix_in_segment m t
  end.

(** [glob_match] and [glob_match_inner]. *)
Fixpoint glob_match (pattern text : string) {struct pattern} : bool :=
  match pattern with
  | EmptyString => str_is_empty text
  | String p rest =>
      if Ascii.eqb p question then
        match text with
        | String c text => negb (Ascii.eqb c slash) && glob_match rest text
        | EmptyString => false
        end
      else if Ascii.eqb p star then
        match rest with
        | String q rest' =>
            if Ascii.eqb q star then
              match rest' with
              | String r rest'' =>
                  if Ascii.eqb r slash then any_suffix (glob_match rest'') text
                  else any_suffix (glob_match rest') text
              | EmptyString => any_suffix (glob_match rest') text
              end
            else any_suffix_in_segment (glob_match rest) text
        | EmptyString => any_suffix_in_segment (glob_match rest) text
        end
      else
        match text with
        | String c text => Ascii.eqb p c && glob_match rest text
        | EmptyString => false
        end
  end.

(** ** Ignore rules *)

Definition ignored_by (path pattern : string) : bool :=
  let pat := trim_end_char slash pattern in
  let trailing_slash := ends_with_char slash pattern in
  if negb (contains "/" pat) then
    glob_match pat path || existsb (glob_match pat) (split_char slash path)
  else if trailing_slash then starts_with (pat +:+ "/") path || glob_match pat path
  else glob_match pat path.

Definition should_ignore (path : string) (patterns : list string) : bool :=
  existsb (ignored_by path) patterns.

(** The content of [.atlasignore], when it can be read. *)
Definition load_atlasignore (content : option string) : list string :=
  match content with
  | None => []
  | Some content =>
      filter (λ l, negb (str_is_empty l) && negb (starts_with "#" l)) (map trim (lines content))
  end.

(** ** The checks of a file *)

(** What the operating system answers about a path. *)
Inductive SymlinkMetadata :=
| Missing
| MetadataError (message : string)
| Metadata (is_symlink is_file : bool) (size : N).

(** The first read of a file: at most 8 KiB. *)
Inductive FirstRead :=
| Vanished
| ReadError (message : string)
| FirstBytes (bytes : string).

Definition nul : ascii := chr 0.

Definition is_binary (bytes : string) : bool := negb (no_char nul bytes).

Section checks.
Context (symlink_metadata : string → SymlinkMetadata) (first_read : string → FirstRead).

Definition check_file (abs : string) (max_bytes : N) : result ScanError CheckFileOutcome :=
  match symlink_metadata abs with
  | Missing => Ok Disappeared
  | MetadataError message => Err (Failed message)
  | Metadata is_symlink is_file size =>
      if is_symlink then Ok SkipOther
      else if negb is_file then Ok SkipOther
      else if (max_bytes <? size)%N then Ok SkipBySize
      else
        match first_read abs with
        | FirstBytes bytes => if is_binary bytes then Ok SkipOther else Ok Accept
        | Vanished => Ok Disappeared
        | ReadError message => Err (Failed message)
        end
  end.

(** ** The selection *)

Context (supports_path : string → bool) (atlasignore : option string) (repo_root : string).

Definition default_patterns : list string := map (λ s, s +:+ "/") DEFAULT_IGNORE_PATTERNS.

(** One listed path. *)
Definition collect_step (threshold : N) (acc : list string * CollectFilesStats) (rel_path : string) :
    list string * CollectFilesStats :=
  let (results, stats) := acc in
  if should_ignore rel_path default_patterns then acc
  else if should_ignore rel_path (load_atlasignore atlasignore) then acc
  else if negb (supports_path rel_path) then
    (results, mk_stats (skipped_unsupported stats + 1) (skipped_by_size stats))
  else
    match check_file (path_join repo_root rel_path) threshold with
    | Ok Accept => (results ++ [rel_path], stats)
    | Ok SkipBySize => (results, mk_stats (skipped_unsupported stats) (skipped_by_size stats + 1))
    | _ => acc
    end.

Definition collect_supported_files_with_stats (ls_files : result ScanError (list string))
    (max_bytes : option N) : result ScanError (list string * CollectFilesStats) :=
  raw <-? ls_files;;
  Ok (foldl (collect_step (default DEFAULT_MAX_FILE_BYTES max_bytes)) ([], mk_stats 0 0) raw).

Definition collect_supported_files (ls_files : result ScanError (list string))
    (max_bytes : option N) : result ScanError (list string * N) :=
  found <-? collect_supported_files_with_stats ls_files max_bytes;;
  Ok (fst found, skipped_unsupported (snd found)).
End checks.

Definition collect_files (symlink_metadata : string → SymlinkMetadata)
    (first_read : string → FirstRead) (atlasignore : option string) (repo_root : string)
    (ls_files : result ScanError (list string)) (max_bytes : option N) :
    result ScanError (list string) :=
  found <-? collect_supported_files symlink_metadata first_read (λ _, true) atlasignore repo_root
    ls_files max_bytes;;
  Ok (fst found).

(** ** The listing with its submodules *)

Section listing.
Context (nfc : string → string) (fs : FileSystem).

(** The answers of git: the output of [git ls-files -z] in a directory, the output of
    [git config] on its [.gitmodules] ([None] when there is none or no entry), and whether a
    directory is an initialised working tree. *)
Context (ls_output : string → result ScanError string).
Context (submodule_output : string → result ScanError (option string)).
Context (initialized : string → bool).

Definition nonempty (s : string) : bool := negb (str_is_empty s).

Definition git_ls_files_in_repo (repo_root : string) : result ScanError (list string) :=
  stdout <-? ls_output repo_root;;
  try_map (λ s, lift_path (from_git_diff_path nfc s)) (filter nonempty (split_char nul stdout)).

(** [str::split_once]. *)
Definition split_once (c : ascii) (s : string) : option (string * string) :=
  match split_char c s with
  | w :: ((_ :: _) as ws) => Some (w, join (String c "") ws)
  | _ => None
  end.

Definition submodule_entry (entry : string) : result ScanError string :=
  match split_once newline entry with
  | None => Err (MalformedEntry entry)
  | Some (_, path) => lift_path (from_git_diff_path nfc path)
  end.

Definition git_submodule_paths (repo_root : string) : result ScanError (list string) :=
  stdout <-? submodule_output repo_root;;
  match stdout with
  | None => Ok []
  | Some stdout => try_map submodule_entry (filter nonempty (split_char nul stdout))
  end.

Definition register_repo_scan_root (visited : gset string) (repo_root : string) :
    result ScanError (option (gset string)) :=
  canonical <-? lift_path (canonical_filesystem_path nfc fs repo_root);;
  Ok (if bool_decide (canonical ∈ visited) then None else Some ({[canonical]} ∪ visited)).

(** One submodule of a repository: scanned when it is initialised, skipped when that fails. *)
Definition scan_submodule
    (scan : gset string → string → option (result ScanError (list string) * gset string))
    (repo_root : string) (acc : option (list string * gset string)) (submodule_path : string) :
    option (list string * gset string) :=
  '(paths, visited) ← acc;
  let submodule_root := path_join repo_root submodule_path in
  if initialized submodule_root then
    scanned ← scan visited submodule_root;
    match scanned with
    | (Ok files, visited) => Some (paths ++ map (path_join submodule_path) files, visited)
    | (Err _, visited) => Some (paths, visited)
    end
  else Some (paths, visited).

(** [git_ls_files_with_guard], with the set of visited roots it mutates; [None] is no more
    fuel. *)
Fixpoint git_ls_files_with_guard (fuel : nat) (visited : gset string) (repo_root : string) :
    option (result ScanError (list string) * gset string) :=
  match fuel with
  | O => None
  | S fuel =>
      match register_repo_scan_root visited repo_root with
      | Err e => Some (Err e, visited)
      | Ok None => Some (Ok [], visited)
      | Ok (Some visited) =>
          match git_ls_files_in_repo repo_root, git_submodule_paths repo_root with
          | Err e, _ | Ok _, Err e => Some (Err e, visited)
          | Ok paths, Ok submodules =>
              '(paths, visited) ←
                foldl (scan_submodule (git_ls_files_with_guard fuel) repo_root)
                  (Some (paths, visited)) submodules;
              Some (Ok paths, visited)
          end
      end
  end.

Definition git_ls_files (fuel : nat) (repo_root : string) : option (result ScanError (list string)) :=
  fst <$> git_ls_files_with_guard fuel ∅ repo_root.
End listing.

(** ** The language of a pattern *)

Inductive Token := One | Star | Globstar | Byte (a : ascii).

Fixpoint tokens (pattern : string) : list Token :=
  match pattern with
  | EmptyString => []
  | String p rest =>
      if Ascii.eqb p question then One :: tokens rest
      else if Ascii.eqb p star then
        match rest with
        | String q rest' =>
            if Ascii.eqb q star then
              match rest' with
              | String r rest'' =>
                  if Ascii.eqb r slash then Globstar :: tokens rest'' else Globstar :: tokens rest'
              | EmptyString => Globstar :: tokens rest'
              end
            else Star :: tokens rest
        | EmptyString => Star :: tokens rest
        end
      else Byte p :: tokens rest
  end.

(** [?] is one byte and [*] any bytes of one segment; [**], with the separator behind it if
    there is one, is any bytes at all. *)
Inductive matches : list Token → string → Prop :=
| matches_nil : matches [] ""
| matches_one c ts t : c ≠ slash → matches ts t → matches (One :: ts) (String c t)
| matches_byte c ts t : matches ts t → matches (Byte c :: ts) (String c t)
| matches_star s ts t : no_char slash s = true → matches ts t → matches (Star :: ts) (s +:+ t)
| matches_globstar s ts t : matches ts t → matches (Globstar :: ts) (s +:+ t).

Lemma any_suffix_spec m t : any_suffix m t = true ↔ ∃ s r, t = s +:+ r ∧ m r = true.
Proof.
  induction t as [|c t IH]; simpl; rewrite orb_true_iff.
  - split.
    + intros [H|[=]]. by exists "", "".
    + intros (s & r & Ht & Hm). destruct s, r; rewrite ?str_app_nil_l, ?str_app_cons in Ht; simplify_eq/=; auto.
  - rewrite IH. split.
    + intros [H|(s & r & -> & H)]; [by exists "", (String c t)|by exists (String c s), r].
    + intros (s & r & Ht & Hm). destruct s as [|a s]; rewrite ?str_app_nil_l, ?str_app_cons in Ht;
      simplify_eq/=; [by left|right; by exists s, r].
Qed.

Lemma any_suffix_in_segment_spec m t :
  any_suffix_in_segment m t = true ↔ ∃ s r, t = s +:+ r ∧ no_char slash s = true ∧ m r = true.
Proof.
  induction t as [|c t IH]; simpl; rewrite orb_true_iff.
  - split.
    + intros [H|[=]]. by exists "", "".
    + intros (s & r & Ht & _ & Hm). destruct s, r; rewrite ?str_app_nil_l, ?str_app_cons in Ht; simplify_eq/=; auto.
  - rewrite andb_true_iff, IH. split.
    + intros [H|[Hc (s & r & -> & Hs & H)]]; [by exists "", (String c t)|].
      exists (String c s), r. split_and!; [done| |done]. unfold no_char in *. cbn. by rewrite Hc.
    + intros (s & r & Ht & Hs & Hm). destruct s as [|a s]; rewrite ?str_app_nil_l, ?str_app_cons in Ht;
      simplify_eq/=; [by left|right].
      unfold no_char in Hs. cbn in Hs. apply andb_true_iff in Hs as [Ha Hs]. split; [done|].
      by exists s, r.
Qed.

Lemma matches_star_iff ts t :
  matches (Star :: ts) t ↔ ∃ s r, t = s +:+ r ∧ no_char slash s = true ∧ matches ts r.
Proof.
  split; [inversion 1; simplify_eq; eauto|]. intros (s & r & -> & Hs & Hr). by constructor.
Qed.

Lemma matches_globstar_iff ts t : matches (Globstar :: ts) t ↔ ∃ s r, t = s +:+ r ∧ matches ts r.
Proof. split; [inversion 1; simplify_eq; eauto|]. intros (s & r & -> & Hr). by constructor. Qed.

(** Patterns by the number of their bytes. *)
Lemma glob_match_tokens n : ∀ pattern text, (String.length pattern ≤ n)%nat →
  glob_match pattern text = true ↔ matches (tokens pattern) text.
Proof.
  induction n as [|n IH]; intros [|p rest] text Hn; cbn [String.length] in Hn; try lia.
  1,2: cbn; rewrite str_is_empty_iff; split; [intros ->; constructor|by inversion 1].
  assert (∀ t, glob_match rest t = true ↔ matches (tokens rest) t) as IHr by (intros; apply IH; lia).
  cbn [glob_match tokens].
  destruct (Ascii.eqb_spec p question) as [->|_].
  { destruct text as [|c text]; [split; [done|by inversion 1]|].
    rewrite andb_true_iff, negb_true_iff, Ascii.eqb_neq, IHr. split; [intros []; by constructor|].
    by inversion 1. }
  destruct (Ascii.eqb_spec p star) as [->|_].
  - assert (any_suffix_in_segment (glob_match rest) text = true ↔ matches (Star :: tokens rest) text)
      as Hstar.
    { rewrite any_suffix_in_segment_spec, matches_star_iff. by setoid_rewrite IHr. }
    destruct rest as [|q rest']; [exact Hstar|].
    destruct (Ascii.eqb_spec q star) as [->|_]; [|exact Hstar]. cbn [String.length] in Hn.
    assert (any_suffix (glob_match rest') text = true ↔ matches (Globstar :: tokens rest') text)
      as Hglob.
    { rewrite any_suffix_spec, matches_globstar_iff.
      setoid_rewrite (λ t, IH rest' t ltac:(lia)). done. }
    destruct rest' as [|r rest'']; [exact Hglob|].
    destruct (Ascii.eqb_spec r slash) as [->|_]; [|exact Hglob]. cbn [String.length] in Hn.
    rewrite any_suffix_spec, matches_globstar_iff. setoid_rewrite (λ t, IH rest'' t ltac:(lia)). done.
  - destruct text as [|c text]; [split; [done|by inversion 1]|].
    rewrite andb_true_iff, IHr. split.
    + intros [->%Ascii.eqb_eq ?]. by constructor.
    + inversion 1; simplify_eq. by rewrite Ascii.eqb_refl.
Qed.

(** ** Lemmas: the scan *)

Section counting.
Context (symlink_metadata : string → SymlinkMetadata) (first_read : string → FirstRead).
Context (supports_path : string → bool) (atlasignore : option string) (repo_root : string).
Context (threshold : N).

Definition ignored (path : string) : bool :=
  should_ignore path default_patterns || should_ignore path (load_atlasignore atlasignore).

Definition outcome (path : string) : result ScanError CheckFileOutcome :=
  check_file symlink_metadata first_read (path_join repo_root path) threshold.

(** What the scan accepts, and why it skips. *)
Definition accepted (path : string) : bool :=
  negb (ignored path) && supports_path path && match outcome path with Ok Accept => true | _ => false end.
Definition unsupported (path : string) : bool := negb (ignored path) && negb (supports_path path).
Definition oversized (path : string) : bool :=
  negb (ignored path) && supports_path path &&
  match outcome path with Ok SkipBySize => true | _ => false end.

Definition count (p : string → bool) (l : list string) : N := N.of_nat (length (filter p l)).

Lemma count_cons p x l : count p (x :: l) = ((if p x then 1 else 0) + count p l)%N.
Proof. unfold count. rewrite filter_cons. destruct (p x); simpl; lia. Qed.

Lemma collect_fold raw results stats :
  foldl (collect_step symlink_metadata first_read supports_path atlasignore repo_root threshold)
    (results, stats) raw =
  (results ++ filter accepted raw,
   mk_stats (skipped_unsupported stats + count unsupported raw)
            (skipped_by_size stats + count oversized raw)).
Proof.
  revert results stats. induction raw as [|path raw IH]; intros results stats; cbn [foldl].
  { unfold count. cbn. rewrite app_nil_r, !N.add_0_r. by destruct stats. }
  rewrite filter_cons, !count_cons. unfold collect_step at 2. fold (outcome path).
  assert (accepted path = negb (ignored path) && supports_path path &&
    match outcome path with Ok Accept => true | _ => false end) as Ha by done.
  assert (unsupported path = negb (ignored path) && negb (supports_path path)) as Hu by done.
  assert (oversized path = negb (ignored path) && supports_path path &&
    match outcome path with Ok SkipBySize => true | _ => false end) as Hs by done.
  assert (ignored path = should_ignore path default_patterns ||
    should_ignore path (load_atlasignore atlasignore)) as Hi by done.
  rewrite Ha, Hu, Hs, Hi. clear Ha Hu Hs Hi.
  destruct (should_ignore path default_patterns); cbn [orb negb andb]; [by rewrite IH|].
  destruct (should_ignore path (load_atlasignore atlasignore)); cbn [orb negb andb]; [by rewrite IH|].
  destruct (supports_path path); cbn [orb negb andb].
  - destruct (outcome path) as [[]|]; rewrite IH; cbn; rewrite ?N.add_0_l, ?N.add_assoc; rewrite <- ?app_assoc; done.
  - rewrite IH. cbn. by rewrite ?N.add_0_l, N.add_assoc.
Qed.
End counting.

Section guard.
Context (nfc : string → string) (fs : FileSystem).
Context (ls_output : string → result ScanError string).
Context (submodule_output : string → result ScanError (option string)).
Context (initialized : string → bool).

Abbreviation guard := (git_ls_files_with_guard nfc fs ls_output submodule_output initialized).

(** The canonical roots of the initialised working trees are among [D]. *)
Definition finite_roots (D : gset string) : Prop :=
  ∀ root c, initialized root = true → canonical_filesystem_path nfc fs root = Ok c → c ∈ D.

Lemma submodules_scan scan (V : gset string) repo_root subs :
  (∀ v root, V ⊆ v → initialized root = true → ∃ r v', scan v root = Some (r, v') ∧ v ⊆ v') →
  ∀ v paths, V ⊆ v → ∃ found v',
    foldl (scan_submodule initialized scan repo_root) (Some (paths, v)) subs = Some (found, v') ∧
    V ⊆ v'.
Proof.
  intros Hscan. induction subs as [|sub subs IH]; intros v paths Hv; cbn [foldl].
  { by exists paths, v. }
  unfold scan_submodule at 2. cbn [mbind option_bind].
  destruct (initialized (path_join repo_root sub)) eqn:Hi; [|by apply IH].
  destruct (Hscan v (path_join repo_root sub) Hv Hi) as (r & v1 & -> & Hv1). cbn [mbind option_bind].
  destruct r; apply IH; set_solver.
Qed.

(** One repository, when its submodules return. *)
Lemma guard_step fuel visited root :
  (∀ c, canonical_filesystem_path nfc fs root = Ok c → c ∉ visited →
   ∀ v root', {[c]} ∪ visited ⊆ v → initialized root' = true →
   ∃ r v', guard fuel v root' = Some (r, v') ∧ v ⊆ v') →
  ∃ r visited', guard (S fuel) visited root = Some (r, visited') ∧ visited ⊆ visited'.
Proof.
  intros IH. cbn [git_ls_files_with_guard]. unfold register_repo_scan_root, lift_path.
  destruct (canonical_filesystem_path nfc fs root) as [c|e] eqn:Hc; cbn [res_bind];
    [|by eexists _, visited].
  case_bool_decide as Hin; [by eexists _, visited|].
  destruct (git_ls_files_in_repo nfc ls_output root) as [paths|];
    [|eexists _, _; split; [done|set_solver]].
  destruct (git_submodule_paths nfc submodule_output root) as [subs|];
    [|eexists _, _; split; [done|set_solver]].
  destruct (submodules_scan (guard fuel) ({[c]} ∪ visited) root subs) with (v := {[c]} ∪ visited)
    (paths := paths) as (found & v' & -> & Hv'); [by apply IH|done|].
  cbn [mbind option_bind]. eexists _, _. split; [done|set_solver].
Qed.

Lemma guard_returns D : finite_roots D →
  ∀ fuel visited root, initialized root = true → (size (D ∖ visited) < fuel)%nat →
  ∃ r visited', guard fuel visited root = Some (r, visited') ∧ visited ⊆ visited'.
Proof.
  intros HD. induction fuel as [|fuel IH]; intros visited root Hi Hf; [lia|].
  apply guard_step. intros c Hc Hin v root' Hv Hi'. apply IH; [done|].
  assert (size (D ∖ v) < size (D ∖ visited))%nat; [|lia].
  apply subset_size. pose proof (HD root c Hi Hc). set_solver.
Qed.
End guard.

(** ** Lemmas: paths of submodules *)

Section canonical.
Context (nfc : string → string) `{!NfcLaws nfc}.

Lemma canonical_join p q :
  canonical_form nfc p → canonical_form nfc q → canonical_form nfc (path_join p q).
Proof.
  intros (ps & Hps & Hgp & -> & Hbp & Hnp) (qs & Hqs & Hgq & -> & Hbq & Hnq).
  unfold path_join. rewrite good_not_absolute, join_good_not_empty, ends_with_slash_join by done.
  cbn [orb]. rewrite <-join_app by done.
  exists (ps ++ qs). split_and!; [by destruct ps|by apply Forall_app|done| |].
  - rewrite join_app by done. unfold no_char in *. by rewrite !str_forall_app, Hbp, Hbq.
  - rewrite join_app by done.
    change (join "/" ps +:+ "/" +:+ join "/" qs) with (join "/" ps +:+ String slash (join "/" qs)).
    by rewrite nfc_slash, Hnp, Hnq.
Qed.

Lemma try_map_Forall {E A B} (f : A → result E B) (P : B → Prop) l ys :
  (∀ x y, f x = Ok y → P y) → try_map f l = Ok ys → Forall P ys.
Proof.
  intros Hf. revert ys. induction l as [|x l IH]; intros ys; cbn [try_map]; [by intros [= <-]|].
  destruct (f x) as [y|] eqn:Hx; [|done]. cbn [res_bind].
  destruct (try_map f l) as [ys'|]; [|done]. intros [= <-]. constructor; eauto.
Qed.

Lemma lift_path_canonical s p :
  lift_path (from_git_diff_path nfc s) = Ok p → canonical_form nfc p.
Proof.
  unfold lift_path, from_git_diff_path, from_repo_relative.
  destruct (canonicalize_relative nfc s) eqn:H; [|done]. intros [= <-].
  by apply canonicalize_relative_canonical in H.
Qed.

Context (fs : FileSystem).
Context (ls_output : string → result ScanError string).
Context (submodule_output : string → result ScanError (option string)).
Context (initialized : string → bool).

Lemma submodule_paths_canonical root subs :
  git_submodule_paths nfc submodule_output root = Ok subs → Forall (canonical_form nfc) subs.
Proof.
  unfold git_submodule_paths. destruct (submodule_output root) as [[out|]|]; cbn [res_bind];
    [|by intros [= <-]|done].
  apply try_map_Forall. intros entry p. unfold submodule_entry.
  destruct (split_once newline entry) as [[? path]|]; [|done]. apply lift_path_canonical.
Qed.

Lemma guard_canonical fuel : ∀ visited root paths visited',
  git_ls_files_with_guard nfc fs ls_output submodule_output initialized fuel visited root =
    Some (Ok paths, visited') → Forall (canonical_form nfc) paths.
Proof.
  induction fuel as [|fuel IH]; intros visited root paths visited'; [done|].
  cbn [git_ls_files_with_guard].
  destruct (register_repo_scan_root nfc fs visited root) as [[v|]|]; [|by intros [= <- _]|done].
  destruct (git_ls_files_in_repo nfc ls_output root) as [listed|] eqn:Hl; [|done].
  destruct (git_submodule_paths nfc submodule_output root) as [subs|] eqn:Hs; [|done].
  apply submodule_paths_canonical in Hs.
  assert (Forall (canonical_form nfc) listed) as Hp.
  { unfold git_ls_files_in_repo in Hl. destruct (ls_output root); [|done].
    eapply try_map_Forall; [|exact Hl]. intros x y. apply lift_path_canonical. }
  clear Hl. intros H.
  destruct (foldl (scan_submodule _ _ root) (Some (listed, v)) subs) as [[found v']|] eqn:Hf;
    [|done]. injection H as <- _.
  revert listed v Hp Hf. induction Hs as [|sub subs Hsub _ IHs]; intros listed v Hp; cbn [foldl].
  { intros [= <- _]. done. }
  unfold scan_submodule at 2. cbn [mbind option_bind].
  destruct (initialized _); [|by apply IHs].
  destruct (git_ls_files_with_guard _ _ _ _ _ fuel v _) as [[[files|] v1]|] eqn:Hg;
    cbn [mbind option_bind].
  - apply IHs. apply Forall_app. split; [done|]. apply IH in Hg.
    apply Forall_fmap. eapply Forall_impl; [exact Hg|]. intros f Hf. by apply canonical_join.
  - by apply IHs.
  - clear. intros H. exfalso. induction subs as [|s subs IH]; cbn [foldl] in H; [done|]. by apply IH.
Qed.
End canonical.

(** ** Properties *)

(** A glob matches exactly the texts its pattern denotes, byte by byte: [?] one byte and
    [*] bytes that are no separator, [**] any bytes, where a separator behind [**] belongs to
    it. *)
Theorem glob_match_exact (pattern text : string) :
  glob_match pattern text = true ↔ matches (tokens pattern) text.
Proof. by apply (glob_match_tokens (String.length pattern)). Qed.

(** What an ignore pattern covers. *)
Definition ignores (pattern path : string) : Prop :=
  let pat := trim_end_char slash pattern in
  matches (tokens pat) path ∨
  (no_char slash pat = true ∧ Exists (matches (tokens pat)) (split_char slash path)) ∨
  (no_char slash pat = false ∧ ends_with_char slash pattern = true ∧ ∃ rest, path = pat +:+ "/" +:+ rest).

Lemma contains_slash s : contains "/" s = negb (no_char slash s).
Proof.
  induction s as [|c s IH]; [done|]. unfold no_char in *. cbn [contains str_forall].
  rewrite IH. cbn [starts_with]. unfold slash. rewrite (Ascii.eqb_sym "/" c).
  by destruct (Ascii.eqb c "/").
Qed.

Lemma existsb_glob pat l :
  existsb (glob_match pat) l = true ↔ Exists (matches (tokens pat)) l.
Proof.
  rewrite existsb_exists, Exists_exists. setoid_rewrite list_elem_of_In.
  by setoid_rewrite (λ t, glob_match_tokens (String.length pat) pat t (le_n _)).
Qed.

Lemma ignored_by_spec path pattern : ignored_by path pattern = true ↔ ignores pattern path.
Proof.
  unfold ignored_by, ignores. set (pat := trim_end_char slash pattern). cbv zeta.
  rewrite contains_slash, negb_involutive.
  pose proof (glob_match_tokens (String.length pat) pat path (le_n _)) as Hg.
  destruct (no_char slash pat).
  - rewrite orb_true_iff, Hg, existsb_glob. naive_solver.
  - destruct (ends_with_char slash pattern).
    + rewrite orb_true_iff, Hg, starts_with_iff. setoid_rewrite <-str_app_assoc. naive_solver.
    + rewrite Hg. naive_solver.
Qed.

Lemma should_ignore_spec path patterns :
  should_ignore path patterns = true ↔ Exists (λ pattern, ignores pattern path) patterns.
Proof.
  unfold should_ignore. rewrite existsb_exists, Exists_exists. setoid_rewrite list_elem_of_In.
  by setoid_rewrite ignored_by_spec.
Qed.

(** The scan keeps exactly the listed paths that no default rule and no rule of
    [.atlasignore] covers, that are supported, and that are regular files within the size
    limit without a NUL in the first bytes read, in the order listed; it counts the
    unsupported and the oversized ones. *)
Theorem scan_selects_exactly meta first_read supports atlasignore root raw max_bytes :
  ∃ results stats,
    collect_supported_files_with_stats meta first_read supports atlasignore root (Ok raw) max_bytes =
      Ok (results, stats) ∧
    sublist results raw ∧
    (∀ p, p ∈ results ↔ p ∈ raw ∧
      ¬ Exists (λ pattern, ignores pattern p) (default_patterns ++ load_atlasignore atlasignore) ∧
      supports p = true ∧
      ∃ size bytes, meta (path_join root p) = Metadata false true size ∧
        (size ≤ default DEFAULT_MAX_FILE_BYTES max_bytes)%N ∧
        first_read (path_join root p) = FirstBytes bytes ∧ no_char nul bytes = true) ∧
    stats = mk_stats (count (unsupported supports atlasignore) raw)
      (count (oversized meta first_read supports atlasignore root
                (default DEFAULT_MAX_FILE_BYTES max_bytes)) raw).
Proof.
  unfold collect_supported_files_with_stats. cbn [res_bind]. rewrite collect_fold.
  do 2 eexists. split_and!; [done|apply sublist_filter| |by cbn; rewrite !N.add_0_l].
  intros p. cbn [app]. rewrite list_elem_of_filter, Is_true_true.
  unfold accepted. rewrite !andb_true_iff, negb_true_iff.
  assert (ignored atlasignore p = false ↔
    ¬ Exists (λ pattern, ignores pattern p) (default_patterns ++ load_atlasignore atlasignore)) as ->.
  { unfold ignored. rewrite Exists_app, <-!should_ignore_spec, orb_false_iff, <-!not_true_iff_false.
    tauto. }
  assert (match outcome meta first_read root (default DEFAULT_MAX_FILE_BYTES max_bytes) p with
          | Ok Accept => true | _ => false end = true ↔
    ∃ size bytes, meta (path_join root p) = Metadata false true size ∧
      (size ≤ default DEFAULT_MAX_FILE_BYTES max_bytes)%N ∧
      first_read (path_join root p) = FirstBytes bytes ∧ no_char nul bytes = true) as ->; [|tauto].
  unfold outcome, check_file.
  destruct (meta (path_join root p)) as [| |link file size]; [naive_solver|naive_solver|].
  destruct link; [naive_solver|]. destruct file; [|naive_solver]. cbn [negb].
  destruct (N.ltb_spec (default DEFAULT_MAX_FILE_BYTES max_bytes) size) as [Hlt|Hle].
  { split; [done|]. intros (? & ? & [= ->] & ? & _). lia. }
  destruct (first_read (path_join root p)) as [| |bytes]; [naive_solver|naive_solver|].
  unfold is_binary. destruct (no_char nul bytes) eqn:Hn; cbn [negb].
  - split; [|done]. intros _. by exists size, bytes.
  - split; [done|]. intros (? & ? & _ & _ & [= ->] & ?). congruence.
Qed.

(** C23. The listing of a repository with its submodules ends, even when submodules lead back
    to a repository that is being scanned: when the initialised working trees have finitely
    many canonical roots, it recurses at most once more than there are such roots. *)
Theorem scan_terminates nfc fs ls_output submodule_output initialized (D : gset string) root :
  finite_roots nfc fs initialized D →
  ∃ r, git_ls_files nfc fs ls_output submodule_output initialized (S (S (size D))) root = Some r.
Proof.
  intros HD. unfold git_ls_files.
  destruct (guard_step nfc fs ls_output submodule_output initialized (S (size D)) ∅ root)
    as (r & v & -> & _); [|by exists r].
  intros c _ _ v root' _ Hi. apply (guard_returns _ _ _ _ _ D HD); [done|].
  assert (size (D ∖ v) ≤ size D)%nat; [|lia]. apply subseteq_size. set_solver.
Qed.

(** Every path the listing returns, at any depth of submodules, is a canonical
    repo-relative path. *)
Theorem listed_paths_canonical (nfc : string → string) `{!NfcLaws nfc} fs ls_output submodule_output
    initialized fuel root paths :
  git_ls_files nfc fs ls_output submodule_output initialized fuel root = Some (Ok paths) →
  Forall (canonical_form nfc) paths.
Proof.
  unfold git_ls_files.
  destruct (git_ls_files_with_guard _ _ _ _ _ fuel ∅ root) as [[r v]|] eqn:H; [|done].
  cbn. intros [= ->]. by apply guard_canonical in H.
Qed.

(** ** Runs *)

(** The separator behind [**] belongs to it, so a name that only ends like the pattern is
    matched; [?] is one byte, so no character beyond ASCII; a pattern for a directory covers a
    file of that name, and one with a wildcard not the files in the directory. *)
Example glob_surprises :
  glob_match "**/conf.rs" "src/myconf.rs" = true ∧
  glob_match "?.md" "é.md" = false ∧
  should_ignore "scripts/build" ["build/"] = true ∧
  should_ignore "out/debug/main.o" ["out/*/"] = false.
Proof. by vm_compute. Qed.

(** A repository that holds itself as a submodule, through a link. *)
Definition loop_roots : list string := ["/"; "/r"; "/r/sub"].
Definition loop_fs : FileSystem :=
  mk_fs (λ p, existsb (String.eqb p) loop_roots) (λ p, existsb (String.eqb p) loop_roots)
    (λ _, Ok "/r").
Definition loop_submodules (root : string) : result ScanError (option string) :=
  Ok (Some ("submodule.sub.path" +:+ String newline "sub" +:+ String nul "")).
Definition loop_files (root : string) : result ScanError string :=
  Ok ("a.rs" +:+ String nul "b.rs" +:+ String nul "").

Definition loop_initialized (p : string) : bool := String.eqb p "/r/sub".

Lemma scan_terminates_witness :
  git_ls_files (λ s, s) loop_fs loop_files loop_submodules loop_initialized 3 "/r" =
    Some (Ok ["a.rs"; "b.rs"]) ∧
  ∃ r, git_ls_files (λ s, s) loop_fs loop_files loop_submodules loop_initialized 3 "/r" = Some r.
Proof.
  split; [vm_compute; reflexivity|].
  apply (scan_terminates (λ s, s) loop_fs loop_files loop_submodules loop_initialized {["/r"]}).
  intros root c Hi%String.eqb_eq. subst root. vm_compute. intros [= <-]. constructor.
Defined.

Lemma listed_paths_canonical_witness : Forall (canonical_form (λ s, s)) ["a.rs"; "b.rs"].
Proof.
  apply (listed_paths_canonical (λ s, s) loop_fs loop_files loop_submodules loop_initialized 3 "/r").
  vm_compute. reflexivity.
Defined.
