(* ===== verification/Owners.v ===== *)
(** * Package and workspace owners

    Model of [packages/atlas-repo/src/owners.rs] and of the owner records of
    [packages/atlas-core/src/model/graph.rs]: which manifests of a repository own which paths,
    and which packages a workspace has. The files' contents and the TOML and JSON parsers are
    parameters; a TOML value is a type with the accessors the code calls. *)

From S2P Require Import Prelude RustStr RepoPath Json Scan.

(** ** Records *)

Inductive PackageOwnerKind := Cargo | Npm | Go.

#[global] Instance PackageOwnerKind_eq_dec : EqDecision PackageOwnerKind.
Proof. solve_decision. Defined.

Definition PackageOwnerKind_as_str (k : PackageOwnerKind) : string :=
  match k with Cargo => "cargo" | Npm => "npm" | Go => "go" end.

Record PackageOwner := mk_owner {
  owner_id : string;
  owner_kind : PackageOwnerKind;
  owner_root : string;
  owner_manifest : string;
  package_name : option string
}.

Record WorkspaceRoot := mk_root {
  workspace_id : string;
  ws_kind : PackageOwnerKind;
  ws_root : string;
  ws_manifest_path : string;
  ws_member_roots : list string;
  member_owner_ids : list string
}.

Record WorkspaceDefinition := mk_definition {
  wd_kind : PackageOwnerKind;
  wd_manifest_path : string;
  member_manifest_paths : list string;
  wd_member_roots : list string
}.

Record PackageOwners := mk_owners { owners : list PackageOwner; workspaces : list WorkspaceRoot }.

(** ** The owner of a path *)

Definition path_is_within_owner (path root : string) : bool :=
  str_is_empty root || String.eqb path root || starts_with (root +:+ "/") path.

Definition owner_cmp : PackageOwner → PackageOwner → comparison :=
  cmp_lex (cmp_on (λ o, String.length (owner_root o)) Nat.compare)
    (cmp_on owner_manifest String.compare).

Definition owner_for_path (os : PackageOwners) (path : string) : option PackageOwner :=
  max_by owner_cmp (filter (λ o, path_is_within_owner path (owner_root o)) (owners os)).

(** ** Patterns of workspace members *)

Definition quote : ascii := chr 34.

Definition normalize_workspace_pattern (pattern : string) : string :=
  let trimmed := trim_char quote (trim pattern) in
  trim_end_char slash (default trimmed (strip_prefix "./" trimmed)).

Definition workspace_pattern_matches (pattern candidate_root : string) : bool :=
  glob_match pattern candidate_root || glob_match (pattern +:+ "/") (candidate_root +:+ "/").

Definition is_glob_pattern (pattern : string) : bool :=
  contains "*" pattern || contains "?" pattern || contains "[" pattern.

(** [Utf8Path::parent], the empty path when there is none. *)
Definition manifest_root (manifest_path : string) : string := default "" (path_parent manifest_path).

Definition member_root (include_patterns exclude_patterns : list string) (root : string) : bool :=
  existsb (λ pattern, workspace_pattern_matches pattern root) include_patterns &&
  negb (existsb (λ pattern, workspace_pattern_matches pattern root) exclude_patterns).

Definition resolve_member_manifest_paths (include_patterns exclude_patterns manifests : list string) :
    list string :=
  filter (λ m, member_root include_patterns exclude_patterns (manifest_root m)) manifests.

(** A pattern without wildcards is a member root even without a manifest. *)
Definition add_literal (exclude_patterns : list string) (roots : list string) (pattern : string) :
    list string :=
  if is_glob_pattern pattern ||
     existsb (λ exclude, workspace_pattern_matches exclude pattern) exclude_patterns
  then roots
  else if existsb (String.eqb pattern) roots then roots
  else roots ++ [pattern].

Definition sort_dedup (l : list string) : list string := dedup_by_key id (sort_by String.compare l).

Definition resolve_member_roots (include_patterns exclude_patterns manifests : list string) :
    list string :=
  sort_dedup (foldl (add_literal exclude_patterns)
    (map manifest_root (resolve_member_manifest_paths include_patterns exclude_patterns manifests))
    include_patterns).

Definition nonempty_patterns (l : list string) : list string :=
  filter (λ pattern, negb (str_is_empty pattern)) (map normalize_workspace_pattern l).

Definition workspace_patterns_from_json (value : option Json) : list string :=
  match value with
  | Some (JArray items) => nonempty_patterns (omap as_str items)
  | Some (JObject entries) =>
      match assoc "packages" entries with
      | Some (JArray items) => nonempty_patterns (omap as_str items)
      | _ => []
      end
  | _ => []
  end.

(** One line of [go.work]: the entries so far, and whether a block is open. *)
Definition go_work_line (acc : list string * bool) (line : string) : list string * bool :=
  let (entries, in_block) := acc in
  let trimmed := trim (default "" (head (split_str "//" line))) in
  let push pattern :=
    let entry := normalize_workspace_pattern pattern in
    if str_is_empty entry then entries else entries ++ [entry] in
  if str_is_empty trimmed then acc
  else if String.eqb trimmed "use (" then (entries, true)
  else if in_block && String.eqb trimmed ")" then (entries, false)
  else
    match strip_prefix "use " trimmed with
    | Some path => (push path, in_block)
    | None => if in_block then (push trimmed, in_block) else acc
    end.

Definition parse_go_work_use_entries (contents : string) : list string :=
  fst (foldl go_work_line ([], false) (lines contents)).

(** ** Manifests *)

Inductive OwnersError :=
| CannotCollect (e : ScanError)
| CannotRead (path : string)
| CannotParse (path : string).

Definition make_owner (kind : PackageOwnerKind) (manifest_path : string) (name : option string) :
    PackageOwner :=
  mk_owner (PackageOwnerKind_as_str kind +:+ ":" +:+ manifest_path) kind
    (manifest_root manifest_path) manifest_path name.

Definition package_signals : list string :=
  ["name"; "version"; "private"; "dependencies"; "devDependencies"; "peerDependencies";
   "optionalDependencies"; "scripts"; "main"; "module"; "exports"; "bin"].

Definition go_module_line (line : string) : option string :=
  name ← strip_prefix "module " (trim line);
  let value := trim name in
  if str_is_empty value then None else Some value.

Section manifests.
Context {T : Type} (toml_parse : string → option T) (toml_get : T → string → option T).
Context (toml_is_table : T → bool) (toml_array : T → option (list T)) (toml_str : T → option string).
Context (json_parse : string → option Json).
(** [read_to_string] of a path of the repository. *)
Context (read : string → option string).

Definition read_manifest (path : string) : result OwnersError string :=
  match read path with Some contents => Ok contents | None => Err (CannotRead path) end.

Definition read_toml (path : string) : result OwnersError T :=
  contents <-? read_manifest path;;
  match toml_parse contents with Some value => Ok value | None => Err (CannotParse path) end.

Definition read_json (path : string) : result OwnersError Json :=
  contents <-? read_manifest path;;
  match json_parse contents with Some value => Ok value | None => Err (CannotParse path) end.

(** [value.get(key).and_then(as_table)]. *)
Definition toml_table (value : T) (key : string) : option T :=
  table ← toml_get value key;
  if toml_is_table table then Some table else None.

Definition workspace_patterns_from_toml (value : option T) : list string :=
  nonempty_patterns (omap toml_str (default [] (value ≫= toml_array))).

Definition parse_cargo_workspace (manifest_path : string) (cargo_manifests : list string) :
    result OwnersError (option WorkspaceDefinition) :=
  value <-? read_toml manifest_path;;
  match toml_table value "workspace" with
  | None => Ok None
  | Some workspace =>
      let members := workspace_patterns_from_toml (toml_get workspace "members") in
      let exclude := workspace_patterns_from_toml (toml_get workspace "exclude") in
      Ok (Some (mk_definition Cargo manifest_path
        (resolve_member_manifest_paths members exclude cargo_manifests)
        (resolve_member_roots members exclude cargo_manifests)))
  end.

Definition parse_npm_workspace (manifest_path : string) (npm_manifests : list string) :
    result OwnersError (option WorkspaceDefinition) :=
  value <-? read_json manifest_path;;
  match workspace_patterns_from_json (json_get "workspaces" value) with
  | [] => Ok None
  | members =>
      Ok (Some (mk_definition Npm manifest_path
        (resolve_member_manifest_paths members [] npm_manifests)
        (resolve_member_roots members [] npm_manifests)))
  end.

Definition parse_go_workspace (manifest_path : string) (go_manifests : list string) :
    result OwnersError (option WorkspaceDefinition) :=
  contents <-? read_manifest manifest_path;;
  match parse_go_work_use_entries contents with
  | [] => Ok None
  | members =>
      Ok (Some (mk_definition Go manifest_path
        (resolve_member_manifest_paths members [] go_manifests)
        (resolve_member_roots members [] go_manifests)))
  end.

Definition parse_cargo_owner (manifest_path : string) : result OwnersError (option PackageOwner) :=
  value <-? read_toml manifest_path;;
  Ok ((λ package, make_owner Cargo manifest_path (toml_get package "name" ≫= toml_str)) <$>
        toml_table value "package").

Definition parse_npm_owner (manifest_path : string) : result OwnersError (option PackageOwner) :=
  value <-? read_json manifest_path;;
  match as_object value with
  | None => Ok None
  | Some object =>
      if existsb (λ key, match assoc key object with Some _ => true | None => false end)
           package_signals
      then Ok (Some (make_owner Npm manifest_path (assoc "name" object ≫= as_str)))
      else Ok None
  end.

Definition parse_go_owner (manifest_path : string) : result OwnersError (option PackageOwner) :=
  contents <-? read_manifest manifest_path;;
  Ok (Some (make_owner Go manifest_path (head (omap go_module_line (lines contents))))).

(** ** Discovery *)

Definition tracked_manifests (tracked : list string) (name : string) : list string :=
  filter (λ path, bool_decide (file_name path = Some name)) tracked.

(** The owner a tracked file declares. *)
Definition owner_of (rel_path : string) : result OwnersError (option PackageOwner) :=
  match file_name rel_path with
  | Some name =>
      if String.eqb name "Cargo.toml" then parse_cargo_owner rel_path
      else if String.eqb name "package.json" then parse_npm_owner rel_path
      else if String.eqb name "go.mod" then parse_go_owner rel_path
      else Ok None
  | None => Ok None
  end.

(** A workspace is looked for at the root of the repository only. *)
Definition root_workspace (paths : list string) (name : string)
    (parse : string → result OwnersError (option WorkspaceDefinition)) :
    result OwnersError (list WorkspaceDefinition) :=
  if existsb (String.eqb name) paths then
    found <-? parse name;;
    Ok (match found with Some w => [w] | None => [] end)
  else Ok [].

Definition owners_cmp : PackageOwner → PackageOwner → comparison :=
  cmp_lex (cmp_rev (cmp_on (λ o, String.length (owner_root o)) Nat.compare))
    (cmp_on owner_manifest String.compare).

Definition add_member (os : list PackageOwner) (acc : list string * list string)
    (manifest_path : string) : list string * list string :=
  match List.find (λ o, String.eqb (owner_manifest o) manifest_path) os with
  | Some o => (fst acc ++ [owner_root o], snd acc ++ [owner_id o])
  | None => acc
  end.

Definition make_workspace (w : WorkspaceDefinition) (os : list PackageOwner) : WorkspaceRoot :=
  let (roots, ids) := foldl (add_member os) (wd_member_roots w, []) (member_manifest_paths w) in
  mk_root ("workspace:" +:+ PackageOwnerKind_as_str (wd_kind w) +:+ ":" +:+ wd_manifest_path w)
    (wd_kind w) (manifest_root (wd_manifest_path w)) (wd_manifest_path w) (sort_dedup roots) ids.

Definition has_members (w : WorkspaceRoot) : bool :=
  match member_owner_ids w with [] => false | _ => true end.

Definition discover_package_owners (collected : result ScanError (list string)) :
    result OwnersError PackageOwners :=
  match collected with
  | Err e => Err (CannotCollect e)
  | Ok tracked =>
      let cargo := tracked_manifests tracked "Cargo.toml" in
      let npm := tracked_manifests tracked "package.json" in
      let go := tracked_manifests tracked "go.mod" in
      w1 <-? root_workspace cargo "Cargo.toml" (λ p, parse_cargo_workspace p cargo);;
      w2 <-? root_workspace npm "package.json" (λ p, parse_npm_workspace p npm);;
      w3 <-? root_workspace tracked "go.work" (λ p, parse_go_workspace p go);;
      found <-? try_map owner_of tracked;;
      let os := dedup_by_key owner_id (sort_by owners_cmp (omap id found)) in
      let ws := filter has_members (map (λ w, make_workspace w os) (w1 ++ w2 ++ w3)) in
      Ok (mk_owners os
        (dedup_by_key workspace_id (sort_by (cmp_on ws_manifest_path String.compare) ws)))
  end.
End manifests.

(** ** Lemmas: enclosing roots *)

(** [root] is [path] or a directory above it. *)
Definition encloses (root path : string) : Prop :=
  root = "" ∨ path = root ∨ ∃ rest, path = root +:+ "/" +:+ rest.

Lemma within_iff path root : path_is_within_owner path root = true ↔ encloses root path.
Proof.
  unfold path_is_within_owner, encloses.
  rewrite !orb_true_iff, str_is_empty_iff, String.eqb_eq, starts_with_iff.
  setoid_rewrite <-str_app_assoc. tauto.
Qed.

Lemma app_prefix p q r s :
  p +:+ r = q +:+ s → (String.length p ≤ String.length q)%nat → ∃ t, q = p +:+ t ∧ r = t +:+ s.
Proof.
  revert q. induction p as [|a p IH]; intros q H Hl.
  - exists q. by rewrite !str_app_nil_l in *.
  - destruct q as [|b q]; [cbn in Hl; lia|]. rewrite !str_app_cons in H. simplify_eq.
    destruct (IH q) as (t & -> & ->); [done|cbn in Hl; lia|]. exists t. by rewrite str_app_cons.
Qed.

(** Of two roots that enclose a path the shorter one encloses the longer one. *)
Lemma encloses_chain r r' path :
  encloses r path → encloses r' path → (String.length r' ≤ String.length r)%nat → encloses r' r.
Proof.
  intros H H' Hl.
  assert (∃ s, path = r +:+ s) as [s Hs].
  { destruct H as [->|[->|[rest ->]]].
    - exists path. by rewrite str_app_nil_l.
    - exists "". by rewrite str_app_nil_r.
    - by eexists. }
  destruct H' as [->|[->|[rest Hr]]]; [by left| |].
  - assert (r = r').
    { pose proof (f_equal String.length Hs) as Hlen. rewrite str_length_app in Hlen.
      destruct s; [by rewrite str_app_nil_r in Hs|cbn in Hlen; lia]. }
    subst. right; by left.
  - rewrite Hs in Hr. symmetry in Hr. apply app_prefix in Hr as (t & -> & Ht); [|done].
    destruct t as [|c t].
    + right; left. by rewrite str_app_nil_r.
    + change ("/" +:+ rest) with (String "/" rest) in Ht. rewrite str_app_cons in Ht. simplify_eq.
      right; right. by exists t.
Qed.

#[export] Instance owner_cmp_total : TotalCmp owner_cmp.
Proof. unfold owner_cmp. apply _. Qed.

#[export] Instance owners_cmp_total : TotalCmp owners_cmp.
Proof. unfold owners_cmp. apply _. Qed.

(** ** Lemmas: workspace members *)

Lemma workspace_pattern_spec pattern root :
  workspace_pattern_matches pattern root = true ↔
  matches (tokens pattern) root ∨ matches (tokens (pattern +:+ "/")) (root +:+ "/").
Proof.
  unfold workspace_pattern_matches. rewrite orb_true_iff.
  by rewrite !(λ p t, glob_match_tokens (String.length p) p t (le_n _)).
Qed.

(** What the patterns of a workspace select. *)
Definition selects (include_patterns exclude_patterns : list string) (root : string) : Prop :=
  let hit pattern := matches (tokens pattern) root ∨ matches (tokens (pattern +:+ "/")) (root +:+ "/") in
  Exists hit include_patterns ∧ ¬ Exists hit exclude_patterns.

Lemma existsb_patterns root l :
  existsb (λ pattern, workspace_pattern_matches pattern root) l = true ↔
  Exists (λ pattern, matches (tokens pattern) root ∨
                     matches (tokens (pattern +:+ "/")) (root +:+ "/")) l.
Proof.
  rewrite existsb_exists, Exists_exists. setoid_rewrite list_elem_of_In.
  by setoid_rewrite workspace_pattern_spec.
Qed.

Lemma member_root_spec include_patterns exclude_patterns root :
  member_root include_patterns exclude_patterns root = true ↔
  selects include_patterns exclude_patterns root.
Proof.
  unfold member_root, selects. rewrite andb_true_iff, negb_true_iff, <-not_true_iff_false.
  by rewrite !existsb_patterns.
Qed.

Lemma add_members_ids os manifests acc :
  snd (foldl (add_member os) acc manifests) =
  snd acc ++ omap (λ m, owner_id <$> List.find (λ o, String.eqb (owner_manifest o) m) os) manifests.
Proof.
  revert acc. induction manifests as [|m manifests IH]; intros acc; cbn [foldl omap list_omap].
  { by rewrite app_nil_r. }
  rewrite IH. unfold add_member at 1.
  destruct (List.find _ os); cbn; [by rewrite <-app_assoc|done].
Qed.

(** ** Lemmas: discovery *)

(** After sorting by an order whose ties have equal keys and the other way round, dropping
    repeated keys leaves each once. *)
Lemma dedup_sorted_NoDup {A} (key : A → string) (cmp : A → A → comparison) `{!TotalCmp cmp} l :
  (∀ x y, x ∈ l → y ∈ l → cmp x y = Eq ↔ key x = key y) → sorted_by cmp l →
  NoDup (map key (dedup_by_key key l)).
Proof.
  intros Hkey Hs. destruct Hs as [|z l Hs Hz]; [constructor|]. cbn [dedup_by_key map].
  assert (∀ z l, sorted_by cmp l → Forall (λ x, leb_of cmp z x = true) l →
    (∀ x y, x ∈ z :: l → y ∈ z :: l → cmp x y = Eq ↔ key x = key y) →
    NoDup (key z :: map key (dedup_from key (key z) l))) as H; [|by apply H].
  clear z l Hkey Hs Hz. intros z l Hs. revert z. induction Hs as [|x l Hs IH Hx]; intros z Hz Hkey;
    cbn [dedup_from]; [repeat constructor; by intros ?%elem_of_nil|].
  apply Forall_cons in Hz as [Hzx Hz]. case_bool_decide as Hk.
  { apply IH; [done|]. intros a b Ha Hb. apply Hkey; set_solver. }
  pose proof (IH x Hx ltac:(intros a b Ha Hb; apply Hkey; set_solver)) as Hnd. cbn [map].
  constructor; [|exact Hnd]. intros [Heq|Hin]%elem_of_cons; [by rewrite Heq in Hk|].
  apply list_elem_of_fmap in Hin as (y & Heq & Hy).
  assert (y ∈ l) as Hyl by (eapply elem_of_submseteq; [exact Hy|apply sublist_submseteq, dedup_from_sublist]).
  assert (cmp z y = Eq) as Hzy by (apply Hkey; [constructor|set_solver|done]).
  rewrite Forall_forall in Hx. specialize (Hx y Hyl).
  assert (cmp z x = Eq) as Hzx'.
  { apply (cmp_eq_sym cmp) in Hzy. unfold leb_of in Hx, Hzx.
    rewrite (cmp_eq_r cmp x y z Hzy), (cmp_opp cmp z x) in Hx. by destruct (cmp z x). }
  apply Hkey in Hzx'; [|constructor|set_solver]. done.
Qed.

Lemma try_map_Forall2 {E A B} (f : A → result E B) l ys :
  try_map f l = Ok ys → Forall2 (λ x y, f x = Ok y) l ys.
Proof.
  revert ys. induction l as [|x l IH]; intros ys; cbn [try_map]; [intros [= <-]; constructor|].
  destruct (f x) as [y|] eqn:Hx; [|done]. cbn [res_bind].
  destruct (try_map f l) as [ys'|]; [|done]. intros [= <-]. constructor; [done|]. by apply IH.
Qed.

Section discovery.
Context {T : Type} (toml_parse : string → option T) (toml_get : T → string → option T).
Context (toml_is_table : T → bool) (toml_array : T → option (list T)) (toml_str : T → option string).
Context (json_parse : string → option Json) (read : string → option string).

Abbreviation owner_of := (owner_of toml_parse toml_get toml_is_table toml_str json_parse read).
Abbreviation discover :=
  (discover_package_owners toml_parse toml_get toml_is_table toml_array toml_str json_parse read).

(** The kind is that of the file's name. *)
Definition kind_of_path (p : string) : option PackageOwnerKind :=
  match file_name p with
  | Some name =>
      if String.eqb name "Cargo.toml" then Some Cargo
      else if String.eqb name "package.json" then Some Npm
      else if String.eqb name "go.mod" then Some Go else None
  | None => None
  end.

Lemma owner_of_make p o :
  owner_of p = Ok (Some o) → ∃ k name, kind_of_path p = Some k ∧ o = make_owner k p name.
Proof.
  unfold Owners.owner_of, kind_of_path. destruct (file_name p) as [f|]; [|done].
  destruct (String.eqb f "Cargo.toml").
  { unfold parse_cargo_owner. destruct (read_toml _ _ _) as [v|]; [|done]. cbn [res_bind].
    destruct (toml_table _ _ v "package"); [|done]. intros [= <-]. by do 2 eexists. }
  destruct (String.eqb f "package.json").
  { unfold parse_npm_owner. destruct (read_json _ _ _) as [v|]; [|done]. cbn [res_bind].
    destruct (as_object v); [|done]. destruct (existsb _ _); [|done]. intros [= <-]. by do 2 eexists. }
  destruct (String.eqb f "go.mod"); [|done].
  unfold parse_go_owner. destruct (read_manifest _ _) as [v|]; [|done]. cbn [res_bind].
  intros [= <-]. by do 2 eexists.
Qed.

Lemma make_owner_id k k' p p' name name' :
  owner_id (make_owner k p name) = owner_id (make_owner k' p' name') → p = p'.
Proof.
  unfold make_owner. cbn [owner_id]. destruct k, k';
    cbv [PackageOwnerKind_as_str String.append]; by intros [= ?].
Qed.

(** Found owners that tie in the order, or have the same identity, are the same. *)
Lemma found_owner_same p q x y :
  owner_of p = Ok (Some x) → owner_of q = Ok (Some y) →
  (owners_cmp x y = Eq ↔ x = y) ∧ (owner_id x = owner_id y ↔ x = y).
Proof.
  intros Hx Hy. pose proof (owner_of_make _ _ Hx) as (k & n & _ & Ex).
  pose proof (owner_of_make _ _ Hy) as (k' & n' & _ & Ey).
  assert (p = q → x = y) as Hpq by (intros ->; congruence).
  split; split.
  - intros H. apply Hpq. subst x y. unfold owners_cmp, cmp_lex, then_with in H.
    destruct (cmp_rev _ _ _) in H; [|done|done]. by apply String.compare_eq_iff in H.
  - intros ->. apply (cmp_refl owners_cmp).
  - intros H. apply Hpq. subst x y. by apply make_owner_id in H.
  - by intros ->.
Qed.

Lemma discover_owners tracked po :
  discover (Ok tracked) = Ok po →
  ∃ found, try_map owner_of tracked = Ok found ∧
    owners po = dedup_by_key owner_id (sort_by owners_cmp (omap id found)).
Proof.
  unfold discover_package_owners. cbv zeta.
  destruct (root_workspace _ _ _) as [w1|]; [|done]. cbn [res_bind].
  destruct (root_workspace _ _ _) as [w2|]; [|done]. cbn [res_bind].
  destruct (root_workspace _ _ _) as [w3|]; [|done]. cbn [res_bind].
  destruct (try_map owner_of tracked) as [found|]; [|done]. cbn [res_bind].
  intros [= <-]. by exists found.
Qed.

Lemma found_elem tracked found o :
  try_map owner_of tracked = Ok found →
  o ∈ sort_by owners_cmp (omap id found) ↔ ∃ p, p ∈ tracked ∧ owner_of p = Ok (Some o).
Proof.
  intros H%try_map_Forall2. rewrite sort_by_elem, list_elem_of_omap. split.
  - intros (x & Hx & Ho). simpl in Ho. subst x.
    apply list_elem_of_lookup in Hx as [i Hi].
    destruct (Forall2_lookup_r _ _ _ _ _ H Hi) as (p & Hp & Ho). exists p.
    split; [|done]. by apply list_elem_of_lookup_2 in Hp.
  - intros (p & Hp & Ho). apply list_elem_of_lookup in Hp as [i Hi].
    destruct (Forall2_lookup_l _ _ _ _ _ H Hi) as (y & Hy & Hoy). exists (Some o).
    split; [|done]. rewrite Ho in Hoy. simplify_eq. by apply list_elem_of_lookup_2 in Hy.
Qed.

(** ** Properties *)

Lemma sorted_sublist {A} (R : A → A → Prop) (l k : list A) :
  sublist l k → StronglySorted R k → StronglySorted R l.
Proof.
  induction 1 as [|x l k Hs IH|x l k _ IH]; [done| |]; intros [Hk Hx]%StronglySorted_inv.
  - constructor; [by apply IH|]. rewrite Forall_forall in *. intros y Hy.
    apply Hx. eapply elem_of_submseteq; [exact Hy|by apply sublist_submseteq].
  - by apply IH.
Qed.

(** C35. When discovery succeeds, the owners of a repository are exactly the packages its
    tracked manifests declare, each once, however often a manifest is listed; owners with
    longer roots come first, those with roots of one length by their manifests. *)
Theorem discover_owners_exact tracked po :
  discover (Ok tracked) = Ok po →
  (∀ o, o ∈ owners po ↔ ∃ p, p ∈ tracked ∧ owner_of p = Ok (Some o)) ∧
  NoDup (map owner_id (owners po)) ∧ sorted_by owners_cmp (owners po).
Proof.
  intros (found & Hf & ->)%discover_owners. pose proof (λ o, found_elem _ _ o Hf) as Hel.
  assert (∀ x y, x ∈ sort_by owners_cmp (omap id found) → y ∈ sort_by owners_cmp (omap id found) →
    (owners_cmp x y = Eq ↔ x = y) ∧ (owner_id x = owner_id y ↔ x = y)) as Hsame.
  { intros x y (p & _ & Hp)%Hel (q & _ & Hq)%Hel. by apply (found_owner_same p q). }
  split_and!.
  - intros o. rewrite <-Hel. split.
    + intros Ho. eapply elem_of_submseteq; [exact Ho|].
      apply sublist_submseteq, dedup_by_key_sublist.
    + intros Ho. destruct (dedup_by_key_covers owner_id _ _ Ho) as (y & Hy & Hk).
      assert (y ∈ sort_by owners_cmp (omap id found)) as Hy'.
      { eapply elem_of_submseteq; [exact Hy|]. apply sublist_submseteq, dedup_by_key_sublist. }
      apply (Hsame y o Hy' Ho) in Hk. by subst.
  - apply (dedup_sorted_NoDup owner_id owners_cmp); [|apply sort_by_sorted; apply _].
    intros x y Hx Hy. destruct (Hsame x y Hx Hy) as [-> ->]. done.
  - eapply sorted_sublist; [apply dedup_by_key_sublist|]. apply sort_by_sorted; apply _.
Qed.
End discovery.

(** C24. The owner of a path is the nearest one: a package that encloses the path and that
    every other package enclosing the path encloses; there is none exactly when no package
    encloses the path. *)
Theorem owner_for_path_nearest po path :
  match owner_for_path po path with
  | Some o => o ∈ owners po ∧ encloses (owner_root o) path ∧
      ∀ o', o' ∈ owners po → encloses (owner_root o') path → encloses (owner_root o') (owner_root o)
  | None => ∀ o, o ∈ owners po → ¬ encloses (owner_root o) path
  end.
Proof.
  unfold owner_for_path.
  assert (∀ o, o ∈ filter (λ o, path_is_within_owner path (owner_root o)) (owners po) ↔
    o ∈ owners po ∧ encloses (owner_root o) path) as Hf.
  { intros o. rewrite list_elem_of_filter, Is_true_true, within_iff. tauto. }
  destruct (max_by owner_cmp _) as [o|] eqn:Hm.
  - apply max_by_spec in Hm as [Hin Hmax]; [|apply _]. apply Hf in Hin as [Ho He].
    split_and!; [done|done|]. intros o' Ho' He'. apply (encloses_chain _ _ path); [done|done|].
    assert (leb_of owner_cmp o' o = true) as Hle by (by apply Hmax, Hf).
    unfold leb_of, owner_cmp, cmp_lex, cmp_on, then_with in Hle.
    destruct (Nat.compare_spec (String.length (owner_root o')) (String.length (owner_root o))); [lia|lia|done].
  - intros o Ho He. assert (o ∈ filter (λ o, path_is_within_owner path (owner_root o)) (owners po)) as Hin
      by (by apply Hf).
    destruct (max_by_is_Some owner_cmp (filter (λ o, path_is_within_owner path (owner_root o)) (owners po)))
      as [? Hs]; [|congruence]. intros Hnil. rewrite Hnil in Hin. by apply elem_of_nil in Hin.
Qed.

(** A workspace has exactly the packages of the repository whose manifest is one of its
    kind and whose directory one of its patterns selects and no excluding pattern does. *)
Theorem workspace_members_exact include_patterns exclude_patterns manifests kind path roots os id :
  NoDup (map owner_manifest os) →
  let d := mk_definition kind path
    (resolve_member_manifest_paths include_patterns exclude_patterns manifests) roots in
  id ∈ member_owner_ids (make_workspace d os) ↔
  ∃ o, o ∈ os ∧ owner_id o = id ∧ owner_manifest o ∈ manifests ∧
       selects include_patterns exclude_patterns (manifest_root (owner_manifest o)).
Proof.
  intros Hnd d. unfold make_workspace.
  pose proof (add_members_ids os (member_manifest_paths d) (wd_member_roots d, [])) as Hids.
  destruct (foldl _ _ _) as [rs ids]. cbn [member_owner_ids snd app] in *. subst ids.
  rewrite list_elem_of_omap. cbn [member_manifest_paths d]. split.
  - intros (m & Hm & Ho). apply fmap_Some_1 in Ho as (o & Hf & ->).
    apply List.find_some in Hf as [Hin <-%String.eqb_eq].
    apply list_elem_of_filter in Hm as [Hs Hm]. exists o. rewrite list_elem_of_In.
    split_and!; [done|done|done|]. by apply Is_true_true, member_root_spec in Hs.
  - intros (o & Ho & <- & Hm & Hs). exists (owner_manifest o). split.
    { apply list_elem_of_filter. split; [|done]. by apply Is_true_true, member_root_spec. }
    assert (List.find (λ x, String.eqb (owner_manifest x) (owner_manifest o)) os = Some o) as ->; [|done].
    clear -Hnd Ho. induction os as [|x os IH]; [by apply elem_of_nil in Ho|].
    cbn [List.find]. cbn [map] in Hnd. apply NoDup_cons in Hnd as [Hx Hnd].
    apply elem_of_cons in Ho as [->|Ho]; [by rewrite String.eqb_refl|].
    destruct (String.eqb_spec (owner_manifest x) (owner_manifest o)) as [Heq|_]; [|by apply IH].
    destruct Hx. rewrite Heq. by apply list_elem_of_fmap_2.
Qed.

(** ** Runs *)

(** Documents are given as values already: a manifest's text is its path. *)
Definition demo_toml (contents : string) : option Json :=
  if String.eqb contents "Cargo.toml"
  then Some (JObject [("workspace", JObject [("members", JArray [JString "packages/*"]);
                                             ("exclude", JArray [JString "packages/old"])])])
  else Some (JObject [("package", JObject [("name", JString contents)])]).

Definition demo_table (v : Json) : bool := match v with JObject _ => true | _ => false end.
Definition demo_array (v : Json) : option (list Json) := match v with JArray l => Some l | _ => None end.

Definition demo_discover (read : string → option string) (tracked : list string) :
    result OwnersError PackageOwners :=
  discover_package_owners demo_toml (λ v key, json_get key v) demo_table demo_array as_str
    (λ _, None) read (Ok tracked).

Definition demo_tracked : list string :=
  ["Cargo.toml"; "packages/a/Cargo.toml"; "packages/a/src/lib.rs"; "packages/old/Cargo.toml"].

Lemma discover_owners_exact_witness :
  ∃ po, demo_discover Some demo_tracked = Ok po ∧
    map owner_id (owners po) = ["cargo:packages/old/Cargo.toml"; "cargo:packages/a/Cargo.toml"] ∧
    map member_owner_ids (workspaces po) = [["cargo:packages/a/Cargo.toml"]] ∧
    NoDup (map owner_id (owners po)).
Proof.
  eexists. split; [vm_compute; reflexivity|]. split; [reflexivity|]. split; [reflexivity|].
  refine (proj1 (proj2 (discover_owners_exact demo_toml (λ v key, json_get key v) demo_table demo_array
    as_str (λ _, None) Some demo_tracked _ _))).
  vm_compute. reflexivity.
Defined.

Lemma workspace_members_exact_witness :
  let a := make_owner Cargo "packages/a/Cargo.toml" None in
  let old := make_owner Cargo "packages/old/Cargo.toml" None in
  let manifests := ["packages/a/Cargo.toml"; "packages/old/Cargo.toml"] in
  let d := mk_definition Cargo "Cargo.toml"
    (resolve_member_manifest_paths ["packages/*"] ["packages/old"] manifests) [] in
  member_owner_ids (make_workspace d [old; a]) = ["cargo:packages/a/Cargo.toml"] ∧
  ∃ o, o ∈ [old; a] ∧ owner_id o = "cargo:packages/a/Cargo.toml" ∧ owner_manifest o ∈ manifests ∧
    selects ["packages/*"] ["packages/old"] (manifest_root (owner_manifest o)).
Proof.
  split; [vm_compute; reflexivity|].
  apply (workspace_members_exact ["packages/*"] ["packages/old"]
    ["packages/a/Cargo.toml"; "packages/old/Cargo.toml"] Cargo "Cargo.toml" []).
  - repeat constructor; rewrite ?elem_of_cons, ?elem_of_nil; intros H; naive_solver.
  - vm_compute. constructor.
Defined.

(** [use .] names the module at the root of the workspace, but its pattern is the text of a
    dot, and the root directory's name is empty: the module is no member, and a workspace of
    it alone is no workspace. *)
Definition go_repo (path : string) : option string :=
  if String.eqb path "go.work" then Some ("go 1.22" +:+ String newline "use .")
  else Some "module example.com/m".

Example go_work_root_module_lost :
  match demo_discover go_repo ["go.mod"; "go.work"; "main.go"] with
  | Ok po => map owner_id (owners po) = ["go:go.mod"] ∧ workspaces po = []
  | Err _ => False
  end.
Proof. vm_compute. auto. Qed.
