(* ===== verification/Diff.v ===== *)
(** * Changed files of a repository

    Model of [packages/atlas-repo/src/diff.rs]: the files that changed against a base, in the
    index or in the working tree, with the changes inside submodules. Git is a function from a
    directory and its arguments to what it prints; the file system answers whether a path is a
    directory or exists. The contexts that are wrapped around errors are left out. *)

From S2P Require Import Prelude RustStr RepoPath Scan.

(** ** Data *)

Inductive ChangeType := Added | Modified | Deleted | Renamed | Copied.

#[global] Instance ChangeType_eq_dec : EqDecision ChangeType.
Proof. solve_decision. Defined.

Record ChangedFile := mk_change { cf_path : string; change_type : ChangeType; old_path : option string }.

#[global] Instance ChangedFile_eq_dec : EqDecision ChangedFile.
Proof. solve_decision. Defined.

Inductive DiffTarget := BaseRef (spec : string) | Staged | WorkingTree.

Definition git_args (t : DiffTarget) : list string :=
  match t with
  | BaseRef r => ["diff"; "--name-status"; "-z"; r]
  | Staged => ["diff"; "--cached"; "--name-status"; "-z"]
  | WorkingTree => ["diff"; "--name-status"; "-z"]
  end.

(** [std::process::Output]. *)
Record Output := mk_output { success : bool; stdout : string; stderr : string }.

(** ** Parsing the output of git *)

Section parsing.
Context (nfc : string → string).

Definition canonical_git_diff_path (path : string) : result ScanError string :=
  lift_path (from_git_diff_path nfc path).

Inductive Status := Plain (t : ChangeType) | Pair (t : ChangeType) | Unknown.

(** The first character of a status field. *)
Definition status_of (field : string) : Status :=
  match field with
  | String "A" _ => Plain Added
  | String "M" _ => Plain Modified
  | String "D" _ => Plain Deleted
  | String "R" _ => Pair Renamed
  | String "C" _ => Pair Copied
  | _ => Unknown
  end.

(** The loop over the fields; an unknown status takes one path with it. *)
Fixpoint parse_fields (parts : list string) : result ScanError (list ChangedFile) :=
  match parts with
  | [] => Ok []
  | status_field :: parts =>
      match status_of status_field, parts with
      | Plain t, p :: parts =>
          path <-? canonical_git_diff_path p;;
          changes <-? parse_fields parts;;
          Ok (mk_change path t None :: changes)
      | Pair t, o :: n :: parts =>
          old <-? canonical_git_diff_path o;;
          path <-? canonical_git_diff_path n;;
          changes <-? parse_fields parts;;
          Ok (mk_change path t (Some old) :: changes)
      | Pair t, [o] =>
          old <-? canonical_git_diff_path o;;
          Err (Failed "unexpected end of git diff output")
      | Plain _, [] | Pair _, [] => Err (Failed "unexpected end of git diff output")
      | Unknown, _ :: parts => parse_fields parts
      | Unknown, [] => Ok []
      end
  end.

Definition parse_name_status_z (raw : string) : result ScanError (list ChangedFile) :=
  parse_fields (filter nonempty (split_char nul raw)).

(** ** Deduplication *)

Definition debug_type (t : ChangeType) : string :=
  match t with
  | Added => "Added" | Modified => "Modified" | Deleted => "Deleted" | Renamed => "Renamed"
  | Copied => "Copied"
  end.

Definition change_key (c : ChangedFile) : string :=
  debug_type (change_type c) +:+ String nul (cf_path c +:+ String nul (default "" (old_path c))).

(** [seen.insert(key)] and the push; the keys seen are those of the changes kept. *)
Definition dedup_step (kept : list ChangedFile) (c : ChangedFile) : list ChangedFile :=
  if bool_decide (change_key c ∈ map change_key kept) then kept else kept ++ [c].

Definition dedup_changes (changes : list ChangedFile) : list ChangedFile :=
  foldl dedup_step [] changes.

Definition prefix_rel_path (prefix rel_path : string) : string := path_join prefix rel_path.

Definition prefix_change (prefix : string) (c : ChangedFile) : ChangedFile :=
  mk_change (prefix_rel_path prefix (cf_path c)) (change_type c)
    (prefix_rel_path prefix <$> old_path c).

(** ** Git *)

Context (git : string → list string → result ScanError Output).
Context (is_dir is_file exists_path : string → bool) (lossy : string → string).

(** [ensure!(output.status.success(), ..)] and [from_utf8]. *)
Definition successful_stdout (what not_utf8 : string) (o : Output) : result ScanError string :=
  if success o then
    if valid_utf8 (stdout o) then Ok (stdout o) else Err (Failed not_utf8)
  else Err (Failed (what +:+ lossy (stderr o))).

Definition head_ref (repo_root : string) : option string :=
  match git repo_root ["rev-parse"; "HEAD"] with
  | Err _ => None
  | Ok o =>
      if success o && valid_utf8 (stdout o) then
        let value := trim (stdout o) in
        if str_is_empty value then None else Some value
      else None
  end.

Inductive ConfigSource := Worktree | Treeish (treeish : string).

Definition config_entry (entry : string) : result ScanError string :=
  match split_once newline entry with
  | None => Err (MalformedEntry entry)
  | Some (_, path) => Ok (to_forward_slashes path)
  end.

Definition submodule_paths_from_config (repo_root : string) (source : ConfigSource) :
    result ScanError (list string) :=
  let regexp := ["--get-regexp"; "^submodule\..*\.path$"] in
  let run args :=
    output <-? git repo_root (["config"; "-z"] ++ args ++ regexp);;
    if success output then
      if valid_utf8 (stdout output)
      then try_map config_entry (filter nonempty (split_char nul (stdout output)))
      else Err (Failed "submodule path output is not valid UTF-8")
    else Ok [] in
  match source with
  | Worktree =>
      if is_file (path_join repo_root ".gitmodules") then run ["--file"; ".gitmodules"] else Ok []
  | Treeish treeish => run ["--blob"; treeish +:+ ":.gitmodules"]
  end.

(** [str::split_once] on a text. *)
Definition split_once_str (sep s : string) : option (string * string) :=
  (λ i, (str_take i s, str_drop (i + String.length sep) s)) <$> find_sub sep s.

Definition diff_treeish_pair (repo_root spec : string) : result ScanError (string * string) :=
  match split_once_str "..." spec with
  | Some (l, r) =>
      output <-? git repo_root ["merge-base"; l; r];;
      if success output then Ok (trim (lossy (stdout output)), r)
      else Err (Failed ("git merge-base failed: " +:+ lossy (stderr output)))
  | None =>
      match split_once_str ".." spec with
      | Some (l, r) => Ok (l, r)
      | None => Ok (spec, "HEAD")
      end
  end.

(** [if seen.insert(path) { paths.push(path) }]. *)
Definition push_unseen (paths : list string) (path : string) : list string :=
  if bool_decide (path ∈ paths) then paths else paths ++ [path].

Definition known_submodule_paths (repo_root : string) (target : DiffTarget) :
    result ScanError (list string) :=
  let at_treeish treeish := submodule_paths_from_config repo_root (Treeish treeish) in
  worktree <-? submodule_paths_from_config repo_root Worktree;;
  let paths := foldl push_unseen [] worktree in
  match target with
  | BaseRef spec =>
      trees <-? diff_treeish_pair repo_root spec;;
      old <-? at_treeish (fst trees);;
      let paths := foldl push_unseen paths old in
      new <-? at_treeish (snd trees);;
      Ok (foldl push_unseen paths new)
  | Staged | WorkingTree =>
      head <-? at_treeish "HEAD";;
      Ok (foldl push_unseen paths head)
  end.

(** The text a [rev-parse] prints, if any. *)
Definition rev_parse (cwd spec : string) : result ScanError (option string) :=
  output <-? git cwd ["rev-parse"; spec];;
  Ok (if success output then
        let sha := trim (lossy (stdout output)) in
        if str_is_empty sha then None else Some sha
      else None).

Definition gitlink_sha_at_treeish (repo_root treeish submodule_path : string) :=
  rev_parse repo_root (treeish +:+ ":" +:+ submodule_path).
Definition gitlink_sha_in_index (repo_root submodule_path : string) :=
  rev_parse repo_root (":" +:+ submodule_path).

Definition initialized_submodule (submodule_root : string) : bool :=
  is_dir submodule_root && exists_path (path_join submodule_root ".git").

Definition gitlink_sha_in_worktree (repo_root submodule_path : string) :
    result ScanError (option string) :=
  let submodule_root := path_join repo_root submodule_path in
  if initialized_submodule submodule_root then rev_parse submodule_root "HEAD" else Ok None.

Definition gitlink_old_sha (repo_root : string) (target : DiffTarget) (submodule_path : string) :
    result ScanError (option string) :=
  match target with
  | BaseRef spec =>
      trees <-? diff_treeish_pair repo_root spec;;
      gitlink_sha_at_treeish repo_root (fst trees) submodule_path
  | Staged => gitlink_sha_at_treeish repo_root "HEAD" submodule_path
  | WorkingTree => gitlink_sha_in_index repo_root submodule_path
  end.

Definition gitlink_new_sha (repo_root : string) (target : DiffTarget) (submodule_path : string) :
    result ScanError (option string) :=
  match target with
  | BaseRef spec =>
      trees <-? diff_treeish_pair repo_root spec;;
      gitlink_sha_at_treeish repo_root (snd trees) submodule_path
  | Staged => gitlink_sha_in_index repo_root submodule_path
  | WorkingTree => gitlink_sha_in_worktree repo_root submodule_path
  end.

Definition submodule_git_dir (repo_root prefix : string) : result ScanError (option string) :=
  output <-? git repo_root ["rev-parse"; "--git-path"; "modules/" +:+ prefix];;
  if success output then
    let git_dir := trim (lossy (stdout output)) in
    if str_is_empty git_dir then Ok None
    else
      let path := to_forward_slashes git_dir in
      let resolved := if is_absolute path then path else path_join repo_root path in
      Ok (if exists_path resolved then Some resolved else None)
  else Ok None.

Definition submodule_git_output (repo_root prefix : string) (args : list string) :
    result ScanError (option Output) :=
  let submodule_root := path_join repo_root prefix in
  if initialized_submodule submodule_root then
    output <-? git submodule_root args;; Ok (Some output)
  else
    dir <-? submodule_git_dir repo_root prefix;;
    match dir with
    | None => Ok None
    | Some git_dir =>
        output <-? git repo_root
          (["-c"; "core.worktree=."; "--git-dir=" +:+ git_dir; "--work-tree=."] ++ args);;
        Ok (Some output)
    end.

Definition list_tree_paths (repo_root prefix treeish : string) : result ScanError (list string) :=
  output <-? submodule_git_output repo_root prefix ["ls-tree"; "-r"; "--name-only"; "-z"; treeish];;
  match output with
  | None => Ok []
  | Some o =>
      out <-? successful_stdout "git ls-tree for submodule failed: "
        "submodule tree output is not valid UTF-8" o;;
      Ok (map to_forward_slashes (filter nonempty (split_char nul out)))
  end.

Definition list_tree_changes (repo_root prefix treeish : string) (t : ChangeType) :
    result ScanError (list ChangedFile) :=
  entries <-? list_tree_paths repo_root prefix treeish;;
  Ok (map (λ entry, mk_change (prefix_rel_path prefix entry) t None) entries).

Definition diff_submodule_commits (repo_root prefix old_sha new_sha : string) :
    result ScanError (list ChangedFile) :=
  output <-? submodule_git_output repo_root prefix ["diff"; "--name-status"; "-z"; old_sha; new_sha];;
  match output with
  | None => Ok []
  | Some o =>
      out <-? successful_stdout "git diff for submodule failed: "
        "submodule diff output is not valid UTF-8" o;;
      changes <-? parse_name_status_z out;;
      Ok (map (prefix_change prefix) changes)
  end.

Definition expand_gitlink_delta (repo_root prefix : string) (old_sha new_sha : option string) :
    result ScanError (list ChangedFile) :=
  match old_sha, new_sha with
  | Some old_sha, Some new_sha =>
      if String.eqb old_sha new_sha then Ok []
      else diff_submodule_commits repo_root prefix old_sha new_sha
  | None, Some new_sha => list_tree_changes repo_root prefix new_sha Added
  | Some old_sha, None => list_tree_changes repo_root prefix old_sha Deleted
  | None, None => Ok []
  end.

Definition expand_submodule_path_change (repo_root : string) (t : ChangeType)
    (old_prefix new_prefix : string) (old_sha new_sha : option string) :
    result ScanError (list ChangedFile) :=
  match old_sha, new_sha with
  | Some old_sha, Some new_sha =>
      if String.eqb old_sha new_sha then
        paths <-? list_tree_paths repo_root old_prefix old_sha;;
        Ok (map (λ rel_path, mk_change (prefix_rel_path new_prefix rel_path) t
                   (Some (prefix_rel_path old_prefix rel_path))) paths)
      else
        expanded <-? list_tree_changes repo_root old_prefix old_sha Deleted;;
        added <-? list_tree_changes repo_root new_prefix new_sha Added;;
        Ok (expanded ++ added)
  | Some old_sha, None => list_tree_changes repo_root old_prefix old_sha Deleted
  | None, Some new_sha => list_tree_changes repo_root new_prefix new_sha Added
  | None, None => Ok []
  end.

Definition expand_submodule_marker (repo_root : string) (target : DiffTarget) (c : ChangedFile) :
    result ScanError (list ChangedFile) :=
  match change_type c with
  | Renamed | Copied =>
      match old_path c with
      | None => Ok []
      | Some old_prefix =>
          old_sha <-? gitlink_old_sha repo_root target old_prefix;;
          new_sha <-? gitlink_new_sha repo_root target (cf_path c);;
          expand_submodule_path_change repo_root (change_type c) old_prefix (cf_path c) old_sha new_sha
      end
  | _ =>
      old_sha <-? gitlink_old_sha repo_root target (cf_path c);;
      new_sha <-? gitlink_new_sha repo_root target (cf_path c);;
      expand_gitlink_delta repo_root (cf_path c) old_sha new_sha
  end.

Definition submodule_path_for_change (c : ChangedFile) (known : list string) : option string :=
  if bool_decide (cf_path c ∈ known) then Some (cf_path c)
  else
    match old_path c with
    | Some old => if bool_decide (old ∈ known) then Some old else None
    | None => None
    end.

Definition is_submodule_marker (c : ChangedFile) (known : list string) : bool :=
  match submodule_path_for_change c known with Some _ => true | None => false end.

(** ** The changes *)

(** A change at a submodule's path or inside it. *)
Definition under (submodule_path : string) (c : ChangedFile) : bool :=
  String.eqb (cf_path c) submodule_path ||
  match strip_prefix submodule_path (cf_path c) with
  | Some suffix => starts_with "/" suffix
  | None => false
  end.

(** One change of the repository itself: the results, and the expansions of submodules. *)
Definition place_change (repo_root : string) (target : DiffTarget) (known : list string)
    (recursive : list ChangedFile) (acc : list ChangedFile * list ChangedFile) (c : ChangedFile) :
    result ScanError (list ChangedFile * list ChangedFile) :=
  let (results, expanded) := acc in
  if negb (is_submodule_marker c known) then Ok (results ++ [c], expanded)
  else
    found <-? expand_submodule_marker repo_root target c;;
    match found with
    | _ :: _ => Ok (results, expanded ++ found)
    | [] =>
        match submodule_path_for_change c known with
        | Some path =>
            if existsb (under path) recursive then Ok (results, expanded)
            else Ok (results ++ [c], expanded)
        | None => Ok (results ++ [c], expanded)
        end
    end.

Fixpoint place_changes (repo_root : string) (target : DiffTarget) (known : list string)
    (recursive : list ChangedFile) (acc : list ChangedFile * list ChangedFile)
    (changes : list ChangedFile) : result ScanError (list ChangedFile * list ChangedFile) :=
  match changes with
  | [] => Ok acc
  | c :: changes =>
      acc <-? place_change repo_root target known recursive acc c;;
      place_changes repo_root target known recursive acc changes
  end.

Definition recursive_target (t : DiffTarget) : DiffTarget :=
  match t with BaseRef _ => BaseRef "HEAD" | t => t end.

(** One submodule of [collect_recursive_submodule_changes]; one that fails is skipped. *)
Definition collect_submodule (changed : string → option (result ScanError (list ChangedFile)))
    (repo_root : string) (acc : option (list ChangedFile)) (submodule_path : string) :
    option (list ChangedFile) :=
  results ← acc;
  let submodule_root := path_join repo_root submodule_path in
  if initialized_submodule submodule_root then
    found ← changed submodule_root;
    match found with
    | Ok changes => Some (results ++ map (prefix_change submodule_path) changes)
    | Err _ => Some results
    end
  else Some results.

(** The changes once those of the submodules are known. *)
Definition merge_changes (repo_root : string) (target : DiffTarget) (recursive : list ChangedFile) :
    result ScanError (list ChangedFile) :=
  known <-? known_submodule_paths repo_root target;;
  output <-? git repo_root (git_args target);;
  out <-? successful_stdout "git diff failed: " "git diff output is not valid UTF-8" output;;
  root_changes <-? parse_name_status_z out;;
  placed <-? place_changes repo_root target known recursive ([], []) root_changes;;
  Ok (dedup_changes (fst placed ++ recursive ++ snd placed)).

(** [changed_files] and [collect_recursive_submodule_changes]; [None] is no more fuel. *)
Fixpoint changed_files (fuel : nat) (repo_root : string) (target : DiffTarget) :
    option (result ScanError (list ChangedFile)) :=
  match fuel with
  | O => None
  | S fuel =>
      match known_submodule_paths repo_root target with
      | Err e => Some (Err e)
      | Ok paths =>
          recursive ← foldl (collect_submodule
              (λ root, changed_files fuel root (recursive_target target)) repo_root)
            (Some []) paths;
          Some (merge_changes repo_root target recursive)
      end
  end.
End parsing.

(** ** Records of git, printed and read *)

(** What git prints for one changed file: a status and one path, or two for a pair. *)
Inductive GitRecord := OnePath (status path : string) | TwoPaths (status old new : string).

Definition record_fields (r : GitRecord) : list string :=
  match r with OnePath s p => [s; p] | TwoPaths s o n => [s; o; n] end.

Definition print_fields (fields : list string) : string :=
  foldr (λ f rest, f +:+ String nul rest) "" fields.

Definition print_records (rs : list GitRecord) : string := print_fields (concat (map record_fields rs)).

Definition field_ok (f : string) : bool := nonempty f && no_char nul f.

(** The fields are texts, and git prints a second path exactly for renames and copies. *)
Definition record_ok (r : GitRecord) : bool :=
  forallb field_ok (record_fields r) &&
  match r with
  | OnePath s _ => match status_of s with Pair _ => false | _ => true end
  | TwoPaths s _ _ => match status_of s with Pair _ => true | _ => false end
  end.

Definition record_change (nfc : string → string) (r : GitRecord) : result ScanError (list ChangedFile) :=
  match r with
  | OnePath s p =>
      match status_of s with
      | Plain t => path <-? canonical_git_diff_path nfc p;; Ok [mk_change path t None]
      | _ => Ok []
      end
  | TwoPaths s o n =>
      match status_of s with
      | Pair t =>
          old <-? canonical_git_diff_path nfc o;;
          path <-? canonical_git_diff_path nfc n;;
          Ok [mk_change path t (Some old)]
      | _ => Ok []
      end
  end.

Lemma split_print fields :
  forallb field_ok fields = true →
  filter nonempty (split_char nul (print_fields fields)) = fields.
Proof.
  induction fields as [|f fields IH]; [done|]. cbn [forallb print_fields foldr].
  intros [[Hn Hf]%andb_true_iff Hrest]%andb_true_iff.
  rewrite split_char_app by done. rewrite filter_cons_True by (by rewrite Hn).
  f_equal. by apply IH.
Qed.

Lemma parse_records nfc rs rest :
  forallb record_ok rs = true →
  parse_fields nfc (concat (map record_fields rs) ++ rest) =
    changes <-? try_map (record_change nfc) rs;;
    after <-? parse_fields nfc rest;;
    Ok (concat changes ++ after).
Proof.
  induction rs as [|r rs IH]; intros Hok.
  { simpl. by destruct (parse_fields nfc rest). }
  cbn [forallb] in Hok. apply andb_true_iff in Hok as [[_ Hr]%andb_true_iff Hrs].
  specialize (IH Hrs). destruct r as [s p|s o n].
  - cbn [map record_fields concat app]. cbn [parse_fields try_map record_change].
    destruct (status_of s) as [t|t|]; [|done|].
    + destruct (canonical_git_diff_path nfc p) as [path|]; [|done]. cbn [res_bind].
      rewrite IH. destruct (try_map _ rs); [|done]. cbn [res_bind].
      by destruct (parse_fields nfc rest).
    + rewrite IH. cbn [res_bind]. by destruct (try_map _ rs).
  - cbn [map record_fields concat app]. cbn [parse_fields try_map record_change].
    destruct (status_of s) as [t|t|]; [done| |done].
    destruct (canonical_git_diff_path nfc o) as [old|]; [|done]. cbn [res_bind].
    destruct (canonical_git_diff_path nfc n) as [path|]; [|done]. cbn [res_bind].
    rewrite IH. destruct (try_map _ rs); [|done]. cbn [res_bind].
    by destruct (parse_fields nfc rest).
Qed.

Lemma record_fields_ok rs :
  forallb record_ok rs = true → forallb field_ok (concat (map record_fields rs)) = true.
Proof.
  induction rs as [|r rs IH]; [done|]. cbn [forallb map concat].
  intros [[Hr _]%andb_true_iff Hrs]%andb_true_iff.
  rewrite forallb_app, Hr. by apply IH.
Qed.

(** C33. Reading the status listing of git gives back the changes of the records it was printed
    from, in order: additions, modifications and deletions with their path, renames and copies
    with both, and nothing for a status that is not known; the first path that is not a path of
    the repository is the error. A listing that breaks off after a status is an error when the
    status is known. *)
Theorem name_status_roundtrip (nfc : string → string) (rs : list GitRecord) :
  forallb record_ok rs = true →
  parse_name_status_z nfc (print_records rs) =
    (changes <-? try_map (record_change nfc) rs;; Ok (concat changes)) ∧
  ∀ s, field_ok s = true →
    parse_name_status_z nfc (print_fields (concat (map record_fields rs) ++ [s])) =
      changes <-? try_map (record_change nfc) rs;;
      match status_of s with
      | Unknown => Ok (concat changes)
      | _ => Err (Failed "unexpected end of git diff output")
      end.
Proof.
  intros Hok. pose proof (record_fields_ok rs Hok) as Hf. unfold parse_name_status_z. split.
  - unfold print_records. rewrite split_print by done.
    rewrite <-(app_nil_r (concat _)), parse_records by done.
    destruct (try_map _ rs); [|done]. cbn [res_bind parse_fields]. by rewrite app_nil_r.
  - intros s Hs. rewrite split_print by (rewrite forallb_app, Hf; cbn; by rewrite Hs).
    rewrite parse_records by done. destruct (try_map _ rs); [|done].
    cbn [res_bind parse_fields]. destruct (status_of s); cbn [res_bind]; [done|done|].
    by rewrite app_nil_r.
Qed.

Lemma name_status_roundtrip_witness :
  let rs := [OnePath "M" "src\lib.rs"; OnePath "T" "link"; TwoPaths "R100" "old.rs" "new.rs"] in
  parse_name_status_z (λ s, s) (print_records rs) =
    Ok [mk_change "src/lib.rs" Modified None; mk_change "new.rs" Renamed (Some "old.rs")] ∧
  parse_name_status_z (λ s, s) (print_fields (concat (map record_fields rs) ++ ["D"])) =
    Err (Failed "unexpected end of git diff output").
Proof.
  intros rs. destruct (name_status_roundtrip (λ s, s) rs) as [H1 H2]; [vm_compute; reflexivity|].
  split; [rewrite H1|rewrite H2 by (vm_compute; reflexivity)]; vm_compute; reflexivity.
Defined.

(** ** Each change once *)

(** Paths as git reports them, and an old path only where there is one. *)
Definition change_ok (c : ChangedFile) : bool :=
  no_char nul (cf_path c) &&
  match old_path c with Some o => nonempty o && no_char nul o | None => true end.

Lemma change_key_inj c d :
  change_ok c = true → change_ok d = true → change_key c = change_key d → c = d.
Proof.
  destruct c as [p t o], d as [p' t' o']. unfold change_ok, change_key. cbn.
  intros [Hp Ho]%andb_true_iff [Hp' Ho']%andb_true_iff H.
  apply split_inj in H as [Ht H]; [|by destruct t|by destruct t'].
  apply split_inj in H as [-> H]; [|done|done].
  assert (t = t') as -> by (by destruct t, t').
  destruct o as [o|], o' as [o'|]; cbn in H; [by subst o'| | |done].
  - by subst o.
  - by subst o'.
Qed.

Lemma dedup_step_spec acc c :
  (change_key c ∈ map change_key acc ∧ dedup_step acc c = acc) ∨
  ((change_key c ∉ map change_key acc) ∧ dedup_step acc c = acc ++ [c]).
Proof. unfold dedup_step. case_bool_decide; auto. Qed.

Lemma dedup_keys changes k :
  k ∈ map change_key (dedup_changes changes) ↔ k ∈ map change_key changes.
Proof.
  unfold dedup_changes.
  rewrite (push_new_keys change_key Some dedup_step dedup_step_spec), !list_elem_of_fmap.
  split.
  - intros [(? & _ & ?%elem_of_nil)|(b & a & Hb & [= <-] & <-)]; [done|]. by exists b.
  - intros (c & -> & Hc). right. by exists c, c.
Qed.

Lemma dedup_NoDup changes : NoDup (map change_key (dedup_changes changes)).
Proof.
  apply (push_new_NoDup change_key Some dedup_step dedup_step_spec). constructor.
Qed.

Lemma dedup_snoc changes c :
  dedup_changes (changes ++ [c]) = dedup_step (dedup_changes changes) c.
Proof. unfold dedup_changes. by rewrite foldl_app. Qed.

Lemma dedup_app_prefix pre post : ∃ more, dedup_changes (pre ++ post) = dedup_changes pre ++ more.
Proof.
  induction post as [|c post IH] using rev_ind; [exists []; by rewrite !app_nil_r|].
  destruct IH as [more IH]. rewrite app_assoc, dedup_snoc, IH.
  destruct (dedup_step_spec (dedup_changes pre ++ more) c) as [[_ ->]|[_ ->]]; [by exists more|].
  exists (more ++ [c]). by rewrite app_assoc.
Qed.

Lemma dedup_sublist changes : sublist (dedup_changes changes) changes.
Proof.
  induction changes as [|c changes IH] using rev_ind; [constructor|]. rewrite dedup_snoc.
  destruct (dedup_step_spec (dedup_changes changes) c) as [[_ ->]|[_ ->]].
  - by apply sublist_inserts_r.
  - by apply sublist_app.
Qed.

Lemma dedup_elem c changes : c ∈ dedup_changes changes → c ∈ changes.
Proof. intros Hc. eapply elem_of_submseteq; [exact Hc|]. apply sublist_submseteq, dedup_sublist. Qed.

(** Deduplication keeps the first of equal changes, in their order, and nothing else is
    lost: on changes as git reports them the result is the list without repetitions. *)
Theorem dedup_exact (changes : list ChangedFile) :
  forallb change_ok changes = true →
  sublist (dedup_changes changes) changes ∧ NoDup (dedup_changes changes) ∧
  (∀ c, c ∈ dedup_changes changes ↔ c ∈ changes) ∧
  ∀ pre c post, changes = pre ++ c :: post → c ∉ pre →
    ∃ more, dedup_changes changes = dedup_changes pre ++ c :: more.
Proof.
  intros Hok. rewrite forallb_forall in Hok.
  assert (∀ c d, c ∈ changes → d ∈ changes → change_key c = change_key d → c = d) as Hinj.
  { intros c d Hc Hd. apply change_key_inj; apply Hok; by apply list_elem_of_In. }
  pose proof (dedup_sublist changes) as Hsub. split_and!.
  - done.
  - eapply NoDup_fmap_1, dedup_NoDup.
  - intros c. split; [apply dedup_elem|]. intros Hc.
    assert (change_key c ∈ map change_key (dedup_changes changes)) as Hk.
    { apply dedup_keys, list_elem_of_fmap. by exists c. }
    apply list_elem_of_fmap in Hk as (d & Heq & Hd).
    rewrite (Hinj c d); [done|done| |done]. by apply dedup_elem.
  - intros pre c post -> Hn. destruct (dedup_app_prefix (pre ++ [c]) post) as [more Hm].
    rewrite <-app_assoc in Hm. cbn [app] in Hm. rewrite Hm, dedup_snoc.
    destruct (dedup_step_spec (dedup_changes pre) c) as [[Hk _]|[_ ->]].
    + exfalso. apply Hn. rewrite dedup_keys in Hk. apply list_elem_of_fmap in Hk as (d & Heq & Hd).
      rewrite (Hinj c d); [done|set_solver|set_solver|done].
    + exists more. by rewrite <-app_assoc.
Qed.

Lemma dedup_exact_witness :
  let a := mk_change "a" Modified None in
  let b := mk_change "b" Renamed (Some "a") in
  dedup_changes [a; b; a; b] = [a; b] ∧
  NoDup (dedup_changes [a; b; a; b]).
Proof.
  intros a b. split; [vm_compute; reflexivity|].
  apply (dedup_exact [a; b; a; b]). vm_compute. reflexivity.
Defined.

(** ** What becomes of each change *)

Section merging.
Context (nfc : string → string) (git : string → list string → result ScanError Output).
Context (is_dir exists_path : string → bool) (lossy : string → string).
Context (repo_root : string) (target : DiffTarget) (known : list string).
Context (recursive : list ChangedFile).

Abbreviation expand := (expand_submodule_marker nfc git is_dir exists_path lossy repo_root target).
Abbreviation place := (place_changes nfc git is_dir exists_path lossy repo_root target known recursive).

(** The changes that stand for one change of the repository itself. *)
Definition stands_for (c d : ChangedFile) : Prop :=
  if is_submodule_marker c known then
    ∃ found, expand c = Ok found ∧
      (d ∈ found ∨
       found = [] ∧ ∃ path, submodule_path_for_change c known = Some path ∧
         if existsb (under path) recursive then d ∈ recursive ∧ under path d = true else d = c)
  else d = c.

(** The changes that are added for one change of the repository itself. *)
Definition added_for (c d : ChangedFile) : Prop :=
  if is_submodule_marker c known then
    ∃ found, expand c = Ok found ∧
      (d ∈ found ∨
       found = [] ∧ d = c ∧ ∃ path, submodule_path_for_change c known = Some path ∧
         existsb (under path) recursive = false)
  else d = c.

Lemma place_change_spec results expanded c results' expanded' :
  place_change nfc git is_dir exists_path lossy repo_root target known recursive
    (results, expanded) c = Ok (results', expanded') →
  (∀ d, d ∈ results' ++ expanded' ↔ d ∈ results ++ expanded ∨ added_for c d) ∧
  ∃ d, stands_for c d ∧ (d ∈ results' ++ expanded' ∨ d ∈ recursive).
Proof.
  unfold place_change, added_for, stands_for, is_submodule_marker.
  destruct (submodule_path_for_change c known) as [path|] eqn:Hp; cbn [negb].
  - destruct (expand c) as [[|x found]|] eqn:He; cbn [res_bind]; [| |done].
    + destruct (existsb (under path) recursive) eqn:Hu; intros [= <- <-].
      * split.
        -- intros d. split; [auto|].
           intros [?|(found & [= <-] & [?%elem_of_nil|(_ & _ & p & [= <-] & ?)])]; [done|done|congruence].
        -- apply existsb_exists in Hu as Hex. destruct Hex as (d & Hd & Hud).
           apply list_elem_of_In in Hd. exists d. split; [|auto].
           exists []. split; [done|]. right. split; [done|]. exists path. by rewrite Hu.
      * split.
        -- intros d. rewrite !elem_of_app, list_elem_of_singleton. split.
           ++ intros [[?| ->]|?]; [auto| |auto]. right. exists []. split; [done|]. right.
              split_and!; [done|done|]. by exists path.
           ++ intros [[?|?]|(found & [= <-] & [?%elem_of_nil|(_ & -> & _)])]; auto; done.
        -- exists c. split; [|set_solver].
           exists []. split; [done|]. right. split; [done|]. exists path. by rewrite Hu.
    + intros [= <- <-]. split.
      * intros d. rewrite !elem_of_app. split.
        -- intros [?|[?|Hd]]; [auto|auto|]. right. exists (x :: found). auto.
        -- intros [[?|?]|(f & [= <-] & [Hd|(? & _)])]; [auto|auto|auto|done].
      * exists x. split; [|set_solver]. exists (x :: found). split; [done|]. left. set_solver.
  - intros [= <- <-]. split; [set_solver|]. exists c. set_solver.
Qed.

Lemma place_changes_spec roots : ∀ results expanded results' expanded',
  place (results, expanded) roots = Ok (results', expanded') →
  (∀ d, d ∈ results' ++ expanded' ↔ d ∈ results ++ expanded ∨ ∃ c, c ∈ roots ∧ added_for c d) ∧
  ∀ c, c ∈ roots → ∃ d, stands_for c d ∧ (d ∈ results' ++ expanded' ∨ d ∈ recursive).
Proof.
  induction roots as [|c roots IH]; intros results expanded results' expanded'; cbn [place_changes].
  { intros [= <- <-]. split; [|by intros c ?%elem_of_nil]. intros d. split; [auto|].
    intros [?|(c & ?%elem_of_nil & _)]; done. }
  destruct (place_change _ _ _ _ _ _ _ _ _ _ c) as [[rs es]|] eqn:Hc; [|done]. cbn [res_bind].
  intros [Hadd Hall]%IH. apply place_change_spec in Hc as [Hadd1 (d1 & Hs1 & Hd1)]. split.
  - intros d. rewrite Hadd, Hadd1. setoid_rewrite elem_of_cons.
    split; [intros [[?|?]|(c' & ? & ?)]; eauto|].
    intros [?|(c' & [-> |?] & ?)]; eauto.
  - intros c' [-> |Hc']%elem_of_cons; [|by apply Hall]. exists d1. split; [done|].
    destruct Hd1 as [Hd1|?]; [left|by right]. apply Hadd. by left.
Qed.
End merging.

(** C15. No change is lost and none is made up. When the changes of a repository are found,
    they were read from git's listing. Up to repetition they are exactly the changes that the
    submodules' own repositories reported and those that each change of the listing adds:
    itself, or, when it marks a submodule, every change the marker expands to, and the marker
    itself when it expands to nothing and its submodule reported nothing. So each change of
    the listing is stood for by at least one change found; every change found is one of those
    named; and no change is repeated. *)
Theorem merge_changes_exact nfc git is_dir is_file exists_path lossy repo_root target recursive results :
  merge_changes nfc git is_dir is_file exists_path lossy repo_root target recursive = Ok results →
  ∃ known output listing roots,
    known_submodule_paths git is_file lossy repo_root target = Ok known ∧
    git repo_root (git_args target) = Ok output ∧ success output = true ∧ stdout output = listing ∧
    parse_name_status_z nfc listing = Ok roots ∧
    NoDup (map change_key results) ∧
    (∀ c, c ∈ roots → ∃ d,
       stands_for nfc git is_dir exists_path lossy repo_root target known recursive c d ∧
       change_key d ∈ map change_key results) ∧
    (∀ d, (d ∈ recursive ∨ ∃ c, c ∈ roots ∧
        added_for nfc git is_dir exists_path lossy repo_root target known recursive c d) →
      change_key d ∈ map change_key results) ∧
    ∀ d, d ∈ results → d ∈ recursive ∨ ∃ c, c ∈ roots ∧
       added_for nfc git is_dir exists_path lossy repo_root target known recursive c d.
Proof.
  unfold merge_changes. destruct (known_submodule_paths _ _ _ _ _) as [known|] eqn:Hk; [|done].
  cbn [res_bind]. destruct (git repo_root (git_args target)) as [output|] eqn:Hg; [|done].
  cbn [res_bind]. unfold successful_stdout. destruct (success output) eqn:Hs; [|done].
  destruct (valid_utf8 _); [|done]. cbn [res_bind].
  destruct (parse_name_status_z nfc _) as [roots|] eqn:Hr; [|done]. cbn [res_bind].
  destruct (place_changes _ _ _ _ _ _ _ _ _ _ roots) as [[kept expanded]|] eqn:Hp; [|done].
  cbn [res_bind fst snd]. intros [= <-]. apply place_changes_spec in Hp as [Hadd Hall].
  exists known, output, (stdout output), roots. split_and!; try done.
  - apply dedup_NoDup.
  - intros c Hc. destruct (Hall c Hc) as (d & Hd & Hin). exists d. split; [done|].
    apply dedup_keys, list_elem_of_fmap. exists d. split; [done|].
    rewrite !elem_of_app in *. naive_solver.
  - intros d Hd. apply dedup_keys, list_elem_of_fmap. exists d. split; [done|].
    rewrite !elem_of_app. destruct Hd as [Hd|Hd]; [auto|].
    assert (d ∈ kept ++ expanded) as Hin by (apply Hadd; by right).
    apply elem_of_app in Hin. naive_solver.
  - intros d Hd. assert (d ∈ kept ++ recursive ++ expanded) as Hin.
    { by apply dedup_elem. }
    rewrite !elem_of_app in Hin. destruct Hin as [Hin|[Hin|Hin]]; [right|by left|right];
      assert (d ∈ kept ++ expanded) as Hd' by (apply elem_of_app; auto);
      apply Hadd in Hd' as [?%elem_of_nil|?]; done.
Qed.

(** ** Termination *)

Section termination.
Context (nfc : string → string) (git : string → list string → result ScanError Output).
Context (is_dir is_file exists_path : string → bool) (lossy : string → string).

Abbreviation changed := (changed_files nfc git is_dir is_file exists_path lossy).

Lemma collect_submodules_some inner repo_root paths :
  (∀ p, p ∈ paths → initialized_submodule is_dir exists_path (path_join repo_root p) = true →
     is_Some (inner (path_join repo_root p))) →
  ∀ acc, is_Some (foldl (collect_submodule is_dir exists_path inner repo_root) (Some acc) paths).
Proof.
  induction paths as [|p paths IH]; intros Hin acc; cbn [foldl]; [by eexists|].
  unfold collect_submodule at 2. cbn [mbind option_bind].
  assert (∀ acc, is_Some (foldl (collect_submodule is_dir exists_path inner repo_root) (Some acc) paths))
    as Hrest. { apply IH. intros q Hq. apply Hin. by right. }
  destruct (initialized_submodule _ _ _) eqn:Hi; [|apply Hrest].
  destruct (Hin p ltac:(by left) Hi) as [r ->]. cbn [mbind option_bind].
  destruct r; apply Hrest.
Qed.

(** The working trees of submodules lie at smaller ranks than the repositories that name
    them, as in a tree of directories. *)
Definition nested (rank : string → nat) : Prop :=
  ∀ root target paths p,
    known_submodule_paths git is_file lossy root target = Ok paths → p ∈ paths →
    initialized_submodule is_dir exists_path (path_join root p) = true →
    (rank (path_join root p) < rank root)%nat.

Lemma changed_files_returns rank : nested rank →
  ∀ fuel root target, (rank root < fuel)%nat → is_Some (changed fuel root target).
Proof.
  intros Hn. induction fuel as [|fuel IH]; intros root target Hf; [lia|].
  cbn [changed_files]. destruct (known_submodule_paths _ _ _ _ _) as [paths|] eqn:Hk; [|by eexists].
  destruct (collect_submodules_some (λ root, changed fuel root (recursive_target target)) root paths)
    with (acc := @nil ChangedFile) as [r ->]; [|by eexists].
  intros p Hp Hi. apply IH. specialize (Hn _ _ _ _ Hk Hp Hi). lia.
Qed.
End termination.

(** The search for changes ends when every submodule's working tree lies below its
    repository: it recurses once for each level and one time more. (Unlike the listing of
    files it keeps no set of the repositories it has visited; [self_submodule_diverges] is a
    world where it does not end.) *)
Theorem changed_files_terminates nfc git is_dir is_file exists_path lossy rank root target :
  nested git is_dir is_file exists_path lossy rank →
  ∃ r, changed_files nfc git is_dir is_file exists_path lossy (S (rank root)) root target = Some r.
Proof. intros Hn. eapply changed_files_returns; [exact Hn|lia]. Qed.

(** ** Runs *)

(** [/r] with a changed submodule [sub], which has a change of its own. *)
Definition demo_answer (cwd : string) (args : list string) : option string :=
  let line s := Some (s +:+ String newline "") in
  let fields l := Some (print_fields l) in
  let asked l := bool_decide (args = l) in
  if String.eqb cwd "/r" then
    if asked (["config"; "-z"; "--file"; ".gitmodules"; "--get-regexp"; "^submodule\..*\.path$"])
    then fields ["submodule.sub.path" +:+ String newline "sub"]
    else if asked ["diff"; "--name-status"; "-z"] then fields ["M"; "a.rs"; "M"; "sub"]
    else if asked ["rev-parse"; ":sub"] then line "1"
    else None
  else
    if asked ["diff"; "--name-status"; "-z"] then fields ["M"; "c.rs"]
    else if asked ["rev-parse"; "HEAD"] then line "2"
    else if asked ["diff"; "--name-status"; "-z"; "1"; "2"] then fields ["A"; "b.rs"]
    else None.

Definition demo_git (cwd : string) (args : list string) : result ScanError Output :=
  Ok (match demo_answer cwd args with
      | Some out => mk_output true out ""
      | None => mk_output false "" "fatal"
      end).
Definition demo_dir (p : string) : bool := String.eqb p "/r/sub".
Definition demo_file (p : string) : bool := String.eqb p "/r/.gitmodules".
Definition demo_exists (p : string) : bool := String.eqb p "/r/sub/.git".

Abbreviation demo_results :=
  [mk_change "a.rs" Modified None; mk_change "sub/c.rs" Modified None;
   mk_change "sub/b.rs" Added None].

Lemma merge_changes_exact_witness :
  changed_files (λ s, s) demo_git demo_dir demo_file demo_exists (λ s, s) 2 "/r" WorkingTree =
    Some (Ok demo_results) ∧
  NoDup (map change_key demo_results).
Proof.
  split; [vm_compute; reflexivity|].
  destruct (merge_changes_exact (λ s, s) demo_git demo_dir demo_file demo_exists (λ s, s) "/r"
    WorkingTree [mk_change "sub/c.rs" Modified None] demo_results)
    as (known & output & listing & roots & _ & _ & _ & _ & _ & H & _); [|exact H].
  vm_compute. reflexivity.
Defined.

Lemma demo_config_elsewhere root source :
  String.eqb root "/r" = false →
  submodule_paths_from_config demo_git demo_file root source = Ok [].
Proof.
  intros Hr. unfold submodule_paths_from_config, demo_git, demo_answer. rewrite Hr.
  destruct source; [by destruct (demo_file _)|done].
Qed.

Lemma demo_nested :
  nested demo_git demo_dir demo_file demo_exists (λ s, s) (λ p, if String.eqb p "/r" then 1 else 0)%nat.
Proof.
  intros root target paths p Hk Hp [Hd%String.eqb_eq _]%andb_true_iff. rewrite Hd.
  destruct (String.eqb root "/r") eqn:Hr; [vm_compute; lia|]. exfalso. revert Hk Hp.
  unfold known_submodule_paths. rewrite !demo_config_elsewhere by done. cbn [res_bind foldl].
  destruct target as [spec| |]; [destruct (diff_treeish_pair _ _ _ _) as [trees|]; [|done]|..];
    cbn [res_bind]; rewrite ?demo_config_elsewhere by done; cbn [res_bind foldl];
    intros [= <-] ?%elem_of_nil; done.
Qed.

Lemma changed_files_terminates_witness :
  ∃ r, changed_files (λ s, s) demo_git demo_dir demo_file demo_exists (λ s, s) 2 "/r" WorkingTree = Some r.
Proof.
  apply (changed_files_terminates (λ s, s) demo_git demo_dir demo_file demo_exists (λ s, s)
    (λ p, if String.eqb p "/r" then 1 else 0)%nat "/r").
  apply demo_nested.
Defined.

(** A repository whose [.gitmodules] names the repository itself. *)
Definition self_git (cwd : string) (args : list string) : result ScanError Output :=
  Ok (mk_output true ("submodule.self.path" +:+ String newline "." +:+ String nul "") "").

Theorem self_submodule_diverges fuel root :
  changed_files (λ s, s) self_git (λ _, true) (λ _, true) (λ _, true) (λ s, s) fuel root WorkingTree =
    None.
Proof.
  revert root. induction fuel as [|fuel IH]; intros root; [done|].
  cbn [changed_files recursive_target].
  change (known_submodule_paths self_git (λ _, true) (λ s, s) root WorkingTree)
    with (@Ok ScanError _ ["."]).
  cbn [foldl]. unfold collect_submodule. cbn [mbind option_bind].
  change (initialized_submodule (λ _, true) (λ _, true) (path_join root ".")) with true.
  cbn. by rewrite IH.
Qed.
