(* ===== verification/Graph.v ===== *)
(** * Graph nodes and edges

    Model of the node and edge records of [packages/atlas-core/src/model/graph.rs]. The
    free-form JSON they carry is kept apart ([CNode], [CEdge]), for the components that read
    it; the repository provenance is part of it. Floating-point fields are binary32 values. *)

From Stdlib Require Import Floats.SpecFloat.
From S2P Require Import Prelude RustStr RustFloat Kinds Json.

Record Node := mk_node {
  n_id : Z;
  n_kind : NodeKind;
  n_name : string;
  n_qualified_name : string;
  n_file_path : string;
  n_line_start : N;
  n_line_end : N;
  n_language : string;
  n_parent_name : option string;
  n_params : option string;
  n_return_type : option string;
  n_modifiers : option string;
  n_is_test : bool;
  n_file_hash : string
}.

Record Edge := mk_edge {
  e_id : Z;
  e_kind : EdgeKind;
  e_source_qn : string;
  e_target_qn : string;
  e_file_path : string;
  e_line : option N;
  e_confidence : spec_float;
  e_confidence_tier : option string
}.

(** With their free-form JSON. *)
Record CNode := mk_cnode { cn_node : Node; cn_extra : Json }.
Record CEdge := mk_cedge { ce_edge : Edge; ce_extra : Json }.

(** [Node::chunk_text]: the text a node is embedded as. *)
Definition chunk_text (n : Node) : string :=
  NodeKind_as_str (n_kind n) +:+ " " +:+ n_name n +:+
  match n_params n with
  | Some p => if str_is_empty p then "" else "(" +:+ p +:+ ")"
  | None => ""
  end +:+
  match n_return_type n with
  | Some r => if str_is_empty r then "" else " -> " +:+ r
  | None => ""
  end +:+ "  [" +:+ n_qualified_name n +:+ "]".
