(* ===== verification/Edits.v ===== *)
(** * Line edits of the refactoring engine

    Model of [packages/atlas-refactor/src/edits.rs] and of the edit record of
    [packages/atlas-core/src/model/refactor.rs]. Lines are texts without their end-of-line
    marks; Rust's panics (an index or a drained range out of bounds, a slice inside a
    character) are values of the error type. *)

From S2P Require Import Prelude RustStr.

(** ** Edits *)

Inductive RefactorEditKind := RenameOccurrence | RemoveSpan | RemoveImport.

Record RefactorEdit := mk_edit {
  file_path : string;
  line_start : N;
  line_end : N;
  old_text : string;
  new_text : string;
  edit_kind : RefactorEditKind
}.

Inductive EditError :=
| OutOfRange (first last n_lines : N) (path : string)
| EmptyName
| BadStart (name : string)
| BadChar (name character : string)
| Overlap (end_a start_b : N) (path : string)
| Panic.

#[global] Instance RefactorEditKind_eq_dec : EqDecision RefactorEditKind.
Proof. solve_decision. Defined.
#[global] Instance RefactorEdit_eq_dec : EqDecision RefactorEdit.
Proof. solve_decision. Defined.
#[global] Instance EditError_eq_dec : EqDecision EditError.
Proof. solve_decision. Defined.

(** ** Applying edits *)

(** [Vec::drain(first..=last)]; the range may be empty, but not reversed. *)
Definition drain (first last : nat) (l : list string) : result EditError (list string) :=
  if (S last <? first)%nat || (length l <=? last)%nat then Err Panic
  else Ok (take first l ++ drop (S last) l).

(** One iteration of the loop. *)
Definition apply_edit (lines : list string) (edit : RefactorEdit) :
    result EditError (list string) :=
  let start := N.to_nat (line_start edit - 1) in
  let last := N.to_nat (line_end edit - 1) in
  if (length lines <? start)%nat || (length lines <=? last)%nat then
    Err (OutOfRange (line_start edit) (line_end edit) (N.of_nat (length lines)) (file_path edit))
  else if str_is_empty (new_text edit) then drain start last lines
  else if (length lines <=? start)%nat then Err Panic
  else
    let lines := <[start := new_text edit]> lines in
    if (start <? last)%nat then drain (S start) last lines else Ok lines.

Fixpoint apply_edit_lines (lines : list string) (edits : list RefactorEdit) :
    result EditError (list string) :=
  match edits with
  | [] => Ok lines
  | edit :: edits => lines <-? apply_edit lines edit;; apply_edit_lines lines edits
  end.

Definition nl : string := String newline "".

Definition apply_edits (content : string) (edits : list RefactorEdit) : result EditError string :=
  out <-? apply_edit_lines (lines content) edits;;
  Ok (join nl out +:+ (if ends_with_char newline content then nl else "")).

(** ** Renaming whole words *)

Definition is_ident_byte (b : ascii) : bool := is_ascii_alphanumeric b || Ascii.eqb b "_".

(** [result.push(byte as char)]: the byte is read as a code point and written as UTF-8. *)
Definition push_byte_as_char (b : ascii) : string :=
  if is_ascii_byte b then String b ""
  else String (chr (192 + byte_val b / 64)) (String (chr (128 + byte_val b mod 64)) "").

(** The byte after the first [n] bytes is not an identifier byte. *)
Definition after_ok (n : nat) (s : string) : bool :=
  match String.get n s with
  | Some b => negb (is_ident_byte b)
  | None => true
  end.

Definition before_ok (prev : option ascii) : bool :=
  match prev with Some b => negb (is_ident_byte b) | None => true end.

Section replace.
Context (old new : string).

(** The scanning loop at a position: [prev] is the byte before it, [skip] counts the bytes
    of an occurrence that was just replaced. [None] is the panic of slicing the tail inside
    a character. *)
Fixpoint replace_scan (prev : option ascii) (skip : nat) (rest : string) : option string :=
  match rest with
  | EmptyString => Some ""
  | String b rest' =>
      match skip with
      | S skip => replace_scan (Some b) skip rest'
      | O =>
          if (String.length rest <? String.length old)%nat then
            if is_continuation b then None else Some rest
          else if starts_with old rest && before_ok prev && after_ok (String.length old) rest then
            (λ t, new +:+ t) <$> replace_scan (Some b) (String.length old - 1) rest'
          else (λ t, push_byte_as_char b +:+ t) <$> replace_scan (Some b) 0 rest'
      end
  end.

Definition replace_identifier (line : string) : option string :=
  if str_is_empty old then Some line else replace_scan None 0 line.
End replace.

(** ** Validation *)

Fixpoint continuation_prefix (s : string) : string :=
  match s with
  | String b s => if is_continuation b then String b (continuation_prefix s) else ""
  | EmptyString => ""
  end.

(** The first character that is no identifier character, as text. *)
Fixpoint first_bad_char (s : string) : option string :=
  match s with
  | EmptyString => None
  | String b s =>
      if is_ident_byte b then first_bad_char s else Some (String b (continuation_prefix s))
  end.

Definition validate_identifier (name : string) : result EditError unit :=
  match name with
  | EmptyString => Err EmptyName
  | String first chars =>
      if negb (is_ascii_alphabetic first) && negb (Ascii.eqb first "_") then Err (BadStart name)
      else
        match first_bad_char chars with
        | Some c => Err (BadChar name c)
        | None => Ok tt
        end
  end.

Definition span_cmp : N * N → N * N → comparison := cmp_on fst N.compare.

(** The window loop over the sorted spans of one file. *)
Fixpoint first_overlap (path : string) (spans : list (N * N)) : result EditError unit :=
  match spans with
  | (_, end_a) :: (((start_b, _) :: _) as spans') =>
      if (start_b <=? end_a)%N then Err (Overlap end_a start_b path)
      else first_overlap path spans'
  | _ => Ok tt
  end.

Definition file_spans (path : string) (edits : list RefactorEdit) : list (N * N) :=
  map (λ e, (line_start e, line_end e)) (filter (λ e, file_path e = path) edits).

(** [order] is the order in which the map of spans by file is iterated. *)
Fixpoint check_overlaps (order : list string) (edits : list RefactorEdit) :
    result EditError unit :=
  match order with
  | [] => Ok tt
  | path :: order =>
      _ <-? first_overlap path (sort_by span_cmp (file_spans path edits));;
      check_overlaps order edits
  end.

(** ** Specifications *)

(** The edit covers the line with (0-based) index [i]. *)
Definition covers (i : nat) (e : RefactorEdit) : Prop :=
  (line_start e ≤ N.of_nat i + 1 ≤ line_end e)%N.

#[global] Instance covers_dec i e : Decision (covers i e).
Proof. unfold covers. apply _. Defined.

(** What simultaneous replacement leaves of line [i]. *)
Definition rendered (edits : list RefactorEdit) (i : nat) (line : string) : list string :=
  match list_find (covers i) edits with
  | None => [line]
  | Some (_, e) =>
      if (N.of_nat i + 1 =? line_start e)%N && negb (str_is_empty (new_text e))
      then [new_text e] else []
  end.

Definition simultaneous (edits : list RefactorEdit) (lines : list string) : list string :=
  mjoin (imap (rendered edits) lines).

(** An edit of a file with [n] lines. *)
Definition edit_in_range (n : nat) (e : RefactorEdit) : Prop :=
  (1 ≤ line_start e ≤ line_end e ∧ line_end e ≤ N.of_nat n)%N.

Definition below (e f : RefactorEdit) : Prop := (line_end f < line_start e)%N.

(** Two edits of one file touch no common line. *)
Definition edits_disjoint (e f : RefactorEdit) : Prop :=
  (line_end f < line_start e ∨ line_end e < line_start f)%N.

(** The maximal words of identifier bytes and the bytes between them. *)
Inductive token := Word (w : string) | Other (b : ascii).

Fixpoint tokens (s : string) : list token :=
  match s with
  | EmptyString => []
  | String b s =>
      if is_ident_byte b then
        match tokens s with
        | Word w :: ts => Word (String b w) :: ts
        | ts => Word (String b "") :: ts
        end
      else Other b :: tokens s
  end.

Definition token_text (t : token) : string :=
  match t with Word w => w | Other b => String b "" end.

Definition rename_token (old new : string) (t : token) : token :=
  match t with
  | Word w => if String.eqb w old then Word new else Word w
  | Other b => Other b
  end.

Definition untokens (ts : list token) : string := String.concat "" (map token_text ts).

(** ** Lemmas: edits *)

Lemma mjoin_cons {A} (l : list A) ls : mjoin (l :: ls) = l ++ mjoin ls.
Proof. done. Qed.

Lemma simultaneous_app edits l1 l2 :
  simultaneous edits (l1 ++ l2) =
  simultaneous edits l1 ++ mjoin (imap (λ i, rendered edits (length l1 + i)) l2).
Proof. unfold simultaneous. by rewrite imap_app, list.join_app. Qed.

Lemma mjoin_imap_ext (f g : nat → string → list string) l :
  (∀ i x, (i < length l)%nat → f i x = g i x) → mjoin (imap f l) = mjoin (imap g l).
Proof.
  intros H. f_equal. apply imap_ext. intros i x Hx%lookup_lt_Some. by apply H.
Qed.

Lemma mjoin_imap_nil (f : nat → string → list string) l :
  (∀ i x, (i < length l)%nat → f i x = []) → mjoin (imap f l) = [].
Proof.
  intros H. rewrite (mjoin_imap_ext f (λ _ _, [])) by done. clear H.
  induction l as [|x l IH]; [done|]. exact IH.
Qed.

Lemma mjoin_imap_id (f : nat → string → list string) l :
  (∀ i x, (i < length l)%nat → f i x = [x]) → mjoin (imap f l) = l.
Proof.
  intros H. rewrite (mjoin_imap_ext f (λ _ x, [x])) by done. clear H.
  induction l as [|x l IH]; [done|]. simpl. f_equal. exact IH.
Qed.

Lemma rendered_skip e edits i x : ¬ covers i e → rendered (e :: edits) i x = rendered edits i x.
Proof.
  intros H. unfold rendered. simpl. destruct (decide (covers i e)); [done|].
  by destruct (list_find (covers i) edits) as [[]|].
Qed.

Lemma rendered_hit e edits i x :
  covers i e →
  rendered (e :: edits) i x =
  if (N.of_nat i + 1 =? line_start e)%N && negb (str_is_empty (new_text e))
  then [new_text e] else [].
Proof. intros H. unfold rendered. simpl. by destruct (decide (covers i e)). Qed.

Lemma rendered_none edits i x : Forall (λ e, ¬ covers i e) edits → rendered edits i x = [x].
Proof.
  intros H. unfold rendered. destruct (list_find _ _) as [[j e]|] eqn:E; [|done].
  apply list_find_Some in E as (He & Hc & _). rewrite Forall_forall in H.
  apply list_elem_of_lookup_2 in He. by destruct (H e).
Qed.

Definition replacement (e : RefactorEdit) : list string :=
  if str_is_empty (new_text e) then [] else [new_text e].

(** One edit in range splits the lines around the replaced span. *)
Lemma apply_edit_spec lines e :
  edit_in_range (length lines) e →
  apply_edit lines e =
  Ok (take (N.to_nat (line_start e - 1)) lines ++ replacement e ++
      drop (N.to_nat (line_end e)) lines).
Proof.
  intros (Hs & Hn). unfold apply_edit, replacement, drain.
  replace (N.to_nat (line_end e)) with (S (N.to_nat (line_end e - 1))) by lia.
  remember (N.to_nat (line_start e - 1)) as s. remember (N.to_nat (line_end e - 1)) as t.
  assert (s ≤ t ∧ t < length lines)%nat as [Hst Ht] by lia. clear Heqs Heqt Hs Hn.
  replace ((length lines <? s)%nat || (length lines <=? t)%nat) with false
    by (symmetry; apply orb_false_intro; [apply Nat.ltb_ge|apply Nat.leb_gt]; lia).
  destruct (str_is_empty (new_text e)).
  { replace ((S t <? s)%nat || (length lines <=? t)%nat) with false; [done|].
    symmetry. apply orb_false_intro; [apply Nat.ltb_ge|apply Nat.leb_gt]; lia. }
  replace (length lines <=? s)%nat with false by (symmetry; apply Nat.leb_gt; lia).
  rewrite insert_take_drop by lia.
  destruct (Nat.ltb_spec s t) as [Hlt|Hge].
  - rewrite length_app, length_take. simpl. rewrite length_drop.
    replace ((S t <? S s)%nat || (s `min` length lines + S (length lines - S s) <=? t)%nat)
      with false by (symmetry; apply orb_false_intro; [apply Nat.ltb_ge|apply Nat.leb_gt]; lia).
    rewrite take_app, drop_app, !length_take, take_take.
    replace (s `min` length lines)%nat with s by lia.
    replace (S s `min` s)%nat with s by lia.
    replace (S s - s)%nat with 1%nat by lia. replace (S t - s)%nat with (S (t - s)) by lia.
    simpl. rewrite take_0, (drop_ge (take s lines)) by (rewrite length_take; lia).
    rewrite drop_drop, <-app_assoc. simpl. do 4 f_equal. f_equal. lia.
  - by replace t with s by lia.
Qed.

Lemma simultaneous_cons e edits lines :
  edit_in_range (length lines) e → Forall (below e) edits →
  simultaneous (e :: edits) lines =
  simultaneous edits (take (N.to_nat (line_start e - 1)) lines) ++ replacement e ++
  drop (N.to_nat (line_end e)) lines.
Proof.
  intros (He & Hn) Hb.
  remember (N.to_nat (line_start e - 1)) as s eqn:Es.
  remember (N.to_nat (line_end e)) as t eqn:Et.
  rewrite <-(take_drop s lines) at 1. rewrite simultaneous_app, length_take.
  replace (s `min` length lines)%nat with s by lia.
  f_equal.
  { apply mjoin_imap_ext. intros i x Hi. rewrite length_take in Hi.
    apply rendered_skip. unfold covers. lia. }
  rewrite <-(take_drop (t - s) (drop s lines)), drop_drop.
  replace (s + (t - s))%nat with t by lia.
  rewrite imap_app, list.join_app, length_take, length_drop.
  replace ((t - s) `min` (length lines - s))%nat with (t - s)%nat by lia.
  f_equal.
  - destruct (drop s lines) as [|x l] eqn:El.
    { apply (f_equal length) in El. rewrite length_drop in El. simpl in El. lia. }
    destruct (t - s)%nat as [|k] eqn:Ek; [lia|]. simpl take. rewrite imap_cons, mjoin_cons.
    rewrite rendered_hit by (unfold covers; lia). rewrite mjoin_imap_nil, app_nil_r.
    + unfold replacement. replace (N.of_nat (s + 0) + 1 =? line_start e)%N with true
        by (symmetry; apply N.eqb_eq; lia). by destruct (str_is_empty _).
    + intros i y Hi. rewrite length_take in Hi. simpl.
      rewrite rendered_hit by (unfold covers; lia).
      by replace (N.of_nat (s + S i) + 1 =? line_start e)%N with false
        by (symmetry; apply N.eqb_neq; lia).
  - apply mjoin_imap_id. intros i x Hi. apply rendered_none. constructor.
    + unfold covers. lia.
    + eapply Forall_impl; [exact Hb|]. intros f. unfold below, covers. lia.
Qed.

(** Edits applied from the last to the first act as if at once. *)
Lemma apply_edit_lines_spec edits lines :
  StronglySorted below edits → Forall (edit_in_range (length lines)) edits →
  ∀ tail, apply_edit_lines (lines ++ tail) edits = Ok (simultaneous edits lines ++ tail).
Proof.
  intros Hs. revert lines. induction Hs as [|e edits Hs IH Hb]; intros lines Hr tail.
  { simpl. unfold simultaneous. by rewrite mjoin_imap_id. }
  apply Forall_cons in Hr as [He Hr]. pose proof He as (He1 & He2).
  rewrite simultaneous_cons by done. simpl. rewrite apply_edit_spec.
  2:{ unfold edit_in_range. rewrite length_app. lia. }
  cbn [res_bind]. rewrite take_app_le, drop_app_le by lia.
  rewrite IH.
  - by rewrite <-!app_assoc.
  - rewrite Forall_forall in *. intros f Hf. specialize (Hr f Hf) as [Hf1 Hf2].
    specialize (Hb f Hf). unfold below, edit_in_range in *. rewrite length_take. lia.
Qed.

(** ** Lemmas: orders of edits *)

Lemma StronglySorted_perm {A} (R : A → A → Prop) `{!Symmetric R} (l1 l2 : list A) :
  l1 ≡ₚ l2 → StronglySorted R l1 → StronglySorted R l2.
Proof.
  induction 1 as [|x l1 l2 Hp IH|x y l|]; auto.
  - intros [Hs Hx]%StronglySorted_inv. constructor; [auto|]. by rewrite <-Hp.
  - intros [[Hs Hx]%StronglySorted_inv Hy]%StronglySorted_inv.
    apply Forall_cons in Hy as [Hxy Hy]. constructor; [by constructor|].
    constructor; [by symmetry|done].
Qed.

#[global] Instance edits_disjoint_sym : Symmetric edits_disjoint.
Proof. unfold edits_disjoint. intros e f. tauto. Qed.

Definition edit_order : RefactorEdit → RefactorEdit → comparison :=
  cmp_rev (cmp_on line_start N.compare).

Lemma below_disjoint edits : StronglySorted below edits → StronglySorted edits_disjoint edits.
Proof.
  induction 1 as [|e edits Hs IH Hb]; constructor; [done|].
  eapply Forall_impl; [exact Hb|]. intros f. by left.
Qed.

(** Disjoint spans in descending order of their first lines lie one below the other. *)
Lemma sorted_disjoint_below edits :
  sorted_by edit_order edits → StronglySorted edits_disjoint edits →
  Forall (λ e, (line_start e ≤ line_end e)%N) edits → StronglySorted below edits.
Proof.
  induction 1 as [|e edits Hs IH Ho]; [constructor|].
  intros [Hd He]%StronglySorted_inv [Hle Hr]%Forall_cons. constructor; [auto|].
  rewrite Forall_forall in *. intros f Hf.
  specialize (Ho f Hf). specialize (He f Hf). specialize (Hr f Hf).
  unfold leb_of, edit_order, cmp_rev, cmp_on in Ho.
  assert (line_start f ≤ line_start e)%N.
  { destruct (N.compare_spec (line_start e) (line_start f)); simpl in Ho; [lia|done|lia]. }
  unfold below, edits_disjoint in *. lia.
Qed.

Lemma rendered_elem edits e i x :
  StronglySorted edits_disjoint edits → e ∈ edits → covers i e →
  rendered edits i x =
  if (N.of_nat i + 1 =? line_start e)%N && negb (str_is_empty (new_text e))
  then [new_text e] else [].
Proof.
  intros Hs. induction Hs as [|f edits Hs IH Hf]; [by intros ?%elem_of_nil|].
  intros [->|He]%elem_of_cons Hc; [by apply rendered_hit|].
  rewrite rendered_skip; [by apply IH|].
  rewrite Forall_forall in Hf. specialize (Hf e He).
  unfold edits_disjoint, covers in *. lia.
Qed.

Lemma rendered_perm edits edits' i x :
  edits ≡ₚ edits' → StronglySorted edits_disjoint edits →
  rendered edits i x = rendered edits' i x.
Proof.
  intros Hp Hs. pose proof (StronglySorted_perm _ _ _ Hp Hs) as Hs'.
  destruct (decide (Exists (covers i) edits)) as [(e & He & Hc)%Exists_exists|Hn].
  - assert (e ∈ edits') by (by rewrite <-Hp).
    by rewrite (rendered_elem edits e), (rendered_elem edits' e).
  - rewrite !rendered_none; [done|rewrite <-Hp|]; by apply Forall_Exists_neg.
Qed.

Lemma simultaneous_perm edits edits' l :
  edits ≡ₚ edits' → StronglySorted edits_disjoint edits →
  simultaneous edits l = simultaneous edits' l.
Proof. intros Hp Hs. apply mjoin_imap_ext. intros i x _. by apply rendered_perm. Qed.

(** Edits in any order, applied in the engine's order. *)
Lemma apply_sorted_edits content edits :
  StronglySorted edits_disjoint edits →
  Forall (edit_in_range (length (lines content))) edits →
  apply_edits content (sort_by edit_order edits) =
  Ok (join nl (simultaneous edits (lines content)) +:+
      (if ends_with_char newline content then nl else "")).
Proof.
  intros Hd Hr. assert (edits ≡ₚ sort_by edit_order edits) as Hp by (by rewrite sort_by_perm).
  rewrite (simultaneous_perm _ (sort_by edit_order edits)) by done.
  unfold apply_edits.
  pose proof (apply_edit_lines_spec (sort_by edit_order edits) (lines content)) as H.
  specialize (H ltac:(apply sorted_disjoint_below;
    [apply sort_by_sorted; typeclasses eauto
    |by apply (StronglySorted_perm _ edits)
    |rewrite <-Hp; eapply Forall_impl; [exact Hr|]; unfold edit_in_range; lia])
    ltac:(by rewrite <-Hp) []).
  rewrite !app_nil_r in H. by rewrite H.
Qed.

(** ** Lemmas: overlap check *)

Lemma first_overlap_adjacent path spans :
  sorted_by span_cmp spans → Forall (λ s, (fst s ≤ snd s)%N) spans →
  (first_overlap path spans = Ok tt ↔ StronglySorted (λ s t, (snd s < fst t)%N) spans).
Proof.
  intros Hs Hle. induction Hs as [|[a b] spans Hs IH Hh]; [split; [constructor|done]|].
  apply Forall_cons in Hle as [Hab Hle]. specialize (IH Hle). simpl in Hab.
  destruct spans as [|[c d] spans]; [split; [repeat constructor|done]|].
  cbn [first_overlap]. destruct (N.leb_spec c b) as [Hcb|Hbc].
  - split; [done|]. intros [_ [Hbc _]%Forall_cons]%StronglySorted_inv. simpl in Hbc. lia.
  - rewrite IH. split; [|by intros [? _]%StronglySorted_inv].
    intros Hss. constructor; [done|]. apply StronglySorted_inv in Hss as [_ Hc].
    constructor; [done|]. apply Forall_cons in Hle as [Hcd _]. simpl in Hcd.
    eapply Forall_impl; [exact Hc|]. intros [e f]. simpl. lia.
Qed.

Definition spans_disjoint (s t : N * N) : Prop := (snd t < fst s ∨ snd s < fst t)%N.

#[global] Instance spans_disjoint_sym : Symmetric spans_disjoint.
Proof. unfold spans_disjoint. intros s t. tauto. Qed.

Lemma StronglySorted_map {A B} (R : B → B → Prop) (f : A → B) l :
  StronglySorted R (map f l) ↔ StronglySorted (λ x y, R (f x) (f y)) l.
Proof.
  induction l as [|x l IH]; simpl; [split; constructor|].
  split; intros [Hs Hx]%StronglySorted_inv; constructor; [by apply IH| |by apply IH|].
  - by apply (Forall_fmap f) in Hx.
  - by apply (Forall_fmap f).
Qed.

Lemma first_overlap_exact path spans :
  Forall (λ s, (fst s ≤ snd s)%N) spans →
  first_overlap path (sort_by span_cmp spans) = Ok tt ↔ StronglySorted spans_disjoint spans.
Proof.
  intros Hle. assert (sort_by span_cmp spans ≡ₚ spans) as Hp by apply sort_by_perm.
  assert (sorted_by span_cmp (sort_by span_cmp spans)) as Hs
    by (apply sort_by_sorted; typeclasses eauto).
  rewrite first_overlap_adjacent; [|done|by rewrite Hp]. split.
  - intros Hss. apply (StronglySorted_perm _ _ _ Hp). clear -Hss.
    induction Hss as [|s l ? ? H]; constructor; [done|].
    eapply Forall_impl; [exact H|]. by right.
  - intros Hd. symmetry in Hp. apply (StronglySorted_perm _ _ _ Hp) in Hd.
    rewrite Hp in Hle. clear Hp.
    induction Hs as [|s l Hs IH Ho]; [constructor|].
    apply StronglySorted_inv in Hd as [Hd Hh]. apply Forall_cons in Hle as [Hsle Hle].
    constructor; [auto|]. rewrite Forall_forall in *. intros t Ht.
    specialize (Ho t Ht). specialize (Hh t Ht). specialize (Hle t Ht).
    unfold leb_of, span_cmp, cmp_on in Ho. unfold spans_disjoint in Hh.
    destruct (N.compare_spec (fst s) (fst t)); [lia|lia|done].
Qed.

Lemma check_overlaps_files order edits :
  check_overlaps order edits = Ok tt ↔
  Forall (λ path, first_overlap path (sort_by span_cmp (file_spans path edits)) = Ok tt) order.
Proof.
  induction order as [|path order IH]; simpl; [split; constructor|].
  rewrite Forall_cons, <-IH. destruct (first_overlap _ _) as [[]|]; simpl; [tauto|].
  by split; [|intros [? _]].
Qed.

Lemma file_spans_disjoint path edits :
  StronglySorted spans_disjoint (file_spans path edits) ↔
  StronglySorted edits_disjoint (filter (λ e, file_path e = path) edits).
Proof. unfold file_spans. by rewrite StronglySorted_map. Qed.

Lemma check_overlaps_ok order edits :
  (∀ e, e ∈ edits → file_path e ∈ order) →
  Forall (λ e, (line_start e ≤ line_end e)%N) edits →
  check_overlaps order edits = Ok tt ↔
  ∀ path, StronglySorted edits_disjoint (filter (λ e, file_path e = path) edits).
Proof.
  intros Ho Hle. rewrite check_overlaps_files.
  assert (∀ path, Forall (λ s, (fst s ≤ snd s)%N) (file_spans path edits)) as Hfs.
  { intros path. apply Forall_map. rewrite Forall_forall in *.
    intros e [_ He]%list_elem_of_filter. by apply (Hle e). }
  split.
  - intros H path. apply file_spans_disjoint.
    destruct (decide (path ∈ order)) as [Hin|Hni].
    + rewrite Forall_forall in H. by eapply first_overlap_exact; [|apply H].
    + replace (file_spans path edits) with (@nil (N * N)); [constructor|].
      unfold file_spans. destruct (filter _ edits) as [|e l] eqn:E; [done|].
      assert (e ∈ filter (λ e, file_path e = path) edits) as [<- ?]%list_elem_of_filter
        by (rewrite E; constructor). by destruct Hni; apply Ho.
  - intros H. apply Forall_forall. intros path _.
    apply first_overlap_exact; [done|]. by apply file_spans_disjoint.
Qed.

Lemma check_overlaps_disjoint order edits :
  Forall (λ e, (line_start e ≤ line_end e)%N) edits →
  (∀ path, StronglySorted edits_disjoint (filter (λ e, file_path e = path) edits)) →
  check_overlaps order edits = Ok tt.
Proof.
  intros Hle H. apply check_overlaps_files, Forall_forall. intros path _.
  apply first_overlap_exact; [|by apply file_spans_disjoint].
  apply Forall_map. rewrite Forall_forall in *.
  intros e [_ He]%list_elem_of_filter. by apply (Hle e).
Qed.

(** ** Lemmas: words *)

Lemma continuation_not_ascii b : is_continuation b = true → is_ascii_byte b = false.
Proof. by destruct b as [[] [] [] [] [] [] [] []]. Qed.

Lemma push_ascii b : is_ascii_byte b = true → push_byte_as_char b = String b "".
Proof. unfold push_byte_as_char. by intros ->. Qed.

Lemma untokens_cons t ts : untokens (t :: ts) = token_text t +:+ untokens ts.
Proof. unfold untokens. destruct ts; simpl; [by rewrite str_app_nil_r|done]. Qed.

Lemma untokens_tokens s : untokens (tokens s) = s.
Proof.
  induction s as [|b s IH]; [done|]. simpl. destruct (is_ident_byte b).
  - destruct (tokens s) as [|[w|c] ts]; rewrite <-IH; rewrite !untokens_cons; done.
  - by rewrite untokens_cons, IH.
Qed.

(** The first word of a text, and what follows it. *)
Fixpoint word_of (s : string) : string * string :=
  match s with
  | EmptyString => ("", "")
  | String b t => if is_ident_byte b then let (w, r) := word_of t in (String b w, r) else ("", s)
  end.

Lemma word_of_app s : fst (word_of s) +:+ snd (word_of s) = s.
Proof.
  induction s as [|b s IH]; [done|]. simpl. destruct (is_ident_byte b); [|done].
  destruct (word_of s) as [w r]. simpl in *. by rewrite str_app_cons, IH.
Qed.

Lemma word_of_ident s : str_forall is_ident_byte (fst (word_of s)) = true.
Proof.
  induction s as [|b s IH]; [done|]. simpl. destruct (is_ident_byte b) eqn:E; [|done].
  destruct (word_of s) as [w r]. simpl in *. by rewrite E, IH.
Qed.

Lemma word_of_rest s : after_ok 0 (snd (word_of s)) = true.
Proof.
  induction s as [|b s IH]; [done|]. simpl. destruct (is_ident_byte b) eqn:E.
  - by destruct (word_of s).
  - unfold after_ok. simpl. by rewrite E.
Qed.

Lemma tokens_word_of s :
  tokens s = (if str_is_empty (fst (word_of s)) then [] else [Word (fst (word_of s))]) ++
             tokens (snd (word_of s)).
Proof.
  induction s as [|b s IH]; [done|]. simpl. destruct (is_ident_byte b) eqn:E; simpl.
  - destruct (word_of s) as [w r] eqn:Ew. simpl in *. rewrite IH.
    destruct w as [|c w]; simpl; [|done].
    pose proof (word_of_rest s) as Hr. rewrite Ew in Hr. simpl in Hr.
    unfold after_ok in Hr. destruct r as [|c r]; [done|]. simpl in *.
    apply negb_true_iff in Hr. by rewrite Hr.
  - by rewrite E.
Qed.

Lemma word_rest_length n s :
  fst (word_of s) ≠ "" → (String.length s < S n)%nat → (String.length (snd (word_of s)) < n)%nat.
Proof.
  intros Hw Hn. pose proof (word_of_app s) as E. apply (f_equal String.length) in E.
  rewrite str_length_app in E. destruct (fst (word_of s)); [done|]. simpl in E. lia.
Qed.

Lemma word_rest_ascii s : is_ascii_str s = true → is_ascii_str (snd (word_of s)) = true.
Proof.
  unfold is_ascii_str. intros H. rewrite <-(word_of_app s), str_forall_app in H.
  by apply andb_true_iff in H as [_ H].
Qed.

Lemma word_of_rest_id s : word_of (snd (word_of s)) = ("", snd (word_of s)).
Proof.
  pose proof (word_of_rest s) as H. destruct (snd (word_of s)) as [|b r]; [done|].
  unfold after_ok in H. simpl in *. apply negb_true_iff in H. by rewrite H.
Qed.

Section words.
Context (old new : string) (Hident : str_forall is_ident_byte old = true) (Hne : old ≠ "").

Definition renamed (s : string) : string := untokens (map (rename_token old new) (tokens s)).

Lemma starts_with_word w s :
  str_forall is_ident_byte w = true →
  starts_with w s && after_ok (String.length w) s = String.eqb (fst (word_of s)) w.
Proof.
  revert s. induction w as [|a w IH]; intros s.
  { intros _. destruct s as [|b s]; [done|]. unfold after_ok. simpl.
    destruct (is_ident_byte b); simpl; [|done]. by destruct (word_of s). }
  intros [Ha Hw]%andb_true_iff. destruct s as [|b s]; [done|].
  specialize (IH s Hw). cbn [starts_with String.length].
  change (after_ok (S (String.length w)) (String b s)) with (after_ok (String.length w) s).
  rewrite <-andb_assoc, IH. simpl. destruct (is_ident_byte b) eqn:Eb.
  - destruct (word_of s) as [v r]. simpl. by rewrite Ascii.eqb_sym.
  - destruct (Ascii.eqb_spec a b) as [->|]; [congruence|done].
Qed.

Lemma renamed_word s :
  fst (word_of s) ≠ "" →
  renamed s = (if String.eqb (fst (word_of s)) old then new else fst (word_of s)) +:+
              renamed (snd (word_of s)).
Proof.
  intros H. unfold renamed. rewrite tokens_word_of.
  destruct (str_is_empty (fst (word_of s))) eqn:E; [by apply str_is_empty_iff in E|].
  simpl. rewrite untokens_cons. by destruct (String.eqb _ _).
Qed.

Lemma renamed_other b s : is_ident_byte b = false → renamed (String b s) = String b (renamed s).
Proof. intros H. unfold renamed. simpl. rewrite H. simpl. by rewrite untokens_cons. Qed.

Lemma tokens_short s : Forall (λ t, String.length (token_text t) ≤ String.length s)%nat (tokens s).
Proof.
  induction s as [|b s IH]; [constructor|]. simpl.
  assert (Forall (λ t, String.length (token_text t) ≤ S (String.length s))%nat (tokens s)) as IH'.
  { eapply Forall_impl; [exact IH|]. simpl. lia. }
  destruct (is_ident_byte b); [|constructor; simpl; [lia|done]].
  destruct (tokens s) as [|[w|c] ts].
  - constructor; [simpl; lia|constructor].
  - apply Forall_cons in IH as [Hw _], IH' as [_ Hts]. simpl in Hw.
    constructor; [simpl; lia|done].
  - constructor; [simpl; lia|done].
Qed.

Lemma renamed_short s : (String.length s < String.length old)%nat → renamed s = s.
Proof.
  intros Hlt. rewrite <-(untokens_tokens s) at 2. unfold renamed. f_equal.
  rewrite <-(map_id (tokens s)) at 2. apply map_ext_Forall.
  eapply Forall_impl; [exact (tokens_short s)|]. intros [w|c]; simpl; [|done].
  destruct (String.eqb_spec w old) as [->|]; [lia|done].
Qed.

Lemma scan_skip w r prev :
  w ≠ "" → str_forall is_ident_byte w = true →
  ∃ b, is_ident_byte b = true ∧
    replace_scan old new prev (String.length w) (w +:+ r) = replace_scan old new (Some b) 0 r.
Proof.
  revert prev. induction w as [|a w IH]; intros prev; [done|]. intros _ [Ha Hw]%andb_true_iff.
  rewrite str_app_cons. cbn [replace_scan String.length].
  destruct (decide (w = "")) as [->|Hw0]; [by exists a|]. by apply IH.
Qed.

Lemma short_other s :
  (String.length s < String.length old)%nat →
  fst (word_of s) +:+ renamed (snd (word_of s)) = s.
Proof.
  intros H. rewrite renamed_short; [apply word_of_app|].
  pose proof (word_of_app s) as E. apply (f_equal String.length) in E.
  rewrite str_length_app in E. lia.
Qed.

(** After an occurrence the scan goes on behind it, inside a word of the old text. *)
Lemma scan_word b t :
  fst (word_of (String b t)) = old →
  ∃ c, is_ident_byte c = true ∧
    replace_scan old new (Some b) (String.length old - 1) t =
    replace_scan old new (Some c) 0 (snd (word_of (String b t))).
Proof.
  intros Ew. pose proof (word_of_app (String b t)) as Happ.
  pose proof (word_of_ident (String b t)) as Hi. rewrite Ew in *.
  remember (snd (word_of (String b t))) as r. clear Heqr Ew.
  assert (∃ a w, old = String a w) as (a & w & Eo) by (destruct old; [done|by eauto]).
  rewrite Eo in Happ, Hi. rewrite str_app_cons in Happ. injection Happ as -> <-.
  apply andb_true_iff in Hi as [Hb Hw].
  replace (String.length old) with (S (String.length w)) by (by rewrite Eo).
  replace (S (String.length w) - 1)%nat with (String.length w) by lia.
  destruct (decide (w = "")) as [->|Hw0]; [by exists b|]. by apply scan_skip.
Qed.

#[local] Arguments is_ident_byte : simpl never.

(** The scanner, inside and outside a word. *)
Lemma scan_spec n s :
  (String.length s < n)%nat → is_ascii_str s = true →
  (∀ prev, before_ok prev = true → replace_scan old new prev 0 s = Some (renamed s)) ∧
  (∀ prev, before_ok prev = false →
     replace_scan old new prev 0 s = Some (fst (word_of s) +:+ renamed (snd (word_of s)))).
Proof.
  revert s. induction n as [|n IH]; [lia|]. intros s Hn Ha.
  destruct s as [|b t]; [done|]. pose proof Ha as [Hb Ht]%andb_true_iff.
  assert (is_continuation b = false) as Hc.
  { destruct (is_continuation b) eqn:E; [|done].
    apply continuation_not_ascii in E. congruence. }
  simpl in Hn. destruct (IH t ltac:(lia) Ht) as [IHout IHin].
  destruct (Nat.ltb_spec (String.length (String b t)) (String.length old)) as [Hlt|Hge].
  { split; intros prev Hp; cbn [replace_scan];
      (replace (String.length (String b t) <? String.length old)%nat with true
        by (symmetry; by apply Nat.ltb_lt)); rewrite Hc.
    - by rewrite renamed_short.
    - by rewrite short_other. }
  assert ((String.length (String b t) <? String.length old)%nat = false) as Hl
    by (by apply Nat.ltb_ge).
  split; intros prev Hp; cbn [replace_scan]; rewrite Hl, Hp, ?andb_false_r, ?andb_true_r.
  - rewrite starts_with_word by done.
    destruct (String.eqb_spec (fst (word_of (String b t))) old) as [Ew|Ew].
    + rewrite renamed_word, Ew, String.eqb_refl by congruence.
      destruct (scan_word b t Ew) as (c & Hic & ->).
      destruct (IH (snd (word_of (String b t)))) as [_ IHr].
      { apply word_rest_length; [congruence|done]. }
      { by apply word_rest_ascii. }
      rewrite IHr by (simpl; by rewrite Hic).
      rewrite word_of_rest_id. done.
    + rewrite push_ascii by done.
      destruct (is_ident_byte b) eqn:Ei.
      * rewrite IHin by (unfold before_ok; by rewrite Ei). simpl fmap.
        rewrite (renamed_word (String b t)); cbn [word_of] in *; rewrite Ei in *;
          destruct (word_of t) as [w r]; cbn [fst snd fmap option_fmap option_map] in *; [|done].
        destruct (String.eqb_spec (String b w) old); [done|]. by rewrite !str_app_cons.
      * rewrite IHout by (unfold before_ok; by rewrite Ei). by rewrite renamed_other.
  - rewrite push_ascii by done. cbn [word_of]. destruct (is_ident_byte b) eqn:Ei.
    + rewrite IHin by (unfold before_ok; by rewrite Ei). by destruct (word_of t).
    + rewrite IHout by (unfold before_ok; by rewrite Ei). simpl. by rewrite renamed_other.
Qed.
End words.

Lemma first_bad_char_none s : first_bad_char s = None ↔ str_forall is_ident_byte s = true.
Proof.
  induction s as [|b s IH]; [done|]. cbn [first_bad_char str_forall].
  destruct (is_ident_byte b); [done|]. done.
Qed.

(** ** Properties *)

(** The engine's application of the edits of one file, in whatever order they were
    planned: when they lie within the file and touch no line twice, the result is the text
    whose lines are replaced and removed all at once, so that no edit shifts another. *)
Theorem apply_edits_simultaneous (content : string) (edits : list RefactorEdit) :
  StronglySorted edits_disjoint edits →
  Forall (edit_in_range (length (lines content))) edits →
  apply_edits content (sort_by edit_order edits) =
  Ok (join nl (simultaneous edits (lines content)) +:+
      (if ends_with_char newline content then nl else "")).
Proof. apply apply_sorted_edits. Qed.

(** The overlap check accepts exactly the plans in which no two edits of a file touch a
    common line, whatever order its map of files is iterated in. *)
Theorem check_overlaps_exact (order : list string) (edits : list RefactorEdit) :
  (∀ e, e ∈ edits → file_path e ∈ order) →
  Forall (λ e, (line_start e ≤ line_end e)%N) edits →
  check_overlaps order edits = Ok tt ↔
  ∀ path, StronglySorted edits_disjoint (filter (λ e, file_path e = path) edits).
Proof. apply check_overlaps_ok. Qed.

(** Renaming an identifier in an ASCII line replaces exactly the maximal words of the
    line that equal it and changes nothing else. *)
Theorem replace_identifier_words (line old new : string) :
  old ≠ "" → str_forall is_ident_byte old = true → is_ascii_str line = true →
  replace_identifier old new line = Some (untokens (map (rename_token old new) (tokens line))).
Proof.
  intros Hne Hi Ha. unfold replace_identifier.
  destruct (str_is_empty old) eqn:E; [by apply str_is_empty_iff in E|].
  destruct (scan_spec old new Hi Hne (S (String.length line)) line) as [Hout _]; [lia|done|].
  by apply Hout.
Qed.

(** The name check accepts exactly the ASCII identifiers. *)
Theorem validate_identifier_exact (name : string) :
  validate_identifier name = Ok tt ↔
  str_forall is_ident_byte name = true ∧
  ∃ first rest, name = String first rest ∧ is_ascii_digit first = false.
Proof.
  destruct name as [|b s]; [split; [done|by intros (_ & ? & ? & ? & _)]|].
  unfold validate_identifier. cbn [str_forall].
  pose proof (first_bad_char_none s) as Hs.
  destruct (is_ascii_alphabetic b || Ascii.eqb b "_") eqn:Ef.
  - assert (is_ident_byte b = true ∧ is_ascii_digit b = false) as [-> Hd].
    { clear -Ef. by destruct b as [[] [] [] [] [] [] [] []]. }
    rewrite <-negb_orb, Ef. cbn [negb andb].
    destruct (first_bad_char s); [split; [done|]|split; [|done]].
    + by intros [Hx%Hs _].
    + intros _. split; [by apply Hs|]. by exists b, s.
  - rewrite <-negb_orb, Ef. simpl. split; [done|].
    intros [[Hb _]%andb_true_iff (? & ? & [= <- <-] & Hd)].
    exfalso. clear -Ef Hb Hd. by destruct b as [[] [] [] [] [] [] [] []].
Qed.

(** ** Witnesses and examples *)

Definition demo_edits : list RefactorEdit :=
  [mk_edit "a.rs" 1 1 "x" "y" RenameOccurrence; mk_edit "a.rs" 3 4 "" "" RemoveSpan].

Definition demo_text : string := join nl ["x"; "b"; "c"; "d"; "e"; ""].

Lemma apply_edits_simultaneous_witness :
  apply_edits demo_text (sort_by edit_order demo_edits) = Ok (join nl ["y"; "b"; "e"; ""]).
Proof.
  rewrite (apply_edits_simultaneous demo_text demo_edits).
  - by vm_compute.
  - constructor; [constructor; constructor|]. constructor; [|constructor]. right. by vm_compute.
  - repeat constructor; by vm_compute.
Defined.

Lemma check_overlaps_exact_witness :
  check_overlaps ["a.rs"] demo_edits = Ok tt ↔
  ∀ path, StronglySorted edits_disjoint (filter (λ e, file_path e = path) demo_edits).
Proof.
  apply (check_overlaps_exact ["a.rs"] demo_edits).
  - intros e [->|[->|?%elem_of_nil]%elem_of_cons]%elem_of_cons; [constructor..|done].
  - repeat constructor; by vm_compute.
Defined.

Lemma replace_identifier_words_witness :
  replace_identifier "foo" "bar" "foo(foo_x, xfoo, foo)" = Some "bar(foo_x, xfoo, bar)".
Proof. apply (replace_identifier_words "foo(foo_x, xfoo, foo)" "foo" "bar"); by vm_compute. Defined.

(** Carriage returns of untouched lines are lost: the text is rebuilt with bare newlines. *)
Example carriage_returns_lost :
  apply_edits (join (String carriage_return nl) ["x"; "b"; ""])
    [mk_edit "a.rs" 1 1 "x" "y" RenameOccurrence] = Ok (join nl ["y"; "b"; ""]).
Proof. by vm_compute. Qed.

(** The two bytes of an e with acute accent. *)
Definition e_acute : string := String (chr 195) (String (chr 169) "").

(** Outside ASCII the bytes of a character are copied one by one, each as a character of
    its own, and a line ending in such a character can make the engine panic. *)
Example non_ascii_mangled :
  replace_identifier "foo" "bar" (e_acute +:+ " foo") =
    Some (String (chr 195) (String (chr 131) (String (chr 194) (String (chr 169) " bar")))) ∧
  replace_identifier "fo" "bar" ("xyz" +:+ e_acute) = None.
Proof. by vm_compute. Qed.
