(* ===== verification/Patch.v ===== *)
(** * Unified diffs for refactoring previews

    Model of [packages/atlas-refactor/src/patch.rs]: the line diff by longest common
    subsequence, its grouping into hunks and the rendered patch. *)

From S2P Require Import Prelude RustStr.

(** ** The edit script *)

Inductive DiffOp := Equal (s : string) | Remove (s : string) | Insert (s : string).

Record AnnotatedLine := mk_line { op : DiffOp; old_line : nat; new_line : nat }.

#[global] Instance DiffOp_eq_dec : EqDecision DiffOp.
Proof. solve_decision. Defined.
#[global] Instance AnnotatedLine_eq_dec : EqDecision AnnotatedLine.
Proof. solve_decision. Defined.

(** Row [i] of the table, right to left, from row [i + 1]. *)
Fixpoint dp_row (old_i : string) (new : list string) (next : list nat) : list nat :=
  match new, next with
  | new_j :: new, below :: next =>
      let row := dp_row old_i new next in
      (if String.eqb old_i new_j then S (default 0%nat (head next))
       else Nat.max below (default 0%nat (head row))) :: row
  | _, _ => [0%nat]
  end.

Definition dp_table (old new : list string) : list (list nat) :=
  foldr (λ old_i rows, dp_row old_i new (default [] (head rows)) :: rows)
    [repeat 0%nat (S (length new))] old.

Definition dp_get (dp : list (list nat)) (i j : nat) : nat :=
  default 0%nat (dp !! i ≫= λ row, row !! j).

Section diff.
Context (old new : list string).

(** The three loops of the traceback, from position [(i, j)]. *)
Fixpoint traceback (dp : list (list nat)) (fuel i j : nat) : list DiffOp :=
  match fuel with
  | O => []
  | S fuel =>
      match old !! i, new !! j with
      | Some o, Some n =>
          if String.eqb o n then Equal o :: traceback dp fuel (S i) (S j)
          else if (dp_get dp i (S j) <=? dp_get dp (S i) j)%nat
          then Remove o :: traceback dp fuel (S i) j
          else Insert n :: traceback dp fuel i (S j)
      | Some o, None => Remove o :: traceback dp fuel (S i) j
      | None, Some n => Insert n :: traceback dp fuel i (S j)
      | None, None => []
      end
  end.

Definition diff_lines : list DiffOp :=
  traceback (dp_table old new) (length old + length new) 0 0.
End diff.

(** ** Hunks *)

Fixpoint annotate (old_ln new_ln : nat) (ops : list DiffOp) : list AnnotatedLine :=
  match ops with
  | [] => []
  | o :: ops =>
      mk_line o old_ln new_ln ::
      match o with
      | Equal _ => annotate (S old_ln) (S new_ln) ops
      | Remove _ => annotate (S old_ln) new_ln ops
      | Insert _ => annotate old_ln (S new_ln) ops
      end
  end.

Definition is_equal (o : DiffOp) : bool := match o with Equal _ => true | _ => false end.

Fixpoint changed_from (i : nat) (ops : list DiffOp) : list nat :=
  match ops with
  | [] => []
  | o :: ops => (if is_equal o then [] else [i]) ++ changed_from (S i) ops
  end.

(** The loop over the changed positions, with the open hunk as accumulator. *)
Fixpoint merge_ranges (context last_idx : nat) (hunk_start hunk_end : nat)
    (changed : list nat) : list (nat * nat) :=
  match changed with
  | [] => [(hunk_start, hunk_end)]
  | idx :: changed =>
      let ctx_start := (idx - context)%nat in
      let ctx_end := Nat.min (idx + context) last_idx in
      if (ctx_start <=? hunk_end + 1)%nat
      then merge_ranges context last_idx hunk_start (Nat.max hunk_end ctx_end) changed
      else (hunk_start, hunk_end) :: merge_ranges context last_idx ctx_start ctx_end changed
  end.

Definition slice {A} (l : list A) (r : nat * nat) : list A :=
  take (S (snd r) - fst r) (drop (fst r) l).

Definition hunk_ranges (ops : list DiffOp) (context : nat) : list (nat * nat) :=
  match changed_from 0 ops with
  | [] => []
  | idx :: changed =>
      let last_idx := (length ops - 1)%nat in
      merge_ranges context last_idx (idx - context) (Nat.min (idx + context) last_idx) changed
  end.

Definition build_hunks (ops : list DiffOp) (context : nat) : list (list AnnotatedLine) :=
  map (slice (annotate 1 1 ops)) (hunk_ranges ops context).

(** ** The rendered patch *)

Definition nl : string := String newline "".

Definition is_insert (o : DiffOp) : bool := match o with Insert _ => true | _ => false end.
Definition is_remove (o : DiffOp) : bool := match o with Remove _ => true | _ => false end.

Definition count_lines (p : DiffOp → bool) (hunk : list AnnotatedLine) : nat :=
  length (filter (λ l, p (op l) = false) hunk).

Definition render_line (l : AnnotatedLine) : string :=
  match op l with
  | Equal s => " " +:+ s +:+ nl
  | Remove s => "-" +:+ s +:+ nl
  | Insert s => "+" +:+ s +:+ nl
  end.

Definition render_hunk (hunk : list AnnotatedLine) : string :=
  "@@ -" +:+ show_nat (default 1%nat (old_line <$> head hunk)) +:+ "," +:+
  show_nat (count_lines is_insert hunk) +:+ " +" +:+
  show_nat (default 1%nat (new_line <$> head hunk)) +:+ "," +:+
  show_nat (count_lines is_remove hunk) +:+ " @@" +:+ nl +:+
  String.concat "" (map render_line hunk).

Definition unified_diff_annotated (path old new : string) : string :=
  let ops := diff_lines (lines old) (lines new) in
  if forallb is_equal ops then ""
  else
    match build_hunks ops 3 with
    | [] => ""
    | hunks => "--- a/" +:+ path +:+ nl +:+ "+++ b/" +:+ path +:+ nl +:+
               String.concat "" (map render_hunk hunks)
    end.

(** ** Specifications *)

(** The texts before and after an edit script. *)
Definition op_old (o : DiffOp) : list string :=
  match o with Equal s | Remove s => [s] | Insert _ => [] end.
Definition op_new (o : DiffOp) : list string :=
  match o with Equal s | Insert s => [s] | Remove _ => [] end.
Definition olds (ops : list DiffOp) : list string := mbind op_old ops.
Definition news (ops : list DiffOp) : list string := mbind op_new ops.
Definition kept (ops : list DiffOp) : nat := length (filter (λ o, is_equal o = true) ops).

(** The length of a longest common subsequence. *)
Fixpoint lcs (old : list string) : list string → nat :=
  fix lcs_old (new : list string) : nat :=
    match old, new with
    | o :: old', n :: new' =>
        if String.eqb o n then S (lcs old' new') else Nat.max (lcs old' new) (lcs_old new')
    | _, _ => 0%nat
    end.

(** Applying a hunk to the lines from its first line on, checking its old side. *)
Fixpoint apply_hunk (hunk : list AnnotatedLine) (rest : list string) :
    option (list string * list string) :=
  match hunk with
  | [] => Some ([], rest)
  | l :: hunk =>
      match op l, rest with
      | Equal s, t :: rest =>
          if String.eqb s t then prod_map (cons s) id <$> apply_hunk hunk rest else None
      | Remove s, t :: rest => if String.eqb s t then apply_hunk hunk rest else None
      | Insert s, rest => prod_map (cons s) id <$> apply_hunk hunk rest
      | _, [] => None
      end
  end.

(** Applying a patch to the lines from line [cur] on: copy up to each hunk's first line. *)
Fixpoint apply_hunks (cur : nat) (rest : list string) (hunks : list (list AnnotatedLine)) :
    option (list string) :=
  match hunks with
  | [] => Some rest
  | hunk :: hunks =>
      let skip := (default cur (old_line <$> head hunk) - cur)%nat in
      r ← apply_hunk hunk (drop skip rest);
      out ← apply_hunks (cur + skip + count_lines is_insert hunk) (snd r) hunks;
      Some (take skip rest ++ fst r ++ out)
  end.

(** ** Lemmas: common subsequences *)

Lemma lcs_nil_l new : lcs [] new = 0%nat.
Proof. by destruct new. Qed.
Lemma lcs_nil_r old : lcs old [] = 0%nat.
Proof. by destruct old. Qed.
Lemma lcs_cons o old n new :
  lcs (o :: old) (n :: new) =
  if String.eqb o n then S (lcs old new) else Nat.max (lcs old (n :: new)) (lcs (o :: old) new).
Proof. done. Qed.

#[local] Arguments lcs : simpl never.

Lemma lcs_sym old new : lcs old new = lcs new old.
Proof.
  revert new. induction old as [|o old IH]; intros new; [by rewrite lcs_nil_l, lcs_nil_r|].
  induction new as [|n new IHn]; [by rewrite lcs_nil_l, lcs_nil_r|]. rewrite !lcs_cons.
  rewrite String.eqb_sym. destruct (String.eqb n o); [by rewrite IH|].
  rewrite IHn, (IH (n :: new)). apply Nat.max_comm.
Qed.

(** One line more on one side is worth at most one line in common, and never less. *)
Lemma lcs_step old : ∀ new,
  (∀ n, (lcs old (n :: new) ≤ S (lcs old new))%nat) ∧
  (∀ o, (lcs old new ≤ lcs (o :: old) new)%nat).
Proof.
  induction old as [|x old IH]; intros new.
  { split; intros; rewrite !lcs_nil_l; lia. }
  assert (∀ new n, (lcs (x :: old) (n :: new) ≤ S (lcs (x :: old) new))%nat) as H1.
  { intros new' n. destruct (IH new') as [Ha Hb]. specialize (Ha n). specialize (Hb x).
    rewrite lcs_cons. destruct (String.eqb x n); lia. }
  split; [apply H1|]. intros o.
  destruct new as [|y new]; [by rewrite !lcs_nil_r|].
  rewrite (lcs_cons o). destruct (String.eqb o y); [apply H1|lia].
Qed.

Lemma lcs_mono_l o old new : (lcs old new ≤ lcs (o :: old) new)%nat.
Proof. apply lcs_step. Qed.
Lemma lcs_mono_r n old new : (lcs old new ≤ lcs old (n :: new))%nat.
Proof. rewrite !(lcs_sym old). apply lcs_step. Qed.

(** No edit script keeps more lines. *)
Lemma kept_le_lcs ops : (kept ops ≤ lcs (olds ops) (news ops))%nat.
Proof.
  induction ops as [|[s|s|s] ops IH]; [done| | |].
  - change (kept (Equal s :: ops)) with (S (kept ops)).
    change (olds (Equal s :: ops)) with (s :: olds ops).
    change (news (Equal s :: ops)) with (s :: news ops).
    rewrite lcs_cons, String.eqb_refl. lia.
  - change (kept (Remove s :: ops)) with (kept ops).
    change (olds (Remove s :: ops)) with (s :: olds ops).
    change (news (Remove s :: ops)) with (news ops).
    pose proof (lcs_mono_l s (olds ops) (news ops)). lia.
  - change (kept (Insert s :: ops)) with (kept ops).
    change (olds (Insert s :: ops)) with (olds ops).
    change (news (Insert s :: ops)) with (s :: news ops).
    pose proof (lcs_mono_r s (olds ops) (news ops)). lia.
Qed.

(** ** Lemmas: the table *)

Fixpoint tails {A} (l : list A) : list (list A) :=
  match l with
  | [] => [[]]
  | _ :: l' => l :: tails l'
  end.

Lemma tails_lookup {A} (l : list A) i : (i ≤ length l)%nat → tails l !! i = Some (drop i l).
Proof.
  revert i. induction l as [|x l IH]; intros [|i] Hi; simpl in *; [done|lia|done|].
  apply IH. lia.
Qed.

Lemma head_map_tails {A B} (f : list A → B) l : head (map f (tails l)) = Some (f l).
Proof. by destruct l. Qed.

Lemma dp_row_spec o old new :
  dp_row o new (map (lcs old) (tails new)) = map (lcs (o :: old)) (tails new).
Proof.
  induction new as [|n new IH]; [done|]. cbn [tails map dp_row].
  rewrite IH, !head_map_tails. cbn [default from_option]. by rewrite lcs_cons.
Qed.

Lemma dp_table_spec old new :
  dp_table old new = map (λ o, map (lcs o) (tails new)) (tails old).
Proof.
  unfold dp_table. induction old as [|o old IH]; cbn [foldr tails map].
  - f_equal. change (0%nat :: repeat 0%nat (length new)) with (repeat 0%nat (S (length new))).
    induction new as [|n new IH]; [done|]. simpl. rewrite lcs_nil_l. f_equal. exact IH.
  - rewrite IH, head_map_tails. f_equal. apply dp_row_spec.
Qed.

Lemma dp_get_spec old new i j :
  (i ≤ length old)%nat → (j ≤ length new)%nat →
  dp_get (dp_table old new) i j = lcs (drop i old) (drop j new).
Proof.
  intros Hi Hj. unfold dp_get. rewrite dp_table_spec.
  rewrite list_lookup_fmap, tails_lookup by done. simpl.
  rewrite list_lookup_fmap, tails_lookup by done. done.
Qed.

Definition solves (ops : list DiffOp) (old new : list string) : Prop :=
  olds ops = old ∧ news ops = new ∧ kept ops = lcs old new.

Lemma solves_equal o ops old new : solves ops old new → solves (Equal o :: ops) (o :: old) (o :: new).
Proof.
  intros (Ho & Hn & Hk). unfold solves. rewrite lcs_cons, String.eqb_refl, <-Hk, <-Ho, <-Hn. done.
Qed.

Lemma solves_remove o ops old new :
  lcs (o :: old) new = lcs old new → solves ops old new → solves (Remove o :: ops) (o :: old) new.
Proof. intros E (Ho & Hn & Hk). unfold solves. rewrite E, <-Hk, <-Ho, <-Hn. done. Qed.

Lemma solves_insert n ops old new :
  lcs old (n :: new) = lcs old new → solves ops old new → solves (Insert n :: ops) old (n :: new).
Proof. intros E (Ho & Hn & Hk). unfold solves. rewrite E, <-Hk, <-Ho, <-Hn. done. Qed.

Lemma traceback_spec old new fuel i j :
  (i ≤ length old)%nat → (j ≤ length new)%nat →
  (length old - i + (length new - j) ≤ fuel)%nat →
  solves (traceback old new (dp_table old new) fuel i j) (drop i old) (drop j new).
Proof.
  revert i j. induction fuel as [|fuel IH]; intros i j Hi Hj Hf.
  { rewrite !drop_ge by lia. done. }
  cbn [traceback].
  destruct (old !! i) as [o|] eqn:Eo;
    [pose proof (lookup_lt_Some _ _ _ Eo); rewrite (drop_S _ _ _ Eo)
    |apply lookup_ge_None in Eo; rewrite (drop_ge old i) by done];
    (destruct (new !! j) as [n|] eqn:En;
      [pose proof (lookup_lt_Some _ _ _ En); rewrite (drop_S _ _ _ En)
      |apply lookup_ge_None in En; rewrite (drop_ge new j) by done]).
  - destruct (String.eqb_spec o n) as [->|Hne].
    { apply solves_equal, IH; lia. }
    rewrite !dp_get_spec by lia. rewrite (drop_S _ _ _ Eo), (drop_S _ _ _ En).
    assert (lcs (o :: drop (S i) old) (n :: drop (S j) new) =
      Nat.max (lcs (drop (S i) old) (n :: drop (S j) new))
        (lcs (o :: drop (S i) old) (drop (S j) new))) as El.
    { rewrite lcs_cons. by destruct (String.eqb_spec o n). }
    destruct (Nat.leb_spec (lcs (o :: drop (S i) old) (drop (S j) new))
      (lcs (drop (S i) old) (n :: drop (S j) new))).
    + apply solves_remove; [lia|]. rewrite <-(drop_S _ _ _ En). apply IH; lia.
    + apply solves_insert; [lia|]. rewrite <-(drop_S _ _ _ Eo). apply IH; lia.
  - apply solves_remove; [by rewrite !lcs_nil_r|].
    rewrite <-(drop_ge new j) by done. apply IH; lia.
  - apply solves_insert; [by rewrite !lcs_nil_l|].
    rewrite <-(drop_ge old i) by done. apply IH; lia.
  - done.
Qed.

Lemma diff_lines_solves old new : solves (diff_lines old new) old new.
Proof. unfold diff_lines. apply traceback_spec; lia. Qed.

(** ** Lemmas: ranges of hunks *)

Section ranges.
Context (context last_idx : nat).

(** Ranges in ascending order, disjoint, from [lo] on and within the script. *)
Fixpoint ranges_from (lo : nat) (rs : list (nat * nat)) : Prop :=
  match rs with
  | [] => True
  | (s, e) :: rs => (lo ≤ s ∧ s ≤ e ∧ e ≤ last_idx)%nat ∧ ranges_from (S e) rs
  end.

Definition in_range (i : nat) (r : nat * nat) : Prop := (fst r ≤ i ≤ snd r)%nat.

Lemma ranges_from_weaken lo lo' rs : (lo ≤ lo')%nat → ranges_from lo' rs → ranges_from lo rs.
Proof. destruct rs as [|[s e] rs]; simpl; [done|]. intros ? [? ?]. split; [lia|done]. Qed.

Lemma merge_ranges_spec hs he changed :
  (hs ≤ he ≤ last_idx)%nat → StronglySorted lt changed →
  Forall (λ i, hs ≤ i ≤ last_idx)%nat changed →
  ranges_from hs (merge_ranges context last_idx hs he changed) ∧
  ∀ i, (hs ≤ i ≤ he)%nat ∨ i ∈ changed →
    Exists (in_range i) (merge_ranges context last_idx hs he changed).
Proof.
  intros Hh Hs. revert hs he Hh. induction Hs as [|idx changed Hs IH Hlt]; intros hs he Hh Hle.
  { simpl. split; [lia|]. intros i [Hi|?%elem_of_nil]; [|done]. by constructor. }
  apply Forall_cons in Hle as [Hidx Hle]. cbn [merge_ranges].
  destruct (Nat.leb_spec (idx - context) (he + 1)) as [Hm|Hm].
  - destruct (IH hs (Nat.max he (Nat.min (idx + context) last_idx)) ltac:(lia) Hle) as [Hr Hc].
    split; [done|]. intros i [Hi|[->|Hi]%elem_of_cons]; apply Hc; [left; lia|left; lia|by right].
  - destruct (IH (idx - context)%nat (Nat.min (idx + context) last_idx)) as [Hr Hc]; [lia| |].
    { rewrite Forall_forall in *. intros i Hi. specialize (Hlt i Hi). specialize (Hle i Hi). lia. }
    split; [split; [lia|]; eapply ranges_from_weaken; [|exact Hr]; lia|].
    intros i [Hi|[->|Hi]%elem_of_cons].
    + by constructor.
    + apply Exists_cons_tl, Hc. left. lia.
    + apply Exists_cons_tl, Hc. by right.
Qed.
End ranges.

Lemma changed_from_spec i ops k :
  k ∈ changed_from i ops ↔
  ∃ o, (i ≤ k)%nat ∧ ops !! (k - i)%nat = Some o ∧ is_equal o = false.
Proof.
  revert i. induction ops as [|o ops IH]; intros i; simpl.
  { split; [by intros ?%elem_of_nil|by intros (? & _ & ? & _)]. }
  rewrite elem_of_app, IH. split.
  - intros [Hk|(o' & Hi & Ho & He)].
    + destruct (is_equal o) eqn:E; [by apply elem_of_nil in Hk|].
      apply list_elem_of_singleton in Hk as ->. exists o. by rewrite Nat.sub_diag.
    + exists o'. split; [lia|]. by replace (k - i)%nat with (S (k - S i)) by lia.
  - intros (o' & Hi & Ho & He). destruct (decide (k = i)) as [->|Hne].
    + rewrite Nat.sub_diag in Ho. simplify_eq/=. rewrite He. left. constructor.
    + right. exists o'. split; [lia|].
      replace (k - i)%nat with (S (k - S i)) in Ho by lia. done.
Qed.

Lemma changed_from_sorted i ops : StronglySorted lt (changed_from i ops).
Proof.
  revert i. induction ops as [|o ops IH]; intros i; simpl; [constructor|].
  destruct (is_equal o); simpl; [apply IH|]. constructor; [apply IH|].
  apply Forall_forall. intros k (o' & Hk & _)%changed_from_spec. lia.
Qed.

(** The ranges are ordered, lie in the script and contain every change. *)
Lemma hunk_ranges_spec ops context :
  ranges_from (length ops - 1) 0 (hunk_ranges ops context) ∧
  ∀ i o, ops !! i = Some o → is_equal o = false → Exists (in_range i) (hunk_ranges ops context).
Proof.
  unfold hunk_ranges. pose proof (changed_from_spec 0 ops) as Hc.
  pose proof (changed_from_sorted 0 ops) as Hs.
  assert (∀ k, k ∈ changed_from 0 ops → k ≤ length ops - 1)%nat as Hle.
  { intros k (o & _ & Ho%lookup_lt_Some & _)%Hc. lia. }
  destruct (changed_from 0 ops) as [|idx changed].
  { split; [done|]. intros i o Ho He.
    assert (i ∈ @nil nat) as ?%elem_of_nil; [|done].
    apply Hc. exists o. rewrite Nat.sub_0_r. split; [lia|done]. }
  pose proof (Hle idx ltac:(constructor)) as Hidx.
  apply StronglySorted_inv in Hs as [Hs Hlt].
  destruct (merge_ranges_spec context (length ops - 1) (idx - context)
    (Nat.min (idx + context) (length ops - 1)) changed) as [Hr Hcov]; [lia|done| |].
  { rewrite Forall_forall in *. intros k Hk. specialize (Hlt k Hk).
    specialize (Hle k ltac:(by constructor)). lia. }
  split; [eapply ranges_from_weaken; [|exact Hr]; lia|].
  intros i o Ho He. apply Hcov.
  assert (i ∈ idx :: changed) as [->|Hi]%elem_of_cons; [|left; lia|by right].
  apply Hc. exists o. rewrite Nat.sub_0_r. split; [lia|done].
Qed.

(** ** Lemmas: applying hunks *)

Lemma annotate_ops a b ops : map op (annotate a b ops) = ops.
Proof. revert a b. induction ops as [|[s|s|s] ops IH]; intros a b; simpl; by rewrite ?IH. Qed.

Lemma olds_app l1 l2 : olds (l1 ++ l2) = olds l1 ++ olds l2.
Proof. apply bind_app. Qed.
Lemma news_app l1 l2 : news (l1 ++ l2) = news l1 ++ news l2.
Proof. apply bind_app. Qed.

Lemma annotate_old_line a b ops i l :
  annotate a b ops !! i = Some l → old_line l = (a + length (olds (take i ops)))%nat.
Proof.
  revert a b i. induction ops as [|o ops IH]; intros a b [|i]; simpl; try done.
  - intros [= <-]. simpl. lia.
  - destruct o; intros H%IH; rewrite H; simpl; lia.
Qed.

Lemma slice_map {A B} (f : A → B) l r : map f (slice l r) = slice (map f l) r.
Proof. unfold slice. by rewrite skipn_map, firstn_map. Qed.

Lemma count_lines_olds h : count_lines is_insert h = length (olds (map op h)).
Proof.
  unfold count_lines. induction h as [|[o a b] h IH]; [done|]. simpl.
  rewrite length_app, <-IH. by destruct o.
Qed.

Lemma apply_hunk_spec h rest :
  apply_hunk h (olds (map op h) ++ rest) = Some (news (map op h), rest).
Proof.
  induction h as [|[[s|s|s] a b] h IH]; simpl; [done|..];
    rewrite ?String.eqb_refl; by rewrite IH.
Qed.

Lemma olds_news_equal ops : forallb is_equal ops = true → olds ops = news ops.
Proof.
  induction ops as [|[s|s|s] ops IH]; [done| |done|done]. simpl. intros H.
  change (s :: olds ops = s :: news ops). by rewrite IH.
Qed.

Lemma unchanged_stretch ops lo n :
  (∀ i o, (lo ≤ i < lo + n)%nat → ops !! i = Some o → is_equal o = true) →
  forallb is_equal (take n (drop lo ops)) = true.
Proof.
  intros H. apply forallb_forall. intros o Ho. apply list_elem_of_In in Ho.
  apply list_elem_of_lookup_1 in Ho as (i & Hi). apply lookup_take_Some in Hi as [Hi Hlt].
  rewrite lookup_drop in Hi. eapply H; [|exact Hi]. lia.
Qed.

Lemma ranges_from_bound last lo rs i :
  ranges_from last lo rs → Exists (in_range i) rs → (lo ≤ i)%nat.
Proof.
  revert lo. induction rs as [|[s e] rs IH]; intros lo; simpl; [by intros _ ?%Exists_nil|].
  intros [Hb Hr] [Hi|Hi]%Exists_cons.
  - unfold in_range in Hi. simpl in Hi. lia.
  - specialize (IH _ Hr Hi). lia.
Qed.

Lemma apply_hunks_spec ops rs lo :
  ops ≠ [] → ranges_from (length ops - 1) lo rs →
  (∀ i o, (lo ≤ i)%nat → ops !! i = Some o → is_equal o = false → Exists (in_range i) rs) →
  apply_hunks (S (length (olds (take lo ops)))) (olds (drop lo ops))
    (map (slice (annotate 1 1 ops)) rs) = Some (news (drop lo ops)).
Proof.
  intros Hne. revert lo. induction rs as [|[s e] rs IH]; intros lo Hr Hc.
  { simpl. f_equal. apply olds_news_equal. apply forallb_forall. intros o Ho.
    apply list_elem_of_In, list_elem_of_lookup_1 in Ho as (i & Hi). rewrite lookup_drop in Hi.
    destruct (is_equal o) eqn:Eo; [done|].
    specialize (Hc _ _ (Nat.le_add_r lo i) Hi Eo). by apply Exists_nil in Hc. }
  destruct Hr as [(Hlo & Hse & He) Hr].
  assert (length ops ≠ 0)%nat as Hlen by (by destruct ops).
  specialize (IH (S e) Hr).
  set (A := take (s - lo) (drop lo ops)). set (h := slice (annotate 1 1 ops) (s, e)).
  assert (map op h = slice ops (s, e)) as Hop by (unfold h; by rewrite slice_map, annotate_ops).
  assert (drop lo ops = A ++ map op h ++ drop (S e) ops) as Hsplit.
  { rewrite Hop. unfold A, slice. cbn [fst snd].
    rewrite <-(take_drop (s - lo) (drop lo ops)) at 1. f_equal. rewrite drop_drop.
    replace (lo + (s - lo))%nat with s by lia.
    rewrite <-(take_drop (S e - s) (drop s ops)) at 1. f_equal. rewrite drop_drop.
    f_equal. lia. }
  assert (take s ops = take lo ops ++ A) as HsA.
  { unfold A. rewrite <-(take_drop lo (take s ops)), take_take.
    replace (lo `min` s)%nat with lo by lia. f_equal.
    rewrite skipn_firstn_comm. done. }
  assert (olds A = news A) as HA.
  { apply olds_news_equal. apply unchanged_stretch. intros i o Hi Ho.
    destruct (is_equal o) eqn:Eo; [done|].
    specialize (Hc i o ltac:(lia) Ho Eo). exfalso.
    apply Exists_cons in Hc as [Hc|Hc]; [unfold in_range in Hc; simpl in Hc; lia|].
    eapply ranges_from_bound in Hc; [|exact Hr]. lia. }
  simpl map. cbn [apply_hunks]. fold h.
  assert (old_line <$> head h = Some (S (length (olds (take s ops))))) as Hhead.
  { assert (annotate 1 1 ops !! s = head h) as Hs.
    { unfold h, slice. simpl. destruct (S e - s)%nat as [|k] eqn:Ek; [lia|].
      rewrite <-(Nat.add_0_r s) at 1. rewrite <-lookup_drop.
      by destruct (drop s (annotate 1 1 ops)). }
    rewrite <-Hs. destruct (annotate 1 1 ops !! s) as [l|] eqn:El.
    - simpl. by rewrite (annotate_old_line _ _ _ _ _ El).
    - apply lookup_ge_None in El. rewrite <-(length_map op), annotate_ops in El. lia. }
  rewrite Hhead. cbn [default from_option]. unfold id.
  rewrite HsA, olds_app, length_app.
  replace (S (length (olds (take lo ops)) + length (olds A)) - S (length (olds (take lo ops))))%nat
    with (length (olds A)) by lia.
  rewrite Hsplit, !olds_app, !news_app, drop_app_length, take_app_length.
  rewrite apply_hunk_spec. cbn [mbind option_bind fst snd].
  rewrite count_lines_olds.
  replace (S (length (olds (take lo ops))) + length (olds A) + length (olds (map op h)))%nat
    with (S (length (olds (take (S e) ops)))).
  2:{ replace (take (S e) ops) with (take s ops ++ map op h).
      - rewrite HsA, !olds_app, !length_app. lia.
      - rewrite Hop. unfold slice. cbn [fst snd].
        rewrite <-(take_drop s (take (S e) ops)), take_take, skipn_firstn_comm.
        by replace (s `min` S e)%nat with s by lia. }
  rewrite IH.
  - simpl. by rewrite HA.
  - intros i o Hi Ho Eo. specialize (Hc i o ltac:(lia) Ho Eo).
    apply Exists_cons in Hc as [Hc|Hc]; [unfold in_range in Hc; simpl in Hc; lia|done].
Qed.

Lemma build_hunks_apply ops context :
  apply_hunks 1 (olds ops) (build_hunks ops context) = Some (news ops).
Proof.
  destruct (decide (ops = [])) as [->|Hne]; [done|].
  destruct (hunk_ranges_spec ops context) as [Hr Hc].
  apply (apply_hunks_spec ops _ 0 Hne Hr). intros i o _ Ho He. by eapply Hc.
Qed.

Lemma all_equal_iff ops : forallb is_equal ops = true ↔ kept ops = length ops.
Proof.
  unfold kept. induction ops as [|o ops IH]; [done|]. simpl. rewrite filter_cons.
  pose proof (length_filter (λ o, is_equal o = true) ops).
  destruct o; simpl; [rewrite IH; split; lia|split; [done|lia]..].
Qed.

Lemma lcs_refl l : lcs l l = length l.
Proof. induction l as [|x l IH]; [done|]. rewrite lcs_cons, String.eqb_refl. simpl. by rewrite IH. Qed.

Lemma length_kept ops :
  (length ops + kept ops = length (olds ops) + length (news ops))%nat.
Proof.
  induction ops as [|[s|s|s] ops IH]; [done|..];
    unfold kept in *; rewrite filter_cons; cbn [is_equal]; simpl in *; lia.
Qed.

Lemma diff_all_equal old new : forallb is_equal (diff_lines old new) = true ↔ old = new.
Proof.
  destruct (diff_lines_solves old new) as (Ho & Hn & Hk). split.
  - intros H%olds_news_equal. congruence.
  - intros ->. apply all_equal_iff. pose proof (length_kept (diff_lines new new)) as Hl.
    rewrite lcs_refl in Hk. rewrite Ho, Hn in Hl. lia.
Qed.

(** ** Properties *)

(** C39. The edit script turns the old lines into the new ones and keeps as many lines as
    any script can. *)
Theorem diff_lines_minimal (old new : list string) :
  olds (diff_lines old new) = old ∧ news (diff_lines old new) = new ∧
  ∀ script, olds script = old → news script = new →
    (kept script ≤ kept (diff_lines old new))%nat.
Proof.
  destruct (diff_lines_solves old new) as (Ho & Hn & Hk). split_and!; [done..|].
  intros script <- <-. rewrite Hk. apply kept_le_lcs.
Qed.

(** C30. The hunks are a patch: applied to the old lines at the line numbers they carry,
    checking every context and removed line, they produce exactly the new lines, whatever
    the amount of context. *)
Theorem hunks_apply (old new : list string) (context : nat) :
  apply_hunks 1 old (build_hunks (diff_lines old new) context) = Some new.
Proof.
  destruct (diff_lines_solves old new) as (Ho & Hn & _).
  pose proof (build_hunks_apply (diff_lines old new) context) as H. by rewrite Ho, Hn in H.
Qed.

(** The preview is empty exactly when the two texts have the same lines: a change of
    line ends, or of the newline at the end of the file, shows no difference. *)
Theorem unified_diff_empty (path old new : string) :
  unified_diff_annotated path old new = "" ↔ lines old = lines new.
Proof.
  unfold unified_diff_annotated. rewrite <-diff_all_equal.
  destruct (forallb is_equal _) eqn:E; [done|]. split; [|done].
  destruct (build_hunks _ 3) as [|h hs] eqn:Eh; [|done].
  exfalso. unfold build_hunks in Eh. apply fmap_nil_inv in Eh.
  set (ops := diff_lines (lines old) (lines new)) in *.
  destruct (hunk_ranges_spec ops 3) as [_ Hc]. rewrite Eh in Hc.
  apply not_true_iff_false in E. apply E, forallb_forall. intros o Ho.
  apply list_elem_of_In, list_elem_of_lookup_1 in Ho as (i & Hi).
  destruct (is_equal o) eqn:Eo; [done|]. specialize (Hc i o Hi Eo). by apply Exists_nil in Hc.
Qed.
