(* ===== verification/Imports.v ===== *)
(** * Import detection and layout

    Model of the import helpers of [packages/atlas-refactor/src/engine.rs]: the language
    of a path, the names an import line brings into scope, whole-word search, the layout
    of import blocks and the normalisation of qualified names. *)

From S2P Require Import Prelude RustStr Edits.

(** ** Languages *)

Inductive Lang := Rust | Python | JsTs | Go | Other.

#[global] Instance Lang_eq_dec : EqDecision Lang.
Proof. solve_decision. Defined.

Definition detect_language (path : string) : Lang :=
  if ends_with ".rs" path then Rust
  else if ends_with ".py" path then Python
  else if ends_with ".js" path || ends_with ".ts" path || ends_with ".tsx" path ||
          ends_with ".jsx" path then JsTs
  else if ends_with ".go" path then Go
  else Other.

Definition is_import_line (lang : Lang) (line : string) : bool :=
  match lang with
  | Rust => starts_with "use " line
  | Python => starts_with "import " line || starts_with "from " line
  | JsTs => starts_with "import " line
  | Go => starts_with "import " line
  | Other => false
  end.

(** ** Imported names *)

(** The text [s[from..to]]; a reversed range panics. *)
Definition str_range (s : string) (from to : nat) : option string :=
  if (to <? from)%nat then None else Some (str_take (to - from) (str_drop from s)).

Definition nonempty (s : string) : bool := negb (str_is_empty s).
Definition no_glob (s : string) : bool := nonempty s && negb (String.eqb s "*").

(** The part behind the last (Rust) or first (Python, JS) [ as ]. *)
Definition after_last_as (s : string) : option string :=
  (λ n, trim (str_drop (n + 4) s)) <$> rfind_sub " as " s.
Definition after_first_as (s : string) : option string :=
  (λ n, trim (str_drop (n + 4) s)) <$> find_sub " as " s.

Definition last_segment (s : string) : string := default s (last (split_str "::" s)).

Definition extract_rust_use_names (line : string) : option (list string) :=
  let body := trim (trim_end_char ";" (trim_start_str "use " line)) in
  match find_sub "{" body with
  | Some start =>
      let stop := default (String.length body) (find_sub "}" body) in
      inner ← str_range body (S start) stop;
      Some (filter (λ s, no_glob s = true)
        (map (λ s, let s := trim s in default (last_segment s) (after_last_as s))
          (split_char "," inner)))
  | None =>
      let raw := last_segment body in
      let name := default (trim raw) (after_last_as raw) in
      Some (if no_glob name then [name] else [])
  end.

Definition extract_python_import_names (line : string) : list string :=
  match strip_prefix "from " line with
  | Some rest =>
      match find_sub " import " rest with
      | Some idx =>
          filter (λ s, no_glob s = true)
            (map (λ s, let s := trim s in default s (after_first_as s))
              (split_char "," (str_drop (idx + 8) rest)))
      | None => []
      end
  | None =>
      match strip_prefix "import " line with
      | Some rest =>
          filter (λ s, nonempty s = true)
            (map (λ s, let s := trim s in
                       default (default s (head (split_char "." s))) (after_first_as s))
              (split_char "," rest))
      | None => []
      end
  end.

Fixpoint take_ident (s : string) : string :=
  match s with
  | String b s => if is_ident_byte b then String b (take_ident s) else ""
  | EmptyString => ""
  end.

Definition extract_js_import_names (line : string) : list string :=
  let body := trim (trim_start_str "import" line) in
  if starts_with "{" body then
    match find_sub "}" body with
    | Some stop =>
        filter (λ s, nonempty s = true)
          (map (λ s, let s := trim s in default s (after_first_as s))
            (split_char "," (str_take (stop - 1) (str_drop 1 body))))
    | None => []
    end
  else
    let name := take_ident body in
    if nonempty name && negb (String.eqb name "type") then [name] else [].

Definition dquote : ascii := chr 34.

Definition extract_go_import_name (line : string) : list string :=
  let body := trim_char dquote (trim (trim_start_str "import" line)) in
  if str_is_empty body then []
  else
    let name := default body (last (split_char slash (trim_char dquote body))) in
    if str_is_empty name then [] else [name].

Record ImportInfo := mk_import {
  line_no : N;
  imported_names : list string;
  raw_line : string
}.

(** The names of one (trimmed) line, when the language counts it as an import. *)
Definition line_imports (lang : Lang) (trimmed : string) : option (list string) :=
  if is_import_line lang trimmed then
    match lang with
    | Rust => extract_rust_use_names trimmed
    | Python => Some (extract_python_import_names trimmed)
    | JsTs => Some (extract_js_import_names trimmed)
    | Go => Some (extract_go_import_name trimmed)
    | Other => Some []
    end
  else Some [].

(** The imports of the lines from index [i] on; [None] is a panic. *)
Fixpoint find_imports (lang : Lang) (i : nat) (lines : list string) : option (list ImportInfo) :=
  match lines with
  | [] => Some []
  | line :: lines =>
      names ← line_imports lang (trim line);
      imports ← find_imports lang (S i) lines;
      Some (if bool_decide (names = []) then imports
            else mk_import (N.of_nat (S i)) names line :: imports)
  end.

(** ** Whole words *)

Fixpoint contains_word_from (prev : option ascii) (line word : string) : bool :=
  (starts_with word line && before_ok prev && after_ok (String.length word) line) ||
  match line with
  | EmptyString => false
  | String b line => contains_word_from (Some b) line word
  end.

Definition contains_word (line word : string) : bool := contains_word_from None line word.

(** ** Layout of import blocks *)

Definition is_blank (line : string) : bool := str_is_empty (trim line).

Fixpoint drop_blank (lines : list string) : list string :=
  match lines with
  | l :: ls => if is_blank l then drop_blank ls else lines
  | [] => []
  end.

(** The inner loop: of the blank lines that start the text, one stays. *)
Definition squeeze_blank (lines : list string) : list string :=
  match lines with
  | l :: ls => if is_blank l then l :: drop_blank ls else lines
  | [] => []
  end.

Section layout.
Context (lang : Lang).

Definition import_here (line : string) : bool := is_import_line lang (trim line).

Fixpoint import_block (lines : list string) : list string * list string :=
  match lines with
  | l :: ls =>
      if import_here l then let (b, r) := import_block ls in (l :: b, r) else ([], lines)
  | [] => ([], [])
  end.

Definition trimmed_cmp : string → string → comparison := cmp_on trim String.compare.

Fixpoint layout_lines (fuel : nat) (lines : list string) : list string :=
  match fuel with
  | O => lines
  | S fuel =>
      match lines with
      | [] => []
      | line :: rest =>
          if negb (import_here line) then line :: layout_lines fuel rest
          else
            let (block, rest) := import_block lines in
            (if (1 <? length block)%nat then sort_by trimmed_cmp block else block) ++
            layout_lines fuel (squeeze_blank rest)
      end
  end.
End layout.

Definition normalize_import_block_layout (file_path content : string) : string :=
  match detect_language file_path with
  | Other => content
  | lang =>
      let ls := lines content in
      join nl (layout_lines lang (length ls) ls) +:+
      (if ends_with_char newline content then nl else "")
  end.

(** ** Qualified names *)

Definition canonical_kind_token (kind_lower : string) : string :=
  if String.eqb kind_lower "function" || String.eqb kind_lower "func" then "fn"
  else if String.eqb kind_lower "meth" then "method"
  else if String.eqb kind_lower "constant" then "const"
  else kind_lower.

Definition normalize_qn_kind_tokens (qname : string) : string :=
  match find_sub "::" qname with
  | None => qname
  | Some after_file =>
      let file_part := str_take after_file qname in
      let rest := str_drop (after_file + 2) qname in
      match find_sub "::" rest with
      | None => qname
      | Some pos =>
          let kind_token := str_take pos rest in
          let symbol_rest := str_drop pos rest in
          let canonical_kind := canonical_kind_token (to_ascii_lowercase kind_token) in
          if String.eqb canonical_kind kind_token then qname
          else file_part +:+ "::" +:+ canonical_kind +:+ symbol_rest
      end
  end.

(** ** Lemmas: whole words *)

Definition is_word (w : string) (t : token) : bool :=
  match t with Word v => String.eqb v w | Edits.Other _ => false end.

Lemma existsb_word w ts : existsb (is_word w) ts = true ↔ Word w ∈ ts.
Proof.
  rewrite existsb_exists. setoid_rewrite <-list_elem_of_In. split.
  - intros (t & Ht & Hw). destruct t as [v|]; [|done]. by apply String.eqb_eq in Hw as ->.
  - intros H. exists (Word w). split; [done|]. apply String.eqb_refl.
Qed.

Lemma contains_word_scan w s :
  str_forall is_ident_byte w = true → w ≠ "" →
  (∀ prev, before_ok prev = true → contains_word_from prev s w = existsb (is_word w) (tokens s)) ∧
  (∀ prev, before_ok prev = false →
     contains_word_from prev s w = existsb (is_word w) (tokens (snd (word_of s)))).
Proof.
  intros Hi Hne. induction s as [|b s [IHout IHin]].
  { split; intros prev Hp; cbn [contains_word_from]; destruct w; done. }
  pose proof (tokens_word_of (String b s)) as Ht. cbn [word_of] in *.
  split; intros prev Hp; cbn [contains_word_from];
    rewrite Hp, ?andb_false_r, ?andb_true_r; cbn [orb]; rewrite ?starts_with_word by done;
    cbn [word_of]; destruct (is_ident_byte b) eqn:Ei;
    rewrite ?IHout, ?IHin by (unfold before_ok; by rewrite Ei).
  - rewrite Ht. destruct (word_of s) as [v r]. done.
  - cbn [tokens]. rewrite Ei. cbn [existsb is_word orb fst].
    by destruct w.
  - by destruct (word_of s).
  - cbn [snd tokens]. by rewrite Ei.
Qed.

Lemma contains_word_tokens line w :
  str_forall is_ident_byte w = true → w ≠ "" →
  contains_word line w = true ↔ Word w ∈ tokens line.
Proof.
  intros Hi Hne. unfold contains_word.
  destruct (contains_word_scan w line Hi Hne) as [Hout _].
  rewrite Hout by done. apply existsb_word.
Qed.

(** ** Lemmas: layout *)

Section layout_lemmas.
Context (lang : Lang).

Lemma import_block_spec ls b r :
  import_block lang ls = (b, r) →
  ls = b ++ r ∧ Forall (λ l, import_here lang l = true) b ∧
  match r with l :: _ => import_here lang l = false | [] => True end.
Proof.
  revert b r. induction ls as [|l ls IH]; intros b r; simpl; [by intros [= <- <-]|].
  destruct (import_here lang l) eqn:E; [|by intros [= <- <-]].
  destruct (import_block lang ls) as [b' r']. intros [= <- <-].
  destruct (IH b' r' eq_refl) as (-> & Hb & Hr). split_and!; [done|by constructor|done].
Qed.

Lemma import_block_app b r :
  Forall (λ l, import_here lang l = true) b →
  match r with l :: _ => import_here lang l = false | [] => True end →
  import_block lang (b ++ r) = (b, r).
Proof.
  intros Hb Hr. induction Hb as [|l b Hl Hb IH]; simpl.
  - destruct r as [|l r]; [done|]. simpl. by rewrite Hr.
  - by rewrite Hl, IH.
Qed.

(** An import line is not blank. *)
Lemma import_not_blank l : import_here lang l = true → is_blank l = false.
Proof.
  unfold import_here, is_blank, is_import_line. destruct (trim l) as [|a t]; [|done].
  by destruct lang.
Qed.

Lemma drop_blank_spec ls :
  ∃ blanks, ls = blanks ++ drop_blank ls ∧ Forall (λ l, is_blank l = true) blanks ∧
    match drop_blank ls with l :: _ => is_blank l = false | [] => True end.
Proof.
  induction ls as [|l ls (bs & E & Hb & Hd)]; simpl; [by exists []|].
  destruct (is_blank l) eqn:El; [|by exists []].
  exists (l :: bs). rewrite E at 1. split_and!; [done|by constructor|done].
Qed.

(** The text that follows a block begins with a line that is no import, and with at most
    one blank line. *)
Definition settled (ls : list string) : Prop :=
  match ls with
  | [] => True
  | l :: ls =>
      import_here lang l = false ∧
      (is_blank l = true → match ls with m :: _ => is_blank m = false | [] => True end)
  end.

Lemma squeeze_settled ls :
  match ls with l :: _ => import_here lang l = false | [] => True end →
  settled (squeeze_blank ls).
Proof.
  destruct ls as [|l ls]; [done|]. intros Hl. simpl.
  destruct (is_blank l) eqn:E; simpl; [|rewrite E; done].
  split; [done|]. intros _. by destruct (drop_blank_spec ls) as (? & _ & _ & ?).
Qed.

Lemma squeeze_settled_id ls : settled ls → squeeze_blank ls = ls.
Proof.
  destruct ls as [|l [|m ls]]; simpl; [done|by destruct (is_blank l)|].
  intros [_ H]. destruct (is_blank l) eqn:E; [|done]. by rewrite H.
Qed.

Definition content_line (l : string) : Prop := is_blank l = false.

#[global] Instance content_line_dec l : Decision (content_line l).
Proof. unfold content_line. apply _. Defined.

Lemma filter_blank bs : Forall (λ l, is_blank l = true) bs → filter content_line bs = [].
Proof.
  induction 1 as [|l bs Hl _ IH]; [done|]. rewrite filter_cons_False, IH; [done|].
  unfold content_line. congruence.
Qed.

Lemma filter_squeeze ls : filter content_line (squeeze_blank ls) = filter content_line ls.
Proof.
  destruct ls as [|l ls]; [done|]. simpl. destruct (is_blank l) eqn:E; [|done].
  rewrite !filter_cons.
  destruct (drop_blank_spec ls) as (bs & Eq & Hb & _).
  apply (f_equal (filter content_line)) in Eq. rewrite filter_app, (filter_blank bs) in Eq by done.
  by rewrite Eq.
Qed.

Lemma length_squeeze ls : (length (squeeze_blank ls) ≤ length ls)%nat.
Proof.
  destruct ls as [|l ls]; [done|]. simpl. destruct (is_blank l); [|done].
  destruct (drop_blank_spec ls) as (bs & Eq & _).
  apply (f_equal length) in Eq. rewrite length_app in Eq. simpl. lia.
Qed.

Definition sort_block (block : list string) : list string :=
  if (1 <? length block)%nat then sort_by trimmed_cmp block else block.

Lemma sort_block_perm b : sort_block b ≡ₚ b.
Proof. unfold sort_block. case_match; [apply sort_by_perm|done]. Qed.

Lemma sort_block_sorted b : sorted_by trimmed_cmp (sort_block b).
Proof.
  unfold sort_block. destruct (Nat.ltb_spec 1 (length b)).
  - apply sort_by_sorted. typeclasses eauto.
  - destruct b as [|x [|y b]]; simpl in *; [constructor|repeat constructor|lia].
Qed.

Lemma sort_block_idemp b : sort_block (sort_block b) = sort_block b.
Proof.
  unfold sort_block at 1. case_match; [|done]. apply sort_by_sorted_id, sort_block_sorted.
Qed.

(** The loop, unfolded once. *)
Lemma layout_cons fuel line rest :
  layout_lines lang (S fuel) (line :: rest) =
  if negb (import_here lang line) then line :: layout_lines lang fuel rest
  else sort_block (fst (import_block lang (line :: rest))) ++
       layout_lines lang fuel (squeeze_blank (snd (import_block lang (line :: rest)))).
Proof. cbn [layout_lines]. by destruct (import_block lang (line :: rest)). Qed.

Definition other_line (l : string) : Prop := import_here lang l = false ∧ is_blank l = false.

#[global] Instance other_line_dec l : Decision (other_line l).
Proof. unfold other_line. apply _. Defined.

Lemma filter_other_content (ls : list string) :
  filter other_line ls = filter (λ l, import_here lang l = false) (filter content_line ls).
Proof.
  rewrite list_filter_filter. apply list_filter_iff. intros l.
  unfold other_line, content_line. tauto.
Qed.

Lemma filter_other_imports b :
  Forall (λ l, import_here lang l = true) b → filter other_line b = [].
Proof.
  induction 1 as [|l b Hl _ IH]; [done|]. rewrite filter_cons_False, IH; [done|].
  unfold other_line. intros [? _]. congruence.
Qed.

(** One round over an import block. *)
Lemma layout_block fuel line rest b r :
  import_here lang line = true → import_block lang (line :: rest) = (b, r) →
  layout_lines lang (S fuel) (line :: rest) =
    sort_block b ++ layout_lines lang fuel (squeeze_blank r) ∧
  line :: rest = b ++ r ∧ b ≠ [] ∧ Forall (λ l, import_here lang l = true) b ∧
  Forall (λ l, import_here lang l = true) (sort_block b) ∧ settled (squeeze_blank r) ∧
  (length (squeeze_blank r) ≤ length rest)%nat.
Proof.
  intros Hl Hb. rewrite layout_cons, Hl, Hb.
  destruct (import_block_spec _ _ _ Hb) as (Eq & Hi & Hr).
  assert (b ≠ []) as Hne.
  { intros ->. simpl in Eq. subst r. congruence. }
  split_and!; [done|done|done|done|by rewrite sort_block_perm|by apply squeeze_settled|].
  pose proof (length_squeeze r). apply (f_equal length) in Eq. rewrite length_app in Eq.
  destruct b; [done|]. simpl in *. lia.
Qed.

Lemma layout_filters fuel ls :
  (length ls ≤ fuel)%nat →
  filter content_line (layout_lines lang fuel ls) ≡ₚ filter content_line ls ∧
  filter other_line (layout_lines lang fuel ls) = filter other_line ls ∧
  (length (layout_lines lang fuel ls) ≤ length ls)%nat.
Proof.
  revert ls. induction fuel as [|fuel IH]; intros [|l ls] Hf; try done; try (simpl in Hf; lia).
  simpl in Hf. destruct (import_here lang l) eqn:El.
  - destruct (import_block lang (l :: ls)) as [b r] eqn:Eb.
    destruct (layout_block fuel _ _ _ _ El Eb) as (-> & Eq & _ & Hi & Hs & _ & Hlen).
    destruct (IH (squeeze_blank r)) as (H1 & H2 & H3); [lia|].
    rewrite Eq. split_and!.
    + by rewrite !filter_app, H1, filter_squeeze, sort_block_perm.
    + rewrite !filter_app, H2, (filter_other_imports b), (filter_other_imports (sort_block b))
        by done.
      by rewrite !filter_other_content, filter_squeeze.
    + rewrite !length_app, (Permutation_length (sort_block_perm b)).
      pose proof (length_squeeze r). lia.
  - rewrite layout_cons, El. cbn [negb].
    destruct (IH ls) as (H1 & H2 & H3); [lia|]. rewrite !filter_cons, H2. split_and!.
    + case_decide; [by rewrite H1|done].
    + done.
    + simpl. lia.
Qed.

Lemma layout_head_content fuel l ls :
  is_blank l = false → (length (l :: ls) ≤ fuel)%nat →
  match layout_lines lang fuel (l :: ls) with m :: _ => is_blank m = false | [] => True end.
Proof.
  intros Hl Hf. destruct fuel as [|fuel]; [simpl in Hf; lia|].
  destruct (import_here lang l) eqn:El; [|by rewrite layout_cons, El].
  destruct (import_block lang (l :: ls)) as [b r] eqn:Eb.
  destruct (layout_block fuel _ _ _ _ El Eb) as (-> & _ & Hne & _ & Hs & _).
  destruct (sort_block b) as [|m sb] eqn:E.
  { destruct b; [done|]. pose proof (Permutation_length (sort_block_perm (s :: b))) as Hp.
    by rewrite E in Hp. }
  apply Forall_cons in Hs as [Hm _]. by apply import_not_blank.
Qed.

Lemma layout_settled fuel ls :
  (length ls ≤ fuel)%nat → settled ls → settled (layout_lines lang fuel ls).
Proof.
  destruct fuel as [|fuel], ls as [|l ls]; try done; try (simpl; lia).
  intros Hf [Hl Hb]. rewrite layout_cons, Hl. cbn [negb settled]. split; [done|]. intros Hbl.
  specialize (Hb Hbl). destruct ls as [|m ls]; [by destruct fuel|].
  apply layout_head_content; [done|]. simpl in *. lia.
Qed.

Lemma layout_idemp fuel ls fuel' :
  (length ls ≤ fuel)%nat → (length (layout_lines lang fuel ls) ≤ fuel')%nat →
  layout_lines lang fuel' (layout_lines lang fuel ls) = layout_lines lang fuel ls.
Proof.
  revert ls fuel'. induction fuel as [|fuel IH]; intros [|l ls] fuel' Hf Hf';
    [by destruct fuel'|simpl in Hf; lia|by destruct fuel'|].
  simpl in Hf. destruct (import_here lang l) eqn:El.
  - destruct (import_block lang (l :: ls)) as [b r] eqn:Eb.
    destruct (layout_block fuel _ _ _ _ El Eb) as (E & _ & Hne & _ & Hs & Hset & Hlen).
    rewrite E in *. clear E.
    pose proof (layout_settled fuel (squeeze_blank r) ltac:(lia) Hset) as HY.
    specialize (IH (squeeze_blank r)).
    set (Y := layout_lines lang fuel (squeeze_blank r)) in *.
    assert (import_block lang (sort_block b ++ Y) = (sort_block b, Y)) as Eb'.
    { apply import_block_app; [done|]. destruct Y; [done|]. by destruct HY. }
    destruct (sort_block b) as [|m sb] eqn:E.
    { destruct b; [done|]. pose proof (Permutation_length (sort_block_perm (s :: b))) as Hp.
      by rewrite E in Hp. }
    destruct fuel' as [|fuel']; [simpl in Hf'; lia|]. cbn [app] in *.
    rewrite layout_cons, Eb'. cbn [fst snd].
    apply Forall_cons in Hs as [-> _]. cbn [negb].
    rewrite <-E, sort_block_idemp, (squeeze_settled_id Y HY), IH; [by rewrite E|lia|].
    simpl in Hf'. rewrite length_app in Hf'. lia.
  - rewrite layout_cons, El in *. cbn [negb] in *. destruct fuel' as [|fuel']; [simpl in Hf'; lia|].
    rewrite layout_cons, El. cbn [negb]. f_equal. apply IH; simpl in Hf'; lia.
Qed.
End layout_lemmas.

(** ** Lemmas: qualified names *)

(** A text in front of a double colon, which is the first one. *)
Definition clean (t : string) : Prop := find_sub "::" (t +:+ "::") = Some (String.length t).

Lemma find_sub_cons a s :
  find_sub "::" (String a s) =
  if starts_with "::" (String a s) then Some 0%nat else S <$> find_sub "::" s.
Proof. done. Qed.

Lemma clean_cons a t :
  clean (String a t) ↔ starts_with "::" (String a (t +:+ "::")) = false ∧ clean t.
Proof.
  unfold clean. rewrite str_app_cons, find_sub_cons.
  destruct (starts_with "::" (String a (t +:+ "::"))); [by split; [|intros []]|].
  cbn [String.length]. destruct (find_sub "::" (t +:+ "::")); simpl; naive_solver.
Qed.

Lemma starts_dcolon_app a t r :
  starts_with "::" (String a (t +:+ "::" +:+ r)) = starts_with "::" (String a (t +:+ "::")).
Proof. by destruct t. Qed.

Lemma clean_find t r : clean t → find_sub "::" (t +:+ "::" +:+ r) = Some (String.length t).
Proof.
  induction t as [|a t IH]; [done|]. intros [Hs Ht]%clean_cons.
  rewrite str_app_cons, find_sub_cons, starts_dcolon_app, Hs, IH by done. done.
Qed.

Lemma starts_dcolon s : starts_with "::" s = true → ∃ r, s = "::" +:+ r.
Proof.
  destruct s as [|a [|b s]]; cbn [starts_with]; [done|by rewrite andb_false_r|].
  rewrite andb_true_r.
  intros [Ha Hb]%andb_true_iff. apply Ascii.eqb_eq in Ha as <-, Hb as <-. by exists s.
Qed.

Lemma find_clean s n :
  find_sub "::" s = Some n →
  ∃ t r, s = t +:+ "::" +:+ r ∧ clean t ∧ n = String.length t.
Proof.
  revert n. induction s as [|a s IH]; intros n; [done|]. rewrite find_sub_cons.
  destruct (starts_with "::" (String a s)) eqn:E.
  - intros [= <-]. apply starts_dcolon in E as [r Hr]. by exists "", r.
  - destruct (find_sub "::" s) as [k|]; [|done]. intros [= <-].
    destruct (IH k eq_refl) as (t & r & -> & Ht & ->). exists (String a t), r.
    split_and!; [done| |done]. apply clean_cons. split; [|done].
    by rewrite <-(starts_dcolon_app a t r).
Qed.

Lemma str_drop_dcolon s : str_drop 2 ("::" +:+ s) = s.
Proof. by destruct s. Qed.

Lemma colon_lower a : Ascii.eqb ":" (to_ascii_lower a) = Ascii.eqb ":" a.
Proof. by destruct a as [[] [] [] [] [] [] [] []]. Qed.

Lemma clean_lower t : clean t → clean (to_ascii_lowercase t).
Proof.
  unfold to_ascii_lowercase. induction t as [|a t IH]; [done|].
  intros [Hs Ht]%clean_cons. simpl str_map. apply clean_cons. split; [|by apply IH].
  clear -Hs. destruct t as [|b t]; simpl str_map; rewrite ?str_app_cons, ?str_app_nil_l in *;
    cbn [starts_with] in *; by rewrite ?colon_lower.
Qed.

Lemma canonical_kind_clean t : clean t → clean (canonical_kind_token (to_ascii_lowercase t)).
Proof.
  intros H%clean_lower. unfold canonical_kind_token. repeat case_match; done.
Qed.

Lemma canonical_kind_idemp t :
  canonical_kind_token (to_ascii_lowercase (canonical_kind_token (to_ascii_lowercase t))) =
  canonical_kind_token (to_ascii_lowercase t).
Proof.
  unfold canonical_kind_token at 2 3. repeat case_match; try done.
  rewrite to_ascii_lowercase_idemp. unfold canonical_kind_token.
  repeat match goal with H : _ = false |- _ => rewrite ?H; revert H end.
  repeat (intros ->). done.
Qed.

(** The normalisation on a name of at least three parts. *)
Lemma normalize_qn_parts file kind rest :
  clean file → clean kind →
  normalize_qn_kind_tokens (file +:+ "::" +:+ kind +:+ "::" +:+ rest) =
  file +:+ "::" +:+ canonical_kind_token (to_ascii_lowercase kind) +:+ "::" +:+ rest.
Proof.
  intros Hf Hk. unfold normalize_qn_kind_tokens. rewrite clean_find by done.
  rewrite str_drop_app, str_take_app, str_drop_dcolon, clean_find by done.
  rewrite str_take_app.
  pose proof (str_drop_app kind ("::" +:+ rest) 0) as Hd. rewrite Nat.add_0_r in Hd.
  rewrite Hd, str_drop_0.
  destruct (String.eqb_spec (canonical_kind_token (to_ascii_lowercase kind)) kind) as [->|]; done.
Qed.

(** ** Properties *)

(** Searching an identifier in a line finds it exactly when it is one of the line's
    maximal words: the test by which imports are declared unused. *)
Theorem contains_word_exact (line word : string) :
  word ≠ "" → str_forall is_ident_byte word = true →
  contains_word line word = true ↔ Word word ∈ tokens line.
Proof. intros Hne Hi. by apply contains_word_tokens. Qed.

(** Laying out the import blocks of a file loses and adds nothing but blank lines,
    keeps every other line in its order, and changes nothing the second time. *)
Theorem layout_preserves (lang : Lang) (ls : list string) :
  filter content_line (layout_lines lang (length ls) ls) ≡ₚ filter content_line ls ∧
  filter (other_line lang) (layout_lines lang (length ls) ls) = filter (other_line lang) ls ∧
  (length (layout_lines lang (length ls) ls) ≤ length ls)%nat ∧
  layout_lines lang (length (layout_lines lang (length ls) ls))
    (layout_lines lang (length ls) ls) = layout_lines lang (length ls) ls.
Proof.
  destruct (layout_filters lang (length ls) ls) as (H1 & H2 & H3); [done|].
  split_and!; [done..|]. by apply layout_idemp.
Qed.

(** Normalising a qualified name rewrites its second part, the kind token, to its
    canonical spelling and nothing else; names with fewer parts are left alone; doing it
    twice changes nothing. *)
Theorem normalize_qn_spec (qname : string) :
  (normalize_qn_kind_tokens qname = qname ∨
   ∃ file kind rest, clean file ∧ clean kind ∧
     qname = file +:+ "::" +:+ kind +:+ "::" +:+ rest ∧
     normalize_qn_kind_tokens qname =
       file +:+ "::" +:+ canonical_kind_token (to_ascii_lowercase kind) +:+ "::" +:+ rest) ∧
  normalize_qn_kind_tokens (normalize_qn_kind_tokens qname) = normalize_qn_kind_tokens qname.
Proof.
  assert (normalize_qn_kind_tokens qname = qname ∨
   ∃ file kind rest, clean file ∧ clean kind ∧
     qname = file +:+ "::" +:+ kind +:+ "::" +:+ rest) as [E|(file & kind & rest & Hf & Hk & ->)].
  { destruct (find_sub "::" qname) as [n|] eqn:E1;
      [|left; unfold normalize_qn_kind_tokens; by rewrite E1].
    apply find_clean in E1 as (file & r & -> & Hf & ->).
    destruct (find_sub "::" r) as [k|] eqn:E2.
    - apply find_clean in E2 as (kind & rest & -> & Hk & ->). right. by exists file, kind, rest.
    - left. unfold normalize_qn_kind_tokens. rewrite clean_find, str_drop_app by done.
      by rewrite str_drop_dcolon, E2. }
  - rewrite !E. by split; [left|].
  - rewrite normalize_qn_parts by done. split.
    + right. by exists file, kind, rest.
    + rewrite normalize_qn_parts by auto using canonical_kind_clean.
      by rewrite canonical_kind_idemp.
Qed.

Lemma contains_word_exact_witness :
  contains_word "let m: Map = f(Mapper);" "Map" = true ↔
  Word "Map" ∈ tokens "let m: Map = f(Mapper);".
Proof. apply (contains_word_exact "let m: Map = f(Mapper);" "Map"); by vm_compute. Defined.

(** Names are taken up to the first closing brace: a stray one in front of the opening
    brace makes the engine panic. *)
Example stray_brace_panics : extract_rust_use_names "use a}::{b" = None.
Proof. by vm_compute. Qed.
