(* ===== verification/Refactor.v ===== *)
(** * The refactoring engine

    Model of [RefactorEngine] in [packages/atlas-refactor/src/engine.rs]: planning renames,
    dead-code removals and import clean-ups, and applying a plan to the files and the graph
    with roll-back. The graph store is used through the queries of [Store]; the parser
    (tree-sitter grammars), the file system's writes and the iteration orders of the
    engine's hash maps and sets are parameters. Files are named by their path below the
    repository root. Messages are values of an error type with the data they show. *)

From S2P Require Import Prelude RustStr RustFloat Kinds Graph Edits Patch Imports.

(** ** Plans and results *)

Inductive RefactorOperation :=
| RenameSymbol (old_qname new_name : string)
| RemoveDeadCode (target_qname : string)
| CleanImports (file : string)
| ExtractFunctionCandidate (file : string) (first last : N).

Inductive SafetyBand := Safe | Caution | Risky.

(** Items left to a human. *)
Inductive ReviewItem :=
| UnresolvedReference (file : string) (line : N)
| NotLocated (name : string) (line : N) (file : string)
| PotentialCollision (name file qname : string)
| UnverifiedCaller (file : string)
| NotInDeadCodeList
| PartialCleanup (file : string) (line : N) (unused : list string).

Record RefactorPlan := mk_plan {
  operation : RefactorOperation;
  edits : list RefactorEdit;
  affected_files : list string;
  plan_review : list ReviewItem;
  estimated_safety : SafetyBand
}.

Inductive ValidationError :=
| CannotRead (file : string)
| ApplyFailed (file : string) (e : EditError)
| SyntaxErrors (file : string)
| WriteFailed (file message : string)
| RefreshFailed (message : string).

Inductive ValidationWarning :=
| SkippedEmpty (file : string)
| OldNameMayRemain (file : string)
| RebuildAfterDeadCode
| RebuildAfterImports.

Record RefactorValidationResult := mk_validation {
  valid : bool;
  errors : list ValidationError;
  warnings : list ValidationWarning;
  manual_review : list ReviewItem
}.

Record RefactorPatch := mk_patch { patch_file : string; unified_diff : string }.

Record RefactorDryRunResult := mk_outcome {
  plan : RefactorPlan;
  patches : list RefactorPatch;
  validation : RefactorValidationResult;
  files_changed : nat;
  edit_count : nat;
  dry_run : bool
}.

Inductive EngineError :=
| EditErr (e : EditError)
| StoreErr (message : string)
| SymbolNotFound (qname : string)
| RenameCollision (name : string) (existing : list (string * string))
| ReadErr (file : string)
| LineOutOfRange (line : N) (file : string)
| EntrypointProtected (name : string)
| InboundReferences (qname : string) (count : nat)
| WrongOperation
| EnginePanic.

#[global] Instance ReviewItem_eq_dec : EqDecision ReviewItem.
Proof. solve_decision. Defined.
#[global] Instance RefactorOperation_eq_dec : EqDecision RefactorOperation.
Proof. solve_decision. Defined.
#[global] Instance SafetyBand_eq_dec : EqDecision SafetyBand.
Proof. solve_decision. Defined.
#[global] Instance RefactorPlan_eq_dec : EqDecision RefactorPlan.
Proof. solve_decision. Defined.
#[global] Instance EngineError_eq_dec : EqDecision EngineError.
Proof. solve_decision. Defined.

(** ** What the engine uses *)

(** The queries of the graph store. *)
Record Store := mk_store {
  node_by_qname : string → result string (option Node);
  nodes_by_file : string → result string (list Node);
  inbound_edges : string → nat → result string (list (Node * Edge));
  dead_code_candidates : nat → result string (list Node)
}.

Notation "'Disk'" := (gmap string string).

(** The old and the new text of every edited file. *)
Notation "'Contents'" := (gmap string (string * string)).

Definition EDGE_QUERY_LIMIT : nat := 500.

Definition ENTRYPOINT_NAMES : list string :=
  ["main"; "new"; "init"; "setup"; "configure"; "run"; "start"; "handler"; "middleware"].

(** A store query whose failure is the engine's. *)
Definition ask {A} (r : result string A) : result EngineError A :=
  match r with Ok a => Ok a | Err m => Err (StoreErr m) end.

Definition lift_edit {A} (r : result EditError A) : result EngineError A :=
  match r with Ok a => Ok a | Err Panic => Err EnginePanic | Err e => Err (EditErr e) end.

Definition or_panic {A} (o : option A) : result EngineError A :=
  match o with Some a => Ok a | None => Err EnginePanic end.

Definition read_file_content (disk : Disk) (rel_path : string) : result EngineError string :=
  match disk !! rel_path with Some c => Ok c | None => Err (ReadErr rel_path) end.

Definition read_line (disk : Disk) (rel_path : string) (line_no : N) : result EngineError string :=
  content <-? read_file_content disk rel_path;;
  match lines content !! N.to_nat (line_no - 1) with
  | Some l => Ok l
  | None => Err (LineOutOfRange line_no rel_path)
  end.

(** ** Planning a rename *)

Record RenameState := mk_rename {
  r_edits : list RefactorEdit;
  r_review : list ReviewItem;
  r_affected : gset string;
  r_risky : bool
}.

Definition push_edit (st : RenameState) (e : RefactorEdit) : RenameState :=
  mk_rename (r_edits st ++ [e]) (r_review st) ({[file_path e]} ∪ r_affected st) (r_risky st).

Definition push_review (st : RenameState) (i : ReviewItem) (risky : bool) : RenameState :=
  mk_rename (r_edits st) (r_review st ++ [i]) (r_affected st) (r_risky st || risky).

Definition rename_edit (file : string) (line : N) (old new : string) : RefactorEdit :=
  mk_edit file line line old new RenameOccurrence.

(** One inbound reference. *)
Definition rename_reference (disk : Disk) (old_name new_name : string) (st : RenameState)
    (reference : Node * Edge) : result EngineError RenameState :=
  let (ref_node, edge) := reference in
  let line_num := default (n_line_start ref_node) (e_line edge) in
  if (line_num =? 0)%N then Ok st
  else if float_lt (e_confidence edge) f32_0_5 then
    Ok (push_review st (UnresolvedReference (n_file_path ref_node) line_num) true)
  else
    line_text <-? read_line disk (n_file_path ref_node) line_num;;
    new_line_text <-? or_panic (replace_identifier old_name new_name line_text);;
    if String.eqb new_line_text line_text then
      Ok (push_review st (NotLocated old_name line_num (n_file_path ref_node)) false)
    else Ok (push_edit st (rename_edit (n_file_path ref_node) line_num line_text new_line_text)).

Fixpoint fold_result {A S} (f : S → A → result EngineError S) (st : S) (l : list A) :
    result EngineError S :=
  match l with
  | [] => Ok st
  | a :: l => st <-? f st a;; fold_result f st l
  end.

(** The look for nodes of the new name in one other affected file. *)
Definition collision_check (store : Store) (new_name target_file : string) (st : RenameState)
    (ref_file : string) : result EngineError RenameState :=
  if String.eqb ref_file target_file then Ok st
  else
    ref_file_nodes <-? ask (nodes_by_file store ref_file);;
    Ok (foldl (λ st n,
          if String.eqb (n_name n) new_name
          then push_review st (PotentialCollision new_name ref_file (n_qualified_name n)) true
          else st) st ref_file_nodes).

(** The key plans are sorted and deduplicated by. *)
Definition edit_key (e : RefactorEdit) : string * N := (file_path e, line_start e).

Definition edit_key_cmp : RefactorEdit → RefactorEdit → comparison :=
  cmp_lex (cmp_on file_path String.compare) (cmp_on line_start N.compare).

Definition dedup_edits (l : list RefactorEdit) : list RefactorEdit :=
  dedup_by_key edit_key (sort_by edit_key_cmp l).

Section engine.
Context (set_order : gset string → list string).
Context (map_order : ∀ A, gmap string A → list (string * A)).

(** The edit of the line the symbol is defined on. *)
Definition rename_definition (disk : Disk) (target : Node) (new_name : string) :
    result EngineError RenameState :=
  def_text <-? read_line disk (n_file_path target) (n_line_start target);;
  new_def_text <-? or_panic (replace_identifier (n_name target) new_name def_text);;
  let st := mk_rename [] [] ∅ false in
  Ok (if String.eqb new_def_text def_text then st
      else push_edit st (rename_edit (n_file_path target) (n_line_start target)
                           def_text new_def_text)).

Definition plan_rename (disk : Disk) (store : Store) (old_qname new_name : string) :
    result EngineError RefactorPlan :=
  _ <-? lift_edit (validate_identifier new_name);;
  let old_qname := normalize_qn_kind_tokens old_qname in
  found <-? ask (node_by_qname store old_qname);;
  match found with
  | None => Err (SymbolNotFound old_qname)
  | Some target =>
      file_nodes <-? ask (nodes_by_file store (n_file_path target));;
      let collision := filter (λ n, n_name n = new_name ∧ n_qualified_name n ≠ old_qname)
                         file_nodes in
      if negb (bool_decide (collision = [])) then
        Err (RenameCollision new_name (map (λ n, (n_qualified_name n, n_file_path n)) collision))
      else
        inbound <-? ask (inbound_edges store old_qname EDGE_QUERY_LIMIT);;
        st <-? rename_definition disk target new_name;;
        st <-? fold_result (rename_reference disk (n_name target) new_name) st inbound;;
        st <-? fold_result (collision_check store new_name (n_file_path target)) st
                 (set_order (r_affected st));;
        Ok (mk_plan (RenameSymbol old_qname new_name)
              (dedup_edits (r_edits st))
              (sort_by String.compare (set_order (r_affected st)))
              (r_review st)
              (if r_risky st || negb (bool_decide (r_review st = [])) then Caution else Safe))
  end.

(** ** Planning an import clean-up *)

(** The name is a word of some line other than line [line_no]. *)
Definition used_elsewhere (ls : list string) (line_no : N) (name : string) : bool :=
  existsb (λ p, negb (N.of_nat (fst p) + 1 =? line_no)%N && contains_word (snd p) name)
    (imap (λ i l, (i, l)) ls).

Definition cleanup_import (file : string) (ls : list string)
    (acc : list RefactorEdit * list ReviewItem) (i : ImportInfo) :
    list RefactorEdit * list ReviewItem :=
  if negb (existsb (used_elsewhere ls (line_no i)) (imported_names i)) then
    (fst acc ++ [mk_edit file (line_no i) (line_no i) (raw_line i) "" RemoveImport], snd acc)
  else if (1 <? length (imported_names i))%nat then
    let unused := filter (λ name, used_elsewhere ls (line_no i) name = false) (imported_names i) in
    if bool_decide (unused = []) then acc
    else (fst acc, snd acc ++ [PartialCleanup file (line_no i) unused])
  else acc.

Definition plan_import_cleanup (disk : Disk) (file : string) : result EngineError RefactorPlan :=
  content <-? read_file_content disk file;;
  let ls := lines content in
  imports <-? or_panic (find_imports (detect_language file) 0 ls);;
  let acc := foldl (cleanup_import file ls) ([], []) imports in
  Ok (mk_plan (CleanImports file) (sort_by edit_order (fst acc))
        (if bool_decide (fst acc = []) then [] else [file]) (snd acc) Safe).

(** ** Planning a dead-code removal *)

Definition is_blocking (e : Edge) : bool :=
  match e_kind e with
  | EkCalls | EkImports | EkReferences => float_ge (e_confidence e) f32_0_6
  | _ => false
  end.

Definition low_confidence (e : Edge) : bool := float_lt (e_confidence e) f32_0_6.

(** [lines[start..=end]], with Rust's panics. *)
Definition lines_range (ls : list string) (start last : nat) : result EngineError (list string) :=
  if (S last <? start)%nat || (length ls <=? last)%nat then Err EnginePanic
  else Ok (take (S last - start) (drop start ls)).

Definition plan_dead_code_removal (disk : Disk) (store : Store) (qname : string) :
    result EngineError RefactorPlan :=
  let qname := normalize_qn_kind_tokens qname in
  found <-? ask (node_by_qname store qname);;
  match found with
  | None => Err (SymbolNotFound qname)
  | Some node =>
      if existsb (String.eqb (n_name node)) ENTRYPOINT_NAMES then
        Err (EntrypointProtected (n_name node))
      else
        inbound <-? ask (inbound_edges store qname EDGE_QUERY_LIMIT);;
        let blocking := filter (λ r, is_blocking (snd r) = true) inbound in
        if negb (bool_decide (blocking = [])) then
          Err (InboundReferences qname (length blocking))
        else
          let review :=
            map (λ r, UnverifiedCaller (n_file_path (fst r)))
              (filter (λ r, low_confidence (snd r) = true) inbound) in
          dead <-? ask (dead_code_candidates store 1000);;
          let candidate := find (λ n, String.eqb (n_qualified_name n) qname) dead in
          let review :=
            match candidate, inbound with
            | None, [] => review ++ [NotInDeadCodeList]
            | _, _ => review
            end in
          file_content <-? read_file_content disk (n_file_path node);;
          let file_lines := lines file_content in
          let start_0 := N.to_nat (n_line_start node - 1) in
          let end_0 := (Nat.min (N.to_nat (n_line_end node)) (length file_lines) - 1)%nat in
          old_lines <-? lines_range file_lines start_0 end_0;;
          let removal := mk_edit (n_file_path node) (n_line_start node) (n_line_end node)
                           (join nl old_lines) "" RemoveSpan in
          import_edits <-? match plan_import_cleanup disk (n_file_path node) with
                           | Ok ip => Ok (edits ip)
                           | Err EnginePanic => Err EnginePanic
                           | Err _ => Ok []
                           end;;
          Ok (mk_plan (RemoveDeadCode qname) (dedup_edits (removal :: import_edits))
                [n_file_path node] review
                (if existsb (λ r, low_confidence (snd r)) inbound then Caution else Safe))
  end.
(** ** Applying a plan *)

Definition by_file (es : list RefactorEdit) : gmap string (list RefactorEdit) :=
  foldl (λ m e, <[file_path e := default [] (m !! file_path e) ++ [e]]> m) ∅ es.

Record ApplyState := mk_apply {
  a_patches : list RefactorPatch;
  a_contents : Contents;
  a_validation : RefactorValidationResult
}.

Definition add_error (e : ValidationError) (v : RefactorValidationResult) :=
  mk_validation false (errors v ++ [e]) (warnings v) (manual_review v).
Definition add_warning (w : ValidationWarning) (v : RefactorValidationResult) :=
  mk_validation (valid v) (errors v) (warnings v ++ [w]) (manual_review v).

Definition normalize_post_edit_content (plan : RefactorPlan) (file content : string) : string :=
  match operation plan with
  | CleanImports _ | RemoveDeadCode _ => normalize_import_block_layout file content
  | _ => content
  end.

(** The edits of one file, from its text to its new text. *)
Definition edit_file (plan : RefactorPlan) (file content : string) (file_edits : list RefactorEdit) :
    result EditError string :=
  new_content <-? apply_edits content (sort_by edit_order file_edits);;
  Ok (normalize_post_edit_content plan file new_content).

(** One round of the loop over the files. *)
Definition apply_file (plan : RefactorPlan) (disk : Disk) (st : ApplyState)
    (entry : string * list RefactorEdit) : result EngineError ApplyState :=
  let (file, file_edits) := entry in
  match disk !! file with
  | None => Ok (mk_apply (a_patches st) (a_contents st) (add_error (CannotRead file) (a_validation st)))
  | Some old_content =>
      match edit_file plan file old_content file_edits with
      | Err Panic => Err EnginePanic
      | Err e =>
          Ok (mk_apply (a_patches st) (a_contents st) (add_error (ApplyFailed file e) (a_validation st)))
      | Ok new_content =>
          let diff := unified_diff_annotated file old_content new_content in
          Ok (mk_apply
                (a_patches st ++ if str_is_empty diff then [] else [mk_patch file diff])
                (<[file := (old_content, new_content)]> (a_contents st))
                (a_validation st))
      end
  end.

Context {ParsedFile StoreState : Type}.

(** The parser: which files it knows, and its result with the syntax-error flag of the
    tree, when there is a tree. *)
Context (supports : string → bool) (parse : string → string → option (ParsedFile * option bool)).

Definition parse_file_content (file content : string) (v : RefactorValidationResult) :
    option (ParsedFile * option bool) * RefactorValidationResult :=
  if negb (supports file) then (None, v)
  else if str_is_empty content then (None, add_warning (SkippedEmpty file) v)
  else (parse file content, v).

Definition revalidate_parsed_file (v : RefactorValidationResult)
    (entry : string * (string * string)) : RefactorValidationResult :=
  match parse_file_content (fst entry) (snd (snd entry)) v with
  | (Some (_, Some true), v) => add_error (SyntaxErrors (fst entry)) v
  | (_, v) => v
  end.

Definition revalidate_parsed_files (v : RefactorValidationResult) (contents : Contents) :
    RefactorValidationResult :=
  foldl revalidate_parsed_file v (map_order _ contents).

(** [std::fs::write]: the error message, if it failed, and the files afterwards. *)
Context (write : Disk → string → string → option string * Disk).

Fixpoint write_files (disk : Disk) (written : list string)
    (todo : list (string * (string * string))) :
    option (string * string) * list string * Disk :=
  match todo with
  | [] => (None, written, disk)
  | (file, (_, new_content)) :: todo =>
      match write disk file new_content with
      | (Some message, disk) => (Some (file, message), written, disk)
      | (None, disk) => write_files disk (written ++ [file]) todo
      end
  end.

Definition rollback_written_files (contents : Contents) (disk : Disk) (written : list string) :
    Disk :=
  foldl (λ disk file,
    match contents !! file with
    | Some (old_content, _) => snd (write disk file old_content)
    | None => disk
    end) disk written.

(** The transactional replacement of the parsed files in the graph. *)
Context (replace_files : StoreState → list ParsedFile → result string StoreState).

Definition parsed_files (contents : Contents) : list ParsedFile :=
  omap (λ entry,
    fst <$> fst (parse_file_content (fst entry) (snd (snd entry)) (mk_validation true [] [] [])))
    (map_order _ contents).

Definition refresh_graph_slices (store : StoreState) (contents : Contents) :
    result string StoreState :=
  match parsed_files contents with
  | [] => Ok store
  | files => replace_files store files
  end.

(** The writing phase: files, then graph, rolled back on a failure. *)
Definition write_phase (disk : Disk) (store : StoreState) (contents : Contents)
    (v : RefactorValidationResult) : RefactorValidationResult * Disk * StoreState :=
  match write_files disk [] (map_order _ contents) with
  | (Some (file, message), written, disk) =>
      (add_error (WriteFailed file message) v, rollback_written_files contents disk written, store)
  | (None, written, disk) =>
      match refresh_graph_slices store contents with
      | Ok store => (v, disk, store)
      | Err message =>
          (add_error (RefreshFailed message) v, rollback_written_files contents disk written, store)
      end
  end.

Definition apply_plan_internal
    (validate : RefactorValidationResult → Contents → RefactorValidationResult)
    (plan : RefactorPlan) (dry : bool) (disk : Disk) (store : StoreState) :
    result EngineError (RefactorDryRunResult * Disk * StoreState) :=
  st <-? fold_result (apply_file plan disk)
           (mk_apply [] ∅ (mk_validation true [] [] (plan_review plan)))
           (map_order _ (by_file (edits plan)));;
  let contents := a_contents st in
  let v := validate (revalidate_parsed_files (a_validation st) contents) contents in
  let '(v, disk, store) :=
    if negb dry && valid v then write_phase disk store contents v else (v, disk, store) in
  Ok (mk_outcome plan (a_patches st) v (length (a_patches st)) (length (edits plan)) dry,
      disk, store).

(** ** The operations *)

Definition checked_apply validate (plan : RefactorPlan) (dry : bool) disk store :=
  _ <-? lift_edit (check_overlaps (map fst (map_order _ (by_file (edits plan)))) (edits plan));;
  apply_plan_internal validate plan dry disk store.

Definition warn_old_name (old_qname : string) (v : RefactorValidationResult)
    (contents : Contents) : RefactorValidationResult :=
  foldl (λ v entry,
    if contains (last_segment old_qname) (snd (snd entry))
    then add_warning (OldNameMayRemain (fst entry)) v else v)
    v (map_order _ contents).

Definition apply_rename (plan : RefactorPlan) (dry : bool) (disk : Disk) (store : StoreState) :=
  match operation plan with
  | RenameSymbol old_qname _ => checked_apply (warn_old_name old_qname) plan dry disk store
  | _ => Err WrongOperation
  end.

Definition apply_dead_code_removal (plan : RefactorPlan) (dry : bool) (disk : Disk)
    (store : StoreState) :=
  match operation plan with
  | RemoveDeadCode _ =>
      checked_apply (λ v _, add_warning RebuildAfterDeadCode v) plan dry disk store
  | _ => Err WrongOperation
  end.

Definition apply_import_cleanup (plan : RefactorPlan) (dry : bool) (disk : Disk)
    (store : StoreState) :=
  match operation plan with
  | CleanImports _ =>
      checked_apply (λ v _, add_warning RebuildAfterImports v) plan dry disk store
  | _ => Err WrongOperation
  end.
End engine.

(** ** Lemmas: loops and maps *)

Lemma fold_result_inv {A S} (P : S → Prop) (f : S → A → result EngineError S) st l st' :
  (∀ st a st', a ∈ l → P st → f st a = Ok st' → P st') →
  fold_result f st l = Ok st' → P st → P st'.
Proof.
  revert st. induction l as [|a l IH]; intros st Hf; simpl; [by intros [= ->]|].
  intros (st1 & H1 & H2)%res_bind_ok Hst.
  eapply IH; [|exact H2|].
  - intros s b s' Hb. apply Hf. by constructor.
  - eapply Hf; [constructor|exact Hst|exact H1].
Qed.

Lemma by_file_snoc es e :
  by_file (es ++ [e]) = <[file_path e := default [] (by_file es !! file_path e) ++ [e]]> (by_file es).
Proof. unfold by_file. by rewrite foldl_snoc. Qed.

Lemma by_file_lookup es file :
  by_file es !! file =
  match filter (λ e, file_path e = file) es with [] => None | l => Some l end.
Proof.
  induction es as [|e es IH] using rev_ind; [done|].
  rewrite by_file_snoc, filter_app, filter_cons, filter_nil.
  destruct (decide (file_path e = file)) as [<-|Hne].
  - rewrite lookup_insert_eq, IH. by destruct (filter _ es).
  - rewrite lookup_insert_ne by done. by rewrite app_nil_r.
Qed.

(** ** Lemmas: planned renames *)

(** An edit that renames whole words in the current text of its line. *)
Definition rename_ok (disk : Disk) (old_name new_name : string) (e : RefactorEdit) : Prop :=
  line_end e = line_start e ∧ new_text e ≠ old_text e ∧
  read_line disk (file_path e) (line_start e) = Ok (old_text e) ∧
  replace_identifier old_name new_name (old_text e) = Some (new_text e).

Definition rename_inv (disk : Disk) (old_name new_name : string) (st : RenameState) : Prop :=
  Forall (rename_ok disk old_name new_name) (r_edits st) ∧
  ∀ file, file ∈ r_affected st ↔ ∃ e, e ∈ r_edits st ∧ file_path e = file.

Lemma push_edit_inv disk old_name new_name st e :
  rename_inv disk old_name new_name st → rename_ok disk old_name new_name e →
  rename_inv disk old_name new_name (push_edit st e).
Proof.
  intros [Hf Ha] He. split; simpl.
  - apply Forall_app. split; [done|]. by constructor.
  - intros file. rewrite elem_of_union, elem_of_singleton, Ha. set_solver.
Qed.

Lemma or_panic_ok {A} (o : option A) a : or_panic o = Ok a → o = Some a.
Proof. destruct o; simpl; congruence. Qed.

Lemma rename_definition_inv disk target new_name st :
  rename_definition disk target new_name = Ok st → rename_inv disk (n_name target) new_name st.
Proof.
  intros (text & Ht & (new_text & Hn%or_panic_ok & [= <-])%res_bind_ok)%res_bind_ok.
  assert (rename_inv disk (n_name target) new_name (mk_rename [] [] ∅ false)) as H0.
  { split; [constructor|]. simpl. set_solver. }
  destruct (String.eqb_spec new_text text) as [->|Hne]; [done|].
  apply push_edit_inv; [done|]. by split_and!.
Qed.

Lemma rename_reference_inv disk old_name new_name st reference st' :
  rename_inv disk old_name new_name st →
  rename_reference disk old_name new_name st reference = Ok st' →
  rename_inv disk old_name new_name st'.
Proof.
  destruct reference as [ref_node edge]. unfold rename_reference. intros Hinv.
  destruct (_ =? 0)%N; [by intros [= <-]|].
  destruct (float_lt _ _); [by intros [= <-]|].
  intros (text & Ht & (new_text & Hn%or_panic_ok & H)%res_bind_ok)%res_bind_ok.
  destruct (String.eqb_spec new_text text) as [->|Hne]; injection H as <-; [done|].
  apply push_edit_inv; [done|]. by split_and!.
Qed.

Lemma collision_check_keeps store new_name target_file st file st' :
  collision_check store new_name target_file st file = Ok st' →
  r_edits st' = r_edits st ∧ r_affected st' = r_affected st.
Proof.
  unfold collision_check. destruct (String.eqb _ _); [by intros [= <-]|].
  intros (ns & _ & [= <-])%res_bind_ok. clear.
  revert st. induction ns as [|n ns IH]; intros st; [done|]. simpl.
  destruct (String.eqb _ _); [|apply IH].
  by destruct (IH (push_review st (PotentialCollision new_name file (n_qualified_name n)) true))
    as [-> ->].
Qed.

Lemma edit_key_cmp_eq e f : edit_key_cmp e f = Eq ↔ edit_key e = edit_key f.
Proof.
  unfold edit_key_cmp, cmp_lex, cmp_on, edit_key. split.
  - intros H. destruct (String.compare _ _) eqn:E; simpl in H; try done.
    apply (cmp_eq String.compare) in E. apply (cmp_eq N.compare) in H. congruence.
  - intros [= -> ->]. by rewrite (cmp_refl String.compare), (cmp_refl N.compare).
Qed.

Lemma dedup_edits_elem l e : e ∈ dedup_edits l → e ∈ l.
Proof.
  intros He. apply (sort_by_elem edit_key_cmp). eapply elem_of_sublist; [exact He|].
  apply dedup_by_key_sublist.
Qed.

Lemma dedup_edits_key l e : e ∈ l → ∃ f, f ∈ dedup_edits l ∧ edit_key f = edit_key e.
Proof. intros He. apply dedup_by_key_covers. by apply sort_by_elem. Qed.

Lemma dedup_edits_sorted l :
  StronglySorted (λ e f, edit_key_cmp e f = Lt) (dedup_edits l).
Proof.
  apply dedup_by_key_sorted; [typeclasses eauto|apply edit_key_cmp_eq|].
  apply sort_by_sorted. typeclasses eauto.
Qed.

Lemma strict_keys_NoDup l :
  StronglySorted (λ e f, edit_key_cmp e f = Lt) l → NoDup (map edit_key l).
Proof.
  induction 1 as [|e l Hs IH He]; [constructor|]. simpl. constructor; [|done].
  intros (f & Hk & Hf)%list_elem_of_fmap. rewrite Forall_forall in He.
  specialize (He f Hf). apply edit_key_cmp_eq in Hk. congruence.
Qed.

(** One-line edits with distinct keys never overlap. *)
Lemma single_line_disjoint l path :
  Forall (λ e, line_end e = line_start e) l →
  StronglySorted (λ e f, edit_key_cmp e f = Lt) l →
  StronglySorted edits_disjoint (filter (λ e, file_path e = path) l).
Proof.
  intros Hl Hs. induction Hs as [|e l Hs IH He]; [constructor|].
  apply Forall_cons in Hl as [Hle Hl]. rewrite filter_cons. case_decide as Hp; [|by apply IH].
  constructor; [by apply IH|]. apply Forall_forall. intros f [Hfp Hf]%list_elem_of_filter.
  rewrite Forall_forall in He, Hl. specialize (He f Hf). specialize (Hl f Hf).
  unfold edit_key_cmp, cmp_lex, cmp_on in He.
  rewrite Hp, Hfp, (cmp_refl String.compare) in He. simpl in He.
  apply N.compare_lt_iff in He. right. by rewrite Hle.
Qed.

Lemma rename_state_plan disk old_name new_name set_order st :
  (∀ s : gset string, set_order s ≡ₚ elements s) → rename_inv disk old_name new_name st →
  Forall (rename_ok disk old_name new_name) (dedup_edits (r_edits st)) ∧
  ∀ file, file ∈ sort_by String.compare (set_order (r_affected st)) ↔
          ∃ e, e ∈ dedup_edits (r_edits st) ∧ file_path e = file.
Proof.
  intros Hset [Hf Ha]. split.
  - rewrite Forall_forall in *. intros e He%dedup_edits_elem. auto.
  - intros file. rewrite sort_by_elem, Hset, elem_of_elements, Ha. split.
    + intros (e & He & <-). destruct (dedup_edits_key _ _ He) as (f & Hf' & [= Hp _]). by exists f.
    + intros (e & He%dedup_edits_elem & <-). by exists e.
Qed.

(** ** Properties: plans *)

(** A planned rename: every edit rewrites, on one line of the current text, exactly the
    occurrences of the symbol's name; the plan touches no line twice, so it always passes
    the overlap check; the files reported as affected are those edited; and the plan is
    called safe only when nothing is left for review. *)
Theorem plan_rename_sound (set_order : gset string → list string) (disk : Disk) (store : Store)
    (qname new_name : string) (p : RefactorPlan) :
  (∀ s, set_order s ≡ₚ elements s) →
  plan_rename set_order disk store qname new_name = Ok p →
  ∃ target,
    node_by_qname store (normalize_qn_kind_tokens qname) = Ok (Some target) ∧
    validate_identifier new_name = Ok tt ∧
    Forall (rename_ok disk (n_name target) new_name) (edits p) ∧
    NoDup (map edit_key (edits p)) ∧
    (∀ order, check_overlaps order (edits p) = Ok tt) ∧
    (∀ file, file ∈ affected_files p ↔ ∃ e, e ∈ edits p ∧ file_path e = file) ∧
    (estimated_safety p = Safe → plan_review p = []).
Proof.
  intros Hset (u & Hv & (found & Hfound & H)%res_bind_ok)%res_bind_ok.
  destruct found as [target|]; [|done]. exists target.
  apply res_bind_ok in H as (file_nodes & _ & H). cbn zeta in H.
  destruct (negb _) in H; [done|].
  apply res_bind_ok in H as (inbound & _ & (st1 & H1 & (st2 & H2 & (st3 & H3 & [= <-])%res_bind_ok)
    %res_bind_ok)%res_bind_ok).
  apply rename_definition_inv in H1.
  assert (rename_inv disk (n_name target) new_name st2) as Hinv.
  { eapply fold_result_inv; [|exact H2|exact H1]. intros; by eapply rename_reference_inv. }
  assert (r_edits st3 = r_edits st2 ∧ r_affected st3 = r_affected st2) as [E1 E2].
  { eapply (fold_result_inv (λ st, r_edits st = r_edits st2 ∧ r_affected st = r_affected st2));
      [|exact H3|done].
    intros s file s' _ [Hs1 Hs2] [-> ->]%collision_check_keeps. done. }
  assert (rename_inv disk (n_name target) new_name st3) as Hinv3.
  { unfold rename_inv. by rewrite E1, E2. }
  destruct (rename_state_plan _ _ _ set_order _ Hset Hinv3) as [Hok Haff].
  pose proof (dedup_edits_sorted (r_edits st3)) as Hs.
  assert (Forall (λ e, line_end e = line_start e) (dedup_edits (r_edits st3))) as Hl.
  { eapply Forall_impl; [exact Hok|]. by intros e [? _]. }
  split_and!; simpl.
  - by destruct (node_by_qname _ _) as [[]|]; simpl in Hfound; simplify_eq.
  - destruct (validate_identifier new_name) as [[]|[]]; done.
  - done.
  - by apply strict_keys_NoDup.
  - intros order. apply check_overlaps_disjoint.
    + eapply Forall_impl; [exact Hl|]. intros e ->. done.
    + intros path. by apply single_line_disjoint.
  - done.
  - destruct (r_risky st3); [done|]. case_bool_decide; done.
Qed.

Lemma find_imports_spec lang i ls imports :
  find_imports lang i ls = Some imports →
  ∀ im, im ∈ imports ↔
    ∃ k line names, ls !! k = Some line ∧ line_imports lang (trim line) = Some names ∧
      names ≠ [] ∧ im = mk_import (N.of_nat (S (i + k))) names line.
Proof.
  revert i imports. induction ls as [|l ls IH]; intros i imports; simpl.
  { intros [= <-] im. split; [by intros ?%elem_of_nil|]. by intros (? & ? & ? & ? & _). }
  destruct (line_imports lang (trim l)) as [names|] eqn:En; [|done]. simpl.
  destruct (find_imports lang (S i) ls) as [rest|] eqn:Er; [|done]. intros [= <-] im.
  specialize (IH _ _ Er im).
  assert (im ∈ rest ↔ ∃ k line names, (l :: ls) !! S k = Some line ∧
    line_imports lang (trim line) = Some names ∧ names ≠ [] ∧
    im = mk_import (N.of_nat (S (i + S k))) names line) as IH'.
  { rewrite IH. simpl. by setoid_rewrite Nat.add_succ_r. }
  clear IH. split.
  - intros Him. case_bool_decide as Hn.
    + apply IH' in Him as (k & ?). by exists (S k).
    + apply elem_of_cons in Him as [->|Him].
      * exists 0%nat, l, names. rewrite Nat.add_0_r. by split_and!.
      * apply IH' in Him as (k & ?). by exists (S k).
  - intros ([|k] & line & names' & Hk & Hl & Hne & ->).
    + simpl in Hk. simplify_eq. rewrite bool_decide_false by done. rewrite Nat.add_0_r.
      constructor.
    + assert (mk_import (N.of_nat (S (i + S k))) names' line ∈ rest) as Hin.
      { apply IH'. by exists k, line, names'. }
      case_bool_decide; [done|by constructor].
Qed.

Lemma used_elsewhere_false ls k name :
  used_elsewhere ls (N.of_nat (S k)) name = false ↔
  ∀ j other, ls !! j = Some other → j ≠ k → contains_word other name = false.
Proof.
  unfold used_elsewhere. rewrite <-not_true_iff_false, existsb_exists. split.
  - intros H j other Hj Hne. destruct (contains_word other name) eqn:E; [|done].
    destruct H. exists (j, other). split.
    + apply list_elem_of_In, elem_of_lookup_imap. by exists j, other.
    + simpl. rewrite E, andb_true_r. apply negb_true_iff, N.eqb_neq. lia.
  - intros H ([j other] & Hin & [Hn Hc]%andb_true_iff).
    apply list_elem_of_In, elem_of_lookup_imap in Hin as (? & ? & [= <- <-] & Hj). simpl in *.
    rewrite (H j other Hj) in Hc; [done|]. intros ->.
    apply negb_true_iff, N.eqb_neq in Hn. lia.
Qed.

Lemma cleanup_fold file ls imports acc :
  fst (foldl (cleanup_import file ls) acc imports) =
  fst acc ++ map (λ i, mk_edit file (line_no i) (line_no i) (raw_line i) "" RemoveImport)
    (filter (λ i, existsb (used_elsewhere ls (line_no i)) (imported_names i) = false) imports).
Proof.
  revert acc. induction imports as [|i imports IH]; intros acc; simpl; [by rewrite app_nil_r|].
  rewrite IH, filter_cons. unfold cleanup_import.
  destruct (existsb _ _); simpl.
  - repeat case_match; done.
  - by rewrite <-app_assoc.
Qed.

Lemma existsb_false {A} (p : A → bool) l :
  existsb p l = false ↔ ∀ x, x ∈ l → p x = false.
Proof.
  rewrite <-not_true_iff_false, existsb_exists. setoid_rewrite <-list_elem_of_In. split.
  - intros H x Hx. destruct (p x) eqn:E; [|done]. destruct H. by exists x.
  - intros H (x & Hx & E). rewrite (H x Hx) in E. done.
Qed.

(** An import clean-up plans the removal of exactly the import lines none of whose
    names is a word of any other line of the file. *)
Theorem import_cleanup_exact (disk : Disk) (file : string) (p : RefactorPlan) :
  plan_import_cleanup disk file = Ok p →
  ∃ content, disk !! file = Some content ∧
  ∀ e, e ∈ edits p ↔
    ∃ k line names,
      lines content !! k = Some line ∧
      line_imports (detect_language file) (trim line) = Some names ∧ names ≠ [] ∧
      (∀ name j other, name ∈ names → lines content !! j = Some other → j ≠ k →
         contains_word other name = false) ∧
      e = mk_edit file (N.of_nat (S k)) (N.of_nat (S k)) line "" RemoveImport.
Proof.
  intros (content & Hc & (imports & Hi%or_panic_ok & [= <-])%res_bind_ok)%res_bind_ok.
  exists content. split.
  { unfold read_file_content in Hc. by destruct (disk !! file); simplify_eq. }
  intros e. simpl. rewrite sort_by_elem, cleanup_fold. simpl.
  rewrite list_elem_of_fmap. setoid_rewrite list_elem_of_filter.
  pose proof (find_imports_spec _ _ _ _ Hi) as Hs. split.
  - intros (i & -> & Hu & (k & line & names & Hk & Hl & Hne & ->)%Hs).
    exists k, line, names. simpl in *. split_and!; [done..| |done].
    intros name j other Hn. rewrite existsb_false in Hu.
    by apply used_elsewhere_false, Hu.
  - intros (k & line & names & Hk & Hl & Hne & Hu & ->).
    exists (mk_import (N.of_nat (S k)) names line). split_and!; [done| |].
    + apply existsb_false. intros name Hn. apply used_elsewhere_false. intros j other.
      by apply Hu.
    + apply Hs. by exists k, line, names.
Qed.

(** ** Lemmas: editing the files *)

(** The new text of a file under a plan, when the file can be read and edited. *)
Definition new_text_of (p : RefactorPlan) (disk : Disk) (file : string) : option string :=
  match by_file (edits p) !! file, disk !! file with
  | Some file_edits, Some old =>
      match edit_file p file old file_edits with Ok new => Some new | Err _ => None end
  | _, _ => None
  end.

Definition entry_contents (p : RefactorPlan) (disk : Disk) (entry : string * list RefactorEdit) :
    option (string * string) :=
  old ← disk !! fst entry;
  match edit_file p (fst entry) old (snd entry) with Ok new => Some (old, new) | Err _ => None end.

Lemma apply_file_contents p disk st entry st' :
  apply_file p disk st entry = Ok st' →
  a_contents st' =
    match entry_contents p disk entry with
    | Some c => <[fst entry := c]> (a_contents st)
    | None => a_contents st
    end ∧
  valid (a_validation st') = valid (a_validation st) && bool_decide (is_Some (entry_contents p disk entry)).
Proof.
  destruct entry as [file fe]. unfold apply_file, entry_contents. simpl.
  destruct (disk !! file) as [old|]; simpl; [|intros [= <-]; by rewrite andb_false_r].
  destruct (edit_file p file old fe) as [new|e].
  - intros [= <-]. by rewrite andb_true_r.
  - destruct e; intros; simplify_eq; simpl; by rewrite andb_false_r.
Qed.

Lemma apply_files_contents p disk l st st' :
  fold_result (apply_file p disk) st l = Ok st' → NoDup (map fst l) →
  (∀ file, file ∉ map fst l → a_contents st' !! file = a_contents st !! file) ∧
  (∀ entry, entry ∈ l → a_contents st !! fst entry = None →
     a_contents st' !! fst entry = entry_contents p disk entry) ∧
  valid (a_validation st') =
    valid (a_validation st) && forallb (λ entry, bool_decide (is_Some (entry_contents p disk entry))) l.
Proof.
  revert st. induction l as [|entry l IH]; intros st; simpl.
  { intros [= ->] _. split_and!; [done| |by rewrite andb_true_r]. by intros ? ?%elem_of_nil. }
  intros (st1 & H1 & H2)%res_bind_ok [Hn Hnd]%NoDup_cons.
  destruct (apply_file_contents _ _ _ _ _ H1) as [Hc Hv].
  destruct (IH st1 H2 Hnd) as (IH1 & IH2 & IH3).
  assert (∀ file, file ≠ fst entry → a_contents st1 !! file = a_contents st !! file) as Hother.
  { intros file Hne. rewrite Hc. destruct (entry_contents _ _ _); simpl; [|done].
    by rewrite lookup_insert_ne. }
  split_and!.
  - intros file [Hne Hnl]%not_elem_of_cons. by rewrite IH1, Hother.
  - intros e [->|He]%elem_of_cons Hnone.
    + rewrite IH1 by done. rewrite Hc. destruct (entry_contents _ _ _); [|done].
      simpl. by rewrite lookup_insert_eq.
    + apply IH2; [done|]. rewrite Hother; [done|]. intros E. apply Hn. rewrite <-E.
      by apply list_elem_of_fmap_2.
  - by rewrite IH3, Hv, andb_assoc.
Qed.

(** ** Lemmas: writing *)

(** What the engine relies on of [std::fs::write]: a successful one replaces the contents of the
    file, and a failed one touches at most that file (the paths name different files). *)
Class FsWrites (write : Disk → string → string → option string * Disk) : Prop := {
  write_ok d p c d' : write d p c = (None, d') → d' = <[p := c]> d;
  write_err d p c m d' q : write d p c = (Some m, d') → q ≠ p → d' !! q = d !! q
}.

Section writing.
Context (write : Disk → string → string → option string * Disk) `{!FsWrites write}.

Lemma write_bad_elem todo disk written bad msg written' disk' :
  write_files write disk written todo = (Some (bad, msg), written', disk') → bad ∈ map fst todo.
Proof.
  revert disk written. induction todo as [|[file [old new]] todo IH]; intros disk written; simpl;
    [done|].
  destruct (write disk file new) as [[m|] d1]; [intros [= -> _ _ _]; constructor|].
  intros H%IH. by constructor.
Qed.

Lemma write_files_spec todo disk written r written' disk' :
  write_files write disk written todo = (r, written', disk') → NoDup (map fst todo) →
  match r with
  | None =>
      written' = written ++ map fst todo ∧
      (∀ file c, (file, c) ∈ todo → disk' !! file = Some (snd c)) ∧
      (∀ file, file ∉ map fst todo → disk' !! file = disk !! file)
  | Some (bad, _) =>
      ∃ ok, written' = written ++ ok ∧ ok ⊆ map fst todo ∧ (bad ∉ ok) ∧
        ∀ file, file ∉ ok → file ≠ bad → disk' !! file = disk !! file
  end.
Proof.
  revert disk written. induction todo as [|[file [old new]] todo IH]; intros disk written; simpl.
  { intros [= <- <- <-] _. rewrite app_nil_r. split_and!; [done| |done].
    by intros ? ? ?%elem_of_nil. }
  destruct (write disk file new) as [[m|] d1] eqn:Ew; intros H [Hn Hnd]%NoDup_cons.
  - simplify_eq. exists []. rewrite app_nil_r.
    split_and!; [done|set_solver|set_solver|]. intros q _ Hq. by eapply write_err.
  - pose proof (write_ok _ _ _ _ Ew) as ->.
    pose proof (IH _ _ H Hnd) as Hr. destruct r as [[bad msg]|].
    + destruct Hr as (dn & -> & Hsub & Hbad & Hkeep). exists (file :: dn).
      rewrite <-app_assoc. split_and!; [done|set_solver| |].
      * apply not_elem_of_cons. split; [|done]. intros ->. eapply write_bad_elem in H. set_solver.
      * intros q [Hq Hqd]%not_elem_of_cons Hqb. rewrite Hkeep by done. by rewrite lookup_insert_ne.
    + destruct Hr as (-> & Hin & Hout). rewrite <-app_assoc. split_and!; [done| |].
      * intros q c [[= -> ->]|Hq]%elem_of_cons; [|by apply Hin].
        rewrite Hout by done. simpl. by rewrite lookup_insert_eq.
      * intros q [Hq Hqt]%not_elem_of_cons. rewrite Hout by done. by rewrite lookup_insert_ne.
Qed.

(** The old text of a file that cannot be put back. *)
Definition stuck (file old : string) : Prop := ∃ d m d', write d file old = (Some m, d').

Lemma rollback_spec (contents : Contents) (written : list string) disk :
  (∀ p, p ∈ written → is_Some (contents !! p)) →
  (∀ p old, p ∈ written → fst <$> contents !! p = Some old →
     rollback_written_files write contents disk written !! p = Some old ∨ stuck p old) ∧
  (∀ p, p ∉ written → rollback_written_files write contents disk written !! p = disk !! p).
Proof.
  unfold rollback_written_files.
  revert disk. induction written as [|w written IH]; intros disk Hc; simpl.
  { split; [by intros ? ? ?%elem_of_nil|done]. }
  destruct (Hc w ltac:(constructor)) as [[old new] Ew]. rewrite Ew.
  destruct (write disk w old) as [r d1] eqn:Hw. simpl.
  destruct (IH d1) as [IH1 IH2]; [intros p Hp; apply Hc; by constructor|]. split.
  - intros p o Hp Ho. destruct (decide (p ∈ written)) as [Hin|Hni]; [by apply IH1|].
    apply elem_of_cons in Hp as [->|Hp]; [|done]. rewrite IH2 by done.
    rewrite Ew in Ho. injection Ho as <-. destruct r as [m|]; [right; by exists disk, m, d1|left].
    apply write_ok in Hw as ->. by rewrite lookup_insert_eq.
  - intros p [Hpw Hp]%not_elem_of_cons. rewrite IH2 by done. destruct r as [m|].
    + by eapply write_err.
    + apply write_ok in Hw as ->. by rewrite lookup_insert_ne.
Qed.
End writing.

(** ** Properties: application *)

Section application.
Context (map_order : ∀ A, gmap string A → list (string * A)).
Context (map_order_perm : ∀ A (m : gmap string A), map_order A m ≡ₚ map_to_list m).
Context {ParsedFile StoreState : Type}.
Context (supports : string → bool) (parse : string → string → option (ParsedFile * option bool)).
Context (write : Disk → string → string → option string * Disk) `{!FsWrites write}.
Context (replace_files : StoreState → list ParsedFile → result string StoreState).

Lemma map_order_keys_NoDup {A} (m : gmap string A) : NoDup (map fst (map_order A m)).
Proof. rewrite map_order_perm. apply NoDup_fst_map_to_list. Qed.

Lemma map_order_elem {A} (m : gmap string A) k a : (k, a) ∈ map_order A m ↔ m !! k = Some a.
Proof. rewrite map_order_perm. apply elem_of_map_to_list. Qed.

Lemma map_order_key_elem {A} (m : gmap string A) k :
  k ∈ map fst (map_order A m) ↔ is_Some (m !! k).
Proof.
  rewrite list_elem_of_fmap. split.
  - intros ([k' a] & -> & H%map_order_elem). by exists a.
  - intros [a Ha]. exists (k, a). by split; [|apply map_order_elem].
Qed.

(** The contents the edit loop ends with. *)
Lemma apply_loop_contents p disk st st' :
  fold_result (apply_file p disk) st (map_order _ (by_file (edits p))) = Ok st' →
  a_contents st = ∅ →
  (∀ file, snd <$> a_contents st' !! file = new_text_of p disk file) ∧
  (∀ file, is_Some (a_contents st' !! file) → fst <$> a_contents st' !! file = disk !! file) ∧
  valid (a_validation st') =
    valid (a_validation st) &&
    forallb (λ entry, bool_decide (is_Some (entry_contents p disk entry)))
      (map_order _ (by_file (edits p))).
Proof.
  intros H Hempty.
  destruct (apply_files_contents _ _ _ _ _ H (map_order_keys_NoDup _)) as (H1 & H2 & H3).
  assert (∀ file, a_contents st' !! file =
    fe ← by_file (edits p) !! file; entry_contents p disk (file, fe)) as Hc.
  { intros file. destruct (by_file (edits p) !! file) as [fe|] eqn:E.
    - apply (H2 (file, fe)); [by apply map_order_elem|]. by rewrite Hempty.
    - rewrite H1, Hempty; [done|]. intros [? ?]%map_order_key_elem. congruence. }
  split_and!; [| |done].
  - intros file. rewrite Hc. unfold new_text_of, entry_contents.
    destruct (by_file (edits p) !! file) as [fe|]; [|done]. simpl.
    destruct (disk !! file) as [old|]; [|done]. simpl. by destruct (edit_file _ _ _ _).
  - intros file. rewrite Hc. unfold entry_contents.
    destruct (by_file (edits p) !! file) as [fe|]; simpl; [|by intros []].
    destruct (disk !! file) as [old|]; simpl; [|by intros []].
    by destruct (edit_file _ _ _ _); [|intros []].
Qed.

Lemma write_phase_spec p disk store contents v v' disk' store' :
  write_phase map_order supports parse write replace_files disk store contents v =
    (v', disk', store') →
  (∀ file, snd <$> contents !! file = new_text_of p disk file) →
  (∀ file, is_Some (contents !! file) → fst <$> contents !! file = disk !! file) →
  (v' = v ∧ ∀ file, disk' !! file =
     match new_text_of p disk file with Some new => Some new | None => disk !! file end) ∨
  (valid v' = false ∧ store' = store ∧
   ∀ file, disk' !! file = disk !! file ∨
     is_Some (new_text_of p disk file) ∧
     ((∃ m, WriteFailed file m ∈ errors v') ∨ ∃ old, disk !! file = Some old ∧ stuck write file old)).
Proof.
  intros H Hnew Hold. unfold write_phase in H.
  destruct (write_files write disk [] (map_order _ contents)) as [[r written] d1] eqn:Ew.
  pose proof (write_files_spec write _ _ _ _ _ _ Ew (map_order_keys_NoDup _)) as Hr.
  assert (∀ dn, written = dn → dn ⊆ map fst (map_order _ contents) →
    ∀ d file, (file ∉ dn → d !! file = disk !! file) →
      rollback_written_files write contents d written !! file = disk !! file ∨
      is_Some (new_text_of p disk file) ∧ ∃ old, disk !! file = Some old ∧ stuck write file old) as Hroll.
  { intros dn -> Hsub d file Hd.
    destruct (rollback_spec write contents dn d) as [Hin Hout].
    { intros q Hq%Hsub. by apply map_order_key_elem. }
    destruct (decide (file ∈ dn)) as [Hf|Hf]; [|left; rewrite Hout by done; auto].
    assert (is_Some (contents !! file)) as [[old new] Hc] by (by apply map_order_key_elem, Hsub).
    pose proof (Hold file (ex_intro _ _ Hc)) as Ho. rewrite Hc in Ho. cbn in Ho.
    destruct (Hin file old Hf) as [->|Hs]; [by rewrite Hc|by left|right].
    split; [|by exists old]. rewrite <-Hnew, Hc. by eexists. }
  destruct r as [[bad m]|].
  - simplify_eq. right. destruct Hr as (ok & -> & Hsub & _ & Hkeep). simpl in *.
    split_and!; [done..|]. intros file. destruct (decide (file = bad)) as [->|Hne].
    { right. split; [|left; exists m; apply elem_of_app; right; constructor].
      rewrite <-Hnew. apply fmap_is_Some. apply write_bad_elem in Ew. by apply map_order_key_elem. }
    destruct (Hroll ok eq_refl Hsub d1 file) as [|[? ?]]; auto.
  - destruct Hr as (-> & Hin & Hout). simpl in *.
    destruct (refresh_graph_slices _ _ _ _ _ _) as [s|m]; simplify_eq.
    + left. split; [done|]. intros file. rewrite <-Hnew.
      destruct (contents !! file) as [c|] eqn:Ec; simpl.
      * apply Hin. by apply map_order_elem.
      * apply Hout. intros [? ?]%map_order_key_elem. congruence.
    + right. split_and!; [done..|]. intros file.
      destruct (Hroll (map fst (map_order _ contents)) eq_refl (reflexivity _) d1 file) as [|[? ?]]; auto.
Qed.

Lemma apply_atomic validate (p : RefactorPlan) (dry : bool) (disk disk' : Disk)
    (store store' : StoreState) (out : RefactorDryRunResult) :
  apply_plan_internal map_order supports parse write replace_files validate p dry disk store =
    Ok (out, disk', store') →
  (dry = true → disk' = disk ∧ store' = store) ∧
  (dry = false → valid (validation out) = true →
     ∀ file, disk' !! file =
       match new_text_of p disk file with Some new => Some new | None => disk !! file end) ∧
  (valid (validation out) = false →
     store' = store ∧
     ∀ file, disk' !! file = disk !! file ∨
       is_Some (new_text_of p disk file) ∧
       ((∃ m, WriteFailed file m ∈ errors (validation out)) ∨
        ∃ old, disk !! file = Some old ∧ stuck write file old)).
Proof.
  intros (st & Hst & H)%res_bind_ok. cbn zeta in H.
  destruct (apply_loop_contents _ _ _ _ Hst eq_refl) as (Hnew & Hold & _).
  set (v := validate _ _) in *.
  destruct (negb dry && valid v) eqn:Ed.
  - apply andb_true_iff in Ed as [Hdry Hv]. apply negb_true_iff in Hdry as ->.
    destruct (write_phase _ _ _ _ _ _ _ _ _) as [[v' d'] s'] eqn:Ep. simplify_eq. simpl.
    destruct (write_phase_spec _ _ _ _ _ _ _ _ Ep Hnew Hold) as [[-> Hd]|(Hv' & -> & Hd)].
    + split_and!; [done|done|congruence].
    + split_and!; [done|congruence|done].
  - simplify_eq. simpl. split_and!; [done| |by auto]. intros -> Hv. by rewrite Hv in Ed.
Qed.


Lemma fold_result_total {A S} (f : S → A → result EngineError S) st l :
  (∀ st a, a ∈ l → ∃ st', f st a = Ok st') → ∃ st', fold_result f st l = Ok st'.
Proof.
  revert st. induction l as [|a l IH]; intros st Hf; simpl; [by exists st|].
  destruct (Hf st a) as [st1 ->]; [constructor|]. simpl. apply IH.
  intros st2 b Hb. apply Hf. by constructor.
Qed.

(** The edits of a file that lie in it. *)
Definition plan_in_range (p : RefactorPlan) (disk : Disk) : Prop :=
  Forall (λ e, ∃ content, disk !! file_path e = Some content ∧
                 edit_in_range (length (lines content)) e) (edits p).

(** The text of a file after a plan, all edits at once. *)
Definition planned_text (p : RefactorPlan) (file old : string) : string :=
  match filter (λ e, file_path e = file) (edits p) with
  | [] => old
  | es => normalize_post_edit_content p file
            (join nl (simultaneous es (lines old)) +:+
             (if ends_with_char newline old then nl else ""))
  end.

Lemma edit_file_planned p disk file old es :
  plan_in_range p disk → disk !! file = Some old →
  by_file (edits p) !! file = Some es →
  StronglySorted edits_disjoint (filter (λ e, file_path e = file) (edits p)) →
  edit_file p file old es = Ok (planned_text p file old).
Proof.
  intros Hr Ho Hes Hd. rewrite by_file_lookup in Hes. unfold planned_text.
  destruct (filter _ (edits p)) as [|e l] eqn:Ef; [done|]. injection Hes as <-.
  unfold edit_file. rewrite apply_sorted_edits; [done|done|]. rewrite <-Ef.
  unfold plan_in_range in Hr. rewrite Forall_forall in *.
  intros f [<- Hf]%list_elem_of_filter. destruct (Hr f Hf) as (c & Hc & ?). congruence.
Qed.


End application.

(** ** Witnesses and examples *)

Definition demo_write (d : Disk) (p c : string) : option string * Disk := (None, <[p := c]> d).

#[global] Instance demo_write_laws : FsWrites demo_write.
Proof. by split; unfold demo_write; intros; simplify_eq. Qed.

Definition demo_disk : Disk :=
  {[ "a.rs" := join nl ["use b::Old;"; "use b::Used;"; "fn foo() { Used }"; ""];
     "b.rs" := join nl ["fn f() { foo() }"; "foo_bar"; ""] ]}.

Definition demo_node (name file : string) (first last : N) : Node :=
  mk_node 1 NkFunction name (file +:+ "::fn::" +:+ name) file first last "rust"
    None None None None false "h".

Definition demo_store : Store :=
  mk_store (λ q, Ok (if String.eqb q "a.rs::fn::foo" then Some (demo_node "foo" "a.rs" 3 3) else None))
    (λ f, Ok [])
    (λ q _, Ok [(demo_node "f" "b.rs" 1 1,
                 mk_edge 1 EkCalls "b.rs::fn::f" "a.rs::fn::foo" "b.rs" (Some 1%N) f32_1 None)])
    (λ _, Ok []).

Definition demo_rename : RefactorPlan := Eval vm_compute in
  match plan_rename elements demo_disk demo_store "a.rs::function::foo" "bar" with
  | Ok p => p
  | Err _ => mk_plan (CleanImports "") [] [] [] Risky
  end.

Definition demo_cleanup : RefactorPlan := Eval vm_compute in
  match plan_import_cleanup demo_disk "a.rs" with
  | Ok p => p
  | Err _ => mk_plan (CleanImports "") [] [] [] Risky
  end.

Definition demo_apply (p : RefactorPlan) :=
  checked_apply (λ A (m : gmap string A), map_to_list m) (λ _, false)
    (λ _ _, None : option (unit * option bool)) demo_write (λ (s : unit) _, Ok s) (λ v _, v)
    p false demo_disk tt.

Lemma plan_rename_sound_witness :
  plan_rename elements demo_disk demo_store "a.rs::function::foo" "bar" = Ok demo_rename ∧
  length (edits demo_rename) = 2%nat ∧
  ∀ order, check_overlaps order (edits demo_rename) = Ok tt.
Proof.
  split; [by vm_compute|]. split; [done|].
  assert (plan_rename elements demo_disk demo_store "a.rs::function::foo" "bar" =
    Ok demo_rename) as H by (by vm_compute).
  destruct (plan_rename_sound elements demo_disk demo_store "a.rs::function::foo" "bar"
    demo_rename (λ s, Permutation_refl _) H) as (target & _ & _ & _ & _ & Hall & _).
  exact Hall.
Defined.

Lemma import_cleanup_exact_witness :
  map line_start (edits demo_cleanup) = [1%N] ∧
  ∃ content, demo_disk !! "a.rs" = Some content ∧
  ∀ e, e ∈ edits demo_cleanup ↔
    ∃ k line names,
      lines content !! k = Some line ∧
      line_imports (detect_language "a.rs") (trim line) = Some names ∧ names ≠ [] ∧
      (∀ name j other, name ∈ names → lines content !! j = Some other → j ≠ k →
         contains_word other name = false) ∧
      e = mk_edit "a.rs" (N.of_nat (S k)) (N.of_nat (S k)) line "" RemoveImport.
Proof.
  split; [done|]. apply (import_cleanup_exact demo_disk "a.rs" demo_cleanup). by vm_compute.
Defined.

Definition demo_disk_after : Disk := Eval vm_compute in
  match demo_apply demo_rename with Ok (_, d, _) => d | Err _ => ∅ end.

Definition demo_outcome : RefactorDryRunResult := Eval vm_compute in
  match demo_apply demo_rename with
  | Ok (o, _, _) => o
  | Err _ => mk_outcome demo_rename [] (mk_validation false [] [] []) 0 0 false
  end.



(** A disk that is full once a write has failed: the file that was written before is truncated
    by the attempt to put its old text back, whose failure is dropped; the result names the
    other file only. *)
Definition full_write (d : Disk) (p c : string) : option string * Disk :=
  if String.eqb p "b.rs" || bool_decide (d !! "b.rs" = Some "")
  then (Some "no space left on device", <[p := ""]> d) else (None, <[p := c]> d).

#[global] Instance full_write_laws : FsWrites full_write.
Proof.
  split; unfold full_write; intros; destruct (_ || _); simplify_eq; [done|]. by rewrite lookup_insert_ne.
Qed.

Example failed_rollback_loses_text :
  match checked_apply (λ A (m : gmap string A), map_to_list m) (λ _, false)
          (λ _ _, None : option (unit * option bool)) full_write (λ (s : unit) _, Ok s) (λ v _, v)
          demo_rename false demo_disk tt with
  | Ok (out, d, _) =>
      d !! "a.rs" = Some "" ∧ errors (validation out) = [WriteFailed "b.rs" "no space left on device"]
  | Err _ => False
  end.
Proof. by vm_compute. Qed.

(** The removal of a function that holds an unused import of its own cannot be applied:
    the plan contains the removal of the import inside the removed span. *)
Definition inner_import_disk : Disk :=
  {[ "a.rs" := join nl ["fn dead() {"; "    use b::Old;"; "}"; ""] ]}.

Definition inner_import_store : Store :=
  mk_store (λ _, Ok (Some (demo_node "dead" "a.rs" 1 3))) (λ _, Ok []) (λ _ _, Ok [])
    (λ _, Ok [demo_node "dead" "a.rs" 1 3]).

Example dead_code_with_inner_import :
  match plan_dead_code_removal inner_import_disk inner_import_store "a.rs::fn::dead" with
  | Ok p => estimated_safety p = Safe ∧ plan_review p = [] ∧
            check_overlaps ["a.rs"] (edits p) = Err (Overlap 3 2 "a.rs")
  | Err _ => False
  end.
Proof. by vm_compute. Qed.
