(* ===== verification/Metrics.v ===== *)
(** * Runtime metrics: counters and fixed-bucket histograms

    Model of [packages/atlas-metrics/src]: counters, histograms, labelled families and the
    metrics registry. Atomics are [N] with [u64]'s wrap-around; observations follow one
    another, and a snapshot is taken between two of them. The accesses are [Relaxed]: what a
    snapshot sees of observations that run beside it is not modelled. Means and ratios are
    binary64 values. *)

From Stdlib Require Import Floats.SpecFloat.
From S2P Require Import Prelude RustStr RustFloat.

Definition LATENCY_MS_BUCKETS : list N :=
  [1; 2; 5; 10; 25; 50; 100; 250; 500; 1000; 2500; 5000; 10000; 30000; 60000]%N.

Definition FILE_COUNT_BUCKETS : list N :=
  [1; 2; 5; 10; 25; 50; 100; 250; 500; 1000; 2500; 5000; 10000; 25000; 50000; 100000]%N.

(** ** Counters *)

Record Counter := mk_counter { value : N }.

Definition counter_new : Counter := mk_counter 0.
Definition counter_add (c : Counter) (n : N) : Counter := mk_counter (wadd64 (value c) n).
Definition counter_increment (c : Counter) : Counter := counter_add c 1.

(** ** Histograms *)

Record Histogram := mk_hist {
  bounds : list N;
  counts : list N;
  count : N;
  sum : N;
  hmin : N;
  hmax : N
}.

Definition histogram_new (bounds : list N) : Histogram :=
  mk_hist bounds (replicate (S (length bounds)) 0%N) 0 0 u64_max 0.

(** [partition_point]: the number of leading bounds below the value. *)
Fixpoint partition_point (bounds : list N) (v : N) : nat :=
  match bounds with
  | b :: bounds => if (b <? v)%N then S (partition_point bounds v) else 0%nat
  | [] => 0%nat
  end.

Definition bucket_index (h : Histogram) (v : N) : nat := partition_point (bounds h) v.

(** The five atomic operations of [observe], in order. *)
Definition observe_op (k : nat) (v : N) (h : Histogram) : Histogram :=
  match k with
  | 0 => mk_hist (bounds h) (counts h) (count h) (wadd64 (sum h) v) (hmin h) (hmax h)
  | 1 => mk_hist (bounds h) (counts h) (count h) (sum h) (N.min (hmin h) v) (hmax h)
  | 2 => mk_hist (bounds h) (counts h) (count h) (sum h) (hmin h) (N.max (hmax h) v)
  | 3 => mk_hist (bounds h) (alter (λ c, wadd64 c 1) (bucket_index h v) (counts h))
           (count h) (sum h) (hmin h) (hmax h)
  | _ => mk_hist (bounds h) (counts h) (wadd64 (count h) 1) (sum h) (hmin h) (hmax h)
  end.

Definition observe (h : Histogram) (v : N) : Histogram :=
  observe_op 4 v (observe_op 3 v (observe_op 2 v (observe_op 1 v (observe_op 0 v h)))).

Record HistogramBucketSnapshot := mk_bucket { upper_bound : option N; bucket_count : N }.

Record HistogramSnapshot := mk_snapshot {
  s_count : N;
  s_sum : N;
  s_min : option N;
  s_max : option N;
  s_mean : spec_float;
  p50 : N;
  p90 : N;
  p99 : N;
  buckets : list HistogramBucketSnapshot
}.

Definition rank (count percentile : N) : N := ((count * percentile + 99) / 100)%N.

(** The loop of [percentile]: from bucket [i] on, with the running total. *)
Fixpoint percentile_loop (bounds counts : list N) (max target cumulative : N) : N :=
  match counts with
  | [] => max
  | c :: counts =>
      let cumulative := wadd64 cumulative c in
      if (target <=? cumulative)%N then default max (head bounds)
      else percentile_loop (tail bounds) counts max target cumulative
  end.

Definition percentile (bounds counts : list N) (count max p : N) : N :=
  if (count =? 0)%N then 0%N
  else percentile_loop bounds counts max (wrap64 (rank count p)) 0.

Fixpoint bucket_snapshots (bounds observed : list N) : list HistogramBucketSnapshot :=
  match observed with
  | [] => []
  | c :: observed =>
      (if (c =? 0)%N then [] else [mk_bucket (head bounds) c]) ++
      bucket_snapshots (tail bounds) observed
  end.

(** The snapshot built from the values loaded. *)
Definition assemble (bounds : list N) (count sum max min : N) (observed : list N) :
    HistogramSnapshot :=
  mk_snapshot count sum
    (if (0 <? count)%N && negb (min =? u64_max)%N then Some min else None)
    (if (0 <? count)%N then Some max else None)
    (if (count =? 0)%N then f64_zero else f64_div (f64_of_N sum) (f64_of_N count))
    (percentile bounds observed count max 50)
    (percentile bounds observed count max 90)
    (percentile bounds observed count max 99)
    (bucket_snapshots bounds observed).

Definition snapshot (h : Histogram) : HistogramSnapshot :=
  assemble (bounds h) (count h) (sum h) (hmax h) (hmin h) (counts h).

(** ** Labelled families *)

Record LabeledCounter := mk_lcounter { lc_inner : gmap string Counter }.

Definition labeled_counter_new : LabeledCounter := mk_lcounter ∅.
Definition labeled_counter_add (l : LabeledCounter) (label : string) (n : N) : LabeledCounter :=
  mk_lcounter (<[label := counter_add (default counter_new (lc_inner l !! label)) n]> (lc_inner l)).
Definition labeled_counter_increment (l : LabeledCounter) (label : string) : LabeledCounter :=
  labeled_counter_add l label 1.
Definition labeled_counter_snapshot (l : LabeledCounter) : gmap string N := value <$> lc_inner l.

Record LabeledHistogram := mk_lhist { lh_bounds : list N; lh_inner : gmap string Histogram }.

Definition labeled_histogram_new (bounds : list N) : LabeledHistogram := mk_lhist bounds ∅.
Definition labeled_observe (l : LabeledHistogram) (label : string) (v : N) : LabeledHistogram :=
  mk_lhist (lh_bounds l)
    (<[label := observe (default (histogram_new (lh_bounds l)) (lh_inner l !! label)) v]>
       (lh_inner l)).
Definition labeled_histogram_snapshot (l : LabeledHistogram) : gmap string HistogramSnapshot :=
  snapshot <$> lh_inner l.

(** ** The registry *)

Record Metrics := mk_metrics {
  build_runs : LabeledCounter;
  build_failures : LabeledCounter;
  build_duration_ms : LabeledHistogram;
  build_parsed_files : LabeledHistogram;
  parser_parses : Counter;
  parser_tree_reuses : Counter;
  query_calls : LabeledCounter;
  query_duration_ms : LabeledHistogram;
  mcp_tool_calls_ok : LabeledCounter;
  mcp_tool_calls_error : LabeledCounter;
  mcp_tool_duration_ms : LabeledHistogram
}.

Definition metrics_new : Metrics :=
  mk_metrics labeled_counter_new labeled_counter_new
    (labeled_histogram_new LATENCY_MS_BUCKETS) (labeled_histogram_new FILE_COUNT_BUCKETS)
    counter_new counter_new labeled_counter_new (labeled_histogram_new LATENCY_MS_BUCKETS)
    labeled_counter_new labeled_counter_new (labeled_histogram_new LATENCY_MS_BUCKETS).

Definition record_build_run (m : Metrics) (kind : string) (duration_ms : N)
    (parsed_files : option N) (ok : bool) : Metrics :=
  mk_metrics (labeled_counter_increment (build_runs m) kind)
    (if ok then build_failures m else labeled_counter_increment (build_failures m) kind)
    (labeled_observe (build_duration_ms m) kind duration_ms)
    match parsed_files with
    | Some n => labeled_observe (build_parsed_files m) kind n
    | None => build_parsed_files m
    end
    (parser_parses m) (parser_tree_reuses m) (query_calls m) (query_duration_ms m)
    (mcp_tool_calls_ok m) (mcp_tool_calls_error m) (mcp_tool_duration_ms m).

Definition record_parse_attempt (m : Metrics) (reused_old_tree : bool) : Metrics :=
  mk_metrics (build_runs m) (build_failures m) (build_duration_ms m) (build_parsed_files m)
    (counter_increment (parser_parses m))
    (if reused_old_tree then counter_increment (parser_tree_reuses m) else parser_tree_reuses m)
    (query_calls m) (query_duration_ms m)
    (mcp_tool_calls_ok m) (mcp_tool_calls_error m) (mcp_tool_duration_ms m).

Definition record_query (m : Metrics) (mode : string) (duration_ms : N) : Metrics :=
  mk_metrics (build_runs m) (build_failures m) (build_duration_ms m) (build_parsed_files m)
    (parser_parses m) (parser_tree_reuses m)
    (labeled_counter_increment (query_calls m) mode)
    (labeled_observe (query_duration_ms m) mode duration_ms)
    (mcp_tool_calls_ok m) (mcp_tool_calls_error m) (mcp_tool_duration_ms m).

Definition record_mcp_tool_call (m : Metrics) (tool : string) (duration_ms : N) (ok : bool) :
    Metrics :=
  mk_metrics (build_runs m) (build_failures m) (build_duration_ms m) (build_parsed_files m)
    (parser_parses m) (parser_tree_reuses m) (query_calls m) (query_duration_ms m)
    (if ok then labeled_counter_increment (mcp_tool_calls_ok m) tool else mcp_tool_calls_ok m)
    (if ok then mcp_tool_calls_error m else labeled_counter_increment (mcp_tool_calls_error m) tool)
    (labeled_observe (mcp_tool_duration_ms m) tool duration_ms).

Record McpToolCallCounts := mk_tool_counts { ok_calls : N; error_calls : N }.

Record MetricsSnapshot := mk_metrics_snapshot {
  ms_build_runs : gmap string N;
  ms_build_failures : gmap string N;
  ms_build_duration_ms : gmap string HistogramSnapshot;
  ms_build_parsed_files : gmap string HistogramSnapshot;
  ms_parser_parses_total : N;
  ms_parser_tree_reuses_total : N;
  ms_parser_cache_reuse_ratio : spec_float;
  ms_query_calls : gmap string N;
  ms_query_duration_ms : gmap string HistogramSnapshot;
  ms_mcp_tool_calls : gmap string McpToolCallCounts;
  ms_mcp_tool_duration_ms : gmap string HistogramSnapshot
}.

(** The two loops over the outcomes of tool calls. *)
Definition merge_tool_calls (ok error : gmap string N) : gmap string McpToolCallCounts :=
  merge (λ o e,
    match o, e with
    | None, None => None
    | _, _ => Some (mk_tool_counts (default 0%N o) (default 0%N e))
    end) ok error.

Definition metrics_snapshot (m : Metrics) : MetricsSnapshot :=
  let parses := value (parser_parses m) in
  let reuses := value (parser_tree_reuses m) in
  mk_metrics_snapshot
    (labeled_counter_snapshot (build_runs m)) (labeled_counter_snapshot (build_failures m))
    (labeled_histogram_snapshot (build_duration_ms m))
    (labeled_histogram_snapshot (build_parsed_files m))
    parses reuses
    (if (parses =? 0)%N then f64_zero else f64_div (f64_of_N reuses) (f64_of_N parses))
    (labeled_counter_snapshot (query_calls m))
    (labeled_histogram_snapshot (query_duration_ms m))
    (merge_tool_calls (labeled_counter_snapshot (mcp_tool_calls_ok m))
       (labeled_counter_snapshot (mcp_tool_calls_error m)))
    (labeled_histogram_snapshot (mcp_tool_duration_ms m)).

(** ** Observations in progress

    An observer runs the five operations of [observe] one by one. *)

Record Observer := mk_observer { o_value : N; o_done : nat }.

(** The values of the observers that have run at least [n] operations. *)
Definition progressed (n : nat) (os : list Observer) : list N :=
  map o_value (filter (λ o, n ≤ o_done o)%nat os).

(** ** Specifications *)

Definition Nsum (l : list N) : N := foldr N.add 0%N l.
Definition in_bucket (bounds : list N) (j : nat) (vs : list N) : nat :=
  length (filter (λ v, partition_point bounds v = j) vs).

(** The nearest-rank percentile of a non-empty list of values. *)
Definition nearest_rank (p : N) (vs : list N) : option N :=
  sort_by N.compare vs !! (N.to_nat (rank (N.of_nat (length vs)) p) - 1)%nat.

(** ** Lemmas: buckets *)

Lemma filter_holds {A} (P : A → Prop) `{∀ x, Decision (P x)} (l : list A) :
  (∀ x, x ∈ l → P x) → filter P l = l.
Proof.
  induction l as [|x l IH]; [done|]. intros H'. rewrite filter_cons_True, IH; [done|..];
    intros; apply H'; by constructor.
Qed.

Lemma filter_none {A} (P : A → Prop) `{∀ x, Decision (P x)} (l : list A) :
  (∀ x, x ∈ l → ¬ P x) → filter P l = [].
Proof.
  induction l as [|x l IH]; [done|]. intros H'. rewrite filter_cons_False, IH; [done|..];
    intros; apply H'; by constructor.
Qed.

Lemma partition_point_le bs v : (partition_point bs v ≤ length bs)%nat.
Proof. induction bs as [|b bs IH]; simpl; [lia|]. case_match; simpl; lia. Qed.

Lemma partition_point_mono bs v w : (v ≤ w)%N → (partition_point bs v ≤ partition_point bs w)%nat.
Proof.
  intros H. induction bs as [|b bs IH]; simpl; [lia|].
  destruct (N.ltb_spec b v), (N.ltb_spec b w); lia.
Qed.

Lemma in_bucket_app bs j l1 l2 : in_bucket bs j (l1 ++ l2) = (in_bucket bs j l1 + in_bucket bs j l2)%nat.
Proof. unfold in_bucket. by rewrite filter_app, length_app. Qed.

Lemma in_bucket_single bs j v :
  in_bucket bs j [v] = if decide (partition_point bs v = j) then 1%nat else 0%nat.
Proof. unfold in_bucket. rewrite filter_cons. by case_decide. Qed.

Lemma in_bucket_perm bs j l1 l2 : l1 ≡ₚ l2 → in_bucket bs j l1 = in_bucket bs j l2.
Proof. intros H. unfold in_bucket. by rewrite H. Qed.

Lemma in_bucket_le bs j l : (in_bucket bs j l ≤ length l)%nat.
Proof. apply length_filter. Qed.

(** Values in the first [i] buckets. *)
Definition below_bucket (bs : list N) (i : nat) (vs : list N) : nat :=
  length (filter (λ v, partition_point bs v < i)%nat vs).

Lemma below_bucket_S bs i vs :
  below_bucket bs (S i) vs = (below_bucket bs i vs + in_bucket bs i vs)%nat.
Proof.
  unfold below_bucket, in_bucket. induction vs as [|v vs IH]; [done|].
  rewrite !filter_cons. repeat case_decide; simpl; lia.
Qed.

Lemma below_bucket_all bs vs : below_bucket bs (S (length bs)) vs = length vs.
Proof.
  unfold below_bucket. f_equal. apply filter_holds. intros v _.
  pose proof (partition_point_le bs v). lia.
Qed.

(** In a sorted list the value of rank [t] lies in the bucket where the running total
    reaches [t]. *)
Lemma rank_bucket bs vs t v :
  sorted_by N.compare vs → vs !! t = Some v →
  (below_bucket bs (partition_point bs v) vs ≤ t)%nat ∧
  (t < below_bucket bs (S (partition_point bs v)) vs)%nat.
Proof.
  unfold below_bucket. intros Hs. revert t. induction Hs as [|x l Hs IH Hx]; intros t; [done|].
  destruct t as [|t]; simpl.
  - intros [= ->]. rewrite !filter_cons. rewrite decide_False, decide_True by lia. simpl.
    split; [|lia].
    rewrite (filter_none (λ v0, partition_point bs v0 < partition_point bs v)%nat); [done|].
    intros w Hw. rewrite Forall_forall in Hx. specialize (Hx w Hw).
    assert (v ≤ w)%N as Hvw.
    { unfold leb_of in Hx. by destruct (N.compare_spec v w); [lia|lia|]. }
    pose proof (partition_point_mono bs v w Hvw). lia.
  - intros Ht. destruct (IH t Ht) as [IH1 IH2]. rewrite !filter_cons.
    assert (x ≤ v)%N as Hxv.
    { rewrite Forall_forall in Hx. apply list_elem_of_lookup_2 in Ht. specialize (Hx v Ht).
      unfold leb_of in Hx. by destruct (N.compare_spec x v); [lia|lia|]. }
    pose proof (partition_point_mono bs x v Hxv).
    rewrite (decide_True (P := (partition_point bs x < S (partition_point bs v))%nat)) by lia.
    simpl. split; [|lia]. case_decide; simpl; lia.
Qed.

(** ** Lemmas: the memory under interleaved observation *)

Lemma wadd64_wrap a b : wadd64 (wrap64 a) b = wrap64 (a + b).
Proof. unfold wadd64, wrap64. by rewrite N.Div0.add_mod_idemp_l. Qed.

Lemma wrap64_small n : (n ≤ u64_max)%N → wrap64 n = n.
Proof. intros H. unfold wrap64. apply N.mod_small. lia. Qed.

Record mem_inv (bs : list N) (h : Histogram) (os : list Observer) : Prop := {
  mi_bounds : bounds h = bs;
  mi_length : length (counts h) = S (length bs);
  mi_counts j : (j ≤ length bs)%nat →
    counts h !! j = Some (wrap64 (N.of_nat (in_bucket bs j (progressed 4 os))));
  mi_count : count h = wrap64 (N.of_nat (length (progressed 5 os)));
  mi_sum : sum h = wrap64 (Nsum (progressed 1 os));
  mi_min : hmin h = foldr N.min u64_max (progressed 2 os);
  mi_max : hmax h = foldr N.max 0%N (progressed 3 os)
}.

Lemma progressed_step n os i v k :
  os !! i = Some (mk_observer v k) →
  progressed n (<[i := mk_observer v (S k)]> os) ≡ₚ
  (if decide (n = S k) then [v] else []) ++ progressed n os.
Proof.
  intros Hi. rewrite <-(take_drop_middle os i _ Hi) at 2.
  rewrite insert_take_drop by (by eapply lookup_lt_Some).
  unfold progressed. rewrite !filter_app, !map_app, !filter_cons. simpl.
  destruct (decide (n = S k)) as [->|Hne].
  - rewrite decide_True, decide_False by lia. simpl. apply Permutation_sym, Permutation_middle.
  - destruct (decide (n ≤ k)%nat).
    + by rewrite decide_True by lia.
    + by rewrite decide_False by lia.
Qed.

Lemma Nsum_perm l1 l2 : l1 ≡ₚ l2 → Nsum l1 = Nsum l2.
Proof. induction 1; simpl; lia. Qed.

Lemma fold_min_perm d l1 l2 : l1 ≡ₚ l2 → foldr N.min d l1 = foldr N.min d l2.
Proof. induction 1; simpl; lia. Qed.

Lemma fold_max_perm d l1 l2 : l1 ≡ₚ l2 → foldr N.max d l1 = foldr N.max d l2.
Proof. induction 1; simpl; lia. Qed.

Lemma in_bucket_cons bs j v vs :
  in_bucket bs j (v :: vs) =
  ((if decide (partition_point bs v = j) then 1 else 0) + in_bucket bs j vs)%nat.
Proof. unfold in_bucket. rewrite filter_cons. by case_decide. Qed.

Lemma observe_op_inv bs h os i v k :
  mem_inv bs h os → os !! i = Some (mk_observer v k) → (k < 5)%nat →
  mem_inv bs (observe_op k v h) (<[i := mk_observer v (S k)]> os).
Proof.
  intros [Hb Hl Hc Hn Hs Hmin Hmax] Hi Hk.
  pose proof (λ n, progressed_step n os i v k Hi) as Hp.
  assert (∀ n, n ≠ S k → progressed n (<[i := mk_observer v (S k)]> os) ≡ₚ progressed n os) as Hsame.
  { intros n Hne. rewrite Hp, decide_False by done. done. }
  assert (progressed (S k) (<[i := mk_observer v (S k)]> os) ≡ₚ v :: progressed (S k) os) as Hnew.
  { rewrite Hp, decide_True by done. done. }
  clear Hp.
  assert (k = 0 ∨ k = 1 ∨ k = 2 ∨ k = 3 ∨ k = 4)%nat as Hcases by lia.
  destruct Hcases as [->|[->|[->|[->| ->]]]]; split; simpl; try done;
    try (intros j Hj; rewrite (in_bucket_perm _ _ _ _ (Hsame 4%nat ltac:(done))); by apply Hc);
    try (rewrite (Hsame 5%nat ltac:(done)); exact Hn);
    try (rewrite (Nsum_perm _ _ (Hsame 1%nat ltac:(done))); exact Hs);
    try (rewrite (fold_min_perm _ _ _ (Hsame 2%nat ltac:(done))); exact Hmin);
    try (rewrite (fold_max_perm _ _ _ (Hsame 3%nat ltac:(done))); exact Hmax).
  - rewrite (Nsum_perm _ _ Hnew), Hs, wadd64_wrap. f_equal. simpl. lia.
  - rewrite (fold_min_perm _ _ _ Hnew), Hmin. simpl. lia.
  - rewrite (fold_max_perm _ _ _ Hnew), Hmax. simpl. lia.
  - by rewrite length_alter.
  - intros j Hj. rewrite (in_bucket_perm _ _ _ _ Hnew), in_bucket_cons. unfold bucket_index. rewrite Hb.
    destruct (decide (partition_point bs v = j)) as [<-|Hne].
    + rewrite list_lookup_alter_eq, Hc by done. simpl. f_equal. rewrite wadd64_wrap. f_equal. lia.
    + rewrite list_lookup_alter_ne by done. by apply Hc.
  - rewrite Hnew, Hn, wadd64_wrap. f_equal. simpl. lia.
Qed.

Lemma mem_inv_new bs : mem_inv bs (histogram_new bs) [].
Proof.
  split; unfold histogram_new; cbn [bounds counts count sum hmin hmax]; try done.
  - by rewrite length_replicate.
  - intros j Hj. rewrite lookup_replicate_2 by lia. done.
Qed.

Lemma mem_inv_start bs h os v : mem_inv bs h os → mem_inv bs h (os ++ [mk_observer v 0]).
Proof.
  intros [Hb Hl Hc Hn Hs Hmin Hmax].
  assert (∀ n, (0 < n)%nat → progressed n (os ++ [mk_observer v 0]) = progressed n os) as Hp.
  { intros n Hn'. unfold progressed. rewrite filter_app, filter_cons_False by (simpl; lia).
    by rewrite filter_nil, app_nil_r. }
  split; rewrite ?Hp by lia; auto.
Qed.

(** *** Observation in sequence *)

Lemma observe_inv bs h os v :
  mem_inv bs h os → mem_inv bs (observe h v) (os ++ [mk_observer v 5]).
Proof.
  intros H%(mem_inv_start bs h os v).
  assert (∀ k, (k < 5)%nat →
    (os ++ [mk_observer v k]) !! length os = Some (mk_observer v k) ∧
    <[length os := mk_observer v (S k)]> (os ++ [mk_observer v k]) = os ++ [mk_observer v (S k)])
    as Hk.
  { intros k _. split; [by apply list_lookup_middle|].
    rewrite insert_app_r_alt, Nat.sub_diag by done. done. }
  unfold observe.
  do 5 match type of H with
  | mem_inv bs ?g (os ++ [mk_observer v ?k]) =>
      apply (observe_op_inv bs g _ (length os) v k) in H; [|apply Hk; lia|lia];
      rewrite (proj2 (Hk k ltac:(lia))) in H
  end.
  exact H.
Qed.

Lemma observe_all_inv bs vs :
  mem_inv bs (foldl observe (histogram_new bs) vs) (map (λ v, mk_observer v 5) vs).
Proof.
  induction vs as [|v vs IH] using rev_ind; [apply mem_inv_new|].
  rewrite foldl_snoc, map_app. by apply observe_inv.
Qed.

Lemma progressed_all n vs : (n ≤ 5)%nat → progressed n (map (λ v, mk_observer v 5) vs) = vs.
Proof.
  intros Hn. unfold progressed. induction vs as [|v vs IH]; [done|]. simpl.
  rewrite filter_cons_True by done. simpl. by rewrite IH.
Qed.

(** *** The percentile loop *)

Lemma Nsum_app l1 l2 : Nsum (l1 ++ l2) = (Nsum l1 + Nsum l2)%N.
Proof. induction l1 as [|x l1 IH]; simpl; lia. Qed.

(** The loop stops at the latest in a bucket where the running total reaches the target. *)
Lemma percentile_loop_bound bs cs mx target cum i :
  (cum + Nsum cs ≤ u64_max)%N → (i < length cs)%nat →
  (target ≤ cum + Nsum (take (S i) cs))%N →
  ∃ i', (i' ≤ i)%nat ∧ percentile_loop bs cs mx target cum = default mx (bs !! i') ∧
    ((cum + Nsum (take i cs) < target)%N → i' = i).
Proof.
  revert bs cum i. induction cs as [|c cs IH]; intros bs cum i Hmax Hi Ht; [simpl in Hi; lia|].
  simpl in *. assert (wadd64 cum c = (cum + c)%N) as -> by (apply wadd64_small; lia).
  destruct (N.leb_spec target (cum + c)) as [Hle|Hlt].
  - exists 0%nat. split_and!; [lia|by destruct bs|]. destruct i as [|i]; [done|].
    simpl. intros ?. lia.
  - destruct i as [|i]; [simpl in Ht; rewrite ?take_0 in Ht; simpl in Ht; lia|].
    destruct (IH (tail bs) (cum + c)%N i) as (i' & Hi' & Hl & Hx); [lia|lia|simpl in Ht; lia|].
    exists (S i'). split_and!; [lia| |].
    + rewrite Hl. by destruct bs.
    + simpl. intros H. rewrite Hx; [done|lia].
Qed.

(** The running totals of the bucket counts of a list of values. *)
Lemma bucket_totals bs vs cs i :
  length cs = S (length bs) →
  (∀ j, (j ≤ length bs)%nat → cs !! j = Some (N.of_nat (in_bucket bs j vs))) →
  (i ≤ length cs)%nat → Nsum (take i cs) = N.of_nat (below_bucket bs i vs).
Proof.
  intros Hl Hc. induction i as [|i IH]; intros Hi.
  - unfold below_bucket. rewrite filter_none; [by rewrite take_0|]. intros v _. lia.
  - rewrite (take_S_r cs i (N.of_nat (in_bucket bs i vs))) by (apply Hc; lia).
    rewrite Nsum_app, IH, below_bucket_S by lia. simpl. lia.
Qed.

Lemma rank_bounds n p : (0 < n)%N → (0 < p ≤ 100)%N → (1 ≤ rank n p ≤ n)%N.
Proof.
  intros Hn Hp. unfold rank. split.
  - apply N.div_le_lower_bound; nia.
  - apply N.lt_succ_r, N.Div0.div_lt_upper_bound. nia.
Qed.

Lemma nearest_rank_exists p vs :
  vs ≠ [] → (0 < p ≤ 100)%N → ∃ v, nearest_rank p vs = Some v ∧ v ∈ vs.
Proof.
  intros Hne Hp. unfold nearest_rank.
  pose proof (rank_bounds (N.of_nat (length vs)) p) as Hr.
  assert (0 < N.of_nat (length vs))%N as Hl by (destruct vs; [done|simpl; lia]).
  specialize (Hr Hl Hp).
  destruct (sort_by N.compare vs !! _) as [v|] eqn:E.
  - exists v. split; [done|]. apply list_elem_of_lookup_2 in E. by apply sort_by_elem in E.
  - apply lookup_ge_None in E. rewrite sort_by_perm in E. lia.
Qed.

(** The percentile computed from at least the counts of [vs], and the exact one when the
    counts are those of [vs]. *)
Lemma percentile_spec bs cs mx p vs v :
  (0 < p ≤ 100)%N → (N.of_nat (length vs) ≤ u64_max)%N → nearest_rank p vs = Some v → vs ≠ [] →
  length cs = S (length bs) → (Nsum cs ≤ u64_max)%N →
  (∀ i, (i ≤ length cs)%nat → (N.of_nat (below_bucket bs i vs) ≤ Nsum (take i cs))%N) →
  ∃ i, (i ≤ partition_point bs v)%nat ∧
    percentile bs cs (N.of_nat (length vs)) mx p = default mx (bs !! i) ∧
    ((∀ i, (i ≤ length cs)%nat → N.of_nat (below_bucket bs i vs) = Nsum (take i cs)) →
     i = partition_point bs v).
Proof.
  intros Hp Hlen Hv Hne Hl Hmax Hle. unfold percentile.
  assert (0 < N.of_nat (length vs))%N as Hpos by (destruct vs; [done|simpl; lia]).
  replace (N.of_nat (length vs) =? 0)%N with false by (symmetry; apply N.eqb_neq; lia).
  pose proof (rank_bounds _ p Hpos Hp) as Hr. rewrite wrap64_small by lia.
  unfold nearest_rank in Hv.
  destruct (rank_bucket bs _ _ v (sort_by_sorted N.compare vs) Hv) as [H1 H2].
  assert (∀ i, below_bucket bs i (sort_by N.compare vs) = below_bucket bs i vs) as Hperm.
  { intros i. unfold below_bucket. by rewrite sort_by_perm. }
  rewrite Hperm in H1, H2. pose proof (partition_point_le bs v) as Hpp.
  destruct (percentile_loop_bound bs cs mx (rank (N.of_nat (length vs)) p) 0
    (partition_point bs v)) as (i & Hi & Hloop & Hexact); [lia|lia| |].
  { specialize (Hle (S (partition_point bs v)) ltac:(lia)). lia. }
  exists i. split_and!; [done|done|]. intros Heq. apply Hexact.
  rewrite <-(Heq (partition_point bs v)) by lia. lia.
Qed.

Lemma fold_min_spec vs :
  vs ≠ [] → Forall (λ v, v < u64_max)%N vs →
  foldr N.min u64_max vs ∈ vs ∧ Forall (N.le (foldr N.min u64_max vs)) vs.
Proof.
  intros Hne Hs. induction Hs as [|v vs Hv Hs IH]; [done|]. simpl.
  destruct (decide (vs = [])) as [->|Hne'].
  - simpl. rewrite N.min_l by lia. split; [constructor|]. by repeat constructor.
  - destruct (IH Hne') as [Hin Hle]. split.
    + destruct (N.min_spec v (foldr N.min u64_max vs)) as [[_ ->]|[_ ->]]; by constructor.
    + constructor; [lia|]. eapply Forall_impl; [exact Hle|]. simpl. lia.
Qed.

Lemma fold_max_spec vs :
  Forall (λ v, v ≤ foldr N.max 0%N vs)%N vs ∧ (vs ≠ [] → foldr N.max 0%N vs ∈ vs).
Proof.
  induction vs as [|v vs [IH1 IH2]]; [done|]. simpl. split.
  - constructor; [lia|]. eapply Forall_impl; [exact IH1|]. simpl. lia.
  - intros _. destruct (decide (vs = [])) as [->|Hne].
    + simpl. rewrite N.max_l by lia. constructor.
    + destruct (N.max_spec v (foldr N.max 0%N vs)) as [[_ ->]|[_ ->]]; [|constructor].
      constructor. by apply IH2.
Qed.

(** ** Properties *)

(** After any sequence of observations a snapshot is exact: the number of observations,
    their sum (modulo the width of the counter), their least and greatest value, and for
    each percentile the upper bound of the bucket that holds the nearest-rank value (the
    greatest value for the overflow bucket). *)
Theorem snapshot_exact (bs vs : list N) :
  vs ≠ [] → Forall (λ v, v < u64_max)%N vs → (N.of_nat (length vs) ≤ u64_max)%N →
  ∃ s mn mx, s = snapshot (foldl observe (histogram_new bs) vs) ∧
  s_count s = N.of_nat (length vs) ∧ s_sum s = wrap64 (Nsum vs) ∧
  s_min s = Some mn ∧ mn ∈ vs ∧ Forall (N.le mn) vs ∧
  s_max s = Some mx ∧ mx ∈ vs ∧ Forall (λ v, v ≤ mx)%N vs ∧
  ∀ p get, (p, get) ∈ [(50%N, p50); (90%N, p90); (99%N, p99)] →
    ∃ v, nearest_rank p vs = Some v ∧ get s = default mx (bs !! partition_point bs v).
Proof.
  intros Hne Hsmall Hlen. pose proof (observe_all_inv bs vs) as [Hb Hl Hc Hn Hs Hmin Hmax].
  set (h := foldl observe (histogram_new bs) vs) in *.
  rewrite progressed_all in Hn, Hs, Hmin, Hmax by lia.
  rewrite wrap64_small in Hn by lia.
  assert (∀ j, (j ≤ length bs)%nat → counts h !! j = Some (N.of_nat (in_bucket bs j vs))) as Hc'.
  { intros j Hj. rewrite Hc, progressed_all by lia. do 2 f_equal.
    apply wrap64_small. pose proof (in_bucket_le bs j vs). lia. }
  pose proof (bucket_totals bs vs (counts h)) as Ht.
  assert (Nsum (counts h) = N.of_nat (length vs)) as Htot.
  { rewrite <-(below_bucket_all bs vs), <-(Ht (S (length bs)) Hl Hc') by lia.
    by rewrite <-Hl, firstn_all. }
  destruct (fold_min_spec vs Hne Hsmall) as [Hmin1 Hmin2].
  destruct (fold_max_spec vs) as [Hmax1 Hmax2].
  assert ((0 <? count h)%N = true) as Hpos.
  { rewrite Hn. apply N.ltb_lt. destruct vs; [done|simpl; lia]. }
  assert ((hmin h =? u64_max)%N = false) as Hm.
  { rewrite Hmin. apply N.eqb_neq. rewrite Forall_forall in Hsmall.
    specialize (Hsmall _ Hmin1). lia. }
  exists (snapshot h), (hmin h), (hmax h). split; [done|].
  unfold snapshot, assemble. cbn [s_count s_sum s_min s_max p50 p90 p99].
  rewrite Hpos, Hm. cbn [andb negb]. rewrite Hmin, Hmax.
  split_and!; auto. intros p get Hp.
  assert ((0 < p ≤ 100)%N ∧ get (assemble (bounds h) (count h) (sum h) (hmax h) (hmin h) (counts h)) =
    percentile (bounds h) (counts h) (count h) (hmax h) p) as [Hpr Hget].
  { repeat (apply elem_of_cons in Hp as [[= -> ->]|Hp]; [done|]). by apply elem_of_nil in Hp. }
  destruct (nearest_rank_exists p vs Hne Hpr) as (v & Hv & _). exists v. split; [done|].
  unfold assemble in Hget. rewrite Hpos, Hm, Hmax, Hmin in Hget. cbn [andb negb] in Hget.
  rewrite Hget, Hb, Hn.
  destruct (percentile_spec bs (counts h) (foldr N.max 0%N vs) p vs v) as (i & _ & -> & Hi);
    [done|done|done|done|done|lia| |].
  { intros i Hi. rewrite (Ht i) by done. done. }
  rewrite Hi; [done|]. intros j Hj. by rewrite (Ht j).
Qed.

(** The registry keeps every family independent and its counts add up: recording a build
    run raises its kind's run counter by one and its failure counter exactly when it failed,
    and changes no other kind, query, parser or tool metric. *)
Theorem record_build_run_exact (m : Metrics) (kind : string) (ms : N) (files : option N) (ok : bool) :
  ∀ other,
    labeled_counter_snapshot (build_runs (record_build_run m kind ms files ok)) !! other =
      (if String.eqb other kind
       then Some (wadd64 (default 0%N (labeled_counter_snapshot (build_runs m) !! kind)) 1)
       else labeled_counter_snapshot (build_runs m) !! other) ∧
    labeled_counter_snapshot (build_failures (record_build_run m kind ms files ok)) !! other =
      (if String.eqb other kind && negb ok
       then Some (wadd64 (default 0%N (labeled_counter_snapshot (build_failures m) !! kind)) 1)
       else labeled_counter_snapshot (build_failures m) !! other) ∧
    query_calls (record_build_run m kind ms files ok) = query_calls m ∧
    mcp_tool_calls_ok (record_build_run m kind ms files ok) = mcp_tool_calls_ok m ∧
    parser_parses (record_build_run m kind ms files ok) = parser_parses m.
Proof.
  assert (∀ l other, labeled_counter_snapshot (labeled_counter_increment l kind) !! other =
    if String.eqb other kind
    then Some (wadd64 (default 0%N (labeled_counter_snapshot l !! kind)) 1)
    else labeled_counter_snapshot l !! other) as Hinc.
  { intros l other. unfold labeled_counter_snapshot, labeled_counter_increment, labeled_counter_add.
    simpl. rewrite !lookup_fmap. destruct (String.eqb_spec other kind) as [->|Hne].
    - rewrite lookup_insert_eq. simpl. by destruct (lc_inner l !! kind).
    - by rewrite lookup_insert_ne. }
  intros other. split_and!; try done.
  - apply Hinc.
  - simpl. destruct ok; [by rewrite andb_false_r|]. rewrite andb_true_r. apply Hinc.
Qed.

(** ** Witnesses *)

Definition demo_values : list N := [3; 70; 100000; 7; 7]%N.

Lemma snapshot_exact_witness :
  ∃ s mn mx, s = snapshot (foldl observe (histogram_new LATENCY_MS_BUCKETS) demo_values) ∧
  s_count s = N.of_nat (length demo_values) ∧ s_sum s = wrap64 (Nsum demo_values) ∧
  s_min s = Some mn ∧ mn ∈ demo_values ∧ Forall (N.le mn) demo_values ∧
  s_max s = Some mx ∧ mx ∈ demo_values ∧ Forall (λ v, v ≤ mx)%N demo_values ∧
  ∀ p get, (p, get) ∈ [(50%N, p50); (90%N, p90); (99%N, p99)] →
    ∃ v, nearest_rank p demo_values = Some v ∧
      get s = default mx (LATENCY_MS_BUCKETS !! partition_point LATENCY_MS_BUCKETS v).
Proof.
  apply (snapshot_exact LATENCY_MS_BUCKETS demo_values); [done|by repeat constructor|].
  by apply N.leb_le.
Defined.
