(* ===== verification/Scc.v ===== *)
(** * Strongly connected components

    Model of Tarjan's algorithm in [packages/atlas-reasoning/src/engine/scc.rs], with the
    proof that it returns and computes exactly the strongly connected components, and of
    its variant in [packages/atlas-history/src/scc.rs], which keeps the components that are
    cycles. The recursion is on fuel, one more than the number of nodes is enough; indexing
    a map at a missing key, which panics, has no result. *)

From S2P Require Import Prelude RustStr.

(** ** The algorithm *)

Record TarjanState := mk_tarjan {
  t_index : nat;
  t_stack : list string;
  t_on_stack : gset string;
  t_indices : gmap string nat;
  t_lowlink : gmap string nat;
  t_components : list (list string)
}.

Definition tarjan_init : TarjanState := mk_tarjan 0 [] ∅ ∅ ∅ [].

(** Entering a node. The stack is kept with its top first. *)
Definition enter (node : string) (st : TarjanState) : TarjanState :=
  mk_tarjan (S (t_index st)) (node :: t_stack st) ({[node]} ∪ t_on_stack st)
    (<[node := t_index st]> (t_indices st)) (<[node := t_index st]> (t_lowlink st))
    (t_components st).

Definition set_low (node : string) (low : nat) (st : TarjanState) : TarjanState :=
  mk_tarjan (t_index st) (t_stack st) (t_on_stack st) (t_indices st)
    (<[node := low]> (t_lowlink st)) (t_components st).

(** The popping loop: the items down to the node, in popping order, and the rest. *)
Fixpoint pop_until (node : string) (stack : list string) : list string * list string :=
  match stack with
  | [] => ([], [])
  | item :: stack =>
      if String.eqb item node then ([item], stack)
      else let (popped, rest) := pop_until node stack in (item :: popped, rest)
  end.

Section tarjan.
Context (adjacency : gmap string (list string)).
(** Which components are recorded: all of them here, the cycles in the history variant. *)
Context (keep : string → list string → bool).

Definition neighbors (node : string) : list string := default [] (adjacency !! node).

(** The loop over the neighbours; [connect] is the recursive call. *)
Fixpoint visit (connect : string → TarjanState → option TarjanState) (node : string)
    (todo : list string) (st : TarjanState) : option TarjanState :=
  match todo with
  | [] => Some st
  | neighbor :: todo =>
      match t_indices st !! neighbor with
      | None =>
          st ← connect neighbor st;
          low_neighbor ← t_lowlink st !! neighbor;
          low_node ← t_lowlink st !! node;
          visit connect node todo (set_low node (Nat.min low_node low_neighbor) st)
      | Some neighbor_index =>
          if bool_decide (neighbor ∈ t_on_stack st) then
            low_node ← t_lowlink st !! node;
            visit connect node todo (set_low node (Nat.min low_node neighbor_index) st)
          else visit connect node todo st
      end
  end.

(** Leaving a node: its component is popped when it is a root. *)
Definition leave (node : string) (st : TarjanState) : option TarjanState :=
  low ← t_lowlink st !! node;
  index ← t_indices st !! node;
  if (low =? index)%nat then
    let (popped, rest) := pop_until node (t_stack st) in
    let component := sort_by String.compare popped in
    Some (mk_tarjan (t_index st) rest (t_on_stack st ∖ list_to_set popped) (t_indices st)
            (t_lowlink st)
            (t_components st ++ if keep node component then [component] else []))
  else Some st.

Fixpoint strong_connect (fuel : nat) (node : string) (st : TarjanState) : option TarjanState :=
  match fuel with
  | O => None
  | S fuel =>
      st ← visit (strong_connect fuel) node (neighbors node) (enter node st);
      leave node st
  end.

Fixpoint connect_all (fuel : nat) (nodes : list string) (st : TarjanState) : option TarjanState :=
  match nodes with
  | [] => Some st
  | node :: nodes =>
      match t_indices st !! node with
      | None => st ← strong_connect fuel node st; connect_all fuel nodes st
      | Some _ => connect_all fuel nodes st
      end
  end.
End tarjan.

(** The nodes of a graph: its keys and the targets of its edges. *)
Definition graph_nodes (adjacency : gmap string (list string)) : gset string :=
  dom adjacency ∪ list_to_set (concat (map snd (map_to_list adjacency))).

Definition keys (adjacency : gmap string (list string)) : list string :=
  sort_by String.compare (map fst (map_to_list adjacency)).

Definition first_cmp : list string → list string → comparison :=
  λ l r, match head l, head r with
         | None, None => Eq
         | None, Some _ => Lt
         | Some _, None => Gt
         | Some x, Some y => String.compare x y
         end.

Definition scc_fuel (adjacency : gmap string (list string)) : nat := size (graph_nodes adjacency).

Definition strongly_connected_components (adjacency : gmap string (list string)) :
    option (list (list string)) :=
  st ← connect_all adjacency (λ _ _, true) (scc_fuel adjacency) (keys adjacency) tarjan_init;
  Some (sort_by first_cmp (t_components st)).

(** ** The history variant *)

Module History.

(** Every target gets an entry of its own. *)
Definition with_targets (graph : gmap string (list string)) : gmap string (list string) :=
  foldr (λ target adjacency,
      match adjacency !! target with
      | Some _ => adjacency
      | None => <[target := []]> adjacency
      end)
    graph (concat (map snd (map_to_list graph))).

Definition keep_cycle (adjacency : gmap string (list string)) (include_self_loops : bool)
    (node : string) (component : list string) : bool :=
  (1 <? length component)%nat ||
  include_self_loops &&
    match adjacency !! node with Some targets => bool_decide (node ∈ targets) | None => false end.

Fixpoint names_cmp (l r : list string) : comparison :=
  match l, r with
  | [], [] => Eq
  | [], _ :: _ => Lt
  | _ :: _, [] => Gt
  | x :: l, y :: r => then_with (String.compare x y) (names_cmp l r)
  end.

Definition strongly_connected_components (graph : gmap string (list string))
    (include_self_loops : bool) : option (list (list string)) :=
  let adjacency := with_targets graph in
  st ← connect_all adjacency (keep_cycle adjacency include_self_loops) (scc_fuel adjacency)
         (keys adjacency) tarjan_init;
  Some (sort_by names_cmp (t_components st)).

End History.

(** ** Specification *)

Section spec.
Context (adjacency : gmap string (list string)).

Definition edge (x y : string) : Prop := y ∈ neighbors adjacency x.
Definition reach : string → string → Prop := rtc edge.

(** A strongly connected component: the nodes that reach each other, all of them, in order. *)
Definition is_scc (c : list string) : Prop :=
  c ≠ [] ∧ sorted_by String.compare c ∧ ∀ x, x ∈ c → ∀ y, y ∈ c ↔ reach x y ∧ reach y x.

(** A component of the graph, as a list of its nodes. *)
Definition component (c : list string) : Prop :=
  is_scc c ∧ NoDup c ∧ ∀ x, x ∈ c → x ∈ graph_nodes adjacency.

Definition idx (st : TarjanState) (x : string) (i : nat) : Prop := t_indices st !! x = Some i.
Definition visited (st : TarjanState) (x : string) : Prop := is_Some (t_indices st !! x).
Definition finished (st : TarjanState) (x : string) : Prop := x ∈ concat (t_components st).
Definition higher (st : TarjanState) (x y : string) : Prop :=
  ∃ i j, idx st x i ∧ idx st y j ∧ (j < i)%nat.

(** The invariant; [gray] are the nodes whose calls are open. *)
Record wf (st : TarjanState) (gray : list string) : Prop := {
  wf_on x : x ∈ t_on_stack st ↔ x ∈ t_stack st;
  wf_visited x : visited st x ↔ x ∈ t_stack st ∨ finished st x;
  wf_disjoint x : x ∈ t_stack st → finished st x → False;
  wf_nodup : NoDup (concat (t_components st));
  wf_low x : visited st x → is_Some (t_lowlink st !! x);
  wf_sorted : StronglySorted (higher st) (t_stack st);
  wf_bound x i : idx st x i → (i < t_index st)%nat;
  wf_gray x : x ∈ gray → x ∈ t_stack st;
  wf_down x i : x ∈ t_stack st → idx st x i →
    ∃ g j, g ∈ gray ∧ idx st g j ∧ (j ≤ i)%nat ∧ reach x g;
  wf_up g j x i : g ∈ gray → idx st g j → x ∈ t_stack st → idx st x i → (j ≤ i)%nat → reach g x;
  wf_closed x y : finished st x → edge x y → finished st y;
  wf_scc c : c ∈ t_components st → is_scc c;
  wf_edges x y : x ∈ t_stack st → ¬ (x ∈ gray) → edge x y → visited st y;
  wf_nodes x : visited st x → x ∈ graph_nodes adjacency
}.

(** What a call leaves alone. *)
Record extends (st st' : TarjanState) (new : list string) : Prop := {
  ex_idx x i : idx st x i → idx st' x i;
  ex_low x : visited st x → t_lowlink st' !! x = t_lowlink st !! x;
  ex_stack : t_stack st' = new ++ t_stack st;
  ex_fresh x i : idx st' x i → ¬ visited st x → (t_index st ≤ i)%nat;
  ex_new x : x ∈ new → ¬ visited st x;
  ex_finished x : finished st x → finished st' x;
  ex_index : (t_index st ≤ t_index st')%nat
}.

(** The lowlink of a node that is still on the stack: it is reached. *)
Definition low_reached (st : TarjanState) (node : string) (low : nat) : Prop :=
  ∃ y, y ∈ t_stack st ∧ idx st y low ∧ reach node y.

(** The result of a call for [node] with lowlink [low] and new stack items [new]. *)
Record connected (st st' : TarjanState) (gray : list string) (node : string)
    (new : list string) (low : nat) : Prop := {
  co_wf : wf st' gray;
  co_extends : extends st st' new;
  co_visited : idx st' node (t_index st);
  co_low : t_lowlink st' !! node = Some low;
  co_le : (low ≤ t_index st)%nat;
  co_case : (¬ (node ∈ t_stack st') ∧ low = t_index st ∧ new = []) ∨
            (node ∈ t_stack st' ∧ low_reached st' node low);
  co_back x y j : x ∈ new → edge x y → y ∈ t_stack st → idx st' y j → (low ≤ j)%nat
}.

(** The state of the loop of [node]'s call, over the state [st0] the call was made in. *)
Record looping (st0 st : TarjanState) (gray : list string) (node : string)
    (new : list string) (low : nat) (seen : list string) : Prop := {
  lo_wf : wf st (node :: gray);
  lo_extends : extends st0 st (new ++ [node]);
  lo_idx : idx st node (t_index st0);
  lo_low : t_lowlink st !! node = Some low;
  lo_le : (low ≤ t_index st0)%nat;
  lo_reached : low_reached st node low;
  lo_back x y j : x ∈ new → edge x y → y ∈ node :: t_stack st0 → idx st y j → (low ≤ j)%nat;
  lo_seen y : y ∈ seen → visited st y;
  lo_seen_low y j : y ∈ seen → y ∈ t_stack st → idx st y j → (low ≤ j)%nat
}.

(** ** Lemmas *)

Lemma idx_inj st x i j : idx st x i → idx st x j → i = j.
Proof. unfold idx. congruence. Qed.

Lemma idx_visited st x i : idx st x i → visited st x.
Proof. intros H. by exists i. Qed.

Lemma higher_irrefl st x : ¬ higher st x x.
Proof. intros (i & j & Hi & Hj & ?). pose proof (idx_inj _ _ _ _ Hi Hj). lia. Qed.

Lemma stack_NoDup st gray : wf st gray → NoDup (t_stack st).
Proof.
  intros H. pose proof (wf_sorted _ _ H) as Hs. induction Hs as [|x l Hs IH Hx]; constructor; [|done].
  intros Hin. rewrite Forall_forall in Hx. by apply (higher_irrefl st x), Hx.
Qed.

Lemma edge_node x y : edge x y → y ∈ graph_nodes adjacency.
Proof.
  unfold edge, neighbors, graph_nodes. destruct (adjacency !! x) as [ys|] eqn:E; simpl.
  - intros Hy. apply elem_of_union_r, elem_of_list_to_set, list_elem_of_In, in_concat.
    exists ys. split; [|by apply list_elem_of_In].
    apply list_elem_of_In, list_elem_of_fmap. exists (x, ys). split; [done|].
    by apply elem_of_map_to_list.
  - by intros ?%elem_of_nil.
Qed.

Lemma stack_visited st gray x : wf st gray → x ∈ t_stack st → visited st x.
Proof. intros H Hx. apply (wf_visited _ _ H). by left. Qed.

(** Entering. *)
Lemma enter_looping st gray node :
  wf st gray → ¬ visited st node → node ∈ graph_nodes adjacency →
  (∀ g, g ∈ gray → reach g node) →
  looping st (enter node st) gray node [] (t_index st) [].
Proof.
  intros H Hn HV Hg.
  assert (∀ x i, idx (enter node st) x i ↔ (x = node ∧ i = t_index st) ∨ (x ≠ node ∧ idx st x i)) as Hidx.
  { intros x i. unfold idx, enter. simpl. destruct (decide (x = node)) as [->|Hne].
    - rewrite lookup_insert_eq. split; [intros [= <-]; by left|]. intros [[_ ->]|[? _]]; done.
    - rewrite lookup_insert_ne by done. split; [by right|]. intros [[? _]|[_ ?]]; done. }
  assert (∀ x, visited (enter node st) x ↔ x = node ∨ visited st x) as Hvis.
  { intros x. unfold visited, enter. simpl. destruct (decide (x = node)) as [->|Hne].
    - rewrite lookup_insert_eq. split; [by left|by eexists].
    - rewrite lookup_insert_ne by done. split; [by right|]. by intros [|]. }
  assert (∀ x i, idx st x i → idx (enter node st) x i) as Hold.
  { intros x i Hi. apply Hidx. right. split; [|done]. intros ->. apply Hn. by eexists. }
  assert (node ∉ t_stack st) as Hns.
  { intros Hin. by apply Hn, (stack_visited _ _ _ H). }
  assert (idx (enter node st) node (t_index st)) as Hnode by (apply Hidx; by left).
  split.
  - split; simpl.
    + intros x. rewrite elem_of_union, elem_of_singleton, elem_of_cons, (wf_on _ _ H). done.
    + intros x. rewrite Hvis, (wf_visited _ _ H), elem_of_cons. unfold finished. simpl. tauto.
    + intros x [->|Hx]%elem_of_cons Hf; [|by apply (wf_disjoint _ _ H x)].
      apply Hn, (wf_visited _ _ H). by right.
    + apply H.
    + intros x [->|Hx]%Hvis; [rewrite lookup_insert_eq; by eexists|].
      destruct (decide (x = node)) as [->|]; [rewrite lookup_insert_eq; by eexists|].
      rewrite lookup_insert_ne by done. by apply (wf_low _ _ H).
    + constructor.
      * pose proof (wf_sorted _ _ H) as Hs. eapply StronglySorted_weaken; [|exact Hs].
        intros x y (i & j & Hi & Hj & Hlt). exists i, j. auto.
      * apply Forall_forall. intros x Hx.
        destruct (stack_visited _ _ _ H Hx) as [i Hi]. exists (t_index st), i.
        split_and!; [done|by apply Hold|by apply (wf_bound _ _ H x)].
    + intros x i [[_ ->]|[_ Hi]]%Hidx; [lia|]. apply (wf_bound _ _ H) in Hi. lia.
    + intros x [->|Hx]%elem_of_cons; [constructor|]. constructor. by apply (wf_gray _ _ H).
    + intros x i [->|Hx]%elem_of_cons Hi.
      * exists node, i. split_and!; [constructor|done|done|constructor].
      * assert (x ≠ node) by (by intros ->).
        apply Hidx in Hi as [[? _]|[_ Hi]]; [done|].
        destruct (wf_down _ _ H x i Hx Hi) as (g & j & Hgg & Hj & Hle & Hr).
        exists g, j. split_and!; [by constructor|by apply Hold|done|done].
    + intros g j x i Hgg Hj Hx Hi Hle.
      apply elem_of_cons in Hgg as [->|Hgg]; apply elem_of_cons in Hx as [->|Hx].
      * constructor.
      * pose proof (idx_inj _ _ _ _ Hj Hnode) as ->.
        assert (x ≠ node) by (by intros ->).
        apply Hidx in Hi as [[? _]|[_ Hi]]; [done|]. apply (wf_bound _ _ H) in Hi. lia.
      * by apply Hg.
      * assert (x ≠ node) by (by intros ->).
        assert (g ≠ node) by (intros ->; by apply Hns, (wf_gray _ _ H)).
        apply Hidx in Hi as [[? _]|[_ Hi]]; [done|]. apply Hidx in Hj as [[? _]|[_ Hj]]; [done|].
        by apply (wf_up _ _ H g j x i).
    + apply (wf_closed _ _ H).
    + apply (wf_scc _ _ H).
    + intros x y [->|Hx]%elem_of_cons Hng He; [destruct Hng; constructor|].
      apply Hvis. right. apply (wf_edges _ _ H x); [done| |done].
      intros Hgx. apply Hng. by constructor.
    + intros x [->|Hx]%Hvis; [done|]. by apply (wf_nodes _ _ H).
  - split; simpl; try done; try lia.
    + intros x [i Hi]. assert (x ≠ node) by (intros ->; apply Hn; by eexists).
      by rewrite lookup_insert_ne.
    + intros x i [[_ ->]|[_ Hi]]%Hidx Hnv; [lia|]. destruct Hnv. by eexists.
    + by intros x ->%list_elem_of_singleton.
  - done.
  - simpl. by rewrite lookup_insert_eq.
  - lia.
  - exists node. split_and!; [simpl; constructor|done|constructor].
  - by intros x y j ?%elem_of_nil.
  - by intros y ?%elem_of_nil.
  - by intros y j ?%elem_of_nil.
Qed.
Lemma extends_visited st st' new x : extends st st' new → visited st x → visited st' x.
Proof. intros H [i Hi]. exists i. by apply (ex_idx _ _ _ H). Qed.

Lemma extends_idx st st' new x i : extends st st' new → visited st x → idx st' x i → idx st x i.
Proof.
  intros H [j Hj] Hi. pose proof (ex_idx _ _ _ H x j Hj) as Hj'.
  by rewrite (idx_inj _ _ _ _ Hi Hj').
Qed.

Lemma extends_trans st st1 st2 new1 new2 :
  extends st st1 new1 → extends st1 st2 new2 → extends st st2 (new2 ++ new1).
Proof.
  intros H1 H2. split.
  - intros x i Hi. by apply (ex_idx _ _ _ H2), (ex_idx _ _ _ H1).
  - intros x Hx. rewrite (ex_low _ _ _ H2) by (by eapply extends_visited).
    by apply (ex_low _ _ _ H1).
  - by rewrite (ex_stack _ _ _ H2), (ex_stack _ _ _ H1), app_assoc.
  - intros x i Hi Hn. destruct (decide (is_Some (t_indices st1 !! x))) as [Hv|Hv].
    + apply (extends_idx _ _ _ _ _ H2) in Hi; [|done]. by apply (ex_fresh _ _ _ H1 x i).
    + pose proof (ex_fresh _ _ _ H2 x i Hi Hv). pose proof (ex_index _ _ _ H1). lia.
  - intros x [Hx|Hx]%elem_of_app; [|by apply (ex_new _ _ _ H1)].
    intros Hv. apply (ex_new _ _ _ H2 x Hx). by eapply extends_visited.
  - intros x Hx. by apply (ex_finished _ _ _ H2), (ex_finished _ _ _ H1).
  - pose proof (ex_index _ _ _ H1). pose proof (ex_index _ _ _ H2). lia.
Qed.

(** Changing the lowlink of an open node keeps the invariant. *)
Lemma set_low_wf st gray node low : wf st gray → wf (set_low node low st) gray.
Proof.
  intros H. split; try apply H. intros x Hx. simpl.
  destruct (decide (x = node)) as [->|]; [rewrite lookup_insert_eq; by eexists|].
  rewrite lookup_insert_ne by done. by apply (wf_low _ _ H).
Qed.

Lemma loop_low st0 st gray node new low seen y low' :
  looping st0 st gray node new low seen → ¬ visited st0 node →
  (low' ≤ low)%nat → low_reached st node low' → visited st y →
  (∀ j, y ∈ t_stack st → idx st y j → (low' ≤ j)%nat) →
  looping st0 (set_low node low' st) gray node new low' (y :: seen).
Proof.
  intros [Hwf Hext Hidx Hlow Hle Hr Hb Hs Hsl] Hn Hlt Hr' Hy Hyl. split.
  - by apply set_low_wf.
  - destruct Hext as [E1 E2 E3 E4 E5 E6 E7]. split; try done.
    intros x Hx. simpl. rewrite lookup_insert_ne; [by apply E2|]. by intros ->.
  - done.
  - simpl. by rewrite lookup_insert_eq.
  - lia.
  - done.
  - intros x z j Hx He Hz Hj. pose proof (Hb x z j Hx He Hz Hj). lia.
  - intros z [->|Hz]%elem_of_cons; [done|by apply Hs].
  - intros z j [->|Hz]%elem_of_cons Hst Hj; [by apply Hyl|].
    pose proof (Hsl z j Hz Hst Hj). lia.
Qed.

Lemma loop_skip st0 st gray node new low seen y :
  looping st0 st gray node new low seen → visited st y → y ∉ t_stack st →
  looping st0 st gray node new low (y :: seen).
Proof.
  intros [Hwf Hext Hidx Hlow Hle Hr Hb Hs Hsl] Hy Hyn. split; try done.
  - intros z [->|Hz]%elem_of_cons; [done|by apply Hs].
  - intros z j [->|Hz]%elem_of_cons Hst Hj; [done|]. by apply (Hsl z).
Qed.

(** A recursive call of the loop. *)
Lemma loop_call st0 st st' gray node new low seen y new_y low_y :
  looping st0 st gray node new low seen → ¬ visited st0 node →
  edge node y → ¬ visited st y → connected st st' (node :: gray) y new_y low_y →
  looping st0 (set_low node (Nat.min low low_y) st') gray node (new_y ++ new)
    (Nat.min low low_y) (y :: seen).
Proof.
  intros [Hwf Hext Hidx Hlow Hle Hr Hb Hs Hsl] Hn He Hy [Cwf Cext Cv Clow Cle Ccase Cback].
  assert (t_stack st = new ++ node :: t_stack st0) as Hstack.
  { rewrite (ex_stack _ _ _ Hext), <-app_assoc. done. }
  assert (visited st node) as Hnv by (by eapply idx_visited).
  pose proof (wf_bound _ _ Hwf _ _ Hidx) as Hbound.
  assert (∀ z, z ∈ t_stack st' → visited st z → z ∈ t_stack st) as Hstay.
  { intros z Hz Hv. rewrite (ex_stack _ _ _ Cext) in Hz. apply elem_of_app in Hz as [Hz|Hz]; [|done].
    by destruct (ex_new _ _ _ Cext z Hz). }
  assert (∀ z, z ∈ t_stack st → z ∈ t_stack st') as Hkeep.
  { intros z Hz. rewrite (ex_stack _ _ _ Cext). by apply elem_of_app; right. }
  pose proof (extends_trans _ _ _ _ _ Hext Cext) as [E1 E2 E3 E4 E5 E6 E7].
  split.
  - by apply set_low_wf.
  - split; try done.
    + intros x Hx. simpl. rewrite lookup_insert_ne; [by apply E2|]. by intros ->.
    + simpl. by rewrite E3, !app_assoc.
    + intros x Hx. apply E5. by rewrite <-app_assoc in Hx.
  - by apply (ex_idx _ _ _ Cext).
  - simpl. by rewrite lookup_insert_eq.
  - lia.
  - destruct (Nat.min_spec low low_y) as [[_ ->]|[Hlt ->]].
    + destruct Hr as (z & Hz & Hzi & Hzr). exists z.
      split_and!; [by apply Hkeep|by apply (ex_idx _ _ _ Cext)|done].
    + destruct Ccase as [(_ & -> & _)|(_ & z & Hz & Hzi & Hzr)]; [lia|].
      exists z. split_and!; [done|done|]. by eapply rtc_l.
  - intros x z j [Hx|Hx]%elem_of_app Hxz Hz Hj.
    + assert (z ∈ t_stack st) as Hzs by (rewrite Hstack; apply elem_of_app; by right).
      pose proof (Cback x z j Hx Hxz Hzs Hj). lia.
    + assert (z ∈ t_stack st) as Hzs by (rewrite Hstack; apply elem_of_app; by right).
      apply (extends_idx _ _ _ _ _ Cext) in Hj; [|by apply (stack_visited _ _ _ Hwf)].
      pose proof (Hb x z j Hx Hxz Hz Hj). lia.
  - intros z [->|Hz]%elem_of_cons; [by eapply idx_visited|].
    apply (extends_visited _ _ _ z Cext). by apply Hs.
  - intros z j [->|Hz]%elem_of_cons Hst Hj.
    + pose proof (idx_inj _ _ _ _ Hj Cv). lia.
    + apply (extends_idx _ _ _ _ _ Cext) in Hj; [|by apply Hs].
      pose proof (Hsl z j Hz (Hstay z Hst (Hs z Hz)) Hj). lia.
Qed.

(** Popping. *)
Lemma pop_until_app node new rest :
  node ∉ new → pop_until node (new ++ node :: rest) = (new ++ [node], rest).
Proof.
  induction new as [|x new IH]; simpl; [by rewrite String.eqb_refl|].
  intros [Hne Hn]%not_elem_of_cons. destruct (String.eqb_spec x node) as [->|_]; [done|].
  by rewrite IH.
Qed.

(** The stack above an open node is reached by it and reaches it, when all of it reaches
    no lower open node. *)
Lemma above_connected st0 st gray node new low seen x :
  looping st0 st gray node new low seen → wf st0 gray → (∀ g, g ∈ gray → reach g node) →
  x ∈ new ++ [node] → reach node x ∧ reach x node.
Proof.
  intros [Hwf Hext Hidx Hlow Hle Hr Hb Hs Hsl] H0 Hg Hx.
  assert (x ∈ t_stack st) as Hxs by (rewrite (ex_stack _ _ _ Hext); apply elem_of_app; by left).
  destruct (stack_visited _ _ _ Hwf Hxs) as [i Hi].
  assert (t_index st0 ≤ i)%nat as Hle'.
  { apply (ex_fresh _ _ _ Hext x i Hi). by apply (ex_new _ _ _ Hext). }
  split.
  - by apply (wf_up _ _ Hwf node (t_index st0) x i ltac:(constructor)).
  - destruct (wf_down _ _ Hwf x i Hxs Hi) as (g & j & Hgg & _ & _ & Hrg).
    apply elem_of_cons in Hgg as [->|Hgg]; [done|]. etrans; [exact Hrg|]. by apply Hg.
Qed.

Lemma reach_closed (P : string → Prop) x y :
  (∀ x y, P x → edge x y → P y) → reach x y → P x → P y.
Proof. intros Hc. induction 1; eauto. Qed.

Lemma StronglySorted_app_r {A} (R : A → A → Prop) l1 l2 :
  StronglySorted R (l1 ++ l2) → StronglySorted R l2.
Proof. induction l1 as [|x l1 IH]; [done|]. simpl. intros [H _]%StronglySorted_inv. auto. Qed.

Section leaving.
Context (st0 st : TarjanState) (gray : list string) (node : string)
  (new : list string) (low : nat) (seen : list string).
Context (Hloop : looping st0 st gray node new low seen).
Context (H0 : wf st0 gray) (Hn : ¬ visited st0 node) (Hg : ∀ g, g ∈ gray → reach g node).
Context (Hall : ∀ y, edge node y → y ∈ seen).

Lemma loop_stack : t_stack st = new ++ node :: t_stack st0.
Proof. rewrite (ex_stack _ _ _ (lo_extends _ _ _ _ _ _ _ Hloop)), <-app_assoc. done. Qed.

(** Not a root: the node stays on the stack. *)
Lemma leave_stays : (low < t_index st0)%nat → connected st0 st gray node (new ++ [node]) low.
Proof.
  intros Hlt. pose proof Hloop as [Hwf Hext Hidx Hlow Hle Hr Hb Hs Hsl].
  split; try done.
  - split; try apply Hwf.
    + intros x Hx. apply (wf_gray _ _ Hwf). by constructor.
    + intros x i Hx Hi. destruct (wf_down _ _ Hwf x i Hx Hi) as (g & j & Hgg & Hj & Hji & Hxg).
      apply elem_of_cons in Hgg as [->|Hgg]; [|by exists g, j].
      pose proof (idx_inj _ _ _ _ Hj Hidx) as ->.
      destruct Hr as (y & Hy & Hyi & Hny).
      destruct (wf_down _ _ Hwf y low Hy Hyi) as (g & j & Hgg & Hj' & Hjl & Hyg).
      exists g, j. split_and!; [|done|lia|by do 2 (etrans; [eassumption|])].
      apply elem_of_cons in Hgg as [->|Hgg]; [|done].
      pose proof (idx_inj _ _ _ _ Hj' Hidx). lia.
    + intros g j x i Hgg. apply (wf_up _ _ Hwf). by constructor.
    + intros x y Hx Hng He. destruct (decide (x = node)) as [->|Hne]; [by apply Hs, Hall|].
      apply (wf_edges _ _ Hwf x); [done| |done]. by intros [->|?]%elem_of_cons.
  - right. split; [|done]. rewrite loop_stack. apply elem_of_app. right. constructor.
  - intros x y j Hx He Hy Hj. apply elem_of_app in Hx as [Hx| ->%list_elem_of_singleton].
    + apply (Hb x y); [done|done|by constructor|done].
    + apply (Hsl y); [by apply Hall| |done]. rewrite loop_stack. apply elem_of_app. right.
      by constructor.
Qed.

Definition popped_state : TarjanState :=
  mk_tarjan (t_index st) (t_stack st0) (t_on_stack st ∖ list_to_set (new ++ [node]))
    (t_indices st) (t_lowlink st)
    (t_components st ++ [sort_by String.compare (new ++ [node])]).

Lemma popped_finished x : finished popped_state x ↔ finished st x ∨ x ∈ new ++ [node].
Proof.
  unfold finished, popped_state. simpl.
  by rewrite concat_app, elem_of_app, concat_cons, app_nil_r, sort_by_elem.
Qed.

Lemma popped_split x : x ∈ t_stack st ↔ x ∈ new ++ [node] ∨ x ∈ t_stack st0.
Proof. rewrite loop_stack. rewrite !elem_of_app, elem_of_cons, list_elem_of_singleton. tauto. Qed.

Lemma popped_disjoint x : x ∈ new ++ [node] → x ∈ t_stack st0 → False.
Proof.
  intros Hx Hs. pose proof (stack_NoDup _ _ (lo_wf _ _ _ _ _ _ _ Hloop)) as Hnd.
  rewrite loop_stack in Hnd. change (node :: t_stack st0) with ([node] ++ t_stack st0) in Hnd.
  rewrite app_assoc in Hnd. apply NoDup_app in Hnd as (_ & Hd & _). by apply (Hd x).
Qed.

(** The edges of a popped root's component stay in it or lead to finished nodes. *)
Lemma popped_closed x y :
  low = t_index st0 → x ∈ new ++ [node] → edge x y → finished st y ∨ y ∈ new ++ [node].
Proof.
  intros Hroot Hx He. pose proof Hloop as [Hwf Hext Hidx Hlow Hle Hr Hb Hs Hsl].
  assert (visited st y) as Hy.
  { apply elem_of_app in Hx as [Hx| ->%list_elem_of_singleton]; [|by apply Hs, Hall].
    assert (¬ visited st0 x) as Hxn.
    { apply (ex_new _ _ _ Hext). by apply elem_of_app; left. }
    apply (wf_edges _ _ Hwf x); [| |done].
    - rewrite loop_stack. apply elem_of_app. by left.
    - intros [->|Hgx]%elem_of_cons.
      + pose proof (stack_NoDup _ _ Hwf) as Hnd. rewrite loop_stack in Hnd.
        apply NoDup_app in Hnd as (_ & Hd & _). apply (Hd node Hx). constructor.
      + apply Hxn, (stack_visited _ _ _ H0). by apply (wf_gray _ _ H0). }
  apply (wf_visited _ _ Hwf) in Hy as [Hy|Hy]; [|by left].
  apply popped_split in Hy as [Hy|Hy]; [by right|]. exfalso.
  destruct (stack_visited _ _ _ H0 Hy) as [j Hj].
  pose proof (wf_bound _ _ H0 y j Hj). pose proof (ex_idx _ _ _ Hext y j Hj) as Hj'.
  assert (low ≤ j)%nat; [|lia].
  apply elem_of_app in Hx as [Hx| ->%list_elem_of_singleton].
  - apply (Hb x y); [done|done|by constructor|done].
  - apply (Hsl y); [by apply Hall| |done]. apply popped_split. by right.
Qed.

Lemma popped_scc : low = t_index st0 → is_scc (sort_by String.compare (new ++ [node])).
Proof.
  intros Hroot. pose proof Hloop as [Hwf Hext _ _ _ _ _ _ _].
  split; [|split; [by apply sort_by_sorted, _|]].
  - intros E. assert (node ∈ sort_by String.compare (new ++ [node])) as Hin.
    { apply sort_by_elem, elem_of_app. right. constructor. }
    rewrite E in Hin. by apply elem_of_nil in Hin.
  - intros x Hx%sort_by_elem y. rewrite sort_by_elem. split.
    + intros Hy. destruct (above_connected _ _ _ _ _ _ _ x Hloop H0 Hg Hx) as [Hx1 Hx2].
      destruct (above_connected _ _ _ _ _ _ _ y Hloop H0 Hg Hy) as [Hy1 Hy2].
      split; by etrans.
    + intros [Hxy Hyx].
      assert (finished st y ∨ y ∈ new ++ [node]) as [Hf|Hy]; [|exfalso|done].
      { apply (reach_closed (λ z, finished st z ∨ z ∈ new ++ [node]) x y); [|done|by right].
        intros a b [Ha|Ha] He; [left; by eapply (wf_closed _ _ Hwf)|]. by eapply popped_closed. }
      assert (finished st x) as Hfx.
      { apply (reach_closed (finished st) y x); [|done|done]. apply (wf_closed _ _ Hwf). }
      apply (wf_disjoint _ _ Hwf x); [|done]. apply popped_split. by left.
Qed.

(** A root: its component is popped. *)
Lemma leave_pops : low = t_index st0 → connected st0 popped_state gray node [] low.
Proof.
  intros Hroot. pose proof Hloop as [Hwf Hext Hidx Hlow Hle Hr Hb Hs Hsl].
  assert (∀ x i, x ∈ t_stack st0 → idx st x i → idx st0 x i) as Hback.
  { intros x i Hx. apply (extends_idx _ _ _ _ _ Hext). by apply (stack_visited _ _ _ H0). }
  split; try done.
  - split; simpl.
    + intros x. rewrite elem_of_difference, (wf_on _ _ Hwf), elem_of_list_to_set, popped_split.
      pose proof (popped_disjoint x). tauto.
    + intros x. rewrite popped_finished.
      change (visited popped_state x) with (visited st x).
      rewrite (wf_visited _ _ Hwf), popped_split. tauto.
    + intros x Hx [Hf|Hf]%popped_finished; [|by eapply popped_disjoint].
      apply (wf_disjoint _ _ Hwf x); [|done]. apply popped_split. by right.
    + rewrite concat_app, concat_cons, app_nil_r. apply NoDup_app. split_and!.
      * apply (wf_nodup _ _ Hwf).
      * intros x Hf Hx%sort_by_elem. apply (wf_disjoint _ _ Hwf x); [|done].
        apply popped_split. by left.
      * rewrite sort_by_perm. pose proof (stack_NoDup _ _ Hwf) as Hnd. rewrite loop_stack in Hnd.
        change (node :: t_stack st0) with ([node] ++ t_stack st0) in Hnd.
        rewrite app_assoc in Hnd. by apply NoDup_app in Hnd as (? & _).
    + apply (wf_low _ _ Hwf).
    + pose proof (wf_sorted _ _ Hwf) as Hso. rewrite loop_stack in Hso.
      change (node :: t_stack st0) with ([node] ++ t_stack st0) in Hso.
      rewrite app_assoc in Hso. by apply StronglySorted_app_r in Hso.
    + apply (wf_bound _ _ Hwf).
    + apply (wf_gray _ _ H0).
    + intros x i Hx Hi. destruct (wf_down _ _ H0 x i Hx (Hback x i Hx Hi)) as (g & j & Hgg & Hj & ?).
      exists g, j. split_and!; [done|by apply (ex_idx _ _ _ Hext)|naive_solver..].
    + intros g j x i Hgg Hj Hx Hi. apply (wf_up _ _ H0 g j x i); [done| |done|by apply Hback].
      apply Hback; [by apply (wf_gray _ _ H0)|done].
    + intros x y [Hf|Hx]%popped_finished He; apply popped_finished.
      * left. by apply (wf_closed _ _ Hwf x).
      * by eapply popped_closed.
    + intros c [Hc| ->%list_elem_of_singleton]%elem_of_app; [by apply (wf_scc _ _ Hwf)|].
      by apply popped_scc.
    + intros x y Hx Hng He. apply (extends_visited st0 st _ y Hext). by apply (wf_edges _ _ H0 x).
    + apply (wf_nodes _ _ Hwf).
  - destruct Hext as [E1 E2 E3 E4 E5 E6 E7]. split; try done.
    + by intros x ?%elem_of_nil.
    + intros x Hx. apply popped_finished. left. by apply E6.
  - left. split_and!; [|done|done]. intros Hin. by apply Hn, (stack_visited _ _ _ H0).
  - by intros x y j ?%elem_of_nil.
Qed.

Lemma leave_connected :
  ∃ st' new' low', leave (λ _ _, true) node st = Some st' ∧ connected st0 st' gray node new' low'.
Proof.
  pose proof Hloop as [Hwf Hext Hidx Hlow Hle Hr Hb Hs Hsl].
  unfold leave. rewrite Hlow. simpl. rewrite Hidx. simpl.
  destruct (Nat.eqb_spec low (t_index st0)) as [Hroot|Hne].
  - rewrite loop_stack, pop_until_app.
    + exists popped_state, [], low. split; [done|]. by apply leave_pops.
    + intros Hin. pose proof (stack_NoDup _ _ Hwf) as Hnd. rewrite loop_stack in Hnd.
      apply NoDup_app in Hnd as (_ & Hd & _). apply (Hd node Hin). constructor.
  - exists st, (new ++ [node]), low. split; [done|]. apply leave_stays. lia.
Qed.
End leaving.

(** The nodes that are left to visit bound the depth of the calls. *)
Definition unvisited (st : TarjanState) : nat :=
  size (graph_nodes adjacency ∖ dom (t_indices st)).

Lemma unvisited_extends st st' new : extends st st' new → (unvisited st' ≤ unvisited st)%nat.
Proof.
  intros H. unfold unvisited. apply subseteq_size. intros x. rewrite !elem_of_difference, !elem_of_dom.
  intros [Hx Hn]. split; [done|]. intros Hv. by apply Hn, (extends_visited _ _ _ _ H).
Qed.

Lemma unvisited_enter st node :
  ¬ visited st node → node ∈ graph_nodes adjacency →
  (unvisited (enter node st) < unvisited st)%nat.
Proof.
  intros Hn HV. unfold unvisited. apply subset_size. split.
  - intros x. unfold enter. simpl. rewrite dom_insert, !elem_of_difference, elem_of_union. tauto.
  - intros Hsub. specialize (Hsub node). unfold enter in Hsub. simpl in Hsub.
    rewrite dom_insert, !elem_of_difference, elem_of_union, elem_of_singleton, elem_of_dom in Hsub.
    unfold visited in Hn. tauto.
Qed.

(** What a recursive call promises while at most [n] nodes are left. *)
Definition connects (connect : string → TarjanState → option TarjanState) (n : nat) : Prop :=
  ∀ st gray node, wf st gray → ¬ visited st node → node ∈ graph_nodes adjacency →
    (∀ g, g ∈ gray → reach g node) → (unvisited st ≤ n)%nat →
    ∃ st' new low, connect node st = Some st' ∧ connected st st' gray node new low.

Lemma visit_looping connect n st0 gray node :
  connects connect n → ¬ visited st0 node → (∀ g, g ∈ gray → reach g node) →
  ∀ todo st new low seen, looping st0 st gray node new low seen →
    (∀ y, y ∈ todo → edge node y) → (unvisited st ≤ n)%nat →
    ∃ st' new' low' seen', visit connect node todo st = Some st' ∧
      looping st0 st' gray node new' low' seen' ∧ ∀ y, y ∈ seen ∨ y ∈ todo → y ∈ seen'.
Proof.
  intros Hc Hn Hg. induction todo as [|y todo IH]; intros st new low seen Hl He Hu.
  { exists st, new, low, seen. split_and!; [done|done|]. by intros z [?|?%elem_of_nil]. }
  pose proof Hl as [Hwf Hext Hidx Hlow Hle Hr Hb Hs Hsl].
  assert (edge node y) as Hy by (apply He; constructor).
  assert (∀ st1 new1 low1, looping st0 st1 gray node new1 low1 (y :: seen) →
    (unvisited st1 ≤ n)%nat →
    ∃ st' new' low' seen', visit connect node todo st1 = Some st' ∧
      looping st0 st' gray node new' low' seen' ∧ ∀ z, z ∈ seen ∨ z ∈ y :: todo → z ∈ seen')
    as Hgo.
  { intros st1 new1 low1 Hl1 Hu1.
    destruct (IH st1 new1 low1 (y :: seen) Hl1) as (st' & new' & low' & seen' & Hv & Hl' & Hin);
      [|done|].
    - intros z Hz. apply He. by constructor.
    - exists st', new', low', seen'. split_and!; [done|done|].
      intros z Hz. apply Hin. rewrite !elem_of_cons in *. tauto. }
  simpl. destruct (t_indices st !! y) as [i|] eqn:Hi.
  - destruct (bool_decide_reflect (y ∈ t_on_stack st)) as [Hst|Hst];
      rewrite (wf_on _ _ Hwf) in Hst.
    + rewrite Hlow. simpl. apply (Hgo _ new (Nat.min low i)); [|done].
      apply loop_low with low; [done|done|lia| |by exists i|].
      * destruct (Nat.min_spec low i) as [[_ ->]|[_ ->]]; [done|].
        exists y. split_and!; [done|done|by apply rtc_once].
      * intros j _ Hj. pose proof (idx_inj _ _ _ _ Hi Hj). lia.
    + apply (Hgo _ new low); [|done]. apply loop_skip; [done|by exists i|done].
  - assert (¬ visited st y) as Hny.
    { unfold visited. rewrite Hi. by intros [? ?]. }
    destruct (Hc st (node :: gray) y) as (st' & new_y & low_y & -> & Hco);
      [done|done|by eapply edge_node| |done|].
    { intros g [->|Hgg]%elem_of_cons; [by apply rtc_once|]. eapply rtc_r; [by apply Hg|done]. }
    simpl. rewrite (co_low _ _ _ _ _ _ Hco). simpl.
    rewrite (ex_low _ _ _ (co_extends _ _ _ _ _ _ Hco)), Hlow by (by eapply idx_visited).
    simpl. apply (Hgo _ (new_y ++ new) (Nat.min low low_y)).
    + by eapply loop_call.
    + etrans; [|exact Hu]. by apply (unvisited_extends _ st' new_y), Hco.
Qed.

Lemma strong_connect_connects fuel :
  connects (strong_connect adjacency (λ _ _, true) fuel) fuel.
Proof.
  induction fuel as [|fuel IH]; intros st gray node Hwf Hn HV Hg Hu;
    pose proof (unvisited_enter st node Hn HV) as Hlt; [lia|].
  destruct (visit_looping _ fuel st gray node IH Hn Hg (neighbors adjacency node) (enter node st)
    [] (t_index st) []) as (st' & new & low & seen & Hv & Hl & Hin); [by apply enter_looping|done|lia|].
  simpl. rewrite Hv. simpl.
  destruct (leave_connected st st' gray node new low seen Hl Hwf Hn Hg)
    as (st'' & new' & low' & Hlv & Hco).
  - intros y Hy. apply Hin. by right.
  - by exists st'', new', low'.
Qed.

Lemma wf_top st x : wf st [] → x ∉ t_stack st.
Proof.
  intros H Hx. destruct (stack_visited _ _ _ H Hx) as [i Hi].
  destruct (wf_down _ _ H x i Hx Hi) as (g & j & Hg & _). by apply elem_of_nil in Hg.
Qed.

Lemma connect_all_spec fuel nodes : ∀ st,
  wf st [] → (unvisited st ≤ fuel)%nat → (∀ x, x ∈ nodes → x ∈ graph_nodes adjacency) →
  ∃ st', connect_all adjacency (λ _ _, true) fuel nodes st = Some st' ∧ wf st' [] ∧
    ∀ x, visited st x ∨ x ∈ nodes → visited st' x.
Proof.
  induction nodes as [|node nodes IH]; intros st Hwf Hu HV.
  { exists st. split_and!; [done|done|]. by intros x [?|?%elem_of_nil]. }
  assert (∀ st1, wf st1 [] → (unvisited st1 ≤ fuel)%nat → visited st1 node →
    (∀ x, visited st x → visited st1 x) →
    ∃ st', connect_all adjacency (λ _ _, true) fuel nodes st1 = Some st' ∧ wf st' [] ∧
      ∀ x, visited st x ∨ x ∈ node :: nodes → visited st' x) as Hgo.
  { intros st1 H1 Hu1 Hn1 Hv1. destruct (IH st1 H1 Hu1) as (st' & Hc & Hw & Hv).
    - intros x Hx. apply HV. by constructor.
    - exists st'. split_and!; [done|done|]. intros x [Hx|[->|Hx]%elem_of_cons]; auto. }
  simpl. destruct (t_indices st !! node) as [i|] eqn:Hi.
  - apply Hgo; [done|done|by exists i|done].
  - destruct (strong_connect_connects fuel st [] node) as (st1 & new & low & -> & Hco);
      [done| |apply HV; constructor|by intros g ?%elem_of_nil|done|].
    + unfold visited. rewrite Hi. by intros [? ?].
    + simpl. apply Hgo.
      * apply Hco.
      * etrans; [|exact Hu]. by apply (unvisited_extends _ st1 new), Hco.
      * eapply idx_visited, (co_visited _ _ _ _ _ _ Hco).
      * intros x. apply (extends_visited _ _ new), Hco.
Qed.

Lemma wf_init : wf tarjan_init [].
Proof.
  assert (∀ x, ¬ visited tarjan_init x) as Hv by (by intros x [? ?]).
  assert (∀ x, x ∉ t_stack tarjan_init) as Hs by (intros x ?%elem_of_nil; done).
  assert (∀ x, ¬ finished tarjan_init x) as Hf by (intros x ?%elem_of_nil; done).
  assert (∀ x i, ¬ idx tarjan_init x i) as Hi by done.
  split; try (intros; exfalso; first [eapply Hs; eassumption|eapply Hf; eassumption
    |eapply Hv; eassumption|eapply Hi; eassumption]).
  - intros x. simpl. split; [by intros ?%elem_of_empty|by intros ?%elem_of_nil].
  - intros x. split; [by intros ?%Hv|]. by intros [?%elem_of_nil|?%Hf].
  - constructor.
  - constructor.
  - by intros c ?%elem_of_nil.
Qed.

Lemma keys_elem x : x ∈ keys adjacency ↔ is_Some (adjacency !! x).
Proof.
  unfold keys. rewrite sort_by_elem, list_elem_of_fmap. split.
  - intros ([k v] & -> & Hk%elem_of_map_to_list). by exists v.
  - intros [v Hv%elem_of_map_to_list]. by exists (x, v).
Qed.

Lemma graph_nodes_elem x :
  x ∈ graph_nodes adjacency ↔ is_Some (adjacency !! x) ∨ ∃ y, edge y x.
Proof.
  split.
  - unfold graph_nodes. rewrite elem_of_union, elem_of_dom, elem_of_list_to_set.
    intros [Hx|Hx%list_elem_of_In]; [by left|right].
    apply in_concat in Hx as (ys & Hys%list_elem_of_In & Hx%list_elem_of_In).
    apply list_elem_of_fmap in Hys as ([k ys'] & -> & Hk%elem_of_map_to_list).
    exists k. unfold edge, neighbors. by rewrite Hk.
  - intros [Hx|[y Hy]]; [|by eapply edge_node].
    apply elem_of_union_l. by apply elem_of_dom.
Qed.

Lemma component_unique c1 c2 x :
  component c1 → component c2 → x ∈ c1 → x ∈ c2 → c1 = c2.
Proof.
  intros ((_ & Hs1 & H1) & Hn1 & _) ((_ & Hs2 & H2) & Hn2 & _) Hx1 Hx2.
  rewrite <-(sort_by_sorted_id _ _ Hs1), <-(sort_by_sorted_id _ _ Hs2).
  apply (sort_by_unique String.compare). apply NoDup_Permutation; [done|done|].
  intros y. by rewrite (H1 x Hx1 y), (H2 x Hx2 y).
Qed.

(** The run visits every node and its components are the graph's, each one once. *)
Lemma connect_all_components :
  ∃ st, connect_all adjacency (λ _ _, true) (scc_fuel adjacency) (keys adjacency) tarjan_init
          = Some st ∧
    NoDup (concat (t_components st)) ∧
    (∀ x, x ∈ concat (t_components st) ↔ x ∈ graph_nodes adjacency) ∧
    ∀ c, c ∈ t_components st ↔ component c.
Proof.
  destruct (connect_all_spec (scc_fuel adjacency) (keys adjacency) tarjan_init)
    as (st & Hc & Hwf & Hv).
  - apply wf_init.
  - unfold unvisited, scc_fuel. simpl. rewrite dom_empty_L, difference_empty_L. done.
  - intros x Hx%keys_elem. apply graph_nodes_elem. by left.
  - assert (∀ x, visited st x → finished st x) as Hvf.
    { intros x [Hx|Hx]%(wf_visited _ _ Hwf); [|done]. by destruct (wf_top _ _ Hwf Hx). }
    assert (∀ x, is_Some (adjacency !! x) → finished st x) as Hk.
    { intros x Hx. apply Hvf, Hv. right. by apply keys_elem. }
    assert (∀ x, finished st x ↔ x ∈ graph_nodes adjacency) as Hf.
    { intros x. rewrite graph_nodes_elem. split.
      - intros Hx. apply graph_nodes_elem, (wf_nodes _ _ Hwf), (wf_visited _ _ Hwf). by right.
      - intros [Hx|[y Hy]]; [by apply Hk|]. apply (wf_closed _ _ Hwf y); [|done].
        apply Hk. unfold edge, neighbors in Hy. destruct (adjacency !! y) eqn:E; [by eexists|].
        by apply elem_of_nil in Hy. }
    assert (∀ c, c ∈ t_components st → component c) as Hcomp.
    { intros c Hcc. split_and!; [by apply (wf_scc _ _ Hwf)| |].
      - pose proof (wf_nodup _ _ Hwf) as Hnd. apply list_elem_of_split in Hcc as (l1 & l2 & E).
        rewrite E, concat_app, concat_cons in Hnd.
        apply NoDup_app in Hnd as (_ & _ & Hnd). by apply NoDup_app in Hnd as (? & _).
      - intros x Hx. apply Hf, list_elem_of_In, in_concat. exists c.
        split; by apply list_elem_of_In. }
    exists st. split_and!; [done|by apply Hwf|done|]. intros c. split; [by apply Hcomp|].
    intros Hco. pose proof Hco as ((Hne & _) & _ & HV). destruct c as [|x c]; [done|].
    assert (finished st x) as Hx by (apply Hf, HV; constructor).
    apply list_elem_of_In, in_concat in Hx as (c' & Hc'%list_elem_of_In & Hx%list_elem_of_In).
    rewrite (component_unique (x :: c) c' x); [done|done|by apply Hcomp|constructor|done].
Qed.
End spec.

#[export] Instance first_cmp_total : TotalCmp first_cmp.
Proof.
  unfold first_cmp. split.
  - intros [|x l] [|y r]; simpl; try done. apply (cmp_opp String.compare).
  - intros [|x l] [|y r] [|z t]; simpl; try done. apply (cmp_trans String.compare).
Qed.

(** C6. [strongly_connected_components] always returns, and returns the strongly connected
    components of the graph, targets without an entry of their own included: every node is
    in exactly one of the lists, every list is a maximal set of nodes that reach each other,
    sorted, every such set is listed, and the lists are ordered by their first member. *)
Theorem scc_correct (adjacency : gmap string (list string)) :
  ∃ components, strongly_connected_components adjacency = Some components ∧
    NoDup (concat components) ∧
    (∀ x, x ∈ concat components ↔ x ∈ graph_nodes adjacency) ∧
    (∀ c, c ∈ components ↔ component adjacency c) ∧
    sorted_by first_cmp components.
Proof.
  destruct (connect_all_components adjacency) as (st & Hc & Hnd & Hin & Hco).
  unfold strongly_connected_components. rewrite Hc. simpl. eexists. split; [done|].
  assert (concat (sort_by first_cmp (t_components st)) ≡ₚ concat (t_components st)) as Hp.
  { by rewrite sort_by_perm. }
  split_and!.
  - by rewrite Hp.
  - intros x. by rewrite Hp.
  - intros c. by rewrite sort_by_elem.
  - by apply (sort_by_sorted first_cmp).
Qed.

(** ** The history variant, refined to the same run *)

Section history.
Context (adjacency : gmap string (list string)) (include_self_loops : bool).

(** Which components the variant reports: the cycles, self loops on request. *)
Definition is_cycle (c : list string) : bool :=
  (1 <? length c)%nat ||
  include_self_loops &&
    match c with [n] => bool_decide (n ∈ neighbors adjacency n) | _ => false end.

(** The state of the variant, from the state of the run that records everything. *)
Definition only_cycles (st : TarjanState) : TarjanState :=
  mk_tarjan (t_index st) (t_stack st) (t_on_stack st) (t_indices st) (t_lowlink st)
    (filter is_cycle (t_components st)).

Abbreviation keep := (History.keep_cycle adjacency include_self_loops).

Lemma pop_until_end node stack :
  node ∈ stack → ∃ popped rest, pop_until node stack = (popped ++ [node], rest) ∧
    stack = popped ++ node :: rest.
Proof.
  induction stack as [|x stack IH]; [by intros ?%elem_of_nil|]. simpl.
  destruct (String.eqb_spec x node) as [->|Hne]; [by exists [], stack|].
  intros [?|Hin]%elem_of_cons; [congruence|].
  destruct (IH Hin) as (popped & rest & -> & ->). by exists (x :: popped), rest.
Qed.

Lemma keep_is_cycle node popped :
  keep node (sort_by String.compare (popped ++ [node])) =
  is_cycle (sort_by String.compare (popped ++ [node])).
Proof.
  unfold History.keep_cycle, is_cycle. destruct popped as [|x popped].
  - simpl. f_equal. unfold neighbors. by destruct (adjacency !! node).
  - assert (length (sort_by String.compare ((x :: popped) ++ [node])) = S (length (popped ++ [node])))
      as -> by by rewrite sort_by_perm.
    rewrite length_app, Nat.add_comm. done.
Qed.

Lemma leave_only_cycles node st :
  node ∈ t_stack st →
  leave keep node (only_cycles st) = only_cycles <$> leave (λ _ _, true) node st.
Proof.
  intros Hin. unfold leave. simpl.
  destruct (t_lowlink st !! node) as [low|]; [|done]. simpl.
  destruct (t_indices st !! node) as [i|]; [|done]. simpl.
  destruct (low =? i)%nat; [|done].
  destruct (pop_until_end node _ Hin) as (popped & rest & -> & _). simpl.
  unfold only_cycles. simpl. rewrite filter_app, keep_is_cycle. do 2 f_equal.
  rewrite filter_cons, filter_nil. by destruct (is_cycle _).
Qed.

Lemma leave_stack node st st' stack new :
  t_stack st = new ++ node :: stack → leave (λ _ _, true) node st = Some st' →
  ∃ new', t_stack st' = new' ++ stack.
Proof.
  intros Hst. unfold leave.
  destruct (t_lowlink st !! node) as [low|]; [|done]. simpl.
  destruct (t_indices st !! node) as [i|]; [|done]. simpl.
  destruct (low =? i)%nat.
  - rewrite Hst. destruct (pop_until node (new ++ node :: stack)) as [popped rest] eqn:E.
    intros [= <-]. simpl. revert popped E. clear Hst.
    induction new as [|x new IH]; intros popped; simpl.
    + rewrite String.eqb_refl. intros [= <- <-]. by exists [].
    + destruct (String.eqb_spec x node) as [->|_].
      * intros [= <- <-]. exists (new ++ [node]). by rewrite <-app_assoc.
      * destruct (pop_until _ _) as [p r]. intros [= <- <-]. by eapply IH.
  - intros [= <-]. exists (new ++ [node]). by rewrite Hst, <-app_assoc.
Qed.

(** A call with the filter does what the call without it does, and keeps the stack below. *)
Definition simulates (call call' : string → TarjanState → option TarjanState) : Prop :=
  ∀ node st, call node (only_cycles st) = only_cycles <$> call' node st ∧
    ∀ st', call' node st = Some st' → ∃ new, t_stack st' = new ++ t_stack st.

Lemma visit_simulates call call' node todo :
  simulates call call' → ∀ st,
  visit call node todo (only_cycles st) = only_cycles <$> visit call' node todo st ∧
  ∀ st', visit call' node todo st = Some st' → ∃ new, t_stack st' = new ++ t_stack st.
Proof.
  intros Hs. induction todo as [|y todo IH]; intros st; simpl.
  { split; [done|]. intros st' [= <-]. by exists []. }
  destruct (t_indices st !! y) as [i|].
  - destruct (bool_decide _); [|apply IH]. destruct (t_lowlink st !! node); simpl; [|done].
    apply (IH (set_low node (Nat.min n i) st)).
  - destruct (Hs y st) as [-> Hst]. destruct (call' y st) as [st1|]; [|done]. simpl.
    destruct (Hst st1 eq_refl) as [new Hnew].
    destruct (t_lowlink st1 !! y) as [ly|]; simpl; [|done].
    destruct (t_lowlink st1 !! node) as [ln|]; simpl; [|done].
    destruct (IH (set_low node (Nat.min ln ly) st1)) as [IH1 IH2]. split; [exact IH1|].
    intros st' [new' Hv]%IH2. exists (new' ++ new). rewrite Hv. simpl. by rewrite Hnew, app_assoc.
Qed.

Lemma strong_connect_simulates fuel :
  simulates (strong_connect adjacency keep fuel) (strong_connect adjacency (λ _ _, true) fuel).
Proof.
  induction fuel as [|fuel IH]; intros node st; simpl; [done|].
  destruct (visit_simulates _ _ node (neighbors adjacency node) IH (enter node st)) as [Hv Hst].
  change (enter node (only_cycles st)) with (only_cycles (enter node st)). rewrite Hv.
  destruct (visit (strong_connect _ (λ _ _, true) _) node _ _) as [st1|]; simpl; [|by split].
  destruct (Hst st1 eq_refl) as [new Hnew]. split.
  - apply leave_only_cycles. rewrite Hnew. apply elem_of_app. right. constructor.
  - intros st'. by apply (leave_stack _ _ _ _ new).
Qed.

Lemma connect_all_simulates fuel nodes : ∀ st,
  connect_all adjacency keep fuel nodes (only_cycles st) =
  only_cycles <$> connect_all adjacency (λ _ _, true) fuel nodes st.
Proof.
  induction nodes as [|y nodes IH]; intros st; simpl; [done|].
  destruct (t_indices st !! y); [apply IH|].
  destruct (strong_connect_simulates fuel y st) as [-> _].
  destruct (strong_connect _ _ _ _ st); simpl; [apply IH|done].
Qed.
End history.

(** Giving the targets entries of their own changes neither the edges nor the nodes. *)
Lemma with_targets_neighbors graph x : neighbors (History.with_targets graph) x = neighbors graph x.
Proof.
  unfold History.with_targets. induction (concat _) as [|t ts IH]; [done|].
  rewrite <-IH. clear IH. simpl.
  set (g := foldr _ graph ts). destruct (g !! t) eqn:E; [done|]. unfold neighbors.
  destruct (decide (x = t)) as [->|Hne]; [by rewrite lookup_insert_eq, E|].
  by rewrite lookup_insert_ne.
Qed.

Lemma with_targets_edge graph x y : edge (History.with_targets graph) x y ↔ edge graph x y.
Proof. unfold edge. by rewrite with_targets_neighbors. Qed.

Lemma with_targets_keys graph x :
  is_Some (History.with_targets graph !! x) ↔
  is_Some (graph !! x) ∨ x ∈ concat (map snd (map_to_list graph)).
Proof.
  unfold History.with_targets. induction (concat _) as [|t ts IH]; simpl.
  { split; [by left|]. by intros [?|?%elem_of_nil]. }
  rewrite elem_of_cons. set (g := foldr _ graph ts) in *.
  destruct (g !! t) eqn:E.
  - rewrite IH. split; [tauto|]. intros [H|[->|H]]; [tauto| |tauto]. apply IH. by eexists.
  - destruct (decide (x = t)) as [->|Hne].
    + rewrite lookup_insert_eq. split; [tauto|]. by eexists.
    + rewrite lookup_insert_ne, IH by done. intuition congruence.
Qed.

Lemma with_targets_nodes graph : graph_nodes (History.with_targets graph) = graph_nodes graph.
Proof.
  apply set_eq. intros x. rewrite graph_nodes_elem, with_targets_keys. split.
  - intros [[H|H]|[y Hy]].
    + apply graph_nodes_elem. by left.
    + unfold graph_nodes. by apply elem_of_union_r, elem_of_list_to_set.
    + apply graph_nodes_elem. right. exists y. by apply with_targets_edge.
  - intros [H|[y Hy]]%graph_nodes_elem; [by do 2 left|right].
    exists y. by apply with_targets_edge.
Qed.

Lemma with_targets_reach graph x y : reach (History.with_targets graph) x y ↔ reach graph x y.
Proof.
  split; induction 1 as [|a b c Hab _ IH]; try constructor;
    (eapply rtc_l; [|exact IH]); by apply with_targets_edge.
Qed.

Lemma with_targets_component graph c : component (History.with_targets graph) c ↔ component graph c.
Proof.
  unfold component, is_scc. rewrite with_targets_nodes.
  setoid_rewrite with_targets_reach. done.
Qed.

#[export] Instance names_cmp_total : TotalCmp History.names_cmp.
Proof.
  split.
  - induction x as [|x l IH]; intros [|y r]; simpl; try done.
    rewrite (cmp_opp String.compare x y), IH. by destruct (String.compare x y).
  - induction x as [|x l IH]; intros [|y r] [|z t]; simpl; try done.
    intros Hxy Hyz. destruct (String.compare x y) eqn:E1; simpl in Hxy; [| |done].
    + rewrite (cmp_eq_l String.compare x y z E1).
      destruct (String.compare y z); simpl in *; eauto.
    + assert (String.compare y z ≠ Gt) as Hn by (by destruct (String.compare y z)).
      assert (String.compare x z ≠ Gt) as Hle by (apply (cmp_trans String.compare x y z); congruence).
      destruct (String.compare x z) eqn:E3; simpl; [|done|done].
      apply String.compare_eq_iff in E3 as ->. by apply (cmp_lt_gt String.compare) in E1.
Qed.

Lemma concat_filter_NoDup {A} (p : list A → bool) (ls : list (list A)) :
  NoDup (concat ls) → NoDup (concat (filter p ls)).
Proof.
  assert (∀ ls x, x ∈ concat (filter p ls) → x ∈ concat ls) as Hin.
  { clear ls. induction ls as [|l ls IH]; intros x; [done|]. rewrite filter_cons. simpl.
    rewrite elem_of_app. destruct (decide _); simpl; rewrite ?elem_of_app; intuition. }
  induction ls as [|l ls IH]; [done|]. rewrite filter_cons. simpl.
  intros (H1 & H2 & H3)%NoDup_app. destruct (decide _); [|by apply IH].
  simpl. apply NoDup_app. split_and!; [done| |by apply IH]. intros x Hx Hx'. by apply (H2 x), Hin.
Qed.

Lemma is_cycle_spec adjacency loops c :
  is_cycle adjacency loops c ↔
  (1 < length c)%nat ∨ loops = true ∧ ∃ n, c = [n] ∧ edge adjacency n n.
Proof.
  unfold is_cycle. rewrite Is_true_true, orb_true_iff, Nat.ltb_lt, andb_true_iff.
  apply or_iff_compat_l, and_iff_compat_l.
  destruct c as [|n [|]]; [naive_solver| |naive_solver].
  rewrite bool_decide_eq_true. unfold edge. naive_solver.
Qed.

(** The history variant always returns, and returns exactly the cycles of the graph it
    was given, sorted: the strongly connected components with more than one node and, on
    request, the single nodes with an edge to themselves. *)
Theorem history_cycles_exact (graph : gmap string (list string)) (include_self_loops : bool) :
  ∃ components, History.strongly_connected_components graph include_self_loops = Some components ∧
    NoDup (concat components) ∧
    sorted_by History.names_cmp components ∧
    ∀ c, c ∈ components ↔ component graph c ∧
      ((1 < length c)%nat ∨ include_self_loops = true ∧ ∃ n, c = [n] ∧ edge graph n n).
Proof.
  destruct (connect_all_components (History.with_targets graph)) as (st & Hc & Hnd & _ & Hco).
  unfold History.strongly_connected_components.
  change tarjan_init with
    (only_cycles (History.with_targets graph) include_self_loops tarjan_init).
  rewrite connect_all_simulates, Hc. simpl. eexists. split; [done|]. split_and!.
  - rewrite sort_by_perm. by apply concat_filter_NoDup.
  - by apply (sort_by_sorted History.names_cmp).
  - intros c. rewrite sort_by_elem, list_elem_of_filter, is_cycle_spec, Hco, with_targets_component.
    setoid_rewrite with_targets_edge. tauto.
Qed.
