(* ===== verification/HistoryDiff.v ===== *)
(** * Differences between snapshots of the history

    Model of [packages/atlas-history/src/diff.rs], [reports.rs] and [error.rs], with the rows
    of [packages/atlas-store-sqlite/src/store/history.rs]: a snapshot of the graph at a commit
    is read back and checked, and two snapshots are compared by files, nodes, edges, modules
    and the dependencies between modules. The queries of the store, git's listing of renames,
    SHA-256 and the printing of a float are parameters. *)

From Stdlib Require Import Floats.SpecFloat.
From S2P Require Import Prelude RustStr BTree Scc.

(** ** Rows *)

Record StoredSnapshotFile := mk_file {
  sf_snapshot_id : Z; sf_path : string; sf_hash : string; sf_language : option string;
  sf_size : option Z }.

Record HistoricalNode := mk_hnode {
  hn_file_hash : string; hn_qn : string; hn_kind : string; hn_name : string; hn_path : string;
  hn_line_start : option Z; hn_line_end : option Z; hn_language : option string;
  hn_parent_name : option string; hn_params : option string; hn_return_type : option string;
  hn_modifiers : option string; hn_is_test : bool; hn_extra_json : option string }.

Record HistoricalEdge := mk_hedge {
  he_file_hash : string; he_source : string; he_target : string; he_kind : string;
  he_path : string; he_line : option Z; he_confidence : spec_float; he_tier : option string;
  he_extra_json : option string }.

Record StoredSnapshot := mk_stored {
  st_snapshot_id : Z; st_repo_id : Z; st_commit_sha : string; st_root_tree_hash : option string;
  st_node_count : Z; st_edge_count : Z; st_file_count : Z; st_created_at : string;
  st_completeness : spec_float; st_parse_error_count : Z }.

(** ** Evidence *)

Record HistoryEvidence := mk_evidence {
  snapshot_ids : list Z; commit_shas : list string; node_identifiers : list string;
  edge_identifiers : list string; canonical_file_paths : list string }.

Definition build_evidence (ids : list Z) (shas nodes edges paths : list string) : HistoryEvidence :=
  let texts := btree_set String.compare in
  mk_evidence (btree_set Z.compare ids) (texts shas) (texts nodes) (texts edges) (texts paths).

Definition node_identifier (qn kind path : string) : string := qn +:+ "|" +:+ kind +:+ "|" +:+ path.
Definition node_identifier_for (n : HistoricalNode) : string :=
  node_identifier (hn_qn n) (hn_kind n) (hn_path n).
Definition edge_identifier (source target kind path : string) : string :=
  source +:+ "|" +:+ kind +:+ "|" +:+ target +:+ "|" +:+ path.
Definition edge_identifier_for (e : HistoricalEdge) : string :=
  edge_identifier (he_source e) (he_target e) (he_kind e) (he_path e).

(** ** Snapshots *)

Record HistoricalSnapshotSummary := mk_summary {
  sm_snapshot_id : Z; sm_commit_sha : string; sm_node_count : Z; sm_edge_count : Z;
  sm_file_count : Z; sm_completeness : spec_float; sm_parse_error_count : Z }.

Record HistoricalSnapshot := mk_snapshot {
  hs_summary : HistoricalSnapshotSummary; hs_evidence : HistoryEvidence; hs_repo_id : Z;
  hs_commit_sha : string; hs_root_tree_hash : option string; hs_node_count : Z;
  hs_edge_count : Z; hs_file_count : Z; hs_completeness : spec_float;
  hs_parse_error_count : Z; hs_files : list StoredSnapshotFile;
  hs_nodes : list HistoricalNode; hs_edges : list HistoricalEdge }.

Inductive HistoryError :=
| NotInitialized
| Divergence (message : string)
| InvalidSelector (message : string)
| Other (message : string).

(** [?] on an error of the store, with and without context. *)
Definition lift_store {A} (r : result string A) : result HistoryError A :=
  match r with Ok x => Ok x | Err e => Err (Other e) end.
Definition with_context {A} (what : string) (r : result string A) : result HistoryError A :=
  match r with Ok x => Ok x | Err e => Err (Other (what +:+ ": " +:+ e)) end.

Definition show_Z (z : Z) : string := pretty z.

Definition mismatch (what : string) (expected : Z) (actual : nat) : list string :=
  if (expected =? Z.of_nat actual)%Z then []
  else [what +:+ " expected=" +:+ show_Z expected +:+ " actual=" +:+ show_nat actual].

Definition validate_snapshot_materialization (s : StoredSnapshot) (files : list StoredSnapshotFile)
    (nodes : list HistoricalNode) (edges : list HistoricalEdge) : result HistoryError unit :=
  match mismatch "files" (st_file_count s) (length files) ++
        mismatch "nodes" (st_node_count s) (length nodes) ++
        mismatch "edges" (st_edge_count s) (length edges) with
  | [] => Ok tt
  | mismatches =>
      Err (Other ("snapshot membership rows appear corrupted for commit " +:+ st_commit_sha s +:+
        " (snapshot_id=" +:+ show_Z (st_snapshot_id s) +:+ "): " +:+ join ", " mismatches))
  end.

(** The queries of the store. *)
Class HistoryStore := {
  find_repo_id : string → result string (option Z);
  find_snapshot : Z → string → result string (option StoredSnapshot);
  list_snapshot_files : Z → result string (list StoredSnapshotFile);
  reconstruct_snapshot_nodes : Z → result string (list HistoricalNode);
  reconstruct_snapshot_edges : Z → result string (list HistoricalEdge)
}.

Section reconstruct.
Context `{HistoryStore}.

Definition reconstruct_snapshot_from_row (s : StoredSnapshot) : result HistoryError HistoricalSnapshot :=
  files <-? with_context "list snapshot files" (list_snapshot_files (st_snapshot_id s));;
  nodes <-? with_context "reconstruct snapshot nodes" (reconstruct_snapshot_nodes (st_snapshot_id s));;
  edges <-? with_context "reconstruct snapshot edges" (reconstruct_snapshot_edges (st_snapshot_id s));;
  _ <-? validate_snapshot_materialization s files nodes edges;;
  Ok (mk_snapshot
    (mk_summary (st_snapshot_id s) (st_commit_sha s) (st_node_count s) (st_edge_count s)
       (st_file_count s) (st_completeness s) (st_parse_error_count s))
    (build_evidence [st_snapshot_id s] [st_commit_sha s] (map node_identifier_for nodes)
       (map edge_identifier_for edges) (map sf_path files))
    (st_repo_id s) (st_commit_sha s) (st_root_tree_hash s) (st_node_count s) (st_edge_count s)
    (st_file_count s) (st_completeness s) (st_parse_error_count s) files nodes edges).

Definition reconstruct_snapshot (canonical_root commit_sha : string) :
    result HistoryError HistoricalSnapshot :=
  repo <-? lift_store (find_repo_id canonical_root);;
  match repo with
  | None => Err (Other ("repo not yet registered for history: " +:+ canonical_root))
  | Some repo_id =>
      snapshot <-? lift_store (find_snapshot repo_id commit_sha);;
      match snapshot with
      | None => Err (Other ("indexed snapshot not found for commit " +:+ commit_sha))
      | Some s => reconstruct_snapshot_from_row s
      end
  end.
End reconstruct.

(** ** Entries of a difference *)

Record FileRename := mk_rename { fr_old_path : string; fr_new_path : string }.

Record FileChange := mk_file_change {
  fc_path : string; old_hash : option string; new_hash : option string;
  old_language : option string; new_language : option string; old_size : option Z;
  new_size : option Z }.

Record NodeDiffEntry := mk_node_diff {
  nd_qn : string; nd_path : string; nd_kind : string;
  line_start_before : option Z; line_end_before : option Z;
  line_start_after : option Z; line_end_after : option Z;
  signature_hash_before : option string; signature_hash_after : option string;
  modifiers_before : option string; modifiers_after : option string;
  is_test_before : option bool; is_test_after : option bool;
  extra_hash_before : option string; extra_hash_after : option string;
  nd_changed_fields : list string }.

Record EdgeDiffEntry := mk_edge_diff {
  ed_source : string; ed_target : string; ed_kind : string; ed_path : string;
  tier_before : option string; tier_after : option string;
  metadata_hash_before : option string; metadata_hash_after : option string;
  ed_changed_fields : list string }.

Record ModuleDiffEntry := mk_module_diff {
  md_module : string; node_count_before : nat; node_count_after : nat;
  edge_count_before : nat; edge_count_after : nat }.

Record ModuleDependencyChange := mk_dependency_change {
  source_module : string; target_module : string; count_before : nat; count_after : nat }.

Record HubChange := mk_hub_change { hc_module : string; degree_before : nat; degree_after : nat }.

Record ArchitectureDiff := mk_architecture {
  new_dependency_paths : list (string * string); removed_dependency_paths : list (string * string);
  new_cycles : list (list string); broken_cycles : list (list string);
  changed_central_hubs : list HubChange; changed_coupling : list ModuleDependencyChange }.

Section entries_of_rows.
Context (hex_hash : string → string) (fixed6 : spec_float → string).

(** [U+001F] between the parts of a hashed text. *)
Definition unit_separator : string := String (chr 31) "".

Definition node_signature_hash (n : HistoricalNode) : option string :=
  match hn_params n, hn_return_type n, hn_modifiers n with
  | None, None, None => None
  | p, r, m =>
      Some (hex_hash (default "" p +:+ unit_separator +:+ default "" r +:+ unit_separator +:+
                      default "" m))
  end.

Definition edge_metadata_hash (e : HistoricalEdge) : option string :=
  Some (hex_hash (show_Z (default 0%Z (he_line e)) +:+ unit_separator +:+
    default "" (he_tier e) +:+ unit_separator +:+ default "" (he_extra_json e) +:+
    unit_separator +:+ fixed6 (he_confidence e))).

Definition stable_hash (value : option string) : option string := hex_hash <$> value.

Definition node_added (n : HistoricalNode) : NodeDiffEntry :=
  mk_node_diff (hn_qn n) (hn_path n) (hn_kind n) None None (hn_line_start n) (hn_line_end n)
    None (node_signature_hash n) None (hn_modifiers n) None (Some (hn_is_test n))
    None (stable_hash (hn_extra_json n)) ["added"].

Definition node_removed (n : HistoricalNode) : NodeDiffEntry :=
  mk_node_diff (hn_qn n) (hn_path n) (hn_kind n) (hn_line_start n) (hn_line_end n) None None
    (node_signature_hash n) None (hn_modifiers n) None (Some (hn_is_test n)) None
    (stable_hash (hn_extra_json n)) None ["removed"].

Definition field_if (changed : bool) (name : string) : list string := if changed then [name] else [].

Definition node_changed (before after : HistoricalNode) : NodeDiffEntry :=
  let before_signature := node_signature_hash before in
  let after_signature := node_signature_hash after in
  let before_extra := stable_hash (hn_extra_json before) in
  let after_extra := stable_hash (hn_extra_json after) in
  let changed_fields :=
    field_if (bool_decide (hn_line_start before ≠ hn_line_start after) ||
              bool_decide (hn_line_end before ≠ hn_line_end after)) "line_span" ++
    field_if (bool_decide (before_signature ≠ after_signature)) "signature" ++
    field_if (bool_decide (hn_modifiers before ≠ hn_modifiers after)) "modifiers" ++
    field_if (bool_decide (hn_is_test before ≠ hn_is_test after)) "is_test" ++
    field_if (bool_decide (before_extra ≠ after_extra)) "extra_metadata" in
  mk_node_diff (hn_qn before) (hn_path before) (hn_kind before)
    (hn_line_start before) (hn_line_end before) (hn_line_start after) (hn_line_end after)
    before_signature after_signature (hn_modifiers before) (hn_modifiers after)
    (Some (hn_is_test before)) (Some (hn_is_test after)) before_extra after_extra changed_fields.

Definition edge_added (e : HistoricalEdge) : EdgeDiffEntry :=
  mk_edge_diff (he_source e) (he_target e) (he_kind e) (he_path e) None (he_tier e) None
    (edge_metadata_hash e) ["added"].

Definition edge_removed (e : HistoricalEdge) : EdgeDiffEntry :=
  mk_edge_diff (he_source e) (he_target e) (he_kind e) (he_path e) (he_tier e) None
    (edge_metadata_hash e) None ["removed"].

Definition edge_changed (before after : HistoricalEdge) : EdgeDiffEntry :=
  let before_hash := edge_metadata_hash before in
  let after_hash := edge_metadata_hash after in
  let changed_fields :=
    field_if (bool_decide (he_tier before ≠ he_tier after)) "confidence_tier" ++
    field_if (bool_decide (before_hash ≠ after_hash)) "metadata" in
  mk_edge_diff (he_source before) (he_target before) (he_kind before) (he_path before)
    (he_tier before) (he_tier after) before_hash after_hash changed_fields.
End entries_of_rows.

(** ** Modules *)

Definition module_key (path : string) : string :=
  match split_char slash path with
  | first :: ((second :: _) as rest) =>
      if String.eqb first "packages" then "packages/" +:+ second
      else if existsb (String.eqb first) ["src"; "tests"; "benches"; "examples"]
      then first +:+ "/" +:+ second
      else first
  | [first] => first
  | [] => ""
  end.

Definition count_node (counts : gmap string (nat * nat)) (n : HistoricalNode) : gmap string (nat * nat) :=
  let module := module_key (hn_path n) in
  let (nodes, edges) := default (0, 0)%nat (counts !! module) in
  <[module := (S nodes, edges)]> counts.

Definition count_edge (counts : gmap string (nat * nat)) (e : HistoricalEdge) : gmap string (nat * nat) :=
  let module := module_key (he_path e) in
  let (nodes, edges) := default (0, 0)%nat (counts !! module) in
  <[module := (nodes, S edges)]> counts.

Definition module_counts (s : HistoricalSnapshot) : gmap string (nat * nat) :=
  foldl count_edge (foldl count_node ∅ (hs_nodes s)) (hs_edges s).

Definition module_change (before after : gmap string (nat * nat)) (module : string) :
    option ModuleDiffEntry :=
  let b := default (0, 0)%nat (before !! module) in
  let a := default (0, 0)%nat (after !! module) in
  if decide (b = a) then None
  else Some (mk_module_diff module (fst b) (fst a) (snd b) (snd a)).

Definition sorted_keys {A} (m : gmap string A) : list string := map fst (entries String.compare m).

(** ** Dependencies between modules *)

Definition dep_cmp : string * string → string * string → comparison :=
  pair_cmp String.compare String.compare.

(** The module of a qualified name; an edge to a name without a node counts for the file of
    the edge. *)
Definition module_of (node_modules : gmap string string) (e : HistoricalEdge) (qn : string) : string :=
  default (module_key (he_path e)) (node_modules !! qn).

Definition count_dependency (node_modules : gmap string string)
    (deps : gmap (string * string) nat) (e : HistoricalEdge) : gmap (string * string) nat :=
  let source := module_of node_modules e (he_source e) in
  let target := module_of node_modules e (he_target e) in
  if String.eqb source target then deps
  else <[(source, target) := S (default 0%nat (deps !! (source, target)))]> deps.

Definition node_modules_of (s : HistoricalSnapshot) : gmap string string :=
  collect_map (map (λ n, (hn_qn n, module_key (hn_path n))) (hs_nodes s)).

Definition module_dependency_counts (s : HistoricalSnapshot) : gmap (string * string) nat :=
  foldl (count_dependency (node_modules_of s)) ∅ (hs_edges s).

Definition dep_keys (deps : gmap (string * string) nat) : list (string * string) :=
  map fst (entries dep_cmp deps).

(** Both ends of a dependency are nodes of the graph. *)
Definition add_dependency (graph : gmap string (list string)) (dep : string * string) :
    gmap string (list string) :=
  let (source, target) := dep in
  let graph := <[source := btree_set String.compare (target :: default [] (graph !! source))]> graph in
  match graph !! target with Some _ => graph | None => <[target := []]> graph end.

Definition adjacency_from_counts (deps : gmap (string * string) nat) : gmap string (list string) :=
  foldl add_dependency ∅ (dep_keys deps).

Definition add_degree (by_ : nat) (degrees : gmap string nat) (module : string) : gmap string nat :=
  <[module := (default 0 (degrees !! module) + by_)%nat]> degrees.

Definition count_degrees (degrees : gmap string nat) (entry : string * list string) : gmap string nat :=
  foldl (add_degree 1) (add_degree (length (snd entry)) degrees (fst entry)) (snd entry).

Definition module_degrees (graph : gmap string (list string)) : gmap string nat :=
  foldl count_degrees ∅ (entries String.compare graph).

Definition hub_change (before after : gmap string nat) (module : string) : option HubChange :=
  let b := default 0%nat (before !! module) in
  let a := default 0%nat (after !! module) in
  if decide (b = a) then None else Some (mk_hub_change module b a).

Definition coupling_change (before after : gmap (string * string) nat) (key : string * string) :
    option ModuleDependencyChange :=
  let b := default 0%nat (before !! key) in
  let a := default 0%nat (after !! key) in
  if decide (b = a) then None else Some (mk_dependency_change (fst key) (snd key) b a).

(** No result only when the search for cycles has none, which never happens. *)
Definition architecture_diff (before after : HistoricalSnapshot) : option ArchitectureDiff :=
  let deps_before := module_dependency_counts before in
  let deps_after := module_dependency_counts after in
  let keys_before := dep_keys deps_before in
  let keys_after := dep_keys deps_after in
  let graph_before := adjacency_from_counts deps_before in
  let graph_after := adjacency_from_counts deps_after in
  cycles_before ← History.strongly_connected_components graph_before true;
  cycles_after ← History.strongly_connected_components graph_after true;
  let cycles_before_set := btree_set History.names_cmp cycles_before in
  let cycles_after_set := btree_set History.names_cmp cycles_after in
  let hubs_before := module_degrees graph_before in
  let hubs_after := module_degrees graph_after in
  Some (mk_architecture
    (btree_difference keys_after keys_before)
    (btree_difference keys_before keys_after)
    (btree_difference cycles_after_set cycles_before_set)
    (btree_difference cycles_before_set cycles_after_set)
    (omap (hub_change hubs_before hubs_after)
       (btree_union String.compare (sorted_keys hubs_before) (sorted_keys hubs_after)))
    (omap (coupling_change deps_before deps_after)
       (btree_union dep_cmp keys_before keys_after))).

(** ** The difference of two snapshots *)

(** The rows of [m] whose keys the other map has not, and those of keys in both. *)
Definition only_in {K A} `{Countable K} (cmp : K → K → comparison) (m other : gmap K A) : list A :=
  map snd (filter (λ e, other !! fst e = None) (entries cmp m)).
Definition in_both {K A B} `{Countable K} (cmp : K → K → comparison) (f : K → A → A → option B)
    (before after : gmap K A) : list B :=
  omap (λ e, after_row ← after !! fst e; f (fst e) (snd e) after_row) (entries cmp before).

Definition NodeKey : Type := string * (string * string).
Definition EdgeKey : Type := string * (string * (string * string)).
Definition node_key (n : HistoricalNode) : NodeKey := (hn_qn n, (hn_path n, hn_kind n)).
Definition edge_key (e : HistoricalEdge) : EdgeKey :=
  (he_source e, (he_target e, (he_kind e, he_path e))).
Definition node_key_cmp : NodeKey → NodeKey → comparison :=
  pair_cmp String.compare (pair_cmp String.compare String.compare).
Definition edge_key_cmp : EdgeKey → EdgeKey → comparison :=
  pair_cmp String.compare (pair_cmp String.compare (pair_cmp String.compare String.compare)).

Definition files_of (s : HistoricalSnapshot) : gmap string StoredSnapshotFile :=
  collect_map (map (λ f, (sf_path f, f)) (hs_files s)).
Definition nodes_of (s : HistoricalSnapshot) : gmap NodeKey HistoricalNode :=
  collect_map (map (λ n, (node_key n, n)) (hs_nodes s)).
Definition edges_of (s : HistoricalSnapshot) : gmap EdgeKey HistoricalEdge :=
  collect_map (map (λ e, (edge_key e, e)) (hs_edges s)).

Definition file_change (path : string) (before after : StoredSnapshotFile) : option FileChange :=
  if bool_decide (sf_hash before = sf_hash after) &&
     bool_decide (sf_language before = sf_language after) &&
     bool_decide (sf_size before = sf_size after)
  then None
  else Some (mk_file_change path (Some (sf_hash before)) (Some (sf_hash after))
    (sf_language before) (sf_language after) (sf_size before) (sf_size after)).

Record GraphDiffSummary := mk_diff_summary {
  added_file_count : nat; removed_file_count : nat; modified_file_count : nat;
  renamed_file_count : nat; added_node_count : nat; removed_node_count : nat;
  changed_node_count : nat; added_edge_count : nat; removed_edge_count : nat;
  changed_edge_count : nat; module_change_count : nat; new_cycle_count : nat;
  broken_cycle_count : nat }.

Record GraphDiffReport := mk_report {
  gd_summary : GraphDiffSummary; gd_evidence : HistoryEvidence;
  commit_a : string; commit_b : string;
  snapshot_a : HistoricalSnapshot; snapshot_b : HistoricalSnapshot;
  added_files : list StoredSnapshotFile; removed_files : list StoredSnapshotFile;
  modified_files : list FileChange; renamed_files : list FileRename;
  added_nodes : list NodeDiffEntry; removed_nodes : list NodeDiffEntry;
  changed_nodes : list NodeDiffEntry;
  added_edges : list EdgeDiffEntry; removed_edges : list EdgeDiffEntry;
  changed_edges : list EdgeDiffEntry;
  module_changes : list ModuleDiffEntry; architecture : ArchitectureDiff }.

Section diff.
Context (hex_hash : string → string) (fixed6 : spec_float → string).
(** [git::diff_tree_files]: the old and new paths with the status, or an error. *)
Context (diff_tree_files : string → string → option (list (string * string * ascii))).

Definition some_changed {A} (fields : A → list string) (entry : A) : option A :=
  match fields entry with [] => None | _ => Some entry end.

Definition renames (commit_a commit_b : string) : list FileRename :=
  map (λ r, mk_rename (fst (fst r)) (snd (fst r)))
    (filter (λ r, snd r = "R"%char) (default [] (diff_tree_files commit_b commit_a))).

(** The part of [diff_snapshots] after the snapshots are read. *)
Definition diff_of (commit_a commit_b : string) (a b : HistoricalSnapshot) : option GraphDiffReport :=
  let files_a := files_of a in let files_b := files_of b in
  let nodes_a := nodes_of a in let nodes_b := nodes_of b in
  let edges_a := edges_of a in let edges_b := edges_of b in
  let added_files := only_in String.compare files_b files_a in
  let removed_files := only_in String.compare files_a files_b in
  let modified_files := in_both String.compare file_change files_a files_b in
  let renamed_files := renames commit_a commit_b in
  let added_nodes := map (node_added hex_hash) (only_in node_key_cmp nodes_b nodes_a) in
  let removed_nodes := map (node_removed hex_hash) (only_in node_key_cmp nodes_a nodes_b) in
  let changed_nodes :=
    in_both node_key_cmp (λ _ x y, some_changed nd_changed_fields (node_changed hex_hash x y))
      nodes_a nodes_b in
  let added_edges := map (edge_added hex_hash fixed6) (only_in edge_key_cmp edges_b edges_a) in
  let removed_edges := map (edge_removed hex_hash fixed6) (only_in edge_key_cmp edges_a edges_b) in
  let changed_edges :=
    in_both edge_key_cmp (λ _ x y, some_changed ed_changed_fields (edge_changed hex_hash fixed6 x y))
      edges_a edges_b in
  let module_changes :=
    omap (module_change (module_counts a) (module_counts b))
      (btree_union String.compare (sorted_keys (module_counts a)) (sorted_keys (module_counts b))) in
  architecture ← architecture_diff a b;
  let evidence := build_evidence
    [sm_snapshot_id (hs_summary a); sm_snapshot_id (hs_summary b)] [commit_a; commit_b]
    (map node_identifier_for (hs_nodes a) ++ map node_identifier_for (hs_nodes b))
    (map edge_identifier_for (hs_edges a) ++ map edge_identifier_for (hs_edges b))
    (map sf_path (hs_files a) ++ map sf_path (hs_files b)) in
  Some (mk_report
    (mk_diff_summary (length added_files) (length removed_files) (length modified_files)
       (length renamed_files) (length added_nodes) (length removed_nodes) (length changed_nodes)
       (length added_edges) (length removed_edges) (length changed_edges) (length module_changes)
       (length (new_cycles architecture)) (length (broken_cycles architecture)))
    evidence commit_a commit_b a b added_files removed_files modified_files renamed_files
    added_nodes removed_nodes changed_nodes added_edges removed_edges changed_edges
    module_changes architecture).

Definition diff_snapshots `{HistoryStore} (canonical_root commit_a commit_b : string) :
    result HistoryError (option GraphDiffReport) :=
  a <-? reconstruct_snapshot canonical_root commit_a;;
  b <-? reconstruct_snapshot canonical_root commit_b;;
  Ok (diff_of commit_a commit_b a b).
End diff.

(** ** Lemmas: rows and keys *)

Section rows.
Context {K A : Type} `{Countable K} (cmp : K → K → comparison) `{!StrictCmp cmp}.

Lemma only_in_elem (m other : gmap K A) x :
  x ∈ only_in cmp m other ↔ ∃ k, m !! k = Some x ∧ other !! k = None.
Proof.
  unfold only_in. rewrite list_elem_of_fmap. split.
  - intros ([k y] & -> & [Hn Hk]%list_elem_of_filter). apply (entries_elem cmp) in Hk. by exists k.
  - intros (k & Hk & Hn). exists (k, x). split; [done|]. apply list_elem_of_filter. split; [done|].
    by apply (entries_elem cmp).
Qed.

Lemma in_both_elem {B} (f : K → A → A → option B) (m m' : gmap K A) y :
  y ∈ in_both cmp f m m' ↔ ∃ k a a', m !! k = Some a ∧ m' !! k = Some a' ∧ f k a a' = Some y.
Proof.
  unfold in_both. rewrite list_elem_of_omap. split.
  - intros ([k a] & Hk & Hy). cbn in Hy. apply (entries_elem cmp) in Hk.
    destruct (m' !! k) as [a'|] eqn:E; [|done]. by exists k, a, a'.
  - intros (k & a & a' & Hk & Hk' & Hy). exists (k, a). split; [by apply (entries_elem cmp)|].
    cbn. by rewrite Hk'.
Qed.

(** The entries of the keys in both maps, in order. *)
Lemma in_both_keys {B} (f : K → A → A → option B) (m m' : gmap K A) :
  in_both cmp f m m' =
  omap (λ k, a ← m !! k; a' ← m' !! k; f k a a')
    (filter (λ k, is_Some (m' !! k)) (map fst (entries cmp m))).
Proof.
  unfold in_both.
  assert (∀ l, (∀ k a, (k, a) ∈ l → m !! k = Some a) →
    omap (λ e : K * A, after_row ← m' !! e.1; f e.1 e.2 after_row) l =
    omap (λ k, a ← m !! k; a' ← m' !! k; f k a a') (filter (λ k, is_Some (m' !! k)) (map fst l))) as Hl.
  { induction l as [|[k a] l IH]; intros Hin; [done|]. cbn [map fst]. rewrite filter_cons.
    pose proof (Hin k a (list_elem_of_here _ _)) as Hk.
    specialize (IH ltac:(intros; apply Hin; by right)).
    destruct (decide (is_Some (m' !! k))) as [[a' Ha']|Hn].
    - cbn [omap list_omap]. cbn [fst snd]. rewrite IH, Hk, Ha'. done.
    - cbn [omap list_omap]. cbn [fst snd]. apply eq_None_not_Some in Hn. by rewrite IH, Hn. }
  apply Hl. intros k a. apply (entries_elem cmp).
Qed.

Lemma in_both_swap {B} (f g : K → A → A → option B) (swap : B → B) (m m' : gmap K A) :
  (∀ k a a', m !! k = Some a → m' !! k = Some a' → g k a' a = swap <$> f k a a') →
  in_both cmp g m' m = map swap (in_both cmp f m m').
Proof.
  intros Hfg. rewrite !in_both_keys.
  assert (filter (λ k, is_Some (m !! k)) (map fst (entries cmp m')) =
          filter (λ k, is_Some (m' !! k)) (map fst (entries cmp m))) as ->.
  { apply (increasing_ext cmp).
    - apply (increasing_filter cmp), entries_keys_increasing; apply _.
    - apply (increasing_filter cmp), entries_keys_increasing; apply _.
    - intros k. rewrite !list_elem_of_filter, !(entries_key_elem cmp). tauto. }
  induction (filter _ _) as [|k l IH]; [done|]. cbn. destruct (m !! k) as [a|] eqn:E; cbn.
  - destruct (m' !! k) as [a'|] eqn:E'; cbn; [|done]. rewrite (Hfg k a a' E E').
    destruct (f k a a'); cbn; by rewrite IH.
  - by destruct (m' !! k).
Qed.

Lemma in_both_self {B} (f : K → A → A → option B) (m : gmap K A) :
  (∀ k a, m !! k = Some a → f k a a = None) → in_both cmp f m m = [].
Proof.
  intros Hf. apply elem_of_nil_inv. intros y (k & a & a' & Ha & Ha' & Hy)%in_both_elem.
  simplify_eq. by rewrite (Hf k a) in Hy.
Qed.

Lemma only_in_self (m : gmap K A) : only_in cmp m m = [].
Proof.
  apply elem_of_nil_inv. intros x (k & Hk & Hn)%only_in_elem. congruence.
Qed.
End rows.

Lemma collect_key {K A} `{Countable K} (key : A → K) (l : list A) k x :
  collect_map (map (λ x, (key x, x)) l) !! k = Some x → key x = k ∧ x ∈ l.
Proof.
  intros (y & [= -> ->] & Hy)%collect_map_elem%list_elem_of_fmap. done.
Qed.

(** ** Replaying the difference of files *)

(** What a snapshot says about a file. *)
Definition file_state (f : StoredSnapshotFile) : string * option string * option Z :=
  (sf_hash f, sf_language f, sf_size f).

Definition change_state (c : FileChange) : string * option string * option Z :=
  (default "" (new_hash c), new_language c, new_size c).

Definition replay_files (r : GraphDiffReport) (states : gmap string (string * option string * option Z)) :
    gmap string (string * option string * option Z) :=
  list_to_map (map (λ c, (fc_path c, change_state c)) (modified_files r)) ∪
  list_to_map (map (λ f, (sf_path f, file_state f)) (added_files r)) ∪
  filter (λ e, fst e ∉ map sf_path (removed_files r)) states.

Lemma lookup_list_to_map_key {K A B} `{Countable K} (key : A → K) (val : A → B) (l : list A) k v :
  (∀ x y, x ∈ l → y ∈ l → key x = key y → val x = val y) →
  (list_to_map (map (λ x, (key x, val x)) l) : gmap K B) !! k = Some v ↔
  ∃ x, x ∈ l ∧ key x = k ∧ val x = v.
Proof.
  intros Hinj. induction l as [|x l IH]; cbn.
  { split; [done|]. intros (x & ?%elem_of_nil & _). done. }
  destruct (decide (key x = k)) as [<-|Hne].
  - rewrite lookup_insert_eq. split.
    + intros [= <-]. exists x. split_and!; [apply list_elem_of_here|done|done].
    + intros (y & Hy & Hk & <-). f_equal. apply Hinj; [apply list_elem_of_here|done|done].
  - rewrite lookup_insert_ne by done. rewrite IH by (intros; apply Hinj; [by right..|done]). split.
    + intros (y & ? & ? & ?). exists y. split_and!; [by right|done|done].
    + intros (y & [->|Hy]%elem_of_cons & ? & ?); [done|]. by exists y.
Qed.

Lemma file_change_None path before after :
  file_change path before after = None ↔ file_state before = file_state after.
Proof.
  unfold file_change, file_state. repeat case_bool_decide; cbn; split; congruence.
Qed.

Lemma file_change_Some path before after c :
  file_change path before after = Some c → fc_path c = path ∧ change_state c = file_state after.
Proof.
  unfold file_change. destruct (_ && _); [done|]. by intros [= <-].
Qed.

Lemma files_replayed hex_hash fixed6 diff_tree commit_a commit_b a b r :
  diff_of hex_hash fixed6 diff_tree commit_a commit_b a b = Some r →
  replay_files r (file_state <$> files_of a) = file_state <$> files_of b.
Proof.
  unfold diff_of. destruct (architecture_diff a b) as [arch|]; [|done]. cbn [mbind option_bind].
  intros [= <-]. unfold replay_files. cbn [modified_files added_files removed_files].
  assert (∀ k f, files_of a !! k = Some f → sf_path f = k) as Ha by (intros k f Hk; by apply collect_key in Hk as [??]).
  assert (∀ k f, files_of b !! k = Some f → sf_path f = k) as Hb by (intros k f Hk; by apply collect_key in Hk as [??]).
  generalize dependent (files_of a). generalize dependent (files_of b). intros mb Hb ma Ha.
  assert (∀ k v, (list_to_map (map (λ c, (fc_path c, change_state c))
      (in_both String.compare file_change ma mb)) : gmap string _) !! k = Some v ↔
      ∃ f g, ma !! k = Some f ∧ mb !! k = Some g ∧ file_state f ≠ file_state g ∧ v = file_state g) as Hm.
  { intros k v. rewrite lookup_list_to_map_key.
    - setoid_rewrite (in_both_elem String.compare). split.
      + intros (c & (k' & f & g & Hf & Hg & Hc) & <- & <-).
        pose proof (file_change_Some _ _ _ _ Hc) as [-> ->]. exists f, g. split_and!; try done.
        intros Heq%(file_change_None k'). congruence.
      + intros (f & g & Hf & Hg & Hne & ->). destruct (file_change k f g) as [c|] eqn:Hc.
        * pose proof (file_change_Some _ _ _ _ Hc) as [Hp Hs]. exists c. split_and!; [|done|done].
          by exists k, f, g.
        * by apply file_change_None in Hc.
    - intros x y (k1 & f1 & g1 & _ & Hg1 & H1)%(in_both_elem String.compare)
        (k2 & f2 & g2 & _ & Hg2 & H2)%(in_both_elem String.compare).
      apply file_change_Some in H1 as [-> ->], H2 as [-> ->]. intros ->. congruence. }
  assert (∀ k v, (list_to_map (map (λ f, (sf_path f, file_state f))
      (only_in String.compare mb ma)) : gmap string _) !! k = Some v ↔
      ∃ g, mb !! k = Some g ∧ ma !! k = None ∧ v = file_state g) as Hadd.
  { intros k v. rewrite lookup_list_to_map_key.
    - setoid_rewrite (only_in_elem String.compare). split.
      + intros (g & (k' & Hg & Hn) & Hp & <-). assert (k = k') as -> by (rewrite <-Hp; by apply Hb).
        by exists g.
      + intros (g & Hg & Hn & ->). exists g. split_and!; [by exists k|by apply Hb|done].
    - intros x y (k1 & H1 & _)%(only_in_elem String.compare) (k2 & H2 & _)%(only_in_elem String.compare).
      rewrite (Hb _ _ H1), (Hb _ _ H2). intros ->. congruence. }
  apply map_eq. intros k. rewrite !lookup_union, lookup_fmap.
  assert (k ∉ map sf_path (only_in String.compare ma mb) ∨ mb !! k = None) as Hr.
  { destruct (mb !! k) as [g|] eqn:E; [left|by right].
    intros (f & -> & (k' & Hf & Hn)%(only_in_elem String.compare))%list_elem_of_fmap.
    rewrite (Ha _ _ Hf) in E. congruence. }
  destruct (list_to_map (map (λ c, (fc_path c, change_state c)) _) !! k) as [v|] eqn:Em.
  { apply Hm in Em as (f & g & _ & Hg & _ & ->). rewrite Hg. by destruct (list_to_map _ !! k), (filter _ _ !! k). }
  destruct (list_to_map (map (λ f, (sf_path f, file_state f)) _) !! k) as [v|] eqn:Ed.
  { apply Hadd in Ed as (g & -> & _ & ->). by destruct (filter _ _ !! k). }
  rewrite !(left_id_L None (∪)). destruct (mb !! k) as [g|] eqn:Eg.
  - destruct Hr as [Hr|?]; [|done]. destruct (ma !! k) as [f|] eqn:Ef.
    + rewrite (map_lookup_filter_Some_2 _ _ k (file_state f)); [|by rewrite lookup_fmap, Ef|done].
      cbn. f_equal. destruct (decide (file_state f = file_state g)) as [|Hne]; [done|].
      assert (None = Some (file_state g)) as [=]. rewrite <-Em. apply Hm. by exists f, g.
    + assert (None = Some (file_state g)) as [=]. rewrite <-Ed. apply Hadd. by exists g.
  - apply map_lookup_filter_None. destruct (ma !! k) as [f|] eqn:Ef.
    + right. intros x _. cbn. intros Hn. apply Hn. apply list_elem_of_fmap. exists f.
      split; [symmetry; by apply Ha|]. apply (only_in_elem String.compare). by exists k.
    + left. by rewrite lookup_fmap, Ef.
Qed.

(** ** Lemmas: cycles *)

#[export] Instance names_cmp_strict : StrictCmp History.names_cmp.
Proof.
  split; [apply _|]. induction x as [|x l IH]; intros [|y r]; cbn; try done.
  unfold then_with. destruct (String.compare x y) eqn:E; [|done|done].
  intros H%IH. by rewrite (cmp_eq String.compare x y E), H.
Qed.

Definition module_graph (s : HistoricalSnapshot) : gmap string (list string) :=
  adjacency_from_counts (module_dependency_counts s).

(** The cycles of modules: components of more than one module. *)
Definition module_cycle (s : HistoricalSnapshot) (c : list string) : Prop :=
  component (module_graph s) c ∧
  ((1 < length c)%nat ∨ ∃ n, c = [n] ∧ edge (module_graph s) n n).

Lemma cycles_of s : ∃ cycles,
  History.strongly_connected_components (module_graph s) true = Some cycles ∧
  ∀ c, c ∈ btree_set History.names_cmp cycles ↔ module_cycle s c.
Proof.
  destruct (history_cycles_exact (module_graph s) true) as (cycles & Hc & _ & _ & Hin).
  exists cycles. split; [done|]. intros c. rewrite (btree_set_elem History.names_cmp), Hin.
  unfold module_cycle. naive_solver.
Qed.

Lemma architecture_diff_total a b : ∃ d, architecture_diff a b = Some d ∧
  (∀ c, c ∈ new_cycles d ↔ module_cycle b c ∧ ¬ module_cycle a c) ∧
  (∀ c, c ∈ broken_cycles d ↔ module_cycle a c ∧ ¬ module_cycle b c).
Proof.
  destruct (cycles_of a) as (ca & Ha & Hia), (cycles_of b) as (cb & Hb & Hib).
  unfold architecture_diff. fold (module_graph a) (module_graph b). rewrite Ha, Hb.
  cbn [mbind option_bind]. eexists. split; [done|]. cbn [new_cycles broken_cycles].
  unfold btree_difference. split; intros c; rewrite list_elem_of_filter, Hia, Hib; tauto.
Qed.

(** ** Lemmas: the difference is total *)

Lemma diff_of_total hex_hash fixed6 diff_tree commit_a commit_b a b :
  ∃ r, diff_of hex_hash fixed6 diff_tree commit_a commit_b a b = Some r ∧
       architecture_diff a b = Some (architecture r).
Proof.
  unfold diff_of. destruct (architecture_diff_total a b) as (d & -> & _).
  cbn [mbind option_bind]. eexists. split; reflexivity.
Qed.

(** ** Seen from the other side *)

Definition swap_word (w : string) : string :=
  if String.eqb w "added" then "removed" else if String.eqb w "removed" then "added" else w.

Definition swap_file (c : FileChange) : FileChange :=
  mk_file_change (fc_path c) (new_hash c) (old_hash c) (new_language c) (old_language c)
    (new_size c) (old_size c).

Definition swap_node (d : NodeDiffEntry) : NodeDiffEntry :=
  mk_node_diff (nd_qn d) (nd_path d) (nd_kind d) (line_start_after d) (line_end_after d)
    (line_start_before d) (line_end_before d) (signature_hash_after d) (signature_hash_before d)
    (modifiers_after d) (modifiers_before d) (is_test_after d) (is_test_before d)
    (extra_hash_after d) (extra_hash_before d) (map swap_word (nd_changed_fields d)).

Definition swap_edge (d : EdgeDiffEntry) : EdgeDiffEntry :=
  mk_edge_diff (ed_source d) (ed_target d) (ed_kind d) (ed_path d) (tier_after d) (tier_before d)
    (metadata_hash_after d) (metadata_hash_before d) (map swap_word (ed_changed_fields d)).

Definition swap_module (d : ModuleDiffEntry) : ModuleDiffEntry :=
  mk_module_diff (md_module d) (node_count_after d) (node_count_before d) (edge_count_after d)
    (edge_count_before d).

Definition swap_hub (c : HubChange) : HubChange :=
  mk_hub_change (hc_module c) (degree_after c) (degree_before c).

Definition swap_coupling (c : ModuleDependencyChange) : ModuleDependencyChange :=
  mk_dependency_change (source_module c) (target_module c) (count_after c) (count_before c).

Definition swap_architecture (d : ArchitectureDiff) : ArchitectureDiff :=
  mk_architecture (removed_dependency_paths d) (new_dependency_paths d) (broken_cycles d)
    (new_cycles d) (map swap_hub (changed_central_hubs d)) (map swap_coupling (changed_coupling d)).

Lemma ne_sym {A} `{EqDecision A} (x y : A) : bool_decide (x ≠ y) = bool_decide (y ≠ x).
Proof. apply bool_decide_ext. naive_solver. Qed.

Lemma omap_swap {A B} (f g : A → option B) (swap : B → B) l :
  (∀ x, g x = swap <$> f x) → omap g l = map swap (omap f l).
Proof.
  intros H. induction l as [|x l IH]; [done|]. cbn. rewrite H.
  destruct (f x); cbn; by rewrite IH.
Qed.

Lemma btree_union_comm {A} `{EqDecision A} (cmp : A → A → comparison) `{!StrictCmp cmp} l1 l2 :
  btree_union cmp l1 l2 = btree_union cmp l2 l1.
Proof.
  apply (increasing_ext cmp); [apply (btree_set_increasing cmp)..|]. intros x.
  unfold btree_union. rewrite !(btree_set_elem cmp), !elem_of_app. tauto.
Qed.

Lemma file_change_swap path x y : file_change path y x = swap_file <$> file_change path x y.
Proof.
  unfold file_change.
  rewrite (bool_decide_ext (sf_hash y = sf_hash x) (sf_hash x = sf_hash y)) by naive_solver.
  rewrite (bool_decide_ext (sf_language y = sf_language x) (sf_language x = sf_language y)) by naive_solver.
  rewrite (bool_decide_ext (sf_size y = sf_size x) (sf_size x = sf_size y)) by naive_solver.
  by destruct (_ && _).
Qed.

Lemma field_if_swap b w : swap_word w = w → map swap_word (field_if b w) = field_if b w.
Proof. intros H. unfold field_if. destruct b; cbn; by rewrite ?H. Qed.

Lemma node_changed_swap hex_hash x y :
  node_key x = node_key y → node_changed hex_hash y x = swap_node (node_changed hex_hash x y).
Proof.
  intros [= Hq Hp Hk]. unfold node_changed, swap_node. cbn. rewrite Hq, Hp, Hk.
  rewrite (ne_sym (hn_line_start y)), (ne_sym (hn_line_end y)), (ne_sym (node_signature_hash hex_hash y)),
    (ne_sym (hn_modifiers y)), (ne_sym (hn_is_test y)), (ne_sym (stable_hash hex_hash (hn_extra_json y))).
  f_equal. rewrite !map_app. by rewrite !field_if_swap.
Qed.

Lemma edge_changed_swap hex_hash fixed6 x y :
  edge_key x = edge_key y →
  edge_changed hex_hash fixed6 y x = swap_edge (edge_changed hex_hash fixed6 x y).
Proof.
  intros [= Hs Ht Hk Hp]. unfold edge_changed, swap_edge. cbn. rewrite Hs, Ht, Hk, Hp.
  rewrite (ne_sym (he_tier y)), (ne_sym (edge_metadata_hash hex_hash fixed6 y)).
  f_equal. rewrite map_app. by rewrite !field_if_swap.
Qed.

Lemma some_changed_swap {A} (fields : A → list string) (swap : A → A) e :
  fields (swap e) = map swap_word (fields e) → some_changed fields (swap e) = swap <$> some_changed fields e.
Proof. intros H. unfold some_changed. rewrite H. by destruct (fields e). Qed.

Lemma module_change_swap m m' k : module_change m' m k = swap_module <$> module_change m m' k.
Proof. unfold module_change. repeat destruct (decide _); congruence || done. Qed.

Lemma hub_change_swap m m' k : hub_change m' m k = swap_hub <$> hub_change m m' k.
Proof. unfold hub_change. repeat destruct (decide _); congruence || done. Qed.

Lemma coupling_change_swap m m' k : coupling_change m' m k = swap_coupling <$> coupling_change m m' k.
Proof. unfold coupling_change. repeat destruct (decide _); congruence || done. Qed.

Lemma architecture_swap a b :
  architecture_diff b a = swap_architecture <$> architecture_diff a b.
Proof.
  unfold architecture_diff.
  destruct (History.strongly_connected_components (adjacency_from_counts (module_dependency_counts a)) true);
    destruct (History.strongly_connected_components (adjacency_from_counts (module_dependency_counts b)) true);
    cbn [mbind option_bind]; [|done..].
  cbn [fmap option_fmap option_map]. unfold swap_architecture. cbn. f_equal. f_equal.
  - rewrite (btree_union_comm String.compare). apply omap_swap. intros k. apply hub_change_swap.
  - rewrite (btree_union_comm dep_cmp). apply omap_swap. intros k. apply coupling_change_swap.
Qed.

Lemma nodes_of_key s k n : nodes_of s !! k = Some n → node_key n = k.
Proof. by intros [? _]%collect_key. Qed.
Lemma edges_of_key s k e : edges_of s !! k = Some e → edge_key e = k.
Proof. by intros [? _]%collect_key. Qed.

(** Comparing two snapshots the other way round gives the same report seen from the other
    side: what was added is removed and what was removed is added, and every changed file,
    node, edge, module, hub and coupling has its two sides exchanged, in the same order. *)
Theorem diff_swapped hex_hash fixed6 diff_tree commit_a commit_b a b :
  ∃ r r', diff_of hex_hash fixed6 diff_tree commit_a commit_b a b = Some r ∧
    diff_of hex_hash fixed6 diff_tree commit_b commit_a b a = Some r' ∧
    added_files r' = removed_files r ∧ removed_files r' = added_files r ∧
    modified_files r' = map swap_file (modified_files r) ∧
    added_nodes r' = map swap_node (removed_nodes r) ∧
    removed_nodes r' = map swap_node (added_nodes r) ∧
    changed_nodes r' = map swap_node (changed_nodes r) ∧
    added_edges r' = map swap_edge (removed_edges r) ∧
    removed_edges r' = map swap_edge (added_edges r) ∧
    changed_edges r' = map swap_edge (changed_edges r) ∧
    module_changes r' = map swap_module (module_changes r) ∧
    architecture r' = swap_architecture (architecture r).
Proof.
  unfold diff_of. rewrite (architecture_swap a b). destruct (architecture_diff_total a b) as (d & -> & _).
  cbn [mbind option_bind fmap option_fmap option_map]. eexists _, _. split; [done|]. split; [done|].
  cbn [added_files removed_files modified_files added_nodes removed_nodes changed_nodes added_edges
    removed_edges changed_edges module_changes architecture].
  split_and!; try done.
  - apply (in_both_swap String.compare). intros k x y _ _. apply file_change_swap.
  - by rewrite map_map.
  - by rewrite map_map.
  - apply (in_both_swap node_key_cmp). intros k x y Hx%nodes_of_key Hy%nodes_of_key.
    rewrite node_changed_swap by congruence. by apply some_changed_swap.
  - by rewrite map_map.
  - by rewrite map_map.
  - apply (in_both_swap edge_key_cmp). intros k x y Hx%edges_of_key Hy%edges_of_key.
    rewrite edge_changed_swap by congruence. by apply some_changed_swap.
  - rewrite (btree_union_comm String.compare). apply omap_swap. intros k. apply module_change_swap.
Qed.

(** C11. The difference of the files is complete: applied to what the old snapshot says about
    its files (removed ones dropped, added and modified ones written) it gives exactly what
    the new snapshot says, for every path. *)
Theorem file_diff_replays hex_hash fixed6 diff_tree commit_a commit_b a b :
  ∃ r, diff_of hex_hash fixed6 diff_tree commit_a commit_b a b = Some r ∧
    replay_files r (file_state <$> files_of a) = file_state <$> files_of b.
Proof.
  destruct (diff_of_total hex_hash fixed6 diff_tree commit_a commit_b a b) as (r & Hr & _).
  exists r. split; [done|]. by eapply files_replayed.
Qed.

(** ** Dependencies *)

(** The modules an edge joins. *)
Definition edge_modules (s : HistoricalSnapshot) (e : HistoricalEdge) : string * string :=
  (module_of (node_modules_of s) e (he_source e), module_of (node_modules_of s) e (he_target e)).

(** The edges of a snapshot from a module to another one. *)
Definition crossings (s : HistoricalSnapshot) (p : string * string) : list HistoricalEdge :=
  filter (λ e, edge_modules s e = p ∧ fst p ≠ snd p) (hs_edges s).

Lemma dependency_counts_lookup s p :
  module_dependency_counts s !! p =
  match length (crossings s p) with O => None | n => Some n end.
Proof.
  unfold module_dependency_counts, crossings. induction (hs_edges s) as [|e l IH] using rev_ind.
  { cbn. apply lookup_empty. }
  rewrite foldl_app, filter_app, length_app. cbn [foldl]. unfold count_dependency at 1.
  rewrite filter_cons, filter_nil.
  destruct (String.eqb_spec (module_of (node_modules_of s) e (he_source e))
    (module_of (node_modules_of s) e (he_target e))) as [Heq|Hne].
  - rewrite decide_False by (intros [<- Hn]; by apply Hn). by rewrite IH, Nat.add_0_r.
  - destruct (decide (edge_modules s e = p)) as [<-|Hp].
    + rewrite decide_True by done. unfold edge_modules at 1.
      rewrite lookup_insert_eq. fold (edge_modules s e). rewrite IH, Nat.add_1_r.
      by destruct (length _).
    + rewrite decide_False by tauto. rewrite lookup_insert_ne by done.
      by rewrite IH, Nat.add_0_r.
Qed.

Lemma dependency_count s p :
  default 0%nat (module_dependency_counts s !! p) = length (crossings s p).
Proof. rewrite dependency_counts_lookup. by destruct (length _). Qed.

Lemma dependency_key s p : p ∈ dep_keys (module_dependency_counts s) ↔ crossings s p ≠ [].
Proof.
  unfold dep_keys. rewrite (entries_key_elem dep_cmp), dependency_counts_lookup.
  destruct (crossings s p); cbn; [|by eauto]. split; [by intros [? ?]|done].
Qed.

Lemma add_dependency_edge graph dep x y :
  edge (add_dependency graph dep) x y ↔ edge graph x y ∨ (x, y) = dep.
Proof.
  destruct dep as [source target]. unfold edge, neighbors, add_dependency.
  set (g := <[source := _]> graph).
  assert (y ∈ default [] (g !! x) ↔ y ∈ default [] (graph !! x) ∨ (x, y) = (source, target)) as Hg.
  { unfold g. destruct (decide (source = x)) as [<-|Hne].
    - rewrite lookup_insert_eq. cbn. rewrite (btree_set_elem String.compare), elem_of_cons. naive_solver.
    - rewrite lookup_insert_ne by done. naive_solver. }
  rewrite <-Hg. destruct (g !! target) eqn:E; [done|].
  destruct (decide (target = x)) as [<-|Hne].
  - rewrite lookup_insert_eq, E. done.
  - by rewrite lookup_insert_ne.
Qed.

Lemma adjacency_edge deps x y :
  edge (adjacency_from_counts deps) x y ↔ (x, y) ∈ dep_keys deps.
Proof.
  unfold adjacency_from_counts. induction (dep_keys deps) as [|d l IH] using rev_ind.
  { cbn. unfold edge, neighbors. rewrite lookup_empty. cbn. split; by intros ?%elem_of_nil. }
  rewrite foldl_app. cbn [foldl]. rewrite add_dependency_edge, IH.
  by rewrite elem_of_app, list_elem_of_singleton.
Qed.

Lemma coupling_change_elem before after key c :
  coupling_change before after key = Some c ↔
  (source_module c, target_module c) = key ∧ count_before c = default 0%nat (before !! key) ∧
  count_after c = default 0%nat (after !! key) ∧ count_before c ≠ count_after c.
Proof.
  unfold coupling_change. destruct (decide _) as [Heq|Hne]; split.
  - done.
  - intros (_ & H1 & H2 & H3). congruence.
  - intros [= <-]. cbn. by destruct key.
  - destruct c. cbn. intros (<- & -> & -> & _). done.
Qed.

(** C37. The architectural difference is exact. A dependency between two modules is new exactly
    when some edge of the new snapshot joins them and none of the old one does, and removed in
    the opposite case; a change of coupling is reported exactly when the numbers of joining
    edges differ, with these numbers; and a cycle is new exactly when it is a cycle of the new
    graph of modules and not of the old one. *)
Theorem architecture_exact a b :
  ∃ d, architecture_diff a b = Some d ∧
    increasing dep_cmp (new_dependency_paths d) ∧
    (∀ p, p ∈ new_dependency_paths d ↔ crossings b p ≠ [] ∧ crossings a p = []) ∧
    (∀ p, p ∈ removed_dependency_paths d ↔ crossings a p ≠ [] ∧ crossings b p = []) ∧
    (∀ c, c ∈ changed_coupling d ↔
       let p := (source_module c, target_module c) in
       count_before c = length (crossings a p) ∧ count_after c = length (crossings b p) ∧
       count_before c ≠ count_after c) ∧
    (∀ s x y, edge (module_graph s) x y ↔ crossings s (x, y) ≠ []) ∧
    (∀ c, c ∈ new_cycles d ↔ module_cycle b c ∧ ¬ module_cycle a c) ∧
    (∀ c, c ∈ broken_cycles d ↔ module_cycle a c ∧ ¬ module_cycle b c).
Proof.
  destruct (architecture_diff_total a b) as (d & Hd & Hn & Hb). exists d. split; [done|].
  assert (new_dependency_paths d = btree_difference (dep_keys (module_dependency_counts b))
            (dep_keys (module_dependency_counts a)) ∧
          removed_dependency_paths d = btree_difference (dep_keys (module_dependency_counts a))
            (dep_keys (module_dependency_counts b)) ∧
          changed_coupling d = omap (coupling_change (module_dependency_counts a) (module_dependency_counts b))
            (btree_union dep_cmp (dep_keys (module_dependency_counts a)) (dep_keys (module_dependency_counts b))))
    as (-> & -> & ->).
  { revert Hd. unfold architecture_diff. fold (module_graph a) (module_graph b).
    destruct (History.strongly_connected_components (module_graph a) _); cbn [mbind option_bind]; [|done].
    destruct (History.strongly_connected_components (module_graph b) _); cbn [mbind option_bind]; [|done].
    by intros [= <-]. }
  assert (∀ s p, p ∉ dep_keys (module_dependency_counts s) ↔ crossings s p = []) as Hnk.
  { intros s p. rewrite dependency_key. destruct (crossings s p); naive_solver. }
  split_and!.
  - unfold btree_difference. apply (increasing_filter dep_cmp), (entries_keys_increasing dep_cmp).
  - intros p. unfold btree_difference. rewrite list_elem_of_filter, Hnk, dependency_key. tauto.
  - intros p. unfold btree_difference. rewrite list_elem_of_filter, Hnk, dependency_key. tauto.
  - intros c. cbn zeta. rewrite list_elem_of_omap. setoid_rewrite coupling_change_elem.
    setoid_rewrite dependency_count. split.
    + intros (p & _ & <- & H). exact H.
    + intros (H1 & H2 & H3). exists (source_module c, target_module c). split_and!; try done.
      unfold btree_union. rewrite (btree_set_elem dep_cmp), elem_of_app, !dependency_key.
      destruct (crossings a _); [right|by left]. destruct (crossings b _); [|done]. cbn in *. lia.
  - intros s x y. unfold module_graph. by rewrite adjacency_edge, dependency_key.
  - done.
  - done.
Qed.

(** ** Nodes *)

(** The texts that are hashed into the signature of a node. *)
Definition signature (n : HistoricalNode) : option (string * string * string) :=
  match hn_params n, hn_return_type n, hn_modifiers n with
  | None, None, None => None
  | p, r, m => Some (default "" p, default "" r, default "" m)
  end.

(** What the comparison of two nodes looks at. *)
Definition node_view (n : HistoricalNode) :=
  (hn_line_start n, hn_line_end n, signature n, hn_modifiers n, hn_is_test n, hn_extra_json n).

Definition separated (n : HistoricalNode) : bool :=
  let ok o := no_char (chr 31) (default "" o) in
  ok (hn_params n) && ok (hn_return_type n) && ok (hn_modifiers n).

Lemma signature_hash_inj hex_hash x y :
  Inj (=) (=) hex_hash → separated x = true → separated y = true →
  node_signature_hash hex_hash x = node_signature_hash hex_hash y ↔ signature x = signature y.
Proof.
  intros Hinj Hx Hy. unfold separated in *. split_bools.
  assert (∀ p r m p' r' m' : string,
    no_char (chr 31) p = true → no_char (chr 31) r = true → no_char (chr 31) p' = true →
    no_char (chr 31) r' = true →
    p +:+ unit_separator +:+ r +:+ unit_separator +:+ m =
    p' +:+ unit_separator +:+ r' +:+ unit_separator +:+ m' → (p, r, m) = (p', r', m')) as Hsep.
  { intros p r m p' r' m' Hp Hr Hp' Hr' Heq.
    change (p +:+ String (chr 31) (r +:+ String (chr 31) m) =
            p' +:+ String (chr 31) (r' +:+ String (chr 31) m')) in Heq.
    apply split_inj in Heq as [-> Heq]; [|done|done].
    apply split_inj in Heq as [-> ->]; done. }
  unfold node_signature_hash, signature.
  destruct (hn_params x), (hn_return_type x), (hn_modifiers x),
    (hn_params y), (hn_return_type y), (hn_modifiers y); split; try done;
    try (intros [= Heq%Hinj]; apply Hsep in Heq; [cbn in *; congruence|done..]);
    intros ?; simplify_eq/=; done.
Qed.

(** A node that both snapshots have is reported as changed exactly when something the
    comparison looks at is different: its lines, parameters, return type or modifiers, its
    being a test, or its extra data (the hash is taken to have no collisions). *)
Theorem changed_nodes_exact hex_hash fixed6 diff_tree commit_a commit_b a b :
  Inj (=) (=) hex_hash →
  Forall (λ n, separated n = true) (hs_nodes a ++ hs_nodes b) →
  ∃ r, diff_of hex_hash fixed6 diff_tree commit_a commit_b a b = Some r ∧
    ∀ k x y, nodes_of a !! k = Some x → nodes_of b !! k = Some y →
      (node_changed hex_hash x y ∈ changed_nodes r ↔ node_view x ≠ node_view y).
Proof.
  intros Hinj Hsep. rewrite Forall_forall in Hsep. unfold diff_of.
  destruct (architecture_diff_total a b) as (d & -> & _). cbn [mbind option_bind].
  eexists. split; [done|]. cbn [changed_nodes]. intros k x y Hx Hy.
  assert (separated x = true ∧ separated y = true) as [Hsx Hsy].
  { apply collect_key in Hx as [_ Hx], Hy as [_ Hy]. split; apply Hsep; set_solver. }
  assert (nd_changed_fields (node_changed hex_hash x y) = [] ↔ node_view x = node_view y) as Hview.
  { unfold node_changed, node_view, stable_hash. cbn.
    assert (hex_hash <$> hn_extra_json x = hex_hash <$> hn_extra_json y ↔
            hn_extra_json x = hn_extra_json y) as Hex.
    { destruct (hn_extra_json x), (hn_extra_json y); cbn; naive_solver. }
    pose proof (signature_hash_inj hex_hash x y Hinj Hsx Hsy) as Hsig.
    unfold field_if. split.
    - intros H. repeat case_bool_decide; try done; cbn in H; try discriminate.
      destruct (decide (hn_line_start x = hn_line_start y)); [|tauto].
      repeat match goal with H : ¬ (_ ≠ _) |- _ => apply dec_stable in H end.
      rewrite Hsig, Hex in *. congruence.
    - intros [= H1 H2 H3 H4 H5 H6]. apply Hsig in H3. apply Hex in H6.
      by rewrite !bool_decide_eq_false_2 by (rewrite ?H1, ?H2, ?H3, ?H4, ?H5, ?H6; tauto). }
  rewrite <-Hview. rewrite (in_both_elem node_key_cmp). unfold some_changed. split.
  - intros (k' & x' & y' & Hx' & Hy' & Heq). destruct (nd_changed_fields (node_changed hex_hash x' y')) eqn:E;
      [done|]. apply Some_inj in Heq. rewrite <-Heq, E. done.
  - intros Hne. exists k, x, y. split_and!; [done|done|].
    by destruct (nd_changed_fields (node_changed hex_hash x y)).
Qed.

(** ** Reading snapshots *)

Lemma mismatch_nil what expected actual : mismatch what expected actual = [] ↔ expected = Z.of_nat actual.
Proof. unfold mismatch. destruct (Z.eqb_spec expected (Z.of_nat actual)); naive_solver. Qed.

Lemma validate_ok s files nodes edges :
  validate_snapshot_materialization s files nodes edges = Ok tt ↔
  st_file_count s = Z.of_nat (length files) ∧ st_node_count s = Z.of_nat (length nodes) ∧
  st_edge_count s = Z.of_nat (length edges).
Proof.
  unfold validate_snapshot_materialization. rewrite <-!(mismatch_nil "").
  unfold mismatch. repeat destruct (_ =? _)%Z; cbn; naive_solver.
Qed.

(** A snapshot is read back exactly when it is recorded, its rows can be read, and there are
    as many files, nodes and edges as were counted when it was written; it then holds these
    rows. Missing rows are an error, never a smaller snapshot. *)
Theorem reconstruct_checked `{HistoryStore} root sha s :
  reconstruct_snapshot root sha = Ok s ↔
  ∃ repo row files nodes edges,
    find_repo_id root = Ok (Some repo) ∧ find_snapshot repo sha = Ok (Some row) ∧
    list_snapshot_files (st_snapshot_id row) = Ok files ∧
    reconstruct_snapshot_nodes (st_snapshot_id row) = Ok nodes ∧
    reconstruct_snapshot_edges (st_snapshot_id row) = Ok edges ∧
    st_file_count row = Z.of_nat (length files) ∧ st_node_count row = Z.of_nat (length nodes) ∧
    st_edge_count row = Z.of_nat (length edges) ∧
    s = mk_snapshot
      (mk_summary (st_snapshot_id row) (st_commit_sha row) (st_node_count row) (st_edge_count row)
         (st_file_count row) (st_completeness row) (st_parse_error_count row))
      (build_evidence [st_snapshot_id row] [st_commit_sha row] (map node_identifier_for nodes)
         (map edge_identifier_for edges) (map sf_path files))
      (st_repo_id row) (st_commit_sha row) (st_root_tree_hash row) (st_node_count row)
      (st_edge_count row) (st_file_count row) (st_completeness row) (st_parse_error_count row)
      files nodes edges.
Proof.
  unfold reconstruct_snapshot. split.
  - destruct (find_repo_id root) as [[repo|]|] eqn:E1; cbn [lift_store res_bind]; [|done..].
    destruct (find_snapshot repo sha) as [[row|]|] eqn:E2; cbn [lift_store res_bind]; [|done..].
    unfold reconstruct_snapshot_from_row.
    destruct (list_snapshot_files _) as [files|] eqn:E3; cbn [with_context res_bind]; [|done].
    destruct (reconstruct_snapshot_nodes _) as [nodes|] eqn:E4; cbn [with_context res_bind]; [|done].
    destruct (reconstruct_snapshot_edges _) as [edges|] eqn:E5; cbn [with_context res_bind]; [|done].
    destruct (validate_snapshot_materialization _ _ _ _) as [[]|] eqn:E6; cbn [res_bind]; [|done].
    apply validate_ok in E6 as (? & ? & ?). intros [= <-].
    exists repo, row, files, nodes, edges. by split_and!.
  - intros (repo & row & files & nodes & edges & -> & E2 & E3 & E4 & E5 & H1 & H2 & H3 & ->).
    cbn [lift_store res_bind]. rewrite E2. cbn [lift_store res_bind].
    unfold reconstruct_snapshot_from_row. rewrite E3, E4, E5. cbn [with_context res_bind].
    rewrite (proj2 (validate_ok row files nodes edges)) by done. done.
Qed.

(** ** A run *)

Definition demo_node (qn path : string) (params : string) : HistoricalNode :=
  mk_hnode "h" qn "function" qn path (Some 1%Z) (Some 2%Z) None None (Some params) None None false None.
Definition demo_edge (source target path : string) : HistoricalEdge :=
  mk_hedge "h" source target "calls" path (Some 4%Z) (S754_zero false) None None.
Definition demo_snapshot (nodes : list HistoricalNode) (edges : list HistoricalEdge) : HistoricalSnapshot :=
  mk_snapshot (mk_summary 1 "c" 0 0 0 (S754_zero false) 0) (build_evidence [] [] [] [] []) 1 "c" None
    0 0 0 (S754_zero false) 0 [] nodes edges.

Definition demo_before : HistoricalSnapshot :=
  demo_snapshot [demo_node "f" "src/a/x.rs" "()"; demo_node "g" "src/b/y.rs" "()"]
    [demo_edge "f" "g" "src/a/x.rs"].
Definition demo_after : HistoricalSnapshot :=
  demo_snapshot [demo_node "f" "src/a/x.rs" "(n)"; demo_node "g" "src/b/y.rs" "()"]
    [demo_edge "f" "g" "src/a/x.rs"; demo_edge "g" "f" "src/b/y.rs"].

(** The second edge closes a cycle of two modules. *)
Example demo_cycle : new_cycles <$> architecture_diff demo_before demo_after = Some [["src/a"; "src/b"]].
Proof. by vm_compute. Qed.

Lemma changed_nodes_exact_witness :
  ∃ r, diff_of (λ s, s) (λ _, "") (λ _ _, None) "a" "b" demo_before demo_after = Some r ∧
    node_changed (λ s, s) (demo_node "f" "src/a/x.rs" "()") (demo_node "f" "src/a/x.rs" "(n)")
      ∈ changed_nodes r.
Proof.
  destruct (changed_nodes_exact (λ s, s) (λ _, "") (λ _ _, None) "a" "b" demo_before demo_after)
    as (r & Hr & H).
  - intros x y Heq. exact Heq.
  - repeat constructor.
  - exists r. split; [exact Hr|].
    apply (H ("f", ("src/a/x.rs", "function")) _ _); [vm_compute; reflexivity|vm_compute; reflexivity|].
    discriminate.
Defined.
