(* ===== verification/HistoryGit.v ===== *)
(** * What the history reads from git

    Model of [packages/atlas-history/src/git.rs] and [select.rs]: the commands run for the
    history, the readers of their output, and the selectors of commits. Git is a function from
    its arguments (and what it is fed) to what it prints; the contexts wrapped around errors
    are left out. *)

From S2P Require Import Prelude RustStr BTree Scc HistoryDiff.

(** ** Data *)

Record GitCommitMeta := mk_meta {
  gm_sha : string; gm_parent_sha : option string; gm_author_name : string;
  gm_author_email : string; gm_author_time : Z; gm_committer_time : Z; gm_subject : string;
  gm_body : string }.

Record TreeEntry := mk_entry {
  te_mode : string; te_type : string; te_hash : string; te_path : string }.

Record TagRef := mk_tag { tag_name : string; tag_commit_sha : string }.

#[global] Instance GitCommitMeta_eq_dec : EqDecision GitCommitMeta.
Proof. solve_decision. Defined.
#[global] Instance TreeEntry_eq_dec : EqDecision TreeEntry.
Proof. solve_decision. Defined.
#[global] Instance TagRef_eq_dec : EqDecision TagRef.
Proof. solve_decision. Defined.

(** [std::process::Output] *)
Record GitOutput := mk_git_output { git_ok : bool; git_stdout : string; git_stderr : string }.

Definition tab : ascii := chr 9.
Definition record_separator : ascii := chr 30.
Definition nul : ascii := chr 0.
Definition space : ascii := " ".

(** ** Names of commits *)

Definition is_hex (a : ascii) : bool := is_ascii_digit a || byte_in 65 70 a || byte_in 97 102 a.

Definition validate_sha (sha : string) : result string unit :=
  let sha := trim sha in
  if (String.length sha =? 40)%nat && str_forall is_hex sha then Ok tt
  else Err "invalid git SHA (must be 40 hex chars)".

(** ** Readers *)

Fixpoint try_each {A B} (f : A → result string (option B)) (l : list A) : result string (list B) :=
  match l with
  | [] => Ok []
  | x :: l =>
      y <-? f x;;
      ys <-? try_each f l;;
      Ok (match y with Some y => y :: ys | None => ys end)
  end.

Definition ok_or {A} (e : string) (o : option A) : result string A :=
  match o with Some a => Ok a | None => Err e end.

Definition field (i : nat) (fields : list string) : string := default "" (fields !! i).

(** One record of the log; [None] skips it. *)
Definition parse_log_record (record : string) : result string (option GitCommitMeta) :=
  let record := trim record in
  if str_is_empty record then Ok None
  else
    let fields := splitn_char 8 nul record in
    if (length fields <? 7)%nat then Ok None
    else
      let sha := trim (field 0 fields) in
      if str_is_empty sha then Ok None
      else
        _ <-? validate_sha sha;;
        let parent_sha := head (split_whitespace (trim (field 1 fields))) in
        author_time <-? ok_or "bad author_time" (parse_i64 (trim (field 4 fields)));;
        committer_time <-? ok_or "bad committer_time" (parse_i64 (trim (field 5 fields)));;
        Ok (Some (mk_meta sha parent_sha (trim (field 2 fields)) (trim (field 3 fields)) author_time
          committer_time (trim (field 6 fields))
          (if (7 <? length fields)%nat then trim_end (field 7 fields) else ""))).

Definition parse_log_output (raw : string) : result string (list GitCommitMeta) :=
  try_each parse_log_record (split_char record_separator raw).

Definition parse_tree_line (line : string) : result string (option TreeEntry) :=
  let line := trim line in
  if str_is_empty line then Ok None
  else match split_once (String tab "") line with
  | None => Err ("malformed ls-tree line: " +:+ line)
  | Some (meta, path) =>
      match split_whitespace meta with
      | mode :: type :: hash :: _ => Ok (Some (mk_entry mode type hash path))
      | _ => Err ("malformed ls-tree meta: " +:+ meta)
      end
  end.

Definition parse_ls_tree (raw : string) : result string (list TreeEntry) :=
  try_each parse_tree_line (lines raw).

(** The old path, the new path and the status of a changed file; a line with one path has it
    twice. *)
Definition parse_change_line (line : string) : option (string * string * ascii) :=
  let line := trim line in
  if str_is_empty line then None
  else
    let cols := splitn_char 3 tab line in
    let status := match field 0 cols with String c _ => c | EmptyString => "?"%char end in
    let old_path := field 1 cols in
    Some (old_path, default old_path (cols !! 2%nat), status).

Definition parse_diff_tree (raw : string) : list (string * string * ascii) :=
  omap parse_change_line (lines raw).

Definition parse_tag_line (line : string) : result string (option TagRef) :=
  let line := trim line in
  match split_whitespace line with
  | [] => Ok None
  | sha :: parts =>
      _ <-? validate_sha sha;;
      match parts with
      | [] => Ok None
      | raw_ref :: _ => Ok (Some (mk_tag (trim_end_str "^{}" (trim_start_str "refs/tags/" raw_ref)) sha))
      end
  end.

(** Later repetitions of a name and its commit are dropped. *)
Definition push_tag (tags : list TagRef) (t : TagRef) : list TagRef :=
  if bool_decide (t ∈ tags) then tags else tags ++ [t].

Definition parse_tags (raw : string) : result string (list TagRef) :=
  tags <-? try_each parse_tag_line (lines raw);;
  Ok (foldl push_tag [] tags).

(** *** [git cat-file --batch]

    A header line, as many bytes as it says, a line feed; or a header that says the object is
    missing. [data] is what is left of the output. *)
Fixpoint parse_batch (fuel : nat) (data : string) (found : gmap string string) :
    result string (gmap string string) :=
  match fuel with
  | O => Ok found
  | S fuel =>
      if str_is_empty data then Ok found
      else match split_once (String newline "") data with
      | None => Ok found
      | Some (header, rest) =>
          if negb (valid_utf8 header) then Err "non-UTF-8 cat-file --batch header"
          else match splitn_char 3 space header with
          | hash :: obj_type :: size :: _ =>
              if String.eqb obj_type "missing" then parse_batch fuel rest found
              else
                size <-? ok_or ("parse object size for " +:+ hash) (parse_u64 size);;
                if (N.of_nat (String.length rest) <? size)%N then Err ("truncated content for blob " +:+ hash)
                else
                  let size := N.to_nat size in
                  let found := if String.eqb obj_type "blob" then <[hash := str_take size rest]> found
                               else found in
                  parse_batch fuel (str_drop (S size) rest) found
          | _ => parse_batch fuel rest found
          end
      end
  end.

(** Every round takes a header line, so as many rounds as bytes are enough. *)
Definition parse_cat_file (data : string) : result string (gmap string string) :=
  parse_batch (S (String.length data)) data ∅.

Section commands.
(** [git] run in the repository with these arguments and this input. *)
Context (git : list string → string → result string GitOutput) (lossy : string → string).
(** [{:?}] of a text, and of an error. *)
Context (debug : string → string).

Definition run (args : list string) : result string GitOutput := git args "".

Definition ok_stdout (o : GitOutput) (cmd : string) : result string string :=
  if negb (git_ok o) then Err ("git " +:+ cmd +:+ " failed: " +:+ lossy (git_stderr o))
  else if valid_utf8 (git_stdout o) then Ok (git_stdout o)
  else Err ("git " +:+ cmd +:+ " output not valid UTF-8").

Definition rev_parse (r : string) : result string string :=
  out <-? run ["rev-parse"; "--verify"; r];;
  text <-? ok_stdout out "rev-parse";;
  let sha := trim text in
  _ <-? validate_sha sha;;
  Ok sha.

Definition merge_base (lhs rhs : string) : result string string :=
  out <-? run ["merge-base"; lhs; rhs];;
  text <-? ok_stdout out "merge-base";;
  let sha := trim text in
  _ <-? validate_sha sha;;
  Ok sha.

Definition is_shallow : result string bool :=
  out <-? run ["rev-parse"; "--is-shallow-repository"];;
  text <-? ok_stdout out "rev-parse --is-shallow-repository";;
  Ok (String.eqb (trim text) "true").

Definition log_format : string := "--format=%x1e%H%x00%P%x00%an%x00%ae%x00%at%x00%ct%x00%s%x00%b".

Definition log_commits (start_ref : string) (max_count : option N) (since until : option string) :
    result string (list GitCommitMeta) :=
  let args := ["log"; log_format] ++
    match max_count with Some n => ["--max-count=" +:+ show_N n] | None => [] end ++
    match since with Some s => ["--after=" +:+ s] | None => [] end ++
    match until with Some u => ["--before=" +:+ u] | None => [] end ++ [start_ref] in
  out <-? run args;;
  raw <-? ok_stdout out "log";;
  parse_log_output raw.

Fixpoint log_commits_explicit (shas : list string) : result string (list GitCommitMeta) :=
  match shas with
  | [] => Ok []
  | sha :: shas =>
      _ <-? validate_sha sha;;
      out <-? run ["log"; "-1"; log_format; sha];;
      raw <-? ok_stdout out "log -1";;
      commits <-? parse_log_output raw;;
      match commits with
      | [] => Err ("commit not found or not reachable: " +:+ sha)
      | c :: _ => rest <-? log_commits_explicit shas;; Ok (c :: rest)
      end
  end.

Definition show_file (commit_sha path : string) : result string (option string) :=
  _ <-? validate_sha commit_sha;;
  let spec := commit_sha +:+ ":" +:+ path in
  out <-? run ["show"; spec];;
  if git_ok out then Ok (Some (git_stdout out))
  else
    let stderr := lossy (git_stderr out) in
    if contains "does not exist" stderr || contains "path not in" stderr then Ok None
    else Err ("git show " +:+ spec +:+ " failed: " +:+ stderr).

Definition ls_tree (commit_sha : string) : result string (list TreeEntry) :=
  _ <-? validate_sha commit_sha;;
  out <-? run ["ls-tree"; "-r"; "--full-tree"; commit_sha];;
  raw <-? ok_stdout out "ls-tree";;
  parse_ls_tree raw.

Definition ls_tree_paths (commit_sha : string) (paths : list string) : result string (list TreeEntry) :=
  _ <-? validate_sha commit_sha;;
  if decide (paths = []) then Ok []
  else
    out <-? run (["ls-tree"; "-r"; "--full-tree"; commit_sha; "--"] ++ paths);;
    raw <-? ok_stdout out "ls-tree";;
    parse_ls_tree raw.

Definition diff_tree_files (commit_sha : string) (parent_sha : option string) :
    result string (list (string * string * ascii)) :=
  _ <-? validate_sha commit_sha;;
  _ <-? match parent_sha with Some p => validate_sha p | None => Ok tt end;;
  let refs := match parent_sha with
              | Some p => split_whitespace (p +:+ " " +:+ commit_sha)
              | None => [commit_sha]
              end in
  out <-? run (["diff-tree"; "--no-commit-id"; "-r"; "--name-status"; "-M"] ++ refs);;
  raw <-? ok_stdout out "diff-tree";;
  Ok (parse_diff_tree raw).

Definition cat_file_blob (object_hash : string) : result string string :=
  out <-? run ["cat-file"; "blob"; object_hash];;
  if git_ok out then Ok (git_stdout out)
  else Err ("git cat-file " +:+ object_hash +:+ " failed: " +:+ lossy (git_stderr out)).

Definition commit_tree_hash (commit_sha : string) : result string string :=
  _ <-? validate_sha commit_sha;;
  out <-? run ["cat-file"; "-p"; commit_sha];;
  raw <-? ok_stdout out "cat-file -p";;
  match head (omap (strip_prefix "tree ") (lines raw)) with
  | Some hash => Ok (trim hash)
  | None => Err ("no tree line in cat-file output for " +:+ commit_sha)
  end.

Definition list_tag_refs : result string (list TagRef) :=
  out <-? run ["show-ref"; "--tags"; "-d"];;
  raw <-? ok_stdout out "show-ref --tags -d";;
  parse_tags raw.

Definition all_valid (shas : list string) : result string unit :=
  foldl (λ r sha, _ <-? r;; validate_sha sha) (Ok tt) shas.

(** The exit status of the batch is not looked at. *)
Definition cat_file_blob_batch (hashes : list string) : result string (gmap string string) :=
  if decide (hashes = []) then Ok ∅
  else
    _ <-? all_valid hashes;;
    out <-? git ["cat-file"; "--batch"] (str_cat (map (λ h, h +:+ String newline "") hashes));;
    parse_cat_file (git_stdout out).

(** ** Selectors *)

Inductive CommitSelector :=
| Latest (start_ref : string)
| Bounded (start_ref : string) (max_commits : option N) (since until : option string)
| Explicit (shas : list string)
| Range (range : string).

Definition source_ref_label (s : CommitSelector) : option string :=
  match s with
  | Latest r | Bounded r _ _ _ | Range r => Some r
  | Explicit _ => None
  end.

Definition prefers_oldest_first (s : CommitSelector) : bool :=
  match s with Explicit _ => false | _ => true end.

Definition is_unsafe (a : ascii) : bool :=
  existsb (Ascii.eqb a) ["&"; "|"; ";"; "$"; "`"; newline; carriage_return]%char.

Definition validate_range (range : string) : result string unit :=
  if str_forall (λ a, negb (is_unsafe a)) range then Ok tt
  else Err ("unsafe characters in commit range: " +:+ debug range).

Definition resolve (s : CommitSelector) : result HistoryError (list GitCommitMeta) :=
  let ref_not_found r (x : result string string) :=
    match x with Ok sha => Ok sha | Err e => Err (Other ("ref not found " +:+ debug r +:+ ": " +:+ e)) end in
  match s with
  | Latest start_ref =>
      sha <-? ref_not_found start_ref (rev_parse start_ref);;
      lift_store (log_commits sha (Some 1%N) None None)
  | Bounded start_ref max_commits since until =>
      sha <-? ref_not_found start_ref (rev_parse start_ref);;
      lift_store (log_commits sha max_commits since until)
  | Explicit shas =>
      if decide (shas = []) then Ok []
      else
        _ <-? lift_store (all_valid shas);;
        lift_store (log_commits_explicit shas)
  | Range range =>
      _ <-? lift_store (validate_range range);;
      match split_once "..." range with
      | Some (lhs, rhs) =>
          let lhs := trim lhs in
          let rhs := trim rhs in
          if str_is_empty lhs || str_is_empty rhs
          then Err (InvalidSelector ("invalid merge-base range: " +:+ debug range))
          else
            base <-? lift_store (merge_base lhs rhs);;
            lift_store (log_commits (base +:+ ".." +:+ rhs) None None None)
      | None => lift_store (log_commits range None None None)
      end
  end.
End commands.

(** ** Objects read in a batch *)

(** What [git cat-file --batch] prints for a name: the object it finds, or that there is none. *)
Definition answer (odb : string → option (string * string)) (hash : string) : string :=
  match odb hash with
  | Some (obj_type, content) =>
      hash +:+ String space (obj_type +:+ String space (pretty (N.of_nat (String.length content)))) +:+
      String newline (content +:+ String newline "")
  | None => hash +:+ String space "missing" +:+ String newline ""
  end.

(** Names are hexadecimal, types are words, and no object is longer than the address space. *)
Definition plain_text (s : string) : bool :=
  no_char space s && no_char newline s && str_forall is_ascii_byte s.

Definition odb_ok (odb : string → option (string * string)) : Prop :=
  ∀ h t content, odb h = Some (t, content) →
    plain_text t = true ∧ t ≠ "missing" ∧ (N.of_nat (String.length content) ≤ u64_max)%N.

Lemma ascii_valid s : str_forall is_ascii_byte s = true → valid_utf8 s = true.
Proof.
  induction s as [|a s IH]; [done|]. cbn [str_forall valid_utf8]. by intros [-> Hs]%andb_true_iff; auto.
Qed.

Lemma no_char_app c s t : no_char c (s +:+ t) = no_char c s && no_char c t.
Proof. apply str_forall_app. Qed.

Lemma str_forall_impl (p q : ascii → bool) s :
  (∀ a, p a = true → q a = true) → str_forall p s = true → str_forall q s = true.
Proof.
  intros Hpq. induction s as [|a s IH]; [done|]. cbn [str_forall].
  intros [Ha Hs]%andb_true_iff. by rewrite (Hpq a Ha), IH.
Qed.

Lemma digits_plain (n : N) : plain_text (pretty n) = true.
Proof.
  unfold plain_text, no_char. destruct (show_N_digits n) as [Hd _].
  rewrite !andb_true_iff. split_and!; (eapply str_forall_impl; [|exact Hd]); intros a Ha; revert Ha;
    unfold is_ascii_digit, byte_in, is_ascii_byte; rewrite !andb_true_iff, !N.leb_le; intros [H1 H2].
  - apply negb_true_iff, Ascii.eqb_neq. intros ->. by cbn in H1.
  - apply negb_true_iff, Ascii.eqb_neq. intros ->. by cbn in H1.
  - apply N.ltb_lt. lia.
Qed.

Definition keep_blob (odb : string → option (string * string)) (found : gmap string string)
    (hash : string) : gmap string string :=
  match odb hash with
  | Some (t, content) => if String.eqb t "blob" then <[hash := content]> found else found
  | None => found
  end.

Lemma parse_batch_answers odb hashes : odb_ok odb → Forall (λ h, plain_text h = true) hashes →
  ∀ fuel found, (length hashes < fuel)%nat →
  parse_batch fuel (str_cat (map (answer odb) hashes)) found = Ok (foldl (keep_blob odb) found hashes).
Proof.
  intros Hodb. induction 1 as [|h hashes Hh Hall IH]; intros fuel found Hf.
  { by destruct fuel. }
  destruct fuel as [|fuel]; [cbn in Hf; lia|]. cbn [map str_cat foldr foldl].
  set (rest := foldr String.append "" (map (answer odb) hashes)).
  unfold plain_text in Hh. rewrite !andb_true_iff in Hh. destruct Hh as [[Hsp Hnl] Hasc].
  assert (∀ s t, str_is_empty (s +:+ String newline t) = false) as Hne by (intros [|? ?] ?; done).
  unfold answer at 1, keep_blob at 2. destruct (odb h) as [[t content]|] eqn:Hh.
  - destruct (Hodb h t content Hh) as (Ht & Hm & Hsize).
    pose proof (digits_plain (N.of_nat (String.length content))) as Hd.
    unfold plain_text in Ht, Hd. rewrite !andb_true_iff in Ht, Hd.
    destruct Ht as [[Htsp Htnl] Htasc], Hd as [[Hdsp Hdnl] Hdasc].
    set (n := pretty (N.of_nat (String.length content))) in *.
    set (header := h +:+ String space (t +:+ String space n)).
    assert (header +:+ String newline (content +:+ String newline "") +:+ rest =
            header +:+ String newline (content +:+ String newline rest)) as Heq.
    { by rewrite !str_app_cons, <- str_app_assoc, str_app_cons, str_app_nil_l. }
    assert ((h +:+ String space (t +:+ String space n) +:+ String newline (content +:+ String newline "")) +:+ rest =
      header +:+ String newline (content +:+ String newline rest)) as ->.
    { rewrite <- Heq. unfold header. by rewrite !str_app_assoc. }
    cbn [parse_batch]. rewrite Hne.
    assert (no_char newline header = true) as Hhn.
    { unfold header. rewrite no_char_app, Hnl.
      change (no_char newline (t +:+ String space n) = true). by rewrite no_char_app, Htnl. }
    rewrite split_once_char by done.
    assert (valid_utf8 header = true) as ->.
    { apply ascii_valid. unfold header. rewrite str_forall_app, Hasc. cbn [str_forall andb].
      rewrite str_forall_app, Htasc. cbn [str_forall andb]. exact Hdasc. }
    cbn [negb].
    assert (splitn_char 3 space header = [h; t; n]) as ->.
    { unfold header, splitn_char. rewrite split_once_char by done. by rewrite split_once_char. }
    rewrite (proj2 (String.eqb_neq t "missing") Hm).
    unfold parse_u64, n. rewrite parse_unsigned_show by done. cbn [ok_or res_bind].
    rewrite str_length_app. cbn [String.length].
    rewrite (proj2 (N.ltb_ge _ _)) by lia. rewrite Nat2N.id, str_take_app.
    replace (S (String.length content)) with (String.length content + 1)%nat by lia.
    rewrite str_drop_app. cbn [str_drop]. apply IH. cbn in Hf. lia.
  - assert ((h +:+ String space "missing" +:+ String newline "") +:+ rest =
      (h +:+ String space "missing") +:+ String newline rest) as ->.
    { by rewrite <- !str_app_assoc. }
    cbn [parse_batch]. rewrite Hne. rewrite split_once_char.
    2: { rewrite no_char_app, Hnl. done. }
    assert (valid_utf8 (h +:+ String space "missing") = true) as ->.
    { apply ascii_valid. by rewrite str_forall_app, Hasc. }
    assert (splitn_char 3 space (h +:+ String space "missing") = [h; "missing"]) as ->.
    { unfold splitn_char. by rewrite split_once_char. }
    cbn [negb]. apply IH. cbn in Hf. lia.
Qed.

Lemma keep_blobs_lookup odb hashes : ∀ found h,
  foldl (keep_blob odb) found hashes !! h =
  if bool_decide (h ∈ hashes)
  then match odb h with Some (t, c) => if String.eqb t "blob" then Some c else found !! h | None => found !! h end
  else found !! h.
Proof.
  induction hashes as [|x hashes IH] using rev_ind; intros found h; [done|].
  rewrite foldl_snoc. unfold keep_blob at 1.
  assert (bool_decide (h ∈ hashes ++ [x]) = bool_decide (h ∈ hashes) || bool_decide (h = x)) as ->.
  { rewrite <- bool_decide_or. apply bool_decide_ext. set_solver. }
  destruct (decide (h = x)) as [->|Hne].
  - rewrite (bool_decide_eq_true_2 (x = x)), orb_true_r by done.
    destruct (odb x) as [[t c]|] eqn:Hx; [destruct (String.eqb t "blob") eqn:Ht|].
    + apply lookup_insert_eq.
    + rewrite IH, Hx, Ht. by case_bool_decide.
    + rewrite IH, Hx. by case_bool_decide.
  - rewrite (bool_decide_eq_false_2 (h = x)), orb_false_r by done.
    destruct (odb x) as [[t c]|]; [destruct (String.eqb t "blob")|]; rewrite <- IH; [|done..].
    by apply lookup_insert_ne.
Qed.

Lemma hex_graphic a : is_hex a = true → graphic a = true.
Proof.
  unfold is_hex, graphic, is_ascii_digit, byte_in.
  rewrite !orb_true_iff, !andb_true_iff, !N.leb_le. lia.
Qed.

Lemma hex_plain h : String.length h = 40%nat → str_forall is_hex h = true → plain_text h = true.
Proof.
  intros _ Hh. unfold plain_text, no_char.
  rewrite !andb_true_iff. split_and!; (eapply str_forall_impl; [|exact Hh]); intros a Ha; revert Ha;
    unfold is_hex, is_ascii_digit, byte_in, is_ascii_byte;
    rewrite !orb_true_iff, !andb_true_iff, !N.leb_le; intros H.
  - apply negb_true_iff, Ascii.eqb_neq. intros ->. cbn in H. lia.
  - apply negb_true_iff, Ascii.eqb_neq. intros ->. cbn in H. lia.
  - apply N.ltb_lt. lia.
Qed.

Lemma answers_length odb hashes : (length hashes <= String.length (str_cat (map (answer odb) hashes)))%nat.
Proof.
  induction hashes as [|h hashes IH]; [done|]. cbn [map str_cat foldr length].
  rewrite str_length_app. change (foldr String.append "" ?l) with (str_cat l).
  assert (1 ≤ String.length (answer odb h))%nat; [|lia].
  unfold answer. destruct (odb h) as [[t c]|]; rewrite !str_length_app; cbn [String.length]; lia.
Qed.

Lemma all_valid_ok shas : Forall (λ h, validate_sha h = Ok tt) shas → all_valid shas = Ok tt.
Proof. unfold all_valid. induction 1 as [|h shas Hh _ IH]; [done|]. cbn. by rewrite Hh. Qed.

(** C17. Reading many objects of the repository in one batch gives exactly their contents: when git
    answers every name as documented, with the object's type, size and bytes or with the word
    that it is missing, the map has for each name asked for the bytes of its blob, whatever
    bytes these are, and nothing for a name that is missing or not of a blob. *)
Theorem batch_roundtrip (git : list string → string → result string GitOutput) odb hashes err :
  odb_ok odb →
  Forall (λ h, String.length h = 40%nat ∧ str_forall is_hex h = true) hashes → hashes ≠ [] →
  git ["cat-file"; "--batch"] (str_cat (map (λ h, h +:+ String newline "") hashes)) =
    Ok (mk_git_output true (str_cat (map (answer odb) hashes)) err) →
  ∃ found, cat_file_blob_batch git hashes = Ok found ∧
    ∀ h content, found !! h = Some content ↔ h ∈ hashes ∧ odb h = Some ("blob", content).
Proof.
  intros Hodb Hhex Hne Hgit. unfold cat_file_blob_batch. rewrite decide_False by done.
  rewrite all_valid_ok.
  2: { eapply Forall_impl; [exact Hhex|]. intros h [Hl Hh]. unfold validate_sha.
       rewrite trim_graphic; [by rewrite Hl, Hh|]. eapply str_forall_impl; [|exact Hh]. apply hex_graphic. }
  cbn [res_bind]. rewrite Hgit. cbn [res_bind git_stdout]. unfold parse_cat_file.
  rewrite parse_batch_answers; [|done| |pose proof (answers_length odb hashes); lia].
  2: { eapply Forall_impl; [exact Hhex|]. intros h [Hl Hh]. by apply hex_plain. }
  eexists. split; [done|]. intros h content. rewrite keep_blobs_lookup, lookup_empty.
  case_bool_decide as Hin; [|naive_solver].
  destruct (odb h) as [[t c]|]; [|naive_solver].
  destruct (String.eqb_spec t "blob") as [->|Ht]; naive_solver.
Qed.

Definition demo_sha (c : ascii) : string := Nat.iter 40 (String c) "".
Definition demo_odb (h : string) : option (string * string) :=
  if String.eqb h (demo_sha "a") then Some ("blob", "one" +:+ String newline "two")
  else if String.eqb h (demo_sha "b") then Some ("tree", "x") else None.
Definition demo_git (args : list string) (input : string) : result string GitOutput :=
  Ok (mk_git_output true (str_cat (map (answer demo_odb) [demo_sha "a"; demo_sha "b"; demo_sha "c"])) "").

Example demo_batch :
  map_to_list <$> (match cat_file_blob_batch demo_git [demo_sha "a"; demo_sha "b"; demo_sha "c"] with
                   | Ok m => Some m | Err _ => None end) =
  Some [(demo_sha "a", "one" +:+ String newline "two")].
Proof. vm_compute. reflexivity. Qed.

Lemma demo_odb_ok : odb_ok demo_odb.
Proof.
  intros h t content. unfold demo_odb.
  destruct (String.eqb h (demo_sha "a")); [intros [= <- <-]; by vm_compute|].
  destruct (String.eqb h (demo_sha "b")); [intros [= <- <-]; by vm_compute|done].
Qed.

Lemma batch_roundtrip_witness :
  ∃ found, cat_file_blob_batch demo_git [demo_sha "a"; demo_sha "b"; demo_sha "c"] = Ok found ∧
    ∀ h content, found !! h = Some content ↔
      h ∈ [demo_sha "a"; demo_sha "b"; demo_sha "c"] ∧ demo_odb h = Some ("blob", content).
Proof.
  apply (batch_roundtrip demo_git demo_odb [demo_sha "a"; demo_sha "b"; demo_sha "c"] "").
  - exact demo_odb_ok.
  - repeat constructor.
  - discriminate.
  - reflexivity.
Defined.

(** Without [-z] git quotes a path that is not ASCII, and the reader keeps the quotes. *)
Definition dquote : ascii := chr 34.
Definition quoted_line : string :=
  "100644 blob " +:+ demo_sha "a" +:+ String tab (String dquote "src/\303\251.rs" +:+ String dquote "").

Example quoted_path :
  parse_ls_tree quoted_line =
  Ok [mk_entry "100644" "blob" (demo_sha "a") (String dquote "src/\303\251.rs" +:+ String dquote "")].
Proof. vm_compute. reflexivity. Qed.
