(* ===== verification/Sqlite.v ===== *)
(** * Connections to a SQLite database

    The way the stores use [rusqlite]: statements and queries over the tables of a database
    [Db], in the order of the code, until one of them fails; and transactions. A statement that
    SQLite cannot carry out fails and changes nothing; [fault] says which accesses fail. Some
    failures (a full disk, an input or output error, no memory, a busy or interrupted database)
    may also make SQLite roll back the open transaction: the fault says whether it does. What
    follows such a failure then runs outside any transaction. *)

From S2P Require Import Prelude Calendar.

(** SQLite's choice of a row id. *)
Definition next_id (ids : list Z) : Z := (foldr Z.max 0 ids + 1)%Z.

Lemma next_id_above ids id : id ∈ ids → (id < next_id ids)%Z.
Proof.
  unfold next_id. intros Hid. enough (id ≤ foldr Z.max 0 ids)%Z by lia.
  induction ids as [|i ids IH]; [by apply elem_of_nil in Hid|]. cbn.
  apply elem_of_cons in Hid as [->|Hid]; [lia|]. specialize (IH Hid). lia.
Qed.

Lemma next_id_fresh ids : next_id ids ∉ ids.
Proof. intros Hin. apply next_id_above in Hin. lia. Qed.

(** ** Failures *)

Record Fault := mk_fault { message : string; rolls_back : bool }.

(** No failure ends the open transaction. *)
Definition gentle (fault : nat → option Fault) : Prop := ∀ t f, fault t = Some f → rolls_back f = false.

(** ** The connection

    [working] is the state inside an open transaction. *)

Section state.
Context {Db : Type}.

Record Conn := mk_conn { committed : Db; working : option Db; tick : nat }.

Definition current (c : Conn) : Db := default (committed c) (working c).
Definition bump (c : Conn) : Conn := mk_conn (committed c) (working c) (S (tick c)).
Definition with_current (d : Db) (c : Conn) : Conn :=
  match working c with
  | Some _ => mk_conn (committed c) (Some d) (tick c)
  | None => mk_conn d None (tick c)
  end.

(** Calls that use the connection, in the order of the code, until one of them fails. *)
Definition M (E A : Type) : Type := Conn → result E A * Conn.

Definition ret {E A} (a : A) : M E A := λ c, (Ok a, c).
Definition fail {E A} (e : E) : M E A := λ c, (Err e, c).
Definition bind {E A B} (m : M E A) (k : A → M E B) : M E B := λ c,
  match m c with
  | (Ok a, c) => k a c
  | (Err e, c) => (Err e, c)
  end.
End state.

Notation "x <-! m ;; k" := (bind m (λ x, k))
  (at level 20, m at level 99, k at level 200, right associativity, only parsing) : rust_scope.

Section calls.
Context {Db : Type}.
#[local] Abbreviation Conn := (@Conn Db).
#[local] Abbreviation M := (@M Db).


Definition map_err {E F A} (f : E → F) (m : M E A) : M F A := λ c,
  match m c with
  | (Ok a, c) => (Ok a, c)
  | (Err e, c) => (Err (f e), c)
  end.

Fixpoint for_each {E A} (f : A → M E unit) (l : list A) : M E unit :=
  match l with
  | [] => ret tt
  | x :: l => _ <-! f x;; for_each f l
  end.

Fixpoint fold_each {E A S} (f : S → A → M E S) (s : S) (l : list A) : M E S :=
  match l with
  | [] => ret s
  | x :: l => s <-! f s x;; fold_each f s l
  end.

Section connection.
Context (fault : nat → option Fault) (clock : nat → N).

(** What the connection is after a failure. *)
Definition failed_at (e : Fault) (c : Conn) : Conn :=
  if rolls_back e then mk_conn (committed c) None (S (tick c)) else bump c.

Definition sql {A} (f : Db → result string (A * Db)) : M string A := λ c,
  match fault (tick c) with
  | Some e => (Err (message e), failed_at e c)
  | None =>
      match f (current c) with
      | Ok (a, d) => (Ok a, with_current d (bump c))
      | Err e => (Err e, bump c)
      end
  end.

Definition query {A} (f : Db → A) : M string A := sql (λ d, Ok (f d, d)).
Definition execute (f : Db → result string Db) : M string unit :=
  sql (λ d, d' <-? f d;; Ok (tt, d')).

Definition chrono_now : M string string := λ c, (Ok (format_unix_secs (clock (tick c))), c).

(** *** Transactions *)

Definition begin_write : M string unit := λ c,
  match fault (tick c), working c with
  | Some e, _ => (Err (message e), failed_at e c)
  | None, Some _ => (Err "cannot start a transaction within a transaction", bump c)
  | None, None => (Ok tt, mk_conn (committed c) (Some (committed c)) (S (tick c)))
  end.

Definition commit_write : M string unit := λ c,
  match fault (tick c), working c with
  | Some e, _ => (Err (message e), failed_at e c)
  | None, None => (Err "cannot commit - no transaction is active", bump c)
  | None, Some d => (Ok tt, mk_conn d None (S (tick c)))
  end.

Definition rollback_write {E} : M E unit := λ c, (Ok tt, mk_conn (committed c) None (S (tick c))).

(** A [Transaction] value rolls back when it is dropped without a commit. *)
Definition transaction {A} (m : M string A) : M string A := λ c,
  match begin_write c with
  | (Err e, c) => (Err e, c)
  | (Ok _, c) =>
      match (a <-! m;; _ <-! commit_write;; ret a) c with
      | (Ok a, c) => (Ok a, c)
      | (Err e, c) => (Err e, snd (@rollback_write string c))
      end
  end.
End connection.

(** ** Reasoning about calls that use the connection *)

(** A call that opens no transaction, closes none as long as it succeeds, and inside one leaves
    what is committed alone. *)
Definition same_tx (ok : bool) (c c' : Conn) : Prop :=
  match working c with
  | Some _ => committed c' = committed c ∧ (ok = true → is_Some (working c'))
  | None => working c' = None
  end.

Class Plain {E A} (m : M E A) : Prop := plain : ∀ c, same_tx (res_is_ok (fst (m c))) c (snd (m c)).

Lemma same_tx_refl ok c : same_tx ok c c.
Proof. unfold same_tx. by destruct (working c). Qed.

Lemma same_tx_trans ok c1 c2 c3 : same_tx true c1 c2 → same_tx ok c2 c3 → same_tx ok c1 c3.
Proof.
  unfold same_tx. destruct (working c1); [|by intros ->].
  intros [<- [w ->]]; [done|]. by intros [-> ?].
Qed.

Lemma failed_committed e (c : Conn) : committed (failed_at e c) = committed c.
Proof. unfold failed_at. by destruct (rolls_back e). Qed.

Lemma same_tx_failed ok e c : ok = false → same_tx ok c (failed_at e c).
Proof. intros ->. unfold same_tx, failed_at. destruct (rolls_back e), (working c) eqn:Hw; by cbn. Qed.

Lemma bind_ok {E A B} (m : M E A) (k : A → M E B) c b c' :
  bind m k c = (Ok b, c') ↔ ∃ a c1, m c = (Ok a, c1) ∧ k a c1 = (Ok b, c').
Proof.
  unfold bind. destruct (m c) as [[a|e] c1].
  - split; [by eauto|]. by intros (? & ? & [= -> ->] & ?).
  - split; [done|]. by intros (? & ? & [=] & ?).
Qed.

Lemma map_err_ok {E F A} (f : E → F) (m : M E A) c a c' :
  map_err f m c = (Ok a, c') ↔ m c = (Ok a, c').
Proof. unfold map_err. destruct (m c) as [[]]; split; congruence. Qed.

Lemma map_err_conn {E F A} (f : E → F) (m : M E A) c : snd (map_err f m c) = snd (m c).
Proof. unfold map_err. by destruct (m c) as [[]]. Qed.

Lemma current_with (d : Db) (c : Conn) : current (with_current d c) = d.
Proof. unfold current, with_current. by destruct (working c). Qed.

Lemma same_tx_with ok (d : Db) (c : Conn) : same_tx ok c (with_current d (bump c)).
Proof. unfold same_tx, with_current, bump. cbn. by destruct (working c). Qed.

Lemma same_tx_bump ok c : same_tx ok c (bump c).
Proof. apply (same_tx_refl ok c). Qed.

#[export] Instance plain_ret {E A} (a : A) : Plain (@ret Db E A a).
Proof. intros c. apply same_tx_refl. Qed.
#[export] Instance plain_fail {E A} (e : E) : Plain (@fail Db E A e).
Proof. intros c. apply same_tx_refl. Qed.
#[export] Instance plain_bind {E A B} (m : M E A) (k : A → M E B) :
  Plain m → (∀ a, Plain (k a)) → Plain (bind m k).
Proof.
  intros Hm Hk c. unfold bind. pose proof (Hm c) as H.
  destruct (m c) as [[a|e] c1]; cbn in *; [|done]. eapply same_tx_trans; [exact H|apply Hk].
Qed.
#[export] Instance plain_map_err {E F A} (f : E → F) (m : M E A) : Plain m → Plain (map_err f m).
Proof. intros Hm c. rewrite map_err_conn. specialize (Hm c). unfold map_err. by destruct (m c) as [[]]. Qed.
#[export] Instance plain_for_each {E A} (f : A → M E unit) l :
  (∀ x, Plain (f x)) → Plain (for_each f l).
Proof. intros Hf. induction l; apply _. Qed.
#[export] Instance plain_fold_each {E A S} (f : S → A → M E S) l s :
  (∀ s x, Plain (f s x)) → Plain (fold_each f s l).
Proof. intros Hf. revert s. induction l; intros s; apply _. Qed.

Section logic.
Context (fault : nat → option Fault) (clock : nat → N).

#[export] Instance plain_sql {A} (f : Db → result string (A * Db)) : Plain (sql fault f).
Proof.
  intros c. unfold sql. destruct (fault (tick c)); [|destruct (f (current c)) as [[a d]|]]; cbn;
    [by apply same_tx_failed|apply same_tx_with|apply same_tx_bump].
Qed.
#[export] Instance plain_query {A} (f : Db → A) : Plain (query fault f) := plain_sql _.
#[export] Instance plain_execute f : Plain (execute fault f) := plain_sql _.
#[export] Instance plain_now : Plain (chrono_now clock).
Proof. intros c. apply same_tx_refl. Qed.

Lemma query_ok {A} (f : Db → A) c a c' :
  query fault f c = (Ok a, c') → a = f (current c) ∧ c' = with_current (current c) (bump c).
Proof. unfold query, sql. destruct (fault (tick c)); [done|]. by intros [= <- <-]. Qed.

Lemma query_current {A} (f : Db → A) c a c' :
  query fault f c = (Ok a, c') → a = f (current c) ∧ current c' = current c.
Proof. intros [-> ->]%query_ok. by rewrite current_with. Qed.

Lemma execute_ok f c u c' : execute fault f c = (Ok u, c') → f (current c) = Ok (current c').
Proof.
  unfold execute, sql. destruct (fault (tick c)); [done|].
  destruct (f (current c)) as [d|]; cbn; [|done]. intros [= _ <-]. by rewrite current_with.
Qed.

(** Statements one after the other. *)
Fixpoint steps {A} (f : A → Db → result string Db) (l : list A) (d : Db) : result string Db :=
  match l with
  | [] => Ok d
  | x :: l => d <-? f x d;; steps f l d
  end.

Lemma for_each_steps {A} (f : A → Db → result string Db) l : ∀ c u c',
  for_each (λ x, execute fault (f x)) l c = (Ok u, c') → steps f l (current c) = Ok (current c').
Proof.
  induction l as [|x l IH]; intros c u c'; cbn [for_each steps]; [by intros [= _ <-]|].
  intros (? & c1 & Hx%execute_ok & Hl)%bind_ok. rewrite Hx. cbn [res_bind]. by eapply IH.
Qed.

Lemma steps_pure {A} (g : A → Db → Db) l : ∀ d,
  steps (λ x d, Ok (g x d)) l d = Ok (foldl (λ d x, g x d) d l).
Proof. induction l as [|x l IH]; intros d; [done|]. apply IH. Qed.

Lemma for_each_pure {E A} (f : A → M E unit) (g : A → Db → Db) l :
  (∀ x c u c', f x c = (Ok u, c') → current c' = g x (current c)) →
  ∀ c u c', for_each f l c = (Ok u, c') → current c' = foldl (λ d x, g x d) (current c) l.
Proof.
  intros Hf. induction l as [|x l IH]; intros c u c'; cbn [for_each foldl]; [by intros [= _ <-]|].
  intros (? & c1 & Hx & Hl)%bind_ok. rewrite <- (Hf _ _ _ _ Hx). by eapply IH.
Qed.

Lemma for_each_inv {E A} (f : A → M E unit) (P : Db → Prop) l :
  (∀ x c u c', x ∈ l → P (current c) → f x c = (Ok u, c') → P (current c')) →
  ∀ c u c', P (current c) → for_each f l c = (Ok u, c') → P (current c').
Proof.
  induction l as [|x l IH]; intros Hf c u c' HP; cbn [for_each]; [by intros [= _ <-]|].
  intros (? & c1 & Hx & Hl)%bind_ok. eapply IH, Hl; [set_solver|]. eapply Hf, Hx; [|done].
  apply list_elem_of_here.
Qed.

(** A transaction that succeeds commits what its body did; one that fails does nothing. *)
Lemma transaction_ok {A} (m : M string A) c a c' :
  Plain m → working c = None → transaction fault m c = (Ok a, c') →
  working c' = None ∧ ∃ c1 c2, current c1 = committed c ∧ m c1 = (Ok a, c2) ∧ committed c' = current c2.
Proof.
  intros Hm Hw. unfold transaction, begin_write. rewrite Hw. destruct (fault (tick c)); [done|].
  set (c1 := mk_conn _ _ _). pose proof (Hm c1) as Htx. unfold bind at 1.
  destruct (m c1) as [[x|e] c2] eqn:Hr; cbn [fst snd res_is_ok] in *; [|done].
  unfold bind, commit_write. unfold same_tx in Htx. cbn [working c1] in Htx.
  destruct Htx as [_ [d Hd]]; [done|]. rewrite Hd. destruct (fault (tick c2)); cbn; [done|].
  intros [= -> <-]. split; [done|]. exists c1, c2. split_and!; [done..|].
  unfold current. by rewrite Hd.
Qed.

Lemma transaction_err {A} (m : M string A) c e c' :
  Plain m → working c = None → transaction fault m c = (Err e, c') →
  working c' = None ∧ committed c' = committed c.
Proof.
  intros Hm Hw. unfold transaction, begin_write. rewrite Hw.
  destruct (fault (tick c)) as [f|]; [intros [= _ <-]; unfold failed_at; by destruct (rolls_back f)|].
  set (c1 := mk_conn _ _ _). pose proof (Hm c1) as Htx. unfold bind at 1.
  destruct (m c1) as [[x|e'] c2] eqn:Hr; unfold same_tx in Htx; cbn [working committed fst snd res_is_ok c1] in Htx;
    destruct Htx as [Hc Hd].
  - unfold bind, commit_write. destruct Hd as [d Hd]; [done|]. rewrite Hd.
    destruct (fault (tick c2)) as [f|]; cbn; [|done]. intros [= _ <-]. unfold failed_at.
    destruct (rolls_back f); by cbn.
  - cbn. by intros [= _ <-].
Qed.

(** *** Gentle failures

    As long as no failure ends it, a transaction that is open stays open, failures or not. *)
Class Steady {E A} (m : M E A) : Prop := steady : ∀ c, is_Some (working c) → is_Some (working (snd (m c))).

#[export] Instance steady_bind {E A B} (m : M E A) (k : A → M E B) :
  Steady m → (∀ a, Steady (k a)) → Steady (bind m k).
Proof.
  intros Hm Hk c Hc. unfold bind. specialize (Hm c Hc). destruct (m c) as [[a|e] c1]; [by apply Hk|done].
Qed.
#[export] Instance steady_map_err {E F A} (f : E → F) (m : M E A) : Steady m → Steady (map_err f m).
Proof. intros Hm c. rewrite map_err_conn. apply Hm. Qed.
#[export] Instance steady_for_each {E A} (f : A → M E unit) l :
  (∀ x, Steady (f x)) → Steady (for_each f l).
Proof. intros Hf. induction l; [by intros c|]. apply _. Qed.

Lemma failed_gentle e c : gentle fault → fault (tick c) = Some e → failed_at e c = bump c.
Proof. intros Hg He. unfold failed_at. by rewrite (Hg _ _ He). Qed.

Lemma steady_sql {A} (f : Db → result string (A * Db)) : gentle fault → Steady (sql fault f).
Proof.
  intros Hg c [d Hd]. unfold sql. destruct (fault (tick c)) as [e|] eqn:He.
  - rewrite failed_gentle by done. cbn. by rewrite Hd.
  - destruct (f (current c)) as [[a d']|]; cbn; unfold with_current; cbn; by rewrite Hd.
Qed.

(** *** What a call keeps

    Outside transactions a call keeps an invariant of the tables, whether it succeeds or not,
    and leaves no transaction open. *)
Class Keeps {E A} (I : Db → Prop) (m : M E A) : Prop :=
  keeps : ∀ c, working c = None → I (committed c) →
    working (snd (m c)) = None ∧ I (committed (snd (m c))).

Context (I : Db → Prop).

Lemma failed_idle e c : working c = None → I (committed c) →
  working (failed_at e c) = None ∧ I (committed (failed_at e c)).
Proof. intros Hw HI. unfold failed_at. by destruct (rolls_back e). Qed.

#[export] Instance keeps_ret {E A} (a : A) : Keeps I (@ret Db E A a).
Proof. by intros c. Qed.
#[export] Instance keeps_fail {E A} (e : E) : Keeps I (@fail Db E A e).
Proof. by intros c. Qed.
#[export] Instance keeps_bind {E A B} (m : M E A) (k : A → M E B) :
  Keeps I m → (∀ a, Keeps I (k a)) → Keeps I (bind m k).
Proof.
  intros Hm Hk c Hw HI. unfold bind. pose proof (Hm c Hw HI) as [??].
  destruct (m c) as [[a|e] c1]; cbn in *; [|done]. by apply Hk.
Qed.
(** The same for one run, when what follows needs to know what the call returned. *)
Lemma keeps_bind_at {E A B} (m : M E A) (k : A → M E B) c :
  let idle {T} (x : result E T * Conn) := working (snd x) = None ∧ I (committed (snd x)) in
  idle (m c) → (∀ a c', m c = (Ok a, c') → working c' = None → I (committed c') → idle (k a c')) →
  idle (bind m k c).
Proof.
  cbn zeta. intros Hm Hk. unfold bind. destruct (m c) as [[a|e] c'] eqn:Hr; [|exact Hm].
  exact (Hk a c' eq_refl (proj1 Hm) (proj2 Hm)).
Qed.

#[export] Instance keeps_map_err {E F A} (f : E → F) (m : M E A) : Keeps I m → Keeps I (map_err f m).
Proof. intros Hm c. rewrite map_err_conn. apply Hm. Qed.
#[export] Instance keeps_for_each {E A} (f : A → M E unit) l :
  (∀ x, Keeps I (f x)) → Keeps I (for_each f l).
Proof. intros Hf. induction l; apply _. Qed.
#[export] Instance keeps_fold_each {E A S} (f : S → A → M E S) l s :
  (∀ s x, Keeps I (f s x)) → Keeps I (fold_each f s l).
Proof. intros Hf. revert s. induction l; intros s; apply _. Qed.
#[export] Instance keeps_query {A} (f : Db → A) : Keeps I (query fault f).
Proof.
  intros c Hw HI. unfold query, sql. destruct (fault (tick c)) as [e|]; cbn; [by apply failed_idle|].
  unfold with_current, current, bump. cbn. by rewrite Hw.
Qed.
#[export] Instance keeps_now : Keeps I (chrono_now clock).
Proof. by intros c. Qed.

Lemma keeps_sql {A} (f : Db → result string (A * Db)) :
  (∀ d a d', I d → f d = Ok (a, d') → I d') → Keeps I (sql fault f).
Proof.
  intros Hf c Hw HI. unfold sql. destruct (fault (tick c)) as [e|]; cbn; [by apply failed_idle|].
  unfold with_current, current, bump. cbn. rewrite Hw. cbn.
  destruct (f (committed c)) as [[a d]|] eqn:He; cbn; [|done]. split; [done|]. by eapply Hf.
Qed.

Lemma keeps_execute f :
  (∀ d d', I d → f d = Ok d' → I d') → Keeps I (execute fault f).
Proof.
  intros Hf. apply keeps_sql. intros d a d' HI.
  destruct (f d) as [x|] eqn:Hx; cbn; [|done]. intros [= _ <-]. by eapply Hf.
Qed.

Lemma keeps_transaction {A} (m : M string A) :
  Plain m → (∀ c a c', I (current c) → m c = (Ok a, c') → I (current c')) →
  Keeps I (transaction fault m).
Proof.
  intros Hm Hf c Hw HI. destruct (transaction fault m c) as [[a|e] c'] eqn:Ht; cbn.
  - apply transaction_ok in Ht as (? & c1 & c2 & Hc1 & Hr & ->); [|done..]. split; [done|].
    eapply Hf, Hr. by rewrite Hc1.
  - apply transaction_err in Ht as [? ->]; [|done..]. done.
Qed.
End logic.

(** *** Outside transactions *)

Lemma current_idle (c : Conn) : working c = None → current c = committed c.
Proof. intros Hw. unfold current. by rewrite Hw. Qed.

Lemma query_idle fault {A} (f : Db → A) c a c' :
  working c = None → query fault f c = (Ok a, c') →
  a = f (committed c) ∧ working c' = None ∧ committed c' = committed c.
Proof.
  intros Hw [-> ->]%query_ok. rewrite current_idle by done. unfold with_current, bump. cbn.
  by rewrite Hw.
Qed.

Lemma plain_idle {E A} (m : M E A) `{!Plain m} c a c' :
  working c = None → m c = (a, c') → working c' = None.
Proof.
  intros Hw Hr. pose proof (plain c) as Hp. rewrite Hr in Hp. unfold same_tx in Hp. cbn in Hp.
  rewrite Hw in Hp. done.
Qed.

Lemma ran {E A} (x : result E A * Conn) a : fst x = Ok a → x = (Ok a, snd x).
Proof. destruct x as [r c]. cbn. by intros ->. Qed.
End calls.
