(* ===== verification/HistoryTables.v ===== *)
(** * The tables of the history

    Model of [packages/atlas-store-sqlite/src/store/history.rs] and its modules lifecycle,
    membership, prune and reconstruction: the tables of the schema as finite maps by their
    primary keys, and every operation of the store as a statement or query over them, on a
    connection of [Sqlite] ([fault] says which accesses fail, and which failures make SQLite
    roll the open transaction back); uniqueness and foreign keys are those of the schema, with
    its cascades. *)

From Stdlib Require Import Floats.SpecFloat.
From S2P Require Import Prelude RustStr BTree Calendar Scc HistoryDiff Sqlite.

(** ** Rows that only the tables have *)

Record StoredCommit := mk_commit {
  cm_sha : string; cm_repo_id : Z; cm_parent_sha : option string; cm_indexed_ref : option string;
  cm_author_name : option string; cm_author_email : option string; cm_author_time : Z;
  cm_committer_time : Z; cm_subject : string; cm_message : option string; cm_indexed_at : string }.

Record StoredSnapshotMembershipBlob := mk_blob {
  mb_snapshot_id : Z; mb_path : string; mb_hash : string; mb_nodes : string; mb_edges : string }.

Record StoredNodeHistory := mk_node_history {
  nh_repo_id : Z; nh_qn : string; nh_path : string; nh_kind : string;
  nh_signature : option string; nh_first_id : Z; nh_last_id : Z; nh_first_sha : string;
  nh_last_sha : string; nh_introduction : string; nh_removal : option string;
  nh_confidence : spec_float; nh_evidence : option string }.

Record StoredEdgeHistory := mk_edge_history {
  eh_repo_id : Z; eh_source : string; eh_target : string; eh_kind : string; eh_path : string;
  eh_metadata : option string; eh_first_id : Z; eh_last_id : Z; eh_first_sha : string;
  eh_last_sha : string; eh_introduction : string; eh_removal : option string;
  eh_confidence : spec_float; eh_evidence : option string }.

Definition Triple : Type := string * (string * string).

(** Each table by its primary key. The rows of [snapshot_nodes] and [snapshot_edges] are their
    keys and the hash of the file they come from. *)
Record Db := mk_db {
  repos : gmap string Z;
  commits : gmap (string * Z) StoredCommit;
  graph_snapshots : gmap Z StoredSnapshot;
  snapshot_files : gmap (Z * string) StoredSnapshotFile;
  membership_blobs : gmap (Z * string) StoredSnapshotMembershipBlob;
  historical_nodes : gmap (string * string) HistoricalNode;
  historical_edges : gmap (string * Triple) HistoricalEdge;
  snapshot_nodes : gmap (Z * string) string;
  snapshot_edges : gmap (Z * Triple) string;
  node_history : gmap (Z * Triple) StoredNodeHistory;
  edge_history : gmap (Z * (string * Triple)) StoredEdgeHistory }.

Definition empty_db : Db := mk_db ∅ ∅ ∅ ∅ ∅ ∅ ∅ ∅ ∅ ∅ ∅.

(** All rows of a table, in no order that a query could rely on. *)
Definition rows {K A} `{Countable K} (t : gmap K A) : list A := map snd (map_to_list t).

(** ** The connection *)

Abbreviation Conn := (@Sqlite.Conn Db).
Abbreviation M := (@Sqlite.M Db).

Section connection.
Context (fault : nat → option Fault) (clock : nat → N).

#[local] Abbreviation sql := (Sqlite.sql fault).
#[local] Abbreviation query := (Sqlite.query fault).
#[local] Abbreviation execute := (Sqlite.execute fault).
#[local] Abbreviation chrono_now := (Sqlite.chrono_now clock).
#[local] Abbreviation transaction := (Sqlite.transaction fault).

(** *** Repositories and commits *)

Definition foreign_key : string := "FOREIGN KEY constraint failed".
Definition unique_key : string := "UNIQUE constraint failed".

Definition repo_exists (d : Db) (repo_id : Z) : bool := bool_decide (repo_id ∈ rows (repos d)).
Definition snapshot_exists (d : Db) (id : Z) : bool := bool_decide (is_Some (graph_snapshots d !! id)).

Definition set_repos (t : gmap string Z) (d : Db) : Db :=
  mk_db t (commits d) (graph_snapshots d) (snapshot_files d) (membership_blobs d)
    (historical_nodes d) (historical_edges d) (snapshot_nodes d) (snapshot_edges d)
    (node_history d) (edge_history d).
Definition set_commits (t : gmap (string * Z) StoredCommit) (d : Db) : Db :=
  mk_db (repos d) t (graph_snapshots d) (snapshot_files d) (membership_blobs d)
    (historical_nodes d) (historical_edges d) (snapshot_nodes d) (snapshot_edges d)
    (node_history d) (edge_history d).
Definition set_snapshots (t : gmap Z StoredSnapshot) (d : Db) : Db :=
  mk_db (repos d) (commits d) t (snapshot_files d) (membership_blobs d)
    (historical_nodes d) (historical_edges d) (snapshot_nodes d) (snapshot_edges d)
    (node_history d) (edge_history d).
Definition set_files (t : gmap (Z * string) StoredSnapshotFile) (d : Db) : Db :=
  mk_db (repos d) (commits d) (graph_snapshots d) t (membership_blobs d)
    (historical_nodes d) (historical_edges d) (snapshot_nodes d) (snapshot_edges d)
    (node_history d) (edge_history d).
Definition set_blobs (t : gmap (Z * string) StoredSnapshotMembershipBlob) (d : Db) : Db :=
  mk_db (repos d) (commits d) (graph_snapshots d) (snapshot_files d) t
    (historical_nodes d) (historical_edges d) (snapshot_nodes d) (snapshot_edges d)
    (node_history d) (edge_history d).
Definition set_graphs (n : gmap (string * string) HistoricalNode)
    (e : gmap (string * Triple) HistoricalEdge) (d : Db) : Db :=
  mk_db (repos d) (commits d) (graph_snapshots d) (snapshot_files d) (membership_blobs d)
    n e (snapshot_nodes d) (snapshot_edges d) (node_history d) (edge_history d).
Definition set_members (n : gmap (Z * string) string) (e : gmap (Z * Triple) string) (d : Db) : Db :=
  mk_db (repos d) (commits d) (graph_snapshots d) (snapshot_files d) (membership_blobs d)
    (historical_nodes d) (historical_edges d) n e (node_history d) (edge_history d).
Definition set_history (n : gmap (Z * Triple) StoredNodeHistory)
    (e : gmap (Z * (string * Triple)) StoredEdgeHistory) (d : Db) : Db :=
  mk_db (repos d) (commits d) (graph_snapshots d) (snapshot_files d) (membership_blobs d)
    (historical_nodes d) (historical_edges d) (snapshot_nodes d) (snapshot_edges d) n e.

Definition upsert_repo (root_path : string) : M string Z :=
  _ <-! chrono_now;;
  _ <-! execute (λ d,
    match repos d !! root_path with
    | Some _ => Ok d
    | None => Ok (set_repos (<[root_path := next_id (rows (repos d))]> (repos d)) d)
    end);;
  sql (λ d, match repos d !! root_path with
    | Some id => Ok (id, d)
    | None => Err "Query returned no rows"
    end).

Definition find_repo_id (root_path : string) : M string (option Z) :=
  query (λ d, repos d !! root_path).

Definition with_indexed_at (at_ : string) (c : StoredCommit) : StoredCommit :=
  mk_commit (cm_sha c) (cm_repo_id c) (cm_parent_sha c) (cm_indexed_ref c) (cm_author_name c)
    (cm_author_email c) (cm_author_time c) (cm_committer_time c) (cm_subject c) (cm_message c) at_.

Definition upsert_commit (c : StoredCommit) : M string unit :=
  now <-! chrono_now;;
  execute (λ d,
    if repo_exists d (cm_repo_id c)
    then Ok (set_commits (<[(cm_sha c, cm_repo_id c) := with_indexed_at now c]> (commits d)) d)
    else Err foreign_key).

Definition find_commit (repo_id : Z) (commit_sha : string) : M string (option StoredCommit) :=
  query (λ d, commits d !! (commit_sha, repo_id)).

Definition commits_of (d : Db) (repo_id : Z) : list StoredCommit :=
  filter (λ c, cm_repo_id c = repo_id) (rows (commits d)).

(** [ORDER BY author_time DESC, commit_sha DESC] *)
Definition commit_order : StoredCommit → StoredCommit → comparison :=
  cmp_lex (cmp_rev (cmp_on cm_author_time Z.compare)) (cmp_rev (cmp_on cm_sha String.compare)).

Definition list_commits (repo_id : Z) : M string (list StoredCommit) :=
  query (λ d, sort_by commit_order (commits_of d repo_id)).

(** *** Snapshots *)

Definition snapshots_of (d : Db) (repo_id : Z) : list StoredSnapshot :=
  filter (λ s, st_repo_id s = repo_id) (rows (graph_snapshots d)).

Definition latest_commit_sha (repo_id : Z) : M string (option string) :=
  query (λ d,
    st_commit_sha <$> head (sort_by (cmp_rev (cmp_on st_snapshot_id Z.compare))
      (filter (λ s, is_Some (commits d !! (st_commit_sha s, st_repo_id s))) (snapshots_of d repo_id)))).

Definition snapshot_rows (d : Db) (repo_id : Z) (commit_sha : string) : list StoredSnapshot :=
  filter (λ s, st_commit_sha s = commit_sha) (snapshots_of d repo_id).

Definition find_snapshot (repo_id : Z) (commit_sha : string) : M string (option StoredSnapshot) :=
  query (λ d, head (snapshot_rows d repo_id commit_sha)).

(** [JOIN commits ... ORDER BY author_time, snapshot_id] *)
Definition snapshots_ordered (d : Db) (repo_id : Z) : list StoredSnapshot :=
  map snd (sort_by (cmp_lex (cmp_on fst Z.compare) (cmp_on (λ p, st_snapshot_id (snd p)) Z.compare))
    (omap (λ s, c ← commits d !! (st_commit_sha s, st_repo_id s); Some (cm_author_time c, s))
       (snapshots_of d repo_id))).

Definition list_snapshots_ordered (repo_id : Z) : M string (list StoredSnapshot) :=
  query (λ d, snapshots_ordered d repo_id).

(** Deleting a row of [graph_snapshots] takes along the rows that refer to it, except those of
    [snapshot_files], which forbid it. *)
Definition cascade (id : Z) (d : Db) : Db :=
  mk_db (repos d) (commits d) (delete id (graph_snapshots d)) (snapshot_files d)
    (filter (λ kv, fst (fst kv) ≠ id) (membership_blobs d))
    (historical_nodes d) (historical_edges d)
    (filter (λ kv, fst (fst kv) ≠ id) (snapshot_nodes d))
    (filter (λ kv, fst (fst kv) ≠ id) (snapshot_edges d))
    (filter (λ kv, nh_first_id (snd kv) ≠ id ∧ nh_last_id (snd kv) ≠ id) (node_history d))
    (filter (λ kv, eh_first_id (snd kv) ≠ id ∧ eh_last_id (snd kv) ≠ id) (edge_history d)).

Definition delete_snapshot (id : Z) (d : Db) : result string Db :=
  if existsb (λ k, Z.eqb (fst k) id) (map fst (map_to_list (snapshot_files d)))
  then Err foreign_key
  else Ok (cascade id d).

(** [INSERT OR REPLACE]: the new row has a new id, and a row of the same commit goes. *)
Definition insert_snapshot (repo_id : Z) (commit_sha : string) (root_tree_hash : option string)
    (node_count edge_count file_count : Z) (completeness : spec_float) (parse_error_count : Z) :
    M string Z :=
  now <-! chrono_now;;
  sql (λ d,
    let id := next_id (map fst (map_to_list (graph_snapshots d))) in
    d' <-? match head (snapshot_rows d repo_id commit_sha) with
           | Some old => delete_snapshot (st_snapshot_id old) d
           | None => Ok d
           end;;
    if repo_exists d repo_id
    then Ok (id, set_snapshots (<[id := mk_stored id repo_id commit_sha root_tree_hash node_count
               edge_count file_count now completeness parse_error_count]> (graph_snapshots d')) d')
    else Err foreign_key).

Record HistoryStatusSummary := mk_status_summary {
  hy_repo_id : option Z; indexed_commit_count : nat; snapshot_count : nat;
  partial_snapshot_count : nat; parse_error_snapshot_count : nat;
  latest_sha : option string; latest_subject : option string; latest_author_time : option Z;
  latest_indexed_ref : option string }.

Definition is_partial (s : StoredSnapshot) : bool := SFltb (st_completeness s) (S754_finite false 4503599627370496 (-52)).

Definition history_status (root_path : string) : M string HistoryStatusSummary :=
  repo_id <-! find_repo_id root_path;;
  match repo_id with
  | None => ret (mk_status_summary None 0 0 0 0 None None None None)
  | Some rid =>
      commit_count <-! query (λ d, length (commits_of d rid));;
      snapshots <-! query (λ d, length (snapshots_of d rid));;
      partial <-! query (λ d, length (filter (λ s, is_partial s = true) (snapshots_of d rid)));;
      with_errors <-! query (λ d, length (filter (λ s, (0 < st_parse_error_count s)%Z) (snapshots_of d rid)));;
      latest <-! query (λ d, head (sort_by (cmp_rev (cmp_on cm_author_time Z.compare)) (commits_of d rid)));;
      ret (mk_status_summary (Some rid) commit_count snapshots partial with_errors
        (cm_sha <$> latest) (cm_subject <$> latest) (cm_author_time <$> latest) (latest ≫= cm_indexed_ref))
  end.

(** *** Files, graphs and membership *)

Definition insert_snapshot_files (files : list StoredSnapshotFile) : M string unit :=
  for_each (λ f, execute (λ d,
    if snapshot_exists d (sf_snapshot_id f)
    then Ok (set_files (<[(sf_snapshot_id f, sf_path f) := f]> (snapshot_files d)) d)
    else Err foreign_key)) files.

Definition files_of_snapshot (d : Db) (id : Z) : list StoredSnapshotFile :=
  sort_by (cmp_on sf_path String.compare)
    (filter (λ f, sf_snapshot_id f = id) (rows (snapshot_files d))).

Definition list_snapshot_files (id : Z) : M string (list StoredSnapshotFile) :=
  query (λ d, files_of_snapshot d id).

Definition insert_snapshot_membership_blobs (blobs : list StoredSnapshotMembershipBlob) :
    M string unit :=
  for_each (λ b, execute (λ d,
    if snapshot_exists d (mb_snapshot_id b)
    then Ok (set_blobs (<[(mb_snapshot_id b, mb_path b) := b]> (membership_blobs d)) d)
    else Err foreign_key)) blobs.

Definition list_snapshot_membership_blobs (id : Z) : M string (list StoredSnapshotMembershipBlob) :=
  query (λ d, sort_by (cmp_on mb_path String.compare)
    (filter (λ b, mb_snapshot_id b = id) (rows (membership_blobs d)))).

Definition nodes_of_hash (d : Db) (hash : string) : list HistoricalNode :=
  filter (λ n, hn_file_hash n = hash) (rows (historical_nodes d)).
Definition edges_of_hash (d : Db) (hash : string) : list HistoricalEdge :=
  filter (λ e, he_file_hash e = hash) (rows (historical_edges d)).

Definition has_historical_file_graph (hash : string) : M string bool :=
  query (λ d, (0 <? length (nodes_of_hash d hash))%nat).

(** [INSERT OR IGNORE] keeps the row that is there. *)
Definition insert_new {K A} `{Countable K} (k : K) (a : A) (t : gmap K A) : gmap K A :=
  match t !! k with Some _ => t | None => <[k := a]> t end.

Definition node_row_key (n : HistoricalNode) : string * string := (hn_file_hash n, hn_qn n).
Definition edge_row_key (e : HistoricalEdge) : string * Triple :=
  (he_file_hash e, (he_source e, (he_target e, he_kind e))).

Definition insert_historical_nodes (nodes : list HistoricalNode) : M string unit :=
  for_each (λ n, execute (λ d,
    Ok (set_graphs (insert_new (node_row_key n) n (historical_nodes d)) (historical_edges d) d))) nodes.

Definition insert_historical_edges (edges : list HistoricalEdge) : M string unit :=
  for_each (λ e, execute (λ d,
    Ok (set_graphs (historical_nodes d) (insert_new (edge_row_key e) e (historical_edges d)) d))) edges.

Definition count_historical_nodes (hash : string) : M string nat :=
  query (λ d, length (nodes_of_hash d hash)).
Definition count_historical_edges (hash : string) : M string nat :=
  query (λ d, length (edges_of_hash d hash)).

(** [INSERT OR IGNORE] does not ignore a foreign key. *)
Definition attach_snapshot_nodes (id : Z) (hash : string) (qns : list string) : M string unit :=
  for_each (λ qn, execute (λ d,
    if snapshot_exists d id
    then Ok (set_members (insert_new (id, qn) hash (snapshot_nodes d)) (snapshot_edges d) d)
    else Err foreign_key)) qns.

Definition attach_snapshot_edges (id : Z) (hash : string) (edges : list Triple) : M string unit :=
  for_each (λ e, execute (λ d,
    if snapshot_exists d id
    then Ok (set_members (snapshot_nodes d) (insert_new (id, e) hash (snapshot_edges d)) d)
    else Err foreign_key)) edges.

Definition count_snapshot_nodes (id : Z) : M string nat :=
  query (λ d, length (filter (λ kv, fst (fst kv) = id) (map_to_list (snapshot_nodes d)))).
Definition count_snapshot_edges (id : Z) : M string nat :=
  query (λ d, length (filter (λ kv, fst (fst kv) = id) (map_to_list (snapshot_edges d)))).

(** *** Reading snapshots back *)

Definition get_historical_file_language (hash : string) : M string (option string) :=
  query (λ d, n ← head (nodes_of_hash d hash); hn_language n).
Definition list_historical_node_qns (hash : string) : M string (list string) :=
  query (λ d, map hn_qn (nodes_of_hash d hash)).
Definition list_historical_edge_keys (hash : string) : M string (list Triple) :=
  query (λ d, map (λ e, snd (edge_row_key e)) (edges_of_hash d hash)).

Definition node_order : HistoricalNode → HistoricalNode → comparison :=
  cmp_lex (cmp_on hn_path String.compare) (cmp_on hn_qn String.compare).
Definition edge_order : HistoricalEdge → HistoricalEdge → comparison :=
  cmp_lex (cmp_on he_path String.compare)
    (cmp_on (λ e, snd (edge_row_key e)) (pair_cmp String.compare (pair_cmp String.compare String.compare))).

Definition list_historical_nodes_for_hash (hash : string) : M string (list HistoricalNode) :=
  query (λ d, sort_by node_order (nodes_of_hash d hash)).
Definition list_historical_edges_for_hash (hash : string) : M string (list HistoricalEdge) :=
  query (λ d, sort_by edge_order (edges_of_hash d hash)).

Definition member_node (d : Db) (id : Z) (m : Z * string * string) : option HistoricalNode :=
  if bool_decide (fst (fst m) = id) then historical_nodes d !! (snd m, snd (fst m)) else None.
Definition member_edge (d : Db) (id : Z) (m : Z * Triple * string) : option HistoricalEdge :=
  if bool_decide (fst (fst m) = id) then historical_edges d !! (snd m, snd (fst m)) else None.

Definition nodes_of_snapshot (d : Db) (id : Z) : list HistoricalNode :=
  sort_by node_order (omap (member_node d id) (map_to_list (snapshot_nodes d))).
Definition edges_of_snapshot (d : Db) (id : Z) : list HistoricalEdge :=
  sort_by edge_order (omap (member_edge d id) (map_to_list (snapshot_edges d))).

Definition reconstruct_snapshot_nodes (id : Z) : M string (list HistoricalNode) :=
  query (λ d, nodes_of_snapshot d id).
Definition reconstruct_snapshot_edges (id : Z) : M string (list HistoricalEdge) :=
  query (λ d, edges_of_snapshot d id).

(** *** Life cycles *)

Definition lifecycle_history_counts (repo_id : Z) : M string (nat * nat) :=
  nodes <-! query (λ d, length (filter (λ r, nh_repo_id r = repo_id) (rows (node_history d))));;
  edges <-! query (λ d, length (filter (λ r, eh_repo_id r = repo_id) (rows (edge_history d))));;
  ret (nodes, edges).

Definition node_history_key (r : StoredNodeHistory) : Z * Triple :=
  (nh_repo_id r, (nh_qn r, (nh_path r, nh_kind r))).
Definition edge_history_key (r : StoredEdgeHistory) : Z * (string * Triple) :=
  (eh_repo_id r, (eh_source r, (eh_target r, (eh_kind r, eh_path r)))).

Definition insert_node_history (r : StoredNodeHistory) (d : Db) : result string Db :=
  if bool_decide (is_Some (node_history d !! node_history_key r)) then Err unique_key
  else if repo_exists d (nh_repo_id r) && snapshot_exists d (nh_first_id r) &&
          snapshot_exists d (nh_last_id r)
  then Ok (set_history (<[node_history_key r := r]> (node_history d)) (edge_history d) d)
  else Err foreign_key.

Definition insert_edge_history (r : StoredEdgeHistory) (d : Db) : result string Db :=
  if bool_decide (is_Some (edge_history d !! edge_history_key r)) then Err unique_key
  else if repo_exists d (eh_repo_id r) && snapshot_exists d (eh_first_id r) &&
          snapshot_exists d (eh_last_id r)
  then Ok (set_history (node_history d) (<[edge_history_key r := r]> (edge_history d)) d)
  else Err foreign_key.

Definition replace_node_history (repo_id : Z) (entries : list StoredNodeHistory) : M string unit :=
  _ <-! execute (λ d, Ok (set_history (filter (λ kv, nh_repo_id (snd kv) ≠ repo_id) (node_history d))
                           (edge_history d) d));;
  for_each (λ r, execute (insert_node_history r)) entries.

Definition replace_edge_history (repo_id : Z) (entries : list StoredEdgeHistory) : M string unit :=
  _ <-! execute (λ d, Ok (set_history (node_history d)
                           (filter (λ kv, eh_repo_id (snd kv) ≠ repo_id) (edge_history d)) d));;
  for_each (λ r, execute (insert_edge_history r)) entries.

Definition list_node_history (repo_id : Z) : M string (list StoredNodeHistory) :=
  query (λ d, sort_by (cmp_on (λ r, snd (node_history_key r))
                 (pair_cmp String.compare (pair_cmp String.compare String.compare)))
    (filter (λ r, nh_repo_id r = repo_id) (rows (node_history d)))).
Definition list_edge_history (repo_id : Z) : M string (list StoredEdgeHistory) :=
  query (λ d, sort_by (cmp_on (λ r, snd (edge_history_key r))
                 (pair_cmp String.compare (pair_cmp String.compare (pair_cmp String.compare String.compare))))
    (filter (λ r, eh_repo_id r = repo_id) (rows (edge_history d)))).

(** *** Pruning *)

Definition delete_files (id : Z) (d : Db) : Db :=
  set_files (filter (λ kv, fst (fst kv) ≠ id) (snapshot_files d)) d.

Definition delete_history_snapshots (ids : list Z) : M string unit :=
  if decide (ids = []) then ret tt
  else transaction (for_each (λ id,
         _ <-! execute (λ d, Ok (delete_files id d));;
         execute (delete_snapshot id)) ids).

Definition delete_history_commits (repo_id : Z) (shas : list string) : M string unit :=
  if decide (shas = []) then ret tt
  else transaction (for_each (λ sha,
         execute (λ d, Ok (set_commits (delete (sha, repo_id) (commits d)) d))) shas).

(** Hashes of nodes no file of a snapshot has. *)
Definition orphan_hashes (d : Db) : list string :=
  btree_set String.compare
    (filter (λ h, h ∉ map sf_hash (rows (snapshot_files d))) (map hn_file_hash (rows (historical_nodes d)))).

Definition delete_nodes_of (hash : string) (d : Db) : Db :=
  set_graphs (filter (λ kv, hn_file_hash (snd kv) ≠ hash) (historical_nodes d)) (historical_edges d) d.
Definition delete_edges_of (hash : string) (d : Db) : Db :=
  set_graphs (historical_nodes d) (filter (λ kv, he_file_hash (snd kv) ≠ hash) (historical_edges d)) d.

Definition prune_hash (removed : nat * nat * nat) (hash : string) : M string (nat * nat * nat) :=
  let '(hashes, nodes, edges) := removed in
  node_count <-! count_historical_nodes hash;;
  edge_count <-! count_historical_edges hash;;
  _ <-! execute (λ d, Ok (delete_nodes_of hash d));;
  _ <-! execute (λ d, Ok (delete_edges_of hash d));;
  ret (S hashes, nodes + node_count, edges + edge_count)%nat.

Definition prune_orphan_historical_file_graphs : M string (nat * nat * nat) :=
  hashes <-! query orphan_hashes;;
  if decide (hashes = []) then ret (0, 0, 0)%nat
  else transaction (fold_each prune_hash (0, 0, 0)%nat hashes).
End connection.

(** The queries of [HistoryDiff] on a state of the tables. *)
Definition db_store (d : Db) : HistoryStore := {|
  HistoryDiff.find_repo_id root := Ok (repos d !! root);
  HistoryDiff.find_snapshot repo sha := Ok (head (snapshot_rows d repo sha));
  HistoryDiff.list_snapshot_files id := Ok (files_of_snapshot d id);
  HistoryDiff.reconstruct_snapshot_nodes id := Ok (nodes_of_snapshot d id);
  HistoryDiff.reconstruct_snapshot_edges id := Ok (edges_of_snapshot d id) |}.
