(* ===== verification/HistoryInvariant.v ===== *)
(** * The invariant of the history tables

    What every state of the tables of [HistoryTables] satisfies, what deleting snapshots,
    commits and graphs without files does to a state, and that the operations that delete keep
    the invariant, whichever statement of theirs fails. *)

From S2P Require Import Prelude RustStr BTree Scc HistoryDiff Sqlite HistoryTables.

(** ** The invariant of the tables

    Keys agree with rows; snapshots have their repository and commit, and a commit has one
    snapshot; files, members and life cycles belong to snapshots; and a member's file and
    graph are stored. *)
Record db_ok (d : Db) : Prop := {
  ok_snapshot id s : graph_snapshots d !! id = Some s →
    st_snapshot_id s = id ∧ st_repo_id s ∈ rows (repos d) ∧
    is_Some (commits d !! (st_commit_sha s, st_repo_id s));
  ok_unique i j s t : graph_snapshots d !! i = Some s → graph_snapshots d !! j = Some t →
    st_repo_id s = st_repo_id t → st_commit_sha s = st_commit_sha t → i = j;
  ok_commit k c : commits d !! k = Some c → (cm_sha c, cm_repo_id c) = k;
  ok_file k f : snapshot_files d !! k = Some f →
    (sf_snapshot_id f, sf_path f) = k ∧ is_Some (graph_snapshots d !! fst k);
  ok_node k n : historical_nodes d !! k = Some n → node_row_key n = k;
  ok_edge k e : historical_edges d !! k = Some e → edge_row_key e = k;
  ok_member id qn h : snapshot_nodes d !! (id, qn) = Some h →
    is_Some (historical_nodes d !! (h, qn)) ∧
    ∃ path f, snapshot_files d !! (id, path) = Some f ∧ sf_hash f = h;
  ok_edge_member id e h : snapshot_edges d !! (id, e) = Some h →
    is_Some (historical_edges d !! (h, e)) ∧
    ∃ path f, snapshot_files d !! (id, path) = Some f ∧ sf_hash f = h;
  ok_node_history k r : node_history d !! k = Some r →
    node_history_key r = k ∧ is_Some (graph_snapshots d !! nh_first_id r) ∧
    is_Some (graph_snapshots d !! nh_last_id r);
  ok_edge_history k r : edge_history d !! k = Some r →
    edge_history_key r = k ∧ is_Some (graph_snapshots d !! eh_first_id r) ∧
    is_Some (graph_snapshots d !! eh_last_id r) }.

Lemma empty_db_ok : db_ok empty_db.
Proof. split; cbn; intros *; rewrite ?lookup_empty; done. Qed.

(** *** Tables as sets of rows *)

Section tables.
Context {K A : Type} `{Countable K}.

Lemma rows_elem (t : gmap K A) a : a ∈ rows t ↔ ∃ k, t !! k = Some a.
Proof.
  unfold rows. rewrite list_elem_of_fmap. split.
  - intros ([k x] & -> & Hk%elem_of_map_to_list). eauto.
  - intros (k & Hk%elem_of_map_to_list). by exists (k, a).
Qed.

Lemma omap_filter_Some {B C} (f : B → option C) (l : list B) :
  omap f (filter (λ x, is_Some (f x)) l) = omap f l.
Proof.
  induction l as [|x l IH]; [done|]. rewrite filter_cons. cbn [omap list_omap].
  destruct (decide (is_Some (f x))) as [[y Hy]|Hn].
  - cbn [omap list_omap]. rewrite Hy. f_equal. exact IH.
  - destruct (f x) eqn:Hx; [|exact IH]. by destruct Hn.
Qed.

Lemma omap_ext_elem {B C} (f g : B → option C) (l : list B) :
  (∀ x, x ∈ l → f x = g x) → omap f l = omap g l.
Proof.
  induction l as [|x l IH]; intros Hfg; [done|]. cbn [omap list_omap].
  rewrite Hfg by apply list_elem_of_here.
  assert (omap f l = omap g l) as -> by (apply IH; intros; apply Hfg; by apply list_elem_of_further).
  done.
Qed.

(** Two tables with the same relevant entries. *)
Lemma omap_table_perm {B} (t t' : gmap K A) (f g : K * A → option B) :
  (∀ k a b, t !! k = Some a ∧ f (k, a) = Some b ↔ t' !! k = Some a ∧ g (k, a) = Some b) →
  omap f (map_to_list t) ≡ₚ omap g (map_to_list t').
Proof.
  intros Hfg. rewrite <- (omap_filter_Some f), <- (omap_filter_Some g).
  assert (filter (λ x, is_Some (f x)) (map_to_list t) ≡ₚ filter (λ x, is_Some (g x)) (map_to_list t')) as Hp.
  { apply NoDup_Permutation; [apply NoDup_filter, NoDup_map_to_list..|]. intros [k a].
    rewrite !list_elem_of_filter, !elem_of_map_to_list. split.
    - intros [[b Hb] Ht]. destruct (proj1 (Hfg k a b)); eauto.
    - intros [[b Hb] Ht]. destruct (proj2 (Hfg k a b)); eauto. }
  rewrite Hp. clear Hp. apply reflexive_eq, omap_ext_elem.
  intros [k a] [[b Hb] Ht%elem_of_map_to_list]%list_elem_of_filter.
  destruct (proj2 (Hfg k a b)) as [_ ->]; eauto.
Qed.

Lemma rows_filter_perm (t t' : gmap K A) (P : A → Prop) `{!∀ a, Decision (P a)} :
  (∀ k a, P a → t !! k = Some a ↔ t' !! k = Some a) →
  filter P (rows t) ≡ₚ filter P (rows t').
Proof.
  intros HP. assert (∀ l : list (K * A), filter P (map snd l) =
    omap (λ kv, if decide (P (snd kv)) then Some (snd kv) else None) l) as Heq.
  { intros l. induction l as [|[k a] l IH]; [done|]. cbn [map omap list_omap snd].
    rewrite filter_cons. case_decide; [f_equal|]; exact IH. }
  unfold rows. rewrite !Heq. apply omap_table_perm. intros k a b. cbn [snd].
  case_decide as Ha; [|naive_solver]. by rewrite (HP k a Ha).
Qed.

(** Rows whose key determines the primary key have distinct keys. *)
Lemma rows_key_NoDup {B} (t : gmap K A) (P : A → Prop) `{!∀ a, Decision (P a)} (key : A → B) :
  (∀ k k' a a', t !! k = Some a → t !! k' = Some a' → P a → P a' → key a = key a' → k = k') →
  NoDup (map key (filter P (rows t))).
Proof.
  intros Hkey. unfold rows. pose proof (NoDup_fst_map_to_list t) as Hnd.
  assert (∀ k a, (k, a) ∈ map_to_list t → t !! k = Some a) as Hin by (intros; by apply elem_of_map_to_list).
  induction (map_to_list t) as [|[k a] l IH]; [constructor|]. cbn [map snd].
  apply NoDup_cons in Hnd as [Hk Hnd]. rewrite filter_cons.
  assert (NoDup (map key (filter P (map snd l)))) as Hrest by (apply IH; [done|set_solver]).
  case_decide as Ha; [|done]. cbn [map]. apply NoDup_cons. split; [|done].
  intros (b & Heq & [Hb Hx]%list_elem_of_filter)%list_elem_of_fmap.
  apply list_elem_of_fmap in Hx as ([k' b'] & -> & Hx). cbn [snd] in *.
  apply Hk, list_elem_of_fmap. exists (k', b'). split; [|done].
  apply (Hkey k k' a b'); [set_solver..|done|done|done].
Qed.
End tables.

Section reading.
Context (d : Db) (Hok : db_ok d).

Lemma snapshots_of_elem s repo_id :
  s ∈ snapshots_of d repo_id ↔ graph_snapshots d !! st_snapshot_id s = Some s ∧ st_repo_id s = repo_id.
Proof.
  unfold snapshots_of. rewrite list_elem_of_filter, rows_elem. split.
  - intros [? [id Hs]]. by destruct (ok_snapshot d Hok id s Hs) as [-> _].
  - naive_solver.
Qed.

Lemma snapshots_ordered_elem s repo_id :
  s ∈ snapshots_ordered d repo_id ↔ graph_snapshots d !! st_snapshot_id s = Some s ∧ st_repo_id s = repo_id.
Proof.
  rewrite <- snapshots_of_elem. unfold snapshots_ordered. rewrite list_elem_of_fmap. split.
  - intros ([time x] & -> & Hx%sort_by_elem). apply list_elem_of_omap in Hx as (y & Hy & Hc).
    apply bind_Some in Hc as (c & Hc & [= _ <-]). done.
  - intros Hs. pose proof Hs as [Hg _]%snapshots_of_elem.
    destruct (ok_snapshot d Hok _ _ Hg) as (_ & _ & [c Hc]).
    exists (cm_author_time c, s). split; [done|]. apply sort_by_elem, list_elem_of_omap.
    exists s. split; [done|]. by rewrite Hc.
Qed.

Lemma commits_of_elem c repo_id :
  c ∈ commits_of d repo_id ↔ commits d !! (cm_sha c, cm_repo_id c) = Some c ∧ cm_repo_id c = repo_id.
Proof.
  unfold commits_of. rewrite list_elem_of_filter, rows_elem. split.
  - intros [? [k Hc]]. by rewrite (ok_commit d Hok k c Hc).
  - naive_solver.
Qed.

Lemma files_of_snapshot_elem f id :
  f ∈ files_of_snapshot d id ↔ snapshot_files d !! (id, sf_path f) = Some f.
Proof.
  unfold files_of_snapshot. rewrite sort_by_elem, list_elem_of_filter, rows_elem. split.
  - intros [<- [k Hk]]. by destruct (ok_file d Hok _ _ Hk) as [-> _].
  - intros Hf. destruct (ok_file d Hok _ _ Hf) as [[= <-] _]. eauto.
Qed.
End reading.

(** ** What deleting does to the tables *)

Definition purge_one (id : Z) (d : Db) : Db := cascade id (delete_files id d).
Definition purge (ids : list Z) (d : Db) : Db := foldl (λ d id, purge_one id d) d ids.

Lemma delete_snapshot_after_files id d : delete_snapshot id (delete_files id d) = Ok (purge_one id d).
Proof.
  unfold delete_snapshot, purge_one.
  destruct (existsb _ _) eqn:He; [|done]. exfalso. apply existsb_exists in He as (k & Hk & Hid).
  apply list_elem_of_In, list_elem_of_fmap in Hk as ([k' f] & -> & Hf%elem_of_map_to_list).
  apply Z.eqb_eq in Hid. apply map_lookup_filter_Some in Hf as [_ Hf]. by cbn in Hf, Hid.
Qed.

Lemma filter_key_lookup {A B} `{Countable B} (id : Z) (t : gmap (Z * B) A) k :
  fst k ≠ id → filter (λ kv, fst (fst kv) ≠ id) t !! k = t !! k.
Proof.
  intros HP. destruct (t !! k) as [a|] eqn:Hk.
  - by apply map_lookup_filter_Some.
  - apply map_lookup_filter_None. by left.
Qed.

(** The rows of other snapshots stay. *)
Record same_except (gone : Z → Prop) (d d' : Db) : Prop := {
  se_snapshots id : ¬ gone id → graph_snapshots d' !! id = graph_snapshots d !! id;
  se_files id path : ¬ gone id → snapshot_files d' !! (id, path) = snapshot_files d !! (id, path);
  se_nodes id qn : ¬ gone id → snapshot_nodes d' !! (id, qn) = snapshot_nodes d !! (id, qn);
  se_edges id e : ¬ gone id → snapshot_edges d' !! (id, e) = snapshot_edges d !! (id, e);
  se_blobs id path : ¬ gone id → membership_blobs d' !! (id, path) = membership_blobs d !! (id, path);
  se_gone id : gone id → graph_snapshots d' !! id = None;
  se_gone_files id path : gone id → snapshot_files d' !! (id, path) = None;
  se_gone_nodes id qn : gone id → snapshot_nodes d' !! (id, qn) = None;
  se_gone_edges id e : gone id → snapshot_edges d' !! (id, e) = None;
  se_node_history k r : node_history d' !! k = Some r ↔
    node_history d !! k = Some r ∧ ¬ gone (nh_first_id r) ∧ ¬ gone (nh_last_id r);
  se_edge_history k r : edge_history d' !! k = Some r ↔
    edge_history d !! k = Some r ∧ ¬ gone (eh_first_id r) ∧ ¬ gone (eh_last_id r);
  se_rest : repos d' = repos d ∧ commits d' = commits d ∧
    historical_nodes d' = historical_nodes d ∧ historical_edges d' = historical_edges d }.

Lemma filter_key_gone {A B} `{Countable B} (id : Z) (t : gmap (Z * B) A) k :
  fst k = id → filter (λ kv, fst (fst kv) ≠ id) t !! k = None.
Proof. intros Hk. apply map_lookup_filter_None. right. by intros a _ Hn. Qed.

Lemma purge_one_spec id d : same_except (λ i, i = id) d (purge_one id d).
Proof.
  split; cbn.
  - intros i Hi. by apply lookup_delete_ne.
  - intros i p Hi. by apply filter_key_lookup.
  - intros i p Hi. by apply filter_key_lookup.
  - intros i p Hi. by apply filter_key_lookup.
  - intros i p Hi. by apply filter_key_lookup.
  - intros i ->. apply lookup_delete_eq.
  - intros i p Hi. by apply filter_key_gone.
  - intros i p Hi. by apply filter_key_gone.
  - intros i p Hi. by apply filter_key_gone.
  - intros k r. by rewrite map_lookup_filter_Some.
  - intros k r. by rewrite map_lookup_filter_Some.
  - done.
Qed.

Lemma purge_spec ids : ∀ d, same_except (λ i, i ∈ ids) d (purge ids d).
Proof.
  induction ids as [|id ids IH]; intros d.
  - split; cbn; intros; try done; try (by set_solver); naive_solver set_solver.
  - pose proof (purge_one_spec id d) as H1. pose proof (IH (purge_one id d)) as H2.
    change (purge (id :: ids) d) with (purge ids (purge_one id d)).
    assert (∀ i, i ∈ id :: ids ↔ i = id ∨ i ∈ ids) as Hel by (intros; set_solver).
    split.
    + intros i Hi. rewrite Hel in Hi. rewrite (se_snapshots _ _ _ H2), (se_snapshots _ _ _ H1); tauto.
    + intros i p Hi. rewrite Hel in Hi. rewrite (se_files _ _ _ H2), (se_files _ _ _ H1); tauto.
    + intros i p Hi. rewrite Hel in Hi. rewrite (se_nodes _ _ _ H2), (se_nodes _ _ _ H1); tauto.
    + intros i p Hi. rewrite Hel in Hi. rewrite (se_edges _ _ _ H2), (se_edges _ _ _ H1); tauto.
    + intros i p Hi. rewrite Hel in Hi. rewrite (se_blobs _ _ _ H2), (se_blobs _ _ _ H1); tauto.
    + intros i Hi. destruct (decide (i ∈ ids)) as [Hin|Hn]; [by apply (se_gone _ _ _ H2)|].
      rewrite (se_snapshots _ _ _ H2) by done. apply (se_gone _ _ _ H1). set_solver.
    + intros i p Hi. destruct (decide (i ∈ ids)) as [Hin|Hn]; [by apply (se_gone_files _ _ _ H2)|].
      rewrite (se_files _ _ _ H2) by done. apply (se_gone_files _ _ _ H1). set_solver.
    + intros i p Hi. destruct (decide (i ∈ ids)) as [Hin|Hn]; [by apply (se_gone_nodes _ _ _ H2)|].
      rewrite (se_nodes _ _ _ H2) by done. apply (se_gone_nodes _ _ _ H1). set_solver.
    + intros i p Hi. destruct (decide (i ∈ ids)) as [Hin|Hn]; [by apply (se_gone_edges _ _ _ H2)|].
      rewrite (se_edges _ _ _ H2) by done. apply (se_gone_edges _ _ _ H1). set_solver.
    + intros k r. rewrite (se_node_history _ _ _ H2), (se_node_history _ _ _ H1), !Hel. tauto.
    + intros k r. rewrite (se_edge_history _ _ _ H2), (se_edge_history _ _ _ H1), !Hel. tauto.
    + exact (se_rest _ _ _ H2).
Qed.

Lemma purge_ok ids d : db_ok d → db_ok (purge ids d).
Proof.
  intros Hok. pose proof (purge_spec ids d) as Hs.
  destruct (se_rest _ _ _ Hs) as (Hr & Hc & Hn & He).
  assert (∀ i s, graph_snapshots (purge ids d) !! i = Some s → (i ∉ ids) ∧ graph_snapshots d !! i = Some s) as Hsnap.
  { intros i s Hi. destruct (decide (i ∈ ids)) as [Hin|Hout].
    - by rewrite (se_gone _ _ _ Hs) in Hi.
    - by rewrite (se_snapshots _ _ _ Hs) in Hi. }
  assert (∀ i p f, snapshot_files (purge ids d) !! (i, p) = Some f → (i ∉ ids) ∧ snapshot_files d !! (i, p) = Some f) as Hfile.
  { intros i p f Hi. destruct (decide (i ∈ ids)) as [Hin|Hout].
    - by rewrite (se_gone_files _ _ _ Hs) in Hi.
    - by rewrite (se_files _ _ _ Hs) in Hi. }
  split; rewrite ?Hr, ?Hc, ?Hn, ?He.
  - intros i s [_ Hi]%Hsnap. by apply Hok.
  - intros i j s t [_ Hi]%Hsnap [_ Hj]%Hsnap. by apply (ok_unique d Hok).
  - apply Hok.
  - intros [i p] f [Hi Hf]%Hfile. cbn [fst]. rewrite (se_snapshots _ _ _ Hs) by done. by apply Hok.
  - apply Hok.
  - apply Hok.
  - intros i qn h Hm. destruct (decide (i ∈ ids)) as [Hin|Hout].
    + by rewrite (se_gone_nodes _ _ _ Hs) in Hm.
    + rewrite (se_nodes _ _ _ Hs) in Hm by done.
      destruct (ok_member d Hok _ _ _ Hm) as (Hg & p & f & Hf & Hh). split; [done|].
      exists p, f. by rewrite (se_files _ _ _ Hs).
  - intros i e h Hm. destruct (decide (i ∈ ids)) as [Hin|Hout].
    + by rewrite (se_gone_edges _ _ _ Hs) in Hm.
    + rewrite (se_edges _ _ _ Hs) in Hm by done.
      destruct (ok_edge_member d Hok _ _ _ Hm) as (Hg & p & f & Hf & Hh). split; [done|].
      exists p, f. by rewrite (se_files _ _ _ Hs).
  - intros k r (Hk & Hf & Hl)%(se_node_history _ _ _ Hs). rewrite !(se_snapshots _ _ _ Hs) by done.
    by apply Hok.
  - intros k r (Hk & Hf & Hl)%(se_edge_history _ _ _ Hs). rewrite !(se_snapshots _ _ _ Hs) by done.
    by apply Hok.
Qed.

(** *** Graphs no file refers to *)

Definition delete_graph (d : Db) (hash : string) : Db := delete_edges_of hash (delete_nodes_of hash d).
Definition delete_graphs (hashes : list string) (d : Db) : Db := foldl delete_graph d hashes.

Lemma delete_graphs_spec hashes : ∀ d,
  let d' := delete_graphs hashes d in
  (∀ k n, historical_nodes d' !! k = Some n ↔ historical_nodes d !! k = Some n ∧ (hn_file_hash n ∉ hashes)) ∧
  (∀ k e, historical_edges d' !! k = Some e ↔ historical_edges d !! k = Some e ∧ (he_file_hash e ∉ hashes)) ∧
  d' = set_graphs (historical_nodes d') (historical_edges d') d.
Proof.
  induction hashes as [|h hashes IH]; intros d; cbn zeta.
  - split_and!; [set_solver..|]. by destruct d.
  - destruct (IH (delete_graph d h)) as (Hn & He & Hd). cbn zeta in *.
    change (delete_graphs (h :: hashes) d) with (delete_graphs hashes (delete_graph d h)).
    split_and!.
    + intros k n. rewrite Hn. cbn. rewrite map_lookup_filter_Some. cbn. set_solver.
    + intros k e. rewrite He. cbn. rewrite map_lookup_filter_Some. cbn. set_solver.
    + rewrite Hd at 1. by destruct d.
Qed.

Lemma orphan_hashes_elem d h :
  h ∈ orphan_hashes d ↔
  (∃ k n, historical_nodes d !! k = Some n ∧ hn_file_hash n = h) ∧
  ∀ k f, snapshot_files d !! k = Some f → sf_hash f ≠ h.
Proof.
  unfold orphan_hashes. rewrite btree_set_elem, list_elem_of_filter, !list_elem_of_fmap.
  setoid_rewrite rows_elem. split.
  - intros (Hf & n & -> & k & Hk). split; [by exists k, n|]. intros k' f Hk' Hh. apply Hf. eauto.
  - intros ((k & n & Hk & Hh) & Hf). split; [|by eauto]. intros (f & -> & k' & Hk'). by eapply Hf.
Qed.

Lemma delete_orphans_ok hashes d :
  (∀ h k f, h ∈ hashes → snapshot_files d !! k = Some f → sf_hash f ≠ h) →
  db_ok d → db_ok (delete_graphs hashes d).
Proof.
  intros Ho Hok. destruct (delete_graphs_spec hashes d) as (Hn & He & Hd). cbn zeta in *.
  rewrite Hd. split; cbn.
  - apply Hok.
  - apply Hok.
  - apply Hok.
  - apply Hok.
  - intros k n [Hk _]%Hn. by apply Hok.
  - intros k e [Hk _]%He. by apply Hok.
  - intros id qn h Hm. destruct (ok_member d Hok _ _ _ Hm) as ([n Hg] & p & f & Hf & Hh).
    split; [|by eauto]. exists n. apply Hn. split; [done|]. intros Hin.
    apply (Ho (hn_file_hash n) _ f Hin Hf). pose proof (ok_node d Hok _ _ Hg) as [= -> _]. done.
  - intros id e h Hm. destruct (ok_edge_member d Hok _ _ _ Hm) as ([n Hg] & p & f & Hf & Hh).
    split; [|by eauto]. exists n. apply He. split; [done|]. intros Hin.
    apply (Ho (he_file_hash n) _ f Hin Hf). pose proof (ok_edge d Hok _ _ Hg) as [= -> _]. done.
  - apply Hok.
  - apply Hok.
Qed.

Lemma purge_repos ids d : repos (purge ids d) = repos d.
Proof. apply (se_rest _ _ _ (purge_spec ids d)). Qed.
Lemma delete_graphs_repos hashes d : repos (delete_graphs hashes d) = repos d.
Proof. destruct (delete_graphs_spec hashes d) as (_ & _ & ->). done. Qed.

(** *** What a reader of a snapshot sees *)

Record reads_same (id : Z) (d d' : Db) : Prop := {
  rs_files : files_of_snapshot d' id ≡ₚ files_of_snapshot d id;
  rs_nodes : nodes_of_snapshot d' id ≡ₚ nodes_of_snapshot d id;
  rs_edges : edges_of_snapshot d' id ≡ₚ edges_of_snapshot d id }.

Lemma reads_same_trans id d1 d2 d3 : reads_same id d1 d2 → reads_same id d2 d3 → reads_same id d1 d3.
Proof. intros [F1 N1 E1] [F2 N2 E2]. split; by etransitivity. Qed.

(** Reading depends on the rows of the snapshot and on the graphs its members name. *)
Lemma reads_same_tables id d d' :
  db_ok d → db_ok d' →
  (∀ path, snapshot_files d' !! (id, path) = snapshot_files d !! (id, path)) →
  (∀ qn, snapshot_nodes d' !! (id, qn) = snapshot_nodes d !! (id, qn)) →
  (∀ e, snapshot_edges d' !! (id, e) = snapshot_edges d !! (id, e)) →
  (∀ qn h, snapshot_nodes d !! (id, qn) = Some h →
     historical_nodes d' !! (h, qn) = historical_nodes d !! (h, qn)) →
  (∀ e h, snapshot_edges d !! (id, e) = Some h →
     historical_edges d' !! (h, e) = historical_edges d !! (h, e)) →
  reads_same id d d'.
Proof.
  intros Hok Hok' Hf Hn He Hgn Hge.
  split; unfold files_of_snapshot, nodes_of_snapshot, edges_of_snapshot; rewrite !sort_by_perm.
  - apply rows_filter_perm. intros [i path] f Hid. split; intros Hl.
    + destruct (ok_file d' Hok' _ _ Hl) as [[= <- <-] _]. rewrite Hid in *. by rewrite <- Hf.
    + destruct (ok_file d Hok _ _ Hl) as [[= <- <-] _]. rewrite Hid in *. by rewrite Hf.
  - apply omap_table_perm. intros [i qn] h n. unfold member_node. cbn [fst snd].
    case_bool_decide as Hi; [|naive_solver]. subst i. rewrite Hn. split; intros [Hm Hg].
    + by rewrite Hgn in Hg.
    + by rewrite Hgn.
  - apply omap_table_perm. intros [i e] h x. unfold member_edge. cbn [fst snd].
    case_bool_decide as Hi; [|naive_solver]. subst i. rewrite He. split; intros [Hm Hg].
    + by rewrite Hge in Hg.
    + by rewrite Hge.
Qed.

Lemma purge_reads id ids d : db_ok d → id ∉ ids → reads_same id d (purge ids d).
Proof.
  intros Hok Hid. pose proof (purge_spec ids d) as Hs.
  destruct (se_rest _ _ _ Hs) as (_ & _ & Hn & He).
  apply reads_same_tables; [done|by apply purge_ok|..]; intros.
  - by apply (se_files _ _ _ Hs).
  - by apply (se_nodes _ _ _ Hs).
  - by apply (se_edges _ _ _ Hs).
  - by rewrite Hn.
  - by rewrite He.
Qed.

Lemma delete_orphans_reads id d : db_ok d → reads_same id d (delete_graphs (orphan_hashes d) d).
Proof.
  intros Hok. destruct (delete_graphs_spec (orphan_hashes d) d) as (Hn & He & Hd). cbn zeta in *.
  assert (∀ h k f, snapshot_files d !! k = Some f → sf_hash f = h → h ∉ orphan_hashes d) as Hno.
  { intros h k f Hf Hh [_ Ho]%orphan_hashes_elem. by apply (Ho k f). }
  apply reads_same_tables; [done| |..].
  - apply delete_orphans_ok; [|done]. intros h k f [_ Hh]%orphan_hashes_elem. apply Hh.
  - intros path. by rewrite Hd.
  - intros qn. by rewrite Hd.
  - intros e. by rewrite Hd.
  - intros qn h Hm. destruct (ok_member d Hok _ _ _ Hm) as ([n Hg] & p & f & Hf & Hh).
    rewrite Hg. apply Hn. split; [done|]. pose proof (ok_node d Hok _ _ Hg) as [= -> _]. by eapply Hno.
  - intros e h Hm. destruct (ok_edge_member d Hok _ _ _ Hm) as ([n Hg] & p & f & Hf & Hh).
    rewrite Hg. apply He. split; [done|]. pose proof (ok_edge d Hok _ _ Hg) as [= -> _]. by eapply Hno.
Qed.

(** *** The operations *)

Section deleting.
Context (fault : nat → option Fault).

Lemma delete_each_steps ids c u c' :
  for_each (λ id, _ <-! execute fault (λ d, Ok (delete_files id d));; execute fault (delete_snapshot id)) ids c
    = (Ok u, c') → current c' = purge ids (current c).
Proof.
  revert c u c'. induction ids as [|id ids IH]; intros c u c'; cbn [for_each]; [by intros [= _ <-]|].
  intros (? & c1 & (? & c2 & H1%execute_ok & H2%execute_ok)%bind_ok & Hl%IH)%bind_ok.
  injection H1 as H1. rewrite <- H1, delete_snapshot_after_files in H2. injection H2 as H2.
  by rewrite Hl, <- H2.
Qed.

Lemma delete_history_snapshots_ok ids c u c' :
  working c = None → delete_history_snapshots fault ids c = (Ok u, c') →
  working c' = None ∧ committed c' = purge ids (committed c).
Proof.
  intros Hw. unfold delete_history_snapshots. case_decide as Hids.
  - intros [= _ <-]. by subst.
  - intros (Hw' & c1 & c2 & Hc1 & Hr%delete_each_steps & ->)%transaction_ok; [|apply _|done].
    by rewrite Hr, Hc1.
Qed.

Definition drop_commits (repo_id : Z) (shas : list string) (d : Db) : Db :=
  foldl (λ d sha, set_commits (delete (sha, repo_id) (commits d)) d) d shas.

Lemma drop_commits_spec repo_id shas : ∀ d,
  (∀ k c, commits (drop_commits repo_id shas d) !! k = Some c ↔
    commits d !! k = Some c ∧ ¬ (snd k = repo_id ∧ fst k ∈ shas)) ∧
  drop_commits repo_id shas d = set_commits (commits (drop_commits repo_id shas d)) d.
Proof.
  induction shas as [|sha shas IH]; intros d.
  - split; [set_solver|]. by destruct d.
  - change (drop_commits repo_id (sha :: shas) d) with
      (drop_commits repo_id shas (set_commits (delete (sha, repo_id) (commits d)) d)).
    destruct (IH (set_commits (delete (sha, repo_id) (commits d)) d)) as [Hl Hd]. split.
    + intros [s r] c. rewrite Hl. cbn. rewrite lookup_delete_Some. set_solver.
    + rewrite Hd at 1. by destruct d.
Qed.

(** Commits without snapshots may go. *)
Lemma drop_commits_ok repo_id shas d :
  db_ok d →
  (∀ id s, graph_snapshots d !! id = Some s → st_repo_id s = repo_id → st_commit_sha s ∉ shas) →
  db_ok (drop_commits repo_id shas d).
Proof.
  intros Hok Hno. destruct (drop_commits_spec repo_id shas d) as [Hl ->].
  split; cbn; try apply Hok.
  - intros id s Hs. destruct (ok_snapshot d Hok id s Hs) as (Hid & Hr & [c Hc]).
    split_and!; [done..|]. exists c. apply Hl. split; [done|]. cbn. intros [Heq Hin].
    by eapply Hno.
  - intros k c [Hk _]%Hl. by apply Hok.
Qed.

Lemma drop_commits_repos repo_id shas d : repos (drop_commits repo_id shas d) = repos d.
Proof. destruct (drop_commits_spec repo_id shas d) as [_ ->]. done. Qed.

Lemma delete_history_commits_ok repo_id shas c u c' :
  working c = None → delete_history_commits fault repo_id shas c = (Ok u, c') →
  working c' = None ∧ committed c' = drop_commits repo_id shas (committed c).
Proof.
  intros Hw. unfold delete_history_commits. case_decide as Hs.
  - intros [= _ <-]. by subst.
  - intros (Hw' & c1 & c2 & Hc1 & Hr & ->)%transaction_ok; [|apply _|done]. split; [done|].
    apply (for_each_steps fault (λ sha d, Ok (set_commits (delete (sha, repo_id) (commits d)) d))) in Hr.
    rewrite (steps_pure (λ sha d, set_commits (delete (sha, repo_id) (commits d)) d)), Hc1 in Hr.
    by injection Hr as <-.
Qed.

#[export] Instance plain_prune_hash removed hash : Plain (prune_hash fault removed hash).
Proof. destruct removed as [[]]. apply _. Qed.

Lemma delete_history_commits_err repo_id shas c e c' :
  working c = None → delete_history_commits fault repo_id shas c = (Err e, c') →
  working c' = None ∧ committed c' = committed c.
Proof.
  intros Hw. unfold delete_history_commits. case_decide as Hs; [done|].
  by apply transaction_err; [apply _|].
Qed.

Lemma prune_hashes_steps hashes : ∀ removed c r c',
  fold_each (prune_hash fault) removed hashes c = (Ok r, c') →
  current c' = delete_graphs hashes (current c).
Proof.
  induction hashes as [|h hashes IH]; intros [[nh nn] ne] c r c'; cbn [fold_each]; [by intros [= _ <-]|].
  intros (s & c1 & Hp & Hl%IH)%bind_ok. rewrite Hl. clear Hl. unfold prune_hash in Hp.
  apply bind_ok in Hp as (n & c2 & [_ Hc2]%query_current & Hp).
  apply bind_ok in Hp as (e & c3 & [_ Hc3]%query_current & Hp).
  apply bind_ok in Hp as (? & c4 & Hc4%execute_ok & Hp).
  apply bind_ok in Hp as (? & c5 & Hc5%execute_ok & [= _ <-]).
  injection Hc4 as Hc4. injection Hc5 as Hc5. cbn [foldl delete_graphs].
  unfold delete_graphs. cbn [foldl]. unfold delete_graph at 1.
  by rewrite <- Hc5, <- Hc4, Hc3, Hc2.
Qed.

Lemma prune_orphans_ok c r c' :
  working c = None → prune_orphan_historical_file_graphs fault c = (Ok r, c') →
  working c' = None ∧ committed c' = delete_graphs (orphan_hashes (committed c)) (committed c).
Proof.
  intros Hw. unfold prune_orphan_historical_file_graphs.
  intros (hashes & c1 & [-> ->]%query_ok & Hr)%bind_ok.
  assert (current c = committed c) as Hc by (unfold current; by rewrite Hw). rewrite Hc in Hr.
  assert (working (with_current (committed c) (bump c)) = None ∧
          committed (with_current (committed c) (bump c)) = committed c) as [Hw1 Hc1]
    by (unfold with_current, bump; cbn; by rewrite Hw).
  case_decide as Hh.
  - rewrite Hh. by injection Hr as _ <-.
  - apply transaction_ok in Hr as (Hw' & c2 & c3 & Hc2 & Hr%prune_hashes_steps & ->); [|apply _|done].
    by rewrite Hr, Hc2, Hc1.
Qed.

#[export] Instance delete_history_snapshots_keeps ids : Keeps db_ok (delete_history_snapshots fault ids).
Proof.
  unfold delete_history_snapshots. case_decide; [apply _|]. apply keeps_transaction; [apply _|].
  intros c a c' Hok ->%delete_each_steps. by apply purge_ok.
Qed.

#[export] Instance prune_orphans_keeps : Keeps db_ok (prune_orphan_historical_file_graphs fault).
Proof.
  intros c Hw Hok. unfold prune_orphan_historical_file_graphs, bind.
  destruct (query fault orphan_hashes c) as [[hashes|e] c1] eqn:Hq;
    pose proof (keeps_query fault db_ok orphan_hashes c Hw Hok) as Hk; rewrite Hq in Hk; [|done].
  apply query_ok in Hq as [-> ->]. cbn [snd] in Hk. destruct Hk as [Hw1 Hok1].
  assert (current c = committed c) as Hc by (unfold current; by rewrite Hw). rewrite Hc in *.
  assert (committed (with_current (committed c) (bump c)) = committed c) as Hc1
    by (unfold with_current, bump; cbn; by rewrite Hw).
  case_decide; [done|].
  destruct (transaction _ _ _) as [[r|e] c'] eqn:Ht; cbn [snd].
  - apply transaction_ok in Ht as (Hw' & c2 & c3 & Hc2 & Hr%prune_hashes_steps & ->); [|apply _|done].
    split; [done|]. rewrite Hr, Hc2, Hc1. apply delete_orphans_ok; [|done].
    intros h k f [_ Hh]%orphan_hashes_elem. apply Hh.
  - apply transaction_err in Ht as [? ->]; [by rewrite Hc1|apply _|done].
Qed.
End deleting.

(** The invariant can be checked on a concrete state. *)
Definition db_check (d : Db) : bool :=
  bool_decide (map_Forall (λ id s, st_snapshot_id s = id ∧ st_repo_id s ∈ rows (repos d) ∧
    is_Some (commits d !! (st_commit_sha s, st_repo_id s))) (graph_snapshots d)) &&
  bool_decide (map_Forall (λ i s, map_Forall (λ j t, st_repo_id s = st_repo_id t →
    st_commit_sha s = st_commit_sha t → i = j) (graph_snapshots d)) (graph_snapshots d)) &&
  bool_decide (map_Forall (λ k c, (cm_sha c, cm_repo_id c) = k) (commits d)) &&
  bool_decide (map_Forall (λ k f, (sf_snapshot_id f, sf_path f) = k ∧
    is_Some (graph_snapshots d !! fst k)) (snapshot_files d)) &&
  bool_decide (map_Forall (λ k n, node_row_key n = k) (historical_nodes d)) &&
  bool_decide (map_Forall (λ k e, edge_row_key e = k) (historical_edges d)) &&
  bool_decide (map_Forall (λ k h, is_Some (historical_nodes d !! (h, snd k)) ∧
    Exists (λ kf, fst (fst kf) = fst k ∧ sf_hash (snd kf) = h) (map_to_list (snapshot_files d)))
    (snapshot_nodes d)) &&
  bool_decide (map_Forall (λ k h, is_Some (historical_edges d !! (h, snd k)) ∧
    Exists (λ kf, fst (fst kf) = fst k ∧ sf_hash (snd kf) = h) (map_to_list (snapshot_files d)))
    (snapshot_edges d)) &&
  bool_decide (map_Forall (λ k r, node_history_key r = k ∧
    is_Some (graph_snapshots d !! nh_first_id r) ∧ is_Some (graph_snapshots d !! nh_last_id r)) (node_history d)) &&
  bool_decide (map_Forall (λ k r, edge_history_key r = k ∧
    is_Some (graph_snapshots d !! eh_first_id r) ∧ is_Some (graph_snapshots d !! eh_last_id r)) (edge_history d)).

Lemma has_file_exists d id h :
  Exists (λ kf, fst (fst kf) = id ∧ sf_hash (snd kf) = h) (map_to_list (snapshot_files d)) →
  ∃ path f, snapshot_files d !! (id, path) = Some f ∧ sf_hash f = h.
Proof.
  intros ([[i p] f] & Hf%elem_of_map_to_list & Hi & Hh)%Exists_exists. cbn in Hi, Hh. subst i. eauto.
Qed.

Lemma db_check_ok d : db_check d = true → db_ok d.
Proof.
  unfold db_check. rewrite !andb_true_iff, !bool_decide_eq_true.
  intros [[[[[[[[[H1 H2] H3] H4] H5] H6] H7] H8] H9] H10]. split.
  - apply H1.
  - intros i j s t Hi Hj. by apply (H2 i s Hi j t).
  - apply H3.
  - apply H4.
  - apply H5.
  - apply H6.
  - intros id qn h Hm. destruct (H7 _ _ Hm) as [Hn Hf%has_file_exists]. done.
  - intros id e h Hm. destruct (H8 _ _ Hm) as [Hn Hf%has_file_exists]. done.
  - apply H9.
  - apply H10.
Qed.
