(* ===== verification/HistoryLifecycle.v ===== *)
(** * Life cycles of the history

    Model of [packages/atlas-history/src/lifecycle.rs] on the tables of [HistoryTables]: when
    every symbol and relation of a repository appeared and vanished. SHA-256 and the printing
    of a float and of a JSON document are parameters. *)

From Stdlib Require Import Floats.SpecFloat.
From S2P Require Import Prelude RustStr Json BTree Calendar Scc HistoryDiff Sqlite HistoryTables HistoryInvariant.

(** ** Life cycles *)

Record LifecycleSummary := mk_lifecycle {
  lc_repo_id : Z; lc_snapshot_count : nat; lc_node_rows : nat; lc_edge_rows : nat }.

(** [NodeAccumulator] and [EdgeAccumulator]; [acc_hash] is the signature of a node or the
    metadata of an edge. *)
Record Accumulator := mk_acc {
  acc_hash : option string; acc_first_id : Z; acc_last_id : Z; acc_first_sha : string;
  acc_last_sha : string; acc_first_index : nat; acc_last_index : nat; acc_presence : nat }.

Definition NodeIdentity : Type := string * (string * string).
Definition EdgeIdentity : Type := string * (string * (string * string)).
Definition node_identity (n : HistoricalNode) : NodeIdentity := (hn_qn n, (hn_path n, hn_kind n)).
Definition edge_identity (e : HistoricalEdge) : EdgeIdentity :=
  (he_source e, (he_target e, (he_kind e, he_path e))).
Definition node_identity_cmp : NodeIdentity → NodeIdentity → comparison :=
  pair_cmp String.compare (pair_cmp String.compare String.compare).
Definition edge_identity_cmp : EdgeIdentity → EdgeIdentity → comparison :=
  pair_cmp String.compare (pair_cmp String.compare (pair_cmp String.compare String.compare)).

(** One row of the snapshot with this index: [and_modify] or [or_insert]. *)
Definition observe {K R} `{Countable K} (identity : R → K) (hash : R → option string)
    (index : nat) (s : StoredSnapshot) (accs : gmap K Accumulator) (r : R) : gmap K Accumulator :=
  let id := st_snapshot_id s in
  let sha := st_commit_sha s in
  <[identity r :=
    match accs !! identity r with
    | Some a => mk_acc (hash r) (acc_first_id a) id (acc_first_sha a) sha (acc_first_index a)
                  index (S (acc_presence a))
    | None => mk_acc (hash r) id id sha sha index index 1
    end]> accs.

Section lifecycle.
Context (fault : nat → option Fault).
Context (hex_hash : string → string) (fixed6 : spec_float → string) (print_json : Json → string).

Definition one : spec_float := S754_finite false 4503599627370496 (-52).

(** The metadata of an edge without any is not hashed. *)
Definition lifecycle_metadata_hash (e : HistoricalEdge) : option string :=
  let payload := show_Z (default 0%Z (he_line e)) +:+ unit_separator +:+
    default "" (he_tier e) +:+ unit_separator +:+ default "" (he_extra_json e) +:+
    unit_separator +:+ fixed6 (he_confidence e) in
  if String.eqb payload ("0" +:+ unit_separator +:+ unit_separator +:+ unit_separator +:+ fixed6 one)
  then None else Some (hex_hash payload).

Definition evidence (a : Accumulator) : string :=
  print_json (JObject [
    ("first_index", json_u64 (N.of_nat (acc_first_index a)));
    ("last_index", json_u64 (N.of_nat (acc_last_index a)));
    ("presence_count", json_u64 (N.of_nat (acc_presence a)))]).

Definition removal_commit (snapshots : list StoredSnapshot) (a : Accumulator) : option string :=
  st_commit_sha <$> snapshots !! S (acc_last_index a).

Definition node_row (repo_id : Z) (snapshots : list StoredSnapshot)
    (entry : NodeIdentity * Accumulator) : StoredNodeHistory :=
  let '((qn, (path, kind)), a) := entry in
  mk_node_history repo_id qn path kind (acc_hash a) (acc_first_id a) (acc_last_id a)
    (acc_first_sha a) (acc_last_sha a) (acc_first_sha a) (removal_commit snapshots a) one
    (Some (evidence a)).

Definition edge_row (repo_id : Z) (snapshots : list StoredSnapshot)
    (entry : EdgeIdentity * Accumulator) : StoredEdgeHistory :=
  let '((source, (target, (kind, path))), a) := entry in
  mk_edge_history repo_id source target kind path (acc_hash a) (acc_first_id a) (acc_last_id a)
    (acc_first_sha a) (acc_last_sha a) (acc_first_sha a) (removal_commit snapshots a) one
    (Some (evidence a)).

Definition Maps : Type := gmap NodeIdentity Accumulator * gmap EdgeIdentity Accumulator.

(** The loop over the snapshots, in order. *)
Definition observe_snapshot (maps : Maps) (indexed : nat * StoredSnapshot) : M string Maps :=
  let '(index, s) := indexed in
  nodes <-! reconstruct_snapshot_nodes fault (st_snapshot_id s);;
  let node_map := foldl (observe node_identity (node_signature_hash hex_hash) index s) (fst maps) nodes in
  edges <-! reconstruct_snapshot_edges fault (st_snapshot_id s);;
  ret (node_map, foldl (observe edge_identity lifecycle_metadata_hash index s) (snd maps) edges).

Definition not_registered (canonical_root : string) : string :=
  "repo not yet registered for history: " +:+ canonical_root.

Definition context {A} (what : string) (m : M string A) : M string A :=
  map_err (λ e, what +:+ ": " +:+ e) m.

Definition recompute_lifecycle (canonical_root : string) : M string LifecycleSummary :=
  repo <-! find_repo_id fault canonical_root;;
  match repo with
  | None => fail (not_registered canonical_root)
  | Some repo_id =>
      snapshots <-! list_snapshots_ordered fault repo_id;;
      if decide (snapshots = []) then ret (mk_lifecycle repo_id 0 0 0)
      else
        maps <-! fold_each observe_snapshot (∅, ∅) (imap pair snapshots);;
        let node_rows := map (node_row repo_id snapshots) (entries node_identity_cmp (fst maps)) in
        let edge_rows := map (edge_row repo_id snapshots) (entries edge_identity_cmp (snd maps)) in
        _ <-! context "replace node history" (replace_node_history fault repo_id node_rows);;
        _ <-! context "replace edge history" (replace_edge_history fault repo_id edge_rows);;
        ret (mk_lifecycle repo_id (length snapshots) (length node_rows) (length edge_rows))
  end.

Definition load_existing_lifecycle_summary (canonical_root : string) : M string LifecycleSummary :=
  repo <-! find_repo_id fault canonical_root;;
  match repo with
  | None => fail (not_registered canonical_root)
  | Some repo_id =>
      snapshots <-! list_snapshots_ordered fault repo_id;;
      counts <-! lifecycle_history_counts fault repo_id;;
      ret (mk_lifecycle repo_id (length snapshots) (fst counts) (snd counts))
  end.
End lifecycle.

(** ** What the accumulators hold *)

Section observed.
Context {K R : Type} `{Countable K} (identity : R → K) (hash : R → option string).

(** A row, with its snapshot and the snapshot's index. *)
#[local] Abbreviation Seen := (nat * StoredSnapshot * R)%type.

Definition seen_index (x : Seen) : nat := fst (fst x).
Definition seen_snapshot (x : Seen) : StoredSnapshot := snd (fst x).

Definition observe_seen (accs : gmap K Accumulator) (x : Seen) : gmap K Accumulator :=
  observe identity hash (seen_index x) (seen_snapshot x) accs (snd x).

Definition acc_of (first final : Seen) (presence : nat) : Accumulator :=
  mk_acc (hash (snd final)) (st_snapshot_id (seen_snapshot first)) (st_snapshot_id (seen_snapshot final))
    (st_commit_sha (seen_snapshot first)) (st_commit_sha (seen_snapshot final))
    (seen_index first) (seen_index final) presence.

Definition summary_of (l : list Seen) : option Accumulator :=
  match l with
  | [] => None
  | x :: _ => Some (acc_of x (List.last l x) (length l))
  end.

Lemma last_snoc_default (l : list Seen) x y : List.last (l ++ [x]) y = x.
Proof. apply List.last_last. Qed.

Lemma observed_lookup seen : ∀ k,
  foldl observe_seen ∅ seen !! k = summary_of (filter (λ x, identity (snd x) = k) seen).
Proof.
  induction seen as [|x seen IH] using rev_ind; intros k; [done|].
  rewrite foldl_snoc, filter_app, filter_cons, filter_nil.
  unfold observe_seen at 1, observe. destruct (decide (identity (snd x) = k)) as [<-|Hne].
  - rewrite lookup_insert_eq, IH. destruct (filter _ seen) as [|y l] eqn:Hf; [done|].
    cbn [summary_of app]. change (y :: l ++ [x]) with ((y :: l) ++ [x]).
    rewrite last_snoc_default. unfold acc_of. rewrite length_app. cbn. do 2 f_equal. lia.
  - by rewrite lookup_insert_ne, IH, app_nil_r.
Qed.

Definition seen_rows (read : Z → list R) (indexed : list (nat * StoredSnapshot)) : list Seen :=
  flat_map (λ e, map (λ r, (e, r)) (read (st_snapshot_id (snd e)))) indexed.

Lemma observe_seen_snapshot read accs e :
  foldl observe_seen accs (map (λ r, (e, r)) (read (st_snapshot_id (snd e)))) =
  foldl (observe identity hash (fst e) (snd e)) accs (read (st_snapshot_id (snd e))).
Proof.
  generalize (read (st_snapshot_id (snd e))). intros l. revert accs.
  induction l as [|r l IH]; intros accs; [done|]. apply IH.
Qed.

Lemma seen_rows_elem read (snapshots : list StoredSnapshot) i s r :
  (i, s, r) ∈ seen_rows read (imap pair snapshots) ↔
  snapshots !! i = Some s ∧ r ∈ read (st_snapshot_id s).
Proof.
  unfold seen_rows. rewrite list_elem_of_In, in_flat_map. split.
  - intros (e & Hin & Hr). apply list_elem_of_In, list_elem_of_fmap in Hr as (r' & [= <- <-] & Hr).
    apply list_elem_of_In, list_elem_of_lookup in Hin as [j Hj].
    rewrite list_lookup_imap in Hj. destruct (snapshots !! j) eqn:Hs; [|done].
    by injection Hj as -> ->.
  - intros [Hs Hr]. exists (i, s). split.
    + apply list_elem_of_In, list_elem_of_lookup. exists i. by rewrite list_lookup_imap, Hs.
    + apply list_elem_of_In, list_elem_of_fmap. by exists r.
Qed.

Lemma seen_rows_ordered read (snapshots : list StoredSnapshot) :
  StronglySorted (λ x y, seen_index x ≤ seen_index y)%nat (seen_rows read (imap pair snapshots)).
Proof.
  assert (∀ n, StronglySorted (λ x y, seen_index x ≤ seen_index y)%nat
                 (seen_rows read (imap (λ i, pair (n + i)) snapshots)) ∧
               ∀ x, x ∈ seen_rows read (imap (λ i, pair (n + i)) snapshots) → (n ≤ seen_index x)%nat) as Hall.
  { induction snapshots as [|s snapshots IH]; intros n; [split; [constructor|set_solver]|].
    rewrite imap_cons. destruct (IH (S n)) as [Hs Hn].
    assert (imap ((λ i, pair (n + i)) ∘ S) snapshots = imap (λ i, pair (S n + i)) snapshots) as Heq.
    { apply imap_ext. intros i x _. cbn. f_equal. lia. }
    rewrite Heq. cbn [seen_rows flat_map]. fold (seen_rows read (imap (λ i, pair (S n + i)) snapshots)).
    rewrite Nat.add_0_r. cbn [snd].
    assert (∀ x, x ∈ map (λ r, (n, s, r)) (read (st_snapshot_id s)) → seen_index x = n) as Hhead.
    { by intros x (r & -> & _)%list_elem_of_fmap. }
    split.
    - apply StronglySorted_app_2; [| |done].
      + intros x y Hx Hy. rewrite (Hhead x Hx). specialize (Hn y Hy). lia.
      + clear. induction (read _) as [|r l IH]; cbn; constructor; [done|].
        apply Forall_forall. by intros x (r' & -> & _)%list_elem_of_fmap.
    - intros x [Hx|Hx]%elem_of_app; [by rewrite (Hhead x Hx)|specialize (Hn x Hx); lia]. }
  exact (proj1 (Hall 0%nat)).
Qed.

Lemma last_default_elem (l : list Seen) x : List.last (x :: l) x ∈ x :: l.
Proof.
  destruct l as [|y l] using rev_ind; [apply list_elem_of_here|].
  change (x :: l ++ [y]) with ((x :: l) ++ [y]). rewrite last_snoc_default. set_solver.
Qed.

Lemma sorted_ends (l : list Seen) x y :
  StronglySorted (λ x y, seen_index x ≤ seen_index y)%nat (x :: l) → y ∈ x :: l →
  (seen_index x ≤ seen_index y ≤ seen_index (List.last (x :: l) x))%nat.
Proof.
  intros Hs Hy. split.
  - apply StronglySorted_inv in Hs as [_ Hf]. rewrite Forall_forall in Hf.
    apply elem_of_cons in Hy as [->|Hy]; [done|by apply Hf].
  - destruct l as [|z l _] using rev_ind.
    + by apply list_elem_of_singleton in Hy as ->.
    + change (x :: l ++ [z]) with ((x :: l) ++ [z]) in *. rewrite last_snoc_default.
      apply elem_of_app in Hy as [Hy|Hy%list_elem_of_singleton]; [|by subst].
      apply (StronglySorted_app_1_elem_of _ _ _ y z Hs Hy). set_solver.
Qed.

Lemma StronglySorted_filter {A} (S : A → A → Prop) (P : A → Prop) `{!∀ x, Decision (P x)} l :
  StronglySorted S l → StronglySorted S (filter P l).
Proof.
  induction 1 as [|x l Hl IH Hx]; [constructor|]. rewrite filter_cons. case_decide; [|done].
  constructor; [done|]. rewrite Forall_forall in *. intros y [_ Hy]%list_elem_of_filter. by apply Hx.
Qed.

(** The first and last appearance, and nothing for what never appears. *)
Lemma observed_spec read (snapshots : list StoredSnapshot) k :
  let present s := ∃ r, r ∈ read (st_snapshot_id s) ∧ identity r = k in
  match foldl observe_seen ∅ (seen_rows read (imap pair snapshots)) !! k with
  | Some a =>
      ∃ first final r, snapshots !! acc_first_index a = Some first ∧
        snapshots !! acc_last_index a = Some final ∧ present first ∧
        r ∈ read (st_snapshot_id final) ∧ identity r = k ∧ acc_hash a = hash r ∧
        (∀ i s, snapshots !! i = Some s → present s → (acc_first_index a ≤ i ≤ acc_last_index a)%nat) ∧
        acc_first_id a = st_snapshot_id first ∧ acc_first_sha a = st_commit_sha first ∧
        acc_last_id a = st_snapshot_id final ∧ acc_last_sha a = st_commit_sha final
  | None => ∀ s, s ∈ snapshots → ¬ present s
  end.
Proof.
  cbn zeta. rewrite observed_lookup. set (l := filter _ _).
  assert (∀ i s r, (i, s, r) ∈ l ↔ snapshots !! i = Some s ∧ r ∈ read (st_snapshot_id s) ∧ identity r = k) as Hel.
  { intros i s r. unfold l. rewrite list_elem_of_filter, seen_rows_elem. cbn. tauto. }
  assert (StronglySorted (λ x y, seen_index x ≤ seen_index y)%nat l) as Hsort.
  { apply StronglySorted_filter, seen_rows_ordered. }
  clearbody l. destruct l as [|[[i s] r] l]; cbn [summary_of].
  - intros s [i Hs]%list_elem_of_lookup (r & Hr & Hk). apply (not_elem_of_nil (i, s, r)). by apply Hel.
  - pose proof (last_default_elem l (i, s, r)) as Hlast.
    destruct (List.last ((i, s, r) :: l) (i, s, r)) as [[j t] r'] eqn:Hj.
    pose proof (proj1 (Hel i s r) (list_elem_of_here _ _)) as (Hi & Hr & Hk).
    apply Hel in Hlast as (Ht & Hr' & Hk').
    exists s, t, r'. unfold acc_of, seen_index, seen_snapshot. cbn [fst snd acc_first_index acc_last_index
      acc_hash acc_first_id acc_first_sha acc_last_id acc_last_sha].
    split_and!; try done; [by exists r|].
    intros n u Hu (q & Hq & Hkq).
    pose proof (sorted_ends l (i, s, r) (n, u, q) Hsort (proj2 (Hel n u q) (conj Hu (conj Hq Hkq)))) as Hb.
    rewrite Hj in Hb. exact Hb.
Qed.
End observed.

(** ** Writing the life cycles *)

Lemma steps_insert_nodes rows : ∀ d d',
  steps insert_node_history rows d = Ok d' →
  d' = set_history (node_history d') (edge_history d) d ∧
  ∀ k r, node_history d' !! k = Some r ↔
    node_history d !! k = Some r ∨ (r ∈ rows ∧ node_history_key r = k).
Proof.
  induction rows as [|x rows IH]; intros d d'; cbn [steps].
  - intros [= <-]. split; [by destruct d|]. set_solver.
  - unfold insert_node_history at 1. case_bool_decide as Hk; [done|].
    destruct (_ && _ && _); [|done]. cbn [res_bind]. intros [Hd Hl]%IH. cbn in Hd, Hl.
    split; [by rewrite Hd at 1|]. intros k r. rewrite Hl. clear Hl Hd.
    apply eq_None_not_Some in Hk. rewrite lookup_insert_Some, elem_of_cons. naive_solver.
Qed.

Lemma steps_insert_edges rows : ∀ d d',
  steps insert_edge_history rows d = Ok d' →
  d' = set_history (node_history d) (edge_history d') d ∧
  ∀ k r, edge_history d' !! k = Some r ↔
    edge_history d !! k = Some r ∨ (r ∈ rows ∧ edge_history_key r = k).
Proof.
  induction rows as [|x rows IH]; intros d d'; cbn [steps].
  - intros [= <-]. split; [by destruct d|]. set_solver.
  - unfold insert_edge_history at 1. case_bool_decide as Hk; [done|].
    destruct (_ && _ && _); [|done]. cbn [res_bind]. intros [Hd Hl]%IH. cbn in Hd, Hl.
    split; [by rewrite Hd at 1|]. intros k r. rewrite Hl. clear Hl Hd.
    apply eq_None_not_Some in Hk. rewrite lookup_insert_Some, elem_of_cons. naive_solver.
Qed.

Section recompute.
Context (fault : nat → option Fault).
Context (hex_hash : string → string) (fixed6 : spec_float → string) (print_json : Json → string).
#[local] Abbreviation recompute := (recompute_lifecycle fault hex_hash fixed6 print_json).
#[local] Abbreviation observe_all := (observe_snapshot fault hex_hash fixed6).

#[export] Instance plain_observe maps e : Plain (observe_all maps e).
Proof. destruct e. apply _. Qed.

Lemma observe_all_ok indexed : ∀ maps c maps' c',
  fold_each observe_all maps indexed c = (Ok maps', c') →
  current c' = current c ∧
  fst maps' = foldl (observe_seen node_identity (node_signature_hash hex_hash)) (fst maps)
                (seen_rows (nodes_of_snapshot (current c)) indexed) ∧
  snd maps' = foldl (observe_seen edge_identity (lifecycle_metadata_hash hex_hash fixed6)) (snd maps)
                (seen_rows (edges_of_snapshot (current c)) indexed).
Proof.
  induction indexed as [|[i s] indexed IH]; intros maps c maps' c'; cbn [fold_each].
  - by intros [= <- <-].
  - intros (m1 & c1 & Ho & Hr)%bind_ok. unfold observe_snapshot in Ho.
    apply bind_ok in Ho as (nodes & c2 & [-> H2]%query_current & Ho).
    apply bind_ok in Ho as (edges & c3 & [-> H3]%query_current & [= <- <-]).
    apply IH in Hr as (Hc & Hn & He). rewrite ?H3, ?H2 in Hc, Hn, He.
    cbn [fst snd] in Hn, He. split; [done|]. cbn [seen_rows flat_map]. rewrite !foldl_app.
    fold (seen_rows (nodes_of_snapshot (current c)) indexed).
    fold (seen_rows (edges_of_snapshot (current c)) indexed).
    rewrite !(observe_seen_snapshot _ _ _ _ (i, s)). by rewrite Hn, He.
Qed.

(** What a successful run wrote. *)
Lemma recompute_ok root repo_id c summary c' :
  repos (current c) !! root = Some repo_id → recompute root c = (Ok summary, c') →
  let d := current c in
  let d' := current c' in
  let snapshots := snapshots_ordered d repo_id in
  let node_map := foldl (observe_seen node_identity (node_signature_hash hex_hash)) ∅
                    (seen_rows (nodes_of_snapshot d) (imap pair snapshots)) in
  let edge_map := foldl (observe_seen edge_identity (lifecycle_metadata_hash hex_hash fixed6)) ∅
                    (seen_rows (edges_of_snapshot d) (imap pair snapshots)) in
  d' = set_history (node_history d') (edge_history d') d ∧ lc_repo_id summary = repo_id ∧
  lc_snapshot_count summary = length snapshots ∧
  (snapshots ≠ [] →
    (∀ k r, node_history d' !! k = Some r ↔
      (node_history d !! k = Some r ∧ nh_repo_id r ≠ repo_id) ∨
      (node_history_key r = k ∧ ∃ e, e ∈ entries node_identity_cmp node_map ∧
         r = node_row print_json repo_id snapshots e)) ∧
    (∀ k r, edge_history d' !! k = Some r ↔
      (edge_history d !! k = Some r ∧ eh_repo_id r ≠ repo_id) ∨
      (edge_history_key r = k ∧ ∃ e, e ∈ entries edge_identity_cmp edge_map ∧
         r = edge_row print_json repo_id snapshots e))).
Proof.
  intros Hrepo. unfold recompute_lifecycle. cbn zeta.
  intros (o & c1 & [-> H1]%query_current & Hr)%bind_ok. rewrite Hrepo in Hr.
  apply bind_ok in Hr as (snapshots & c2 & [-> H2]%query_current & Hr). rewrite H1 in Hr, H2.
  case_decide as Hs.
  { injection Hr as <- <-. rewrite Hs. split_and!; [by rewrite H2; destruct (current c)|done..]. }
  apply bind_ok in Hr as ([nm em] & c3 & (H3 & Hn & He)%observe_all_ok & Hr). cbn [fst snd] in Hr, Hn, He.
  rewrite H2 in H3, Hn, He.
  apply bind_ok in Hr as (? & c4 & H4 & Hr). apply bind_ok in Hr as (? & c5 & H5 & [= <- <-]).
  apply map_err_ok in H4, H5.
  apply bind_ok in H4 as (? & c6 & H6%execute_ok & H4%for_each_steps%steps_insert_nodes).
  apply bind_ok in H5 as (? & c7 & H7%execute_ok & H5%for_each_steps%steps_insert_edges).
  injection H6 as H6. injection H7 as H7. destruct H4 as [Hd4 Hl4], H5 as [Hd5 Hl5].
  assert (node_history (current c5) = node_history (current c4)) as Hsame by (rewrite Hd5, <- H7; reflexivity).
  split_and!; [|done..|].
  - etransitivity; [exact Hd5|]. rewrite Hsame, <- H7. rewrite Hd4, <- H6, H3. reflexivity.
  - intros _. split; intros k r.
    + rewrite Hsame, Hl4, <- H6, H3. cbn. rewrite map_lookup_filter_Some, list_elem_of_fmap. cbn [snd].
      rewrite Hn. f_equiv. split; [intros [(e & -> & Hin) Hk]|intros [Hk (e & Hin & ->)]]; eauto.
    + rewrite Hl5, <- H7. cbn. rewrite Hd4, <- H6, H3. cbn.
      rewrite map_lookup_filter_Some, list_elem_of_fmap. cbn [snd]. rewrite He.
      f_equiv. split; [intros [(e & -> & Hin) Hk]|intros [Hk (e & Hin & ->)]]; eauto.
Qed.
End recompute.

(** *** What a life cycle says *)

Record Life := mk_life {
  life_hash : option string; life_first_id : Z; life_last_id : Z; life_first_sha : string;
  life_last_sha : string; life_introduction : string; life_removal : option string }.

Definition node_life (r : StoredNodeHistory) : Life :=
  mk_life (nh_signature r) (nh_first_id r) (nh_last_id r) (nh_first_sha r) (nh_last_sha r)
    (nh_introduction r) (nh_removal r).
Definition edge_life (r : StoredEdgeHistory) : Life :=
  mk_life (eh_metadata r) (eh_first_id r) (eh_last_id r) (eh_first_sha r) (eh_last_sha r)
    (eh_introduction r) (eh_removal r).

(** Of an identity that some snapshot has: its first and last snapshot, the commit after the
    last one as the one that removed it, and the hash of its last row. *)
Definition life_of {K R} (identity : R → K) (hash : R → option string) (read : Z → list R)
    (snapshots : list StoredSnapshot) (k : K) (life : option Life) : Prop :=
  let present s := ∃ r, r ∈ read (st_snapshot_id s) ∧ identity r = k in
  match life with
  | None => ∀ s, s ∈ snapshots → ¬ present s
  | Some l =>
      ∃ i j first final r, snapshots !! i = Some first ∧ snapshots !! j = Some final ∧
        present first ∧ r ∈ read (st_snapshot_id final) ∧ identity r = k ∧
        (∀ m s, snapshots !! m = Some s → present s → (i ≤ m ≤ j)%nat) ∧
        l = mk_life (hash r) (st_snapshot_id first) (st_snapshot_id final) (st_commit_sha first)
              (st_commit_sha final) (st_commit_sha first) (st_commit_sha <$> snapshots !! S j)
  end.

Lemma life_of_acc {K R} `{Countable K} (identity : R → K) hash read snapshots k :
  life_of identity hash read snapshots k
    ((λ a, mk_life (acc_hash a) (acc_first_id a) (acc_last_id a) (acc_first_sha a) (acc_last_sha a)
        (acc_first_sha a) (removal_commit snapshots a)) <$>
     foldl (observe_seen identity hash) ∅ (seen_rows read (imap pair snapshots)) !! k).
Proof.
  pose proof (observed_spec identity hash read snapshots k) as Hs. cbn zeta in Hs.
  destruct (_ !! k) as [a|]; cbn; [|exact Hs].
  destruct Hs as (first & final & r & Hf & Hl & Hp & Hr & Hk & Hh & Hall & H1 & H2 & H3 & H4).
  exists (acc_first_index a), (acc_last_index a), first, final, r.
  split_and!; try done. unfold removal_commit. congruence.
Qed.

Section lifecycle_theorems.
Context (fault : nat → option Fault).
Context (hex_hash : string → string) (fixed6 : spec_float → string) (print_json : Json → string).
#[local] Abbreviation recompute := (recompute_lifecycle fault hex_hash fixed6 print_json).

Lemma node_history_of (repo_id : Z) (snapshots : list StoredSnapshot) (nm : gmap NodeIdentity Accumulator) (d d' : Db) (k : NodeIdentity) :
  db_ok d →
  (∀ k r, node_history d' !! k = Some r ↔
    (node_history d !! k = Some r ∧ nh_repo_id r ≠ repo_id) ∨
    (node_history_key r = k ∧ ∃ e, e ∈ entries node_identity_cmp nm ∧
       r = node_row print_json repo_id snapshots e)) →
  node_life <$> node_history d' !! (repo_id, k) =
  (λ a, mk_life (acc_hash a) (acc_first_id a) (acc_last_id a) (acc_first_sha a) (acc_last_sha a)
        (acc_first_sha a) (removal_commit snapshots a)) <$> nm !! k.
Proof.
  intros Hok Hl. destruct (node_history d' !! (repo_id, k)) as [r|] eqn:Hr.
  - apply Hl in Hr as [[Hr Hne]|(Hk & [[qn [path kind]] a] & Ha%entries_elem & ->)].
    + apply (ok_node_history d Hok) in Hr as [[= ? ?] _]. congruence.
    + cbn in Hk. injection Hk as <-. by rewrite Ha.
  - destruct (nm !! k) as [a|] eqn:Ha; [|done]. exfalso.
    assert (node_history d' !! (repo_id, k) = Some (node_row print_json repo_id snapshots (k, a))) as Hx;
      [|by rewrite Hr in Hx].
    apply Hl. right. split; [by destruct k as [? [? ?]]|]. exists (k, a). split; [|done].
    by apply entries_elem.
Qed.

Lemma edge_history_of (repo_id : Z) (snapshots : list StoredSnapshot) (em : gmap EdgeIdentity Accumulator) (d d' : Db) (k : EdgeIdentity) :
  db_ok d →
  (∀ k r, edge_history d' !! k = Some r ↔
    (edge_history d !! k = Some r ∧ eh_repo_id r ≠ repo_id) ∨
    (edge_history_key r = k ∧ ∃ e, e ∈ entries edge_identity_cmp em ∧
       r = edge_row print_json repo_id snapshots e)) →
  edge_life <$> edge_history d' !! (repo_id, k) =
  (λ a, mk_life (acc_hash a) (acc_first_id a) (acc_last_id a) (acc_first_sha a) (acc_last_sha a)
        (acc_first_sha a) (removal_commit snapshots a)) <$> em !! k.
Proof.
  intros Hok Hl. destruct (edge_history d' !! (repo_id, k)) as [r|] eqn:Hr.
  - apply Hl in Hr as [[Hr Hne]|(Hk & [[s [t [kind path]]] a] & Ha%entries_elem & ->)].
    + apply (ok_edge_history d Hok) in Hr as [[= ? ?] _]. congruence.
    + cbn in Hk. injection Hk as <-. by rewrite Ha.
  - destruct (em !! k) as [a|] eqn:Ha; [|done]. exfalso.
    assert (edge_history d' !! (repo_id, k) = Some (edge_row print_json repo_id snapshots (k, a))) as Hx;
      [|by rewrite Hr in Hx].
    apply Hl. right. split; [by destruct k as [? [? [? ?]]]|]. exists (k, a). split; [|done].
    by apply entries_elem.
Qed.

(** C16. The life cycles of a repository, once recomputed, are those of its snapshots in the order
    of their commits: every symbol and every relation that some snapshot has is recorded with the
    first and the last snapshot it is in and the commit that removed it, and nothing else is;
    the records of other repositories and all other tables stay as they were. *)
Theorem lifecycle_exact root repo_id c summary c' :
  db_ok (current c) → repos (current c) !! root = Some repo_id →
  recompute root c = (Ok summary, c') → snapshots_ordered (current c) repo_id ≠ [] →
  let d := current c in
  let d' := current c' in
  let snapshots := snapshots_ordered d repo_id in
  (∀ k, life_of node_identity (node_signature_hash hex_hash) (nodes_of_snapshot d) snapshots k
          (node_life <$> node_history d' !! (repo_id, k))) ∧
  (∀ k, life_of edge_identity (lifecycle_metadata_hash hex_hash fixed6) (edges_of_snapshot d) snapshots k
          (edge_life <$> edge_history d' !! (repo_id, k))) ∧
  (∀ other k, other ≠ repo_id → node_history d' !! (other, k) = node_history d !! (other, k)) ∧
  (∀ other k, other ≠ repo_id → edge_history d' !! (other, k) = edge_history d !! (other, k)) ∧
  d' = set_history (node_history d') (edge_history d') d.
Proof.
  intros Hok Hrepo Hrun Hne. cbn zeta.
  destruct (recompute_ok _ _ _ _ _ _ _ _ _ Hrepo Hrun) as (Hd & _ & _ & Hl).
  destruct (Hl Hne) as [Hn He]. split_and!; [..|exact Hd].
  - intros k. rewrite (node_history_of _ _ _ _ _ _ Hok Hn). apply life_of_acc.
  - intros k. rewrite (edge_history_of _ _ _ _ _ _ Hok He). apply life_of_acc.
  - intros other k Hot. apply option_eq. intros r. rewrite Hn. split.
    + intros [[Hr _]|(Hk & [[? [? ?]] ?] & _ & ->)]; [done|]. injection Hk as <- _. by destruct Hot.
    + intros Hr. left. split; [done|]. apply (ok_node_history _ Hok) in Hr as [[= -> _] _]. done.
  - intros other k Hot. apply option_eq. intros r. rewrite He. split.
    + intros [[Hr _]|(Hk & [[? [? [? ?]]] ?] & _ & ->)]; [done|]. injection Hk as <- _. by destruct Hot.
    + intros Hr. left. split; [done|]. apply (ok_edge_history _ Hok) in Hr as [[= -> _] _]. done.
Qed.
#[export] Instance plain_recompute root : Plain (recompute_lifecycle fault hex_hash fixed6 print_json root).
Proof.
  apply plain_bind; [apply _|]. intros [repo|]; [|apply _]. apply plain_bind; [apply _|].
  intros snapshots. case_decide; apply _.
Qed.

#[export] Instance recompute_keeps root :
  Keeps db_ok (recompute_lifecycle fault hex_hash fixed6 print_json root).
Proof.
  apply keeps_bind; [apply _|]. intros [repo|]; [|apply _]. apply keeps_bind; [apply _|].
  intros snapshots. case_decide; [apply _|].
  apply keeps_bind; [apply keeps_fold_each; intros m [i s]; apply _|]. intros maps.
  assert (∀ N E d, db_ok d → (∀ k r, N !! k = Some r → node_history_key r = k ∧
      is_Some (graph_snapshots d !! nh_first_id r) ∧ is_Some (graph_snapshots d !! nh_last_id r)) →
    (∀ k r, E !! k = Some r → edge_history_key r = k ∧
      is_Some (graph_snapshots d !! eh_first_id r) ∧ is_Some (graph_snapshots d !! eh_last_id r)) →
    db_ok (set_history N E d)) as Hset by (intros N E d [] HN HE; by split).
  apply keeps_bind; [apply keeps_map_err, keeps_bind|intros _; apply keeps_bind;
    [apply keeps_map_err, keeps_bind|intros _; apply _]].
  - apply keeps_execute. intros d d' Hok [= <-]. apply Hset; [done| |apply Hok].
    intros k r [Hk _]%map_lookup_filter_Some. by apply Hok.
  - intros _. apply keeps_for_each. intros r. apply keeps_execute. intros d d' Hok.
    unfold insert_node_history. case_bool_decide; [done|]. destruct (_ && _ && _) eqn:Hfk; [|done].
    intros [= <-]. unfold snapshot_exists in Hfk. split_bools. apply Hset; [done| |apply Hok].
    intros k x [[<- <-]|[_ Hx]]%lookup_insert_Some; [done|by apply Hok].
  - apply keeps_execute. intros d d' Hok [= <-]. apply Hset; [done|apply Hok|].
    intros k r [Hk _]%map_lookup_filter_Some. by apply Hok.
  - intros _. apply keeps_for_each. intros r. apply keeps_execute. intros d d' Hok.
    unfold insert_edge_history. case_bool_decide; [done|]. destruct (_ && _ && _) eqn:Hfk; [|done].
    intros [= <-]. unfold snapshot_exists in Hfk. split_bools. apply Hset; [done|apply Hok|].
    intros k x [[<- <-]|[_ Hx]]%lookup_insert_Some; [done|by apply Hok].
Qed.

End lifecycle_theorems.

(** ** Examples *)

Definition never : nat → option Fault := λ _, None.
Definition demo_clock : nat → N := λ _, 1700000000%N.

Definition demo_node (hash qn : string) : HistoricalNode :=
  mk_hnode hash qn "function" qn "a.rs" (Some 1%Z) (Some 2%Z) (Some "rust") None (Some "()") None None
    false None.
Definition demo_edge (hash source target : string) : HistoricalEdge :=
  mk_hedge hash source target "calls" "a.rs" (Some 1%Z) one None None.
Definition demo_commit (sha : string) (time : Z) : StoredCommit :=
  mk_commit sha 1 None None None None time time "s" None "".

(** Three commits of one file: a symbol appears with the first, calls another one from the
    second on and is gone with the third. *)
Definition demo_build : M string unit :=
  let snapshot sha time hash nodes edges :=
    _ <-! upsert_commit never demo_clock (demo_commit sha time);;
    id <-! insert_snapshot never demo_clock 1 sha None (Z.of_nat (length nodes)) (Z.of_nat (length edges)) 1 one 0;;
    _ <-! insert_snapshot_files never [mk_file id "a.rs" hash (Some "rust") None];;
    _ <-! insert_historical_nodes never nodes;;
    _ <-! insert_historical_edges never edges;;
    _ <-! attach_snapshot_nodes never id hash (map hn_qn nodes);;
    attach_snapshot_edges never id hash (map (λ e, snd (edge_row_key e)) edges) in
  _ <-! upsert_repo never demo_clock "/r";;
  _ <-! snapshot "c1" 10%Z "h1" [demo_node "h1" "f"] [];;
  _ <-! snapshot "c2" 20%Z "h2" [demo_node "h2" "f"; demo_node "h2" "g"] [demo_edge "h2" "f" "g"];;
  snapshot "c3" 30%Z "h3" [demo_node "h3" "g"] [].

Definition demo_conn : Conn := snd (demo_build (mk_conn empty_db None 0)).

Lemma demo_ok : db_ok (committed demo_conn).
Proof. apply db_check_ok. vm_compute. reflexivity. Qed.

Example demo_lifecycle :
  let (r, c) := recompute_lifecycle never id (λ _, "1") (λ _, "") "/r" demo_conn in
  (r, node_life <$> node_history (current c) !! (1%Z, ("f", ("a.rs", "function"))),
      node_life <$> node_history (current c) !! (1%Z, ("g", ("a.rs", "function")))) =
  (Ok (mk_lifecycle 1 3 2 1),
   Some (mk_life (Some ("()" +:+ unit_separator +:+ unit_separator)) 1 2 "c1" "c2" "c1" (Some "c3")),
   Some (mk_life (Some ("()" +:+ unit_separator +:+ unit_separator)) 2 3 "c2" "c3" "c2" None)).
Proof. vm_compute. reflexivity. Qed.

#[local] Abbreviation demo_recompute := (recompute_lifecycle never id (λ _, "1") (λ _, "") "/r" demo_conn).

Lemma lifecycle_exact_witness :
  life_of node_identity (node_signature_hash id) (nodes_of_snapshot (current demo_conn))
    (snapshots_ordered (current demo_conn) 1) ("f", ("a.rs", "function"))
    (node_life <$> node_history (current (snd demo_recompute)) !! (1%Z, ("f", ("a.rs", "function")))).
Proof.
  assert (demo_recompute = (Ok (mk_lifecycle 1 3 2 1), snd demo_recompute)) as Hrun
    by (apply ran; vm_compute; reflexivity).
  assert (repos (current demo_conn) !! "/r" = Some 1%Z) as Hrepo by (vm_compute; reflexivity).
  assert (snapshots_ordered (current demo_conn) 1 ≠ []) as Hne by (vm_compute; discriminate).
  assert (working demo_conn = None) as Hw by (vm_compute; reflexivity).
  assert (db_ok (current demo_conn)) as Hok by (rewrite (current_idle demo_conn Hw); exact demo_ok).
  exact (proj1 (lifecycle_exact never id (λ _, "1") (λ _, "") "/r" 1 demo_conn _ _ Hok Hrepo Hrun Hne)
    ("f", ("a.rs", "function"))).
Defined.
