(* ===== verification/HistoryPrune.v ===== *)
(** * Pruning the history

    Model of [packages/atlas-history/src/prune.rs] on the tables of [HistoryTables]: which
    snapshots a retention policy keeps, and what is deleted with the others. The clock and
    git's list of tags are parameters, besides those of [HistoryLifecycle]. *)

From Stdlib Require Import Floats.SpecFloat.
From S2P Require Import Prelude RustStr Json BTree Calendar Scc HistoryDiff HistoryGit Sqlite HistoryTables HistoryInvariant HistoryLifecycle.

(** ** Pruning *)

Record HistoryRetentionPolicy := mk_retention {
  keep_all : bool; keep_latest : option N; older_than_days : option N; keep_tagged_only : bool;
  keep_weekly : bool }.

Record HistoryPruneSummary := mk_prune_summary {
  ps_policy : HistoryRetentionPolicy; commits_before : nat; commits_after : nat;
  snapshots_before : nat; snapshots_after : nat; deleted_commit_shas : list string;
  deleted_snapshot_ids : list Z; reclaimed_file_hashes : nat; reclaimed_historical_nodes : nat;
  reclaimed_historical_edges : nat; ps_lifecycle : LifecycleSummary }.

(** [i64]: the casts wrap, [saturating_mul] and [saturating_sub] stop at the bounds. *)
Definition i64_min : Z := -9223372036854775808.
Definition i64_max : Z := 9223372036854775807.
Definition sat_i64 (z : Z) : Z := Z.max i64_min (Z.min i64_max z).
Definition as_i64 (n : N) : Z :=
  if (Z.of_N n <=? i64_max)%Z then Z.of_N n else (Z.of_N n - 18446744073709551616)%Z.

(** The names of the latest snapshot of each week; a later snapshot replaces an earlier one. *)
Definition weekly (commit_by_sha : gmap string StoredCommit) (snapshots : list StoredSnapshot) :
    gmap Z string :=
  foldl (λ weeks s,
    match commit_by_sha !! st_commit_sha s with
    | Some c => <[(cm_author_time c / (86400 * 7))%Z := st_commit_sha s]> weeks
    | None => weeks
    end) ∅ snapshots.

Definition no_policy (p : HistoryRetentionPolicy) : bool :=
  negb (keep_all p) && negb (bool_decide (is_Some (keep_latest p))) &&
  negb (bool_decide (is_Some (older_than_days p))) && negb (keep_tagged_only p) &&
  negb (keep_weekly p).

(** The names of the commits a policy keeps. [tags] are those of git. *)
Definition keep_shas (p : HistoryRetentionPolicy) (now : Z) (tags : list TagRef)
    (commits : list StoredCommit) (snapshots : list StoredSnapshot) : list string :=
  match keep_latest p with
  | Some n => map st_commit_sha (take (N.to_nat n) (reverse snapshots))
  | None => []
  end ++
  match older_than_days p with
  | Some days =>
      let cutoff := sat_i64 (now - sat_i64 (as_i64 days * 86400)) in
      map cm_sha (filter (λ c, (cutoff <= cm_author_time c)%Z) commits)
  | None => []
  end ++
  (if keep_tagged_only p then map tag_commit_sha tags else []) ++
  (if keep_weekly p
   then map snd (entries Z.compare
          (weekly (collect_map (map (λ c, (cm_sha c, c)) commits)) snapshots))
   else []).

Definition deleted (keep : list string) (snapshots : list StoredSnapshot) : list StoredSnapshot :=
  filter (λ s, st_commit_sha s ∉ keep) snapshots.

Section prune.
Context (fault : nat → option Fault).
Context (hex_hash : string → string) (fixed6 : spec_float → string) (print_json : Json → string).
(** The time in seconds, if the clock is not before 1970, and [git show-ref --tags -d]. *)
Context (now : option N) (list_tag_refs : result string (list TagRef)).

Definition lifted {A} (m : M string A) : M HistoryError A := map_err Other m.

Definition unchanged (p : HistoryRetentionPolicy) (commits : list StoredCommit)
    (snapshots : list StoredSnapshot) (lifecycle : LifecycleSummary) : HistoryPruneSummary :=
  mk_prune_summary p (length commits) (length commits) (length snapshots) (length snapshots)
    [] [] 0 0 0 lifecycle.

Definition prune_historical_graph (canonical_root : string) (p : HistoryRetentionPolicy) :
    M HistoryError HistoryPruneSummary :=
  let recompute := lifted (recompute_lifecycle fault hex_hash fixed6 print_json canonical_root) in
  repo <-! lifted (find_repo_id fault canonical_root);;
  match repo with
  | None => fail (Other (not_registered canonical_root))
  | Some repo_id =>
      commits <-! lifted (list_commits fault repo_id);;
      snapshots <-! lifted (list_snapshots_ordered fault repo_id);;
      if bool_decide (commits = []) || bool_decide (snapshots = [])
      then lifecycle <-! recompute;; ret (unchanged p commits snapshots lifecycle)
      else if no_policy p
      then fail (InvalidSelector "no history prune retention policy selected")
      else if keep_all p
      then lifecycle <-! recompute;; ret (unchanged p commits snapshots lifecycle)
      else
        tags <-! (if keep_tagged_only p
                  then match list_tag_refs with
                       | Ok tags => ret tags
                       | Err e => fail (Other ("list tag refs for history prune: " +:+ e))
                       end
                  else ret []);;
        let keep := keep_shas p (default 0%Z (as_i64 <$> now)) tags commits snapshots in
        let gone := deleted keep snapshots in
        let ids := map st_snapshot_id gone in
        let shas := map st_commit_sha gone in
        _ <-! lifted (delete_history_snapshots fault ids);;
        _ <-! lifted (delete_history_commits fault repo_id shas);;
        reclaimed <-! lifted (prune_orphan_historical_file_graphs fault);;
        lifecycle <-! recompute;;
        commits_after <-! lifted (list_commits fault repo_id);;
        snapshots_after <-! lifted (list_snapshots_ordered fault repo_id);;
        let '(hashes, nodes, edges) := reclaimed in
        ret (mk_prune_summary p (length commits) (length commits_after) (length snapshots)
          (length snapshots_after) shas ids hashes nodes edges lifecycle)
  end.
End prune.

(** ** What a retention policy keeps *)

Definition week_of (commits : list StoredCommit) (s : StoredSnapshot) (w : Z) : Prop :=
  ∃ c, c ∈ commits ∧ cm_sha c = st_commit_sha s ∧ w = (cm_author_time c / (86400 * 7))%Z.

(** One of the latest, recent enough, tagged, or the last of its week. *)
Definition retained (p : HistoryRetentionPolicy) (now : Z) (tags : list TagRef)
    (commits : list StoredCommit) (snapshots : list StoredSnapshot) (s : StoredSnapshot) : Prop :=
  (∃ n i, keep_latest p = Some n ∧ snapshots !! i = Some s ∧ (length snapshots - N.to_nat n ≤ i)%nat) ∨
  (∃ days c, older_than_days p = Some days ∧ c ∈ commits ∧ cm_sha c = st_commit_sha s ∧
     (sat_i64 (now - sat_i64 (as_i64 days * 86400)) <= cm_author_time c)%Z) ∨
  (keep_tagged_only p = true ∧ ∃ t, t ∈ tags ∧ tag_commit_sha t = st_commit_sha s) ∨
  (keep_weekly p = true ∧ ∃ i w, snapshots !! i = Some s ∧ week_of commits s w ∧
     ∀ j t, (i < j)%nat → snapshots !! j = Some t → ¬ week_of commits t w).

Section keep.
Context (commits : list StoredCommit) (Hcommits : NoDup (map cm_sha commits)).

Definition week_in (s : StoredSnapshot) : option Z :=
  (λ c, (cm_author_time c / (86400 * 7))%Z) <$>
    collect_map (map (λ c, (cm_sha c, c)) commits) !! st_commit_sha s.

Lemma week_in_spec s w : week_in s = Some w ↔ week_of commits s w.
Proof.
  unfold week_in, week_of. rewrite fmap_Some.
  assert (NoDup (map fst (map (λ c, (cm_sha c, c)) commits))) as Hnd by (by rewrite map_map).
  setoid_rewrite (collect_map_lookup _ _ _ Hnd). setoid_rewrite list_elem_of_fmap. split.
  - intros (c & (c' & [= -> <-] & Hc) & ->). by exists c.
  - intros (c & Hc & Hs & ->). exists c. split; [|done]. exists c. by rewrite Hs.
Qed.

Lemma weekly_lookup snapshots : ∀ w sha,
  weekly (collect_map (map (λ c, (cm_sha c, c)) commits)) snapshots !! w = Some sha ↔
  ∃ i s, snapshots !! i = Some s ∧ st_commit_sha s = sha ∧ week_in s = Some w ∧
    ∀ j t, (i < j)%nat → snapshots !! j = Some t → week_in t ≠ Some w.
Proof.
  unfold weekly. induction snapshots as [|s snapshots IH] using rev_ind; intros w sha.
  { cbn [foldl]. rewrite lookup_empty. split; [done|]. intros (i & s & Hs & _). by rewrite lookup_nil in Hs. }
  rewrite foldl_snoc. set (m := foldl _ ∅ snapshots) in *.
  assert ((match collect_map (map (λ c, (cm_sha c, c)) commits) !! st_commit_sha s with
           | Some c => <[(cm_author_time c / (86400 * 7))%Z := st_commit_sha s]> m
           | None => m
           end) = match week_in s with Some v => <[v := st_commit_sha s]> m | None => m end) as ->.
  { unfold week_in. by destruct (_ !! _). }
  assert (∀ i t, (snapshots ++ [s]) !! i = Some t ↔
    snapshots !! i = Some t ∨ (i = length snapshots ∧ t = s)) as Hsnoc.
  { intros i t. rewrite lookup_snoc_Some. split; [|intros [?|[-> ->]]; [left|by right]].
    - intros [[_ ?]|[-> ->]]; auto.
    - split; [by eapply lookup_lt_Some|done]. }
  setoid_rewrite Hsnoc.
  destruct (decide (week_in s = Some w)) as [Hw|Hw].
  - rewrite Hw, lookup_insert_eq. split.
    + intros [= <-]. exists (length snapshots), s. split_and!; [by right|done..|].
      intros j t Hj [Ht%lookup_lt_Some|[-> _]]; lia.
    + intros (i & t & [Ht|[-> ->]] & <- & _ & Hlast); [|done]. exfalso.
      apply (Hlast (length snapshots) s); [by eapply lookup_lt_Some|by right|done].
  - assert (match week_in s with Some v => <[v := st_commit_sha s]> m | None => m end !! w = m !! w) as ->.
    { destruct (week_in s) as [v|] eqn:Hv; [|done]. apply lookup_insert_ne. congruence. }
    rewrite IH. split.
    + intros (i & t & Ht & Hsha & Hwt & Hlast). exists i, t. split_and!; [by left|done..|].
      intros j u Hj [Hu|[_ ->]]; [by eapply Hlast|done].
    + intros (i & t & [Ht|[-> ->]] & Hsha & Hwt & Hlast); [|done].
      exists i, t. split_and!; [done..|]. intros j u Hj Hu. eapply Hlast; [done|by left].
Qed.

Lemma keep_shas_spec p now tags (snapshots : list StoredSnapshot) s :
  NoDup (map st_commit_sha snapshots) → s ∈ snapshots →
  st_commit_sha s ∈ keep_shas p now tags commits snapshots ↔
  retained p now tags commits snapshots s.
Proof.
  intros Hnd Hs.
  assert (∀ t, t ∈ snapshots → st_commit_sha t = st_commit_sha s → t = s) as Hinj.
  { intros t [i Hi]%list_elem_of_lookup Heq. apply list_elem_of_lookup in Hs as [j Hj].
    assert (i = j) as ->; [|congruence]. eapply (NoDup_lookup _ _ _ (st_commit_sha s) Hnd);
      rewrite list_lookup_fmap; [rewrite Hi|rewrite Hj]; cbn; congruence. }
  unfold keep_shas, retained. rewrite !elem_of_app.
  f_equiv; [|f_equiv; [|f_equiv]].
  - destruct (keep_latest p) as [n|]; [|naive_solver set_solver].
    rewrite list_elem_of_fmap. split.
    + intros (t & Ht & Hin). apply elem_of_take in Hin as (k & Hk & Hlt).
      apply reverse_lookup_Some in Hk as [Hk Hkl].
      rewrite <- (Hinj t) by (by try eapply list_elem_of_lookup_2). exists n, (length snapshots - S k)%nat.
      split_and!; [done..|lia].
    + intros (n' & i & [= <-] & Hi & Hle). exists s. split; [done|].
      apply elem_of_take. pose proof (lookup_lt_Some _ _ _ Hi).
      exists (length snapshots - S i)%nat. split; [|lia].
      apply reverse_lookup_Some. split; [|lia]. by replace (length snapshots - S _)%nat with i by lia.
  - destruct (older_than_days p) as [days|]; [|naive_solver set_solver].
    rewrite list_elem_of_fmap. setoid_rewrite list_elem_of_filter. naive_solver.
  - destruct (keep_tagged_only p); [|naive_solver set_solver].
    rewrite list_elem_of_fmap. naive_solver.
  - destruct (keep_weekly p); [|naive_solver set_solver].
    rewrite list_elem_of_fmap. split.
    + intros ([w sha] & Hsha & He%entries_elem). cbn in Hsha. subst sha.
      apply weekly_lookup in He as (i & t & Hi & Heq & Hw & Hlast). split; [done|].
      rewrite <- (Hinj t) by (by try eapply list_elem_of_lookup_2). exists i, w.
      setoid_rewrite <- week_in_spec. done.
    + intros (_ & i & w & Hi & Hw & Hlast). exists (w, st_commit_sha s). split; [done|].
      apply entries_elem, weekly_lookup. exists i, s. split_and!; [done..|by apply week_in_spec|].
      intros j t Hj Ht Hwt. by apply (Hlast j t), week_in_spec.
Qed.
End keep.

(** ** Pruning keeps what the policy says *)

Section reading_lists.
Context (d : Db) (Hok : db_ok d).

Lemma snapshots_ordered_NoDup repo_id : NoDup (map st_commit_sha (snapshots_ordered d repo_id)).
Proof.
  assert (NoDup (map st_commit_sha (snapshots_of d repo_id))) as Hl.
  { apply rows_key_NoDup. intros k k' s t Hs Ht Hr Hr' Heq.
    apply (ok_unique d Hok k k' s t); [done..|congruence|done]. }
  unfold snapshots_ordered. rewrite sort_by_perm.
  induction (snapshots_of d repo_id) as [|s l IH]; [constructor|]. cbn [omap list_omap].
  cbn [map] in Hl. apply NoDup_cons in Hl as [Hs Hl].
  destruct (commits d !! _) as [c|]; cbn; [|by apply IH]. apply NoDup_cons. split; [|by apply IH].
  intros (x & Heq & Hx)%list_elem_of_fmap. apply Hs. apply list_elem_of_fmap in Hx as (y & -> & Hy).
  apply list_elem_of_omap in Hy as (z & Hz & Hc). apply bind_Some in Hc as (? & _ & [= <-]).
  apply list_elem_of_fmap. by exists z.
Qed.

Lemma commits_of_NoDup repo_id : NoDup (map cm_sha (commits_of d repo_id)).
Proof.
  apply rows_key_NoDup. intros k k' s t Hs Ht Hr Hr' Heq.
  rewrite <- (ok_commit d Hok k s), <- (ok_commit d Hok k' t) by done. congruence.
Qed.
End reading_lists.

Section prune_theorems.
Context (fault : nat → option Fault).
Context (hex_hash : string → string) (fixed6 : spec_float → string) (print_json : Json → string).
Context (now : option N) (list_tag_refs : result string (list TagRef)).
#[local] Abbreviation prune := (prune_historical_graph fault hex_hash fixed6 print_json now list_tag_refs).

(** The tables that a run with these tags leaves, before life cycles are recomputed. *)
Definition pruned (p : HistoryRetentionPolicy) (tags : list TagRef) (repo_id : Z) (d : Db) : Db :=
  let commits := sort_by commit_order (commits_of d repo_id) in
  let snapshots := snapshots_ordered d repo_id in
  let gone := deleted (keep_shas p (default 0%Z (as_i64 <$> now)) tags commits snapshots) snapshots in
  let d := drop_commits repo_id (map st_commit_sha gone) (purge (map st_snapshot_id gone) d) in
  delete_graphs (orphan_hashes d) d.

Definition tags_read (p : HistoryRetentionPolicy) : list TagRef :=
  if keep_tagged_only p then match list_tag_refs with Ok tags => tags | Err _ => [] end else [].

Lemma prune_ok root p repo_id c summary c' :
  working c = None → repos (committed c) !! root = Some repo_id → prune root p c = (Ok summary, c') →
  let d := committed c in
  working c' = None ∧
  ∃ N E, committed c' = set_history N E
    (if bool_decide (commits_of d repo_id = []) || bool_decide (snapshots_ordered d repo_id = []) || keep_all p
     then d else pruned p (tags_read p) repo_id d).
Proof.
  intros Hw Hrepo. unfold prune_historical_graph. cbn zeta.
  intros (o & c1 & H1%map_err_ok & Hr)%bind_ok.
  apply query_idle in H1 as (-> & Hw1 & Hc1); [|done]. rewrite Hrepo in Hr.
  apply bind_ok in Hr as (commits & c2 & H2%map_err_ok & Hr).
  apply query_idle in H2 as (Hcs & Hw2 & Hc2); [|done].
  apply bind_ok in Hr as (snapshots & c3 & H3%map_err_ok & Hr).
  apply query_idle in H3 as (Hss & Hw3 & Hc3); [|done].
  rewrite Hc1 in Hcs, Hc2. rewrite Hc2 in Hss, Hc3.
  assert (bool_decide (commits = []) = bool_decide (commits_of (committed c) repo_id = [])) as He.
  { apply bool_decide_ext. rewrite Hcs. split; intros Hnil.
    - pose proof (sort_by_perm commit_order (commits_of (committed c) repo_id)) as Hp.
      rewrite Hnil in Hp. by apply Permutation_nil.
    - by rewrite Hnil. }
  rewrite He, Hss in Hr. clear He.
  assert (∀ s c4 c5, working c4 = None →
    map_err Other (recompute_lifecycle fault hex_hash fixed6 print_json root) c4 = (Ok s, c5) →
    repos (committed c4) !! root = Some repo_id →
    working c5 = None ∧ ∃ N E, committed c5 = set_history N E (committed c4)) as Hre.
  { intros s c4 c5 Hw4 Hx%map_err_ok Hrp. pose proof (plain_idle _ _ _ _ Hw4 Hx) as Hw5. split; [done|].
    rewrite <- (current_idle c4) in Hrp |- * by done. rewrite <- (current_idle c5) by done.
    apply (recompute_ok _ _ _ _ _ _ _ _ _ Hrp) in Hx as [Hd _]. eauto. }
  destruct (bool_decide (commits_of _ _ = []) || bool_decide (snapshots_ordered _ _ = [])); cbn [orb].
  { apply bind_ok in Hr as (s & c4 & Hx & [= _ <-]). rewrite <- Hc3.
    apply Hre in Hx; [done..|by rewrite Hc3]. }
  destruct (no_policy p); [done|]. destruct (keep_all p).
  { apply bind_ok in Hr as (s & c4 & Hx & [= _ <-]). rewrite <- Hc3.
    apply Hre in Hx; [done..|by rewrite Hc3]. }
  apply bind_ok in Hr as (tags & c4 & Ht & Hr).
  assert (tags = tags_read p ∧ c4 = c3) as [-> ->].
  { unfold tags_read. destruct (keep_tagged_only p); [destruct list_tag_refs|]; by injection Ht. }
  rewrite Hcs in Hr. clear Ht Hre.
  apply bind_ok in Hr as (? & c5 & H5%map_err_ok & Hr).
  apply delete_history_snapshots_ok in H5 as [Hw5 Hc5]; [|done].
  apply bind_ok in Hr as (? & c6 & H6%map_err_ok & Hr).
  apply delete_history_commits_ok in H6 as [Hw6 Hc6]; [|done].
  apply bind_ok in Hr as ([[nh nn] ne] & c7 & H7%map_err_ok & Hr).
  apply prune_orphans_ok in H7 as [Hw7 Hc7]; [|done].
  apply bind_ok in Hr as (s & c8 & H8%map_err_ok & Hr).
  pose proof (plain_idle _ _ _ _ Hw7 H8) as Hw8.
  apply bind_ok in Hr as (? & c9 & H9%map_err_ok & Hr). apply query_idle in H9 as (_ & Hw9 & Hc9); [|done].
  apply bind_ok in Hr as (? & c10 & H10%map_err_ok & [= _ <-]).
  apply query_idle in H10 as (_ & Hw10 & Hc10); [|done]. split; [done|].
  rewrite Hc10, Hc9, <- (current_idle c8) by done.
  assert (repos (current c7) !! root = Some repo_id) as Hrp.
  { rewrite current_idle, Hc7 by done.
    by rewrite delete_graphs_repos, Hc6, drop_commits_repos, Hc5, purge_repos, Hc3. }
  apply (recompute_ok _ _ _ _ _ _ _ _ _ Hrp) in H8 as [Hd _]. rewrite Hd. do 2 eexists. f_equal.
  rewrite current_idle by done. by rewrite Hc7, Hc6, Hc5, Hc3.
Qed.

Lemma deleted_elem keep snapshots s : s ∈ deleted keep snapshots ↔ s ∈ snapshots ∧ (st_commit_sha s ∉ keep).
Proof. unfold deleted. rewrite list_elem_of_filter. tauto. Qed.

(** Which snapshots and commits of a state a set of names leaves. *)
Lemma purge_deleted_snapshots d repo_id keep id s :
  db_ok d →
  let gone := deleted keep (snapshots_ordered d repo_id) in
  graph_snapshots (purge (map st_snapshot_id gone) d) !! id = Some s ↔
  graph_snapshots d !! id = Some s ∧ (st_repo_id s = repo_id → st_commit_sha s ∈ keep).
Proof.
  intros Hok. cbn zeta. set (gone := deleted _ _). pose proof (purge_spec (map st_snapshot_id gone) d) as Hs.
  assert (∀ s, graph_snapshots d !! id = Some s →
    id ∈ map st_snapshot_id gone ↔ st_repo_id s = repo_id ∧ (st_commit_sha s ∉ keep)) as Hgone.
  { intros t Ht. destruct (ok_snapshot d Hok _ _ Ht) as [Hid _]. rewrite list_elem_of_fmap.
    unfold gone. setoid_rewrite deleted_elem. setoid_rewrite (snapshots_ordered_elem d Hok).
    split; [|intros [Hr Hk]; exists t; rewrite Hid; naive_solver].
    intros (u & Hu & [Hg Hr] & Hk). rewrite <- Hu, Ht in Hg. injection Hg as <-. done. }
  destruct (decide (id ∈ map st_snapshot_id gone)) as [Hin|Hout].
  - rewrite (se_gone _ _ _ Hs) by done. split; [done|]. intros [Ht Hk]. apply (Hgone s Ht) in Hin as [Hr Hn].
    exfalso. by apply Hn, Hk.
  - rewrite (se_snapshots _ _ _ Hs) by done. split; [|by intros []]. intros Ht. split; [done|].
    intros Hr. destruct (decide (st_commit_sha s ∈ keep)) as [|Hn]; [done|]. exfalso.
    by apply Hout, (Hgone s Ht).
Qed.

Lemma drop_purged_ok d repo_id keep :
  db_ok d →
  let gone := deleted keep (snapshots_ordered d repo_id) in
  db_ok (drop_commits repo_id (map st_commit_sha gone) (purge (map st_snapshot_id gone) d)).
Proof.
  intros Hok. cbn zeta. apply drop_commits_ok; [by apply purge_ok|].
  intros id s [Hs Hk]%purge_deleted_snapshots Hr; [|done].
  intros (t & Heq & [_ Hn]%deleted_elem)%list_elem_of_fmap. apply Hn. rewrite <- Heq. by apply Hk.
Qed.

#[export] Instance prune_keeps root p : Keeps db_ok (prune root p).
Proof.
  intros c Hw Hok. unfold prune_historical_graph. cbn zeta.
  apply keeps_bind_at; [by apply keeps_map_err; [apply _|..]|].
  intros [repo_id|] c1 _ Hw1 Hok1; [|done].
  apply keeps_bind_at; [by apply keeps_map_err; [apply _|..]|]. intros commits c2 _ Hw2 Hok2.
  apply keeps_bind_at; [by apply keeps_map_err; [apply _|..]|]. intros snapshots c3 H3 Hw3 Hok3.
  apply map_err_ok, query_idle in H3 as (-> & _ & <-); [|done].
  assert (∀ {A} (m : M HistoryError A) c0, Keeps db_ok m → working c0 = None → db_ok (committed c0) →
    working (snd (m c0)) = None ∧ db_ok (committed (snd (m c0)))) as Hk
    by (intros A m c0 Hm Hw0 Hok0; exact (Hm c0 Hw0 Hok0)).
  case_match; [apply Hk; [apply _|done..]|]. case_match; [done|]. case_match; [apply Hk; [apply _|done..]|].
  apply keeps_bind_at; [destruct (keep_tagged_only p); [destruct list_tag_refs|]; done|].
  intros tags c4 H4 Hw4 Hok4.
  assert (c4 = c3) as -> by (destruct (keep_tagged_only p); [destruct list_tag_refs|]; by injection H4).
  set (gone := deleted _ _).
  apply keeps_bind_at; [by apply keeps_map_err; [apply _|..]|]. intros u c5 H5 Hw5 Hok5.
  apply map_err_ok, delete_history_snapshots_ok in H5 as [_ Hc5]; [|done].
  apply keeps_bind_at.
  - unfold lifted. rewrite map_err_conn.
    destruct (delete_history_commits _ _ _ c5) as [[|e'] c7] eqn:H7.
    + apply delete_history_commits_ok in H7 as [Hw7 Hc7]; [|done]. cbn [snd]. split; [done|].
      rewrite Hc7, Hc5. by apply drop_purged_ok.
    + apply delete_history_commits_err in H7 as [Hw7 Hc7]; [|done]. cbn [snd]. split; [done|].
      by rewrite Hc7.
  - intros v c6 _ Hw6 Hok6. apply Hk; [|done..].
    apply keeps_bind; [apply _|]. intros [[nh nn] ne]. apply _.
Qed.

Lemma pruned_spec p tags repo_id d :
  db_ok d →
  let d' := pruned p tags repo_id d in
  let keep s := st_repo_id s = repo_id →
    retained p (default 0%Z (as_i64 <$> now)) tags (commits_of d repo_id) (snapshots_ordered d repo_id) s in
  db_ok d' ∧
  (∀ id s, graph_snapshots d' !! id = Some s ↔ graph_snapshots d !! id = Some s ∧ keep s) ∧
  (∀ id, is_Some (graph_snapshots d' !! id) → reads_same id d d') ∧
  (∀ k c, commits d' !! k = Some c ↔ commits d !! k = Some c ∧
     ∀ s, s ∈ snapshots_ordered d repo_id → (st_commit_sha s, repo_id) = k → keep s) ∧
  (∀ k n, historical_nodes d' !! k = Some n →
     ∃ k' f, snapshot_files d' !! k' = Some f ∧ sf_hash f = hn_file_hash n).
Proof.
  intros Hok. cbn zeta.
  set (names := keep_shas p (default 0%Z (as_i64 <$> now)) tags (sort_by commit_order (commits_of d repo_id))
                  (snapshots_ordered d repo_id)).
  set (gone := deleted names (snapshots_ordered d repo_id)).
  set (d1 := purge (map st_snapshot_id gone) d).
  set (d2 := drop_commits repo_id (map st_commit_sha gone) d1).
  assert (pruned p tags repo_id d = delete_graphs (orphan_hashes d2) d2) as Hd' by reflexivity.
  assert (∀ s, s ∈ snapshots_ordered d repo_id → st_commit_sha s ∈ names ↔
    retained p (default 0%Z (as_i64 <$> now)) tags (commits_of d repo_id) (snapshots_ordered d repo_id) s) as Hnames.
  { intros s Hs. unfold names. rewrite keep_shas_spec; [|rewrite sort_by_perm; by apply commits_of_NoDup|
      by apply snapshots_ordered_NoDup|done].
    unfold retained, week_of. by setoid_rewrite sort_by_elem. }
  pose proof (drop_purged_ok d repo_id names Hok) as Hok2. fold gone d1 d2 in Hok2.
  destruct (delete_graphs_spec (orphan_hashes d2) d2) as (Hn & He & Hd). cbn zeta in *. rewrite <- Hd' in *.
  destruct (drop_commits_spec repo_id (map st_commit_sha gone) d1) as [Hl Hd2]. fold d2 in Hl, Hd2.
  assert (∀ id s, graph_snapshots (pruned p tags repo_id d) !! id = Some s ↔
    graph_snapshots d !! id = Some s ∧ (st_repo_id s = repo_id → st_commit_sha s ∈ names)) as Hsnap.
  { intros id s. rewrite Hd. cbn. rewrite Hd2. cbn. by apply purge_deleted_snapshots. }
  split_and!.
  - rewrite Hd'. apply delete_orphans_ok; [|done]. intros h k f [_ Hh]%orphan_hashes_elem. apply Hh.
  - intros id s. rewrite Hsnap. split; intros [Hs Hk]; (split; [done|]); intros Hr; specialize (Hk Hr).
    + apply Hnames; [|done]. apply snapshots_ordered_elem; [done|].
      by destruct (ok_snapshot d Hok _ _ Hs) as [-> _].
    + apply Hnames; [|done]. apply snapshots_ordered_elem; [done|].
      by destruct (ok_snapshot d Hok _ _ Hs) as [-> _].
  - intros id [s Hs]. rewrite Hsnap in Hs. destruct Hs as [Hs Hk].
    apply reads_same_trans with d2; [|rewrite Hd'; by apply delete_orphans_reads].
    apply reads_same_trans with d1; [|rewrite Hd2; split; reflexivity].
    apply purge_reads; [done|]. intros (t & Ht & [Ht' Hn']%deleted_elem)%list_elem_of_fmap.
    apply snapshots_ordered_elem in Ht' as [Hg Hr]; [|done]. rewrite <- Ht, Hs in Hg. injection Hg as <-.
    by apply Hn', Hk.
  - intros k c. rewrite Hd. cbn. rewrite Hl. unfold d1.
    rewrite (proj1 (proj2 (se_rest _ _ _ (purge_spec (map st_snapshot_id gone) d)))).
    f_equiv. destruct k as [sha r]. cbn [fst snd]. split.
    + intros Hno s Hs [= <- <-] _. apply Hnames; [done|].
      destruct (decide (st_commit_sha s ∈ names)) as [|Hn']; [done|]. exfalso. apply Hno. split; [done|].
      apply list_elem_of_fmap. exists s. split; [done|]. by apply deleted_elem.
    + intros Hall [-> (s & -> & [Hs Hn']%deleted_elem)%list_elem_of_fmap]. apply Hn', Hnames; [done|].
      apply Hall; [done..|]. by apply (snapshots_ordered_elem _ Hok) in Hs as [_ Hr].
  - intros k n [Hk Ho]%Hn. rewrite Hd. cbn.
    destruct (decide (hn_file_hash n ∈ map sf_hash (rows (snapshot_files d2)))) as [Hin|Hout].
    + apply list_elem_of_fmap in Hin as (f & Hf & [k' Hk']%rows_elem). by exists k', f.
    + exfalso. apply Ho, orphan_hashes_elem. split; [by exists k, n|]. intros k' f Hf Hh.
      apply Hout, list_elem_of_fmap. exists f. split; [done|]. apply rows_elem. by exists k'.
Qed.

(** Nothing is left of a snapshot that is not there. *)
Definition no_trace (d : Db) (id : Z) : Prop :=
  (∀ path, snapshot_files d !! (id, path) = None) ∧ (∀ qn, snapshot_nodes d !! (id, qn) = None) ∧
  (∀ e, snapshot_edges d !! (id, e) = None).

Lemma absent_no_trace d id : db_ok d → graph_snapshots d !! id = None → no_trace d id.
Proof.
  intros Hok Hid. assert (∀ path, snapshot_files d !! (id, path) = None) as Hf.
  { intros path. apply eq_None_not_Some. intros [f Hf]. apply (ok_file d Hok) in Hf as [_ [s Hs]]. cbn in Hs. congruence. }
  split_and!; [done|intros qn|intros e]; apply eq_None_not_Some; intros [h Hh].
  - destruct (ok_member d Hok _ _ _ Hh) as (_ & path & f & Hp & _). by rewrite Hf in Hp.
  - destruct (ok_edge_member d Hok _ _ _ Hh) as (_ & path & f & Hp & _). by rewrite Hf in Hp.
Qed.

Lemma prune_snapshots root p repo_id c summary c' :
  working c = None → db_ok (committed c) → repos (committed c) !! root = Some repo_id →
  prune root p c = (Ok summary, c') →
  let d := committed c in
  let d' := committed c' in
  let keep s := keep_all p = true ∨ (st_repo_id s = repo_id →
    retained p (default 0%Z (as_i64 <$> now)) (tags_read p) (commits_of d repo_id)
      (snapshots_ordered d repo_id) s) in
  working c' = None ∧
  (∀ id s, graph_snapshots d' !! id = Some s ↔ graph_snapshots d !! id = Some s ∧ keep s) ∧
  (∀ id, is_Some (graph_snapshots d' !! id) → reads_same id d d') ∧
  (∀ k c, commits d' !! k = Some c ↔ commits d !! k = Some c ∧
     ∀ s, s ∈ snapshots_ordered d repo_id → (st_commit_sha s, repo_id) = k → keep s) ∧
  (keep_all p = false → snapshots_ordered d repo_id ≠ [] →
   ∀ k n, historical_nodes d' !! k = Some n →
     ∃ k' f, snapshot_files d' !! k' = Some f ∧ sf_hash f = hn_file_hash n).
Proof.
  intros Hw Hok Hrepo Hrun. cbn zeta.
  destruct (prune_ok _ _ _ _ _ _ Hw Hrepo Hrun) as (Hw' & N & E & ->). split; [done|].
  assert (commits_of (committed c) repo_id = [] → snapshots_ordered (committed c) repo_id = []) as Hempty.
  { intros Hc. apply elem_of_nil_inv. intros s [Hs Hr]%(snapshots_ordered_elem _ Hok).
    destruct (ok_snapshot _ Hok _ _ Hs) as (_ & _ & [x Hx]). apply (not_elem_of_nil x). rewrite <- Hc.
    apply (commits_of_elem _ Hok). pose proof (ok_commit _ Hok _ _ Hx) as [= -> ->]. by split. }
  destruct (decide (snapshots_ordered (committed c) repo_id = [])) as [Hs|Hs].
  { rewrite (bool_decide_eq_true_2 _ Hs), orb_true_r. cbn [orb].
    assert (∀ s id, graph_snapshots (committed c) !! id = Some s → st_repo_id s ≠ repo_id) as Hother.
    { intros s id Hg Hr. apply (not_elem_of_nil s). rewrite <- Hs. apply snapshots_ordered_elem; [done|].
      by destruct (ok_snapshot _ Hok _ _ Hg) as [-> _]. }
    split_and!; cbn; [|intros; split; reflexivity| |done].
    - intros id s. split; [|by intros []]. intros Hg. split; [done|]. right. intros Hr. exfalso. by apply (Hother s id).
    - intros k x. rewrite Hs. split; [|by intros []]. intros Hc. split; [done|]. by intros s Hin%not_elem_of_nil. }
  rewrite (bool_decide_eq_false_2 _ Hs), orb_false_r.
  rewrite bool_decide_eq_false_2 by auto. cbn [orb]. destruct (keep_all p) eqn:Hall.
  { split_and!; cbn; [|intros; split; reflexivity| |done].
    - intros id s. split; [|by intros []]. intros Hg. split; [done|]. by left.
    - intros k x. split; [|by intros []]. intros Hc. split; [done|]. by left. }
  destruct (pruned_spec p (tags_read p) repo_id (committed c) Hok) as (_ & H1 & H2 & H3 & H4). cbn.
  split_and!; [| | |done].
  - intros id s. rewrite H1. f_equiv. split; [by right|]. by intros [|].
  - intros id Hid. destruct (H2 id Hid) as [F G R]. by split.
  - intros k x. rewrite H3. f_equiv. split; intros Hx s Hin Hk.
    + right. by apply (Hx s).
    + by destruct (Hx s Hin Hk).
Qed.

(** C2. Pruning keeps what the retention policy says and nothing else of the repository: of its
    snapshots remain exactly those that are among the latest, recent enough, tagged or the last
    of their week (all of them under [keep_all]), every other repository keeps all of its own,
    every remaining snapshot still reads the same files, symbols and relations, of the others no
    file, symbol or relation is left in the tables of the snapshots, a commit goes
    only with its snapshot, no symbol of a file no snapshot has is left, and the tables
    satisfy their invariant. *)
Theorem prune_retains root p repo_id c summary c' :
  working c = None → db_ok (committed c) → repos (committed c) !! root = Some repo_id →
  prune root p c = (Ok summary, c') →
  let d := committed c in
  let d' := committed c' in
  let keep s := keep_all p = true ∨ (st_repo_id s = repo_id →
    retained p (default 0%Z (as_i64 <$> now)) (tags_read p) (commits_of d repo_id)
      (snapshots_ordered d repo_id) s) in
  working c' = None ∧ db_ok d' ∧
  (∀ id s, graph_snapshots d' !! id = Some s ↔ graph_snapshots d !! id = Some s ∧ keep s) ∧
  (∀ id s, graph_snapshots d !! id = Some s → ¬ keep s → no_trace d' id) ∧
  (∀ id, is_Some (graph_snapshots d' !! id) → reads_same id d d') ∧
  (∀ k c, commits d' !! k = Some c ↔ commits d !! k = Some c ∧
     ∀ s, s ∈ snapshots_ordered d repo_id → (st_commit_sha s, repo_id) = k → keep s) ∧
  (keep_all p = false → snapshots_ordered d repo_id ≠ [] →
   ∀ k n, historical_nodes d' !! k = Some n →
     ∃ k' f, snapshot_files d' !! k' = Some f ∧ sf_hash f = hn_file_hash n).
Proof.
  intros Hw Hok Hrepo Hrun. cbn zeta.
  pose proof (prune_keeps root p c Hw Hok) as [_ Hok']. rewrite Hrun in Hok'. cbn [snd] in Hok'.
  pose proof (prune_snapshots root p repo_id c summary c' Hw Hok Hrepo Hrun) as (Hw' & Hsnap & Hrest).
  split_and!; [done|done|exact Hsnap| |apply Hrest..].
  intros id s Hs Hno. apply absent_no_trace; [done|]. apply eq_None_not_Some. intros [t Ht].
  pose proof (proj1 (Hsnap id t) Ht) as [Ht' Hk]. rewrite Hs in Ht'. injection Ht' as <-. done.
Qed.
End prune_theorems.

(** ** Examples *)

Definition latest_two : HistoryRetentionPolicy := mk_retention false (Some 2%N) None false false.

Example demo_prune :
  let (r, c) := prune_historical_graph never id (λ _, "1") (λ _, "") (Some 100%N) (Ok []) "/r"
                  latest_two demo_conn in
  (match r with Ok s => Some (deleted_commit_shas s, reclaimed_historical_nodes s) | Err _ => None end,
   map st_commit_sha (snapshots_ordered (committed c) 1)) =
  (Some (["c1"], 1%nat), ["c2"; "c3"]).
Proof. vm_compute. reflexivity. Qed.

#[local] Abbreviation demo_pruned := (prune_historical_graph never id (λ _, "1") (λ _, "") (Some 100%N) (Ok [])
  "/r" latest_two demo_conn).

Lemma prune_retains_witness :
  working (snd demo_pruned) = None ∧ reads_same 2 (committed demo_conn) (committed (snd demo_pruned)).
Proof.
  assert (demo_pruned = (Ok (mk_prune_summary latest_two 3 2 3 2 ["c1"] [1%Z] 1 1 0 (mk_lifecycle 1 2 2 1)),
                         snd demo_pruned)) as Hrun by (apply ran; vm_compute; reflexivity).
  assert (repos (committed demo_conn) !! "/r" = Some 1%Z) as Hrepo by (vm_compute; reflexivity).
  assert (working demo_conn = None) as Hw by (vm_compute; reflexivity).
  pose proof (prune_retains never id (λ _, "1") (λ _, "") (Some 100%N) (Ok []) "/r" latest_two
    1 demo_conn _ _ Hw demo_ok Hrepo Hrun) as (Hidle & _ & _ & _ & Hreads & _).
  split; [exact Hidle|]. apply Hreads. apply (bool_decide_unpack _). vm_compute. exact I.
Defined.
