(* ===== verification/HistoryBuild.v ===== *)
(** * Building the history

    Model of [packages/atlas-history/src/build.rs], [update.rs] and [ingest.rs]: the files of
    a commit are listed, or replayed from the snapshot of its parent; files whose contents are
    known keep their graph, others are read and parsed; and the snapshot is written in one
    transaction on the tables of [HistoryTables]. Git is that of [HistoryGit]; the parsers, the
    clock, SHA-256 and the printing of numbers and documents are parameters. Wall-clock
    durations are left out. *)

From Stdlib Require Import Floats.SpecFloat.
From S2P Require Import Prelude RustStr RustFloat Json Kinds BTree Calendar Graph Scc HistoryDiff HistoryGit Sqlite HistoryTables HistoryInvariant HistoryLifecycle.

(** ** Data *)

Definition binary_sniff_bytes : nat := 8 * 1024.

Record CachedFileGraph := mk_cached {
  cg_language : option string; cg_size : option Z; cg_node_count : nat; cg_edge_count : nat;
  cg_qns : list string; cg_edge_keys : list Triple }.

Record BuildRunCache := mk_cache {
  blob_bytes : gmap string string; blob_graphs : gmap string CachedFileGraph;
  binary_blobs : gset string }.

Record SnapshotFileMembership := mk_membership {
  sm_path : string; sm_hash : string; sm_qns : list string; sm_edges : list Triple }.

(** A parsed file. The free-form document of a node or edge is the text it is stored as. *)
Record ParsedFile := mk_parsed {
  pf_language : option string; pf_nodes : list (Node * string); pf_edges : list (Edge * string) }.

Record ParseWork := mk_work {
  pw_file_index : nat; pw_file_hash : string; pw_rel_path : string; pw_bytes : string;
  pw_orig_language : option string }.

Record ParseOutcome := mk_outcome {
  po_file_index : nat; po_file_hash : string; po_rel_path : string;
  po_orig_language : option string; po_size : Z; po_parsed : option ParsedFile }.

Inductive BuildFileProgressKind :=
| Reused | Parsed | SkippedUnsupported | SkippedBinary | SkippedMissing | SkippedNoParserOutput
| PersistError.

Inductive BuildPersistProgressKind := CommitMetadata | SnapshotRows | SnapshotMembership | TransactionCommit.

Definition total_steps : nat := 4.
Definition step_index (k : BuildPersistProgressKind) : nat :=
  match k with
  | CommitMetadata => 1 | SnapshotRows => 2 | SnapshotMembership => 3 | TransactionCommit => 4
  end.

Inductive BuildProgressEvent :=
| RunStarted (total_commits : nat)
| RunPhaseChanged (message : string)
| CommitStarted (commit_index total_commits : nat) (commit_sha : string) (total_files : nat)
| CommitSkipped (commit_index total_commits : nat) (commit_sha : string)
| FileProcessed (commit_index total_commits : nat) (commit_sha : string)
    (file_index total_files : nat) (file_path : string) (outcome : BuildFileProgressKind)
| CommitPersistStepStarted (commit_index total_commits : nat) (commit_sha : string)
    (step_index total_steps : nat) (step : BuildPersistProgressKind).

Record IngestError := mk_ingest_error { ie_commit_sha : option string; ie_message : string }.

Record BuildSummary := mk_build_summary {
  commits_processed : nat; commits_already_indexed : nat; files_reused : nat; files_parsed : nat;
  nodes_reused : nat; nodes_written : nat; edges_written : nat; files_skipped : nat;
  errors : list IngestError; warnings : list string }.

Definition empty_summary : BuildSummary := mk_build_summary 0 0 0 0 0 0 0 0 [] [].
Definition empty_cache : BuildRunCache := mk_cache ∅ ∅ ∅.

Definition note_processed (s : BuildSummary) : BuildSummary :=
  mk_build_summary (S (commits_processed s)) (commits_already_indexed s) (files_reused s) (files_parsed s)
    (nodes_reused s) (nodes_written s) (edges_written s) (files_skipped s) (errors s) (warnings s).
Definition note_indexed (s : BuildSummary) : BuildSummary :=
  mk_build_summary (commits_processed s) (S (commits_already_indexed s)) (files_reused s) (files_parsed s)
    (nodes_reused s) (nodes_written s) (edges_written s) (files_skipped s) (errors s) (warnings s).
Definition note_skipped (s : BuildSummary) : BuildSummary :=
  mk_build_summary (commits_processed s) (commits_already_indexed s) (files_reused s) (files_parsed s)
    (nodes_reused s) (nodes_written s) (edges_written s) (S (files_skipped s)) (errors s) (warnings s).
Definition note_reused (nodes : nat) (s : BuildSummary) : BuildSummary :=
  mk_build_summary (commits_processed s) (commits_already_indexed s) (S (files_reused s)) (files_parsed s)
    (nodes_reused s + nodes) (nodes_written s) (edges_written s) (files_skipped s) (errors s) (warnings s).
Definition note_parsed (nodes edges : nat) (s : BuildSummary) : BuildSummary :=
  mk_build_summary (commits_processed s) (commits_already_indexed s) (files_reused s) (S (files_parsed s))
    (nodes_reused s) (nodes_written s + nodes) (edges_written s + edges) (files_skipped s) (errors s)
    (warnings s).
Definition note_error (e : IngestError) (s : BuildSummary) : BuildSummary :=
  mk_build_summary (commits_processed s) (commits_already_indexed s) (files_reused s) (files_parsed s)
    (nodes_reused s) (nodes_written s) (edges_written s) (files_skipped s) (errors s ++ [e]) (warnings s).
(** [push_warning]: the same warning is given once. *)
Definition push_warning (w : string) (s : BuildSummary) : BuildSummary :=
  if bool_decide (w ∈ warnings s) then s
  else mk_build_summary (commits_processed s) (commits_already_indexed s) (files_reused s) (files_parsed s)
    (nodes_reused s) (nodes_written s) (edges_written s) (files_skipped s) (errors s) (warnings s ++ [w]).

(** ** The state of a run

    The cache, the summary and the progress reported so far survive an error of a commit. *)
Record Run := mk_run {
  r_cache : BuildRunCache; r_summary : BuildSummary; r_events : list BuildProgressEvent }.

Definition B (E A : Type) : Type := Run → Conn → result E A * Run * Conn.

Definition b_ret {E A} (a : A) : B E A := λ r c, (Ok a, r, c).
Definition b_fail {E A} (e : E) : B E A := λ r c, (Err e, r, c).
Definition b_bind {E A C} (m : B E A) (k : A → B E C) : B E C := λ r c,
  match m r c with
  | (Ok a, r, c) => k a r c
  | (Err e, r, c) => (Err e, r, c)
  end.
Notation "x <-b m ;; k" := (b_bind m (λ x, k))
  (at level 20, m at level 99, k at level 200, right associativity, only parsing) : rust_scope.

Definition of_result {E A} (x : result E A) : B E A := λ r c, (x, r, c).
(** A call of the store, and one whose failure rolls the transaction back. *)
Definition store {E A} (m : M E A) : B E A := λ r c, let '(x, c) := m c in (x, r, c).
Definition or_rollback {A} (m : M string A) : B string A := λ r c,
  match m c with
  | (Ok a, c) => (Ok a, r, c)
  | (Err e, c) => (Err e, r, snd (@rollback_write Db string c))
  end.
Definition b_map_err {E F A} (f : E → F) (m : B E A) : B F A := λ r c,
  match m r c with
  | (Ok a, r, c) => (Ok a, r, c)
  | (Err e, r, c) => (Err (f e), r, c)
  end.
Definition in_context {A} (what : string) : B string A → B string A :=
  b_map_err (λ e, what +:+ ": " +:+ e).
(** The handler sees the error and what was done before it. *)
Definition catch {E} (m : B E unit) (handler : E → B E unit) : B E unit := λ r c,
  match m r c with
  | (Ok _, r, c) => (Ok tt, r, c)
  | (Err e, r, c) => handler e r c
  end.
Definition get_cache {E} : B E BuildRunCache := λ r c, (Ok (r_cache r), r, c).
Definition set_cache {E} (cache : BuildRunCache) : B E unit := λ r c,
  (Ok tt, mk_run cache (r_summary r) (r_events r), c).
Definition update_summary {E} (f : BuildSummary → BuildSummary) : B E unit := λ r c,
  (Ok tt, mk_run (r_cache r) (f (r_summary r)) (r_events r), c).
Definition progress {E} (e : BuildProgressEvent) : B E unit := λ r c,
  (Ok tt, mk_run (r_cache r) (r_summary r) (r_events r ++ [e]), c).
(** A build has a cache and a summary of its own. *)
Definition with_fresh {E A} (m : B E A) : B E (A * BuildSummary) := λ r c,
  let '(x, r', c) := m (mk_run empty_cache empty_summary (r_events r)) c in
  (match x with Ok a => Ok (a, r_summary r') | Err e => Err e end,
   mk_run (r_cache r) (r_summary r) (r_events r'), c).

Fixpoint b_fold {E A S} (f : S → A → B E S) (s : S) (l : list A) : B E S :=
  match l with
  | [] => b_ret s
  | x :: l => s <-b f s x;; b_fold f s l
  end.
Fixpoint b_each {E A} (f : A → B E unit) (l : list A) : B E unit :=
  match l with
  | [] => b_ret tt
  | x :: l => _ <-b f x;; b_each f l
  end.

(** ** Membership texts and file listings *)

Definition is_binary_bytes (bytes : string) : bool :=
  negb (no_char nul (str_take binary_sniff_bytes bytes)).

Definition triple_cmp : Triple → Triple → comparison :=
  pair_cmp String.compare (pair_cmp String.compare String.compare).

Definition encode_node_membership (qns : list string) : string :=
  join (String newline "") (sort_by String.compare qns).
Definition encode_edge_membership (keys : list Triple) : string :=
  join (String newline "")
    (map (λ k : Triple, fst k +:+ String tab (fst (snd k)) +:+ String tab (snd (snd k))) (sort_by triple_cmp keys)).

Definition submodule_warning (commit_sha path : string) : string :=
  "commit " +:+ commit_sha +:+ " contains submodule " +:+ path +:+ " which historical indexing skips".

Definition listed_file (path hash : string) (language : option string) (size : option Z) : StoredSnapshotFile :=
  mk_file 0 path hash language size.

(** Every blob of the tree is a file. *)
Fixpoint listing (commit_sha : string) (tree : list TreeEntry) : list StoredSnapshotFile * list string :=
  match tree with
  | [] => ([], [])
  | e :: tree =>
      let '(files, warnings) := listing commit_sha tree in
      if String.eqb (te_type e) "blob"
      then (listed_file (te_path e) (te_hash e) None None :: files, warnings)
      else if String.eqb (te_type e) "commit"
      then (files, submodule_warning commit_sha (te_path e) :: warnings)
      else (files, warnings)
  end.

(** [apply_replayed_entry] and the warning it may give. *)
Definition apply_replayed_entry (commit_sha : string) (entry_map : gmap string TreeEntry) (path : string)
    (files : gmap string StoredSnapshotFile) : gmap string StoredSnapshotFile * list string :=
  match entry_map !! path with
  | None => (delete path files, [])
  | Some e =>
      if String.eqb (te_type e) "blob"
      then
        let '(language, size) :=
          match files !! path with
          | Some existing =>
              if String.eqb (sf_hash existing) (te_hash e) then (sf_language existing, sf_size existing)
              else (None, None)
          | None => (None, None)
          end in
        (<[path := listed_file path (te_hash e) language size]> files, [])
      else (delete path files,
            if String.eqb (te_type e) "commit" then [submodule_warning commit_sha path] else [])
  end.

Definition Change : Type := string * string * ascii.

Definition replay_change (commit_sha : string) (entry_map : gmap string TreeEntry)
    (state : gmap string StoredSnapshotFile * list string) (change : Change) :
    gmap string StoredSnapshotFile * list string :=
  let '(files, warnings) := state in
  let '(old_path, new_path, status) := change in
  if Ascii.eqb status "D" then (delete old_path files, warnings)
  else
    let files := if Ascii.eqb status "R" then delete old_path files else files in
    let '(files, more) := apply_replayed_entry commit_sha entry_map new_path files in
    (files, warnings ++ more).

(** The paths whose entries are looked up. *)
Definition changed_paths (changes : list Change) : list string :=
  btree_set String.compare
    (omap (λ change : Change, let '(_, new_path, status) := change in
       if existsb (Ascii.eqb status) ["A"; "M"; "R"; "C"]%char then Some new_path else None) changes).

Definition sorted_snapshot_files (files : gmap string StoredSnapshotFile) : list StoredSnapshotFile :=
  map snd (entries String.compare files).

Section build.
Context (fault : nat → option Fault) (clock : nat → N).
Context (git : list string → string → result string GitOutput) (lossy debug : string → string).
(** [ParserRegistry::supports] and [parse] of a path, a hash and the bytes. *)
Context (supports : string → bool) (parse : string → string → string → option ParsedFile).
Context (hex_hash : string → string) (fixed6 : spec_float → string) (print_json : Json → string).

Definition full_snapshot_files (commit_sha : string) : B string (list StoredSnapshotFile) :=
  tree <-b in_context ("ls-tree for " +:+ commit_sha) (of_result (ls_tree git lossy commit_sha));;
  let '(files, more) := listing commit_sha tree in
  _ <-b update_summary (λ s, foldl (λ s w, push_warning w s) s more);;
  b_ret files.

Definition replay_snapshot_files (repo_id : Z) (meta : GitCommitMeta) :
    B string (option (list StoredSnapshotFile)) :=
  match gm_parent_sha meta with
  | None => b_ret None
  | Some parent_sha =>
      parent <-b store (find_snapshot fault repo_id parent_sha);;
      match parent with
      | None => b_ret None
      | Some parent =>
          rows <-b store (list_snapshot_files fault (st_snapshot_id parent));;
          let files := collect_map (map (λ f, (sf_path f, f)) rows) in
          changes <-b in_context ("diff-tree for " +:+ parent_sha +:+ ".." +:+ gm_sha meta)
            (of_result (diff_tree_files git lossy (gm_sha meta) (Some parent_sha)));;
          if decide (changes = []) then b_ret (Some (sorted_snapshot_files files))
          else
            tree <-b of_result (ls_tree_paths git lossy (gm_sha meta) (changed_paths changes));;
            let entry_map := collect_map (map (λ e, (te_path e, e)) tree) in
            let '(files, more) := foldl (replay_change (gm_sha meta) entry_map) (files, []) changes in
            _ <-b update_summary (λ s, foldl (λ s w, push_warning w s) s more);;
            b_ret (Some (sorted_snapshot_files files))
      end
  end.

(** *** Contents *)

Definition prefetch_blob_bytes (tracked : list StoredSnapshotFile) : B string unit :=
  cache <-b get_cache;;
  let to_fetch := btree_set String.compare (map sf_hash
    (filter (λ f, supports (sf_path f) = true ∧ blob_bytes cache !! sf_hash f = None ∧
                  blob_graphs cache !! sf_hash f = None ∧ sf_hash f ∉ binary_blobs cache) tracked)) in
  if decide (to_fetch = []) then b_ret tt
  else
    fetched <-b in_context "batch-fetch blob bytes" (of_result (cat_file_blob_batch git to_fetch));;
    set_cache (mk_cache (fetched ∪ blob_bytes cache) (blob_graphs cache) (binary_blobs cache)).

Definition load_blob_bytes (commit_sha rel_path file_hash : string) : B string (option string) :=
  cache <-b get_cache;;
  match blob_bytes cache !! file_hash with
  | Some bytes => b_ret (Some bytes)
  | None =>
      shown <-b in_context ("git show " +:+ commit_sha +:+ ":" +:+ rel_path)
        (of_result (show_file git lossy commit_sha rel_path));;
      match shown with
      | None => b_ret None
      | Some bytes =>
          _ <-b set_cache (mk_cache (<[file_hash := bytes]> (blob_bytes cache)) (blob_graphs cache)
                             (binary_blobs cache));;
          b_ret (Some bytes)
      end
  end.

Definition load_cached_file_graph (file_hash : string) : B string CachedFileGraph :=
  cache <-b get_cache;;
  match blob_graphs cache !! file_hash with
  | Some graph => b_ret graph
  | None =>
      language <-b store (get_historical_file_language fault file_hash);;
      node_count <-b store (count_historical_nodes fault file_hash);;
      edge_count <-b store (count_historical_edges fault file_hash);;
      qns <-b store (list_historical_node_qns fault file_hash);;
      edge_keys <-b store (list_historical_edge_keys fault file_hash);;
      let graph := mk_cached language None node_count edge_count qns edge_keys in
      _ <-b set_cache (mk_cache (blob_bytes cache) (<[file_hash := graph]> (blob_graphs cache))
                         (binary_blobs cache));;
      b_ret graph
  end.

Definition historical_node (file_hash file_path : string) (n : Node * string) : HistoricalNode :=
  let '(n, extra) := n in
  mk_hnode file_hash (n_qualified_name n) (NodeKind_as_str (n_kind n)) (n_name n) file_path
    (Some (Z.of_N (n_line_start n))) (Some (Z.of_N (n_line_end n))) (Some (n_language n))
    (n_parent_name n) (n_params n) (n_return_type n) (n_modifiers n) (n_is_test n) (Some extra).

Definition historical_edge (file_hash file_path : string) (e : Edge * string) : HistoricalEdge :=
  let '(e, extra) := e in
  mk_hedge file_hash (e_source_qn e) (e_target_qn e) (EdgeKind_as_str (e_kind e)) file_path
    (Z.of_N <$> e_line e) (f64_of_f32 (e_confidence e)) (e_confidence_tier e) (Some extra).

Definition persist_parsed_file (file_hash file_path : string) (parsed : ParsedFile) : M string unit :=
  _ <-! insert_historical_nodes fault (map (historical_node file_hash file_path) (pf_nodes parsed));;
  insert_historical_edges fault (map (historical_edge file_hash file_path) (pf_edges parsed)).

(** *** One commit *)

(** What the phases hand on. *)
Record Gathered := mk_gathered {
  g_files : list StoredSnapshotFile; g_members : list SnapshotFileMembership;
  g_node_count : Z; g_edge_count : Z; g_parse_errors : nat; g_batch : list ParseWork }.

Definition nothing_gathered : Gathered := mk_gathered [] [] 0 0 0 [].

Definition add_file (f : StoredSnapshotFile) (m : SnapshotFileMembership) (nodes edges : nat) (g : Gathered) :
    Gathered :=
  mk_gathered (g_files g ++ [f]) (g_members g ++ [m]) (g_node_count g + Z.of_nat nodes)
    (g_edge_count g + Z.of_nat edges) (g_parse_errors g) (g_batch g).
Definition add_work (w : ParseWork) (g : Gathered) : Gathered :=
  mk_gathered (g_files g) (g_members g) (g_node_count g) (g_edge_count g) (g_parse_errors g)
    (g_batch g ++ [w]).
Definition add_parse_error (g : Gathered) : Gathered :=
  mk_gathered (g_files g) (g_members g) (g_node_count g) (g_edge_count g) (S (g_parse_errors g)) (g_batch g).

(** Where the run stands, as the progress events tell it. *)
Record Position := mk_position { commit_index : nat; total_commits : nat; total_files : nat }.

Section commit.
Context (pos : Position) (meta : GitCommitMeta).

Definition emit_file_progress (file_index : nat) (file_path : string) (outcome : BuildFileProgressKind) : B string unit :=
  progress (FileProcessed (commit_index pos) (total_commits pos) (gm_sha meta) file_index (total_files pos)
    file_path outcome).

Definition emit_persist_progress (step : BuildPersistProgressKind) : B string unit :=
  progress (CommitPersistStepStarted (commit_index pos) (total_commits pos) (gm_sha meta) (step_index step)
    total_steps step).

(** Phase 1: known and unusable files are settled, the others collected. *)
Definition classify_file (g : Gathered) (indexed : nat * StoredSnapshotFile) : B string Gathered :=
  let '(file_index, tracked) := indexed in
  let rel_path := sf_path tracked in
  let file_hash := sf_hash tracked in
  let skip kind :=
    _ <-b update_summary note_skipped;;
    _ <-b emit_file_progress file_index rel_path kind;;
    b_ret g in
  if negb (supports rel_path) then skip SkippedUnsupported
  else
    already_indexed <-b in_context ("has_historical_file_graph for " +:+ file_hash)
      (store (has_historical_file_graph fault file_hash));;
    if already_indexed : bool
    then
      cached <-b load_cached_file_graph file_hash;;
      _ <-b update_summary (note_reused (cg_node_count cached));;
      _ <-b emit_file_progress file_index rel_path Reused;;
      b_ret (add_file
        (listed_file rel_path file_hash (union (sf_language tracked) (cg_language cached))
           (union (sf_size tracked) (cg_size cached)))
        (mk_membership rel_path file_hash (cg_qns cached) (cg_edge_keys cached))
        (cg_node_count cached) (cg_edge_count cached) g)
    else
      bytes <-b load_blob_bytes (gm_sha meta) rel_path file_hash;;
      match bytes with
      | None => skip SkippedMissing
      | Some bytes =>
          cache <-b get_cache;;
          if bool_decide (file_hash ∈ binary_blobs cache) || is_binary_bytes bytes
          then
            _ <-b set_cache (mk_cache (blob_bytes cache) (blob_graphs cache) ({[file_hash]} ∪ binary_blobs cache));;
            skip SkippedBinary
          else b_ret (add_work (mk_work file_index file_hash rel_path bytes (sf_language tracked)) g)
      end.

(** Phase 2: parsing in parallel keeps the order. *)
Definition parse_work (w : ParseWork) : ParseOutcome :=
  mk_outcome (pw_file_index w) (pw_file_hash w) (pw_rel_path w) (pw_orig_language w)
    (Z.of_nat (String.length (pw_bytes w))) (parse (pw_rel_path w) (pw_file_hash w) (pw_bytes w)).

Definition edge_key_of (e : Edge * string) : Triple :=
  (e_source_qn (fst e), (e_target_qn (fst e), EdgeKind_as_str (e_kind (fst e)))).

(** Phase 3: graphs are stored; a file whose graph cannot be stored is counted and left out. *)
Definition persist_outcome (g : Gathered) (o : ParseOutcome) : B string Gathered :=
  let rel_path := po_rel_path o in
  let file_hash := po_file_hash o in
  match po_parsed o with
  | None =>
      _ <-b update_summary note_skipped;;
      _ <-b emit_file_progress (po_file_index o) rel_path SkippedNoParserOutput;;
      b_ret g
  | Some parsed => λ r c,
      match persist_parsed_file file_hash rel_path parsed c with
      | (Err e, c) =>
          (_ <-b update_summary (note_error (mk_ingest_error (Some (gm_sha meta))
                   ("persist " +:+ rel_path +:+ ": " +:+ e)));;
           _ <-b emit_file_progress (po_file_index o) rel_path PersistError;;
           b_ret (add_parse_error g)) r c
      | (Ok _, c) =>
          let nodes := length (pf_nodes parsed) in
          let edges := length (pf_edges parsed) in
          let language := union (pf_language parsed) (po_orig_language o) in
          let qns := map (λ n, n_qualified_name (fst n)) (pf_nodes parsed) in
          let keys := map edge_key_of (pf_edges parsed) in
          (_ <-b update_summary (note_parsed nodes edges);;
           cache <-b get_cache;;
           _ <-b set_cache (mk_cache (blob_bytes cache)
                  (<[file_hash := mk_cached language (Some (po_size o)) nodes edges qns keys]> (blob_graphs cache))
                  (binary_blobs cache));;
           _ <-b emit_file_progress (po_file_index o) rel_path Parsed;;
           b_ret (add_file (listed_file rel_path file_hash language (Some (po_size o)))
             (mk_membership rel_path file_hash qns keys) nodes edges g)) r c
      end
  end.

Definition completeness_of (errors files : nat) : spec_float :=
  if (errors =? 0)%nat || (files =? 0)%nat then one
  else f64_sub one (f64_div (f64_of_N (N.of_nat errors)) (f64_of_N (N.of_nat files))).

Definition stored_commit (repo_id : Z) (indexed_ref : option string) : StoredCommit :=
  mk_commit (gm_sha meta) repo_id (gm_parent_sha meta) indexed_ref (Some (gm_author_name meta))
    (Some (gm_author_email meta)) (gm_author_time meta) (gm_committer_time meta) (gm_subject meta)
    (if str_is_empty (gm_body meta) then None
     else Some (gm_subject meta +:+ String newline (String newline (gm_body meta)))) "".

Definition with_snapshot_id (id : Z) (f : StoredSnapshotFile) : StoredSnapshotFile :=
  mk_file id (sf_path f) (sf_hash f) (sf_language f) (sf_size f).

Definition membership_blob (id : Z) (m : SnapshotFileMembership) : StoredSnapshotMembershipBlob :=
  mk_blob id (sm_path m) (sm_hash m) (encode_node_membership (sm_qns m)) (encode_edge_membership (sm_edges m)).

(** The rows of the snapshot. *)
Definition write_snapshot (repo_id : Z) (indexed_ref root_tree_hash : option string) (g : Gathered) : B string unit :=
  let file_count := length (g_files g) in
  _ <-b emit_persist_progress CommitMetadata;;
  _ <-b or_rollback (context "upsert commit" (upsert_commit fault clock (stored_commit repo_id indexed_ref)));;
  _ <-b emit_persist_progress SnapshotRows;;
  id <-b or_rollback (insert_snapshot fault clock repo_id (gm_sha meta) root_tree_hash (g_node_count g)
           (g_edge_count g) (Z.of_nat file_count) (completeness_of (g_parse_errors g) file_count)
           (Z.of_nat (g_parse_errors g)));;
  _ <-b or_rollback (context "insert snapshot files"
          (insert_snapshot_files fault (map (with_snapshot_id id) (g_files g))));;
  _ <-b emit_persist_progress SnapshotMembership;;
  _ <-b b_each (λ m, or_rollback (context ("attach snapshot nodes for " +:+ sm_hash m)
          (attach_snapshot_nodes fault id (sm_hash m) (sm_qns m)))) (g_members g);;
  _ <-b b_each (λ m, or_rollback (context ("attach snapshot edges for " +:+ sm_hash m)
          (attach_snapshot_edges fault id (sm_hash m) (sm_edges m)))) (g_members g);;
  _ <-b or_rollback (context "insert snapshot membership blobs"
          (insert_snapshot_membership_blobs fault (map (membership_blob id) (g_members g))));;
  _ <-b emit_persist_progress TransactionCommit;;
  store (context "commit write transaction" (commit_write fault)).
End commit.

Definition process_commit (repo_id : Z) (indexed_ref : option string) (index total : nat)
    (meta : GitCommitMeta) : B string unit :=
  let root_tree_hash :=
    match rev_parse git lossy (gm_sha meta +:+ "^{tree}") with Ok h => Some h | Err _ => None end in
  replayed <-b replay_snapshot_files repo_id meta;;
  listed <-b full_snapshot_files (gm_sha meta);;
  let tracked := default listed replayed in
  let pos := mk_position index total (length tracked) in
  _ <-b progress (CommitStarted index total (gm_sha meta) (length tracked));;
  _ <-b prefetch_blob_bytes tracked;;
  _ <-b store (context "begin commit write transaction" (begin_write fault));;
  g <-b b_fold (classify_file pos meta) nothing_gathered (imap (λ i f, (S i, f)) tracked);;
  let outcomes := map parse_work (g_batch g) in
  g <-b b_fold (persist_outcome pos meta) g outcomes;;
  write_snapshot pos meta repo_id indexed_ref root_tree_hash g.


Definition shallow_build_warning (selector : CommitSelector) : option string :=
  match is_shallow git lossy, selector with
  | Ok true, Explicit _ => None
  | Ok true, _ => Some "shallow clone detected; build may omit older commits beyond fetched history. Fetch more history or use --commits with reachable SHAs."
  | _, _ => None
  end.

(** One commit of a build: what goes wrong with it is noted, the run goes on. *)
Definition build_one (repo_id : Z) (indexed_ref : option string) (total : nat) (indexed : nat * GitCommitMeta) :
    B string unit :=
  let '(index, meta) := indexed in
  _ <-b update_summary note_processed;;
  snapshot <-b store (find_snapshot fault repo_id (gm_sha meta));;
  match snapshot with
  | Some _ =>
      _ <-b update_summary note_indexed;;
      progress (CommitSkipped index total (gm_sha meta))
  | None =>
      catch (process_commit repo_id indexed_ref index total meta)
        (λ e, update_summary (note_error (mk_ingest_error (Some (gm_sha meta)) e)))
  end.

Definition show_history_error (e : HistoryError) : string :=
  match e with
  | NotInitialized => "history not initialized: run `atlas history build` first"
  | Divergence m => "divergence detected: " +:+ m
  | InvalidSelector m => "invalid selector: " +:+ m
  | Other m => m
  end.

Definition resolved (selector : CommitSelector) : result string (list GitCommitMeta) :=
  match resolve git lossy debug selector with
  | Ok commits => Ok (if prefers_oldest_first selector then rev commits else commits)
  | Err e => Err (show_history_error e)
  end.

Definition build_historical_graph (canonical_root : string) (selector : CommitSelector)
    (indexed_ref : option string) : B string BuildSummary :=
  result <-b with_fresh (
    _ <-b update_summary (λ s, default s ((λ w, push_warning w s) <$> shallow_build_warning selector));;
    commits <-b in_context "resolve commit selector" (of_result (resolved selector));;
    if decide (commits = []) then b_ret tt
    else
      let total := length commits in
      _ <-b progress (RunStarted total);;
      repo_id <-b in_context "upsert repo row" (store (upsert_repo fault clock canonical_root));;
      b_each (build_one repo_id (union indexed_ref (source_ref_label selector)) total)
        (imap (λ i m, (S i, m)) commits));;
  b_ret (snd result).

Definition not_initialized : string := "history not initialized; run `atlas history build` first".

Definition required {A} (e : string) (o : option A) : B string A :=
  match o with Some a => b_ret a | None => b_fail e end.

Record SnapshotRebuildSummary := mk_rebuild_summary {
  rb_commit_sha : string; replaced_snapshot_id : Z; rebuilt_snapshot_id : Z;
  rb_reclaimed : nat * nat * nat; rb_build : BuildSummary; rb_lifecycle : LifecycleSummary }.

(** The snapshot is deleted before its commit is processed anew. *)
Definition rebuild_historical_snapshot (canonical_root commit_sha : string) (indexed_ref : option string) :
    B string SnapshotRebuildSummary :=
  repo <-b store (find_repo_id fault canonical_root);;
  repo_id <-b required not_initialized repo;;
  found <-b store (find_snapshot fault repo_id commit_sha);;
  existing <-b required ("snapshot not indexed for commit " +:+ commit_sha) found;;
  commits <-b in_context ("resolve commit " +:+ commit_sha +:+ " for rebuild")
    (of_result (log_commits_explicit git lossy [commit_sha]));;
  meta <-b required ("commit metadata missing for " +:+ commit_sha) (last commits);;
  _ <-b store (delete_history_snapshots fault [st_snapshot_id existing]);;
  reclaimed <-b store (prune_orphan_historical_file_graphs fault);;
  built <-b with_fresh (
    _ <-b update_summary note_processed;;
    _ <-b progress (RunStarted 1);;
    in_context ("rebuild snapshot " +:+ commit_sha) (process_commit repo_id indexed_ref 1 1 meta));;
  found <-b store (find_snapshot fault repo_id commit_sha);;
  rebuilt <-b required ("rebuilt snapshot missing for " +:+ commit_sha) found;;
  _ <-b progress (RunPhaseChanged "recomputing lifecycle history");;
  lifecycle <-b in_context "recompute lifecycle"
    (store (recompute_lifecycle fault hex_hash fixed6 print_json canonical_root));;
  b_ret (mk_rebuild_summary commit_sha (st_snapshot_id existing) (st_snapshot_id rebuilt) reclaimed
    (snd built) lifecycle).

(** ** Updating *)

Record HistoryUpdateSummary := mk_update_summary {
  hu_branch : string; hu_head_sha : string; hu_indexed_base_sha : option string;
  hu_latest_indexed_sha : option string; hu_commits_found : nat; hu_commits_processed : nat;
  hu_divergence_detected : bool; hu_repair_mode : bool; hu_warnings : list string;
  hu_lifecycle : LifecycleSummary }.

(** The commits before the first one that is indexed, and that one. *)
Fixpoint missing_commits (repo_id : Z) (commits : list GitCommitMeta) :
    M string (list GitCommitMeta * option string) :=
  match commits with
  | [] => ret ([], None)
  | m :: commits =>
      snapshot <-! find_snapshot fault repo_id (gm_sha m);;
      match snapshot with
      | Some _ => ret ([], Some (gm_sha m))
      | None =>
          rest <-! missing_commits repo_id commits;;
          ret (m :: fst rest, snd rest)
      end
  end.

Definition other {A} (m : B string A) : B HistoryError A := b_map_err Other m.

Definition update_historical_graph (canonical_root : string) (branch : option string) (repair : bool)
    (max_commits : option N) : B HistoryError HistoryUpdateSummary :=
  let branch := default "HEAD" branch in
  repo <-b other (store (find_repo_id fault canonical_root));;
  repo_id <-b other (required not_initialized repo);;
  let shallow := match is_shallow git lossy with Ok b => b | Err _ => false end in
  let warnings := if shallow
    then ["shallow clone detected; update only sees fetched ancestry and may require `git fetch --unshallow` or deeper history."]
    else [] in
  head_sha <-b other (in_context ("resolve branch/ref " +:+ branch) (of_result (rev_parse git lossy branch)));;
  latest_any <-b other (store (latest_commit_sha fault repo_id));;
  commits <-b other (in_context ("walk history from " +:+ head_sha)
    (of_result (log_commits git lossy head_sha max_commits None None)));;
  scan <-b other (store (missing_commits repo_id commits));;
  let '(missing, indexed_base) := scan in
  if shallow && bool_decide (is_Some latest_any) && bool_decide (indexed_base = None)
  then b_fail (Other ("shallow clone missing indexed base commit " +:+ default "(unknown)" latest_any +:+
    "; fetch more history or rerun after `git fetch --unshallow`"))
  else
    snapshots <-b other (store (list_snapshots_ordered fault repo_id));;
    let orphaned := existsb (λ s, bool_decide (st_commit_sha s ∉ map gm_sha commits)) snapshots in
    let diverged := orphaned || (bool_decide (is_Some latest_any) && bool_decide (indexed_base = None)) in
    if diverged && negb repair
    then b_fail (Divergence ("indexed history diverged from current " +:+ branch +:+
      " ancestry; rerun with `atlas history update --repair` after verifying force-push or rewritten history"))
    else
      build <-b (if decide (missing = []) then b_ret empty_summary
        else other (in_context "build missing history commits"
          (build_historical_graph canonical_root (Explicit (map gm_sha (rev missing))) (Some branch))));;
      lifecycle <-b (if (commits_processed build =? 0)%nat
        then other (in_context "load existing lifecycle summary"
          (store (load_existing_lifecycle_summary fault canonical_root)))
        else
          _ <-b progress (RunPhaseChanged "recomputing lifecycle history");;
          other (in_context "recompute lifecycle"
            (store (recompute_lifecycle fault hex_hash fixed6 print_json canonical_root))));;
      b_ret (mk_update_summary branch head_sha indexed_base (union indexed_base latest_any)
        (commits_processed build) (commits_processed build) diverged repair warnings lifecycle).

(** ** Commit metadata alone *)

Record IngestSummary := mk_ingest_summary {
  is_processed : nat; is_already_indexed : nat; is_errors : list IngestError }.

Definition ingest_one (repo_id : Z) (indexed_ref : option string) (meta : GitCommitMeta) : M string unit :=
  context "upsert commit" (upsert_commit fault clock (stored_commit meta repo_id indexed_ref)).

(** An error of one commit is noted. *)
Fixpoint ingest_each (repo_id : Z) (indexed_ref : option string) (s : IngestSummary) (commits : list GitCommitMeta) :
    M string IngestSummary :=
  match commits with
  | [] => ret s
  | meta :: commits => λ c,
      match ingest_one repo_id indexed_ref meta c with
      | (Ok _, c) =>
          ingest_each repo_id indexed_ref
            (mk_ingest_summary (S (is_processed s)) (is_already_indexed s) (is_errors s)) commits c
      | (Err e, c) =>
          ingest_each repo_id indexed_ref
            (mk_ingest_summary (S (is_processed s)) (is_already_indexed s)
               (is_errors s ++ [mk_ingest_error (Some (gm_sha meta)) e])) commits c
      end
  end.

Definition ingest_commits (canonical_root : string) (selector : CommitSelector) (indexed_ref : option string) :
    M string IngestSummary :=
  let none := mk_ingest_summary 0 0 [] in
  match resolve git lossy debug selector with
  | Err e => fail ("resolve commit selector: " +:+ show_history_error e)
  | Ok [] => ret none
  | Ok commits =>
      repo_id <-! map_err (λ e, "upsert repo row: " +:+ e) (upsert_repo fault clock canonical_root);;
      ingest_each repo_id indexed_ref none commits
  end.
End build.

(** ** Reasoning about runs

    [wp m Q X r c]: the run of [m] from [r] and [c] ends as [Q] says when it succeeds, and as
    [X] says when it fails. *)
Definition wp {E A} (m : B E A) (Q : A → Run → Conn → Prop) (X : Run → Conn → Prop) (r : Run) (c : Conn) : Prop :=
  match m r c with
  | (Ok a, r, c) => Q a r c
  | (Err _, r, c) => X r c
  end.

Section wp.
Context {E : Type}.

Lemma wp_ret {A} (a : A) Q X r c : Q a r c → wp (@b_ret E A a) Q X r c.
Proof. done. Qed.

Lemma wp_bind {A C} (m : B E A) (k : A → B E C) Q X r c :
  wp m (λ a r c, wp (k a) Q X r c) X r c → wp (b_bind m k) Q X r c.
Proof. unfold wp, b_bind. by destruct (m r c) as [[[a|e] r'] c']. Qed.

Lemma wp_mono {A} (m : B E A) (Q Q' : A → Run → Conn → Prop) (X X' : Run → Conn → Prop) r c :
  wp m Q X r c → (∀ a r c, Q a r c → Q' a r c) → (∀ r c, X r c → X' r c) → wp m Q' X' r c.
Proof. unfold wp. destruct (m r c) as [[[a|e] r'] c']; auto. Qed.

Lemma wp_fold {A S} (f : S → A → B E S) (I : list A → S → Run → Conn → Prop) X l : ∀ s r c,
  (∀ x l s r c, I (x :: l) s r c → wp (f s x) (I l) X r c) →
  I l s r c → wp (b_fold f s l) (I []) X r c.
Proof.
  induction l as [|x l IH]; intros s r c Hf HI; cbn [b_fold]; [exact HI|].
  apply wp_bind. eapply wp_mono; [by apply Hf| |done]. intros s' r' c' HI'. by apply IH.
Qed.

Lemma wp_each {A} (f : A → B E unit) (I : list A → Run → Conn → Prop) X l : ∀ r c,
  (∀ x l r c, I (x :: l) r c → wp (f x) (λ _, I l) X r c) →
  I l r c → wp (b_each f l) (λ _, I []) X r c.
Proof.
  induction l as [|x l IH]; intros r c Hf HI; cbn [b_each]; [exact HI|].
  apply wp_bind. eapply wp_mono; [by apply Hf| |done]. intros s' r' c' HI'. by apply IH.
Qed.

Lemma wp_of_result {A} (x : result E A) Q X r c :
  (∀ a, x = Ok a → Q a r c) → X r c → wp (of_result x) Q X r c.
Proof. unfold wp, of_result. destruct x; auto. Qed.

Lemma wp_map_err {F A} (f : E → F) (m : B E A) Q X r c : wp m Q X r c → wp (b_map_err f m) Q X r c.
Proof. unfold wp, b_map_err. by destruct (m r c) as [[[a|e] r'] c']. Qed.

Lemma wp_store {A} (m : M E A) Q X r c :
  match m c with (Ok a, c) => Q a r c | (Err _, c) => X r c end → wp (store m) Q X r c.
Proof. unfold wp, store. by destruct (m c) as [[a|e] c']. Qed.
End wp.
