(* ===== verification/HistoryReplay.v ===== *)
(** * Replayed file listings

    The listing of a commit that [HistoryBuild] replays from the snapshot of its parent and a
    tree difference has the files that the full listing of the commit has, as far as they are
    indexed at all; except where the difference has a change of type, which the replay takes
    for a deletion, and where git quotes a path, which neither command is asked not to do. *)

From S2P Require Import Prelude RustStr Kinds BTree Graph Scc HistoryDiff HistoryGit Sqlite HistoryTables HistoryInvariant HistoryLifecycle HistoryBuild.

(** ** Trees and their differences *)

#[local] Abbreviation Tree := (gmap string TreeEntry).

Definition blob_hash (e : option TreeEntry) : option string :=
  e ← e; if String.eqb (te_type e) "blob" then Some (te_hash e) else None.

Definition removes (path : string) (c : Change) : Prop :=
  (snd c = "D" ∨ snd c = "R")%char ∧ fst (fst c) = path.
Definition sets (path : string) (c : Change) : Prop := (snd c ≠ "D")%char ∧ snd (fst c) = path.

#[global] Instance removes_dec path c : Decision (removes path c).
Proof. unfold removes. apply _. Defined.
#[global] Instance sets_dec path c : Decision (sets path c).
Proof. unfold sets. apply _. Defined.

Definition touches (path : string) (c : Change) : Prop := removes path c ∨ sets path c.
#[global] Instance touches_dec path c : Decision (touches path c).
Proof. unfold touches. apply _. Defined.

(** A path that git prints as it is and takes as it is: printable ASCII without quotation marks
    and backslashes, that does not end with a space (the lines are trimmed) and does not start
    with the colon of pathspec magic. *)
Definition printed_as_is (path : string) : bool :=
  str_forall (λ a, byte_in 32 126 a && negb (Ascii.eqb a (chr 34)) && negb (Ascii.eqb a backslash)) path &&
  negb (str_is_empty path) && negb (starts_with ":" path) && negb (ends_with_char " " path).

(** What [git diff-tree -r -M --name-status] says of two trees without changes of type. *)
Record describes (before after : Tree) (changes : list Change) : Prop := {
  ds_status c : c ∈ changes → snd c ∈ ["A"; "M"; "D"; "R"; "C"]%char;
  ds_set path c : c ∈ changes → sets path c → is_Some (after !! path);
  ds_removed path c : c ∈ changes → removes path c → after !! path = None;
  ds_complete path : before !! path ≠ after !! path → Exists (touches path) changes }.

Definition tree_of (entries : list TreeEntry) : Tree := collect_map (map (λ e, (te_path e, e)) entries).

Definition listed_in (l : list StoredSnapshotFile) (path hash : string) : Prop :=
  ∃ f, f ∈ l ∧ sf_path f = path ∧ sf_hash f = hash.

(** ** Replaying *)

Definition hash_at (files : gmap string StoredSnapshotFile) (path : string) : option string :=
  sf_hash <$> files !! path.

Definition well_keyed (files : gmap string StoredSnapshotFile) : Prop :=
  ∀ path f, files !! path = Some f → sf_path f = path.

Lemma apply_entry_spec sha (entry_map : Tree) path files :
  well_keyed files →
  let files' := fst (apply_replayed_entry sha entry_map path files) in
  well_keyed files' ∧ hash_at files' path = blob_hash (entry_map !! path) ∧
  ∀ p, p ≠ path → files' !! p = files !! p.
Proof.
  intros Hk. unfold apply_replayed_entry, hash_at, blob_hash.
  assert (well_keyed (delete path files)) as Hdel.
  { intros p f [_ Hf]%lookup_delete_Some. by apply Hk. }
  assert (∀ p : string, p ≠ path → delete path files !! p = files !! p) as Hne
    by (intros; by apply lookup_delete_ne).
  destruct (entry_map !! path) as [e|]; cbn [fst mbind option_bind]; [|by rewrite (lookup_delete_eq files path)].
  destruct (String.eqb (te_type e) "blob"); cbn [fst]; [|by rewrite (lookup_delete_eq files path)].
  destruct (match files !! path with Some x => _ | None => _ end) as [language size]. cbn [fst].
  rewrite lookup_insert_eq. split_and!; [|done|by intros; apply lookup_insert_ne].
  intros p f [[<- <-]|[_ Hf]]%lookup_insert_Some; [done|by apply Hk].
Qed.

Lemma hash_at_delete files path : hash_at (delete path files) path = None.
Proof. unfold hash_at. by rewrite lookup_delete_eq. Qed.

Section fold.
Context (sha : string) (before after entry_map : Tree).

(** One change brings the paths it touches to their state in the new tree. *)
Lemma replay_change_spec files ws c :
  well_keyed files →
  (∀ path, removes path c → after !! path = None) →
  (∀ path, sets path c → entry_map !! path = after !! path) →
  let files' := fst (replay_change sha entry_map (files, ws) c) in
  well_keyed files' ∧
  (∀ path, touches path c → hash_at files' path = blob_hash (after !! path)) ∧
  ∀ path, ¬ touches path c → files' !! path = files !! path.
Proof.
  destruct c as [[old new] status]. intros Hk Hrem Hset. unfold touches, removes, sets in *. cbn [fst snd] in *.
  unfold replay_change.
  assert (∀ q, well_keyed (delete q files)) as Hdel.
  { intros q p f [_ Hf]%lookup_delete_Some. by apply Hk. }
  destruct (Ascii.eqb_spec status "D") as [->|HD]; cbn [fst].
  - split_and!; [by apply Hdel| |].
    + intros path [[_ <-]|[Hd _]]; [|done]. rewrite hash_at_delete, Hrem by auto. done.
    + intros path Hn. apply lookup_delete_ne. intros ->. apply Hn. auto.
  - set (files1 := if Ascii.eqb status "R" then delete old files else files).
    assert (well_keyed files1) as Hk1 by (unfold files1; destruct (Ascii.eqb _ _); [by apply Hdel|done]).
    pose proof (apply_entry_spec sha entry_map new files1 Hk1) as Hs. cbn zeta in Hs.
    destruct (apply_replayed_entry sha entry_map new files1) as [files2 more]. cbn [fst] in *.
    destruct Hs as (Hk2 & Hnew & Hother). rewrite (Hset new) in Hnew by auto. split_and!; [done| |].
    + intros path Ht. destruct (decide (path = new)) as [->|Hne]; [done|].
      unfold hash_at. rewrite Hother by done. destruct Ht as [[[->| ->] <-]|[_ ->]]; [done| |done].
      unfold files1. rewrite Ascii.eqb_refl. fold (hash_at (delete old files) old).
      rewrite hash_at_delete, Hrem by auto. done.
    + intros path Hn. rewrite Hother by (intros ->; apply Hn; auto). unfold files1.
      destruct (Ascii.eqb_spec status "R") as [->|]; [|done].
      apply lookup_delete_ne. intros ->. apply Hn. auto.
Qed.

Lemma replay_spec changes : ∀ files ws,
  well_keyed files →
  (∀ path c, c ∈ changes → removes path c → after !! path = None) →
  (∀ path c, c ∈ changes → sets path c → entry_map !! path = after !! path) →
  let files' := fst (foldl (replay_change sha entry_map) (files, ws) changes) in
  well_keyed files' ∧
  ∀ path, (Exists (touches path) changes → hash_at files' path = blob_hash (after !! path)) ∧
    (¬ Exists (touches path) changes → files' !! path = files !! path).
Proof.
  induction changes as [|c changes IH]; intros files ws Hk Hrem Hset; cbn [foldl].
  - split; [done|]. intros path. split; [by intros ?%Exists_nil|done].
  - pose proof (replay_change_spec files ws c Hk) as Hc. cbn zeta in Hc.
    destruct Hc as (Hk1 & Ht & Hn); [set_solver..|].
    destruct (replay_change sha entry_map (files, ws) c) as [files1 ws1]. cbn [fst] in *.
    destruct (IH files1 ws1 Hk1) as [Hk2 Hspec]; [set_solver..|]. split; [done|].
    intros path. destruct (Hspec path) as [H1 H2]. rewrite Exists_cons.
    destruct (decide (Exists (touches path) changes)) as [He|He]; [tauto|]. split.
    + intros [Htc|]; [|done]. unfold hash_at. rewrite (H2 He). by apply Ht.
    + intros Hno. rewrite (H2 He). apply Hn. tauto.
Qed.
End fold.

Lemma changed_paths_elem changes path :
  path ∈ changed_paths changes ↔
  ∃ c, c ∈ changes ∧ snd (fst c) = path ∧ snd c ∈ ["A"; "M"; "R"; "C"]%char.
Proof.
  unfold changed_paths. rewrite btree_set_elem, list_elem_of_omap. split.
  - intros ([[o n] s] & Hc & Hs). destruct (existsb _ _) eqn:He; [|done]. injection Hs as <-.
    exists (o, n, s). split_and!; [done..|]. cbn.
    apply existsb_exists in He as (x & Hx%list_elem_of_In & ->%Ascii.eqb_eq). done.
  - intros ([[o n] s] & Hc & <- & Hs). exists (o, n, s). split; [done|].
    replace (existsb (Ascii.eqb s) _) with true; [done|]. symmetry. apply existsb_exists.
    exists s. split; [by apply list_elem_of_In|apply Ascii.eqb_refl].
Qed.

Lemma sorted_files_listed files path hash :
  well_keyed files → listed_in (sorted_snapshot_files files) path hash ↔ hash_at files path = Some hash.
Proof.
  intros Hk. unfold listed_in, sorted_snapshot_files, hash_at. split.
  - intros (f & ([p x] & -> & Hx%entries_elem)%list_elem_of_fmap & <- & <-).
    cbn in *. by rewrite (Hk _ _ Hx), Hx.
  - intros (f & Hf & ->)%fmap_Some. exists f. split_and!; [|by apply Hk|done].
    apply list_elem_of_fmap. exists (path, f). by rewrite entries_elem.
Qed.

Lemma listing_elem sha tree path hash :
  listed_in (fst (listing sha tree)) path hash ↔
  ∃ e, e ∈ tree ∧ te_path e = path ∧ blob_hash (Some e) = Some hash.
Proof.
  unfold listed_in, blob_hash. cbn. induction tree as [|e tree IH]; [set_solver|]. cbn [listing].
  destruct (listing sha tree) as [files ws]. cbn [fst] in *.
  assert (∀ l, (∃ f, f ∈ l ∧ sf_path f = path ∧ sf_hash f = hash) ↔
               Exists (λ f, sf_path f = path ∧ sf_hash f = hash) l) as HE
    by (intros; rewrite Exists_exists; done).
  rewrite HE in *. setoid_rewrite elem_of_cons.
  destruct (String.eqb (te_type e) "blob") eqn:Hb; [|destruct (String.eqb (te_type e) "commit")]; cbn [fst];
    rewrite ?Exists_cons, IH; cbn.
  - split; [intros [[<- <-]|(x & ? & ?)]; [exists e; rewrite Hb; auto|eauto]|].
    intros (x & [->|Hx] & <- & Hh); [rewrite Hb in Hh; left; naive_solver|right; eauto].
  - split; [intros (x & ? & ?); eauto|]. intros (x & [->|Hx] & <- & Hh); [by rewrite Hb in Hh|eauto].
  - split; [intros (x & ? & ?); eauto|]. intros (x & [->|Hx] & <- & Hh); [by rewrite Hb in Hh|eauto].
Qed.

(** ** Replay and full listing *)

Section theorems.
Context (fault : nat → option Fault).
Context (git : list string → string → result string GitOutput) (lossy : string → string).

Definition in_snapshot (d : Db) (id : Z) (path hash : string) : Prop :=
  sf_hash <$> snapshot_files d !! (id, path) = Some hash.

Lemma parent_files_lookup d id path :
  db_ok d →
  let files := collect_map (map (λ f, (sf_path f, f)) (files_of_snapshot d id)) in
  files !! path = snapshot_files d !! (id, path).
Proof.
  intros Hok. cbn zeta. set (files := collect_map _). destruct (files !! path) as [f|] eqn:Hf.
  - apply collect_map_elem, list_elem_of_fmap in Hf as (g & [= -> ->] & Hg).
    by apply files_of_snapshot_elem in Hg.
  - destruct (snapshot_files d !! (id, path)) as [f|] eqn:Hs; [|done]. exfalso.
    destruct (ok_file d Hok _ _ Hs) as [[= _ Hp] _].
    assert (is_Some (files !! path)) as [? ?]; [|congruence]. apply collect_map_is_Some.
    rewrite map_map. apply list_elem_of_fmap. exists f. split; [done|].
    apply files_of_snapshot_elem; [done|]. by rewrite Hp.
Qed.

Lemma replay_files repo_id meta r c l r' c' :
  db_ok (current c) → replay_snapshot_files fault git lossy repo_id meta r c = (Ok (Some l), r', c') →
  ∃ parent_sha s changes, gm_parent_sha meta = Some parent_sha ∧
    head (snapshot_rows (current c) repo_id parent_sha) = Some s ∧
    diff_tree_files git lossy (gm_sha meta) (Some parent_sha) = Ok changes ∧
    ∃ tree, (changes ≠ [] → ls_tree_paths git lossy (gm_sha meta) (changed_paths changes) = Ok tree) ∧
      let files := collect_map (map (λ f, (sf_path f, f)) (files_of_snapshot (current c) (st_snapshot_id s))) in
      l = sorted_snapshot_files (fst (foldl (replay_change (gm_sha meta) (tree_of tree)) (files, []) changes)).
Proof.
  intros Hok. unfold replay_snapshot_files. destruct (gm_parent_sha meta) as [parent_sha|]; [|done].
  unfold b_bind at 1, store at 1.
  destruct (find_snapshot fault repo_id parent_sha c) as [[s|e] c1] eqn:Hfind; [|done].
  apply query_current in Hfind as [-> Hc1].
  destruct (head _) as [s|] eqn:Hs; [|done]. unfold b_bind at 1, store at 1.
  destruct (list_snapshot_files fault (st_snapshot_id s) c1) as [[rows|e] c2] eqn:Hrows; [|done].
  apply query_current in Hrows as [-> _]. rewrite Hc1.
  unfold b_bind at 1, in_context, b_map_err, of_result at 1.
  destruct (diff_tree_files git lossy (gm_sha meta) (Some parent_sha)) as [changes|] eqn:Hdiff; [|done].
  intros Hrun. exists parent_sha, s, changes. split_and!; [done..|]. case_decide as Hch.
  - subst changes. exists []. split; [done|]. by injection Hrun as <- _ _.
  - unfold b_bind at 1, of_result in Hrun.
    destruct (ls_tree_paths _ _ _ _) as [tree|] eqn:Htree; [|done]. exists tree. split; [done|].
    fold (tree_of tree) in Hrun. cbn zeta. destruct (foldl _ _ _) as [files more].
    by injection Hrun as <- _ _.
Qed.

(** C3. A file listing replayed from the parent's snapshot agrees with the full listing of the
    commit. Let every path of the commit's tree be one that git prints as it is, let the
    parent's snapshot hold the blobs of the parent's tree that are indexed, and let git describe
    the difference of the trees without changes of type and list the paths of this kind that it
    is asked for. Then every replayed file is a blob of the commit's tree with its current hash,
    and every file that is to be indexed is in the replayed list exactly if it is in the full
    one. *)
Theorem replay_matches_listing repo_id meta parent_sha s before tree (indexed : string → string → Prop) r c l r' c' :
  db_ok (current c) →
  gm_parent_sha meta = Some parent_sha →
  head (snapshot_rows (current c) repo_id parent_sha) = Some s →
  (∀ path hash, in_snapshot (current c) (st_snapshot_id s) path hash ↔
     blob_hash (before !! path) = Some hash ∧ indexed path hash) →
  NoDup (map te_path tree) → Forall (λ e, printed_as_is (te_path e) = true) tree →
  (∀ changes, diff_tree_files git lossy (gm_sha meta) (Some parent_sha) = Ok changes →
     describes before (tree_of tree) changes) →
  (∀ paths some, Forall (λ path, printed_as_is path = true) paths →
     ls_tree_paths git lossy (gm_sha meta) paths = Ok some →
     ∀ path, path ∈ paths → tree_of some !! path = tree_of tree !! path) →
  replay_snapshot_files fault git lossy repo_id meta r c = (Ok (Some l), r', c') →
  ∀ path hash,
    (listed_in l path hash → listed_in (fst (listing (gm_sha meta) tree)) path hash) ∧
    (indexed path hash →
       listed_in l path hash ↔ listed_in (fst (listing (gm_sha meta) tree)) path hash).
Proof.
  intros Hok Hparent Hs Hbefore Hnd Hplain Hdiff Hls Hrun path hash.
  apply replay_files in Hrun as (p & s' & changes & Hp & Hs' & Hch & some & Hsome & Hl); [|done].
  cbn zeta in Hl. assert (p = parent_sha) as -> by congruence. assert (s' = s) as -> by congruence.
  set (files := collect_map _) in Hl.
  assert (well_keyed files) as Hk.
  { intros q f Hf. unfold files in Hf. rewrite parent_files_lookup in Hf by done.
    by destruct (ok_file _ Hok _ _ Hf) as [[= _ ->] _]. }
  destruct (Hdiff changes Hch) as [Hstatus Hset Hremoved Hcomplete].
  assert (Forall (λ path, printed_as_is path = true) (changed_paths changes)) as Hasked.
  { apply Forall_forall. intros q (c0 & Hc0 & Hq & Hst)%changed_paths_elem.
    destruct (Hset q c0 Hc0) as [e He].
    { split; [|done]. intros HD. rewrite HD in Hst. rewrite !elem_of_cons in Hst.
      destruct Hst as [|[|[|[|?%elem_of_nil]]]]; done. }
    apply collect_map_elem, list_elem_of_fmap in He as (x & [= -> ->] & Hx).
    rewrite Forall_forall in Hplain. by apply Hplain. }
  destruct (replay_spec (gm_sha meta) (tree_of tree) (tree_of some) changes files []) as [Hk' Hspec];
    [done|exact Hremoved| |].
  { intros q c0 Hc0 [Hst Hq]. apply (Hls (changed_paths changes)); [done| |].
    - apply Hsome. intros ->. by apply elem_of_nil in Hc0.
    - apply changed_paths_elem. exists c0. split_and!; [done..|].
      pose proof (Hstatus c0 Hc0) as Hin. rewrite !elem_of_cons in *. tauto. }
  assert (listed_in (fst (listing (gm_sha meta) tree)) path hash ↔ blob_hash (tree_of tree !! path) = Some hash) as Hfull.
  { rewrite listing_elem. unfold tree_of. split.
    - intros (e & He & Hpe & Hh). enough (collect_map (map (λ e, (te_path e, e)) tree) !! path = Some e) as -> by done.
      apply collect_map_lookup; [by rewrite map_map|]. apply list_elem_of_fmap. exists e. by rewrite Hpe.
    - intros Hh. destruct (collect_map _ !! path) as [e|] eqn:He; [|done].
      apply collect_map_elem, list_elem_of_fmap in He as (x & [= -> ->] & Hx). by exists x. }
  rewrite Hl, sorted_files_listed, Hfull by done. destruct (Hspec path) as [Ht Hn].
  destruct (decide (Exists (touches path) changes)) as [He|He]; [by rewrite (Ht He)|].
  unfold hash_at. rewrite (Hn He). unfold files. rewrite parent_files_lookup by done.
  fold (in_snapshot (current c) (st_snapshot_id s) path hash). rewrite Hbefore.
  assert (before !! path = tree_of tree !! path) as ->.
  { destruct (decide (before !! path = tree_of tree !! path)) as [|Hne]; [done|].
    by destruct (He (Hcomplete path Hne)). }
  tauto.
Qed.
End theorems.

(** ** Examples *)

Definition parent_of_demo : string := Nat.iter 40 (String "a") "".
Definition commit_of_demo : string := Nat.iter 40 (String "b") "".
Definition demo_meta : GitCommitMeta :=
  mk_meta commit_of_demo (Some parent_of_demo) "n" "e" 20 20 "s" "".

(** The parent's snapshot: one source file; the picture beside it is not indexed. *)
Definition parent_db : Db :=
  mk_db {["/r" := 1%Z]} {[(parent_of_demo, 1%Z) := demo_commit parent_of_demo 10]}
    {[1%Z := mk_stored 1 1 parent_of_demo None 0 0 1 "" one 0]}
    {[(1%Z, "a.rs") := mk_file 1 "a.rs" "h1" (Some "rust") (Some 3%Z)]} ∅ ∅ ∅ ∅ ∅ ∅ ∅.
Definition parent_conn : Conn := mk_conn parent_db None 0.
Definition no_run : Run := mk_run empty_cache empty_summary [].

Lemma parent_db_ok : db_ok parent_db.
Proof. apply db_check_ok. vm_compute. reflexivity. Qed.

Definition tree_line (mode hash path : string) : string :=
  mode +:+ " blob " +:+ hash +:+ String tab path +:+ String newline "".
Definition change_line (status path : string) : string := status +:+ String tab path +:+ String newline "".

Definition answers (diff tree : string) (args : list string) (input : string) : result string GitOutput :=
  match args with
  | "diff-tree" :: _ => Ok (mk_git_output true diff "")
  | "ls-tree" :: _ => Ok (mk_git_output true tree "")
  | _ => Err "not asked for"
  end.

Definition before_tree : Tree :=
  tree_of [mk_entry "100644" "blob" "h1" "a.rs"; mk_entry "100644" "blob" "h9" "logo.png"].
Definition after_entries : list TreeEntry :=
  [mk_entry "100644" "blob" "h2" "a.rs"; mk_entry "100644" "blob" "h3" "b.rs";
   mk_entry "100644" "blob" "h9" "logo.png"].
Definition demo_answers : list string → string → result string GitOutput :=
  answers (change_line "M" "a.rs" +:+ change_line "A" "b.rs")
    (tree_line "100644" "h2" "a.rs" +:+ tree_line "100644" "h3" "b.rs" +:+ tree_line "100644" "h9" "logo.png").
Definition demo_changes : list Change := [("a.rs", "a.rs", "M"%char); ("b.rs", "b.rs", "A"%char)].
Definition demo_replayed : list StoredSnapshotFile :=
  [listed_file "a.rs" "h2" None None; listed_file "b.rs" "h3" None None].

Lemma demo_describes : describes before_tree (tree_of after_entries) demo_changes.
Proof.
  split.
  - intros c Hc. apply elem_of_cons in Hc as [->|Hc%list_elem_of_singleton]; [|subst c];
      apply (bool_decide_unpack _); vm_compute; exact I.
  - intros path c Hc [_ <-]. apply elem_of_cons in Hc as [->|Hc%list_elem_of_singleton]; [|subst c];
      apply (bool_decide_unpack _); vm_compute; exact I.
  - intros path c Hc [Hs _]. apply elem_of_cons in Hc as [->|Hc%list_elem_of_singleton]; [|subst c];
      cbn in Hs; by destruct Hs.
  - intros path Hne. apply Exists_exists.
    destruct (decide (path = "a.rs")) as [->|Ha]; [|destruct (decide (path = "b.rs")) as [->|Hb]].
    + exists ("a.rs", "a.rs", "M"%char). split; [apply list_elem_of_here|]. by right.
    + exists ("b.rs", "b.rs", "A"%char). split; [apply list_elem_of_further, list_elem_of_here|]. by right.
    + destruct Hne. unfold before_tree, tree_of, collect_map, after_entries. cbn [map foldl te_path].
      rewrite !lookup_insert. rewrite !(decide_False (P := "a.rs" = path)) by congruence.
      rewrite !(decide_False (P := "b.rs" = path)) by congruence. done.
Qed.

Lemma replay_matches_listing_witness :
  listed_in demo_replayed "b.rs" "h3" ↔ listed_in (fst (listing commit_of_demo after_entries)) "b.rs" "h3".
Proof.
  refine (proj2 (replay_matches_listing never demo_answers id 1 demo_meta parent_of_demo
    (mk_stored 1 1 parent_of_demo None 0 0 1 "" one 0) before_tree after_entries (λ path _, path ≠ "logo.png")
    no_run parent_conn demo_replayed no_run
    (snd (replay_snapshot_files never demo_answers id 1 demo_meta no_run parent_conn))
    parent_db_ok eq_refl eq_refl _ _ _ _ _ _ "b.rs" "h3") _).
  - intros path hash. unfold in_snapshot, parent_conn, current, parent_db. cbn [default working committed snapshot_files].
    unfold before_tree, tree_of, collect_map. cbn [map foldl te_path st_snapshot_id]. split.
    + intros (f & [[= <-] <-]%lookup_singleton_Some & ->)%fmap_Some. split; [vm_compute; reflexivity|done].
    + intros [Hh Hp]. destruct (decide (path = "a.rs")) as [->|Ha]; [by vm_compute in Hh |- *|].
      exfalso. rewrite !lookup_insert in Hh. rewrite !(decide_False (P := "logo.png" = path)) in Hh by congruence.
      rewrite !(decide_False (P := "a.rs" = path)) in Hh by congruence. by rewrite lookup_empty in Hh.
  - apply (bool_decide_unpack _). vm_compute. exact I.
  - repeat constructor.
  - intros changes Hch. assert (changes = demo_changes) as ->; [|exact demo_describes].
    vm_compute in Hch. by injection Hch as <-.
  - intros paths some _. unfold ls_tree_paths.
    replace (validate_sha (gm_sha demo_meta)) with (@Ok string unit tt) by (vm_compute; reflexivity).
    cbn [res_bind]. case_decide as Hp; [intros _ path Hin; subst; by apply elem_of_nil in Hin|].
    intros Hsome path _. enough (some = after_entries) as -> by done.
    vm_compute in Hsome. by injection Hsome as <-.
  - vm_compute. reflexivity.
  - done.
Defined.

(** A file that becomes a symbolic link, or a link that becomes a file, is still a blob of the
    commit, and is missing from the replayed list. *)
Example type_change_drops_file :
  let tree := tree_line "120000" "h5" "a.rs" in
  (fst (fst (replay_snapshot_files never (answers (change_line "T" "a.rs") tree) id 1 demo_meta no_run parent_conn)),
   fst (fst (full_snapshot_files (answers (change_line "T" "a.rs") tree) id commit_of_demo no_run parent_conn))) =
  (Ok (Some []), Ok [listed_file "a.rs" "h5" None None]).
Proof. vm_compute. reflexivity. Qed.
