(* ===== verification/HistorySnapshot.v ===== *)
(** * Writing a snapshot

    What the statements of [write_snapshot] in [HistoryBuild] do to the tables of
    [HistoryTables]: the rows of the new snapshot are added, those of the others stay, the
    invariant of [HistoryInvariant] is kept, and what is read back are the symbols and
    relations the files claim, each of them once. *)

From Stdlib Require Import Floats.SpecFloat.
From S2P Require Import Prelude RustStr Kinds BTree Graph Scc HistoryDiff HistoryGit Sqlite HistoryTables HistoryInvariant HistoryLifecycle HistoryBuild.

(** ** Calls inside and outside of transactions *)

Record same_db (c c' : Conn) : Prop := {
  sd_committed : committed c' = committed c; sd_working : working c' = working c }.

Lemma same_db_current c c' : same_db c c' → current c' = current c.
Proof. intros [H1 H2]. unfold current. by rewrite H1, H2. Qed.

Definition in_tx (d0 : Db) (c : Conn) : Prop := committed c = d0 ∧ is_Some (working c).

(** After a failure: the same, unless SQLite rolled the transaction back. *)
Record stopped (fault : nat → option Fault) (c c' : Conn) : Prop := {
  so_committed : committed c' = committed c;
  so_working : working c' = working c ∨ working c' = None;
  so_gentle : gentle fault → working c' = working c }.

Lemma stopped_same fault c c' : same_db c c' → stopped fault c c'.
Proof. intros [Hc Hw]. split; auto. Qed.

Lemma stopped_trans fault c c1 c2 : same_db c c1 → stopped fault c1 c2 → stopped fault c c2.
Proof. intros [Hc Hw] [Hc' Hw' Hg]. rewrite Hc, Hw in *. by split. Qed.

Lemma failed_stopped fault c e : fault (tick c) = Some e → stopped fault c (failed_at e c).
Proof.
  intros He. unfold failed_at. destruct (rolls_back e) eqn:Hr; split; cbn; auto.
  intros Hg. apply Hg in He. congruence.
Qed.

Lemma plain_in_tx {E A} (m : M E A) d0 c x c' :
  Plain m → in_tx d0 c → m c = (x, c') → committed c' = d0 ∧ (res_is_ok x = true → in_tx d0 c').
Proof.
  intros Hm [Hc [d Hw]] Hr. pose proof (Hm c) as Hs. rewrite Hr in Hs. unfold same_tx in Hs. cbn [fst snd] in Hs.
  rewrite Hw in Hs. destruct Hs as [Hs Hok]. rewrite Hs. unfold in_tx. rewrite Hs. auto.
Qed.

Lemma query_stopped fault {A} (f : Db → A) c x c' :
  query fault f c = (x, c') → stopped fault c c' ∧ (res_is_ok x = true → same_db c c').
Proof.
  unfold query, sql. destruct (fault (tick c)) as [e|] eqn:He.
  - intros [= <- <-]. split; [by apply failed_stopped|done].
  - intros [= <- <-]. assert (same_db c (with_current (current c) (bump c))) as Hs.
    { unfold with_current, current, bump. cbn. destruct (working c) eqn:Hw; by split. }
    split; [by apply stopped_same|done].
Qed.

Section wp_calls.
Context (fault : nat → option Fault) (d0 : Db).

Lemma wp_query {A} (f : Db → A) Q (X : Run → Conn → Prop) r c :
  (∀ c', same_db c c' → Q (f (current c)) r c') → (∀ c', stopped fault c c' → X r c') →
  wp (store (query fault f)) Q X r c.
Proof.
  intros HQ HX. apply wp_store. destruct (query fault f c) as [[a|e] c'] eqn:Hr;
    pose proof (query_stopped _ _ _ _ _ Hr) as [Hs Hok]; [|by apply HX].
  apply query_current in Hr as [-> _]. by apply HQ, Hok.
Qed.

Lemma wp_or_rollback {A} (m : M string A) Q (X : Run → Conn → Prop) r c :
  Plain m → in_tx d0 c →
  (∀ a c', m c = (Ok a, c') → in_tx d0 c' → Q a r c') →
  (∀ c', committed c' = d0 → working c' = None → X r c') → wp (or_rollback m) Q X r c.
Proof.
  intros Hm Htx HQ HX. unfold wp, or_rollback. destruct (m c) as [[a|e] c'] eqn:Hr;
    pose proof (plain_in_tx m d0 c _ c' Hm Htx Hr) as [Hc Hw]; [by apply HQ, Hw|].
  by apply HX.
Qed.
End wp_calls.

(** ** Rows that are only added *)

Section insert_new.
Context {K A : Type} `{Countable K}.

Definition insert_all_new (l : list (K * A)) (t : gmap K A) : gmap K A :=
  foldl (λ t kv, insert_new (fst kv) (snd kv) t) t l.

Lemma insert_new_lookup k a (t : gmap K A) k' :
  insert_new k a t !! k' = match t !! k' with Some x => Some x | None => if decide (k' = k) then Some a else None end.
Proof.
  unfold insert_new. destruct (t !! k) eqn:Hk.
  - destruct (t !! k') eqn:Hk'; [done|]. case_decide; [congruence|done].
  - destruct (decide (k' = k)) as [->|Hne].
    + by rewrite lookup_insert_eq, Hk.
    + rewrite lookup_insert_ne by done. by destruct (t !! k').
Qed.

Lemma insert_all_new_lookup (l : list (K * A)) : ∀ t k,
  (t !! k = None → is_Some (insert_all_new l t !! k) ↔ k ∈ map fst l) ∧
  (∀ a, t !! k = Some a → insert_all_new l t !! k = Some a) ∧
  (∀ a, insert_all_new l t !! k = Some a → t !! k = Some a ∨ (k, a) ∈ l).
Proof.
  induction l as [|[k0 a0] l IH]; intros t k; cbn.
  - split_and!; [|done|by left]. intros ->. split; [intros [? [=]]|set_solver].
  - destruct (IH (insert_new k0 a0 t) k) as (Hnone & Hsome & Hall).
    rewrite insert_new_lookup in Hnone, Hsome, Hall. split_and!.
    + intros Ht. rewrite Ht in *. rewrite elem_of_cons. case_decide as Hk.
      * split; [by left|]. intros _. exists a0. by apply Hsome.
      * rewrite Hnone by done. split; [by right|]. by intros [|].
    + intros a Ht. apply Hsome. by rewrite Ht.
    + intros a Ha. apply Hall in Ha as [Ha|Ha]; [|right; by apply list_elem_of_further].
      destruct (t !! k); [by left|]. case_decide; [|done]. injection Ha as ->. subst. right. apply list_elem_of_here.
Qed.

Lemma insert_all_new_kept (l : list (K * A)) t k a :
  insert_all_new l t !! k = None → t !! k = Some a → None = Some a.
Proof. intros Hn Ho. by rewrite (proj1 (proj2 (insert_all_new_lookup l t k)) a Ho) in Hn. Qed.

Lemma insert_all_new_app (l1 l2 : list (K * A)) t :
  insert_all_new (l1 ++ l2) t = insert_all_new l2 (insert_all_new l1 t).
Proof. apply foldl_app. Qed.
End insert_new.

(** Tables by which the rows of a snapshot are counted. *)
Lemma rows_of_key_length {B V} `{Countable B} (t : gmap (Z * B) V) id (keys : list B) :
  (∀ k, is_Some (t !! (id, k)) ↔ k ∈ keys) →
  ∀ l : list B, l ≡ₚ omap (λ kv, if decide (fst (fst kv) = id) then Some (snd (fst kv)) else None) (map_to_list t) →
  NoDup l ∧ (∀ k, k ∈ l ↔ k ∈ keys).
Proof.
  intros Hkeys l Hl. split.
  - rewrite Hl. clear Hl. pose proof (NoDup_fst_map_to_list t) as Hnd. induction (map_to_list t) as [|[[i b] v] m IH]; [constructor|].
    apply NoDup_cons in Hnd as [Hn Hnd]. cbn [omap list_omap fst snd]. case_decide as Hi; [|by apply IH].
    apply NoDup_cons. split; [|by apply IH]. subst i. intros ([[i b'] v'] & Hin & Hb)%list_elem_of_omap.
    cbn in Hb. case_decide as Hi; [|done]. injection Hb as ->. subst i. apply Hn.
    apply list_elem_of_fmap. by exists ((id, b), v').
  - intros k. rewrite Hl, <- Hkeys, list_elem_of_omap. split.
    + intros ([[i b'] v'] & Hin%elem_of_map_to_list & Hb). cbn in Hb. case_decide as Hi; [|done].
      injection Hb as ->. subst i. by exists v'.
    + intros [v Hv]. exists ((id, k), v). rewrite elem_of_map_to_list. split; [done|]. cbn. by rewrite decide_True.
Qed.

(** ** The statements *)

Lemma steps_guarded {A} (b : A → Db → bool) (g : A → Db → Db) e l : ∀ d d',
  steps (λ x d, if b x d then Ok (g x d) else Err e) l d = Ok d' → d' = foldl (λ d x, g x d) d l.
Proof.
  induction l as [|x l IH]; intros d d'; cbn [steps foldl]; [by intros [= ->]|].
  destruct (b x d); [|done]. apply IH.
Qed.

Definition insert_file (t : gmap (Z * string) StoredSnapshotFile) (f : StoredSnapshotFile) :=
  <[(sf_snapshot_id f, sf_path f) := f]> t.

Definition node_claims (members : list SnapshotFileMembership) : list (string * string) :=
  flat_map (λ m, map (λ qn, (qn, sm_hash m)) (sm_qns m)) members.
Definition edge_claims (members : list SnapshotFileMembership) : list (Triple * string) :=
  flat_map (λ m, map (λ e, (e, sm_hash m)) (sm_edges m)) members.

Definition of_snapshot {K} (id : Z) (l : list (K * string)) : list (Z * K * string) :=
  map (λ kv, ((id, fst kv), snd kv)) l.

Definition blob_key (b : StoredSnapshotMembershipBlob) : Z * string := (mb_snapshot_id b, mb_path b).

Definition member_blobs (id : Z) (members : list SnapshotFileMembership)
    (t : gmap (Z * string) StoredSnapshotMembershipBlob) : gmap (Z * string) StoredSnapshotMembershipBlob :=
  foldl (λ t b, <[blob_key b := b]> t) t (map (membership_blob id) members).

Definition written (id : Z) (commit : StoredCommit) (s : StoredSnapshot) (files : list StoredSnapshotFile)
    (members : list SnapshotFileMembership) (d : Db) : Db :=
  mk_db (repos d) (<[(cm_sha commit, cm_repo_id commit) := commit]> (commits d))
    (<[id := s]> (graph_snapshots d)) (foldl insert_file (snapshot_files d) files)
    (member_blobs id members (membership_blobs d))
    (historical_nodes d) (historical_edges d)
    (insert_all_new (of_snapshot id (node_claims members)) (snapshot_nodes d))
    (insert_all_new (of_snapshot id (edge_claims members)) (snapshot_edges d))
    (node_history d) (edge_history d).

Section statements.
Context (fault : nat → option Fault) (clock : nat → N).

Definition no_fault : Prop := ∀ t, fault t = None.

Lemma no_fault_gentle : no_fault → gentle fault.
Proof. intros Hno t f Hf. by rewrite Hno in Hf. Qed.

Lemma upsert_commit_ok commit c u c' :
  upsert_commit fault clock commit c = (Ok u, c') →
  ∃ at_, repo_exists (current c) (cm_repo_id commit) = true ∧
    current c' = set_commits (<[(cm_sha commit, cm_repo_id commit) := with_indexed_at at_ commit]>
                   (commits (current c))) (current c).
Proof.
  unfold upsert_commit. intros (now & c1 & [= <- <-] & Hr%execute_ok)%bind_ok.
  destruct (repo_exists (current c) (cm_repo_id commit)); [|done]. injection Hr as Hr. eauto.
Qed.

Lemma sql_ok {A} (f : Db → result string (A * Db)) c a c' :
  sql fault f c = (Ok a, c') → f (current c) = Ok (a, current c').
Proof.
  unfold sql. destruct (fault (tick c)); [done|]. destruct (f (current c)) as [[x d]|]; [|done].
  intros [= -> <-]. by rewrite current_with.
Qed.

Lemma insert_snapshot_ok repo_id sha root nodes edges files comp errs c id c' :
  insert_snapshot fault clock repo_id sha root nodes edges files comp errs c = (Ok id, c') →
  snapshot_rows (current c) repo_id sha = [] →
  id = next_id (map fst (map_to_list (graph_snapshots (current c)))) ∧ repo_exists (current c) repo_id = true ∧
  ∃ at_, current c' = set_snapshots
    (<[id := mk_stored id repo_id sha root nodes edges files at_ comp errs]> (graph_snapshots (current c))) (current c).
Proof.
  unfold insert_snapshot. intros (now & c1 & [= <- <-] & Hr%sql_ok)%bind_ok Hnone.
  rewrite Hnone in Hr. cbn [head res_bind] in Hr. destruct (repo_exists (current c) repo_id); [|done].
  injection Hr as <- <-. eauto.
Qed.

Lemma insert_files_ok files c u c' :
  insert_snapshot_files fault files c = (Ok u, c') →
  current c' = set_files (foldl insert_file (snapshot_files (current c)) files) (current c).
Proof.
  intros Hr. unfold insert_snapshot_files in Hr. apply (for_each_steps fault (λ f d,
    if snapshot_exists d (sf_snapshot_id f) then Ok (set_files (insert_file (snapshot_files d) f) d)
    else Err foreign_key)) in Hr. apply steps_guarded in Hr. rewrite Hr. clear Hr.
  generalize (current c). clear. intros d. revert d. induction files as [|f files IH]; intros d; [by destruct d|].
  cbn [foldl]. rewrite IH. done.
Qed.

Lemma insert_blobs_lookup (blobs : list StoredSnapshotMembershipBlob) : ∀ t : gmap (Z * string) StoredSnapshotMembershipBlob,
  let t' := foldl (λ t b, <[blob_key b := b]> t) t blobs in
  (∀ k, k ∉ map blob_key blobs → t' !! k = t !! k) ∧
  (NoDup (map blob_key blobs) → ∀ b, b ∈ blobs → t' !! blob_key b = Some b).
Proof.
  induction blobs as [|b blobs IH]; intros t; cbn [foldl map]; [split; [done|set_solver]|].
  destruct (IH (<[blob_key b := b]> t)) as [Hother Hin]. cbn zeta in *. split.
  - intros k [Hne Hk]%not_elem_of_cons. rewrite (Hother k Hk). by apply lookup_insert_ne.
  - intros [Hb Hnd]%NoDup_cons x [->|Hx]%elem_of_cons; [|by apply Hin].
    rewrite Hother by done. apply lookup_insert_eq.
Qed.

Lemma insert_blobs_ok blobs c u c' :
  insert_snapshot_membership_blobs fault blobs c = (Ok u, c') →
  current c' = set_blobs (foldl (λ t b, <[blob_key b := b]> t) (membership_blobs (current c)) blobs) (current c).
Proof.
  intros Hr. unfold insert_snapshot_membership_blobs in Hr. apply (for_each_steps fault (λ b d,
    if snapshot_exists d (mb_snapshot_id b)
    then Ok (set_blobs (<[blob_key b := b]> (membership_blobs d)) d)
    else Err foreign_key)) in Hr. apply steps_guarded in Hr. rewrite Hr. clear Hr.
  generalize (current c). clear. intros d. revert d.
  induction blobs as [|b blobs IH]; intros d; [by destruct d|]. cbn [foldl]. rewrite IH. done.
Qed.

Lemma attach_nodes_ok id hash qns c u c' :
  attach_snapshot_nodes fault id hash qns c = (Ok u, c') →
  current c' = set_members (insert_all_new (of_snapshot id (map (λ qn, (qn, hash)) qns)) (snapshot_nodes (current c)))
                 (snapshot_edges (current c)) (current c).
Proof.
  intros Hr. unfold attach_snapshot_nodes in Hr. apply (for_each_steps fault (λ qn d,
    if snapshot_exists d id
    then Ok (set_members (insert_new (id, qn) hash (snapshot_nodes d)) (snapshot_edges d) d)
    else Err foreign_key)) in Hr. apply (steps_guarded (λ _ d, snapshot_exists d id)) in Hr. rewrite Hr. clear Hr.
  generalize (current c). clear. intros d. revert d. induction qns as [|qn qns IH]; intros d; [by destruct d|].
  cbn [foldl]. rewrite IH. done.
Qed.

Lemma attach_edges_ok id hash keys c u c' :
  attach_snapshot_edges fault id hash keys c = (Ok u, c') →
  current c' = set_members (snapshot_nodes (current c))
    (insert_all_new (of_snapshot id (map (λ e, (e, hash)) keys)) (snapshot_edges (current c))) (current c).
Proof.
  intros Hr. unfold attach_snapshot_edges in Hr. apply (for_each_steps fault (λ e d,
    if snapshot_exists d id
    then Ok (set_members (snapshot_nodes d) (insert_new (id, e) hash (snapshot_edges d)) d)
    else Err foreign_key)) in Hr. apply (steps_guarded (λ _ d, snapshot_exists d id)) in Hr. rewrite Hr. clear Hr.
  generalize (current c). clear. intros d. revert d. induction keys as [|e keys IH]; intros d; [by destruct d|].
  cbn [foldl]. rewrite IH. done.
Qed.

Lemma of_snapshot_app {K} id (l1 l2 : list (K * string)) :
  of_snapshot id (l1 ++ l2) = of_snapshot id l1 ++ of_snapshot id l2.
Proof. apply map_app. Qed.

Lemma plain_context {A} what (m : M string A) : Plain m → Plain (context what m).
Proof. intros Hm. unfold context. apply _. Qed.

Lemma context_ok {A} what (m : M string A) c a c' : context what m c = (Ok a, c') ↔ m c = (Ok a, c').
Proof. apply map_err_ok. Qed.

(** Members attached one after the other. *)
Lemma wp_attach_nodes d0 id members Q (X : Run → Conn → Prop) r c :
  in_tx d0 c →
  (∀ c', in_tx d0 c' → current c' = set_members (insert_all_new (of_snapshot id (node_claims members))
     (snapshot_nodes (current c))) (snapshot_edges (current c)) (current c) → Q tt r c') →
  (∀ c', committed c' = d0 → working c' = None → X r c') →
  wp (b_each (λ m, or_rollback (context ("attach snapshot nodes for " +:+ sm_hash m)
        (attach_snapshot_nodes fault id (sm_hash m) (sm_qns m)))) members) Q X r c.
Proof.
  revert c. induction members as [|m members IH]; intros c Htx HQ HX; cbn [b_each].
  - apply wp_ret, HQ; [done|]. by destruct (current c).
  - apply wp_bind, (wp_or_rollback d0); [apply plain_context, _|done| |done].
    intros _ c1 H1%context_ok%attach_nodes_ok Htx1. apply IH; [done| |done].
    intros c2 Htx2 H2. apply HQ; [done|]. rewrite H2, H1. unfold node_claims. cbn [flat_map].
    by rewrite of_snapshot_app, insert_all_new_app.
Qed.

Lemma wp_attach_edges d0 id members Q (X : Run → Conn → Prop) r c :
  in_tx d0 c →
  (∀ c', in_tx d0 c' → current c' = set_members (snapshot_nodes (current c))
     (insert_all_new (of_snapshot id (edge_claims members)) (snapshot_edges (current c))) (current c) → Q tt r c') →
  (∀ c', committed c' = d0 → working c' = None → X r c') →
  wp (b_each (λ m, or_rollback (context ("attach snapshot edges for " +:+ sm_hash m)
        (attach_snapshot_edges fault id (sm_hash m) (sm_edges m)))) members) Q X r c.
Proof.
  revert c. induction members as [|m members IH]; intros c Htx HQ HX; cbn [b_each].
  - apply wp_ret, HQ; [done|]. by destruct (current c).
  - apply wp_bind, (wp_or_rollback d0); [apply plain_context, _|done| |done].
    intros _ c1 H1%context_ok%attach_edges_ok Htx1. apply IH; [done| |done].
    intros c2 Htx2 H2. apply HQ; [done|]. rewrite H2, H1. unfold edge_claims. cbn [flat_map].
    by rewrite of_snapshot_app, insert_all_new_app.
Qed.

Definition same_run (r r' : Run) : Prop := r_cache r' = r_cache r ∧ r_summary r' = r_summary r.

Lemma wp_emit e d0 c (Q : unit → Run → Conn → Prop) (X : Run → Conn → Prop) r0 r :
  same_run r0 r → in_tx d0 c → (∀ r', same_run r0 r' → Q tt r' c) → wp (@progress string e) Q X r c.
Proof. intros [H1 H2] _ HQ. apply HQ. by split. Qed.

Definition snapshot_row (id repo_id : Z) (sha : string) (root : option string) (at_ : string) (g : Gathered) :
    StoredSnapshot :=
  mk_stored id repo_id sha root (g_node_count g) (g_edge_count g) (Z.of_nat (length (g_files g))) at_
    (completeness_of (g_parse_errors g) (length (g_files g))) (Z.of_nat (g_parse_errors g)).

(** The transaction of one snapshot: all of it is committed, or nothing. *)
Lemma wp_write_snapshot pos meta repo_id iref root g d0 (Q : unit → Run → Conn → Prop) (X : Run → Conn → Prop) r c :
  in_tx d0 c → snapshot_rows (current c) repo_id (gm_sha meta) = [] →
  (∀ id at1 at2 r' c',
     id = next_id (map fst (map_to_list (graph_snapshots (current c)))) →
     repo_exists (current c) repo_id = true → same_run r r' → working c' = None →
     committed c' = written id (with_indexed_at at1 (stored_commit meta repo_id iref))
       (snapshot_row id repo_id (gm_sha meta) root at2 g) (map (with_snapshot_id id) (g_files g))
       (g_members g) (current c) →
     Q tt r' c') →
  (∀ r' c', same_run r r' → committed c' = d0 → (no_fault → working c' = None) → X r' c') →
  wp (write_snapshot fault clock pos meta repo_id iref root g) Q X r c.
Proof.
  intros Htx Hnone HQ HX. unfold write_snapshot, emit_persist_progress. cbn zeta.
  apply wp_bind, (wp_emit _ d0 c _ _ r r); [done..|]. intros r1 Hr1.
  apply wp_bind, (wp_or_rollback d0); [apply plain_context, _|done| |by auto].
  intros _ c1 (at1 & _ & H1)%context_ok%upsert_commit_ok Htx1.
  apply wp_bind, (wp_emit _ d0 c1 _ _ r r1); [done..|]. intros r2 Hr2.
  apply wp_bind, (wp_or_rollback d0); [apply _|done| |by auto].
  intros id c2 H2 Htx2. apply insert_snapshot_ok in H2 as (Hid & Hrepo & at2 & H2); [|by rewrite H1].
  apply wp_bind, (wp_or_rollback d0); [apply plain_context, _|done| |by auto].
  intros _ c3 H3%context_ok%insert_files_ok Htx3.
  apply wp_bind, (wp_emit _ d0 c3 _ _ r r2); [done..|]. intros r3 Hr3.
  apply wp_bind, (wp_attach_nodes d0); [done| |by auto]. intros c4 Htx4 H4.
  apply wp_bind, (wp_attach_edges d0); [done| |by auto]. intros c5 Htx5 H5.
  apply wp_bind, (wp_or_rollback d0); [apply plain_context, _|done| |by auto].
  intros _ c6 H6%context_ok%insert_blobs_ok Htx6.
  apply wp_bind, (wp_emit _ d0 c6 _ _ r r3); [done..|]. intros r4 Hr4.
  apply wp_store. unfold context, map_err, commit_write. destruct Htx6 as [Hc6 [d Hd]].
  destruct (fault (tick c6)) as [e|] eqn:Hfault;
    [apply HX; [done|by rewrite (so_committed _ _ _ (failed_stopped _ _ _ Hfault))|intros Hno; by rewrite Hno in Hfault]|].
  rewrite Hd.
  apply (HQ id at1 at2); [|by rewrite H1 in Hrepo|done|done|].
  - by rewrite Hid, H1.
  - assert (d = current c6) as -> by (unfold current; by rewrite Hd). cbn [committed].
    rewrite H6, H5, H4, H3, H2, H1. unfold written, snapshot_row. done.
Qed.
End statements.

(** ** The state with the new snapshot *)

Definition file_key (f : StoredSnapshotFile) : Z * string := (sf_snapshot_id f, sf_path f).

Lemma insert_files_lookup files : ∀ t,
  (∀ k f, foldl insert_file t files !! k = Some f → t !! k = Some f ∨ (f ∈ files ∧ file_key f = k)) ∧
  (∀ k, k ∉ map file_key files → foldl insert_file t files !! k = t !! k) ∧
  (NoDup (map file_key files) → ∀ f, f ∈ files → foldl insert_file t files !! file_key f = Some f).
Proof.
  induction files as [|f files IH]; intros t; cbn [foldl map].
  - split_and!; [auto|done|set_solver].
  - destruct (IH (insert_file t f)) as (Hall & Hother & Hin). fold (file_key f) in *. split_and!.
    + intros k g Hg. apply Hall in Hg as [Hg|[Hg <-]]; [|right; set_solver].
      unfold insert_file in Hg. apply lookup_insert_Some in Hg as [[<- <-]|[_ Hg]]; [right; set_solver|by left].
    + intros k [Hne Hk]%not_elem_of_cons. rewrite (Hother k Hk). by apply lookup_insert_ne.
    + intros [Hf Hnd]%NoDup_cons g [->|Hg]%elem_of_cons; [|by apply Hin].
      rewrite Hother by done. apply lookup_insert_eq.
Qed.

Lemma same_elements_length {A} (l claims : list A) :
  NoDup l → (∀ x, x ∈ l ↔ x ∈ claims) → length l = length claims ↔ NoDup claims.
Proof.
  intros Hl Hel. split.
  - intros Hlen. assert (l ⊆+ claims) as Hs by (apply NoDup_submseteq; [done|intros x; apply Hel]).
    assert (l ≡ₚ claims) as <- by (apply submseteq_length_Permutation; [done|lia]). done.
  - intros Hc. apply Permutation_length, NoDup_Permutation; done.
Qed.

(** Graphs of a file that are in the tables. *)
Definition stored (d : Db) (hash : string) (qns : list string) (keys : list Triple) : Prop :=
  (∀ qn, qn ∈ qns → is_Some (historical_nodes d !! (hash, qn))) ∧
  ∀ e, e ∈ keys → is_Some (historical_edges d !! (hash, e)).

Definition aligned (f : StoredSnapshotFile) (m : SnapshotFileMembership) : Prop :=
  sf_path f = sm_path m ∧ sf_hash f = sm_hash m.

Section written.
Context (d : Db) (Hok : db_ok d) (commit : StoredCommit) (s : StoredSnapshot).
Context (files : list StoredSnapshotFile) (members : list SnapshotFileMembership).
#[local] Abbreviation id := (st_snapshot_id s).
Context (Hid : id = next_id (map fst (map_to_list (graph_snapshots d)))).
Context (Hrepo : repo_exists d (st_repo_id s) = true).
Context (Hcommit : (cm_sha commit, cm_repo_id commit) = (st_commit_sha s, st_repo_id s)).
Context (Hnone : snapshot_rows d (st_repo_id s) (st_commit_sha s) = []).
Context (Haligned : Forall2 aligned files members).
Context (Hstored : Forall (λ m, stored d (sm_hash m) (sm_qns m) (sm_edges m)) members).
Context (Hpaths : NoDup (map sf_path files)).
#[local] Abbreviation d' := (written id commit s (map (with_snapshot_id id) files) members d).

Lemma id_fresh i t : graph_snapshots d !! i = Some t → i ≠ id.
Proof.
  intros Ht. assert (i < id)%Z; [|lia]. rewrite Hid. apply next_id_above, list_elem_of_fmap.
  exists (i, t). by rewrite elem_of_map_to_list.
Qed.

Lemma file_id_fresh i path f : snapshot_files d !! (i, path) = Some f → i ≠ id.
Proof. intros Hf. destruct (ok_file d Hok _ _ Hf) as [_ [t Ht]]. by eapply id_fresh. Qed.

Lemma new_keys : map file_key (map (with_snapshot_id id) files) = map (pair id) (map sf_path files).
Proof. by rewrite !map_map. Qed.

Lemma new_keys_NoDup : NoDup (map file_key (map (with_snapshot_id id) files)).
Proof. rewrite new_keys. apply NoDup_fmap_2; [|done]. by intros x y [=]. Qed.

Lemma old_file i path : i ≠ id → snapshot_files d' !! (i, path) = snapshot_files d !! (i, path).
Proof.
  intros Hi. destruct (insert_files_lookup (map (with_snapshot_id id) files) (snapshot_files d)) as (_ & Hother & _).
  apply Hother. rewrite new_keys. by intros (p & [= -> ->] & _)%list_elem_of_fmap.
Qed.

Lemma new_file f : f ∈ files → snapshot_files d' !! (id, sf_path f) = Some (with_snapshot_id id f).
Proof.
  intros Hf. destruct (insert_files_lookup (map (with_snapshot_id id) files) (snapshot_files d)) as (_ & _ & Hin).
  apply (Hin new_keys_NoDup (with_snapshot_id id f)). apply list_elem_of_fmap. by exists f.
Qed.

Lemma member_stored m qn h :
  m ∈ members → h = sm_hash m →
  (qn ∈ sm_qns m → is_Some (historical_nodes d !! (h, qn))) ∧
  ∃ path f, snapshot_files d' !! (id, path) = Some f ∧ sf_hash f = h.
Proof.
  intros Hm ->. split; [apply (proj1 (proj1 (Forall_forall _ _) Hstored m Hm))|].
  apply list_elem_of_lookup in Hm as [i Hi].
  destruct (Forall2_lookup_r _ _ _ _ _ Haligned Hi) as (f & Hf & _ & Hh).
  exists (sf_path f), (with_snapshot_id id f). split; [|done].
  apply new_file. by eapply list_elem_of_lookup_2.
Qed.

Lemma old_node i qn h : snapshot_nodes d !! (i, qn) = Some h → i ≠ id.
Proof. intros Hm. destruct (ok_member d Hok _ _ _ Hm) as (_ & p & f & Hf & _). by eapply file_id_fresh. Qed.
Lemma old_edge i e h : snapshot_edges d !! (i, e) = Some h → i ≠ id.
Proof. intros Hm. destruct (ok_edge_member d Hok _ _ _ Hm) as (_ & p & f & Hf & _). by eapply file_id_fresh. Qed.

Lemma new_node_row i qn h :
  snapshot_nodes d' !! (i, qn) = Some h →
  snapshot_nodes d !! (i, qn) = Some h ∨ (i = id ∧ ∃ m, m ∈ members ∧ h = sm_hash m ∧ qn ∈ sm_qns m).
Proof.
  intros Hm. apply insert_all_new_lookup in Hm as [Hm|Hm]; [by left|]. right.
  apply list_elem_of_fmap in Hm as ([x y] & [= -> -> ->] & Hin). split; [done|].
  apply list_elem_of_In, in_flat_map in Hin as (m & Hm%list_elem_of_In & Hin%list_elem_of_In).
  apply list_elem_of_fmap in Hin as (z & [= -> ->] & Hz). eauto.
Qed.

Lemma new_edge_row i e h :
  snapshot_edges d' !! (i, e) = Some h →
  snapshot_edges d !! (i, e) = Some h ∨ (i = id ∧ ∃ m, m ∈ members ∧ h = sm_hash m ∧ e ∈ sm_edges m).
Proof.
  intros Hm. apply insert_all_new_lookup in Hm as [Hm|Hm]; [by left|]. right.
  apply list_elem_of_fmap in Hm as ([x y] & [= -> -> ->] & Hin). split; [done|].
  apply list_elem_of_In, in_flat_map in Hin as (m & Hm%list_elem_of_In & Hin%list_elem_of_In).
  apply list_elem_of_fmap in Hin as (z & [= -> ->] & Hz). eauto.
Qed.

Lemma written_ok : db_ok d'.
Proof.
  assert (∀ i, is_Some (graph_snapshots d !! i) → is_Some (graph_snapshots d' !! i)) as Hkeep.
  { intros i Hi. cbn. apply lookup_insert_is_Some. destruct (decide (id = i)); auto. }
  split.
  - cbn [written graph_snapshots repos commits]. intros i t [[<- <-]|[_ Hi]]%lookup_insert_Some.
    + split_and!; [done|by apply bool_decide_eq_true in Hrepo|]. rewrite Hcommit.
      by rewrite lookup_insert_eq.
    + destruct (ok_snapshot d Hok i t Hi) as (? & ? & ?). split_and!; [done..|].
      apply lookup_insert_is_Some. destruct (decide ((cm_sha commit, cm_repo_id commit) = (st_commit_sha t, st_repo_id t))); auto.
  - assert (∀ j t, graph_snapshots d !! j = Some t → st_repo_id t = st_repo_id s → st_commit_sha t = st_commit_sha s → False) as Hno.
    { intros j t Hj Hr Hsha. apply (elem_of_nil t). rewrite <- Hnone. unfold snapshot_rows.
      apply list_elem_of_filter. split; [done|]. apply (snapshots_of_elem d Hok). split; [|done].
      by destruct (ok_snapshot d Hok j t Hj) as [-> _]. }
    cbn [written graph_snapshots]. intros i j x y [[<- <-]|[_ Hi]]%lookup_insert_Some [[<- <-]|[_ Hj]]%lookup_insert_Some Hr Hsha.
    + done.
    + by destruct (Hno j y).
    + by destruct (Hno i x).
    + by apply (ok_unique d Hok i j x y).
  - cbn [written commits]. intros k x [[<- <-]|[_ Hk]]%lookup_insert_Some; [done|by apply Hok].
  - intros [i path] f Hf. destruct (insert_files_lookup (map (with_snapshot_id id) files) (snapshot_files d)) as (Hall & _).
    apply Hall in Hf as [Hf|[Hf Hk]].
    + destruct (ok_file d Hok _ _ Hf) as [? ?]. split; [done|]. by apply Hkeep.
    + apply list_elem_of_fmap in Hf as (g & -> & _). split; [done|]. injection Hk as <- _. cbn.
      by rewrite lookup_insert_eq.
  - apply Hok.
  - apply Hok.
  - intros i qn h [Hm|(-> & m & Hm & Hh & Hqn)]%new_node_row.
    + destruct (ok_member d Hok _ _ _ Hm) as (? & p & f & Hf & Hfh). split; [done|].
      exists p, f. rewrite old_file by (by eapply file_id_fresh). done.
    + destruct (member_stored m qn h Hm Hh) as [H1 H2]. auto.
  - intros i e h [Hm|(-> & m & Hm & Hh & He)]%new_edge_row.
    + destruct (ok_edge_member d Hok _ _ _ Hm) as (? & p & f & Hf & Hfh). split; [done|].
      exists p, f. rewrite old_file by (by eapply file_id_fresh). done.
    + destruct (member_stored m "" h Hm Hh) as [_ H2]. split; [|done]. subst h.
      by apply (proj2 (proj1 (Forall_forall _ _) Hstored m Hm)).
  - intros k r Hr. destruct (ok_node_history d Hok k r Hr) as (? & ? & ?). auto.
  - intros k r Hr. destruct (ok_edge_history d Hok k r Hr) as (? & ? & ?). auto.
Qed.

(** The other snapshots are read as before. *)
Lemma written_reads i : i ≠ id → reads_same i d d'.
Proof.
  intros Hi. apply reads_same_tables; [done|exact written_ok|..]; [| | |done|done].
  - intros path. by apply old_file.
  - intros qn. destruct (snapshot_nodes d' !! (i, qn)) as [h|] eqn:Hn.
    + by apply new_node_row in Hn as [->|[-> _]].
    + destruct (snapshot_nodes d !! (i, qn)) as [h|] eqn:Ho; [|done].
      exact (insert_all_new_kept _ _ _ _ Hn Ho).
  - intros e. destruct (snapshot_edges d' !! (i, e)) as [h|] eqn:Hn.
    + by apply new_edge_row in Hn as [->|[-> _]].
    + destruct (snapshot_edges d !! (i, e)) as [h|] eqn:Ho; [|done].
      exact (insert_all_new_kept _ _ _ _ Hn Ho).
Qed.
(** *** What is read back *)

Lemma read_keys {K A} `{Countable K} (t : gmap (Z * K) string) (find : Z * K * string → option A) (key : A → K) l :
  (∀ kv a, find kv = Some a → fst (fst kv) = id ∧ key a = snd (fst kv)) →
  (∀ kv, kv ∈ l → fst (fst kv) = id → is_Some (find kv)) →
  map key (omap find l) = omap (λ kv : Z * K * string, if decide (fst (fst kv) = id) then Some (snd (fst kv)) else None) l.
Proof.
  intros Hfind Hall. induction l as [|kv l IH]; [done|]. cbn [omap list_omap].
  assert (map key (omap find l) = omap (λ kv : Z * K * string, if decide (fst (fst kv) = id) then Some (snd (fst kv)) else None) l) as IHl
    by (apply IH; intros; apply Hall; [by apply list_elem_of_further|done]).
  destruct (find kv) as [a|] eqn:Hf.
  - destruct (Hfind _ _ Hf) as [Hi Hk]. rewrite decide_True by done. cbn [map]. by rewrite Hk, <- IHl.
  - rewrite decide_False; [exact IHl|]. intros Hi.
    destruct (Hall kv (list_elem_of_here _ _) Hi) as [a Ha]. congruence.
Qed.

Lemma claimed_keys {K} `{Countable K} (t : gmap (Z * K) string) (claims : list (K * string)) :
  (∀ k h, t !! (id, k) ≠ Some h) →
  ∀ k, is_Some (insert_all_new (of_snapshot id claims) t !! (id, k)) ↔ k ∈ map fst claims.
Proof.
  intros Ht k. rewrite (proj1 (insert_all_new_lookup _ _ _)).
  - unfold of_snapshot. rewrite map_map. cbn. rewrite !list_elem_of_fmap. split.
    + intros (x & [= ->] & Hx). eauto.
    + intros (x & -> & Hx). eauto.
  - destruct (t !! (id, k)) as [h|] eqn:Hk; [by destruct (Ht k h)|done].
Qed.

Lemma written_nodes :
  NoDup (map hn_qn (nodes_of_snapshot d' id)) ∧
  ∀ qn, qn ∈ map hn_qn (nodes_of_snapshot d' id) ↔ qn ∈ map fst (node_claims members).
Proof.
  apply (rows_of_key_length (snapshot_nodes d') id).
  - apply claimed_keys. intros k h Hk. by apply old_node in Hk.
  - unfold nodes_of_snapshot. rewrite sort_by_perm. apply reflexive_eq, (read_keys (snapshot_nodes d')).
    + intros [[i qn] h] n. unfold member_node. cbn [fst snd]. case_bool_decide; [|done]. intros Hn.
      split; [done|]. pose proof (ok_node d' written_ok _ _ Hn) as [= _ ->]. done.
    + intros [[i qn] h] Hin%elem_of_map_to_list Hi. unfold member_node. cbn [fst snd] in *.
      rewrite bool_decide_eq_true_2 by done. by destruct (ok_member d' written_ok _ _ _ Hin).
Qed.

Lemma written_edges :
  NoDup (map (λ e, snd (edge_row_key e)) (edges_of_snapshot d' id)) ∧
  ∀ k, k ∈ map (λ e, snd (edge_row_key e)) (edges_of_snapshot d' id) ↔ k ∈ map fst (edge_claims members).
Proof.
  apply (rows_of_key_length (snapshot_edges d') id).
  - apply claimed_keys. intros k h Hk. by apply old_edge in Hk.
  - unfold edges_of_snapshot. rewrite sort_by_perm. apply reflexive_eq, (read_keys (snapshot_edges d')).
    + intros [[i k] h] e. unfold member_edge. cbn [fst snd]. case_bool_decide; [|done]. intros He.
      split; [done|]. pose proof (ok_edge d' written_ok _ _ He) as Hk. unfold edge_row_key in *.
      by injection Hk as _ ->.
    + intros [[i k] h] Hin%elem_of_map_to_list Hi. unfold member_edge. cbn [fst snd] in *.
      rewrite bool_decide_eq_true_2 by done. by destruct (ok_edge_member d' written_ok _ _ _ Hin).
Qed.

Lemma written_files : length (files_of_snapshot d' id) = length files.
Proof.
  rewrite <- (length_map sf_path (files_of_snapshot d' id)), <- (length_map sf_path files).
  apply same_elements_length; [| |done].
  - unfold files_of_snapshot. rewrite sort_by_perm. apply rows_key_NoDup.
    intros k k' f g Hf Hg Hif Hig Hp. destruct (ok_file d' written_ok _ _ Hf) as [<- _].
    destruct (ok_file d' written_ok _ _ Hg) as [<- _]. congruence.
  - intros path. rewrite !list_elem_of_fmap. setoid_rewrite (files_of_snapshot_elem d' written_ok). split.
    + intros (f & -> & Hf). destruct (insert_files_lookup (map (with_snapshot_id id) files) (snapshot_files d)) as (Hall & _).
      apply Hall in Hf as [Hf%file_id_fresh|[Hf _]]; [done|].
      apply list_elem_of_fmap in Hf as (g & -> & Hg). by exists g.
    + intros (f & -> & Hf). exists (with_snapshot_id id f). split; [done|]. exact (new_file f Hf).
Qed.

(** The snapshot passes the check of its readers exactly if no symbol and no relation is
    claimed twice. *)
Lemma written_valid :
  st_file_count s = Z.of_nat (length files) →
  st_node_count s = Z.of_nat (length (node_claims members)) →
  st_edge_count s = Z.of_nat (length (edge_claims members)) →
  validate_snapshot_materialization s (files_of_snapshot d' id) (nodes_of_snapshot d' id) (edges_of_snapshot d' id)
    = Ok tt ↔ NoDup (map fst (node_claims members)) ∧ NoDup (map fst (edge_claims members)).
Proof.
  intros Hf Hn He. unfold validate_snapshot_materialization, mismatch.
  rewrite Hf, Hn, He, written_files, Z.eqb_refl. cbn [app].
  rewrite <- (same_elements_length _ _ (proj1 written_nodes) (proj2 written_nodes)).
  rewrite <- (same_elements_length _ _ (proj1 written_edges) (proj2 written_edges)).
  rewrite !length_map.
  destruct (Z.eqb_spec (Z.of_nat (length (node_claims members))) (Z.of_nat (length (nodes_of_snapshot d' id))));
    destruct (Z.eqb_spec (Z.of_nat (length (edge_claims members))) (Z.of_nat (length (edges_of_snapshot d' id))));
    cbn [app]; split; try done; try lia.
Qed.

Lemma written_rows : snapshot_rows d' (st_repo_id s) (st_commit_sha s) = [s].
Proof.
  assert (∀ t, t ∈ snapshot_rows d' (st_repo_id s) (st_commit_sha s) ↔ t = s) as Hel.
  { intros t. unfold snapshot_rows. rewrite list_elem_of_filter, (snapshots_of_elem d' written_ok). cbn [written graph_snapshots].
    split.
    - intros (Hsha & [[_ <-]|[_ Ht]]%lookup_insert_Some & Hr); [done|]. exfalso.
      apply (elem_of_nil t). rewrite <- Hnone. apply list_elem_of_filter. split; [done|].
      by apply (snapshots_of_elem d Hok).
    - intros ->. by rewrite lookup_insert_eq. }
  assert (NoDup (snapshot_rows d' (st_repo_id s) (st_commit_sha s))) as Hnd.
  { unfold snapshot_rows, snapshots_of. apply NoDup_filter. apply (NoDup_fmap_1 st_snapshot_id), rows_key_NoDup.
    intros k k' x y Hx Hy _ _ Heq. destruct (ok_snapshot d' written_ok _ _ Hx) as [<- _].
    by destruct (ok_snapshot d' written_ok _ _ Hy) as [<- _]. }
  apply Permutation_singleton_r, NoDup_Permutation; [done|apply NoDup_singleton|].
  intros t. by rewrite Hel, list_elem_of_singleton.
Qed.

Lemma written_blobs m : m ∈ members → membership_blobs d' !! (id, sm_path m) = Some (membership_blob id m).
Proof.
  intros Hm. destruct (insert_blobs_lookup (map (membership_blob id) members) (membership_blobs d)) as [_ Hin].
  refine (Hin _ (membership_blob id m) _).
  - rewrite map_map. assert (map sf_path files = map sm_path members) as Hp.
    { clear -Haligned. induction Haligned as [|f x l k [Hf _] Hl IH]; [done|]. cbn. by rewrite Hf, (IH Hl). }
    rewrite Hp in Hpaths. change (NoDup (map (λ x, (id, sm_path x)) members)).
    rewrite <- (map_map sm_path (pair id)). apply NoDup_fmap_2; [|done]. by intros x y [=].
  - apply list_elem_of_fmap. by exists m.
Qed.
End written.
