(* ===== verification/HistoryCommit.v ===== *)
(** * Indexing a commit

    The phases of [process_commit] in [HistoryBuild] keep what the run remembers in agreement
    with the tables, and a commit is indexed whole or not at all. A failure between the start
    of the transaction and the writing of the snapshot leaves the transaction open, and no
    commit can be indexed on the connection after that. *)

From Stdlib Require Import Floats.SpecFloat.
From S2P Require Import Prelude RustStr Kinds BTree Graph Scc HistoryDiff HistoryGit Sqlite HistoryTables HistoryInvariant HistoryLifecycle HistoryBuild HistoryReplay HistorySnapshot.

(** ** What the run remembers *)

(** The graphs in memory are as large as they say, and are in the tables where the tables have
    symbols of the file. *)
Definition cache_ok (d : Db) (cache : BuildRunCache) : Prop :=
  ∀ hash g, blob_graphs cache !! hash = Some g →
    cg_node_count g = length (cg_qns g) ∧ cg_edge_count g = length (cg_edge_keys g) ∧
    (nodes_of_hash d hash ≠ [] → stored d hash (cg_qns g) (cg_edge_keys g)).

Lemma empty_cache_ok d : cache_ok d empty_cache.
Proof. intros hash g Hg. cbn in Hg. by rewrite lookup_empty in Hg. Qed.

Record gathered_ok (d : Db) (g : Gathered) : Prop := {
  ga_aligned : Forall2 aligned (g_files g) (g_members g);
  ga_stored : Forall (λ m, stored d (sm_hash m) (sm_qns m) (sm_edges m)) (g_members g);
  ga_nodes : g_node_count g = Z.of_nat (length (node_claims (g_members g)));
  ga_edges : g_edge_count g = Z.of_nat (length (edge_claims (g_members g))) }.

Lemma nothing_gathered_ok d : gathered_ok d nothing_gathered.
Proof. by split; cbn; constructor. Qed.

Lemma add_file_ok d g path hash language size qns keys nodes edges :
  gathered_ok d g → stored d hash qns keys → nodes = length qns → edges = length keys →
  gathered_ok d (add_file (listed_file path hash language size) (mk_membership path hash qns keys) nodes edges g).
Proof.
  intros [Ha Hs Hn He] Hst -> ->. split; cbn [add_file g_files g_members g_node_count g_edge_count].
  - apply Forall2_app; [done|]. by constructor.
  - apply Forall_app. split; [done|]. by constructor.
  - unfold node_claims in *. rewrite flat_map_app, length_app. cbn. rewrite app_nil_r, length_map, Hn. lia.
  - unfold edge_claims in *. rewrite flat_map_app, length_app. cbn. rewrite app_nil_r, length_map, He. lia.
Qed.

(** ** Graphs only grow *)

Record grown (d d' : Db) : Prop := {
  gr_rest : d' = set_graphs (historical_nodes d') (historical_edges d') d;
  gr_nodes : historical_nodes d ⊆ historical_nodes d';
  gr_edges : historical_edges d ⊆ historical_edges d';
  gr_node_keys k n : historical_nodes d' !! k = Some n → historical_nodes d !! k = Some n ∨ node_row_key n = k;
  gr_edge_keys k e : historical_edges d' !! k = Some e → historical_edges d !! k = Some e ∨ edge_row_key e = k }.

Lemma grown_refl d : grown d d.
Proof. split; [by destruct d|done|done|auto|auto]. Qed.

Lemma grown_trans d1 d2 d3 : grown d1 d2 → grown d2 d3 → grown d1 d3.
Proof.
  intros [R1 N1 E1 NK1 EK1] [R2 N2 E2 NK2 EK2]. split.
  - rewrite R2 at 1. rewrite R1 at 1. done.
  - by etransitivity.
  - by etransitivity.
  - intros k n Hn. destruct (NK2 k n Hn); auto.
  - intros k e He. destruct (EK2 k e He); auto.
Qed.

Lemma grown_ok d d' : grown d d' → db_ok d → db_ok d'.
Proof.
  intros [Hr Hn He Hnk Hek] Hok. rewrite Hr. split; cbn.
  - apply Hok.
  - apply Hok.
  - apply Hok.
  - apply Hok.
  - intros k n Hk. destruct (Hnk k n Hk); [by apply Hok|done].
  - intros k e Hk. destruct (Hek k e Hk); [by apply Hok|done].
  - intros id qn h Hm. destruct (ok_member d Hok _ _ _ Hm) as ([n Hg] & ?). split; [|done].
    exists n. by eapply lookup_weaken.
  - intros id e h Hm. destruct (ok_edge_member d Hok _ _ _ Hm) as ([n Hg] & ?). split; [|done].
    exists n. by eapply lookup_weaken.
  - apply Hok.
  - apply Hok.
Qed.

Lemma stored_grown d d' hash qns keys : grown d d' → stored d hash qns keys → stored d' hash qns keys.
Proof.
  intros Hg [Hn He]. split.
  - intros qn Hq. destruct (Hn qn Hq) as [x Hx]. exists x. eapply lookup_weaken; [done|apply Hg].
  - intros e Hin. destruct (He e Hin) as [x Hx]. exists x. eapply lookup_weaken; [done|apply Hg].
Qed.

Lemma gathered_grown d d' g : grown d d' → gathered_ok d g → gathered_ok d' g.
Proof.
  intros Hg [Ha Hs Hn He]. split; [done| |done|done]. eapply Forall_impl; [exact Hs|].
  intros m. by apply stored_grown.
Qed.

Lemma nodes_of_hash_grown d d' hash : grown d d' → db_ok d → nodes_of_hash d' hash = [] → nodes_of_hash d hash = [].
Proof.
  intros Hg Hok Hnil. destruct (nodes_of_hash d hash) as [|n l] eqn:Hl; [done|]. exfalso.
  assert (n ∈ nodes_of_hash d hash) as Hn by (rewrite Hl; apply list_elem_of_here).
  unfold nodes_of_hash in Hn. apply list_elem_of_filter in Hn as [Hh [k Hk]%rows_elem].
  apply (elem_of_nil n). rewrite <- Hnil. apply list_elem_of_filter. split; [done|]. apply rows_elem.
  exists k. eapply lookup_weaken; [done|apply Hg].
Qed.

Section rows.
Context (fault : nat → option Fault) (Hgentle : gentle fault).

Lemma grown_insert_node d n :
  grown d (set_graphs (insert_new (node_row_key n) n (historical_nodes d)) (historical_edges d) d).
Proof.
  split; cbn; [done| |done| |auto].
  - apply map_subseteq_spec. intros k x Hx. by rewrite insert_new_lookup, Hx.
  - intros k x. rewrite insert_new_lookup. destruct (historical_nodes d !! k); [auto|].
    case_decide; [|done]. intros [= <-]. by right.
Qed.

Lemma grown_insert_edge d e :
  grown d (set_graphs (historical_nodes d) (insert_new (edge_row_key e) e (historical_edges d)) d).
Proof.
  split; cbn; [done|done| |auto|].
  - apply map_subseteq_spec. intros k x Hx. by rewrite insert_new_lookup, Hx.
  - intros k x. rewrite insert_new_lookup. destruct (historical_edges d !! k); [auto|].
    case_decide; [|done]. intros [= <-]. by right.
Qed.

(** Statements of a list, whether all of them succeed or not. *)
Lemma for_each_any {A} (g : A → Db → Db) (P : Db → Prop) l :
  (∀ x d, x ∈ l → P d → P (g x d)) →
  ∀ c x c', P (current c) → for_each (λ x, execute fault (λ d, Ok (g x d))) l c = (x, c') → P (current c').
Proof.
  induction l as [|y l IH]; intros Hg c x c' HP; cbn [for_each]; [by intros [= _ <-]|].
  unfold bind, execute at 1, sql. destruct (fault (tick c)) as [e|] eqn:He; cbn [res_bind].
  { rewrite (failed_gentle fault) by done. by intros [= _ <-]. }
  apply IH; [intros; apply Hg; [by apply list_elem_of_further|done]|].
  rewrite current_with. apply Hg; [apply list_elem_of_here|done].
Qed.

Lemma insert_nodes_any d0 hash nodes c x c' :
  Forall (λ n, hn_file_hash n = hash) nodes →
  insert_historical_nodes fault nodes c = (x, c') →
  (grown d0 (current c) ∧ ∀ h, h ≠ hash → nodes_of_hash d0 h = [] → nodes_of_hash (current c) h = []) →
  grown d0 (current c') ∧ ∀ h, h ≠ hash → nodes_of_hash d0 h = [] → nodes_of_hash (current c') h = [].
Proof.
  intros Hh Hr Hc.
  refine (for_each_any (λ n d, set_graphs (insert_new (node_row_key n) n (historical_nodes d)) (historical_edges d) d)
    (λ d, grown d0 d ∧ ∀ h, h ≠ hash → nodes_of_hash d0 h = [] → nodes_of_hash d h = []) nodes _ c x c' Hc Hr).
  intros n d Hn [Hg Hnil]. split.
  - eapply grown_trans; [done|apply grown_insert_node].
  - intros h Hne H0. specialize (Hnil h Hne H0).
    apply elem_of_nil_inv. intros y Hy. unfold nodes_of_hash in Hy. apply list_elem_of_filter in Hy as [Hyh [k Hk]%rows_elem].
    cbn [set_graphs historical_nodes] in Hk. rewrite insert_new_lookup in Hk.
    destruct (historical_nodes d !! k) eqn:Hd.
    + injection Hk as ->. apply (elem_of_nil y). rewrite <- Hnil. apply list_elem_of_filter.
      split; [done|]. apply rows_elem. eauto.
    + case_decide; [|done]. injection Hk as ->. rewrite Forall_forall in Hh. by rewrite (Hh y Hn) in Hyh.
Qed.

Lemma insert_edges_any d0 edges c x c' :
  insert_historical_edges fault edges c = (x, c') →
  grown d0 (current c) → grown d0 (current c') ∧ historical_nodes (current c') = historical_nodes (current c).
Proof.
  intros Hr Hc.
  refine (for_each_any (λ e d, set_graphs (historical_nodes d) (insert_new (edge_row_key e) e (historical_edges d)) d)
    (λ d, grown d0 d ∧ historical_nodes d = historical_nodes (current c)) edges _ c x c' (conj Hc eq_refl) Hr).
  intros e d _ [Hg Hn]. split; [|done]. eapply grown_trans; [done|apply grown_insert_edge].
Qed.
End rows.

(** ** Storing a parsed file *)

Section persist.
Context (fault : nat → option Fault) (Hgentle : gentle fault).

Lemma insert_all_new_is_Some {K A} `{Countable K} (l : list (K * A)) (t : gmap K A) k :
  k ∈ map fst l → is_Some (insert_all_new l t !! k).
Proof.
  intros Hk. destruct (insert_all_new_lookup l t k) as (Hnone & Hsome & _).
  destruct (t !! k) as [a|] eqn:Ht; [exists a; by apply Hsome|by apply Hnone].
Qed.

Lemma insert_nodes_ok nodes c u c' :
  insert_historical_nodes fault nodes c = (Ok u, c') →
  current c' = set_graphs (insert_all_new (map (λ n, (node_row_key n, n)) nodes) (historical_nodes (current c)))
    (historical_edges (current c)) (current c).
Proof.
  intros Hr. apply (for_each_steps fault (λ n d,
    Ok (set_graphs (insert_new (node_row_key n) n (historical_nodes d)) (historical_edges d) d))) in Hr.
  rewrite (steps_pure (λ n d, set_graphs (insert_new (node_row_key n) n (historical_nodes d)) (historical_edges d) d)) in Hr.
  injection Hr as <-. generalize (current c). clear. intros d. revert d.
  induction nodes as [|n nodes IH]; intros d; [by destruct d|]. cbn [foldl]. rewrite IH. done.
Qed.

Lemma insert_edges_ok edges c u c' :
  insert_historical_edges fault edges c = (Ok u, c') →
  current c' = set_graphs (historical_nodes (current c))
    (insert_all_new (map (λ e, (edge_row_key e, e)) edges) (historical_edges (current c))) (current c).
Proof.
  intros Hr. apply (for_each_steps fault (λ e d,
    Ok (set_graphs (historical_nodes d) (insert_new (edge_row_key e) e (historical_edges d)) d))) in Hr.
  rewrite (steps_pure (λ e d, set_graphs (historical_nodes d) (insert_new (edge_row_key e) e (historical_edges d)) d)) in Hr.
  injection Hr as <-. generalize (current c). clear. intros d. revert d.
  induction edges as [|e edges IH]; intros d; [by destruct d|]. cbn [foldl]. rewrite IH. done.
Qed.

Definition pf_qns (pf : ParsedFile) : list string := map (λ n, n_qualified_name (fst n)) (pf_nodes pf).
Definition pf_keys (pf : ParsedFile) : list Triple := map edge_key_of (pf_edges pf).

#[export] Instance plain_persist hash path pf : Plain (persist_parsed_file fault hash path pf).
Proof. unfold persist_parsed_file, insert_historical_nodes, insert_historical_edges. apply _. Qed.

#[export] Instance steady_persist hash path pf : Steady (persist_parsed_file fault hash path pf).
Proof.
  unfold persist_parsed_file, insert_historical_nodes, insert_historical_edges.
  apply steady_bind; [|intros _]; apply steady_for_each; intros; by apply steady_sql.
Qed.

(** Whatever happens, graphs of other files stay as they are; and a success stores the graph. *)
Lemma persist_spec hash path pf c x c' :
  persist_parsed_file fault hash path pf c = (x, c') →
  grown (current c) (current c') ∧
  (∀ h, h ≠ hash → nodes_of_hash (current c) h = [] → nodes_of_hash (current c') h = []) ∧
  (∀ u, x = Ok u → stored (current c') hash (pf_qns pf) (pf_keys pf)).
Proof.
  unfold persist_parsed_file, bind. set (nodes := map _ (pf_nodes pf)). set (edges := map _ (pf_edges pf)).
  destruct (insert_historical_nodes fault nodes c) as [y c1] eqn:Hn.
  assert (Forall (λ n, hn_file_hash n = hash) nodes) as Hh.
  { apply Forall_forall. by intros n ([m extra] & -> & _)%list_elem_of_fmap. }
  pose proof (insert_nodes_any fault Hgentle (current c) hash nodes c y c1 Hh Hn) as Hany.
  destruct Hany as [Hg1 Hnil]; [split; [apply grown_refl|done]|].
  destruct y as [u|e]; [|by intros [= <- <-]].
  intros He. destruct (insert_edges_any fault Hgentle (current c) edges c1 x c' He Hg1) as [Hg2 Hsame].
  split_and!; [done| |].
  - intros h Hne H0. specialize (Hnil h Hne H0). unfold nodes_of_hash in *. by rewrite Hsame.
  - intros v ->. apply insert_nodes_ok in Hn. apply insert_edges_ok in He. rewrite He, Hn. split; cbn.
    + intros qn ([m extra] & -> & Hm)%list_elem_of_fmap. apply insert_all_new_is_Some.
      rewrite map_map. apply list_elem_of_fmap. exists (historical_node hash path (m, extra)).
      split; [done|]. apply list_elem_of_fmap. by exists (m, extra).
    + intros k ([m extra] & -> & Hm)%list_elem_of_fmap. apply insert_all_new_is_Some.
      rewrite map_map. apply list_elem_of_fmap. exists (historical_edge hash path (m, extra)).
      split; [done|]. apply list_elem_of_fmap. by exists (m, extra).
Qed.

Lemma for_each_total {A} (g : A → Db → Db) l :
  no_fault fault → ∀ c, ∃ c', for_each (λ x, execute fault (λ d, Ok (g x d))) l c = (Ok tt, c').
Proof.
  intros Hno. induction l as [|x l IH]; intros c; cbn [for_each]; [by eexists|].
  unfold bind, execute at 1, sql. rewrite (Hno (tick c)). apply IH.
Qed.

Lemma persist_total hash path pf c : no_fault fault → ∃ c', persist_parsed_file fault hash path pf c = (Ok tt, c').
Proof.
  intros Hno. unfold persist_parsed_file, bind.
  destruct (for_each_total (λ n d, set_graphs (insert_new (node_row_key n) n (historical_nodes d)) (historical_edges d) d)
    (map (historical_node hash path) (pf_nodes pf)) Hno c) as [c1 Hc1].
  unfold insert_historical_nodes. rewrite Hc1.
  exact (for_each_total (λ e d, set_graphs (historical_nodes d) (insert_new (edge_row_key e) e (historical_edges d)) d)
    _ Hno c1).
Qed.
End persist.

(** ** The phases *)

Section phases.
Context (fault : nat → option Fault) (clock : nat → N).
Context (git : list string → string → result string GitOutput) (lossy debug : string → string).
Context (supports : string → bool) (parse : string → string → string → option ParsedFile).
Context (d0 : Db) (Hok : db_ok d0) (Hgentle : gentle fault).

(** After a failure nothing is committed; without faults of the database a transaction that is
    still open has not changed anything. *)
Record failed (r : Run) (c : Conn) : Prop := {
  fa_committed : committed c = d0;
  fa_cache : cache_ok d0 (r_cache r);
  fa_open : no_fault fault → working c = None ∨ working c = Some d0 }.

Record classifying (rest : list (nat * StoredSnapshotFile)) (g : Gathered) (r : Run) (c : Conn) : Prop := {
  cl_committed : committed c = d0;
  cl_working : working c = Some d0;
  cl_cache : cache_ok d0 (r_cache r);
  cl_gathered : gathered_ok d0 g;
  cl_paths : NoDup (map sf_path (g_files g) ++ map pw_rel_path (g_batch g) ++ map (λ x, sf_path (snd x)) rest);
  cl_batch : Forall (λ w, nodes_of_hash d0 (pw_file_hash w) = []) (g_batch g);
  cl_errors : g_parse_errors g = 0%nat }.

Lemma cache_ok_graphs d cache cache' :
  blob_graphs cache' = blob_graphs cache → cache_ok d cache → cache_ok d cache'.
Proof. intros Hg Hc hash g. rewrite Hg. apply Hc. Qed.

Lemma NoDup_next {A} (l1 l2 rest : list A) x :
  NoDup (l1 ++ l2 ++ x :: rest) →
  NoDup (l1 ++ l2 ++ rest) ∧ NoDup ((l1 ++ [x]) ++ l2 ++ rest) ∧ NoDup (l1 ++ (l2 ++ [x]) ++ rest).
Proof.
  intros Hnd. assert (l1 ++ l2 ++ x :: rest ≡ₚ x :: l1 ++ l2 ++ rest) as Hp by (by rewrite <- !Permutation_middle).
  split_and!.
  - rewrite Hp in Hnd. by apply NoDup_cons in Hnd as [_ ?].
  - rewrite <- (app_assoc l1 [x]). cbn. rewrite Hp in Hnd. by rewrite <- Permutation_middle.
  - by rewrite <- (app_assoc l2 [x]).
Qed.

Lemma classifying_skip x rest g r c r' c' :
  classifying (x :: rest) g r c → same_db c c' → blob_graphs (r_cache r') = blob_graphs (r_cache r) →
  classifying rest g r' c'.
Proof.
  intros [? ? ? ? [Hp _]%NoDup_next ? ?] [Hc Hw] Hg. split; [congruence|congruence|by eapply cache_ok_graphs|done..].
Qed.

Lemma failed_same r c r' c' :
  committed c = d0 → working c = Some d0 → cache_ok d0 (r_cache r) → stopped fault c c' →
  blob_graphs (r_cache r') = blob_graphs (r_cache r) → failed r' c'.
Proof.
  intros Hc Hw Hcache [Hc' Hw' _] Hg. split; [congruence|by eapply cache_ok_graphs|]. intros _. rewrite <- Hw. tauto.
Qed.

Lemma same_db_refl c : same_db c c.
Proof. by split. Qed.
Lemma same_db_trans c1 c2 c3 : same_db c1 c2 → same_db c2 c3 → same_db c1 c3.
Proof. intros [??] [??]. split; congruence. Qed.

(** The graph of a file that the tables have. *)
Lemma wp_load_cached hash (Q : CachedFileGraph → Run → Conn → Prop) r c :
  committed c = d0 → working c = Some d0 → cache_ok d0 (r_cache r) → nodes_of_hash d0 hash ≠ [] →
  (∀ g r' c', same_db c c' → cache_ok d0 (r_cache r') → cg_node_count g = length (cg_qns g) →
     cg_edge_count g = length (cg_edge_keys g) → stored d0 hash (cg_qns g) (cg_edge_keys g) → Q g r' c') →
  wp (load_cached_file_graph fault hash) Q failed r c.
Proof.
  intros Hc Hw Hcache Hne HQ. unfold load_cached_file_graph. apply wp_bind. unfold get_cache, wp at 1. cbn beta iota.
  destruct (blob_graphs (r_cache r) !! hash) as [g|] eqn:Hg.
  - destruct (Hcache hash g Hg) as (? & ? & ?). apply HQ; auto using same_db_refl.
  - assert (current c = d0) as Hcur by (unfold current; by rewrite Hw).
    assert (∀ c', stopped fault c c' → failed r c') as HX by (intros; by eapply failed_same).
    apply wp_bind, (wp_query fault); [|done]. intros c1 H1.
    apply wp_bind, (wp_query fault); [|eauto using stopped_trans]. intros c2 H2. assert (same_db c c2) as H02 by eauto using same_db_trans.
    apply wp_bind, (wp_query fault); [|eauto using stopped_trans]. intros c3 H3. assert (same_db c c3) as H03 by eauto using same_db_trans.
    apply wp_bind, (wp_query fault); [|eauto using stopped_trans]. intros c4 H4. assert (same_db c c4) as H04 by eauto using same_db_trans.
    apply wp_bind, (wp_query fault); [|eauto using stopped_trans]. intros c5 H5. assert (same_db c c5) as H05 by eauto using same_db_trans.
    rewrite (same_db_current c c1), (same_db_current c c2), (same_db_current c c3), (same_db_current c c4), Hcur by done.
    assert (stored d0 hash (map hn_qn (nodes_of_hash d0 hash)) (map (λ e, snd (edge_row_key e)) (edges_of_hash d0 hash))) as Hst.
    { split.
      - intros qn (n & -> & [Hh [k Hk]%rows_elem]%list_elem_of_filter)%list_elem_of_fmap.
        pose proof (ok_node d0 Hok _ _ Hk) as <-. unfold node_row_key in Hk. rewrite Hh in Hk. eauto.
      - intros e (n & -> & [Hh [k Hk]%rows_elem]%list_elem_of_filter)%list_elem_of_fmap.
        pose proof (ok_edge d0 Hok _ _ Hk) as <-. unfold edge_row_key in *. cbn [fst snd] in *. rewrite Hh in Hk. eauto. }
    apply HQ; [done| |cbn; by rewrite length_map|cbn; by rewrite length_map|done].
    intros h g. cbn [r_cache blob_graphs]. intros [[<- <-]|[_ Hh]]%lookup_insert_Some; [|by apply Hcache].
    cbn. rewrite !length_map. auto.
Qed.

Lemma wp_load_blob sha path hash (Q : option string → Run → Conn → Prop) r c :
  committed c = d0 → working c = Some d0 → cache_ok d0 (r_cache r) →
  (∀ b r', blob_graphs (r_cache r') = blob_graphs (r_cache r) → Q b r' c) →
  wp (load_blob_bytes git lossy sha path hash) Q failed r c.
Proof.
  intros Hc Hw Hcache HQ. unfold load_blob_bytes. apply wp_bind. unfold get_cache, wp at 1. cbn beta iota.
  destruct (blob_bytes (r_cache r) !! hash); [by apply HQ|].
  apply wp_bind, wp_map_err, wp_of_result; [|split; auto]. intros [bytes|] _; by apply HQ.
Qed.

Lemma wp_classify pos meta x rest g r c :
  classifying (x :: rest) g r c →
  wp (classify_file fault git lossy supports pos meta g x) (classifying rest) failed r c.
Proof.
  intros Hcl. pose proof Hcl as [Hc Hw Hcache Hga Hp Hb Herr]. destruct x as [index f].
  unfold classify_file. cbn zeta.
  assert (∀ kind r' c', same_db c c' → blob_graphs (r_cache r') = blob_graphs (r_cache r) →
    wp (_ <-b update_summary note_skipped;;
        _ <-b emit_file_progress pos meta index (sf_path f) kind;; b_ret g) (classifying rest) failed r' c') as Hskip.
  { intros kind r' c' Hs Hg. by eapply (classifying_skip (index, f)). }
  destruct (supports (sf_path f)); cbn [negb]; [|by apply Hskip].
  apply wp_bind, wp_map_err, (wp_query fault); [|intros; by eapply failed_same].
  intros c1 H1. assert (current c = d0) as -> by (unfold current; by rewrite Hw).
  destruct (Nat.ltb_spec 0 (length (nodes_of_hash d0 (sf_hash f)))) as [Hn|Hn].
  - apply wp_bind, wp_load_cached; [by rewrite (sd_committed _ _ H1)|by rewrite (sd_working _ _ H1)|done| |].
    { intros Hnil. rewrite Hnil in Hn. cbn in Hn. lia. }
    intros cg r2 c2 H2 Hcache2 Hnodes Hedges Hst.
    apply NoDup_next in Hp as (_ & Hp & _). assert (same_db c c2) as [Hc2 Hw2] by eauto using same_db_trans.
    unfold wp, b_bind, update_summary, emit_file_progress, progress, b_ret. split; cbn [r_cache]; [congruence|congruence|done| | |done|done].
    + by apply add_file_ok.
    + cbn [add_file g_files g_batch]. by rewrite map_app.
  - apply wp_bind, wp_load_blob; [by rewrite (sd_committed _ _ H1)|by rewrite (sd_working _ _ H1)|done|]. intros [bytes|] r2 Hg2; [|by apply Hskip].
    apply wp_bind. unfold get_cache, wp at 1. cbn beta iota.
    destruct (_ || _); [by apply wp_bind, Hskip|].
    apply NoDup_next in Hp as (_ & _ & Hp). apply wp_ret. destruct H1 as [Hc1 Hw1].
    split; [congruence|congruence|by eapply cache_ok_graphs|by destruct Hga; split| | |done].
    + cbn [add_work g_files g_batch]. by rewrite map_app.
    + cbn [add_work g_batch]. apply Forall_app. split; [done|]. constructor; [|done].
      cbn. apply length_zero_iff_nil. lia.
Qed.

Record persisting (rest : list ParseOutcome) (g : Gathered) (r : Run) (c : Conn) : Prop := {
  pe_committed : committed c = d0;
  pe_cache : cache_ok d0 (r_cache r);
  pe_now : ∃ d, working c = Some d ∧ grown d0 d ∧ gathered_ok d g ∧ (g_parse_errors g = 0 → cache_ok d (r_cache r))%nat;
  pe_paths : NoDup (map sf_path (g_files g) ++ map po_rel_path rest);
  pe_rest : Forall (λ o, nodes_of_hash d0 (po_file_hash o) = []) rest;
  pe_errors : no_fault fault → g_parse_errors g = 0%nat }.

(** A stored graph replaces what the run remembers of the file. *)
Lemma cache_ok_insert d d' hash g cache :
  cache_ok d cache → grown d d' →
  (∀ h, h ≠ hash → nodes_of_hash d h = [] → nodes_of_hash d' h = []) →
  cg_node_count g = length (cg_qns g) → cg_edge_count g = length (cg_edge_keys g) →
  stored d' hash (cg_qns g) (cg_edge_keys g) →
  cache_ok d' (mk_cache (blob_bytes cache) (<[hash := g]> (blob_graphs cache)) (binary_blobs cache)).
Proof.
  intros Hc Hg Hnil Hn He Hst h g'. cbn [blob_graphs]. intros [[<- <-]|[Hne Hh]]%lookup_insert_Some; [auto|].
  destruct (Hc h g' Hh) as (? & ? & Hs). split_and!; [done..|]. intros Hne'.
  eapply stored_grown; [done|]. apply Hs. contradict Hne'. by apply Hnil.
Qed.

Lemma wp_persist pos meta o rest g r c :
  persisting (o :: rest) g r c → wp (persist_outcome fault pos meta g o) (persisting rest) failed r c.
Proof.
  intros [Hc Hcache (d & Hw & Hg & Hga & Hnow) Hp [Ho Hr]%Forall_cons Herr]. cbn [map] in Hp.
  assert (current c = d) as Hcur by (unfold current; by rewrite Hw).
  assert (NoDup (map sf_path (g_files g) ++ map po_rel_path rest) ∧
          NoDup ((map sf_path (g_files g) ++ [po_rel_path o]) ++ map po_rel_path rest)) as [Hskip Hadd].
  { apply (NoDup_next (map sf_path (g_files g)) []) in Hp. tauto. }
  unfold persist_outcome. destruct (po_parsed o) as [pf|].
  2: { by split; cbn [r_cache]; eauto. }
  unfold wp. destruct (persist_parsed_file fault (po_file_hash o) (po_rel_path o) pf c) as [x c'] eqn:Hrun.
  pose proof (persist_spec fault Hgentle _ _ _ _ _ _ Hrun) as (Hg' & Hnil & Hst). rewrite Hcur in *.
  pose proof (plain_in_tx _ d0 c _ c' (plain_persist fault _ _ _) (conj Hc (ex_intro _ d Hw)) Hrun) as [Hc' _].
  pose proof (steady_persist fault Hgentle (po_file_hash o) (po_rel_path o) pf c (ex_intro _ d Hw)) as [d' Hw'].
  rewrite Hrun in Hw'. cbn [snd] in Hw'.
  assert (current c' = d') as Hcur' by (unfold current; by rewrite Hw'). rewrite Hcur' in *.
  destruct x as [u|e]; unfold b_bind, update_summary, get_cache, set_cache, emit_file_progress, progress, b_ret; cbn beta iota.
  - specialize (Hst u eq_refl). split; cbn [r_cache add_file g_files g_members g_parse_errors]; [done| | |by rewrite map_app|done|done].
    + intros h g'. cbn [blob_graphs]. intros [[<- <-]|[_ Hh]]%lookup_insert_Some; [|by apply Hcache].
      cbn. rewrite !length_map. split_and!; [done..|]. by rewrite Ho.
    + exists d'. split_and!; [done|by eapply grown_trans| |].
      * apply add_file_ok; [by eapply gathered_grown|done|by rewrite length_map|by rewrite length_map].
      * intros He. apply (cache_ok_insert d); [by apply Hnow|done|done|cbn; by rewrite length_map|cbn; by rewrite length_map|done].
  - split; cbn [r_cache add_parse_error g_files g_members g_parse_errors]; [done|done| |done|done|].
    + exists d'. split_and!; [done|by eapply grown_trans| |done].
      by destruct (gathered_grown d d' g Hg' Hga).
    + intros Hno. destruct (persist_total fault (po_file_hash o) (po_rel_path o) pf c Hno) as [c2 Hc2].
      by rewrite Hc2 in Hrun.
Qed.

(** *** Before the transaction *)

Definition distinct_paths (l : list StoredSnapshotFile) : Prop := NoDup (map sf_path l).

Lemma sorted_files_distinct files : well_keyed files → distinct_paths (sorted_snapshot_files files).
Proof.
  intros Hk. unfold distinct_paths, sorted_snapshot_files. rewrite map_map.
  assert (map (λ x, sf_path (snd x)) (entries String.compare files) = map fst (entries String.compare files)) as ->; [|apply entries_NoDup].
  apply map_ext_in. intros [p f] Hin%list_elem_of_In. apply entries_elem in Hin. by apply Hk.
Qed.

Lemma replay_keyed sha (entry_map : gmap string TreeEntry) changes : ∀ files ws,
  well_keyed files → well_keyed (fst (foldl (replay_change sha entry_map) (files, ws) changes)).
Proof.
  induction changes as [|[[old new] status] changes IH]; intros files ws Hk; [done|]. cbn [foldl].
  assert (∀ q, well_keyed (delete q files)) as Hdel by (intros q p f [_ Hf]%lookup_delete_Some; by apply Hk).
  unfold replay_change at 2. destruct (Ascii.eqb status "D"); [by apply IH|].
  set (files1 := if Ascii.eqb status "R" then delete old files else files).
  assert (well_keyed files1) as Hk1 by (unfold files1; destruct (Ascii.eqb status "R"); [by apply Hdel|done]).
  pose proof (proj1 (apply_entry_spec sha entry_map new files1 Hk1)) as Hk2.
  destruct (apply_replayed_entry sha entry_map new files1) as [files2 more]. by apply IH.
Qed.

Lemma collected_keyed (l : list StoredSnapshotFile) : well_keyed (collect_map (map (λ f, (sf_path f, f)) l)).
Proof. intros p f Hf%collect_map_elem. by apply list_elem_of_fmap in Hf as (g & [= -> ->] & _). Qed.

Lemma listing_distinct sha tree : NoDup (map te_path tree) → distinct_paths (fst (listing sha tree)).
Proof.
  intros Hnd. unfold distinct_paths. eapply sublist_NoDup; [exact Hnd|]. clear Hnd.
  induction tree as [|e tree IH]; [done|]. cbn [listing map]. destruct (listing sha tree) as [files ws].
  cbn [fst] in IH. destruct (String.eqb (te_type e) "blob"); [by constructor|].
  destruct (String.eqb (te_type e) "commit"); by constructor.
Qed.

(** The connection has [d0] and perhaps an open transaction on it, and the run these graphs. *)
Record before_tx (w : option Db) (graphs : gmap string CachedFileGraph) (r : Run) (c : Conn) : Prop := {
  bt_committed : committed c = d0; bt_working : working c = w; bt_graphs : blob_graphs (r_cache r) = graphs }.

(** A failure there: the same, unless SQLite rolled the transaction back. *)
Record failed_before (w : option Db) (graphs : gmap string CachedFileGraph) (r : Run) (c : Conn) : Prop := {
  fb_committed : committed c = d0;
  fb_working : working c = w ∨ working c = None;
  fb_gentle : gentle fault → working c = w;
  fb_graphs : blob_graphs (r_cache r) = graphs }.

Section before.
Context (w : option Db) (graphs : gmap string CachedFileGraph).
#[local] Abbreviation ready := (before_tx w graphs).
#[local] Abbreviation stopped_before := (failed_before w graphs).

Lemma ready_failed_before r c : ready r c → stopped_before r c.
Proof. intros [Hc Hw Hg]. split; auto. Qed.

Lemma ready_stopped r c c' : ready r c → stopped fault c c' → stopped_before r c'.
Proof. intros [Hc Hw Hcache] [Hc' Hw' Hg]. rewrite Hc in Hc'. rewrite Hw in Hw', Hg. by split. Qed.

Lemma ready_same r c r' c' :
  ready r c → same_db c c' → blob_graphs (r_cache r') = blob_graphs (r_cache r) → ready r' c'.
Proof. intros [Hc Hw Hcache] [Hc' Hw'] Hg. split; congruence. Qed.

Lemma wp_progress e (X : Run → Conn → Prop) r c : ready r c → wp (@progress string e) (λ _, ready) X r c.
Proof. intros Hr. by eapply ready_same. Qed.

Lemma wp_replay repo_id meta r c :
  ready r c →
  wp (replay_snapshot_files fault git lossy repo_id meta)
    (λ o r c, ready r c ∧ ∀ l, o = Some l → distinct_paths l) stopped_before r c.
Proof.
  intros Hr. unfold replay_snapshot_files. destruct (gm_parent_sha meta) as [parent_sha|]; [|by apply wp_ret].
  apply wp_bind, (wp_query fault); [|intros; by eapply ready_stopped]. intros c1 H1.
  assert (ready r c1) as Hr1 by (by eapply ready_same).
  destruct (head _) as [s|]; [|by apply wp_ret].
  apply wp_bind, (wp_query fault); [|intros; by eapply ready_stopped]. intros c2 H2.
  assert (ready r c2) as Hr2 by (by eapply ready_same).
  apply wp_bind, wp_map_err, wp_of_result; [|intros; by apply ready_failed_before]. intros changes _. cbn zeta.
  pose proof (collected_keyed (files_of_snapshot (current c1) (st_snapshot_id s))) as Hk.
  case_decide.
  - apply wp_ret. split; [done|]. intros l [= <-]. by apply sorted_files_distinct.
  - apply wp_bind, wp_of_result; [|intros; by apply ready_failed_before]. intros tree _.
    pose proof (replay_keyed (gm_sha meta) (tree_of tree) changes _ [] Hk) as Hk'. fold (tree_of tree).
    destruct (foldl _ _ _) as [files more]. cbn [fst] in Hk'.
    unfold wp, b_bind, update_summary, b_ret. split; [by eapply ready_same|].
    intros l [= <-]. by apply sorted_files_distinct.
Qed.

Lemma wp_full sha r c :
  ready r c →
  wp (full_snapshot_files git lossy sha)
    (λ l r c, ready r c ∧ ∃ tree, ls_tree git lossy sha = Ok tree ∧ l = fst (listing sha tree)) stopped_before r c.
Proof.
  intros Hr. unfold full_snapshot_files. apply wp_bind, wp_map_err, wp_of_result; [|intros; by apply ready_failed_before].
  intros tree Htree. destruct (listing sha tree) as [files more] eqn:Hl. unfold wp, b_bind, update_summary, b_ret.
  split; [by eapply ready_same|]. exists tree. by rewrite Hl.
Qed.

Lemma wp_prefetch tracked r c :
  ready r c → wp (prefetch_blob_bytes git supports tracked) (λ _, ready) stopped_before r c.
Proof.
  intros Hr. unfold prefetch_blob_bytes. apply wp_bind. unfold get_cache, wp at 1. cbn beta iota zeta.
  case_decide; [by apply wp_ret|]. apply wp_bind, wp_map_err, wp_of_result; [|intros; by apply ready_failed_before].
  intros fetched _. by eapply ready_same.
Qed.
End before.

Lemma ready_failed graphs r c :
  failed_before None graphs r c → (∀ cache, blob_graphs cache = graphs → cache_ok d0 cache) → failed r c.
Proof. intros [Hc Hw _ Hg] Hcache. split; auto. intros _. left. by destruct Hw. Qed.

(** *** The whole commit *)

(** What the snapshot [s] that the commit gets is, beside the snapshots that were there. *)
Record indexed_as (repo_id : Z) (sha : string) (members : list SnapshotFileMembership) (s : StoredSnapshot) (d' : Db) : Prop := {
  ix_ok : db_ok d';
  ix_row : snapshot_rows d' repo_id sha = [s];
  ix_kept i t : graph_snapshots d0 !! i = Some t → graph_snapshots d' !! i = Some t ∧ reads_same i d0 d';
  ix_commit : is_Some (commits d' !! (sha, repo_id));
  ix_repos : repos d' = repos d0;
  ix_blobs m : m ∈ members →
    membership_blobs d' !! (st_snapshot_id s, sm_path m) = Some (membership_blob (st_snapshot_id s) m);
  ix_files m : m ∈ members → in_snapshot d' (st_snapshot_id s) (sm_path m) (sm_hash m);
  ix_file_count : length (files_of_snapshot d' (st_snapshot_id s)) = length members;
  ix_valid : validate_snapshot_materialization s (files_of_snapshot d' (st_snapshot_id s))
      (nodes_of_snapshot d' (st_snapshot_id s)) (edges_of_snapshot d' (st_snapshot_id s)) = Ok tt ↔
    NoDup (map fst (node_claims members)) ∧ NoDup (map fst (edge_claims members));
  ix_nodes qn : qn ∈ map hn_qn (nodes_of_snapshot d' (st_snapshot_id s)) ↔ qn ∈ map fst (node_claims members);
  ix_edges e : e ∈ map (λ e, snd (edge_row_key e)) (edges_of_snapshot d' (st_snapshot_id s)) ↔
    e ∈ map fst (edge_claims members) }.

Lemma written_reads_grown d commit s files members i :
  grown d0 d → st_snapshot_id s = next_id (map fst (map_to_list (graph_snapshots d))) →
  repo_exists d (st_repo_id s) = true → (cm_sha commit, cm_repo_id commit) = (st_commit_sha s, st_repo_id s) →
  snapshot_rows d (st_repo_id s) (st_commit_sha s) = [] → Forall2 aligned files members →
  Forall (λ m, stored d (sm_hash m) (sm_qns m) (sm_edges m)) members → NoDup (map sf_path files) →
  i ≠ st_snapshot_id s →
  reads_same i d0 (written (st_snapshot_id s) commit s (map (with_snapshot_id (st_snapshot_id s)) files) members d).
Proof.
  intros Hg Hid Hrepo Hcommit Hnone Ha Hs Hp Hi. pose proof (grown_ok d0 d Hg Hok) as Hok'.
  eapply reads_same_trans; [|apply written_reads; done].
  apply reads_same_tables; [done|done|..]; [by rewrite (gr_rest _ _ Hg)|by rewrite (gr_rest _ _ Hg)|by rewrite (gr_rest _ _ Hg)| |].
  - intros qn h Hm. destruct (ok_member d0 Hok _ _ _ Hm) as ([n Hn] & _). rewrite Hn.
    eapply lookup_weaken; [done|apply Hg].
  - intros e h Hm. destruct (ok_edge_member d0 Hok _ _ _ Hm) as ([n Hn] & _). rewrite Hn.
    eapply lookup_weaken; [done|apply Hg].
Qed.

Lemma cache_ok_written d d' cache :
  historical_nodes d' = historical_nodes d → historical_edges d' = historical_edges d →
  cache_ok d cache → cache_ok d' cache.
Proof.
  intros Hn He Hc hash g Hg. destruct (Hc hash g Hg) as (? & ? & Hs). split_and!; [done..|].
  unfold nodes_of_hash, stored in *. by rewrite Hn, He.
Qed.

#[local] Abbreviation process := (process_commit fault clock git lossy supports parse).

(** The snapshot that is written from what the phases gathered. *)
Lemma wp_write repo_id iref root pos meta g r c :
  persisting [] g r c → snapshot_rows d0 repo_id (gm_sha meta) = [] →
  wp (write_snapshot fault clock pos meta repo_id iref root g)
    (λ _ r' c', working c' = None ∧ ∃ s members, indexed_as repo_id (gm_sha meta) members s (committed c') ∧
       (st_parse_error_count s = 0%Z → cache_ok (committed c') (r_cache r')) ∧
       (no_fault fault → st_parse_error_count s = 0%Z)) failed r c.
Proof.
  intros [Hc Hcache (d & Hw & Hg & Hga & Hnow) Hp _ Herrors] Hnone.
  assert (current c = d) as Hcur by (unfold current; by rewrite Hw).
  pose proof (grown_ok d0 d Hg Hok) as Hok'.
  assert (graph_snapshots d = graph_snapshots d0) as Hsnap by (by rewrite (gr_rest _ _ Hg)).
  assert (snapshot_rows d repo_id (gm_sha meta) = []) as Hnone' by (by rewrite (gr_rest _ _ Hg)).
  cbn [map] in Hp. rewrite app_nil_r in Hp.
  apply (wp_write_snapshot fault clock _ _ _ _ _ _ d0); [by split|by rewrite Hcur| |].
  2: { intros r' c' [H1 _] Hc' Hno. split; [done|by rewrite H1|auto]. }
  intros id at1 at2 r' c' Hid Hrepo [Hr _] Hw' Hc'. rewrite Hcur in *. split; [done|].
  set (s := snapshot_row id repo_id (gm_sha meta) root at2 g) in *.
  set (commit := with_indexed_at at1 (stored_commit meta repo_id iref)) in *.
  destruct Hga as [Ha Hs Hn He].
  assert (st_snapshot_id s = next_id (map fst (map_to_list (graph_snapshots d)))) as Hsid by done.
  exists s, (g_members g). rewrite Hc'. change id with (st_snapshot_id s). split.
  2: { split; [|intros Hno; cbn; by rewrite (Herrors Hno)].
       intros Herr. rewrite Hr. eapply (cache_ok_written d); [done..|]. apply Hnow. cbn in Herr. lia. }
  split.
  - by apply written_ok.
  - by apply (written_rows d Hok' commit s (g_files g) (g_members g)).
  - intros i t Ht. rewrite <- Hsnap in Ht. assert (i ≠ st_snapshot_id s) as Hi by (by eapply (id_fresh d)).
    split; [cbn; by rewrite lookup_insert_ne|]. by apply written_reads_grown.
  - cbn. by rewrite lookup_insert_eq.
  - cbn. by rewrite (gr_rest _ _ Hg).
  - intros m. by apply (written_blobs d commit s (g_files g) (g_members g)).
  - intros m Hm. apply list_elem_of_lookup in Hm as [i Hi].
    destruct (Forall2_lookup_r _ _ _ _ _ Ha Hi) as (f & Hf & Hfp & Hfh). unfold in_snapshot.
    rewrite <- Hfp, <- Hfh. rewrite (new_file d commit s (g_files g)); [done|done|]. by eapply list_elem_of_lookup_2.
  - rewrite (written_files d Hok' commit s (g_files g) (g_members g)) by done. by eapply Forall2_length.
  - by apply (written_valid d Hok' commit s (g_files g) (g_members g)).
  - by apply (written_nodes d Hok' commit s (g_files g) (g_members g)).
  - by apply (written_edges d Hok' commit s (g_files g) (g_members g)).
Qed.

Lemma tracked_paths tracked :
  map (λ x, sf_path (snd x)) (imap (λ i f, (S i, f)) tracked) = map sf_path tracked.
Proof.
  generalize S. induction tracked as [|f l IH]; intros h; [done|]. rewrite imap_cons. cbn [map snd]. f_equal. apply IH.
Qed.

Lemma wp_process repo_id iref index total meta r c :
  (∀ tree, ls_tree git lossy (gm_sha meta) = Ok tree → NoDup (map te_path tree)) →
  committed c = d0 → working c = None → cache_ok d0 (r_cache r) → snapshot_rows d0 repo_id (gm_sha meta) = [] →
  wp (process repo_id iref index total meta)
    (λ _ r' c', working c' = None ∧ ∃ s members, indexed_as repo_id (gm_sha meta) members s (committed c') ∧
       (st_parse_error_count s = 0%Z → cache_ok (committed c') (r_cache r')) ∧
       (no_fault fault → st_parse_error_count s = 0%Z)) failed r c.
Proof.
  intros Hls Hc Hw Hcache Hnone. unfold process_commit. cbn zeta.
  assert (∀ cache, blob_graphs cache = blob_graphs (r_cache r) → cache_ok d0 cache) as Hg
    by (intros; by eapply cache_ok_graphs).
  assert (∀ r' c', failed_before None (blob_graphs (r_cache r)) r' c' → failed r' c') as Hf
    by (intros; by eapply ready_failed).
  apply wp_bind. eapply wp_mono; [by apply wp_replay| |exact Hf]. intros replayed r1 c1 [Hr1 Hrep].
  apply wp_bind. eapply wp_mono; [by apply wp_full| |exact Hf]. intros listed r2 c2 [Hr2 (tree & Htree & Hlist)].
  assert (distinct_paths (default listed replayed)) as Hd.
  { destruct replayed; [by apply Hrep|]. cbn. subst listed. by apply listing_distinct, Hls. }
  set (tracked := default listed replayed) in *. clearbody tracked.
  apply wp_bind. eapply (wp_mono _ _ _ failed); [exact (wp_progress _ _ _ _ _ _ Hr2)| |done].
  intros u3 r3 c3 Hr3.
  apply wp_bind. eapply wp_mono; [exact (wp_prefetch _ _ _ _ _ Hr3)| |exact Hf]. intros u4 r4 c4 Hr4.
  pose proof Hr4 as [Hc4 Hw4 Hg4]. apply wp_bind, wp_store. unfold context, map_err, begin_write. rewrite Hw4.
  destruct (fault (tick c4)) as [e|] eqn:He;
    [by eapply Hf, ready_stopped, failed_stopped|]. rewrite Hc4.
  apply wp_bind. eapply (wp_mono _ _ _ failed); [apply (wp_fold _ classifying)| |done].
  { intros; by apply wp_classify. }
  { split; [done|done|auto|apply nothing_gathered_ok| |constructor|done].
    cbn [nothing_gathered g_files g_batch map app]. by rewrite tracked_paths. }
  intros g r6 c6 [Hc6 Hw6 Hcache6 Hga6 Hp6 Hb6 He6]. cbn [map] in Hp6. rewrite app_nil_r in Hp6.
  apply wp_bind. eapply (wp_mono _ _ _ failed); [apply (wp_fold _ persisting)| |done].
  { intros; by apply wp_persist. }
  { split; [done|done| | | |done].
    - exists d0. split_and!; [done|apply grown_refl|done|done].
    - by rewrite map_map.
    - apply Forall_map. by eapply Forall_impl. }
  intros g' r7 c7 Hpe. by apply wp_write.
Qed.

(** With a transaction open no commit is indexed, and nothing changes. *)
Lemma process_open repo_id iref index total meta r c :
  committed c = d0 → is_Some (working c) →
  wp (process repo_id iref index total meta) (λ _ _ _, False) (λ _ c', stopped fault c c') r c.
Proof.
  intros Hc [w Hw]. unfold process_commit. cbn zeta.
  assert (before_tx (Some w) (blob_graphs (r_cache r)) r c) as Hr by (by split).
  assert (∀ r' c', failed_before (Some w) (blob_graphs (r_cache r)) r' c' → stopped fault c c') as Hf.
  { intros r' c' [? ? ? _]. split; rewrite ?Hw, ?Hc; done. }
  apply wp_bind. eapply wp_mono; [by apply wp_replay| |exact Hf]. intros replayed r1 c1 [Hr1 _].
  apply wp_bind. eapply wp_mono; [by apply wp_full| |exact Hf]. intros listed r2 c2 [Hr2 _].
  apply wp_bind. eapply (wp_mono _ _ _ (λ _ c', stopped fault c c')); [exact (wp_progress _ _ _ _ _ _ Hr2)| |done].
  intros u3 r3 c3 Hr3.
  apply wp_bind. eapply wp_mono; [exact (wp_prefetch _ _ _ _ _ Hr3)| |exact Hf]. intros u4 r4 c4 Hr4.
  apply wp_bind, wp_store. unfold context, map_err, begin_write. pose proof Hr4 as [Hc4 Hw4 _]. rewrite Hw4.
  destruct (fault (tick c4)) as [e|] eqn:He; apply (Hf r4).
  - by eapply ready_stopped, failed_stopped.
  - apply ready_failed_before. destruct Hr4. by split.
Qed.
End phases.

(** ** Theorems *)

Section theorems.
Context (fault : nat → option Fault) (clock : nat → N).
Context (git : list string → string → result string GitOutput) (lossy debug : string → string).
Context (supports : string → bool) (parse : string → string → string → option ParsedFile).


(** C19. While a transaction is open no commit can be indexed: processing fails and the committed
    tables stay; the open transaction stays too, unless a failing statement makes SQLite roll
    it back. So a commit that fails between the start of its transaction and the writing of its
    snapshot, which ends without rolling back, is the last one that the connection can index
    while statements do not fail in that way. *)
Theorem open_transaction_blocks repo_id iref index total meta r c :
  is_Some (working c) →
  ∃ e r' c', process_commit fault clock git lossy supports parse repo_id iref index total meta r c = (Err e, r', c') ∧
    committed c' = committed c ∧ (working c' = working c ∨ working c' = None) ∧
    (gentle fault → working c' = working c).
Proof.
  intros Hw.
  pose proof (process_open fault clock git lossy supports parse (committed c) repo_id iref index total meta r c eq_refl Hw) as Hwp.
  unfold wp in Hwp. destruct (process_commit _ _ _ _ _ _ _ _ _ _ _ _ _) as [[[u|e] r'] c']; [done|].
  destruct Hwp as [Hc Hw' Hg]. by exists e, r', c'.
Qed.
End theorems.

(** ** Examples *)

(** A repository of a few commits; [demo_sha "0"] and what the tree names beside [objects] are
    not in the object store. *)
Record DemoCommit := mk_demo_commit {
  dc_sha : string; dc_parent : string; dc_time : string; dc_diff : string; dc_tree : list (string * string) }.

Definition demo_log (d : DemoCommit) : string :=
  String record_separator (join (String nul "")
    [dc_sha d; dc_parent d; "n"; "e"; dc_time d; dc_time d; "subject"; ""]).

Definition demo_repo (commits : list DemoCommit) (objects : list (string * string))
    (args : list string) (input : string) : result string GitOutput :=
  let ok out := Ok (mk_git_output true out "") in
  let commit := head (filter (λ d, dc_sha d ∈ args) (rev commits)) in
  let odb h := (λ o : string * string, ("blob", snd o)) <$> head (filter (λ o, fst o = h) objects) in
  match args, commit with
  | ["rev-parse"; "--is-shallow-repository"], _ => ok "false"
  | "rev-parse" :: _, _ => ok (default "" (dc_sha <$> last commits))
  | "log" :: "-1" :: _, Some d => ok (demo_log d)
  | "log" :: _, Some d => 
      ok (str_cat (map demo_log (if bool_decide ("--max-count=1" ∈ args) then take 1 (rev commits) else rev commits)))
  | "ls-tree" :: _, Some d => ok (str_cat (map (λ e, tree_line "100644" (fst e) (snd e)) (dc_tree d)))
  | "diff-tree" :: _, Some d => ok (dc_diff d)
  | "cat-file" :: _, _ => ok (str_cat (map (answer odb) (lines input)))
  | _, _ => Ok (mk_git_output false "" "fatal: bad object")
  end.

Definition is_rust (path : string) : bool := negb (String.eqb (trim_end_str ".rs" path) path).
(** One function per file, with the path of the file in its name. *)
Definition demo_parse (path hash bytes : string) : option ParsedFile :=
  Some (mk_parsed (Some "rust")
    [(mk_node 0 NkFunction "f" (path +:+ "::f") path 1 2 "rust" None None None None false hash, "null")] []).

Definition demo_process (git : list string → string → result string GitOutput) (meta : GitCommitMeta) : B string unit :=
  process_commit never demo_clock git id is_rust demo_parse 1 None 1 1 meta.

Definition sha_a : string := demo_sha "a".
Definition sha_b : string := demo_sha "b".
Definition first_commit : DemoCommit :=
  mk_demo_commit sha_a "" "10" "" [(demo_sha "1", "a.rs"); (demo_sha "9", "logo.png")].
Definition second_commit : DemoCommit :=
  mk_demo_commit sha_b sha_a "20" (change_line "A" "b.rs")
    [(demo_sha "1", "a.rs"); (demo_sha "2", "b.rs"); (demo_sha "9", "logo.png")].
Definition demo_objects : list (string * string) := [(demo_sha "1", "fn f() {}"); (demo_sha "2", "fn f() { }")].
Definition first_meta : GitCommitMeta := mk_meta sha_a None "n" "e" 10 10 "subject" "".
Definition second_meta : GitCommitMeta := mk_meta sha_b (Some sha_a) "n" "e" 20 20 "subject" "".

Definition registered : Conn := mk_conn (set_repos {["/r" := 1%Z]} empty_db) None 0.

Lemma registered_ok : db_ok (committed registered).
Proof. apply db_check_ok. vm_compute. reflexivity. Qed.

Definition demo_run : result string unit * Run * Conn :=
  demo_process (demo_repo [first_commit; second_commit] demo_objects) first_meta no_run registered.

Lemma never_gentle : gentle never.
Proof. done. Qed.


Lemma open_transaction_blocks_witness :
  ∃ e r' c', demo_process (demo_repo [first_commit] demo_objects) first_meta no_run
      (mk_conn (committed registered) (Some (committed registered)) 0) = (Err e, r', c') ∧
    committed c' = committed registered ∧
    (working c' = Some (committed registered) ∨ working c' = None) ∧
    (gentle never → working c' = Some (committed registered)).
Proof.
  apply (open_transaction_blocks never demo_clock (demo_repo [first_commit] demo_objects) id is_rust demo_parse
    1 None 1 1 first_meta no_run (mk_conn (committed registered) (Some (committed registered)) 0)).
  by eexists.
Defined.

(** A blob that git cannot show leaves the transaction open. *)
Example failed_read_leaves_transaction_open :
  let '(x, _, c') := demo_process (demo_repo [first_commit] []) first_meta no_run registered in
  x = Err ("git show " +:+ sha_a +:+ ":a.rs: git show " +:+ sha_a +:+ ":a.rs failed: fatal: bad object") ∧
  bool_decide (is_Some (working c')) = true.
Proof. vm_compute. split; reflexivity. Qed.

(** Two files with the same contents share one stored graph. The commit that adds them can be
    read back; the next one, which takes the graph of both from the tables, cannot. *)
Definition twin_commit : DemoCommit :=
  mk_demo_commit sha_a "" "10" "" [(demo_sha "1", "a.rs"); (demo_sha "1", "b.rs")].
Definition after_twins : DemoCommit :=
  mk_demo_commit sha_b sha_a "20" (change_line "A" "c.rs")
    [(demo_sha "1", "a.rs"); (demo_sha "1", "b.rs"); (demo_sha "2", "c.rs")].

Example twins_corrupt_the_next_snapshot :
  let git := demo_repo [twin_commit; after_twins] demo_objects in
  let '(_, r1, c1) := demo_process git first_meta no_run registered in
  let '(x, _, c2) := demo_process git second_meta r1 c1 in
  (x, res_is_ok (@reconstruct_snapshot (db_store (committed c2)) "/r" sha_a),
   match @reconstruct_snapshot (db_store (committed c2)) "/r" sha_b with
   | Err (Other e) => contains "nodes expected=3 actual=2" e
   | _ => false
   end) = (Ok tt, true, true).
Proof. vm_compute. reflexivity. Qed.

(** A file whose graph cannot be stored is left out of the snapshot; the next commit replays that
    snapshot, so the file is missing from it as well, and that snapshot counts as complete. What
    was stored of the graph stays. *)
Definition two_functions (path hash bytes : string) : option ParsedFile :=
  let node name := mk_node 0 NkFunction name (path +:+ "::" +:+ name) path 1 2 "rust" None None None None false hash in
  Some (mk_parsed (Some "rust") [(node "f", "null"); (node "g", "null")] []).

Definition fault_at (n : nat) (rolls_back : bool) : nat → option Fault := λ t,
  if (t =? n)%nat then Some (mk_fault "disk full" rolls_back) else None.

Example lost_file_stays_lost :
  let git := demo_repo [first_commit; second_commit] demo_objects in
  let '(_, r1, c1) := process_commit (fault_at 3 false) demo_clock git id is_rust two_functions 1 None 1 1 first_meta
                        no_run registered in
  let '(x, _, c2) := process_commit never demo_clock git id is_rust two_functions 1 None 1 1 second_meta r1 c1 in
  (x, map (λ s, (map sf_path (files_of_snapshot (committed c2) (st_snapshot_id s)), st_parse_error_count s))
        (snapshots_ordered (committed c2) 1),
   map hn_qn (nodes_of_hash (committed c2) (demo_sha "1"))) =
  (Ok tt, [([], 1%Z); (["b.rs"], 0%Z)], ["a.rs::f"]).
Proof. vm_compute. reflexivity. Qed.

(** The same failure, when it makes SQLite roll the transaction back: storing the graph of the
    file is given up, the commit goes on without a transaction, and the last statement fails.
    The commit is reported as failed, and its rows are there, committed one by one. *)
Example rolled_back_commit_split :
  let git := demo_repo [first_commit; second_commit] demo_objects in
  let '(x, _, c) := process_commit (fault_at 3 true) demo_clock git id is_rust two_functions 1 None 1 1 first_meta
                      no_run registered in
  (x, map st_parse_error_count (snapshots_ordered (committed c) 1), bool_decide (working c = None)) =
  (Err "commit write transaction: cannot commit - no transaction is active", [1%Z], true).
Proof. vm_compute. reflexivity. Qed.
