(* ===== verification/HistoryRun.v ===== *)
(** * Building and updating the history

    A run of [build_historical_graph] in [HistoryBuild] over the commits of a selector: every
    commit is indexed or reported, nothing that was indexed is lost; and what
    [update_historical_graph] does with a history that has diverged. *)

From Stdlib Require Import Floats.SpecFloat.
From S2P Require Import Prelude RustStr Json Kinds BTree Graph Scc HistoryDiff HistoryGit Sqlite HistoryTables HistoryInvariant HistoryLifecycle HistoryBuild HistoryReplay HistorySnapshot HistoryCommit.

(** ** The summary only grows *)

Definition summary_le (s s' : BuildSummary) : Prop :=
  commits_processed s' = commits_processed s ∧ ∃ more, errors s' = errors s ++ more.

Lemma summary_le_refl s : summary_le s s.
Proof. split; [done|]. exists []. by rewrite app_nil_r. Qed.
Lemma summary_le_trans s1 s2 s3 : summary_le s1 s2 → summary_le s2 s3 → summary_le s1 s3.
Proof.
  intros [H1 [m1 E1]] [H2 [m2 E2]]. split; [congruence|]. exists (m1 ++ m2). by rewrite E2, E1, app_assoc.
Qed.

Class Grows {E A} (m : B E A) : Prop := grows r c : summary_le (r_summary r) (r_summary (snd (fst (m r c)))).

Section grows.
Context {E : Type}.

#[export] Instance grows_ret {A} (a : A) : Grows (@b_ret E A a).
Proof. intros r c. apply summary_le_refl. Qed.
#[export] Instance grows_bind {A C} (m : B E A) (k : A → B E C) :
  Grows m → (∀ a, Grows (k a)) → Grows (b_bind m k).
Proof.
  intros Hm Hk r c. unfold b_bind. pose proof (Hm r c) as H. destruct (m r c) as [[[a|e] r'] c']; [|done].
  eapply summary_le_trans; [done|apply Hk].
Qed.
#[export] Instance grows_of_result {A} (x : result E A) : Grows (of_result x).
Proof. intros r c. apply summary_le_refl. Qed.
#[export] Instance grows_store {A} (m : M E A) : Grows (store m).
Proof. intros r c. unfold store. destruct (m c). apply summary_le_refl. Qed.
#[export] Instance grows_map_err {F A} (f : E → F) (m : B E A) : Grows m → Grows (b_map_err f m).
Proof. intros Hm r c. unfold b_map_err. pose proof (Hm r c). by destruct (m r c) as [[[a|e] r'] c']. Qed.
#[export] Instance grows_get : Grows (@get_cache E).
Proof. intros r c. apply summary_le_refl. Qed.
#[export] Instance grows_set cache : Grows (@set_cache E cache).
Proof. intros r c. apply summary_le_refl. Qed.
#[export] Instance grows_progress e : Grows (@progress E e).
Proof. intros r c. apply summary_le_refl. Qed.
#[export] Instance grows_fold {A S} (f : S → A → B E S) l s : (∀ s x, Grows (f s x)) → Grows (b_fold f s l).
Proof. intros Hf. revert s. induction l; intros s; apply _. Qed.
#[export] Instance grows_each {A} (f : A → B E unit) l : (∀ x, Grows (f x)) → Grows (b_each f l).
Proof. intros Hf. induction l; apply _. Qed.
Lemma grows_summary (f : BuildSummary → BuildSummary) : (∀ s, summary_le s (f s)) → Grows (@update_summary E f).
Proof. intros Hf r c. apply Hf. Qed.
End grows.

#[export] Instance grows_rollback {A} (m : M string A) : Grows (or_rollback m).
Proof. intros r c. unfold or_rollback. destruct (m c) as [[a|e] c']; apply summary_le_refl. Qed.

Lemma push_warnings_le ws : ∀ s, summary_le s (foldl (λ s w, push_warning w s) s ws).
Proof.
  induction ws as [|w ws IH]; intros s; [apply summary_le_refl|]. cbn [foldl].
  eapply summary_le_trans; [|apply IH]. unfold push_warning. case_bool_decide; [apply summary_le_refl|].
  split; [done|]. exists []. cbn. by rewrite app_nil_r.
Qed.

Lemma note_le (f : BuildSummary → BuildSummary) :
  (∀ s, commits_processed (f s) = commits_processed s) → (∀ s, errors (f s) = errors s) → ∀ s, summary_le s (f s).
Proof. intros Hp He s. split; [done|]. exists []. by rewrite He, app_nil_r. Qed.

Ltac grows_step :=
  repeat first
    [ apply _ | progress cbn zeta beta
    | apply grows_bind; [|intros ?] | apply grows_map_err | apply grows_fold; intros ? ? | apply grows_each; intros ?
    | apply grows_summary; first [apply note_le; done | intros ?; apply push_warnings_le]
    | match goal with |- Grows (match ?x with _ => _ end) => destruct x end
    | match goal with |- Grows (let '(_, _) := ?x in _) => destruct x end ].

Section grows_build.
Context (fault : nat → option Fault) (clock : nat → N).
Context (git : list string → string → result string GitOutput) (lossy : string → string).
Context (supports : string → bool) (parse : string → string → string → option ParsedFile).

#[export] Instance grows_classify pos meta g x : Grows (classify_file fault git lossy supports pos meta g x).
Proof. unfold classify_file, in_context, load_cached_file_graph, load_blob_bytes, emit_file_progress. grows_step. Qed.

#[export] Instance grows_persist pos meta g o : Grows (persist_outcome fault pos meta g o).
Proof.
  unfold persist_outcome, emit_file_progress. destruct (po_parsed o) as [pf|]; [|grows_step].
  intros r c. destruct (persist_parsed_file _ _ _ _ _) as [[u|e] c']; cbn; (split; [done|]).
  - exists []. by rewrite app_nil_r.
  - by eexists.
Qed.

#[export] Instance grows_process repo_id iref index total meta :
  Grows (process_commit fault clock git lossy supports parse repo_id iref index total meta).
Proof.
  unfold process_commit, replay_snapshot_files, full_snapshot_files, prefetch_blob_bytes, write_snapshot,
    emit_persist_progress, in_context. grows_step.
Qed.
End grows_build.

(** ** Keeping what was indexed *)

Record kept (d d' : Db) : Prop := {
  kp_ok : db_ok d';
  kp_repos : ∀ root id, repos d !! root = Some id → repos d' !! root = Some id;
  kp_snapshots : ∀ i t, graph_snapshots d !! i = Some t → graph_snapshots d' !! i = Some t ∧ reads_same i d d' }.

Lemma reads_same_refl id d : reads_same id d d.
Proof. by split. Qed.

Lemma kept_refl d : db_ok d → kept d d.
Proof. intros Hok. split; [done|done|]. intros i t Ht. split; [done|apply reads_same_refl]. Qed.

Lemma kept_trans d1 d2 d3 : kept d1 d2 → kept d2 d3 → kept d1 d3.
Proof.
  intros [O1 R1 S1] [O2 R2 S2]. split; [done|auto|]. intros i t Ht.
  destruct (S1 i t Ht) as [Ht2 Hr1]. destruct (S2 i t Ht2) as [Ht3 Hr2]. split; [done|].
  by eapply reads_same_trans.
Qed.

Lemma indexed_kept d0 repo_id sha members s d' : indexed_as d0 repo_id sha members s d' → kept d0 d'.
Proof. intros Hix. split; [apply Hix|intros; by rewrite (ix_repos _ _ _ _ _ _ Hix)|apply Hix]. Qed.

Lemma snapshot_rows_elem d repo_id sha s :
  db_ok d → s ∈ snapshot_rows d repo_id sha ↔
    graph_snapshots d !! st_snapshot_id s = Some s ∧ st_repo_id s = repo_id ∧ st_commit_sha s = sha.
Proof.
  intros Hok. unfold snapshot_rows. rewrite list_elem_of_filter, (snapshots_of_elem d Hok). tauto.
Qed.

Definition has_snapshot (d : Db) (repo_id : Z) (sha : string) : Prop := ∃ s, s ∈ snapshot_rows d repo_id sha.

Lemma has_snapshot_kept d d' repo_id sha : db_ok d → kept d d' → has_snapshot d repo_id sha → has_snapshot d' repo_id sha.
Proof.
  intros Hok Hk [s (Hs & Hr & Hsha)%snapshot_rows_elem]; [|done]. exists s.
  apply snapshot_rows_elem; [apply Hk|]. destruct (kp_snapshots _ _ Hk _ _ Hs). auto.
Qed.

Definition reported (s : BuildSummary) (sha : string) : Prop := ∃ e, e ∈ errors s ∧ ie_commit_sha e = Some sha.

Lemma reported_le s s' sha : summary_le s s' → reported s sha → reported s' sha.
Proof. intros [_ [more Hm]] (e & He & Hsha). exists e. rewrite Hm. set_solver. Qed.

(** ** The loop of a build *)

Section build_theorems.
Context (fault : nat → option Fault) (clock : nat → N) (Hno : no_fault fault).
Context (git : list string → string → result string GitOutput) (lossy debug : string → string).
Context (supports : string → bool) (parse : string → string → string → option ParsedFile).
Context (Hls : ∀ sha tree, ls_tree git lossy sha = Ok tree → NoDup (map te_path tree)).

Lemma query_total {A} (f : Db → A) c : query fault f c = (Ok (f (current c)), snd (query fault f c)).
Proof. unfold query, sql. by rewrite (Hno (tick c)). Qed.

(** Between two commits: the transaction is closed and the run agrees with the tables, or an
    earlier failure left it open, unchanged. *)
Record looping (base : Db) (repo_id : Z) (seen : list GitCommitMeta) (r : Run) (c : Conn) : Prop := {
  lo_kept : kept base (committed c);
  lo_state : (working c = None ∧ cache_ok (committed c) (r_cache r)) ∨ working c = Some (committed c);
  lo_seen m : m ∈ seen → has_snapshot (committed c) repo_id (gm_sha m) ∨ reported (r_summary r) (gm_sha m);
  lo_count : commits_processed (r_summary r) = length seen }.

Lemma looping_current base repo_id seen r c : looping base repo_id seen r c → current c = committed c.
Proof. intros [_ [[Hw _]|Hw] _ _]; unfold current; by rewrite Hw. Qed.

Lemma looping_next base repo_id seen meta r c r2 c2 :
  looping base repo_id seen r c → kept (committed c) (committed c2) →
  (working c2 = None ∧ cache_ok (committed c2) (r_cache r2)) ∨ working c2 = Some (committed c2) →
  summary_le (note_processed (r_summary r)) (r_summary r2) →
  has_snapshot (committed c2) repo_id (gm_sha meta) ∨ reported (r_summary r2) (gm_sha meta) →
  looping base repo_id (seen ++ [meta]) r2 c2.
Proof.
  intros [Hk _ Hseen Hcount] Hk2 Hst Hle Hmeta. split; [by eapply kept_trans|done| |].
  - intros m [Hm|Hm%list_elem_of_singleton]%elem_of_app; [|by subst].
    destruct (Hseen m Hm) as [Hs|Hs].
    + left. eapply has_snapshot_kept; [apply (kp_ok _ _ Hk)|done|done].
    + right. by apply (reported_le _ _ _ Hle).
  - rewrite (proj1 Hle). cbn. rewrite length_app, Hcount. cbn. lia.
Qed.

(** The error of a commit is noted. *)
Lemma noted_le r r2 e :
  summary_le (note_processed (r_summary r)) (r_summary r2) →
  summary_le (note_processed (r_summary r)) (note_error e (r_summary r2)).
Proof. intros Hle. eapply summary_le_trans; [exact Hle|]. split; [done|]. by eexists. Qed.

Lemma noted_reported s sha e : reported (note_error (mk_ingest_error (Some sha) e) s) sha.
Proof. eexists. split; [apply elem_of_app; right; apply list_elem_of_here|done]. Qed.

#[local] Abbreviation process := (process_commit fault clock git lossy supports parse).

(** A commit without a snapshot, after the lookup. *)
Lemma wp_build_new base repo_id iref total seen index meta r c c1 :
  looping base repo_id seen r c → same_db c c1 → snapshot_rows (committed c) repo_id (gm_sha meta) = [] →
  wp (catch (process repo_id iref index total meta)
        (λ e, update_summary (note_error (mk_ingest_error (Some (gm_sha meta)) e))))
    (λ _, looping base repo_id (seen ++ [meta])) (λ _ _, False)
    (mk_run (r_cache r) (note_processed (r_summary r)) (r_events r)) c1.
Proof.
  intros Hl [Hc1 Hw1] Hrows. pose proof (kp_ok _ _ (lo_kept _ _ _ _ _ Hl)) as Hok.
  set (r1 := mk_run _ _ _). unfold wp, catch.
  pose proof (grows_process fault clock git lossy supports parse repo_id iref index total meta r1 c1) as Hg.
  change (r_summary r1) with (note_processed (r_summary r)) in Hg.
  destruct (lo_state _ _ _ _ _ Hl) as [[Hw Hcache]|Hw].
  - rewrite <- Hw1 in Hw. rewrite <- Hc1 in Hok, Hcache, Hrows.
    pose proof (wp_process fault clock git lossy supports parse (committed c1) Hok (no_fault_gentle fault Hno) repo_id iref index total meta r1 c1
      (Hls _) eq_refl Hw Hcache Hrows) as Hwp. unfold wp in Hwp.
    destruct (process repo_id iref index total meta r1 c1) as [[[u|e] r2] c2]; cbn [fst snd] in Hg.
    + destruct Hwp as (Hw2 & s & members & Hix & Hcache2 & Herr).
      eapply looping_next; [exact Hl|rewrite <- Hc1; by eapply indexed_kept|auto|done|].
      left. exists s. rewrite (ix_row _ _ _ _ _ _ Hix). apply list_elem_of_here.
    + destruct Hwp as [Hc2 Hcache2 Hopen]. unfold update_summary. cbn beta iota.
      eapply looping_next; [exact Hl| | |by apply noted_le|right; apply noted_reported].
      * rewrite Hc2, Hc1. apply kept_refl. by rewrite <- Hc1.
      * cbn [r_cache]. rewrite Hc2. destruct (Hopen Hno); auto.
  - pose proof (process_open fault clock git lossy supports parse (committed c) repo_id iref index total meta r1 c1
      Hc1) as Hwp. unfold wp in Hwp. rewrite Hw1, Hw in Hwp. specialize (Hwp (ex_intro _ _ eq_refl)).
    destruct (process repo_id iref index total meta r1 c1) as [[[u|e] r2] c2]; [done|]. cbn [fst snd] in Hg.
    destruct Hwp as [Hc2 _ Hw2]. specialize (Hw2 (no_fault_gentle fault Hno)). unfold update_summary. cbn beta iota.
    eapply looping_next; [exact Hl| |right; congruence|by apply noted_le|right; apply noted_reported].
    rewrite Hc2, Hc1. by apply kept_refl.
Qed.

Lemma wp_build_one base repo_id iref total seen index meta r c :
  looping base repo_id seen r c →
  wp (build_one fault clock git lossy supports parse repo_id iref total (index, meta))
    (λ _, looping base repo_id (seen ++ [meta])) (λ _ _, False) r c.
Proof.
  intros Hl. pose proof (looping_current _ _ _ _ _ Hl) as Hcur.
  unfold build_one. apply wp_bind. unfold update_summary, wp at 1. cbn beta iota.
  apply wp_bind, wp_store. unfold find_snapshot. rewrite query_total.
  pose proof (query_total (λ d, head (snapshot_rows d repo_id (gm_sha meta))) c) as Hs.
  apply query_stopped in Hs as [_ Hs]. specialize (Hs eq_refl).
  set (c1 := snd (query _ _ c)) in *. rewrite Hcur.
  destruct (snapshot_rows (committed c) repo_id (gm_sha meta)) as [|s l] eqn:Hrows; cbn [head]; [by apply (wp_build_new base _ _ _ _ _ _ _ c)|].
  destruct Hs as [Hc1 Hw1]. pose proof (kp_ok _ _ (lo_kept _ _ _ _ _ Hl)) as Hok.
  unfold wp, b_bind, update_summary, progress. cbn beta iota.
  eapply looping_next; [exact Hl|rewrite Hc1; by apply kept_refl|rewrite Hc1, Hw1; exact (lo_state _ _ _ _ _ Hl)| |].
  - split; [done|]. exists []. cbn. by rewrite app_nil_r.
  - left. rewrite Hc1. exists s. rewrite Hrows. apply list_elem_of_here.
Qed.

(** *** The repository row *)

Lemma rows_insert_elem {K A} `{Countable K} (t : gmap K A) k a x :
  t !! k = None → x ∈ rows t → x ∈ rows (<[k := a]> t).
Proof.
  intros Hk (k' & Hx)%rows_elem. apply rows_elem. exists k'. rewrite lookup_insert_ne; [done|]. congruence.
Qed.

Lemma set_repos_ok root id d : repos d !! root = None → db_ok d → db_ok (set_repos (<[root := id]> (repos d)) d).
Proof.
  intros Hroot Hok. split; cbn; try apply Hok.
  intros i s Hs. destruct (ok_snapshot d Hok i s Hs) as (? & ? & ?). split_and!; [done| |done].
  by apply rows_insert_elem.
Qed.

Lemma set_repos_reads root id d i : reads_same i d (set_repos (<[root := id]> (repos d)) d).
Proof. by split. Qed.

Lemma sql_total {A} (f : Db → result string (A * Db)) c a d :
  working c = None → f (committed c) = Ok (a, d) →
  ∃ c', sql fault f c = (Ok a, c') ∧ working c' = None ∧ committed c' = d.
Proof.
  intros Hw Hf. unfold sql. rewrite (Hno (tick c)), (current_idle c Hw), Hf. unfold with_current, bump.
  cbn [working]. rewrite Hw. by eexists.
Qed.

Lemma upsert_repo_total root c :
  working c = None → db_ok (committed c) →
  ∃ id c', upsert_repo fault clock root c = (Ok id, c') ∧ working c' = None ∧ kept (committed c) (committed c') ∧
    repos (committed c') !! root = Some id.
Proof.
  intros Hw Hok. set (id := default (next_id (rows (repos (committed c)))) (repos (committed c) !! root)).
  set (d := match repos (committed c) !! root with
            | Some _ => committed c
            | None => set_repos (<[root := id]> (repos (committed c))) (committed c)
            end).
  assert (repos d !! root = Some id) as Hid.
  { unfold d, id. destruct (repos (committed c) !! root) eqn:Hr; [done|apply lookup_insert_eq]. }
  assert (kept (committed c) d) as Hk.
  { unfold d. destruct (repos (committed c) !! root) eqn:Hr; [by apply kept_refl|]. split.
    - by apply set_repos_ok.
    - intros r i Hi. cbn. rewrite lookup_insert_ne; [done|]. congruence.
    - intros i t Ht. split; [done|apply set_repos_reads]. }
  unfold upsert_repo, bind, chrono_now. unfold execute.
  edestruct (sql_total (A := unit)) as (c1 & -> & Hw1 & Hc1); [exact Hw| |].
  { instantiate (2 := tt). instantiate (1 := d). unfold d, id. destruct (repos (committed c) !! root); done. }
  edestruct (sql_total (A := Z)) as (c2 & Hr2 & Hw2 & Hc2); [exact Hw1| |exists id, c2; split; [exact Hr2|]].
  { rewrite Hc1, Hid. done. }
  by rewrite Hc2.
Qed.

End build_theorems.

(** ** Updating *)

Section update_theorems.
Context (fault : nat → option Fault) (clock : nat → N) (Hno : no_fault fault).
Context (git : list string → string → result string GitOutput) (lossy debug : string → string).
Context (supports : string → bool) (parse : string → string → string → option ParsedFile).
Context (hex_hash : string → string) (fixed6 : spec_float → string) (print_json : Json → string).

Lemma query_run {A} (f : Db → A) r c :
  working c = None →
  ∃ c', store (query fault f) r c = (Ok (f (committed c)), r, c') ∧ working c' = None ∧ committed c' = committed c.
Proof.
  intros Hw. unfold store. destruct (sql_total fault Hno (λ d, Ok (f d, d)) c (f (committed c)) (committed c) Hw eq_refl)
    as (c' & Hr & Hw' & Hc'). exists c'. unfold query. by rewrite Hr.
Qed.

(** The commits walked before the first that is indexed. *)
Definition unindexed (d : Db) (repo_id : Z) (commits : list GitCommitMeta) : list GitCommitMeta :=
  foldr (λ m l, match snapshot_rows d repo_id (gm_sha m) with [] => m :: l | _ => [] end) [] commits.
Definition indexed_base (d : Db) (repo_id : Z) (commits : list GitCommitMeta) : option string :=
  head (map gm_sha (filter (λ m, snapshot_rows d repo_id (gm_sha m) ≠ []) commits)).

Lemma missing_total repo_id commits : ∀ c,
  working c = None →
  ∃ c', missing_commits fault repo_id commits c =
      (Ok (unindexed (committed c) repo_id commits, indexed_base (committed c) repo_id commits), c') ∧
    working c' = None ∧ committed c' = committed c.
Proof.
  induction commits as [|m commits IH]; intros c Hw; cbn [missing_commits]; [by exists c|].
  destruct (sql_total fault Hno (λ d, Ok (head (snapshot_rows d repo_id (gm_sha m)), d)) c _ (committed c) Hw eq_refl)
    as (c1 & Hr & Hw1 & Hc1). unfold bind at 1, find_snapshot, query. rewrite Hr.
  unfold indexed_base. cbn [unindexed foldr]. rewrite filter_cons.
  destruct (snapshot_rows (committed c) repo_id (gm_sha m)) as [|s l]; cbn [head].
  - rewrite decide_False by tauto. destruct (IH c1 Hw1) as (c2 & Hr2 & Hw2 & Hc2).
    unfold bind. rewrite Hr2, Hc1. exists c2. split_and!; [done|done|congruence].
  - rewrite decide_True by done. exists c1. split_and!; done.
Qed.

Definition not_divergence {A} (x : result HistoryError A) : Prop := ∀ msg, x ≠ Err (Divergence msg).

Lemma other_not_divergence {A} (m : B string A) r c : not_divergence (fst (fst (other m r c))).
Proof. intros msg. unfold other, b_map_err. by destruct (m r c) as [[[a|e] r'] c']. Qed.

Lemma bind_not_divergence {A C} (m : B HistoryError A) (k : A → B HistoryError C) r c :
  not_divergence (fst (fst (m r c))) → (∀ a r c, not_divergence (fst (fst (k a r c)))) →
  not_divergence (fst (fst (b_bind m k r c))).
Proof.
  intros Hm Hk. unfold b_bind. destruct (m r c) as [[[a|e] r'] c']; [apply Hk|].
  intros msg [= ->]. by apply (Hm msg).
Qed.

(** The walk meets no indexed commit, and there is an indexed one: that one is not on the walk. *)
Lemma orphan_without_base d repo_id commits :
  db_ok d → indexed_base d repo_id commits = None → snapshots_of d repo_id ≠ [] →
  ∃ s, s ∈ snapshots_of d repo_id ∧ st_commit_sha s ∉ map gm_sha commits.
Proof.
  intros Hok Hbase Hne. destruct (snapshots_of d repo_id) as [|s l] eqn:Hs; [done|].
  exists s. split; [apply list_elem_of_here|]. intros (m & Hsha & Hm)%list_elem_of_fmap.
  unfold indexed_base in Hbase.
  assert (m ∈ filter (λ m, snapshot_rows d repo_id (gm_sha m) ≠ []) commits) as Hin.
  { apply list_elem_of_filter. split; [|done]. intros Hnil. apply (elem_of_nil s). rewrite <- Hnil.
    unfold snapshot_rows. rewrite Hs, <- Hsha. apply list_elem_of_filter. split; [done|apply list_elem_of_here]. }
  destruct (filter _ commits); [by apply elem_of_nil in Hin|done].
Qed.

Lemma diverged_spec d repo_id commits :
  db_ok d →
  let latest := st_commit_sha <$> head (sort_by (cmp_rev (cmp_on st_snapshot_id Z.compare))
    (filter (λ s, is_Some (HistoryTables.commits d !! (st_commit_sha s, st_repo_id s))) (snapshots_of d repo_id))) in
  existsb (λ s, bool_decide (st_commit_sha s ∉ map gm_sha commits)) (snapshots_ordered d repo_id)
    || bool_decide (is_Some latest) && bool_decide (indexed_base d repo_id commits = None) = true ↔
  ∃ i s, graph_snapshots d !! i = Some s ∧ st_repo_id s = repo_id ∧ st_commit_sha s ∉ map gm_sha commits.
Proof.
  intros Hok. cbn zeta. rewrite orb_true_iff, andb_true_iff, !bool_decide_eq_true, existsb_exists. split.
  - intros [(s & Hs%list_elem_of_In & Hn%bool_decide_eq_true)|[Hlatest Hbase]].
    + apply (snapshots_ordered_elem d Hok) in Hs as [Hs Hr]. eauto.
    + destruct (orphan_without_base d repo_id commits Hok Hbase) as (s & Hs & Hn).
      { intros Hnil. rewrite Hnil in Hlatest. by destruct Hlatest. }
      apply (snapshots_of_elem d Hok) in Hs as [Hs Hr]. eauto.
  - intros (i & s & Hs & Hr & Hn). left. exists s. rewrite <- list_elem_of_In, bool_decide_eq_true. split; [|done].
    apply (snapshots_ordered_elem d Hok). split; [|done]. by destruct (ok_snapshot d Hok i s Hs) as [-> _].
Qed.

(** C18. An update without repair refuses exactly the histories that have an indexed commit
    outside the commits it walks, and then changes nothing: in a repository that is not shallow
    and with a database that does not fail, it ends with the divergence error if and only if
    some snapshot of the repository belongs to a commit that the log of the branch, cut at
    [max_commits], does not list. *)
Theorem update_divergence root branch max repo_id head_sha commits r c x r' c' :
  working c = None → db_ok (committed c) → repos (committed c) !! root = Some repo_id →
  is_shallow git lossy = Ok false → rev_parse git lossy (default "HEAD" branch) = Ok head_sha →
  log_commits git lossy head_sha max None None = Ok commits →
  update_historical_graph fault clock git lossy debug supports parse hex_hash fixed6 print_json root branch false max r c = (x, r', c') →
  ((∃ msg, x = Err (Divergence msg)) ↔
   ∃ i s, graph_snapshots (committed c) !! i = Some s ∧ st_repo_id s = repo_id ∧
     st_commit_sha s ∉ map gm_sha commits) ∧
  ((∃ msg, x = Err (Divergence msg)) → committed c' = committed c).
Proof.
  intros Hw Hok Hroot Hsh Hrev Hlog. set (d := committed c) in *. unfold update_historical_graph.
  rewrite Hsh, Hrev. cbn beta iota zeta.
  unfold b_bind at 1, other at 1, b_map_err at 1, find_repo_id.
  destruct (query_run (λ d, repos d !! root) r c Hw) as (c1 & -> & Hw1 & Hc1). fold d in Hc1. fold d. rewrite Hroot.
  unfold b_bind at 1, other at 1, b_map_err at 1, required, b_ret at 1. cbn beta iota.
  unfold b_bind at 1, other at 1, b_map_err at 1, in_context at 1, b_map_err at 1, of_result at 1. cbn beta iota.
  unfold b_bind at 1, other at 1, b_map_err at 1, latest_commit_sha.
  match goal with |- context [store (query fault ?f)] => destruct (query_run f r c1 Hw1) as (c2 & -> & Hw2 & Hc2) end.
  rewrite Hc1. set (latest := _ <$> _). rewrite Hlog.
  unfold b_bind at 1, other at 1, b_map_err at 1, in_context at 1, b_map_err at 1, of_result at 1. cbn beta iota.
  unfold b_bind at 1, other at 1, b_map_err at 1, store at 1.
  destruct (missing_total repo_id commits c2 Hw2) as (c3 & -> & Hw3 & Hc3). cbn beta iota. cbn [andb].
  unfold b_bind at 1, other at 1, b_map_err at 1, list_snapshots_ordered.
  match goal with |- context [store (query fault ?f)] => destruct (query_run f r c3 Hw3) as (c4 & -> & Hw4 & Hc4) end.
  rewrite Hc3, Hc2, Hc1 in *. cbn beta iota. rewrite andb_true_r.
  set (diverged := existsb _ _ || _). intros Hrun.
  assert (diverged = true ↔ ∃ i s, graph_snapshots d !! i = Some s ∧ st_repo_id s = repo_id ∧
            st_commit_sha s ∉ map gm_sha commits) as Hdiv by (exact (diverged_spec d repo_id commits Hok)).
  destruct diverged.
  - injection Hrun as <- _ <-. split; [|done]. split; [intros _; by apply Hdiv|by eexists].
  - assert (not_divergence x) as Hnot.
    { replace x with (fst (fst (x, r', c'))) by done. rewrite <- Hrun.
      apply bind_not_divergence; [case_decide; [done|apply other_not_divergence]|]. intros s2 r2 c5.
      apply bind_not_divergence; [destruct (_ =? 0)%nat; [apply other_not_divergence|]|done].
      apply bind_not_divergence; [done|intros; apply other_not_divergence]. }
    split; [split; [by intros [msg ?%Hnot]|by intros ?%Hdiv]|by intros [msg ?%Hnot]].
Qed.
End update_theorems.

(** ** Examples *)

Definition demo_build (commits : list DemoCommit) (objects : list (string * string)) : B string BuildSummary :=
  build_historical_graph never demo_clock (demo_repo commits objects) id id is_rust demo_parse "/r"
    (Bounded "HEAD" None None None) None.
Definition fresh : Conn := mk_conn empty_db None 0.

Lemma no_faults : no_fault never.
Proof. done. Qed.

Definition two_commits : list DemoCommit := [first_commit; second_commit].

(** Whatever git is asked, the trees of these commits have distinct paths. *)
Lemma two_commits_paths objects sha tree :
  ls_tree (demo_repo two_commits objects) id sha = Ok tree → NoDup (map te_path tree).
Proof.
  unfold ls_tree. destruct (validate_sha sha) as [u|e]; [|done]. cbn [res_bind]. unfold run, demo_repo.
  destruct (head (filter _ _)) as [d|] eqn:Hd; [|done].
  apply head_Some_elem_of, list_elem_of_filter in Hd as [_ Hd].
  apply elem_of_cons in Hd as [->|Hd%list_elem_of_singleton]; [|subst d];
    intros Ht; vm_compute in Ht; injection Ht as <-; apply (bool_decide_unpack _); vm_compute; exact I.
Qed.


(** A blob that git cannot show, and the commits after it: the first failure leaves the
    transaction open, and no later commit of the run is indexed. *)
Example one_failure_stops_the_run :
  let objects := [(demo_sha "2", "fn f() { }")] in
  match demo_build two_commits objects no_run fresh with
  | (Ok s, _, c') => (map ie_message (errors s), length (map_to_list (graph_snapshots (committed c'))))
  | _ => ([], 9)
  end =
  (["git show " +:+ sha_a +:+ ":a.rs: git show " +:+ sha_a +:+ ":a.rs failed: fatal: bad object";
    "begin commit write transaction: cannot start a transaction within a transaction"], 0).
Proof. vm_compute. reflexivity. Qed.

Definition demo_update (commits : list DemoCommit) (objects : list (string * string)) (max : option N) :
    B HistoryError HistoryUpdateSummary :=
  update_historical_graph never demo_clock (demo_repo commits objects) id id is_rust demo_parse id (λ _, "1") (λ _, "")
    "/r" None false max.

Definition built : Conn := snd (demo_build two_commits demo_objects no_run fresh).

Lemma built_ok : db_ok (committed built).
Proof. apply db_check_ok. vm_compute. reflexivity. Qed.

(** A bound on the number of commits makes a history diverge that has not changed. *)
Lemma update_divergence_witness :
  ∃ msg, fst (fst (demo_update two_commits demo_objects (Some 1%N) no_run built)) = Err (Divergence msg).
Proof.
  destruct (demo_update two_commits demo_objects (Some 1%N) no_run built) as [[x r'] c'] eqn:Hrun.
  apply (update_divergence never demo_clock no_faults (demo_repo two_commits demo_objects) id id is_rust demo_parse id
    (λ _, "1") (λ _, "") "/r" None (Some 1%N) 1 sha_b [second_meta] no_run built x r' c').
  - vm_compute. reflexivity.
  - exact built_ok.
  - vm_compute. reflexivity.
  - vm_compute. reflexivity.
  - vm_compute. reflexivity.
  - vm_compute. reflexivity.
  - exact Hrun.
  - exists 1%Z. eexists. split; [vm_compute; reflexivity|]. split; [reflexivity|].
    apply (bool_decide_unpack _). vm_compute. exact I.
Defined.

(** An update whose commits all fail ends well, and its summary has no trace of the failures. *)
Example failed_update_looks_fine :
  match demo_update two_commits [] None no_run (snd (upsert_repo never demo_clock "/r" fresh)) with
  | (Ok s, _, c') => Some (hu_commits_processed s, hu_warnings s, length (map_to_list (graph_snapshots (committed c'))))
  | _ => None
  end = Some (2, [], 0)%nat.
Proof. vm_compute. reflexivity. Qed.
