(* ===== verification/ContextData.v ===== *)
(** * Review contexts: data

    Model of [packages/atlas-core/src/model/context.rs]: the request, the selected nodes,
    edges and files with their ranking evidence, the result and its truncation report.
    Counts are [N], scores are binary32 values. The repository provenance that nodes and
    files carry is left out, as in [Graph]. *)

From Stdlib Require Import Floats.SpecFloat.
From S2P Require Import Prelude RustStr RustFloat Budget Kinds Graph.

(** ** Requests *)

Inductive ContextIntent :=
| Symbol | File | Review | Impact | ImpactAnalysis | UsageLookup | RefactorSafety
| DeadCodeCheck | RenamePreview | DependencyRemoval.

Inductive ContextTarget :=
| QualifiedName (qname : string)
| SymbolName (name : string)
| FilePath (path : string)
| ChangedFiles (paths : list string)
| ChangedSymbols (qnames : list string)
| EdgeQuerySeed (source_qname : string) (edge_kind : option string).

Record ContextRequest := mk_request {
  intent : ContextIntent;
  target : ContextTarget;
  max_nodes : option N;
  max_edges : option N;
  max_files : option N;
  depth : option N;
  include_tests : bool;
  include_imports : bool;
  include_neighbors : bool;
  include_code_spans : bool;
  include_callers : bool;
  include_callees : bool;
  allow_cross_repo_edges : bool;
  include_saved_context : bool;
  rq_session_id : option string;
  rq_agent_id : option string;
  merge_agent_partitions : bool;
  token_budget : option N;
  include_content_assets : bool;
  max_content_assets : option N
}.

Definition default_request : ContextRequest :=
  mk_request Symbol (SymbolName "") None None None None false true false false true true
    false false None None false None false None.

Definition with_target (t : ContextTarget) (r : ContextRequest) : ContextRequest :=
  mk_request (intent r) t (max_nodes r) (max_edges r) (max_files r) (depth r) (include_tests r)
    (include_imports r) (include_neighbors r) (include_code_spans r) (include_callers r)
    (include_callees r) (allow_cross_repo_edges r) (include_saved_context r) (rq_session_id r)
    (rq_agent_id r) (merge_agent_partitions r) (token_budget r) (include_content_assets r)
    (max_content_assets r).

Definition with_limits (nodes edges files d : N) (r : ContextRequest) : ContextRequest :=
  mk_request (intent r) (target r) (Some nodes) (Some edges) (Some files) (Some d)
    (include_tests r)
    (include_imports r) (include_neighbors r) (include_code_spans r) (include_callers r)
    (include_callees r) (allow_cross_repo_edges r) (include_saved_context r) (rq_session_id r)
    (rq_agent_id r) (merge_agent_partitions r) (token_budget r) (include_content_assets r)
    (max_content_assets r).

(** ** Selected items *)

Inductive SelectionReason :=
| DirectTarget | Caller | Callee | Importer | Importee | ContainmentSibling | TestAdjacent
| ImpactNeighbor.

#[global] Instance SelectionReason_eq_dec : EqDecision SelectionReason.
Proof. solve_decision. Defined.

Definition SelectionReason_as_str (r : SelectionReason) : string :=
  match r with
  | DirectTarget => "direct_target"
  | Caller => "caller"
  | Callee => "callee"
  | Importer => "importer"
  | Importee => "importee"
  | ContainmentSibling => "containment_sibling"
  | TestAdjacent => "test_adjacent"
  | ImpactNeighbor => "impact_neighbor"
  end.

Inductive MixedResultKind :=
| GraphNode | GraphEdge | FileAsset | ContentMatch | Template | TextAsset | SavedContext.

#[global] Instance MixedResultKind_eq_dec : EqDecision MixedResultKind.
Proof. solve_decision. Defined.

Record ContextRankingEvidence := mk_evidence {
  base_score : option spec_float;
  final_score : option spec_float;
  source_kind : option MixedResultKind;
  direct_target : bool;
  changed_symbol : bool;
  caller_neighbor : bool;
  callee_neighbor : bool;
  test_adjacent : bool;
  exact_symbol_match : bool;
  bm25_score : option spec_float;
  changed_file_boost : option spec_float;
  same_package_dir_boost : option spec_float;
  trigram_correction : option spec_float;
  path_proximity_boost : option spec_float;
  graph_distance_penalty : option spec_float;
  session_recency_boost : option spec_float;
  impact_score_contribution : option spec_float;
  saved_context_rank_score : option spec_float;
  recent_source_boost : option spec_float;
  same_session_boost : option spec_float
}.

Definition from_selection_reason (reason : SelectionReason) : ContextRankingEvidence :=
  mk_evidence None None (Some GraphNode) (bool_decide (reason = DirectTarget)) false
    (bool_decide (reason = Caller)) (bool_decide (reason = Callee))
    (bool_decide (reason = TestAdjacent)) false
    None None None None None None None None None None None.

Definition with_source_kind (k : MixedResultKind) (e : ContextRankingEvidence) :
    ContextRankingEvidence :=
  mk_evidence (base_score e) (final_score e) (Some k) (direct_target e) (changed_symbol e)
    (caller_neighbor e) (callee_neighbor e) (test_adjacent e) (exact_symbol_match e)
    (bm25_score e) (changed_file_boost e) (same_package_dir_boost e) (trigram_correction e)
    (path_proximity_boost e) (graph_distance_penalty e) (session_recency_boost e)
    (impact_score_contribution e) (saved_context_rank_score e) (recent_source_boost e)
    (same_session_boost e).

Definition with_changed_symbol (e : ContextRankingEvidence) : ContextRankingEvidence :=
  mk_evidence (base_score e) (final_score e) (source_kind e) (direct_target e) true
    (caller_neighbor e) (callee_neighbor e) (test_adjacent e) (exact_symbol_match e)
    (bm25_score e) (changed_file_boost e) (same_package_dir_boost e) (trigram_correction e)
    (path_proximity_boost e) (graph_distance_penalty e) (session_recency_boost e)
    (impact_score_contribution e) (saved_context_rank_score e) (recent_source_boost e)
    (same_session_boost e).

Definition with_scores (base final penalty impact : option spec_float)
    (e : ContextRankingEvidence) : ContextRankingEvidence :=
  mk_evidence base final (source_kind e) (direct_target e) (changed_symbol e)
    (caller_neighbor e) (callee_neighbor e) (test_adjacent e) (exact_symbol_match e)
    (bm25_score e) (changed_file_boost e) (same_package_dir_boost e) (trigram_correction e)
    (path_proximity_boost e) penalty (session_recency_boost e)
    impact (saved_context_rank_score e) (recent_source_boost e) (same_session_boost e).

(** [get_or_insert]. *)
Definition or_insert {A} (x : A) (o : option A) : option A := Some (default x o).

Definition sync_score (score : spec_float) (e : ContextRankingEvidence) : ContextRankingEvidence :=
  with_scores (or_insert score (base_score e)) (Some score) (graph_distance_penalty e)
    (impact_score_contribution e) e.

Record SelectedNode := mk_snode {
  sn_node : Node;
  sn_reason : SelectionReason;
  sn_distance : N;
  sn_score : spec_float;
  sn_evidence : option ContextRankingEvidence
}.

Record SelectedEdge := mk_sedge {
  se_edge : Edge;
  se_reason : SelectionReason;
  se_depth : option N;
  se_score : spec_float;
  se_evidence : option ContextRankingEvidence
}.

Record SelectedFile := mk_sfile {
  sf_path : string;
  sf_reason : SelectionReason;
  sf_line_ranges : list (N * N);
  sf_language : option string;
  sf_node_count : N
}.

(** ** Truncation *)

Record ContextSourceMix := mk_source_mix {
  mix_source_kind : string;
  items_included : N;
  items_dropped : N;
  tokens_used : N
}.

Record TokenAccountingMeta := mk_accounting {
  ta_provider : string;
  ta_model : option string;
  ta_fallback_used : bool;
  ta_fallback_reason : option string;
  ta_bytes_per_token : option N
}.

Record PayloadTruncationMeta := mk_payload {
  bytes_requested : N;
  bytes_emitted : N;
  tokens_estimated : N;
  token_budget_applied : option N;
  omitted_node_count : N;
  omitted_file_count : N;
  omitted_source_count : N;
  omitted_byte_count : N;
  p_continuation_hint : option string;
  source_mix : list ContextSourceMix;
  token_accounting : option TokenAccountingMeta
}.

Record TruncationMeta := mk_truncation {
  nodes_dropped : N;
  edges_dropped : N;
  files_dropped : N;
  content_assets_dropped : N;
  truncated : bool;
  payload : option PayloadTruncationMeta
}.

Definition truncation_none : TruncationMeta := mk_truncation 0 0 0 0 false None.

Record SeedBudgetMeta := mk_seed_budget {
  seed_kind : string;
  requested_seed_count : N;
  accepted_seed_count : N;
  omitted_seed_count : N;
  sb_budget_hit : bool;
  sb_partial : bool;
  sb_safe_to_answer : bool;
  sb_suggested_narrower_query : option string
}.

Definition seed_budget_new (kind : string) (requested accepted : N) (safe : bool)
    (suggestion : option string) : SeedBudgetMeta :=
  let omitted := (requested - accepted)%N in
  mk_seed_budget kind requested accepted omitted
    ((0 <? omitted)%N || negb safe)
    ((0 <? omitted)%N && (0 <? accepted)%N && safe) safe suggestion.

Record TraversalBudgetMeta := mk_traversal_budget {
  requested_depth : N;
  accepted_depth : N;
  requested_node_budget : N;
  accepted_node_budget : N;
  requested_edge_budget : N;
  accepted_edge_budget : N;
  emitted_node_count : N;
  emitted_edge_count : N;
  omitted_edge_count : N;
  tb_budget_hit : bool;
  tb_suggested_narrower_query : option string
}.

Record AmbiguityMeta := mk_ambiguity {
  query : string;
  candidates : list string;
  resolved : bool
}.

(** ** Workflow summaries *)

Record WorkflowFocusNode := mk_focus {
  wf_qualified_name : string;
  wf_kind : string;
  wf_file_path : string;
  wf_relevance_score : spec_float;
  wf_selection_reason : string
}.

Record WorkflowComponent := mk_component {
  wc_label : string;
  wc_kind : string;
  changed_node_count : N;
  impacted_node_count : N;
  file_count : N;
  wc_summary : string
}.

Record WorkflowCallChain := mk_chain {
  chain_summary : string;
  steps : list string;
  edge_kinds : list string
}.

Record NoiseReductionSummary := mk_noise {
  retained_nodes : N;
  retained_edges : N;
  retained_files : N;
  dropped_nodes : N;
  dropped_edges : N;
  dropped_files : N;
  rules_applied : list string
}.

Record WorkflowSummary := mk_workflow {
  headline : option string;
  high_impact_nodes : list WorkflowFocusNode;
  impacted_components : list WorkflowComponent;
  call_chains : list WorkflowCallChain;
  ripple_effects : list string;
  noise_reduction : NoiseReductionSummary
}.

(** ** Assets, sources and the result *)

Inductive ContentAssetReason := AdjacentToChangedFile | RelatedToChangedSymbol | ByContentMatch.

Record ContentAsset := mk_asset {
  ca_source_id : string;
  ca_path : string;
  ca_content_type : string;
  ca_preview : string;
  ca_reason : ContentAssetReason;
  ca_score : spec_float;
  ca_evidence : option ContextRankingEvidence
}.

Record SavedContextSource := mk_saved {
  sv_source_id : string;
  sv_label : string;
  sv_source_type : string;
  sv_session_id : option string;
  sv_agent_id : option string;
  sv_preview : string;
  sv_retrieval_hint : string;
  sv_score : spec_float;
  sv_evidence : option ContextRankingEvidence
}.

Record ContextResult := mk_result {
  request : ContextRequest;
  nodes : list SelectedNode;
  edges : list SelectedEdge;
  files : list SelectedFile;
  content_assets : list ContentAsset;
  truncation : TruncationMeta;
  seed_budgets : list SeedBudgetMeta;
  traversal_budget : option TraversalBudgetMeta;
  ambiguity : option AmbiguityMeta;
  workflow : option WorkflowSummary;
  saved_context_sources : list SavedContextSource;
  budget : BudgetReport
}.

(** Assignments to the fields of a result. *)
Definition set_graph (ns : list SelectedNode) (es : list SelectedEdge) (fs : list SelectedFile)
    (r : ContextResult) : ContextResult :=
  mk_result (request r) ns es fs (content_assets r) (truncation r) (seed_budgets r)
    (traversal_budget r) (ambiguity r) (workflow r) (saved_context_sources r) (budget r).

Definition set_truncation (t : TruncationMeta) (r : ContextResult) : ContextResult :=
  mk_result (request r) (nodes r) (edges r) (files r) (content_assets r) t (seed_budgets r)
    (traversal_budget r) (ambiguity r) (workflow r) (saved_context_sources r) (budget r).

Definition set_seed_budgets (s : list SeedBudgetMeta) (r : ContextResult) : ContextResult :=
  mk_result (request r) (nodes r) (edges r) (files r) (content_assets r) (truncation r) s
    (traversal_budget r) (ambiguity r) (workflow r) (saved_context_sources r) (budget r).

Definition set_summaries (a : option AmbiguityMeta) (w : option WorkflowSummary)
    (r : ContextResult) : ContextResult :=
  mk_result (request r) (nodes r) (edges r) (files r) (content_assets r) (truncation r)
    (seed_budgets r) (traversal_budget r) a w (saved_context_sources r) (budget r).

Definition set_sources (assets : list ContentAsset) (saved : list SavedContextSource)
    (r : ContextResult) : ContextResult :=
  mk_result (request r) (nodes r) (edges r) (files r) assets (truncation r) (seed_budgets r)
    (traversal_budget r) (ambiguity r) (workflow r) saved (budget r).

Definition set_budget (b : BudgetReport) (r : ContextResult) : ContextResult :=
  mk_result (request r) (nodes r) (edges r) (files r) (content_assets r) (truncation r)
    (seed_budgets r) (traversal_budget r) (ambiguity r) (workflow r) (saved_context_sources r) b.
