(* ===== verification/ContextRank.v ===== *)
(** * Review contexts: ranking, trimming and code spans

    Model of [packages/atlas-review/src/ranking.rs] and of [context/rank.rs],
    [context/spans.rs] and the file list of [context/symbol.rs]: the items of a context are
    scored and sorted, cut to the caps of the request, and their line spans merged. *)

From Stdlib Require Import Floats.SpecFloat.
From S2P Require Import Prelude RustStr RustFloat Budget Kinds Graph ContextData.

(** ** Scores *)

Record ContextRankingPrimitives := mk_primitives {
  direct_target_priority : N;
  caller_priority : N;
  callee_priority : N;
  importer_priority : N;
  importee_priority : N;
  test_adjacent_priority : N;
  containment_sibling_priority : N;
  impact_neighbor_priority : N;
  distance_step_penalty : spec_float;
  max_distance_bonus : spec_float;
  same_file_boost : spec_float;
  public_api_boost : spec_float;
  function_kind_boost : spec_float;
  type_kind_boost : spec_float;
  test_node_penalty : spec_float
}.

Definition default_ranking : ContextRankingPrimitives :=
  mk_primitives 100 80 80 60 60 50 40 30 (f64_of_N 5) (f64_of_N 10) (f64_of_N 3) (f64_of_N 5)
    (f64_of_N 3) (f64_of_N 2) (f64_of_N 10).

Definition selection_priority (p : ContextRankingPrimitives) (reason : SelectionReason) : N :=
  match reason with
  | DirectTarget => direct_target_priority p
  | Caller => caller_priority p
  | Callee => callee_priority p
  | Importer => importer_priority p
  | Importee => importee_priority p
  | TestAdjacent => test_adjacent_priority p
  | ContainmentSibling => containment_sibling_priority p
  | ImpactNeighbor => impact_neighbor_priority p
  end.

Definition kind_boost (p : ContextRankingPrimitives) (kind : NodeKind) : spec_float :=
  match kind with
  | NkFunction | NkMethod => function_kind_boost p
  | NkClass | NkStruct | NkTrait | NkInterface => type_kind_boost p
  | _ => f64_zero
  end.

Definition distance_bonus (p : ContextRankingPrimitives) (distance : N) : spec_float :=
  f64_max (f64_sub (max_distance_bonus p) (f64_mul (f64_of_N distance) (distance_step_penalty p)))
    f64_zero.

(** [to_lowercase] maps no character outside ASCII to a letter of these words. *)
Definition is_public (modifiers : string) : bool :=
  let m := to_ascii_lowercase modifiers in
  contains "pub" m || contains "public" m || contains "export" m.

Definition node_score (p : ContextRankingPrimitives) (node : SelectedNode) (seed_file : string) :
    spec_float :=
  let n := sn_node node in
  let score := f64_of_N (selection_priority p (sn_reason node)) in
  let score := f64_add score (distance_bonus p (sn_distance node)) in
  let score := if String.eqb (n_file_path n) seed_file then f64_add score (same_file_boost p) else score in
  let score :=
    match n_modifiers n with
    | Some mods => if is_public mods then f64_add score (public_api_boost p) else score
    | None => score
    end in
  let score := f64_add score (kind_boost p (n_kind n)) in
  if n_is_test n || bool_decide (n_kind n = NkTest) then f64_sub score (test_node_penalty p) else score.

Definition edge_score (p : ContextRankingPrimitives) (edge : SelectedEdge) : spec_float :=
  f64_add (f64_of_N (selection_priority p (se_reason edge)))
    (f64_mul (f64_of_f32 (e_confidence (se_edge edge))) (f64_of_N 10)).

(** *** Saved sources *)

Record SavedContextRankingPrimitives := mk_saved_primitives {
  rank_divisor : spec_float;
  recent_source_bonus : spec_float;
  same_session_bonus : spec_float
}.

Definition default_saved_ranking : SavedContextRankingPrimitives :=
  mk_saved_primitives (f32_of_N 10) (f32_of_N 5) (f32_of_N 10).

Definition rank_score (p : SavedContextRankingPrimitives) (rank : N) : spec_float :=
  f32_div (rank_divisor p) (f32_add (f32_of_N rank) (f32_of_N 1)).

(** [right.partial_cmp(left).unwrap_or(Equal)]. *)
Definition score_desc (left_score right_score : spec_float) : comparison :=
  partial_cmp_or_equal right_score left_score.

Definition saved_cmp : SavedContextSource → SavedContextSource → comparison :=
  cmp_lex (λ l r, score_desc (sv_score l) (sv_score r)) (cmp_on sv_source_id String.compare).

Definition sort_sources (sources : list SavedContextSource) : list SavedContextSource :=
  sort_by saved_cmp sources.

(** *** Orders *)

Definition compare_node_scores : SelectedNode → SelectedNode → comparison :=
  cmp_lex (λ a b, score_desc (f64_of_f32 (sn_score a)) (f64_of_f32 (sn_score b)))
    (cmp_on (λ n, n_qualified_name (sn_node n)) String.compare).

Definition compare_edge_scores : SelectedEdge → SelectedEdge → comparison :=
  cmp_lex (λ a b, score_desc (f64_of_f32 (se_score a)) (f64_of_f32 (se_score b)))
    (cmp_lex (cmp_on (λ e, e_source_qn (se_edge e)) String.compare)
       (cmp_on (λ e, e_target_qn (se_edge e)) String.compare)).

Definition compare_file_priorities (p : ContextRankingPrimitives) :
    SelectedFile → SelectedFile → comparison :=
  cmp_lex (cmp_rev (cmp_on (λ f, selection_priority p (sf_reason f)) N.compare))
    (cmp_on sf_path String.compare).

(** ** [rank_context] *)

Definition rank_node (seed_file : string) (sn : SelectedNode) : SelectedNode :=
  let score := f32_of_f64 (node_score default_ranking sn seed_file) in
  let evidence := default (from_selection_reason (sn_reason sn)) (sn_evidence sn) in
  let evidence := with_source_kind (default GraphNode (source_kind evidence)) evidence in
  let penalty := f64_mul (distance_step_penalty default_ranking) (f64_of_N (sn_distance sn)) in
  let evidence :=
    if float_gt penalty f64_zero
    then with_scores (base_score evidence) (final_score evidence) (Some (f32_of_f64 penalty))
           (impact_score_contribution evidence) evidence
    else evidence in
  mk_snode (sn_node sn) (sn_reason sn) (sn_distance sn) score (Some (sync_score score evidence)).

Definition rank_edge (se : SelectedEdge) : SelectedEdge :=
  let score := f32_of_f64 (edge_score default_ranking se) in
  let evidence :=
    match se_evidence se with
    | Some evidence => evidence
    | None => with_source_kind GraphEdge (from_selection_reason (se_reason se))
    end in
  let evidence :=
    if bool_decide (source_kind evidence = Some GraphNode)
    then with_source_kind GraphEdge evidence else evidence in
  mk_sedge (se_edge se) (se_reason se) (se_depth se) score (Some (sync_score score evidence)).

(** The file of the first direct target. *)
Definition seed_file_of (ns : list SelectedNode) : string :=
  match List.find (λ n, bool_decide (sn_reason n = DirectTarget)) ns with
  | Some n => n_file_path (sn_node n)
  | None => ""
  end.

Definition rank_context (r : ContextResult) : ContextResult :=
  set_graph (sort_by compare_node_scores (map (rank_node (seed_file_of (nodes r))) (nodes r)))
    (sort_by compare_edge_scores (map rank_edge (edges r)))
    (sort_by (compare_file_priorities default_ranking) (files r)) r.

(** ** [trim_context] *)

Definition DEFAULT_MAX_NODES : N := 50.
Definition DEFAULT_MAX_EDGES : N := 100.
Definition DEFAULT_MAX_FILES : N := 20.

Record TrimmingPrimitives := mk_trimming {
  tp_max_nodes : N;
  tp_max_edges : N;
  tp_max_files : N;
  tp_max_content_assets : option N;
  tp_max_payload_bytes : option N;
  tp_max_payload_tokens : option N
}.

Definition from_request (rq : ContextRequest) : TrimmingPrimitives :=
  mk_trimming (default DEFAULT_MAX_NODES (max_nodes rq)) (default DEFAULT_MAX_EDGES (max_edges rq))
    (default DEFAULT_MAX_FILES (max_files rq)) None None None.

Definition len {A} (l : list A) : N := N.of_nat (length l).
Definition takeN {A} (n : N) (l : list A) : list A := take (N.to_nat n) l.

Definition is_direct (reason : SelectionReason) : bool := bool_decide (reason = DirectTarget).

Definition trim_nodes (rq : ContextRequest) (ns : list SelectedNode) : list SelectedNode :=
  let cap := tp_max_nodes (from_request rq) in
  if (cap <? len ns)%N then
    let targets := filter (λ n, is_direct (sn_reason n)) ns in
    let rest := filter (λ n, negb (is_direct (sn_reason n))) ns in
    let review := match intent rq with Review => true | _ => false end in
    let some_rest := match rest with [] => false | _ => true end in
    let reserve := if review && (1 <? cap)%N && some_rest && (cap <=? len targets)%N then 1%N else 0%N in
    let kept := takeN (cap - reserve) targets in
    kept ++ takeN (cap - len kept) rest
  else ns.

Definition names_of (ns : list SelectedNode) : gset string :=
  list_to_set (map (λ n, n_qualified_name (sn_node n)) ns).

Definition trim_edges (rq : ContextRequest) (ns : list SelectedNode) (es : list SelectedEdge) :
    list SelectedEdge :=
  let remaining := names_of ns in
  let es :=
    filter (λ e, bool_decide (e_source_qn (se_edge e) ∈ remaining) &&
                 bool_decide (e_target_qn (se_edge e) ∈ remaining)) es in
  takeN (tp_max_edges (from_request rq)) es.

Definition trim_files (rq : ContextRequest) (fs : list SelectedFile) : list SelectedFile :=
  let cap := tp_max_files (from_request rq) in
  if (cap <? len fs)%N then
    let targets := filter (λ f, is_direct (sf_reason f)) fs in
    let rest := filter (λ f, negb (is_direct (sf_reason f))) fs in
    targets ++ takeN (cap - len targets) rest
  else fs.

Definition trim_context (r : ContextResult) : ContextResult :=
  let rq := request r in
  let ns := trim_nodes rq (nodes r) in
  let es := trim_edges rq ns (edges r) in
  let fs := trim_files rq (files r) in
  let dn := (len (nodes r) - len ns)%N in
  let de := (len (edges r) - len es)%N in
  let df := (len (files r) - len fs)%N in
  set_truncation (mk_truncation dn de df 0 ((0 <? dn)%N || (0 <? de)%N || (0 <? df)%N) None)
    (set_graph ns es fs r).

(** ** Files and spans *)

(** One entry for the first node of each file. *)
Definition collect_step (files : list SelectedFile) (sn : SelectedNode) : list SelectedFile :=
  let path := n_file_path (sn_node sn) in
  if bool_decide (path ∈ map sf_path files) then files
  else files ++ [mk_sfile path (sn_reason sn) [] (Some (n_language (sn_node sn))) 0].

Definition collect_files (ns : list SelectedNode) : list SelectedFile := foldl collect_step [] ns.

Definition count_of (ns : list SelectedNode) (path : string) : N :=
  len (filter (λ n, String.eqb (n_file_path (sn_node n)) path) ns).

Definition update_file_node_counts (r : ContextResult) : ContextResult :=
  set_graph (nodes r) (edges r)
    (map (λ f, mk_sfile (sf_path f) (sf_reason f) (sf_line_ranges f) (sf_language f)
                 (count_of (nodes r) (sf_path f))) (files r)) r.

(** [u32] addition wraps in the release profile. *)
Definition wadd32 (a b : N) : N := ((a + b) mod (u32_max + 1))%N.

Definition merge_step (st : list (N * N) * (N * N)) (span : N * N) : list (N * N) * (N * N) :=
  let '(merged, (cur_start, cur_end)) := st in
  let (start, last) := span in
  if (start <=? wadd32 cur_end 1)%N then (merged, (cur_start, N.max cur_end last))
  else (merged ++ [(cur_start, cur_end)], (start, last)).

Definition merge_spans (spans : list (N * N)) : list (N * N) :=
  match sort_by (cmp_on fst N.compare) spans with
  | [] => []
  | first :: rest =>
      let (merged, cur) := foldl merge_step ([], first) rest in
      merged ++ [cur]
  end.

Definition has_span (reason : SelectionReason) : bool :=
  match reason with
  | DirectTarget | Caller | Callee | ImpactNeighbor => true
  | _ => false
  end.

Definition span_of (sn : SelectedNode) : N * N :=
  let start := n_line_start (sn_node sn) in (start, N.max (n_line_end (sn_node sn)) start).

(** The entry of a file in the span map. *)
Definition spans_of (ns : list SelectedNode) (path : string) : list (N * N) :=
  map span_of
    (filter (λ n, has_span (sn_reason n) && String.eqb (n_file_path (sn_node n)) path) ns).

Definition apply_code_spans (r : ContextResult) : ContextResult :=
  set_graph (nodes r) (edges r)
    (map (λ f,
        match spans_of (nodes r) (sf_path f) with
        | [] => f
        | spans => mk_sfile (sf_path f) (sf_reason f) (merge_spans spans) (sf_language f) (sf_node_count f)
        end) (files r)) r.

(** ** Lemmas: trimming *)

Lemma len_takeN {A} n (l : list A) : len (takeN n l) = N.min n (len l).
Proof. unfold len, takeN. rewrite length_take. lia. Qed.

Lemma len_app {A} (l k : list A) : len (l ++ k) = (len l + len k)%N.
Proof. unfold len. rewrite length_app. lia. Qed.

Lemma takeN_submseteq {A} n (l : list A) : takeN n l ⊆+ l.
Proof. apply sublist_submseteq, sublist_take. Qed.

Lemma sublist_all {A} (l k : list A) : sublist l k → (length k ≤ length l)%nat → l = k.
Proof.
  induction 1 as [|x l k _ IH|x l k H IH]; simpl; intros Hl; [done|f_equal; apply IH; lia|].
  apply sublist_length in H. lia.
Qed.

Lemma partition_perm {A} (p : A → bool) (l : list A) :
  filter p l ++ filter (λ x, negb (p x)) l ≡ₚ l.
Proof.
  induction l as [|x l IH]; [done|]. rewrite !filter_cons. destruct (p x) eqn:E; simpl.
  - by rewrite IH.
  - by rewrite <-Permutation_middle, IH.
Qed.

Lemma len_partition {A} (p : A → bool) (l : list A) :
  (len (filter p l) + len (filter (λ x, negb (p x)) l) = len l)%N.
Proof. rewrite <-len_app. unfold len. by rewrite partition_perm. Qed.

Lemma trim_nodes_submseteq rq ns : trim_nodes rq ns ⊆+ ns.
Proof.
  unfold trim_nodes. destruct (_ <? _)%N; [|done].
  etrans; [apply submseteq_app; apply takeN_submseteq|].
  apply Permutation_submseteq, (partition_perm (λ n, is_direct (sn_reason n))).
Qed.

Lemma trim_nodes_len rq ns :
  (len (trim_nodes rq ns) = N.min (tp_max_nodes (from_request rq)) (len ns))%N.
Proof.
  unfold trim_nodes. cbv zeta. set (cap := tp_max_nodes _).
  pose proof (len_partition (λ n, is_direct (sn_reason n)) ns) as Hp. cbn beta in Hp.
  set (targets := filter (λ n, is_direct (sn_reason n)) ns) in *.
  set (rest := filter (λ n, negb (is_direct (sn_reason n))) ns) in *.
  destruct (N.ltb_spec cap (len ns)); [|lia].
  set (reserve := if (_ && _ && _ && _) then 1%N else 0%N).
  assert ((reserve = 0 ∨ reserve = 1 ∧ 1 < cap ∧ cap ≤ len targets ∧ 0 < len rest)%N) as Hr.
  { unfold reserve. destruct (_ && _) eqn:E; [right|by left]. split_bools.
    assert (0 < len rest)%N by (destruct rest; [done|]; unfold len; simpl; lia).
    rewrite ?N.ltb_lt, ?N.leb_le in *. done. }
  rewrite len_app, !len_takeN. lia.
Qed.

Lemma trim_files_len rq fs :
  len (trim_files rq fs) =
  (if tp_max_files (from_request rq) <? len fs
   then N.max (tp_max_files (from_request rq)) (len (filter (λ f, is_direct (sf_reason f)) fs))
   else len fs)%N.
Proof.
  unfold trim_files. cbv zeta. set (cap := tp_max_files _).
  pose proof (len_partition (λ f, is_direct (sf_reason f)) fs) as Hp. cbn beta in Hp.
  destruct (N.ltb_spec cap (len fs)); [|done]. rewrite len_app, len_takeN. lia.
Qed.

Lemma trim_files_submseteq rq fs : trim_files rq fs ⊆+ fs.
Proof.
  unfold trim_files. destruct (_ <? _)%N; [|done].
  etrans; [apply submseteq_skips_l, takeN_submseteq|].
  apply Permutation_submseteq, (partition_perm (λ f, is_direct (sf_reason f))).
Qed.

(** Every edge of a context joins nodes of the context. *)
Definition closed (ns : list SelectedNode) (es : list SelectedEdge) : Prop :=
  Forall (λ e, e_source_qn (se_edge e) ∈ names_of ns ∧ e_target_qn (se_edge e) ∈ names_of ns) es.

Lemma trim_edges_closed rq ns es : closed ns (trim_edges rq ns es).
Proof.
  unfold closed, trim_edges, takeN. apply Forall_take, Forall_forall.
  intros e [H _]%list_elem_of_filter. apply Is_true_true, andb_true_iff in H as [H1 H2].
  by rewrite bool_decide_eq_true in H1, H2.
Qed.

Lemma trim_edges_sublist rq ns es : sublist (trim_edges rq ns es) es.
Proof. unfold trim_edges, takeN. etrans; [apply sublist_take|]. apply sublist_filter. Qed.

Lemma trim_edges_len rq ns es : (len (trim_edges rq ns es) ≤ tp_max_edges (from_request rq))%N.
Proof. unfold trim_edges. rewrite len_takeN. lia. Qed.

(** A direct target is dropped only when the targets fill the cap. *)
Lemma trim_nodes_targets rq ns n :
  (len (filter (λ n, is_direct (sn_reason n)) ns) < tp_max_nodes (from_request rq))%N →
  n ∈ ns → sn_reason n = DirectTarget → n ∈ trim_nodes rq ns.
Proof.
  unfold trim_nodes. set (cap := tp_max_nodes _). intros Ht Hn Hd. destruct (_ <? _)%N; [|done].
  rewrite (proj2 (N.leb_gt cap _)) by lia. rewrite !andb_false_r. cbn beta iota zeta.
  rewrite N.sub_0_r. unfold takeN at 1. rewrite take_ge by (unfold len in Ht; lia).
  apply elem_of_app. left. apply list_elem_of_filter. split; [|done].
  unfold is_direct. by rewrite bool_decide_true.
Qed.

Lemma trim_nodes_names rq ns : names_of (trim_nodes rq ns) ⊆ names_of ns.
Proof.
  intros qn. unfold names_of. rewrite !elem_of_list_to_set, !list_elem_of_fmap.
  intros (n & -> & Hn). exists n. split; [done|].
  by apply (elem_of_submseteq _ _ _ Hn), trim_nodes_submseteq.
Qed.

(** ** Lemmas: spans *)

(** A line that some span covers. *)
Definition covers (spans : list (N * N)) (line : N) : Prop :=
  ∃ s e, (s, e) ∈ spans ∧ (s ≤ line ≤ e)%N.

(** Spans in order, with a line between any two. *)
Definition apart (x y : N * N) : Prop := (snd x + 1 < fst y)%N.

Definition well_formed (span : N * N) : Prop := (fst span ≤ snd span < u32_max)%N.

Lemma wadd32_small a : (a < u32_max)%N → wadd32 a 1 = (a + 1)%N.
Proof. intros H. unfold wadd32. apply N.mod_small. lia. Qed.

Lemma covers_app l k line : covers (l ++ k) line ↔ covers l line ∨ covers k line.
Proof. unfold covers. setoid_rewrite elem_of_app. naive_solver. Qed.

Lemma covers_cons s e l line : covers ((s, e) :: l) line ↔ (s ≤ line ≤ e)%N ∨ covers l line.
Proof. unfold covers. setoid_rewrite elem_of_cons. naive_solver. Qed.

Record merge_inv (spans merged : list (N * N)) (cur : N * N) : Prop := {
  mi_cover line : covers (merged ++ [cur]) line ↔ covers spans line;
  mi_apart : StronglySorted apart (merged ++ [cur]);
  mi_wf : Forall well_formed (merged ++ [cur])
}.

Lemma StronglySorted_snoc {A} (R : A → A → Prop) l x :
  StronglySorted R (l ++ [x]) ↔ StronglySorted R l ∧ Forall (λ y, R y x) l.
Proof.
  induction l as [|y l IH]; simpl.
  - split; [intros _; split; constructor|]. intros _. repeat constructor.
  - split.
    + intros [Hs Hy]%StronglySorted_inv. apply IH in Hs as [Hs Hx].
      apply Forall_app in Hy as [Hy Hyx]. apply Forall_cons in Hyx as [Hyx _].
      split; constructor; done.
    + intros [[Hs Hy]%StronglySorted_inv [Hyx Hx]%Forall_cons]. constructor; [by apply IH|].
      apply Forall_app. split; [done|by apply Forall_singleton].
Qed.

Lemma merge_step_inv spans merged cur span :
  merge_inv spans merged cur → well_formed span → (fst cur ≤ fst span)%N →
  let (merged', cur') := merge_step (merged, cur) span in
  merge_inv (spans ++ [span]) merged' cur' ∧ (fst cur' ≤ fst span)%N.
Proof.
  intros [Hc Ha Hw] Hspan Hle. destruct cur as [cs ce], span as [s e]. simpl in *.
  assert (well_formed (cs, ce)) as Hcur by (by apply Forall_app in Hw as [_ [Hw _]%Forall_cons]).
  unfold well_formed in Hcur, Hspan. simpl in *. rewrite wadd32_small by lia.
  destruct (N.leb_spec s (ce + 1)); simpl; split; try done.
  - split.
    + intros line. rewrite (covers_app spans), <-Hc, !covers_app, !covers_cons.
      assert ((cs ≤ line ≤ N.max ce e)%N ↔ (cs ≤ line ≤ ce)%N ∨ (s ≤ line ≤ e)%N) by lia.
      unfold covers. set_solver.
    + apply StronglySorted_snoc in Ha as [Hs Hx]. apply StronglySorted_snoc. done.
    + apply Forall_app in Hw as [Hw _]. apply Forall_app. split; [done|].
      apply Forall_singleton. unfold well_formed. simpl. lia.
  - split.
    + intros line. by rewrite covers_app, (covers_app spans), Hc.
    + apply StronglySorted_snoc. split; [done|]. apply StronglySorted_snoc in Ha as [Hs Hx].
      apply Forall_app. split.
      * eapply Forall_impl; [exact Hx|]. unfold apart. simpl. lia.
      * apply Forall_singleton. unfold apart. simpl. lia.
    + apply Forall_app. split; [done|]. by apply Forall_singleton.
Qed.

Lemma merge_spans_spec spans :
  Forall well_formed spans →
  (∀ line, covers (merge_spans spans) line ↔ covers spans line) ∧
  StronglySorted apart (merge_spans spans) ∧ Forall well_formed (merge_spans spans).
Proof.
  intros Hw. unfold merge_spans.
  pose proof (sort_by_perm (cmp_on fst N.compare) spans) as Hperm.
  pose proof (sort_by_sorted (cmp_on fst N.compare) spans) as Hsort.
  assert (∀ line, covers (sort_by (cmp_on fst N.compare) spans) line ↔ covers spans line) as Hcov.
  { intros line. unfold covers. by setoid_rewrite Hperm. }
  rewrite <-Hperm in Hw. setoid_rewrite <-Hcov. clear Hcov Hperm.
  destruct (sort_by (cmp_on fst N.compare) spans) as [|first rest]; [split_and!; (done || constructor)|].
  apply Forall_cons in Hw as [Hf Hw]. apply StronglySorted_inv in Hsort as [Hs Hle].
  assert (∀ rest spans merged cur, merge_inv spans merged cur → Forall well_formed rest →
    StronglySorted (λ x y, leb_of (cmp_on fst N.compare) x y = true) rest →
    Forall (λ y, fst cur ≤ fst y)%N rest →
    let (merged', cur') := foldl merge_step (merged, cur) rest in
    merge_inv (spans ++ rest) merged' cur') as H.
  { clear. induction rest as [|span rest IH]; intros spans merged cur Hi Hw Hs Hle.
    { simpl. by rewrite app_nil_r. }
    apply Forall_cons in Hw as [Hw1 Hw]. apply Forall_cons in Hle as [Hle1 _].
    apply StronglySorted_inv in Hs as [Hs Hx]. cbn [foldl].
    pose proof (merge_step_inv spans merged cur span Hi Hw1 Hle1) as Hstep.
    destruct (merge_step (merged, cur) span) as [merged' cur']. destruct Hstep as [Hi' Hle'].
    replace (spans ++ span :: rest) with ((spans ++ [span]) ++ rest) by (by rewrite <-app_assoc).
    apply IH; [done..|]. eapply Forall_impl; [exact Hx|]. intros y Hy.
    unfold leb_of, cmp_on in Hy. destruct (N.compare_spec (fst span) (fst y)); try done; lia. }
  specialize (H rest [first] [] first). destruct (foldl merge_step ([], first) rest) as [merged cur].
  destruct H as [H1 H2 H3].
  - split; [done|repeat constructor|by constructor].
  - done.
  - done.
  - eapply Forall_impl; [exact Hle|]. intros y Hy. unfold leb_of, cmp_on in Hy.
    destruct (N.compare_spec (fst first) (fst y)); try done; lia.
  - done.
Qed.

(** ** Lemmas: ranking *)

Lemma node_score_number sn seed : is_nan (node_score default_ranking sn seed) = false.
Proof.
  unfold node_score.
  assert (∀ b x y, is_nan x = false → is_finite y = true →
    is_nan (if b : bool then f64_add x y else x) = false) as Hif.
  { intros [] x y Hx Hy; [by apply f64_add_number|done]. }
  assert (∀ b x y, is_nan x = false → is_finite y = true →
    is_nan (if b : bool then f64_sub x y else x) = false) as Hsub.
  { intros [] x y Hx Hy; [by apply f64_sub_number|done]. }
  apply Hsub; [|done]. apply f64_add_number; [|by destruct (n_kind _)].
  assert (is_nan (f64_add (f64_of_N (selection_priority default_ranking (sn_reason sn)))
    (distance_bonus default_ranking (sn_distance sn))) = false) as H1.
  { unfold distance_bonus.
    pose proof (f64_max_number (f64_sub (max_distance_bonus default_ranking)
      (f64_mul (f64_of_N (sn_distance sn)) (distance_step_penalty default_ranking)))
      f64_zero eq_refl) as Hm.
    set (b := f64_max _ _) in *. unfold f64_add.
    destruct (sn_reason sn), b as [[]|[]| |[] m e]; try done; apply binary_normalize_number. }
  destruct (n_modifiers _) as [mods|]; [|by apply Hif]. apply Hif; [|done]. by apply Hif.
Qed.

(** The order of the ranked nodes by the keys of their scores. *)
Definition node_rank_cmp : SelectedNode → SelectedNode → comparison :=
  cmp_lex (cmp_rev (cmp_on (λ n, float_key (f64_of_f32 (sn_score n))) key_compare))
    (cmp_on (λ n, n_qualified_name (sn_node n)) String.compare).

#[export] Instance node_rank_cmp_total : TotalCmp node_rank_cmp.
Proof. unfold node_rank_cmp. apply _. Qed.

Lemma score_desc_key x y :
  is_nan x = false → is_nan y = false →
  score_desc x y = CompOpp (key_compare (float_key x) (float_key y)).
Proof.
  intros Hx Hy. unfold score_desc. rewrite float_compare_key by done.
  apply (cmp_opp key_compare).
Qed.

Lemma compare_node_scores_rank a b :
  is_nan (sn_score a) = false → is_nan (sn_score b) = false →
  compare_node_scores a b = node_rank_cmp a b.
Proof.
  intros Ha Hb. unfold compare_node_scores, node_rank_cmp, cmp_lex.
  by rewrite score_desc_key by (by apply f64_of_f32_number).
Qed.

Lemma rank_node_number seed sn : is_nan (sn_score (rank_node seed sn)) = false.
Proof. apply f32_of_f64_number, node_score_number. Qed.

Lemma rank_nodes_sort seed ns :
  sort_by compare_node_scores (map (rank_node seed) ns) =
  sort_by node_rank_cmp (map (rank_node seed) ns).
Proof.
  apply sort_by_ext. intros x y (n & -> & _)%list_elem_of_fmap (m & -> & _)%list_elem_of_fmap.
  apply compare_node_scores_rank; apply rank_node_number.
Qed.

Lemma seed_file_spec ns :
  match List.find (λ n, bool_decide (sn_reason n = DirectTarget)) ns with
  | Some n => n ∈ ns ∧ sn_reason n = DirectTarget ∧ seed_file_of ns = n_file_path (sn_node n)
  | None => seed_file_of ns = "" ∧ ∀ n, n ∈ ns → sn_reason n ≠ DirectTarget
  end.
Proof.
  unfold seed_file_of.
  destruct (List.find _ ns) as [n|] eqn:E.
  - apply List.find_some in E as [Hin Hd]. apply bool_decide_eq_true in Hd.
    split_and!; [by apply list_elem_of_In|done|done].
  - split; [done|]. intros n Hn Hd.
    pose proof (List.find_none _ _ E n (proj1 (list_elem_of_In _ _) Hn)) as H. simpl in H.
    by apply bool_decide_eq_false in H.
Qed.

(** ** Properties *)

(** Ranking scores every node and edge, drops none, and puts the nodes in order: no node
    stands behind one of a lower score, and equal scores are ordered by name; no score is
    ever outside the numbers, whatever the distances and modifiers. The files are ordered
    by the priority of their reason, then by path. *)
Theorem rank_context_sorted (r : ContextResult) :
  nodes (rank_context r) ≡ₚ map (rank_node (seed_file_of (nodes r))) (nodes r) ∧
  edges (rank_context r) ≡ₚ map rank_edge (edges r) ∧
  files (rank_context r) ≡ₚ files r ∧
  Forall (λ n, is_nan (sn_score n) = false) (nodes (rank_context r)) ∧
  StronglySorted (λ a b, compare_node_scores a b ≠ Gt) (nodes (rank_context r)) ∧
  sorted_by (compare_file_priorities default_ranking) (files (rank_context r)).
Proof.
  assert (Forall (λ n, is_nan (sn_score n) = false) (nodes (rank_context r))) as Hn.
  { simpl. rewrite Forall_forall. intros x. rewrite rank_nodes_sort, sort_by_elem.
    intros (n & -> & _)%list_elem_of_fmap. apply rank_node_number. }
  split_and!; try done; simpl.
  - rewrite rank_nodes_sort. apply sort_by_perm.
  - apply (sort_by_perm compare_edge_scores).
  - apply sort_by_perm.
  - simpl in Hn. rewrite rank_nodes_sort in *.
    pose proof (sort_by_sorted node_rank_cmp (map (rank_node (seed_file_of (nodes r))) (nodes r))) as Hs.
    rewrite Forall_forall in Hn. revert Hn.
    induction Hs as [|a l _ IH Ha]; intros Hn; constructor.
    + apply IH. intros x Hx. apply Hn. by constructor.
    + rewrite Forall_forall in *. intros b Hb.
      rewrite compare_node_scores_rank by (apply Hn; set_solver).
      specialize (Ha b Hb). unfold leb_of in Ha. by destruct (node_rank_cmp a b).
  - apply (sort_by_sorted (compare_file_priorities default_ranking)).
Qed.

(** Trimming keeps a context within the caps of its request: exactly the node cap is
    kept when there are more nodes, the direct targets first, and no direct target is
    dropped unless the targets fill the cap; the edges stay within their cap, and every one
    that is kept joins two kept nodes; of the files as many are kept as the cap or the
    direct targets' files ask for, so the file cap alone may be exceeded. The report counts
    what was dropped. *)
Theorem trim_context_bounds (r : ContextResult) :
  let r' := trim_context r in
  let caps := from_request (request r) in
  nodes r' ⊆+ nodes r ∧ sublist (edges r') (edges r) ∧ files r' ⊆+ files r ∧
  len (nodes r') = N.min (tp_max_nodes caps) (len (nodes r)) ∧
  (len (edges r') ≤ tp_max_edges caps)%N ∧
  len (files r') =
    (if tp_max_files caps <? len (files r)
     then N.max (tp_max_files caps) (len (filter (λ f, is_direct (sf_reason f)) (files r)))
     else len (files r))%N ∧
  closed (nodes r') (edges r') ∧
  ((len (filter (λ n, is_direct (sn_reason n)) (nodes r)) < tp_max_nodes caps)%N →
   ∀ n, n ∈ nodes r → sn_reason n = DirectTarget → n ∈ nodes r') ∧
  (nodes_dropped (truncation r') + len (nodes r') = len (nodes r))%N ∧
  (edges_dropped (truncation r') + len (edges r') = len (edges r))%N ∧
  (files_dropped (truncation r') + len (files r') = len (files r))%N ∧
  (truncated (truncation r') = false →
   nodes r' ≡ₚ nodes r ∧ edges r' = edges r ∧ files r' ≡ₚ files r).
Proof.
  intros r' caps.
  pose proof (trim_nodes_submseteq (request r) (nodes r)) as H1.
  pose proof (trim_edges_sublist (request r) (nodes r') (edges r)) as H2.
  pose proof (trim_files_submseteq (request r) (files r)) as H3.
  assert (∀ {A} (l k : list A), l ⊆+ k → (len l ≤ len k)%N) as Hlen.
  { intros A l k H. apply submseteq_length in H. unfold len. lia. }
  pose proof (Hlen _ _ _ H1) as L1. pose proof (Hlen _ _ _ (sublist_submseteq _ _ H2)) as L2.
  pose proof (Hlen _ _ _ H3) as L3.
  assert (∀ {A} (l k : list A), l ⊆+ k → (len k ≤ len l)%N → l ≡ₚ k) as Heq.
  { intros A l k H Hl. apply submseteq_length_Permutation; [done|]. unfold len in Hl. lia. }
  unfold r'. cbn [trim_context set_truncation set_graph nodes edges files truncation nodes_dropped
    edges_dropped files_dropped truncated].
  split_and!; try done.
  - apply trim_nodes_len.
  - apply trim_edges_len.
  - apply trim_files_len.
  - apply trim_edges_closed.
  - intros Ht n Hn Hd. by apply trim_nodes_targets.
  - lia.
  - unfold r' in L2. simpl in L2. lia.
  - lia.
  - intros Hf. rewrite !orb_false_iff, !N.ltb_ge in Hf. unfold r' in L2, H2. simpl in L2, H2.
    split_and!; [apply Heq; [done|lia]| |apply Heq; [done|lia]].
    apply sublist_all; [done|]. unfold len in *. lia.
Qed.

(** The line ranges of a file in a context cover exactly the lines of the selected
    nodes that ask for code, in order, disjoint and with a line between any two; a file
    without such nodes keeps its ranges. Line numbers are below the largest [u32]. *)
Theorem code_spans_exact (r : ContextResult) :
  Forall (λ n, n_line_start (sn_node n) < u32_max ∧ n_line_end (sn_node n) < u32_max)%N (nodes r) →
  Forall2 (λ f f',
      sf_path f' = sf_path f ∧ sf_node_count f' = sf_node_count f ∧
      match spans_of (nodes r) (sf_path f) with
      | [] => f' = f
      | _ =>
          StronglySorted apart (sf_line_ranges f') ∧
          ∀ line, covers (sf_line_ranges f') line ↔
            ∃ n, n ∈ nodes r ∧ has_span (sn_reason n) = true ∧ n_file_path (sn_node n) = sf_path f ∧
              (n_line_start (sn_node n) ≤ line ≤
                 N.max (n_line_end (sn_node n)) (n_line_start (sn_node n)))%N
      end)
    (files r) (files (apply_code_spans r)).
Proof.
  intros Hlines. simpl. apply Forall2_fmap_r, Forall_Forall2_diag, Forall_forall. intros f _.
  unfold compose.
  assert (Forall well_formed (spans_of (nodes r) (sf_path f))) as Hw.
  { unfold spans_of. apply Forall_fmap, Forall_forall. intros n [_ Hn]%list_elem_of_filter.
    rewrite Forall_forall in Hlines. destruct (Hlines n Hn). unfold well_formed. simpl. lia. }
  assert (∀ line, covers (spans_of (nodes r) (sf_path f)) line ↔
    ∃ n, n ∈ nodes r ∧ has_span (sn_reason n) = true ∧ n_file_path (sn_node n) = sf_path f ∧
      (n_line_start (sn_node n) ≤ line ≤
         N.max (n_line_end (sn_node n)) (n_line_start (sn_node n)))%N) as Hcov.
  { intros line. unfold covers, spans_of. setoid_rewrite list_elem_of_fmap.
    setoid_rewrite list_elem_of_filter. split.
    - intros (s & e & (n & [= -> ->] & [Hp Hn]) & Hl).
      apply Is_true_true, andb_true_iff in Hp as [Hr Hp%String.eqb_eq]. eauto.
    - intros (n & Hn & Hr & Hp & Hl). eexists _, _. split; [|exact Hl]. exists n.
      split; [done|]. split; [|done]. apply Is_true_true. by rewrite Hr, Hp, String.eqb_refl. }
  pose proof (merge_spans_spec _ Hw) as (Hc & Ha & _).
  revert Hcov Hc Ha. destruct (spans_of (nodes r) (sf_path f)) as [|s spans].
  { intros _ _ _. by split_and!. }
  intros Hcov Hc Ha. cbn [sf_path sf_node_count sf_line_ranges]. split_and!; [done|done|done|].
  intros line. by rewrite Hc, Hcov.
Qed.

(** ** A run *)

Definition span_node (name : string) (first last : N) (reason : SelectionReason) : SelectedNode :=
  mk_snode (mk_node 1 NkFunction name name "src/lib.rs" first last "rust" None None None None false "")
    reason 0 f32_1 None.

Definition span_result : ContextResult :=
  mk_result default_request
    [span_node "a" 10 20 DirectTarget; span_node "b" 15 30 Caller; span_node "c" 31 33 Callee;
     span_node "d" 40 50 Callee; span_node "t" 60 70 TestAdjacent]
    [] [mk_sfile "src/lib.rs" DirectTarget [] None 5] [] truncation_none [] None None None []
    not_applicable.

Lemma code_spans_exact_witness :
  map sf_line_ranges (files (apply_code_spans span_result)) = [[(10, 33); (40, 50)]]%N ∧
  Forall2 (λ f f', sf_path f' = sf_path f) (files span_result) (files (apply_code_spans span_result)).
Proof.
  split; [vm_compute; reflexivity|].
  refine (Forall2_impl _ _ _ _ (code_spans_exact span_result _) _).
  - repeat constructor.
  - intros f f' [H _]. exact H.
Defined.
