(* ===== verification/ContextWorkflow.v ===== *)
(** * Review contexts: workflow summaries

    Model of [packages/atlas-review/src/context/workflow.rs]: the headline, the components,
    the call chains and the ripple effects derived from a selected context. The iteration
    order of hash sets and the string entries of a node's metadata are parameters. *)

From Stdlib Require Import Floats.SpecFloat.
From S2P Require Import Prelude RustStr RustFloat Budget Kinds Graph ContextData ContextRank.

(** ** Components *)

Definition parent_dir (path : string) : string :=
  match rfind_sub "/" path with
  | Some index => str_take index path
  | None => ""
  end.

Definition component_labels_for_node (node : Node) : list string :=
  let path := n_file_path node in
  let name := n_name node in
  let starts p := starts_with p path in
  let has p := contains p path in
  let ends p := ends_with p path in
  let label (predicate : bool) (l : string) : list string := if predicate then [l] else [] in
  dedup_by_key id (sort_by String.compare
    (label (starts "packages/atlas-cli/") "cli" ++
     label (starts "packages/atlas-mcp/" || String.eqb path "MCP_TOOLS.md") "mcp" ++
     label (starts "packages/atlas-repo/") "repo_scan" ++
     label (starts "packages/atlas-parser/") "parse" ++
     label (starts "packages/atlas-store-sqlite/" || starts "packages/atlas-db-utils/")
       "persist_graph" ++
     label (starts "packages/atlas-engine/" || has "/update.rs" || has "/watch.rs" ||
            has "postprocess") "incremental_update" ++
     label (starts "packages/atlas-search/" || has "query" || has "traverse") "search_traverse" ++
     label (starts "packages/atlas-review/" || has "review" || ends "changes.rs" ||
            ends "context_cmd.rs") "review_context" ++
     label (starts "packages/atlas-contextsave/" || starts "packages/atlas-contentstore/")
       "context_memory" ++
     label (starts "packages/atlas-session/" || starts "packages/atlas-agent-events/" ||
            has "session" || has "wake_up") "session_continuity" ++
     label (starts "schemas/" || starts ".atlas/" || ends ".toml" || ends ".yaml" || ends ".yml" ||
            ends ".json") "config" ++
     label (has "health" || has "doctor" || has "db_check" || has "debug_graph" || has "status" ||
            contains "doctor" name || contains "status" name) "diagnostics" ++
     label (starts "tests/" || has "/tests/" || ends "_test.rs" || ends "tests.rs") "tests" ++
     label (starts "docs/" || starts "wiki/" || ends ".md") "docs")).

(** Changed nodes, impacted nodes and files of a component. *)
Abbreviation Tally := (N * N * gset string)%type.

Section workflow.
(** [extra_json.as_object().get(key)], a string or not, and whether the key is there. *)
Context (extra_str : Node → string → option string) (extra_has : Node → string → bool).
Context (set_order : gset string → list string).

Definition component_identity (node : Node) : string * string :=
  let path :=
    if extra_has node "owner_manifest_path" then extra_str node "owner_manifest_path"
    else extra_str node "workspace_manifest_path" in
  let directory :=
    let dir := parent_dir (n_file_path node) in
    if str_is_empty dir then ("file", n_file_path node) else ("directory", dir) in
  match path with
  | Some path => if str_is_empty path then directory else ("package", path)
  | None => directory
  end.

Definition identities (node : Node) : list (string * string) :=
  component_identity node :: map (λ l, ("component_label", l)) (component_labels_for_node node).

Definition tally_one (sn : SelectedNode) (m : gmap (string * string) Tally) (key : string * string) :
    gmap (string * string) Tally :=
  let '(changed, impacted, fs) := default (0%N, 0%N, ∅) (m !! key) in
  let fs := {[n_file_path (sn_node sn)]} ∪ fs in
  <[key := if is_direct (sn_reason sn) then ((changed + 1)%N, impacted, fs)
           else (changed, (impacted + 1)%N, fs)]> m.

Definition component_map (ns : list SelectedNode) : gmap (string * string) Tally :=
  foldl (λ m sn, foldl (tally_one sn) m (identities (sn_node sn))) ∅ ns.

Definition component_of (entry : (string * string) * Tally) : WorkflowComponent :=
  let '((kind, label), (changed, impacted, fs)) := entry in
  let count := N.of_nat (size fs) in
  mk_component label kind changed impacted count
    (show_N changed +:+ " changed, " +:+ show_N impacted +:+ " impacted across " +:+
       show_N count +:+ " file(s)").

Definition component_cmp : WorkflowComponent → WorkflowComponent → comparison :=
  cmp_lex (cmp_rev (cmp_on (λ c, changed_node_count c + impacted_node_count c)%N N.compare))
    (cmp_lex (cmp_on wc_label String.compare) (cmp_on wc_kind String.compare)).

Definition build_impacted_components (ns : list SelectedNode) : list WorkflowComponent :=
  take 6 (sort_by component_cmp (map component_of (map_to_list (component_map ns)))).

(** ** Call chains *)

Definition chain_of (qns : list string) (kinds : list string) : WorkflowCallChain :=
  mk_chain (join " -> " qns) qns kinds.

(** [seen.insert(key)], then the push. *)
Definition push_chain (chains : list (spec_float * WorkflowCallChain))
    (c : spec_float * WorkflowCallChain) : list (spec_float * WorkflowCallChain) :=
  if bool_decide (chain_summary (snd c) ∈ map (λ d, chain_summary (snd d)) chains) then chains
  else chains ++ [c].

Definition kind_of (e : SelectedEdge) : string := EdgeKind_as_str (e_kind (se_edge e)).
Definition source_of (e : SelectedEdge) : string := e_source_qn (se_edge e).
Definition target_of (e : SelectedEdge) : string := e_target_qn (se_edge e).

(** The candidates of a direct target: through it, then the edges at it. *)
Definition chains_of (calls : list SelectedEdge) (target : string) :
    list (spec_float * WorkflowCallChain) :=
  let ins := filter (λ e, String.eqb (target_of e) target) calls in
  let outs := filter (λ e, String.eqb (source_of e) target) calls in
  concat (map (λ i, map (λ o,
      (f32_add (se_score i) (se_score o),
       chain_of [source_of i; target; target_of o] [kind_of i; kind_of o])) (take 3 outs)) (take 3 ins)) ++
  map (λ e, (se_score e, chain_of [source_of e; target_of e] [kind_of e]))
    (filter (λ e, String.eqb (source_of e) target || String.eqb (target_of e) target) calls).

Definition chain_cmp : spec_float * WorkflowCallChain → spec_float * WorkflowCallChain → comparison :=
  cmp_lex (λ a b, score_desc (fst a) (fst b)) (cmp_on (λ c, chain_summary (snd c)) String.compare).

Definition call_edges (es : list SelectedEdge) : list SelectedEdge :=
  filter (λ e, bool_decide (e_kind (se_edge e) = EkCalls)) es.

Definition direct_names (ns : list SelectedNode) : gset string :=
  names_of (filter (λ n, is_direct (sn_reason n)) ns).

Definition build_call_chains (r : ContextResult) : list WorkflowCallChain :=
  let calls := call_edges (edges r) in
  let chains := foldl push_chain []
    (concat (map (chains_of calls) (set_order (direct_names (nodes r))))) in
  take 5 (map snd (sort_by chain_cmp chains)).

(** ** The summary *)

Definition build_ripple_effects (r : ContextResult) (components : list WorkflowComponent)
    (chains : list WorkflowCallChain) : list string :=
  let spans :=
    if (1 <? length components)%nat
    then ["Impact spans " +:+ show_nat (length components) +:+ " components: " +:+
            join ", " (map wc_label (take 3 components))]
    else [] in
  let primary :=
    match chains with
    | c :: _ => ["Primary call chain: " +:+ chain_summary c]
    | [] => []
    end in
  let neighbours : gset string :=
    list_to_set (map (λ n, n_file_path (sn_node n))
      (filter (λ n, negb (is_direct (sn_reason n))) (nodes r))) in
  let reach :=
    if bool_decide (neighbours = ∅) then []
    else ["Change reaches " +:+ show_nat (size neighbours) +:+ " neighboring file(s)."] in
  match spans ++ primary ++ reach with
  | [] => ["Impact remains local to selected nodes."]
  | effects => effects
  end.

Definition build_workflow_headline (r : ContextResult) (components : list WorkflowComponent)
    (chains : list WorkflowCallChain) : option string :=
  let direct := len (filter (λ n, is_direct (sn_reason n)) (nodes r)) in
  let component_count := show_nat (length components) in
  let chain_count := show_nat (length chains) in
  Some
    match intent (request r) with
    | Review =>
        show_N direct +:+ " changed node(s), " +:+ component_count +:+ " component(s), " +:+
          chain_count +:+ " call chain(s)"
    | Impact | ImpactAnalysis =>
        "Impact reaches " +:+ show_N (len (nodes r)) +:+ " node(s) across " +:+
          component_count +:+ " component(s)"
    | UsageLookup =>
        show_N (len (nodes r) - direct) +:+ " usage node(s) surfaced, " +:+ chain_count +:+
          " chain(s)"
    | _ =>
        show_N (len (nodes r)) +:+ " focused node(s) across " +:+ component_count +:+
          " component(s)"
    end.

Definition build_noise_reduction_summary (r : ContextResult) : NoiseReductionSummary :=
  let rq := request r in
  let rule (applies : bool) (text : string) : list string := if applies then [text] else [] in
  mk_noise (len (nodes r)) (len (edges r)) (len (files r)) (nodes_dropped (truncation r))
    (edges_dropped (truncation r)) (files_dropped (truncation r))
    (rule (negb (include_neighbors rq)) "omitted containment siblings" ++
     rule (negb (include_tests rq)) "omitted test-only neighbors" ++
     rule (negb (include_imports rq)) "omitted import neighbors" ++
     rule (negb (include_callers rq)) "omitted caller expansion" ++
     rule (negb (include_callees rq)) "omitted callee expansion" ++
     rule (truncated (truncation r)) "trimmed low-signal nodes and edges to requested caps").

Definition build_workflow_summary (r : ContextResult) : WorkflowSummary :=
  let focus := map (λ sn,
      mk_focus (n_qualified_name (sn_node sn)) (NodeKind_as_str (n_kind (sn_node sn)))
        (n_file_path (sn_node sn)) (sn_score sn) (SelectionReason_as_str (sn_reason sn)))
    (take 5 (nodes r)) in
  let components := build_impacted_components (nodes r) in
  let chains := build_call_chains r in
  mk_workflow (build_workflow_headline r components chains) focus components chains
    (build_ripple_effects r components chains) (build_noise_reduction_summary r).
End workflow.

(** ** Lemmas: components *)

Section workflow_lemmas.
Context (extra_str : Node → string → option string) (extra_has : Node → string → bool).
Context (set_order : gset string → list string).

Abbreviation identities := (identities extra_str extra_has).
Abbreviation component_map := (component_map extra_str extra_has).

Lemma labels_NoDup node : NoDup (component_labels_for_node node).
Proof.
  unfold component_labels_for_node.
  match goal with |- NoDup (dedup_by_key _ (sort_by _ ?l)) =>
    pose proof (dedup_by_key_sorted id String.compare) as H;
    specialize (H ltac:(intros x y; unfold id; split; [apply String.compare_eq_iff|intros ->; apply (cmp_refl String.compare)])
      (sort_by String.compare l) (sort_by_sorted String.compare l)) end.
  induction H as [|x l Hs IH Hx]; constructor; [|done].
  rewrite Forall_forall in Hx. intros Hin. specialize (Hx x Hin).
  by rewrite (cmp_refl String.compare) in Hx.
Qed.

Lemma identity_kind node : fst (component_identity extra_str extra_has node) ≠ "component_label".
Proof. unfold component_identity. repeat case_match; done. Qed.

Lemma identities_NoDup node : NoDup (identities node).
Proof.
  unfold ContextWorkflow.identities. constructor.
  - intros (l & Hl & _)%list_elem_of_fmap. apply (identity_kind node). by rewrite Hl.
  - apply NoDup_fmap; [intros ? ? [= ->]; done|]. apply labels_NoDup.
Qed.

(** One more member of a component. *)
Definition bump (sn : SelectedNode) (t : Tally) : Tally :=
  let '(changed, impacted, fs) := t in
  let fs := {[n_file_path (sn_node sn)]} ∪ fs in
  if is_direct (sn_reason sn) then ((changed + 1)%N, impacted, fs)
  else (changed, (impacted + 1)%N, fs).

Lemma tally_lookup sn keys key : NoDup keys → ∀ m,
  foldl (tally_one sn) m keys !! key =
  if bool_decide (key ∈ keys) then Some (bump sn (default (0%N, 0%N, ∅) (m !! key))) else m !! key.
Proof.
  induction 1 as [|k keys Hk Hnd IH]; intros m; cbn [foldl]; [done|]. rewrite IH.
  assert (tally_one sn m k = <[k := bump sn (default (0%N, 0%N, ∅) (m !! k))]> m) as ->.
  { unfold tally_one, bump. by destruct (default _ _) as [[? ?] ?]. }
  destruct (decide (key = k)) as [->|Hne].
  - rewrite (bool_decide_eq_false_2 (k ∈ keys)) by done.
    rewrite bool_decide_eq_true_2 by constructor. by rewrite lookup_insert_eq.
  - rewrite lookup_insert_ne by done.
    rewrite (bool_decide_ext (key ∈ k :: keys) (key ∈ keys)); [done|]. rewrite elem_of_cons. naive_solver.
Qed.

(** The members of a component. *)
Definition members (key : string * string) (ns : list SelectedNode) : list SelectedNode :=
  filter (λ sn, bool_decide (key ∈ identities (sn_node sn))) ns.

Definition tally_of (ns : list SelectedNode) : Tally :=
  (len (filter (λ n, is_direct (sn_reason n)) ns),
   len (filter (λ n, negb (is_direct (sn_reason n))) ns),
   list_to_set (map (λ n, n_file_path (sn_node n)) ns)).

Lemma tally_snoc ns sn : tally_of (ns ++ [sn]) = bump sn (tally_of ns).
Proof.
  unfold tally_of, bump. rewrite !filter_app, !len_app, !filter_cons, !filter_nil, map_app, list_to_set_app_L.
  simpl. rewrite union_empty_r_L, (union_comm_L (list_to_set _)).
  destruct (is_direct (sn_reason sn)); simpl; by rewrite ?N.add_0_r.
Qed.

Lemma component_map_lookup ns key :
  component_map ns !! key =
  match members key ns with [] => None | _ => Some (tally_of (members key ns)) end.
Proof.
  unfold ContextWorkflow.component_map. induction ns as [|sn ns IH] using rev_ind; [done|].
  rewrite foldl_app. cbn [foldl]. rewrite (tally_lookup sn _ key (identities_NoDup _)), IH.
  unfold members. rewrite filter_app, filter_cons, filter_nil.
  destruct (bool_decide (key ∈ identities (sn_node sn))) eqn:Hk; simpl; [|by rewrite app_nil_r].
  fold (members key ns). rewrite tally_snoc. by destruct (members key ns).
Qed.

(** ** Lemmas: call chains *)

Definition call_edge (r : ContextResult) (e : SelectedEdge) : Prop :=
  e ∈ edges r ∧ e_kind (se_edge e) = EkCalls.

Definition direct_name (r : ContextResult) (qn : string) : Prop :=
  ∃ n, n ∈ nodes r ∧ sn_reason n = DirectTarget ∧ n_qualified_name (sn_node n) = qn.

(** A chain of calls of the context: through a direct target, or a call at one. *)
Definition real_chain (r : ContextResult) (c : WorkflowCallChain) : Prop :=
  (∃ i o, call_edge r i ∧ call_edge r o ∧ target_of i = source_of o ∧ direct_name r (target_of i) ∧
    c = chain_of [source_of i; target_of i; target_of o] ["calls"; "calls"]) ∨
  (∃ e, call_edge r e ∧ (direct_name r (source_of e) ∨ direct_name r (target_of e)) ∧
    c = chain_of [source_of e; target_of e] ["calls"]).

Lemma direct_names_spec r qn : qn ∈ direct_names (nodes r) ↔ direct_name r qn.
Proof.
  unfold direct_names, names_of, direct_name. rewrite elem_of_list_to_set, list_elem_of_fmap.
  setoid_rewrite list_elem_of_filter. split.
  - intros (n & -> & Hd & Hn). exists n. split_and!; [done| |done].
    apply Is_true_true in Hd. by apply bool_decide_eq_true in Hd.
  - intros (n & Hn & Hd & <-). exists n. split_and!; [done| |done]. by rewrite Hd.
Qed.

Lemma call_edges_spec r e : e ∈ call_edges (edges r) ↔ call_edge r e.
Proof.
  unfold call_edges, call_edge. rewrite list_elem_of_filter. split.
  - intros [H He]. apply Is_true_true in H. apply bool_decide_eq_true in H. done.
  - intros [He Hk]. by rewrite Hk.
Qed.

Lemma in_take {A} n (l : list A) x : x ∈ take n l → x ∈ l.
Proof. intros H. rewrite <-(take_drop n l), elem_of_app. by left. Qed.

Lemma call_kind r e : call_edge r e → kind_of e = "calls".
Proof. intros [_ Hk]. unfold kind_of. by rewrite Hk. Qed.

Lemma chains_of_real r target s c :
  direct_name r target → (s, c) ∈ chains_of (call_edges (edges r)) target → real_chain r c.
Proof.
  intros Hd [H|H]%elem_of_app.
  - left. apply list_elem_of_In, in_concat in H as (l & Hl & Hc).
    apply list_elem_of_In, list_elem_of_fmap in Hl as (i & -> & Hi).
    apply list_elem_of_In, list_elem_of_fmap in Hc as (o & [= -> ->] & Ho).
    apply in_take, list_elem_of_filter in Hi as [Hi1 Hi].
    apply in_take, list_elem_of_filter in Ho as [Ho1 Ho].
    apply Is_true_true, String.eqb_eq in Hi1, Ho1. apply call_edges_spec in Hi, Ho. subst target.
    exists i, o. split_and!; [done..|]. by rewrite (call_kind r i), (call_kind r o).
  - right. apply list_elem_of_fmap in H as (e & [= -> ->] & [He He2]%list_elem_of_filter).
    apply call_edges_spec in He2. apply Is_true_true, orb_true_iff in He.
    exists e. split_and!; [done| |by rewrite (call_kind r e)].
    destruct He as [<-%String.eqb_eq|<-%String.eqb_eq]; auto.
Qed.

Lemma push_chain_spec chains x :
  (chain_summary (snd x) ∈ map (chain_summary ∘ snd) chains ∧ push_chain chains x = chains) ∨
  ((chain_summary (snd x) ∉ map (chain_summary ∘ snd) chains) ∧ push_chain chains x = chains ++ [x]).
Proof. unfold push_chain. case_bool_decide; [left|right]; done. Qed.

(** ** Properties *)

(** The components of a context count exactly: a component is there when some selected
    node belongs to it, and then it has the number of its direct targets, the number of its
    other nodes and the set of its nodes' files. *)
Theorem components_exact ns key :
  component_map ns !! key =
  match members key ns with
  | [] => None
  | mine => Some (len (filter (λ n, is_direct (sn_reason n)) mine),
                  len (filter (λ n, negb (is_direct (sn_reason n))) mine),
                  list_to_set (map (λ n, n_file_path (sn_node n)) mine))
  end.
Proof. rewrite component_map_lookup. by destruct (members key ns). Qed.

(** C40. Every call chain of a summary is real: its steps are joined by call edges of the
    context, through a direct target or at one; at most five are shown, and no two of
    them read the same. Hash sets are iterated over their elements, in any order. *)
Theorem call_chains_real r :
  (∀ (s : gset string) x, x ∈ set_order s → x ∈ s) →
  Forall (real_chain r) (build_call_chains set_order r) ∧
  NoDup (map chain_summary (build_call_chains set_order r)) ∧
  (length (build_call_chains set_order r) ≤ 5)%nat.
Proof.
  intros Horder. unfold build_call_chains.
  set (found := concat (map (chains_of (call_edges (edges r))) (set_order (direct_names (nodes r))))).
  assert (∀ x, x ∈ found → real_chain r (snd x)) as Hreal.
  { intros [s c] Hx. apply list_elem_of_In, in_concat in Hx as (l & Hl & Hc).
    apply list_elem_of_In, list_elem_of_fmap in Hl as (t & -> & Ht).
    apply Horder, direct_names_spec in Ht. apply list_elem_of_In in Hc. by eapply chains_of_real. }
  pose proof (push_new_NoDup (chain_summary ∘ snd) Some push_chain push_chain_spec [] found
    (NoDup_nil_2)) as Hnd.
  pose proof (push_new_elem (chain_summary ∘ snd) Some push_chain push_chain_spec [] found) as Hel.
  set (chains := foldl push_chain [] found) in *.
  split_and!.
  - apply Forall_take, Forall_fmap, Forall_forall. intros x Hx%sort_by_elem.
    destruct (Hel x Hx) as [[]%elem_of_nil|(y & Hy & [= ->])]. by apply Hreal.
  - rewrite <-firstn_map, map_map. eapply sublist_NoDup; [|apply sublist_take].
    by rewrite (Permutation_map _ (sort_by_perm chain_cmp chains)).
  - rewrite length_take. lia.
Qed.
End workflow_lemmas.

(** ** A run *)

Definition demo_snode (name file : string) (reason : SelectionReason) : SelectedNode :=
  mk_snode (mk_node 1 NkFunction name ("crate::" +:+ name) file 10 20 "rust" None None None
    (Some "pub") false "") reason 1 f32_1 None.

Definition demo_sedge (kind : EdgeKind) (src dst : string) : SelectedEdge :=
  mk_sedge (mk_edge 1 kind ("crate::" +:+ src) ("crate::" +:+ dst) "src/lib.rs" None f32_1 None)
    Caller None f32_1 None.

Definition demo_selection : ContextResult :=
  mk_result default_request
    [demo_snode "parse" "src/lib.rs" DirectTarget; demo_snode "main" "src/main.rs" Caller;
     demo_snode "lex" "src/lex.rs" Callee]
    [demo_sedge EkCalls "main" "parse"; demo_sedge EkCalls "parse" "lex";
     demo_sedge EkImports "lex" "parse"]
    [] [] truncation_none [] None None None [] not_applicable.

Lemma call_chains_real_witness :
  map chain_summary (build_call_chains elements demo_selection) =
    ["crate::main -> crate::parse -> crate::lex"; "crate::main -> crate::parse";
     "crate::parse -> crate::lex"] ∧
  Forall (real_chain demo_selection) (build_call_chains elements demo_selection).
Proof.
  split; [vm_compute; reflexivity|].
  destruct (call_chains_real elements demo_selection) as [H _]; [|exact H].
  intros s x Hx. by apply elem_of_elements in Hx.
Defined.
