(* ===== verification/Impact.v ===== *)
(** * Impact analysis

    Model of [packages/atlas-impact/src/lib.rs] and of the impact records of
    [packages/atlas-core/src/model/impact.rs]: weighted propagation of scores over the
    edges of a change, test coverage, crossed boundaries and the risk level. The metadata a
    node carries as free-form JSON ([owner_id], [repo_id]) and the iteration order of the
    code's hash sets are parameters. The propagation loop has fuel; [propagate_terminates]
    shows that it ends on every graph. *)

From Stdlib Require Import Floats.SpecFloat.
From S2P Require Import Prelude RustStr RustFloat FloatOrder Budget Kinds Graph ContextData.

(** ** Data *)

Record ImpactResult := mk_impact {
  changed_nodes : list Node;
  impacted_nodes : list Node;
  impacted_files : list string;
  relevant_edges : list Edge;
  impact_seed_budgets : list SeedBudgetMeta;
  impact_traversal_budget : option TraversalBudgetMeta;
  impact_budget : BudgetReport
}.

Inductive RiskLevel := Low | Medium | High | Critical.
Inductive ChangeKind := ApiChange | SignatureChange | InternalChange.
Inductive BoundaryKind := CrossModule | CrossPackage | CrossRepo.

#[global] Instance RiskLevel_eq_dec : EqDecision RiskLevel.
Proof. solve_decision. Defined.
#[global] Instance ChangeKind_eq_dec : EqDecision ChangeKind.
Proof. solve_decision. Defined.
#[global] Instance BoundaryKind_eq_dec : EqDecision BoundaryKind.
Proof. solve_decision. Defined.

Record ScoredImpactNode := mk_scored {
  sc_node : Node;
  impact_score : spec_float;
  change_kind : option ChangeKind
}.

Record TestImpactResult := mk_test_impact {
  affected_tests : list Node;
  uncovered_changed_nodes : list Node
}.

Record BoundaryViolation := mk_violation {
  v_kind : BoundaryKind;
  v_description : string;
  v_nodes : list string
}.

Record AdvancedImpactResult := mk_advanced {
  adv_base : ImpactResult;
  scored_nodes : list ScoredImpactNode;
  risk_level : RiskLevel;
  test_impact : TestImpactResult;
  boundary_violations : list BoundaryViolation
}.

(** ** Weights *)

Definition HOP_DECAY : spec_float := Eval vm_compute in f64_lit 25 100.
Definition TEST_ADJACENCY_BOOST : spec_float := Eval vm_compute in f64_lit 35 100.
Definition UNCOVERED_CHANGE_BOOST : spec_float := Eval vm_compute in f64_lit 45 100.
Definition CROSS_MODULE_BOOST : spec_float := Eval vm_compute in f64_lit 30 100.
Definition CROSS_PACKAGE_BOOST : spec_float := Eval vm_compute in f64_lit 60 100.
Definition CROSS_REPO_BOOST : spec_float := Eval vm_compute in f64_lit 75 100.

Definition base_score_for_kind (kind : NodeKind) : spec_float :=
  match kind with
  | NkFunction | NkMethod => f64_lit 10 10
  | NkClass | NkStruct | NkEnum | NkTrait | NkInterface => f64_lit 12 10
  | NkModule | NkPackage => f64_lit 8 10
  | NkConstant | NkVariable => f64_lit 5 10
  | NkTest => f64_lit 4 10
  | _ => f64_lit 6 10
  end.

Definition has_public (node : Node) : bool := contains "pub" (default "" (n_modifiers node)).

Definition api_multiplier (node : Node) : spec_float :=
  if has_public node then f64_lit 15 10 else f64_lit 10 10.

Definition traversal_weight (k : EdgeKind) : spec_float :=
  match k with
  | EkCalls => f64_lit 30 10
  | EkImplements | EkExtends => f64_lit 25 10
  | EkImports => f64_lit 20 10
  | EkDefines | EkContains => f64_lit 15 10
  | EkTests | EkTestedBy => f64_lit 15 10
  | EkReferences => f64_lit 10 10
  end.

(** ** Propagation *)

Abbreviation Scores := (gmap string spec_float).
Abbreviation Adjacency := (gmap string (list (string * spec_float))).

Definition seed_score (n : Node) : spec_float :=
  f64_mul (base_score_for_kind (n_kind n)) (api_multiplier n).

Definition seed_scores (changed : list Node) : Scores :=
  foldl (λ scores n, <[n_qualified_name n := seed_score n]> scores) ∅ changed.

(** [entry(k).or_default().push(v)]. *)
Definition push_entry (k : string) (v : string * spec_float) (adj : Adjacency) : Adjacency :=
  <[k := default [] (adj !! k) ++ [v]]> adj.

Definition edge_weight (e : Edge) : spec_float :=
  f64_mul (traversal_weight (e_kind e)) (f64_of_f32 (e_confidence e)).

Definition adjacency (edges : list Edge) : Adjacency :=
  foldl (λ adj e,
      push_entry (e_target_qn e) (e_source_qn e, edge_weight e)
        (push_entry (e_source_qn e) (e_target_qn e, edge_weight e) adj))
    ∅ edges.

Definition propagated (current_score weight : spec_float) : spec_float :=
  f64_mul (f64_mul current_score HOP_DECAY) weight.

Definition relax (current_score : spec_float) (st : Scores * list string)
    (neighbour : string * spec_float) : Scores * list string :=
  let (scores, queue) := st in
  let (nbr, weight) := neighbour in
  let entry := default f64_zero (scores !! nbr) in
  if float_gt (propagated current_score weight) entry
  then (<[nbr := propagated current_score weight]> scores, queue ++ [nbr])
  else (<[nbr := entry]> scores, queue).

Fixpoint propagate (fuel : nat) (adj : Adjacency) (scores : Scores) (queue : list string) :
    option Scores :=
  match fuel with
  | O => None
  | S fuel =>
      match queue with
      | [] => Some scores
      | qn :: queue =>
          match scores !! qn with
          | None => propagate fuel adj scores queue
          | Some current_score =>
              match adj !! qn with
              | None => propagate fuel adj scores queue
              | Some neighbours =>
                  let (scores, queue) := foldl (relax current_score) (scores, queue) neighbours in
                  propagate fuel adj scores queue
              end
          end
      end
  end.

(** ** Change classification *)

Definition is_some {A} (o : option A) : bool := match o with Some _ => true | None => false end.

Definition classify_node (node : Node) : ChangeKind :=
  match n_kind node with
  | NkFunction | NkMethod =>
      if has_public node then
        if is_some (n_params node) || is_some (n_return_type node)
        then SignatureChange else ApiChange
      else InternalChange
  | NkStruct | NkEnum | NkTrait | NkInterface | NkClass =>
      if has_public node then ApiChange else InternalChange
  | _ => InternalChange
  end.

(** ** Test impact *)

Definition all_nodes (base : ImpactResult) : list Node := changed_nodes base ++ impacted_nodes base.

Definition is_test_node (n : Node) : bool := n_is_test n || bool_decide (n_kind n = NkTest).

Definition is_test_edge (e : Edge) : bool :=
  match e_kind e with EkTests | EkTestedBy => true | _ => false end.

Definition test_edge_ends (edges : list Edge) : gset string :=
  list_to_set (concat (map (λ e, [e_source_qn e; e_target_qn e]) (filter is_test_edge edges))).

Definition names_of (nodes : list Node) : gset string := list_to_set (map n_qualified_name nodes).

(** The last node of a name. *)
Definition node_index (nodes : list Node) : gmap string Node :=
  foldl (λ index n, <[n_qualified_name n := n]> index) ∅ nodes.

(** [filter(|n| seen.insert(name))]: the first node of each name. *)
Fixpoint first_of_name (seen : gset string) (nodes : list Node) : list Node :=
  match nodes with
  | [] => []
  | n :: nodes =>
      if bool_decide (n_qualified_name n ∈ seen) then first_of_name seen nodes
      else n :: first_of_name ({[n_qualified_name n]} ∪ seen) nodes
  end.

Definition name_cmp : Node → Node → comparison := cmp_on n_qualified_name String.compare.

Section analysis.
Context (set_order : gset string → list string).
(** [extra_json.as_object().get(key).as_str()]. *)
Context (extra_str : Node → string → option string).

Definition compute_test_impact (base : ImpactResult) : TestImpactResult :=
  let test_qns := names_of (filter is_test_node (all_nodes base)) in
  let edges_to_tests := test_edge_ends (relevant_edges base) in
  let index := node_index (all_nodes base) in
  let affected :=
    first_of_name ∅
      (filter is_test_node
        (omap (λ qn, index !! qn) (set_order test_qns ++ set_order edges_to_tests))) in
  mk_test_impact (sort_by name_cmp affected)
    (sort_by name_cmp
      (filter (λ n, negb (n_is_test n) && negb (bool_decide (n_kind n = NkTest)) &&
                    negb (bool_decide (n_qualified_name n ∈ edges_to_tests)))
        (changed_nodes base))).

Definition test_adjacent_qns (base : ImpactResult) (t : TestImpactResult) : gset string :=
  names_of (affected_tests t) ∪ test_edge_ends (relevant_edges base).

(** ** Boundaries *)

Definition module_of (path : string) : string :=
  match rfind_sub "/" path with
  | Some idx => str_take idx path
  | None => "."
  end.

(** A key of the node's metadata, or the first component of its path. *)
Definition metadata_or_top (key : string) (node : Node) : string :=
  match extra_str node key with
  | Some v => v
  | None => default (n_file_path node) (head (split_char slash (n_file_path node)))
  end.

Definition package_of : Node → string := metadata_or_top "owner_id".
Definition repo_of : Node → string := metadata_or_top "repo_id".

(** The impacted nodes outside the places of the changed nodes. *)
Definition outside (place : Node → string) (base : ImpactResult) : list string :=
  let changed : gset string := list_to_set (map place (changed_nodes base)) in
  map n_qualified_name
    (filter (λ n, negb (bool_decide (place n ∈ changed))) (impacted_nodes base)).

Definition violation (kind : BoundaryKind) (what : string) (qns : list string) :
    list BoundaryViolation :=
  match qns with
  | [] => []
  | _ :: _ =>
      let qns := dedup_by_key id (sort_by String.compare qns) in
      [mk_violation kind
         (show_nat (length qns) +:+ " node(s) in other " +:+ what +:+
            " are impacted by this change") qns]
  end.

Definition detect_boundary_violations (base : ImpactResult) : list BoundaryViolation :=
  violation CrossModule "modules" (outside (λ n, module_of (n_file_path n)) base) ++
  violation CrossPackage "packages" (outside package_of base) ++
  violation CrossRepo "repos" (outside repo_of base).

Definition boundary_set (kind : BoundaryKind) (vs : list BoundaryViolation) : gset string :=
  list_to_set (concat (map v_nodes (filter (λ v, bool_decide (v_kind v = kind)) vs))).

(** ** Scores *)

Definition boost (set : gset string) (amount : spec_float) (qn : string) (score : spec_float) :
    spec_float :=
  if bool_decide (qn ∈ set) then f64_add score amount else score.

Definition score_node (base : ImpactResult) (t : TestImpactResult)
    (violations : list BoundaryViolation) (scores : Scores) (n : Node) : ScoredImpactNode :=
  let qn := n_qualified_name n in
  let score := default f64_zero (scores !! qn) in
  let score := boost (test_adjacent_qns base t) TEST_ADJACENCY_BOOST qn score in
  let score := boost (names_of (uncovered_changed_nodes t)) UNCOVERED_CHANGE_BOOST qn score in
  let score := boost (boundary_set CrossModule violations) CROSS_MODULE_BOOST qn score in
  let score := boost (boundary_set CrossPackage violations) CROSS_PACKAGE_BOOST qn score in
  let score := boost (boundary_set CrossRepo violations) CROSS_REPO_BOOST qn score in
  mk_scored n score
    (if bool_decide (qn ∈ names_of (changed_nodes base)) then Some (classify_node n) else None).

Definition scored_cmp : ScoredImpactNode → ScoredImpactNode → comparison :=
  cmp_lex (λ a b, partial_cmp_or_equal (impact_score b) (impact_score a))
    (cmp_on (λ s, n_qualified_name (sc_node s)) String.compare).

Definition score_nodes (fuel : nat) (base : ImpactResult) (t : TestImpactResult)
    (violations : list BoundaryViolation) : option (list ScoredImpactNode) :=
  scores ← propagate fuel (adjacency (relevant_edges base)) (seed_scores (changed_nodes base))
             (map n_qualified_name (changed_nodes base));
  Some (sort_by scored_cmp (map (score_node base t violations scores) (all_nodes base))).

(** ** Risk *)

Definition compute_risk_level (base : ImpactResult) (scored : list ScoredImpactNode)
    (t : TestImpactResult) (violations : list BoundaryViolation) : RiskLevel :=
  let any_change k := existsb (λ s, bool_decide (change_kind s = Some k)) scored in
  let any_cross k := existsb (λ v, bool_decide (v_kind v = k)) violations in
  let impacted_count := length (impacted_nodes base) in
  let uncovered := match uncovered_changed_nodes t with [] => false | _ => true end in
  if any_change ApiChange && (any_cross CrossRepo || any_cross CrossPackage || any_cross CrossModule)
  then Critical
  else if any_cross CrossRepo || any_change ApiChange ||
          any_cross CrossPackage && (uncovered || (5 <? impacted_count)%nat)
  then High
  else if any_change SignatureChange || any_cross CrossModule || (20 <? impacted_count)%nat ||
          uncovered
  then Medium
  else Low.

Definition analyze (fuel : nat) (base : ImpactResult) : option AdvancedImpactResult :=
  let t := compute_test_impact base in
  let violations := detect_boundary_violations base in
  scored ← score_nodes fuel base t violations;
  Some (mk_advanced base scored (compute_risk_level base scored t violations) t violations).
End analysis.

(** ** The propagation ends *)

Definition scores_ok (scores : Scores) : Prop := ∀ v s, scores !! v = Some s → f64_nonneg s = true.

Definition score_of (scores : Scores) (v : string) : spec_float := default f64_zero (scores !! v).

(** What the scores of the nodes [vs] can still grow by. *)
Definition potential (vs : list string) (scores : Scores) : Z :=
  foldr (λ v acc, f64_top - f64_rank (score_of scores v) + acc)%Z 0%Z vs.

Lemma score_of_ok scores v : scores_ok scores → f64_nonneg (score_of scores v) = true.
Proof. intros H. unfold score_of. destruct (scores !! v) eqn:E; [by apply (H v)|done]. Qed.

Lemma score_of_insert scores v s w :
  score_of (<[v := s]> scores) w = if decide (w = v) then s else score_of scores w.
Proof.
  unfold score_of. destruct (decide (w = v)) as [->|Hne]; [by rewrite lookup_insert_eq|].
  by rewrite lookup_insert_ne.
Qed.

Lemma potential_ext vs scores scores' :
  (∀ v, score_of scores v = score_of scores' v) → potential vs scores = potential vs scores'.
Proof. intros H. induction vs as [|v vs IH]; simpl; [done|]. by rewrite H, IH. Qed.

Lemma potential_nonneg vs scores : scores_ok scores → (0 ≤ potential vs scores)%Z.
Proof.
  intros H. induction vs as [|v vs IH]; simpl; [done|].
  pose proof (f64_rank_bounds _ (score_of_ok scores v H)). lia.
Qed.

Lemma potential_grow vs scores scores' :
  (∀ v, f64_rank (score_of scores v) ≤ f64_rank (score_of scores' v))%Z →
  (potential vs scores' ≤ potential vs scores)%Z ∧
  ∀ v, v ∈ vs → (f64_rank (score_of scores v) < f64_rank (score_of scores' v))%Z →
    (potential vs scores' < potential vs scores)%Z.
Proof.
  intros H. induction vs as [|w vs [IH1 IH2]]; simpl.
  { split; [done|]. by intros v ?%elem_of_nil. }
  pose proof (H w). split; [lia|]. intros v [->|Hv]%elem_of_cons Hlt; [lia|].
  specialize (IH2 v Hv Hlt). lia.
Qed.

(** One relaxation: nothing changes, or a score of [vs] grows. *)
Lemma relax_step vs cur scores queue nbr w scores' queue' :
  scores_ok scores → nbr ∈ vs →
  relax cur (scores, queue) (nbr, w) = (scores', queue') →
  scores_ok scores' ∧
  ((potential vs scores' = potential vs scores ∧ queue' = queue) ∨
   (potential vs scores' < potential vs scores)%Z).
Proof.
  intros Hok Hv. unfold relax. fold (score_of scores nbr).
  pose proof (score_of_ok scores nbr Hok) as Hnn.
  destruct (float_gt _ _) eqn:E; intros [= <- <-].
  - assert (f64_nonneg (propagated cur w) = true) as Hp by (by apply (f64_mul_exceeds _ _ _ Hnn)).
    pose proof (proj1 (float_gt_rank _ _ Hnn Hp) E) as Hlt. split.
    + intros v s. destruct (decide (v = nbr)) as [->|Hne].
      * rewrite lookup_insert_eq. by intros [= <-].
      * rewrite lookup_insert_ne by done. apply Hok.
    + right. apply (potential_grow vs scores) with nbr; [|done|].
      * intros v. rewrite score_of_insert. destruct (decide _) as [->|]; lia.
      * rewrite score_of_insert, decide_True by done. done.
  - split.
    + intros v s. destruct (decide (v = nbr)) as [->|Hne].
      * rewrite lookup_insert_eq. by intros [= <-].
      * rewrite lookup_insert_ne by done. apply Hok.
    + left. split; [|done]. apply potential_ext. intros v. rewrite score_of_insert.
      by destruct (decide _) as [->|].
Qed.

Lemma relax_all vs cur neighbours : ∀ scores queue scores' queue',
  scores_ok scores → (∀ p, p ∈ neighbours → p.1 ∈ vs) →
  foldl (relax cur) (scores, queue) neighbours = (scores', queue') →
  scores_ok scores' ∧
  ((potential vs scores' = potential vs scores ∧ queue' = queue) ∨
   (potential vs scores' < potential vs scores)%Z).
Proof.
  induction neighbours as [|[nbr w] neighbours IH]; intros scores queue scores' queue' Hok Hin; simpl.
  { intros [= <- <-]. auto. }
  destruct (if float_gt _ _ then _ else _) as [scores1 queue1] eqn:E.
  destruct (relax_step vs cur scores queue nbr w scores1 queue1 Hok) as [Hok1 H1]; [|done|].
  { apply (Hin (nbr, w)). constructor. }
  intros Hf. destruct (IH scores1 queue1 scores' queue' Hok1) as [Hok' H2]; [|done|].
  { intros p Hp. apply Hin. by constructor. }
  split; [done|]. intuition (congruence || lia).
Qed.

(** Every neighbour an adjacency names. *)
Definition targets (adj : Adjacency) : list string :=
  map fst (concat (map snd (map_to_list adj))).

Lemma targets_elem (adj : Adjacency) qn neighbours p :
  adj !! qn = Some neighbours → p ∈ neighbours → p.1 ∈ targets adj.
Proof.
  intros Hq Hp. apply list_elem_of_fmap. exists p. split; [done|].
  apply list_elem_of_In, in_concat. exists neighbours.
  split; apply list_elem_of_In; [|done]. apply list_elem_of_fmap. exists (qn, neighbours).
  split; [done|]. by apply elem_of_map_to_list.
Qed.

Lemma propagate_mono fuel : ∀ adj scores queue r,
  propagate fuel adj scores queue = Some r → propagate (S fuel) adj scores queue = Some r.
Proof.
  induction fuel as [|fuel IH]; intros adj scores queue r; [done|].
  intros H. remember (S fuel) as fuel' eqn:Ef. simpl. subst fuel'. simpl in H.
  destruct queue as [|qn queue]; [done|].
  destruct (scores !! qn); [|by apply IH]. destruct (adj !! qn); [|by apply IH].
  destruct (foldl _ _ _) as [scores' queue']. by apply IH.
Qed.

Lemma propagate_enough fuel fuel' adj scores queue r :
  (fuel ≤ fuel')%nat → propagate fuel adj scores queue = Some r →
  propagate fuel' adj scores queue = Some r.
Proof. induction 1; [done|]. intros H'. apply propagate_mono. auto. Qed.

Lemma propagate_returns adj : ∀ scores queue, scores_ok scores →
  ∃ fuel r, propagate fuel adj scores queue = Some r.
Proof.
  set (vs := targets adj).
  assert (∀ k, (0 ≤ k)%Z → ∀ n scores queue, scores_ok scores → potential vs scores = k →
    length queue = n → ∃ fuel r, propagate fuel adj scores queue = Some r) as Hgo.
  { intros k. apply (Z_lt_induction (λ k, ∀ n scores queue, scores_ok scores →
      potential vs scores = k → length queue = n →
      ∃ fuel r, propagate fuel adj scores queue = Some r)).
    clear k. intros k IHk. induction n as [|n IHn]; intros scores queue Hok Hk Hn.
    { destruct queue; [|done]. by exists 1%nat, scores. }
    destruct queue as [|qn queue]; [done|]. injection Hn as Hn.
    assert (∀ scores' queue', scores_ok scores' →
      (potential vs scores' = potential vs scores ∧ queue' = queue) ∨
      (potential vs scores' < potential vs scores)%Z →
      ∃ fuel r, propagate fuel adj scores' queue' = Some r) as Hnext.
    { intros scores' queue' Hok' [[Hp ->]|Hlt]; [by apply IHn; [|congruence|]|].
      apply (IHk (potential vs scores')) with (length queue'); [|done..].
      pose proof (potential_nonneg vs scores' Hok'). lia. }
    destruct (scores !! qn) as [cur|] eqn:Hs.
    - destruct (adj !! qn) as [neighbours|] eqn:Ha.
      + destruct (foldl (relax cur) (scores, queue) neighbours) as [scores' queue'] eqn:Hf.
        destruct (relax_all vs cur neighbours scores queue scores' queue' Hok) as [Hok' Hcase];
          [intros p; by apply targets_elem with qn|done|].
        destruct (Hnext scores' queue' Hok' Hcase) as (fuel & r & Hr).
        exists (S fuel), r. simpl. by rewrite Hs, Ha, Hf.
      + destruct (Hnext scores queue Hok) as (fuel & r & Hr); [by left|].
        exists (S fuel), r. simpl. by rewrite Hs, Ha.
    - destruct (Hnext scores queue Hok) as (fuel & r & Hr); [by left|].
      exists (S fuel), r. simpl. by rewrite Hs. }
  intros scores queue Hok. eapply Hgo; [|done|reflexivity|reflexivity].
  by apply potential_nonneg.
Qed.

Lemma seed_score_ok n : f64_nonneg (seed_score n) = true.
Proof.
  unfold seed_score, api_multiplier. destruct (n_kind n), (has_public n); vm_compute; done.
Qed.

Lemma seed_scores_lookup changed v s :
  seed_scores changed !! v = Some s → ∃ n, n ∈ changed ∧ n_qualified_name n = v ∧ s = seed_score n.
Proof.
  unfold seed_scores.
  assert (∀ m : Scores, foldl (λ scores n, <[n_qualified_name n := seed_score n]> scores) m changed !! v = Some s →
    m !! v = Some s ∨ ∃ n, n ∈ changed ∧ n_qualified_name n = v ∧ s = seed_score n) as H.
  { induction changed as [|n changed IH]; intros m; simpl; [by left|].
    intros [Hm|(x & Hx & ?)]%IH.
    - destruct (decide (v = n_qualified_name n)) as [->|Hne].
      + rewrite lookup_insert_eq in Hm. injection Hm as <-. right. exists n.
        split_and!; [constructor|done|done].
      + rewrite lookup_insert_ne in Hm by done. by left.
    - right. exists x. split; [by constructor|done]. }
  intros [Hm|Hn]%H; [|done]. by rewrite lookup_empty in Hm.
Qed.

Lemma seed_scores_ok changed : scores_ok (seed_scores changed).
Proof. intros v s (n & _ & _ & ->)%seed_scores_lookup. apply seed_score_ok. Qed.

(** ** What the propagation computes *)

(** An edge between two nodes, in either direction, with its weight. *)
Definition linked (edges : list Edge) (u v : string) (w : spec_float) : Prop :=
  ∃ e, e ∈ edges ∧ w = edge_weight e ∧
    (e_source_qn e = u ∧ e_target_qn e = v ∨ e_target_qn e = u ∧ e_source_qn e = v).

(** The scores that a walk from a changed node carries to a node. *)
Inductive carried (changed : list Node) (edges : list Edge) : string → spec_float → Prop :=
| carried_seed v s : seed_scores changed !! v = Some s → carried changed edges v s
| carried_edge u v s w :
    carried changed edges u s → linked edges u v w → carried changed edges v (propagated s w).

Lemma push_entry_elem k v (adj : Adjacency) u p :
  p ∈ default [] (push_entry k v adj !! u) ↔ p ∈ default [] (adj !! u) ∨ u = k ∧ p = v.
Proof.
  unfold push_entry. destruct (decide (u = k)) as [->|Hne].
  - rewrite lookup_insert_eq. simpl. rewrite elem_of_app, list_elem_of_singleton. tauto.
  - rewrite lookup_insert_ne by done. tauto.
Qed.

Lemma adjacency_linked edges u v w :
  (v, w) ∈ default [] (adjacency edges !! u) ↔ linked edges u v w.
Proof.
  unfold adjacency.
  assert (∀ adj : Adjacency,
    (v, w) ∈ default [] (foldl (λ adj e,
      push_entry (e_target_qn e) (e_source_qn e, edge_weight e)
        (push_entry (e_source_qn e) (e_target_qn e, edge_weight e) adj)) adj edges !! u) ↔
    (v, w) ∈ default [] (adj !! u) ∨ linked edges u v w) as H.
  { unfold linked. induction edges as [|e edges IH]; intros adj; simpl.
    - split; [by left|]. intros [?|(e & He & _)]; [done|]. by apply elem_of_nil in He.
    - rewrite IH, !push_entry_elem. setoid_rewrite elem_of_cons. split.
      + intros [[[?|[-> [= -> ->]]]|[-> [= -> ->]]]|(x & ? & ?)]; [by left|right|right|right].
        * exists e. auto.
        * exists e. auto 6.
        * exists x. auto.
      + intros [?|(x & [->|Hx] & -> & Hc)]; [by do 3 left| |].
        * left. destruct Hc as [[<- <-]|[<- <-]]; [left|]; right; done.
        * right. by exists x. }
  rewrite H, lookup_empty. simpl. rewrite elem_of_nil. tauto.
Qed.

Lemma propagated_zero w x : f64_nonneg x = true → float_gt (propagated f64_zero w) x = false.
Proof.
  unfold float_gt, SFltb, propagated. intros Hx.
  destruct w as [sw|sw| |sw mw ew], x as [sx|[]| |[]]; simpl in *; split_bools; done.
Qed.

Section propagation.
Context (changed : list Node) (edges : list Edge).
Abbreviation adj := (adjacency edges).

(** No edge of [u] would raise its neighbour's score. *)
Definition settled (scores : Scores) (s : spec_float) (neighbours : list (string * spec_float)) : Prop :=
  ∀ v w, (v, w) ∈ neighbours → float_gt (propagated s w) (score_of scores v) = false.

Record prop_inv (scores : Scores) (queue : list string)
    (open : option (string * spec_float * list (string * spec_float))) : Prop := {
  pi_ok : scores_ok scores;
  pi_carried v s : scores !! v = Some s → s = f64_zero ∨ carried changed edges v s;
  pi_seed v : (f64_rank (score_of (seed_scores changed) v) ≤ f64_rank (score_of scores v))%Z;
  pi_settled v s : scores !! v = Some s →
    v ∈ queue ∨ settled scores s (default [] (adj !! v)) ∨
    ∃ relaxed, open = Some (v, s, relaxed) ∧ settled scores s relaxed
}.

Lemma settled_grow scores scores' s neighbours :
  scores_ok scores → scores_ok scores' →
  (∀ v, f64_rank (score_of scores v) ≤ f64_rank (score_of scores' v))%Z →
  settled scores s neighbours → settled scores' s neighbours.
Proof.
  intros Hok Hok' Hle Hs v w Hv. specialize (Hs v w Hv). specialize (Hle v).
  pose proof (score_of_ok scores v Hok) as H1. pose proof (score_of_ok scores' v Hok') as H2.
  apply not_true_iff_false. intros Hgt.
  assert (f64_nonneg (propagated s w) = true) as Hp by (by apply (f64_mul_exceeds _ _ _ H2)).
  apply float_gt_rank in Hgt; [|done..]. apply not_true_iff_false in Hs. apply Hs.
  apply float_gt_rank; [done..|lia].
Qed.

Lemma relax_inv scores queue u cur relaxed nbr w :
  prop_inv scores queue (Some (u, cur, relaxed)) →
  (cur = f64_zero ∨ carried changed edges u cur) → linked edges u nbr w →
  let (scores', queue') := relax cur (scores, queue) (nbr, w) in
  prop_inv scores' queue' (Some (u, cur, relaxed ++ [(nbr, w)])).
Proof.
  intros [Hok Hca Hse Hst] Hcur Hlink. unfold relax. fold (score_of scores nbr).
  pose proof (score_of_ok scores nbr Hok) as Hnn.
  destruct (float_gt (propagated cur w) (score_of scores nbr)) eqn:E.
  - assert (f64_nonneg (propagated cur w) = true) as Hp by (by apply (f64_mul_exceeds _ _ _ Hnn)).
    pose proof (proj1 (float_gt_rank _ _ Hnn Hp) E) as Hlt.
    set (scores' := <[nbr := propagated cur w]> scores).
    assert (scores_ok scores') as Hok'.
    { intros v s. destruct (decide (v = nbr)) as [->|Hne].
      - unfold scores'. rewrite lookup_insert_eq. by intros [= <-].
      - unfold scores'. rewrite lookup_insert_ne by done. apply Hok. }
    assert (∀ v, f64_rank (score_of scores v) ≤ f64_rank (score_of scores' v))%Z as Hgrow.
    { intros v. unfold scores'. rewrite score_of_insert. destruct (decide _) as [->|]; lia. }
    split; [done| | |].
    + intros v s. unfold scores'. destruct (decide (v = nbr)) as [->|Hne].
      * rewrite lookup_insert_eq. intros [= <-]. right. destruct Hcur as [->|Hcur].
        -- by rewrite propagated_zero in E.
        -- by apply carried_edge with u.
      * rewrite lookup_insert_ne by done. apply Hca.
    + intros v. etrans; [apply Hse|apply Hgrow].
    + intros v s. destruct (decide (v = nbr)) as [->|Hne].
      * intros _. left. apply elem_of_app. right. constructor.
      * unfold scores' at 1. rewrite lookup_insert_ne by done. intros Hv.
        destruct (Hst v s Hv) as [Hq|[Hset|(r & [= -> -> ->] & Hset)]].
        -- left. apply elem_of_app. by left.
        -- right. left. by apply (settled_grow scores).
        -- right. right. eexists. split; [done|].
           intros x wx [Hx|[= -> ->]%list_elem_of_singleton]%elem_of_app.
           ++ by apply (settled_grow scores scores' s r Hok Hok' Hgrow Hset).
           ++ unfold scores'. rewrite score_of_insert, decide_True by done.
              apply not_true_iff_false. intros Hgt%float_gt_rank; [lia|done..].
  - set (scores' := <[nbr := score_of scores nbr]> scores).
    assert (∀ v, score_of scores' v = score_of scores v) as Heq.
    { intros v. unfold scores'. rewrite score_of_insert. by destruct (decide _) as [->|]. }
    assert (∀ v s, scores' !! v = Some s → scores !! v = Some s ∨ s = f64_zero) as Hlook.
    { intros v s. unfold scores'. destruct (decide (v = nbr)) as [->|Hne].
      - rewrite lookup_insert_eq. intros [= <-]. unfold score_of.
        destruct (scores !! nbr); [by left|by right].
      - rewrite lookup_insert_ne by done. by left. }
    split.
    + intros v s [Hv| ->]%Hlook; [by apply (Hok v)|done].
    + intros v s [Hv| ->]%Hlook; [by apply Hca|by left].
    + intros v. rewrite Heq. apply Hse.
    + intros v s [Hv| ->]%Hlook.
      * destruct (Hst v s Hv) as [Hq|[Hset|(r & [= -> -> ->] & Hset)]]; [by left|right; left|right; right].
        -- intros x wx Hx. rewrite Heq. by apply Hset.
        -- eexists. split; [done|]. intros x wx [Hx|[= -> ->]%list_elem_of_singleton]%elem_of_app.
           ++ rewrite Heq. by apply Hset.
           ++ by rewrite Heq.
      * right. left. intros x wx _. rewrite Heq. apply propagated_zero. by apply score_of_ok.
Qed.

Lemma relax_all_inv u cur neighbours : ∀ scores queue relaxed,
  prop_inv scores queue (Some (u, cur, relaxed)) →
  (cur = f64_zero ∨ carried changed edges u cur) →
  (∀ v w, (v, w) ∈ neighbours → linked edges u v w) →
  let (scores', queue') := foldl (relax cur) (scores, queue) neighbours in
  prop_inv scores' queue' (Some (u, cur, relaxed ++ neighbours)).
Proof.
  induction neighbours as [|[v w] neighbours IH]; intros scores queue relaxed Hinv Hcur Hl.
  { simpl. by rewrite app_nil_r. }
  assert (linked edges u v w) as Hvw by (apply Hl; constructor).
  pose proof (relax_inv scores queue u cur relaxed v w Hinv Hcur Hvw) as H1.
  cbn [foldl]. destruct (relax cur (scores, queue) (v, w)) as [scores1 queue1].
  replace (relaxed ++ (v, w) :: neighbours) with ((relaxed ++ [(v, w)]) ++ neighbours)
    by by rewrite <-app_assoc.
  apply IH; [done|done|]. intros x wx Hx. apply Hl. by constructor.
Qed.

Lemma propagate_inv fuel : ∀ scores queue r,
  prop_inv scores queue None → propagate fuel adj scores queue = Some r → prop_inv r [] None.
Proof.
  induction fuel as [|fuel IH]; intros scores queue r Hinv; simpl; [done|].
  destruct queue as [|u queue]; [by intros [= <-]|].
  assert (scores !! u = None ∨ adj !! u = None → prop_inv scores queue None) as Hskip.
  { intros Hu. destruct Hinv as [H1 H2 H3 H4]. split; [done..|]. intros v s Hv.
    destruct (H4 v s Hv) as [[->|Hq]%elem_of_cons|[?|(? & ? & _)]]; [|by left|by right; left|done].
    right. left. destruct Hu as [Hu|Hu]; [congruence|]. rewrite Hu. by intros ? ? ?%elem_of_nil. }
  destruct (scores !! u) as [cur|] eqn:Hs; [|by apply IH, Hskip; left].
  destruct (adj !! u) as [neighbours|] eqn:Ha; [|by apply IH, Hskip; right].
  assert (prop_inv scores queue (Some (u, cur, []))) as Hopen.
  { destruct Hinv as [H1 H2 H3 H4]. split; [done..|]. intros v s Hv.
    destruct (H4 v s Hv) as [[->|Hq]%elem_of_cons|[?|(? & ? & _)]]; [|by left|by right; left|done].
    right. right. exists []. split; [congruence|]. by intros ? ? ?%elem_of_nil. }
  pose proof (relax_all_inv u cur neighbours scores queue [] Hopen) as Hall.
  destruct (foldl (relax cur) (scores, queue) neighbours) as [scores' queue'].
  intros Hr. apply (IH scores' queue' r); [|done].
  destruct Hall as [H1 H2 H3 H4].
  - by apply (pi_carried _ _ _ Hinv).
  - intros v w Hv. apply adjacency_linked. by rewrite Ha.
  - split; [done..|]. intros v s Hv.
    destruct (H4 v s Hv) as [Hq|[?|(rel & [= -> -> <-] & Hset)]]; [by left|by right; left|].
    right. left. rewrite Ha. exact Hset.
Qed.

Lemma propagate_start :
  prop_inv (seed_scores changed) (map n_qualified_name changed) None.
Proof.
  split.
  - apply seed_scores_ok.
  - intros v s Hv. right. by apply carried_seed.
  - done.
  - intros v s (n & Hn & <- & _)%seed_scores_lookup. left. apply list_elem_of_fmap. by exists n.
Qed.
End propagation.

(** ** Every walk's score is reached

    With confidences that are not negative a hop is monotone, so a fixpoint of the edges is
    above every score that a walk carries. *)

Definition proper (s : spec_float) : Prop := canonical s = true ∧ f64_nonneg s = true.

Lemma propagated_proper s w :
  proper s → proper w → is_nan (propagated s w) = false →
  proper (f64_mul s HOP_DECAY) ∧ proper (propagated s w).
Proof.
  intros [Hc Hn] [Hcw Hnw] Hnan. unfold propagated in *.
  assert (is_nan (f64_mul s HOP_DECAY) = false) as H1 by (by destruct (f64_mul s HOP_DECAY)).
  destruct (f64_mul_canonical s HOP_DECAY Hc eq_refl Hn eq_refl H1) as [H2 H3].
  split; [by split|]. by apply f64_mul_canonical.
Qed.

Lemma propagated_mono s s' w :
  proper s → proper s' → proper w → (f64_rank s ≤ f64_rank s')%Z →
  is_nan (propagated s w) = false → is_nan (propagated s' w) = false →
  (f64_rank (propagated s w) ≤ f64_rank (propagated s' w))%Z.
Proof.
  intros Hs Hs' Hw Hle Hn Hn'.
  destruct (propagated_proper s w Hs Hw Hn) as [[H1 H2] _].
  destruct (propagated_proper s' w Hs' Hw Hn') as [[H3 H4] _].
  destruct Hs as [Hs1 Hs2], Hs' as [Hs1' Hs2'], Hw as [Hw1 Hw2].
  apply f64_mul_mono; try done. apply f64_mul_mono; try done.
  by apply f64_nonneg_number.
Qed.

Lemma edge_weight_proper e :
  float_ge (e_confidence e) f32_zero = true → proper (edge_weight e).
Proof.
  intros Hc. pose proof (f64_of_f32_nonneg _ Hc) as Hn. pose proof (f64_of_f32_canonical _ Hn) as Hcan.
  unfold edge_weight. set (k := traversal_weight (e_kind e)).
  assert (proper k ∧ is_finite k = true ∧ f64_mul k (S754_infinity false) = S754_infinity false)
    as ([Hk1 Hk2] & Hk3 & Hk4).
  { unfold k, proper. by destruct (e_kind e). }
  apply f64_mul_canonical; try done.
  assert (f64_of_f32 (e_confidence e) = S754_infinity false ∨
    f64_of_f32 (e_confidence e) ≠ S754_infinity false) as [->|Hne]; [|by rewrite Hk4|].
  { destruct (f64_of_f32 _) as [|[]| |]; by (left + right). }
  by apply f64_mul_finite.
Qed.

(** A product of proper values is no number only when it multiplies zero with infinity. *)
Lemma product_nan x y : proper x → proper y → is_nan (f64_mul x y) = true →
  f64_rank x = 0%Z ∧ y = S754_infinity false ∨ x = S754_infinity false ∧ f64_rank y = 0%Z.
Proof.
  intros [Hx Hnx] [Hy Hny] Hn.
  destruct x as [sx|[]| |[] m e], y as [sy|[]| |[] m' e']; try done; try (by left); try (by right).
  by rewrite f64_mul_finite in Hn.
Qed.

Lemma product_zero x y : proper x → f64_rank x = 0%Z ∨ f64_rank y = 0%Z → proper y →
  is_nan (f64_mul x y) = false → f64_rank (f64_mul x y) = 0%Z.
Proof.
  intros [Hx Hnx] H [Hy Hny] Hn.
  assert (∀ s m e, f64_nonneg (S754_finite s m e) = true → f64_rank (S754_finite s m e) ≠ 0%Z) as Hf.
  { intros [] m e He; cbn [f64_nonneg f64_rank] in *; split_bools; (done || lia). }
  destruct x as [sx|[]| |[] m e], y as [sy|[]| |[] m' e']; try done;
    destruct H as [H|H]; try done; revert H; first [by apply Hf|intros H; by destruct (Hf _ _ _ Hnx H)|intros H; by destruct (Hf _ _ _ Hny H)].
Qed.

Lemma seed_score_canonical n : canonical (seed_score n) = true.
Proof.
  unfold seed_score, api_multiplier. destruct (n_kind n), (has_public n); vm_compute; done.
Qed.

Section walks.
Context (changed : list Node) (edges : list Edge).
Context (Hconf : Forall (λ e, float_ge (e_confidence e) f32_zero = true) edges).

Lemma linked_proper u v w : linked edges u v w → proper w.
Proof.
  intros (e & He & -> & _). apply edge_weight_proper. rewrite Forall_forall in Hconf. by apply Hconf.
Qed.

Lemma carried_proper v s : carried changed edges v s → is_nan s = true ∨ proper s.
Proof.
  induction 1 as [v s Hs|u v s w _ IH Hl].
  - right. apply seed_scores_lookup in Hs as (n & _ & _ & ->).
    split; [apply seed_score_canonical|apply seed_score_ok].
  - destruct IH as [Hn|Hs]; [left; by destruct s|].
    destruct (is_nan (propagated s w)) eqn:Hnan; [by left|right].
    by apply (propagated_proper s w Hs (linked_proper _ _ _ Hl)).
Qed.

Context (scores : Scores).
Context (Hok : ∀ v s, scores !! v = Some s → proper s).
Context (Hseed : ∀ v, (f64_rank (score_of (seed_scores changed) v) ≤ f64_rank (score_of scores v))%Z).
Context (Hedge : ∀ u v w, linked edges u v w →
  float_gt (propagated (score_of scores u) w) (score_of scores v) = false).

Lemma score_of_proper v : proper (score_of scores v).
Proof. unfold score_of. destruct (scores !! v) eqn:E; [by apply (Hok v)|done]. Qed.

(** The score a walk carries is no number when an infinite confidence met a zero, or it is
    at most the recorded one. *)
Lemma carried_below v s : carried changed edges v s →
  is_nan s = true ∨ proper s ∧ (f64_rank s ≤ f64_rank (score_of scores v))%Z.
Proof.
  induction 1 as [v s Hs|u v s w _ IH Hl].
  - right. pose proof (Hseed v) as Hle. unfold score_of at 1 in Hle. rewrite Hs in Hle.
    apply seed_scores_lookup in Hs as (n & _ & _ & ->).
    split; [split; [apply seed_score_canonical|apply seed_score_ok]|done].
  - destruct IH as [Hn|[Hs Hle]]; [left; by destruct s|].
    destruct (is_nan (propagated s w)) eqn:Hnan; [by left|right].
    pose proof (linked_proper _ _ _ Hl) as Hw. pose proof (Hedge _ _ _ Hl) as Hgt.
    destruct (propagated_proper s w Hs Hw Hnan) as [_ Hp]. split; [done|].
    pose proof (score_of_proper v) as Hv.
    destruct (is_nan (propagated (score_of scores u) w)) eqn:Hnan'.
    + assert (f64_rank (propagated s w) = 0%Z) as ->; [|by apply f64_rank_bounds, Hv].
      pose proof (score_of_proper u) as Hu.
      assert (proper (f64_mul (score_of scores u) HOP_DECAY)) as Hu'.
      { apply f64_mul_canonical; try apply Hu; try done. destruct Hu as [Hu1 Hu2].
        by destruct (score_of scores u) as [|[]| |[]]; try done; apply f64_mul_finite. }
      destruct (propagated_proper s w Hs Hw Hnan) as [Hs' _]. apply product_zero; [done| |done|done].
      destruct (product_nan _ _ Hu' Hw Hnan') as [[H0 _]|[_ H0]]; [left|by right].
      assert (f64_rank (f64_mul s HOP_DECAY) ≤ f64_rank (f64_mul (score_of scores u) HOP_DECAY))%Z.
      { destruct Hs, Hu. apply f64_mul_mono; try done. apply f64_nonneg_number, Hu'. }
      pose proof (f64_rank_bounds _ (proj2 Hs')). lia.
    + etrans; [by apply (propagated_mono s (score_of scores u)); try apply score_of_proper|].
      destruct (propagated_proper _ w (score_of_proper u) Hw Hnan') as [_ [_ Hp2]].
      destruct Hv as [_ Hv2]. apply not_true_iff_false in Hgt.
      rewrite float_gt_rank in Hgt by done. lia.
Qed.
End walks.

(** ** Sorting by score *)

Definition score_rank_cmp : ScoredImpactNode → ScoredImpactNode → comparison :=
  cmp_lex (cmp_rev (cmp_on (λ s, f64_rank (impact_score s)) Z.compare))
    (cmp_on (λ s, n_qualified_name (sc_node s)) String.compare).

Lemma scored_cmp_rank a b :
  f64_nonneg (impact_score a) = true → f64_nonneg (impact_score b) = true →
  scored_cmp a b = score_rank_cmp a b.
Proof.
  intros Ha Hb. unfold scored_cmp, score_rank_cmp, cmp_lex, cmp_rev, cmp_on, partial_cmp_or_equal.
  rewrite f64_compare_rank by done. simpl. by rewrite Z.compare_antisym.
Qed.

Lemma test_edge_ends_elem edges q :
  q ∈ test_edge_ends edges ↔
  ∃ e, e ∈ edges ∧ is_test_edge e = true ∧ (e_source_qn e = q ∨ e_target_qn e = q).
Proof.
  unfold test_edge_ends. rewrite elem_of_list_to_set, list_elem_of_In, in_concat. split.
  - intros (l & (e & <- & He)%in_map_iff & Hq).
    apply list_elem_of_In, list_elem_of_filter in He as [Ht%Is_true_true He].
    exists e. split_and!; [done|done|]. simpl in Hq. tauto.
  - intros (e & He & Ht & Hq). exists [e_source_qn e; e_target_qn e]. split; [|simpl; tauto].
    apply in_map_iff. exists e. split; [done|]. apply list_elem_of_In, list_elem_of_filter.
    by rewrite Is_true_true.
Qed.

Lemma names_of_elem q nodes : q ∈ names_of nodes ↔ ∃ n, n ∈ nodes ∧ n_qualified_name n = q.
Proof.
  unfold names_of. rewrite elem_of_list_to_set, list_elem_of_fmap. naive_solver.
Qed.

(** ** Properties *)

Section properties.
Context (set_order : gset string → list string) (extra_str : Node → string → option string).

(** C31. Impact analysis ends on every graph, cycles and any edge weights included: with
    enough rounds of the propagation loop, and with any more, it returns the same result. *)
Theorem analyze_total (base : ImpactResult) :
  ∃ fuel r, ∀ fuel', (fuel ≤ fuel')%nat → analyze set_order extra_str fuel' base = Some r.
Proof.
  destruct (propagate_returns (adjacency (relevant_edges base)) (seed_scores (changed_nodes base))
    (map n_qualified_name (changed_nodes base)) (seed_scores_ok _)) as (fuel & scores & Hs).
  exists fuel. eexists. intros fuel' Hle. unfold analyze, score_nodes.
  rewrite (propagate_enough _ _ _ _ _ _ Hle Hs). reflexivity.
Qed.

(** C8. The propagated scores are exact: a changed node keeps at least its own score; every
    score is zero or carried by a walk over the edges, in either direction, from a changed
    node (each hop decays it and multiplies it with the edge's weight, in floating point);
    no edge carries a higher score to its end than the one recorded there; and, when no
    confidence is negative, no walk at all carries a higher score to its end. So each score
    is the best that any walk carries. *)
Theorem propagate_exact fuel (changed : list Node) (edges : list Edge) (scores : Scores) :
  propagate fuel (adjacency edges) (seed_scores changed) (map n_qualified_name changed)
    = Some scores →
  (∀ n, n ∈ changed →
    float_gt (score_of (seed_scores changed) (n_qualified_name n))
      (score_of scores (n_qualified_name n)) = false) ∧
  (∀ v, score_of scores v = f64_zero ∨ carried changed edges v (score_of scores v)) ∧
  (∀ u v w, linked edges u v w →
    float_gt (propagated (score_of scores u) w) (score_of scores v) = false) ∧
  (Forall (λ e, float_ge (e_confidence e) f32_zero = true) edges →
   ∀ v s, carried changed edges v s → float_gt s (score_of scores v) = false).
Proof.
  intros Hp. pose proof (propagate_inv _ _ _ _ _ _ (propagate_start changed edges) Hp)
    as [Hok Hca Hse Hst].
  assert (∀ u v w, linked edges u v w →
    float_gt (propagated (score_of scores u) w) (score_of scores v) = false) as Hedge.
  { intros u v w Hl. destruct (scores !! u) as [s|] eqn:Hu.
    + destruct (Hst u s Hu) as [?%elem_of_nil|[Hset|(? & ? & _)]]; [done| |done].
      unfold score_of at 1. rewrite Hu. apply Hset. by apply adjacency_linked.
    + unfold score_of at 1. rewrite Hu. apply propagated_zero. by apply score_of_ok. }
  split_and!; [| |done|].
  - intros n _. apply not_true_iff_false. intros Hgt%float_gt_rank.
    + specialize (Hse (n_qualified_name n)). lia.
    + by apply score_of_ok.
    + apply score_of_ok, seed_scores_ok.
  - intros v. unfold score_of. destruct (scores !! v) as [s|] eqn:Hv; [|by left]. by apply Hca.
  - intros Hconf v s Hs. apply not_true_iff_false. intros Hgt.
    assert (∀ u x, scores !! u = Some x → proper x) as Hpr.
    { intros u x Hx. destruct (Hca u x Hx) as [->|Hc]; [done|].
      destruct (carried_proper _ _ Hconf _ _ Hc) as [Hn|]; [|done].
      by rewrite (f64_nonneg_number x) in Hn by apply (Hok u x Hx). }
    destruct (carried_below changed edges Hconf scores Hpr Hse Hedge v s Hs) as [Hn|[[_ Hnn] Hle]].
    + by destruct s, (score_of scores v) as [|[]| |[]].
    + apply float_gt_rank in Hgt; [lia|by apply score_of_ok|done].
Qed.

Lemma score_node_ok base t vs scores n :
  scores_ok scores → f64_nonneg (impact_score (score_node base t vs scores n)) = true.
Proof.
  intros Hok. simpl. unfold boost.
  repeat (case_bool_decide; [apply f64_add_nonneg; [|done]|]); by apply (score_of_ok scores).
Qed.

(** The ranking of an analysis lists every changed and every impacted node once, in
    descending order of score, equal scores by name; no score is NaN or negative. *)
Theorem analyze_ranked fuel (base : ImpactResult) (r : AdvancedImpactResult) :
  analyze set_order extra_str fuel base = Some r →
  map sc_node (scored_nodes r) ≡ₚ changed_nodes base ++ impacted_nodes base ∧
  sorted_by score_rank_cmp (scored_nodes r) ∧
  Forall (λ s, f64_nonneg (impact_score s) = true) (scored_nodes r).
Proof.
  unfold analyze, score_nodes.
  destruct (propagate _ _ _ _) as [scores|] eqn:Hp; [|done]. intros [= <-]. simpl.
  pose proof (pi_ok _ _ _ _ _ (propagate_inv _ _ _ _ _ _ (propagate_start _ _) Hp)) as Hok.
  set (l := map _ (all_nodes base)).
  assert (∀ s, s ∈ l → f64_nonneg (impact_score s) = true) as Hl.
  { intros s (n & -> & _)%list_elem_of_fmap. by apply score_node_ok. }
  rewrite (sort_by_ext scored_cmp score_rank_cmp) by (intros; apply scored_cmp_rank; by apply Hl).
  split_and!.
  - rewrite sort_by_perm. unfold l. rewrite map_map. simpl. by rewrite map_id.
  - apply (sort_by_sorted score_rank_cmp).
  - apply Forall_forall. intros s Hs%sort_by_elem. by apply Hl.
Qed.

(** ** Boundaries, tests and risk *)

(** An impacted node whose place no changed node shares. *)
Definition crosses (place : Node → string) (base : ImpactResult) (n : Node) : Prop :=
  n ∈ impacted_nodes base ∧ ∀ c, c ∈ changed_nodes base → place c ≠ place n.

Definition place_of (kind : BoundaryKind) : Node → string :=
  match kind with
  | CrossModule => λ n, module_of (n_file_path n)
  | CrossPackage => package_of extra_str
  | CrossRepo => repo_of extra_str
  end.

Lemma outside_elem place base qn :
  qn ∈ outside place base ↔ ∃ n, crosses place base n ∧ n_qualified_name n = qn.
Proof.
  unfold outside, crosses. rewrite list_elem_of_fmap. setoid_rewrite list_elem_of_filter. split.
  - intros (n & -> & Hp & Hn). exists n. split_and!; [done| |done]. intros c Hc Heq.
    apply Is_true_true, negb_true_iff, bool_decide_eq_false in Hp. apply Hp.
    apply elem_of_list_to_set, list_elem_of_fmap. by exists c.
  - intros (n & [Hn Hp] & <-). exists n. split_and!; [done| |done].
    apply Is_true_true, negb_true_iff, bool_decide_eq_false.
    intros (c & Hc & Hcin)%elem_of_list_to_set%list_elem_of_fmap. by apply (Hp c).
Qed.

Lemma sorted_names qns :
  StronglySorted (λ x y, String.compare x y = Lt) (dedup_by_key id (sort_by String.compare qns)) ∧
  ∀ q, q ∈ dedup_by_key id (sort_by String.compare qns) ↔ q ∈ qns.
Proof.
  split.
  - apply (dedup_by_key_sorted id String.compare); [|apply (sort_by_sorted String.compare)].
    intros x y. unfold id.
    split; [apply String.compare_eq_iff|intros ->; apply (cmp_refl String.compare)].
  - intros q. rewrite <-(sort_by_elem String.compare q qns). split.
    + intros Hq. eapply elem_of_sublist; [exact Hq|]. apply dedup_by_key_sublist.
    + intros Hq. destruct (dedup_by_key_covers id _ q Hq) as (y & Hy & Heq).
      unfold id in Heq. by subst.
Qed.

Lemma violation_elem kind what qns v :
  v ∈ violation kind what qns →
  qns ≠ [] ∧ v_kind v = kind ∧ v_nodes v = dedup_by_key id (sort_by String.compare qns).
Proof. destruct qns as [|q qns]; [by intros ?%elem_of_nil|]. by intros ->%list_elem_of_singleton. Qed.

Lemma violation_any kind what qns : qns ≠ [] → ∃ v, v ∈ violation kind what qns.
Proof. destruct qns as [|q qns]; [done|]. intros _. eexists. constructor. Qed.

Definition what_of (kind : BoundaryKind) : string :=
  match kind with CrossModule => "modules" | CrossPackage => "packages" | CrossRepo => "repos" end.

Lemma detect_elem base v :
  v ∈ detect_boundary_violations extra_str base ↔
  v ∈ violation (v_kind v) (what_of (v_kind v)) (outside (place_of (v_kind v)) base).
Proof.
  unfold detect_boundary_violations. rewrite !elem_of_app. split.
  - intros [H|[H|H]]; pose proof (violation_elem _ _ _ _ H) as (_ & -> & _); exact H.
  - destruct (v_kind v); simpl; auto.
Qed.

Lemma detect_kind base kind :
  (∃ v, v ∈ detect_boundary_violations extra_str base ∧ v_kind v = kind) ↔
  ∃ n, crosses (place_of kind) base n.
Proof.
  split.
  - intros (v & Hv%detect_elem & <-). destruct (violation_elem _ _ _ _ Hv) as (Hne & _ & _).
    destruct (outside _ base) as [|q qns] eqn:E; [done|].
    assert (q ∈ outside (place_of (v_kind v)) base) as Hq by (rewrite E; constructor).
    apply outside_elem in Hq as (n & Hn & _). by exists n.
  - intros [n Hn].
    destruct (violation_any kind (what_of kind) (outside (place_of kind) base)) as [v Hv].
    + intros E. assert (n_qualified_name n ∈ outside (place_of kind) base) as Hq
        by (apply outside_elem; by exists n).
      rewrite E in Hq. by apply elem_of_nil in Hq.
    + destruct (violation_elem _ _ _ _ Hv) as (_ & Hk & _). exists v. split; [|done].
      apply detect_elem. by rewrite Hk.
Qed.

(** A crossed boundary (module, package or repository) is reported exactly when an
    impacted node lies outside the places of all changed nodes, at most once each; the
    report names exactly those nodes, sorted and without repetition. *)
Theorem boundary_violations_exact (base : ImpactResult) :
  let vs := detect_boundary_violations extra_str base in
  NoDup (map v_kind vs) ∧
  (∀ kind, kind ∈ map v_kind vs ↔ ∃ n, crosses (place_of kind) base n) ∧
  ∀ v, v ∈ vs →
    StronglySorted (λ x y, String.compare x y = Lt) (v_nodes v) ∧
    ∀ qn, qn ∈ v_nodes v ↔ ∃ n, crosses (place_of (v_kind v)) base n ∧ n_qualified_name n = qn.
Proof.
  intros vs. split_and!.
  - unfold vs, detect_boundary_violations, violation.
    destruct (outside _ base), (outside _ base), (outside _ base); simpl;
      repeat constructor; set_solver.
  - intros kind. rewrite list_elem_of_fmap, <-detect_kind. naive_solver.
  - intros v Hv%detect_elem. destruct (violation_elem _ _ _ _ Hv) as (_ & _ & ->).
    destruct (sorted_names (outside (place_of (v_kind v)) base)) as [Hs Hin].
    split; [done|]. intros qn. rewrite Hin. apply outside_elem.
Qed.

(** What the risk level depends on. *)
Definition changed_like (k : ChangeKind) (base : ImpactResult) : Prop :=
  ∃ n, n ∈ all_nodes base ∧ classify_node n = k ∧
    ∃ c, c ∈ changed_nodes base ∧ n_qualified_name c = n_qualified_name n.

Definition crossed (kind : BoundaryKind) (base : ImpactResult) : Prop :=
  ∃ n, crosses (place_of kind) base n.

Definition untested_change (base : ImpactResult) : Prop :=
  ∃ n, n ∈ changed_nodes base ∧ is_test_node n = false ∧
    ∀ e, e ∈ relevant_edges base → is_test_edge e = true →
      e_source_qn e ≠ n_qualified_name n ∧ e_target_qn e ≠ n_qualified_name n.

Lemma uncovered_spec base :
  (match uncovered_changed_nodes (compute_test_impact set_order base) with
   | [] => false | _ => true end) = true ↔ untested_change base.
Proof.
  simpl. set (l := filter _ (changed_nodes base)).
  assert (∀ n, n ∈ l ↔ n ∈ changed_nodes base ∧ is_test_node n = false ∧
    n_qualified_name n ∉ test_edge_ends (relevant_edges base)) as Hl.
  { intros n. unfold l. rewrite list_elem_of_filter, Is_true_true.
    rewrite !andb_true_iff, !negb_true_iff, !bool_decide_eq_false.
    unfold is_test_node. rewrite orb_false_iff, bool_decide_eq_false. tauto. }
  transitivity (∃ n, n ∈ l).
  - destruct (sort_by name_cmp l) as [|x s] eqn:E.
    + split; [done|]. intros [n Hn%(sort_by_elem name_cmp)]. rewrite E in Hn.
      by apply elem_of_nil in Hn.
    + split; [|done]. intros _. exists x. apply (sort_by_elem name_cmp). rewrite E. constructor.
  - unfold untested_change. apply exist_proper. intros n. rewrite Hl. rewrite test_edge_ends_elem.
    split.
    + intros (Hn & Ht & He). split_and!; [done|done|]. intros e Hin Hte.
      split; intros Heq; apply He; exists e; auto.
    + intros (Hn & Ht & He). split_and!; [done|done|]. intros (e & Hin & Hte & Heq).
      destruct (He e Hin Hte). by destruct Heq.
Qed.

Lemma any_change_spec base t vs scores k :
  existsb (λ s, bool_decide (change_kind s = Some k))
    (sort_by scored_cmp (map (score_node base t vs scores) (all_nodes base))) = true ↔
  changed_like k base.
Proof.
  rewrite existsb_exists. unfold changed_like. split.
  - intros (s & Hs%list_elem_of_In & Hk%bool_decide_eq_true).
    apply sort_by_elem, list_elem_of_fmap in Hs as (n & -> & Hn). simpl in Hk.
    case_bool_decide as Hc; [|done]. injection Hk as Hk. exists n.
    split_and!; [done|done|]. by apply names_of_elem.
  - intros (n & Hn & Hk & Hc). exists (score_node base t vs scores n). split.
    + apply list_elem_of_In, sort_by_elem, list_elem_of_fmap. by exists n.
    + apply bool_decide_eq_true. simpl. rewrite bool_decide_true by (by apply names_of_elem).
      by rewrite Hk.
Qed.

Lemma any_cross_spec base k :
  existsb (λ v, bool_decide (v_kind v = k)) (detect_boundary_violations extra_str base) = true ↔
  crossed k base.
Proof.
  unfold crossed. rewrite <-detect_kind, existsb_exists. split.
  - intros (v & Hv%list_elem_of_In & Hk%bool_decide_eq_true). by exists v.
  - intros (v & Hv & Hk). exists v. split; [by apply list_elem_of_In|by apply bool_decide_eq_true].
Qed.

(** The risk level is a threshold on what the change touches. Critical: a changed public
    type or a public function without a recorded signature, together with any crossed
    boundary. At least high: one of them alone, a crossed repository, or a crossed package
    with an untested change or more than five impacted nodes. At least medium: also a
    changed public signature, a crossed module, more than twenty impacted nodes or an
    untested change. *)
Theorem risk_level_spec fuel (base : ImpactResult) (r : AdvancedImpactResult) :
  analyze set_order extra_str fuel base = Some r →
  let api := changed_like ApiChange base in
  let high := crossed CrossRepo base ∨ api ∨
    crossed CrossPackage base ∧ (untested_change base ∨ (5 < length (impacted_nodes base))%nat) in
  (risk_level r = Critical ↔ api ∧ ∃ kind, crossed kind base) ∧
  (risk_level r ∈ [Critical; High] ↔ high) ∧
  (risk_level r ≠ Low ↔ high ∨ changed_like SignatureChange base ∨ crossed CrossModule base ∨
    (20 < length (impacted_nodes base))%nat ∨ untested_change base).
Proof.
  unfold analyze, score_nodes. destruct (propagate _ _ _ _) as [scores|]; [|done].
  intros [= <-]. cbn [risk_level mbind option_bind]. unfold compute_risk_level.
  pose proof (any_change_spec base (compute_test_impact set_order base)
    (detect_boundary_violations extra_str base) scores) as Hchange.
  pose proof (any_cross_spec base) as Hcross. pose proof (uncovered_spec base) as Hunc.
  pose proof (Hchange ApiChange) as HA. pose proof (Hchange SignatureChange) as HS.
  pose proof (Hcross CrossRepo) as HR. pose proof (Hcross CrossPackage) as HP.
  pose proof (Hcross CrossModule) as HM.
  assert ((∃ kind, crossed kind base) ↔
    crossed CrossRepo base ∨ crossed CrossPackage base ∨ crossed CrossModule base) as Hany.
  { split; [intros [[] ?]; auto|]. intros [?|[?|?]]; eauto. }
  rewrite Hany, <-HA, <-HS, <-HR, <-HP, <-HM, <-Hunc, <-(Nat.ltb_lt 5), <-(Nat.ltb_lt 20).
  clear. rewrite !elem_of_cons, elem_of_nil.
  destruct (existsb _ (sort_by _ _)), (existsb _ (sort_by _ _)), (existsb _ (detect_boundary_violations _ _)),
    (existsb _ (detect_boundary_violations _ _)), (existsb _ (detect_boundary_violations _ _)),
    (match uncovered_changed_nodes _ with [] => _ | _ => _ end), (5 <? _)%nat, (20 <? _)%nat;
    simpl; intuition discriminate.
Qed.
End properties.

Section tests.
Context (set_order : gset string → list string).

Lemma node_index_unique nodes q n :
  NoDup (map n_qualified_name nodes) →
  node_index nodes !! q = Some n ↔ n ∈ nodes ∧ n_qualified_name n = q.
Proof.
  intros Hnd. unfold node_index.
  assert (∀ m : gmap string Node, (∀ x, x ∈ nodes → m !! n_qualified_name x = None) →
    foldl (λ index n, <[n_qualified_name n := n]> index) m nodes !! q = Some n ↔
    m !! q = Some n ∨ n ∈ nodes ∧ n_qualified_name n = q) as H.
  { induction nodes as [|x nodes IH]; intros m Hm; simpl.
    - rewrite elem_of_nil. tauto.
    - simpl in Hnd. apply NoDup_cons in Hnd as [Hx Hnd]. rewrite IH; [|done|].
      + rewrite elem_of_cons. destruct (decide (q = n_qualified_name x)) as [->|Hne].
        * rewrite lookup_insert_eq, (Hm x) by constructor. split.
          -- intros [[= ->]|[? ?]]; auto.
          -- intros [?|[[->|Hn] Hq]]; [done|by left|]. right. auto.
        * rewrite lookup_insert_ne by done. intuition congruence.
      + intros y Hy. rewrite lookup_insert_ne; [apply Hm; by constructor|].
        intros E. apply Hx. rewrite E. apply list_elem_of_fmap. by exists y. }
  rewrite H; [|done]. rewrite lookup_empty. split; [by intros [|]|tauto].
Qed.

Lemma first_of_name_spec nodes : ∀ seen,
  NoDup (map n_qualified_name (first_of_name seen nodes)) ∧
  (∀ n, n ∈ first_of_name seen nodes → n ∈ nodes ∧ n_qualified_name n ∉ seen) ∧
  (∀ n, n ∈ nodes → n_qualified_name n ∉ seen →
    n_qualified_name n ∈ map n_qualified_name (first_of_name seen nodes)).
Proof.
  induction nodes as [|x nodes IH]; intros seen; simpl.
  { split_and!; [constructor|by intros n ?%elem_of_nil|by intros n ?%elem_of_nil]. }
  case_bool_decide as Hx.
  - destruct (IH seen) as (H1 & H2 & H3). split_and!; [done| |].
    + intros n Hn. destruct (H2 n Hn). split; [by constructor|done].
    + intros n [->|Hn]%elem_of_cons Hs; [done|by apply H3].
  - destruct (IH ({[n_qualified_name x]} ∪ seen)) as (H1 & H2 & H3). simpl. split_and!.
    + constructor; [|done]. intros (y & Hy & Hin)%list_elem_of_fmap.
      destruct (H2 y Hin) as [_ Hs]. apply Hs. rewrite <-Hy. set_solver.
    + intros n [->|Hn]%elem_of_cons; [split; [constructor|done]|].
      destruct (H2 n Hn) as [? Hs]. split; [by constructor|]. set_solver.
    + intros n [->|Hn]%elem_of_cons Hs; [constructor|]. rewrite elem_of_cons.
      destruct (decide (n_qualified_name n = n_qualified_name x)) as [E|Hne]; [by left|right].
      apply H3; [done|]. set_solver.
Qed.

(** With distinct names the affected tests are exactly the test nodes among the changed
    and impacted nodes, sorted by name, whatever the iteration order of the hash sets. *)
Theorem affected_tests_exact (base : ImpactResult) :
  (∀ s : gset string, set_order s ≡ₚ elements s) →
  NoDup (map n_qualified_name (all_nodes base)) →
  sorted_by name_cmp (affected_tests (compute_test_impact set_order base)) ∧
  affected_tests (compute_test_impact set_order base) ≡ₚ filter is_test_node (all_nodes base).
Proof.
  intros Hord Hnd. simpl. set (src := filter is_test_node (omap _ _)).
  split; [apply (sort_by_sorted name_cmp)|]. rewrite sort_by_perm.
  destruct (first_of_name_spec src ∅) as (H1 & H2 & H3).
  assert (∀ n, n ∈ src → n ∈ filter is_test_node (all_nodes base)) as Hsrc.
  { intros n [Ht (q & _ & Hq)%list_elem_of_omap]%list_elem_of_filter.
    apply node_index_unique in Hq as [Hn _]; [|done]. by apply list_elem_of_filter. }
  assert (NoDup (all_nodes base)) as Hnd' by (by eapply NoDup_fmap_1).
  assert (∀ x y, x ∈ all_nodes base → y ∈ all_nodes base →
    n_qualified_name x = n_qualified_name y → x = y) as Hinj.
  { intros x y Hx Hy E.
    assert (node_index (all_nodes base) !! n_qualified_name x = Some x) as E1
      by (by apply node_index_unique).
    assert (node_index (all_nodes base) !! n_qualified_name x = Some y) as E2
      by (by apply node_index_unique).
    congruence. }
  apply NoDup_Permutation; [by eapply NoDup_fmap_1|by apply NoDup_filter|].
  intros n. split; [by intros [? _]%H2; apply Hsrc|].
  intros Hn. pose proof Hn as [Ht Hin]%list_elem_of_filter.
  assert (n ∈ src) as Hs.
  { apply list_elem_of_filter. split; [done|]. apply list_elem_of_omap.
    exists (n_qualified_name n). split; [|by apply node_index_unique].
    apply elem_of_app. left. rewrite Hord. apply elem_of_elements, names_of_elem.
    exists n. split; [|done]. by apply list_elem_of_filter. }
  destruct (list_elem_of_fmap n_qualified_name (first_of_name ∅ src) (n_qualified_name n)) as [Hf _].
  destruct (Hf (H3 n Hs (not_elem_of_empty _))) as (y & Hy & Hyin).
  rewrite (Hinj n y); [done|done| |done].
  destruct (H2 y Hyin) as [Hys _]. by apply Hsrc, list_elem_of_filter in Hys as [_ ?].
Qed.
End tests.

(** ** An example: a cycle of calls, a test and a node of another module *)

Definition demo_node (name file : string) (kind : NodeKind) (test : bool) : Node :=
  mk_node 0 kind name name file 1 9 "rust" None None None (Some "pub") test "".

Definition demo_edge (kind : EdgeKind) (src dst : string) : Edge :=
  mk_edge 0 kind src dst "" None f32_1 None.

Definition demo_base : ImpactResult :=
  mk_impact [demo_node "a" "src/m/a.rs" NkStruct false]
    [demo_node "b" "src/n/b.rs" NkFunction false; demo_node "t" "src/m/t.rs" NkTest true] []
    [demo_edge EkCalls "a" "b"; demo_edge EkCalls "b" "a"; demo_edge EkTests "t" "b"]
    [] None (within_budget "demo" 10 3).

Definition demo_analysis : option AdvancedImpactResult :=
  analyze elements (λ _ _, None) 20 demo_base.

Example demo_risk : risk_level <$> demo_analysis = Some Critical.
Proof. vm_compute. reflexivity. Qed.

Example demo_ranking :
  (λ r, map (λ s, n_qualified_name (sc_node s)) (scored_nodes r)) <$> demo_analysis =
  Some ["a"; "b"; "t"].
Proof. vm_compute. reflexivity. Qed.

Definition demo_result : AdvancedImpactResult := Eval vm_compute in
  default (mk_advanced demo_base [] Low (mk_test_impact [] []) []) demo_analysis.

Lemma analyze_ranked_witness :
  analyze elements (λ _ _, None) 20 demo_base = Some demo_result ∧
  map sc_node (scored_nodes demo_result) ≡ₚ changed_nodes demo_base ++ impacted_nodes demo_base.
Proof.
  assert (analyze elements (λ _ _, None) 20 demo_base = Some demo_result) as H
    by (vm_compute; reflexivity).
  split; [exact H|]. exact (proj1 (analyze_ranked elements (λ _ _, None) 20 demo_base demo_result H)).
Defined.

Lemma risk_level_spec_witness :
  analyze elements (λ _ _, None) 20 demo_base = Some demo_result ∧
  changed_like ApiChange demo_base ∧ ∃ kind, crossed (λ _ _, None) kind demo_base.
Proof.
  assert (analyze elements (λ _ _, None) 20 demo_base = Some demo_result) as H
    by (vm_compute; reflexivity).
  split; [exact H|].
  pose proof (risk_level_spec elements (λ _ _, None) 20 demo_base demo_result H) as [Hc _].
  by apply Hc.
Defined.

Definition demo_scores : Scores := Eval vm_compute in
  default ∅ (propagate 20 (adjacency (relevant_edges demo_base)) (seed_scores (changed_nodes demo_base))
    (map n_qualified_name (changed_nodes demo_base))).

Lemma propagate_exact_witness :
  propagate 20 (adjacency (relevant_edges demo_base)) (seed_scores (changed_nodes demo_base))
    (map n_qualified_name (changed_nodes demo_base)) = Some demo_scores ∧
  carried (changed_nodes demo_base) (relevant_edges demo_base) "t" (score_of demo_scores "t") ∧
  ∀ s, carried (changed_nodes demo_base) (relevant_edges demo_base) "t" s →
    float_gt s (score_of demo_scores "t") = false.
Proof.
  assert (propagate 20 (adjacency (relevant_edges demo_base)) (seed_scores (changed_nodes demo_base))
    (map n_qualified_name (changed_nodes demo_base)) = Some demo_scores) as H
    by (vm_compute; reflexivity).
  split; [exact H|].
  destruct (propagate_exact 20 _ _ _ H) as (_ & Hc & _ & Hbest). split.
  - destruct (Hc "t") as [Hz|Hw]; [|exact Hw]. vm_compute in Hz. discriminate Hz.
  - apply Hbest. apply (bool_decide_unpack _). vm_compute. exact I.
Defined.

Lemma affected_tests_exact_witness :
  NoDup (map n_qualified_name (all_nodes demo_base)) ∧
  affected_tests (compute_test_impact elements demo_base) ≡ₚ
    filter is_test_node (all_nodes demo_base).
Proof.
  assert (NoDup (map n_qualified_name (all_nodes demo_base))) as H.
  { apply (bool_decide_unpack _). vm_compute. exact I. }
  split; [exact H|].
  exact (proj2 (affected_tests_exact elements demo_base (λ s, reflexivity _) H)).
Defined.
