(* ===== verification/ContextBuild.v ===== *)
(** * Review contexts: resolution and construction

    Model of [packages/atlas-review/src/context/resolve.rs], [symbol.rs] and [build.rs]: a
    request is resolved against the graph store, its neighbourhood is collected hop by hop
    or taken from the impact analysis, and the result is ranked, trimmed and summarised. The
    queries of the graph store are an interface; the order of hash sets and the string
    entries of a node's metadata are parameters. *)

From Stdlib Require Import Floats.SpecFloat.
From S2P Require Import Prelude RustStr RustFloat Budget Kinds Graph ContextData ContextRank.
From S2P Require Import ContextWorkflow.
From S2P Require Impact.

(** ** The store *)

Class ContextStore (E : Type) := {
  node_by_qname : string → result E (option Node);
  nodes_by_name : string → N → result E (list Node);
  nodes_by_file : string → result E (list Node);
  direct_callers : string → N → result E (list (Node * Edge));
  direct_callees : string → N → result E (list (Node * Edge));
  import_neighbors : string → N → result E (list (Node * Edge));
  containment_siblings : string → N → result E (list Node);
  test_neighbors : string → N → result E (list (Node * Edge));
  impact_radius : list string → N → N → N → result E Impact.ImpactResult;
  (** [atlas_search::search] with fuzzy matching: text and limit. *)
  fts_search : string → N → result E (list Node)
}.

Definition BUCKET_CALLERS : N := 15.
Definition BUCKET_CALLEES : N := 15.
Definition BUCKET_IMPORTS : N := 10.
Definition BUCKET_SIBLINGS : N := 10.
Definition BUCKET_TESTS : N := 10.

(** ** Resolution *)

Inductive ResolvedTarget :=
| ResolvedNode (node : Node)
| ResolvedFile (path : string)
| Ambiguous (meta : AmbiguityMeta)
| NotFound (suggestions : list string).

Definition canonical_kind (kind_lower : string) : string :=
  if String.eqb kind_lower "function" || String.eqb kind_lower "func" then "fn"
  else if String.eqb kind_lower "meth" then "method"
  else if String.eqb kind_lower "constant" then "const"
  else kind_lower.

Definition normalize_qn_kind_tokens (qname : string) : string :=
  match find_sub "::" qname with
  | None => qname
  | Some after_file =>
      let file_part := str_take after_file qname in
      let rest := str_drop (after_file + 2) qname in
      match find_sub "::" rest with
      | None => qname
      | Some pos =>
          let kind_token := str_take pos rest in
          let canonical := canonical_kind (to_ascii_lowercase kind_token) in
          if String.eqb canonical kind_token then qname
          else file_part +:+ "::" +:+ canonical +:+ str_drop pos rest
      end
  end.

Section build.
Context {E : Type} `{!ContextStore E}.

Definition fts_fallback (text : string) : result E ResolvedTarget :=
  results <-? fts_search text 8;;
  match results with
  | [] => Ok (NotFound [])
  | _ => Ok (Ambiguous (mk_ambiguity text (map n_qualified_name results) false))
  end.

Definition resolve_by_qname (qname : string) : result E ResolvedTarget :=
  found <-? node_by_qname qname;;
  match found with
  | Some node => Ok (ResolvedNode node)
  | None =>
      let normalised := normalize_qn_kind_tokens qname in
      if String.eqb normalised qname then fts_fallback qname
      else
        found <-? node_by_qname normalised;;
        match found with
        | Some node => Ok (ResolvedNode node)
        | None => fts_fallback qname
        end
  end.

Definition resolve_by_name (name : string) : result E ResolvedTarget :=
  ns <-? nodes_by_name name 9;;
  match ns with
  | [] => fts_fallback name
  | [node] => Ok (ResolvedNode node)
  | _ => Ok (Ambiguous (mk_ambiguity name (map n_qualified_name ns) false))
  end.

Definition resolve_by_file (path : string) : result E ResolvedTarget :=
  ns <-? nodes_by_file path;;
  match ns with
  | [] => Ok (NotFound [])
  | _ => Ok (ResolvedFile path)
  end.

Definition resolve_target (t : ContextTarget) : result E ResolvedTarget :=
  match t with
  | QualifiedName qname => resolve_by_qname qname
  | SymbolName name => resolve_by_name name
  | FilePath path => resolve_by_file path
  | ChangedFiles _ | ChangedSymbols _ | EdgeQuerySeed _ _ => Ok (NotFound [])
  end.

(** ** Results without a graph *)

Definition build_ambiguous_result (rq : ContextRequest) (meta : AmbiguityMeta) : ContextResult :=
  mk_result rq [] [] [] [] truncation_none [] None (Some meta) None [] not_applicable.

(** The derived [Debug] text of a target, an argument; no resolution gives suggestions. *)
Definition build_not_found_result (debug_target : ContextTarget → string) (rq : ContextRequest)
    (suggestions : list string) : ContextResult :=
  let amb :=
    match suggestions with
    | [] => None
    | _ => Some (mk_ambiguity (debug_target (target rq)) suggestions false)
    end in
  mk_result rq [] [] [] [] truncation_none [] None amb None [] not_applicable.

(** ** The neighbourhood of a symbol *)

Definition direct_node (n : Node) : SelectedNode :=
  mk_snode n DirectTarget 0 f32_zero (Some (from_selection_reason DirectTarget)).

Record Expansion := mk_expansion {
  x_nodes : list SelectedNode;
  x_edges : list SelectedEdge;
  x_seen : gset string;
  x_next : list string
}.

(** A node that was not seen is selected, with the edge that leads to it; the callers and
    callees are expanded at the next hop. *)
Definition select (reason : SelectionReason) (hop : N) (expand : bool) (n : Node) (e : option Edge)
    (x : Expansion) : Expansion :=
  let qn := n_qualified_name n in
  if bool_decide (qn ∈ x_seen x) then x
  else
    mk_expansion
      (x_nodes x ++ [mk_snode n reason hop f32_zero (Some (from_selection_reason reason))])
      (x_edges x ++
         match e with
         | Some e => [mk_sedge e reason (Some hop) f32_zero (Some (from_selection_reason reason))]
         | None => []
         end)
      ({[qn]} ∪ x_seen x) (if expand then x_next x ++ [qn] else x_next x).

(** [extra_json.get("repo_id")]. *)
Context (extra_str : Node → string → option string) (extra_has : Node → string → bool).
Context (set_order : gset string → list string).
Context (debug_target : ContextTarget → string).

Definition node_repo_id (n : Node) : option string := extra_str n "repo_id".

Definition keep_repo_local_neighbor (seed_repo_id : option string) (candidate : Node)
    (allow_cross_repo_edges : bool) : bool :=
  allow_cross_repo_edges || bool_decide (node_repo_id candidate = seed_repo_id).

Definition select_pairs (reason : SelectionReason) (hop : N) (expand : bool) (keep : Node → bool)
    (found : list (Node * Edge)) (x : Expansion) : Expansion :=
  foldl (λ x ne, if keep (fst ne) then select reason hop expand (fst ne) (Some (snd ne)) x else x)
    x found.

(** A query that the request may switch off. *)
Definition query_if {A} (b : bool) (q : result E (list A)) : result E (list A) :=
  if b then q else Ok [].

Definition expand_symbol (rq : ContextRequest) (seed_repo_id : option string) (hop : N)
    (fqname : string) (x : Expansion) : result E Expansion :=
  let keep n := keep_repo_local_neighbor seed_repo_id n (allow_cross_repo_edges rq) in
  let first := (hop =? 1)%N in
  found <-? query_if (include_callers rq) (direct_callers fqname BUCKET_CALLERS);;
  let x := select_pairs Caller hop true keep found x in
  found <-? query_if (include_callees rq) (direct_callees fqname BUCKET_CALLEES);;
  let x := select_pairs Callee hop true keep found x in
  found <-? query_if (include_imports rq) (import_neighbors fqname BUCKET_IMPORTS);;
  let x := select_pairs Importee hop false (λ _, true) found x in
  siblings <-? query_if (first && include_neighbors rq) (containment_siblings fqname BUCKET_SIBLINGS);;
  let x := foldl (λ x n, select ContainmentSibling hop false n None x) x siblings in
  found <-? query_if (first && include_tests rq) (test_neighbors fqname BUCKET_TESTS);;
  Ok (select_pairs TestAdjacent hop false (λ _, true) found x).

Fixpoint expand_frontier (rq : ContextRequest) (seed_repo_id : option string) (hop : N)
    (frontier : list string) (x : Expansion) : result E Expansion :=
  match frontier with
  | [] => Ok x
  | fqname :: frontier =>
      x <-? expand_symbol rq seed_repo_id hop fqname x;;
      expand_frontier rq seed_repo_id hop frontier x
  end.

(** [for hop in 1..=depth], with [rounds] hops to go. *)
Fixpoint expand_hops (rounds : nat) (rq : ContextRequest) (seed_repo_id : option string) (hop : N)
    (frontier : list string) (x : Expansion) : result E Expansion :=
  match rounds with
  | O => Ok x
  | S rounds =>
      x <-? expand_frontier rq seed_repo_id hop frontier
              (mk_expansion (x_nodes x) (x_edges x) (x_seen x) []);;
      match x_next x with
      | [] => Ok x
      | next => expand_hops rounds rq seed_repo_id (hop + 1) next x
      end
  end.

(** The last steps of every construction. *)
Definition finish (rq : ContextRequest) (r : ContextResult) : ContextResult :=
  let r := update_file_node_counts (trim_context r) in
  let r := if include_code_spans rq then apply_code_spans r else r in
  set_summaries (ambiguity r) (Some (build_workflow_summary extra_str extra_has set_order r)) r.

Definition build_symbol_context (seed : Node) (rq : ContextRequest) : result E ContextResult :=
  let qname := n_qualified_name seed in
  let depth := N.max (default 1%N (depth rq)) 1 in
  x <-? expand_hops (N.to_nat depth) rq (node_repo_id seed) 1 [qname]
          (mk_expansion [direct_node seed] [] {[qname]} []);;
  let r := mk_result rq (x_nodes x) (x_edges x) (collect_files (x_nodes x)) [] truncation_none []
             None None None [] not_applicable in
  Ok (finish rq (rank_context r)).

(** ** Review and impact *)

Definition extract_changed_paths (rq : ContextRequest) : list string :=
  match target rq with ChangedFiles paths => paths | _ => [] end.

Definition add_impact (contribution : spec_float) (final : spec_float)
    (e : ContextRankingEvidence) : ContextRankingEvidence :=
  with_scores (base_score e) (Some final) (graph_distance_penalty e)
    (Some (f32_add (default f32_zero (impact_score_contribution e)) contribution)) e.

Definition focus_node (scores : gmap string spec_float) (sn : SelectedNode) : SelectedNode :=
  match scores !! n_qualified_name (sn_node sn) with
  | None => sn
  | Some score =>
      let contribution := f32_mul (f32_of_f64 score) (f32_of_N 20) in
      let relevance := f32_add (sn_score sn) contribution in
      let evidence := default (from_selection_reason (sn_reason sn)) (sn_evidence sn) in
      mk_snode (sn_node sn) (sn_reason sn) (sn_distance sn) relevance
        (Some (add_impact contribution relevance evidence))
  end.

Definition focus_edge (scores : gmap string spec_float) (se : SelectedEdge) : SelectedEdge :=
  let source := default f64_zero (scores !! e_source_qn (se_edge se)) in
  let target := default f64_zero (scores !! e_target_qn (se_edge se)) in
  let contribution := f32_mul (f32_of_f64 (f64_add source target)) (f32_of_N 5) in
  let relevance := f32_add (se_score se) contribution in
  let evidence := default (from_selection_reason (se_reason se)) (se_evidence se) in
  mk_sedge (se_edge se) (se_reason se) (se_depth se) relevance
    (Some (add_impact contribution relevance evidence)).

Definition focus_node_cmp : SelectedNode → SelectedNode → comparison :=
  cmp_lex (λ a b, score_desc (sn_score a) (sn_score b))
    (cmp_on (λ n, n_qualified_name (sn_node n)) String.compare).

Definition focus_edge_cmp : SelectedEdge → SelectedEdge → comparison :=
  cmp_lex (λ a b, score_desc (se_score a) (se_score b))
    (cmp_lex (cmp_on (λ e, e_source_qn (se_edge e)) String.compare)
       (cmp_on (λ e, e_target_qn (se_edge e)) String.compare)).

Definition apply_impact_focus_scores (scores : gmap string spec_float) (r : ContextResult) :
    ContextResult :=
  set_graph (sort_by focus_node_cmp (map (focus_node scores) (nodes r)))
    (sort_by focus_edge_cmp (map (focus_edge scores) (edges r))) (files r) r.

(** Changed nodes first, every one; then the impacted nodes of new names. *)
Definition changed_node (n : Node) : SelectedNode :=
  mk_snode n DirectTarget 0 f32_zero
    (Some (with_changed_symbol (from_selection_reason DirectTarget))).

Definition impacted_node (n : Node) : SelectedNode :=
  mk_snode n ImpactNeighbor 1 f32_zero (Some (from_selection_reason ImpactNeighbor)).

Definition impact_step (st : list SelectedNode * gset string) (n : Node) :
    list SelectedNode * gset string :=
  let (ns, seen) := st in
  if bool_decide (n_qualified_name n ∈ seen) then st
  else (ns ++ [impacted_node n], {[n_qualified_name n]} ∪ seen).

Definition impact_edges (changed seen : gset string) (es : list Edge) : list SelectedEdge :=
  let touches (names : gset string) e :=
    bool_decide (e_source_qn e ∈ names) || bool_decide (e_target_qn e ∈ names) in
  map (λ e,
      let evidence := from_selection_reason ImpactNeighbor in
      mk_sedge e ImpactNeighbor None f32_zero
        (Some (if touches changed e then with_changed_symbol evidence else evidence)))
    (filter (λ e, touches changed e || touches seen e) es).

Definition impact_score_map (scored : list Impact.ScoredImpactNode) : gmap string spec_float :=
  foldl (λ m s, <[n_qualified_name (Impact.sc_node s) := Impact.impact_score s]> m) ∅ scored.

(** [atlas_impact::analyze]; fuel for its propagation. *)
Definition build_review_context (fuel : nat) (rq : ContextRequest) (policy : BudgetPolicy) :
    option (result E ContextResult) :=
  let gt := graph_traversal policy in
  let changed_paths := extract_changed_paths rq in
  let accepted_paths := takeN (default_limit (gt_seed_files gt)) changed_paths in
  let max_depth := default 2%N (depth rq) in
  match impact_radius accepted_paths max_depth (default_limit (gt_nodes gt))
          (default_limit (gt_edges gt)) with
  | Err e => Some (Err e)
  | Ok impact =>
      advanced ← Impact.analyze set_order extra_str fuel impact;
      let scores := impact_score_map (Impact.scored_nodes advanced) in
      let changed := Impact.changed_nodes impact in
      let changed_qns : gset string := list_to_set (map n_qualified_name changed) in
      let (ns, seen) := foldl impact_step (map changed_node changed, changed_qns)
                          (Impact.impacted_nodes impact) in
      let es := impact_edges changed_qns seen (Impact.relevant_edges impact) in
      let suggestion :=
        if (len accepted_paths <? len changed_paths)%N
        then Some ("narrow changed file list to " +:+ show_N (len accepted_paths) +:+
                     " file(s) or query one package/path")
        else None in
      let r := mk_result rq ns es (collect_files ns) [] truncation_none
                 [seed_budget_new "changed_files" (len changed_paths) (len accepted_paths) true suggestion]
                 (Impact.impact_traversal_budget impact) None None [] (Impact.impact_budget impact) in
      Some (Ok (finish rq (apply_impact_focus_scores scores (rank_context r))))
  end.

(** The files of the symbols that exist. *)
Fixpoint paths_of_symbols (qnames : list string) : result E (list string) :=
  match qnames with
  | [] => Ok []
  | qn :: qnames =>
      found <-? node_by_qname qn;;
      paths <-? paths_of_symbols qnames;;
      Ok match found with Some n => n_file_path n :: paths | None => paths end
  end.

(** Seed files and their budgets, or a result at once. *)
Inductive ImpactSeeds :=
| Seeds (paths : list string) (budgets : list SeedBudgetMeta)
| Immediate (r : ContextResult).

Definition impact_seeds (rq : ContextRequest) (policy : BudgetPolicy) : result E ImpactSeeds :=
  match target rq with
  | ChangedFiles paths => Ok (Seeds paths [])
  | FilePath path => Ok (Seeds [path] [])
  | QualifiedName _ | SymbolName _ =>
      resolved <-? resolve_target (target rq);;
      Ok match resolved with
         | ResolvedNode node => Seeds [n_file_path node] []
         | ResolvedFile path => Seeds [path] []
         | Ambiguous meta =>
             Immediate
               (set_seed_budgets
                  [seed_budget_new "symbol_resolution" 0 0 false
                     (Some "narrow symbol query to exact qualified name or file path")]
                  (build_ambiguous_result rq meta))
         | NotFound suggestions => Immediate (build_not_found_result debug_target rq suggestions)
         end
  | ChangedSymbols qnames =>
      let accepted := takeN (default_limit (gt_seed_nodes (graph_traversal policy))) qnames in
      paths <-? paths_of_symbols accepted;;
      let suggestion :=
        if (len accepted <? len qnames)%N
        then Some ("narrow changed symbol list to " +:+ show_N (len accepted) +:+
                     " symbol(s) or split request")
        else None in
      Ok (Seeds (dedup_by_key id paths)
            [seed_budget_new "changed_symbols" (len qnames) (len accepted) true suggestion])
  | EdgeQuerySeed source_qname _ =>
      found <-? node_by_qname source_qname;;
      Ok match found with
         | Some node => Seeds [n_file_path node] []
         | None => Immediate (build_not_found_result debug_target rq [])
         end
  end.

Definition build_impact_context (fuel : nat) (rq : ContextRequest) (policy : BudgetPolicy) :
    option (result E ContextResult) :=
  match impact_seeds rq policy with
  | Err e => Some (Err e)
  | Ok (Immediate r) => Some (Ok r)
  | Ok (Seeds paths budgets) =>
      built ← build_review_context fuel (with_target (ChangedFiles paths) rq) policy;
      Some (r <-? built;; Ok (set_seed_budgets (seed_budgets r ++ budgets) r))
  end.

Definition build_resolved (rq : ContextRequest) : result E ContextResult :=
  resolved <-? resolve_target (target rq);;
  match resolved with
  | ResolvedNode node => build_symbol_context node rq
  | ResolvedFile path =>
      ns <-? nodes_by_file path;;
      match ns with
      | first_node :: _ => build_symbol_context first_node rq
      | [] => Ok (build_not_found_result debug_target rq [])
      end
  | Ambiguous meta => Ok (build_ambiguous_result rq meta)
  | NotFound suggestions => Ok (build_not_found_result debug_target rq suggestions)
  end.

Definition build_context (fuel : nat) (rq : ContextRequest) (policy : BudgetPolicy) :
    option (result E ContextResult) :=
  match intent rq with
  | Review => build_review_context fuel rq policy
  | Impact | ImpactAnalysis | RefactorSafety | DependencyRemoval =>
      build_impact_context fuel rq policy
  | _ =>
      match target rq with
      | ChangedSymbols qnames =>
          match paths_of_symbols qnames with
          | Err e => Some (Err e)
          | Ok paths =>
              build_impact_context fuel (with_target (ChangedFiles (dedup_by_key id paths)) rq) policy
          end
      | EdgeQuerySeed source_qname _ =>
          Some
            (found <-? node_by_qname source_qname;;
             match found with
             | Some node => build_symbol_context node rq
             | None => Ok (build_not_found_result debug_target rq [])
             end)
      | _ => Some (build_resolved rq)
      end
  end.
End build.

(** ** The neighbourhood: specification *)

Section neighbourhood.
Context {E : Type} `{!ContextStore E}.
Context (extra_str : Node → string → option string).
Context (rq : ContextRequest) (seed : Node).

Abbreviation name sn := (n_qualified_name (sn_node sn)).
Abbreviation keep n := (keep_repo_local_neighbor extra_str (node_repo_id extra_str seed) n
  (allow_cross_repo_edges rq)).

(** What the store answers about the neighbours of a symbol, with the reason each answer
    is selected for; the callers and callees are expanded further. *)
Record Found := mk_found {
  f_reason : SelectionReason;
  f_expand : bool;
  f_node : Node;
  f_edge : option Edge
}.

Definition of_pairs (reason : SelectionReason) (expand : bool) (l : list (Node * Edge)) :
    list Found :=
  map (λ ne, mk_found reason expand (fst ne) (Some (snd ne))) l.

Definition neighbours (hop : N) (fqname : string) : result E (list Found) :=
  callers <-? query_if (include_callers rq) (direct_callers fqname BUCKET_CALLERS);;
  callees <-? query_if (include_callees rq) (direct_callees fqname BUCKET_CALLEES);;
  imports <-? query_if (include_imports rq) (import_neighbors fqname BUCKET_IMPORTS);;
  siblings <-? query_if ((hop =? 1)%N && include_neighbors rq)
                 (containment_siblings fqname BUCKET_SIBLINGS);;
  tests <-? query_if ((hop =? 1)%N && include_tests rq) (test_neighbors fqname BUCKET_TESTS);;
  Ok (of_pairs Caller true (filter (λ ne, keep (fst ne)) callers) ++
      of_pairs Callee true (filter (λ ne, keep (fst ne)) callees) ++
      of_pairs Importee false imports ++
      map (λ n, mk_found ContainmentSibling false n None) siblings ++
      of_pairs TestAdjacent false tests).

Definition select_found (hop : N) (x : Expansion) (f : Found) : Expansion :=
  select (f_reason f) hop (f_expand f) (f_node f) (f_edge f) x.

Lemma select_pairs_found reason hop expand (p : Node → bool) l x :
  select_pairs reason hop expand p l x =
  foldl (select_found hop) x (of_pairs reason expand (filter (λ ne, p (fst ne)) l)).
Proof.
  revert x. induction l as [|[n e] l IH]; intros x; [done|]. simpl. rewrite filter_cons. simpl.
  rewrite IH. by destruct (p n).
Qed.

Lemma select_pairs_all reason hop expand l x :
  select_pairs reason hop expand (λ _, true) l x =
  foldl (select_found hop) x (of_pairs reason expand l).
Proof. revert x. induction l as [|[n e] l IH]; intros x; [done|]. simpl. apply IH. Qed.

Lemma foldl_map {A B C} (f : A → B → A) (g : C → B) (l : list C) x :
  foldl f x (map g l) = foldl (λ x c, f x (g c)) x l.
Proof. revert x. induction l as [|c l IH]; intros x; [done|]. simpl. apply IH. Qed.

Lemma expand_symbol_found hop fqname x :
  expand_symbol extra_str rq (node_repo_id extra_str seed) hop fqname x =
  (l <-? neighbours hop fqname;; Ok (foldl (select_found hop) x l)).
Proof.
  unfold expand_symbol, neighbours.
  destruct (query_if (include_callers rq) _) as [callers|]; simpl; [|done].
  destruct (query_if (include_callees rq) _) as [callees|]; simpl; [|done].
  destruct (query_if (include_imports rq) _) as [imports|]; simpl; [|done].
  destruct (query_if (_ && include_neighbors rq) _) as [siblings|]; simpl; [|done].
  destruct (query_if (_ && include_tests rq) _) as [tests|]; simpl; [|done].
  rewrite !foldl_app, !select_pairs_all, !select_pairs_found. f_equal. by rewrite foldl_map.
Qed.

(** A selected node whose neighbours are asked for. *)
Definition expandable (sn : SelectedNode) : Prop :=
  sn_reason sn = DirectTarget ∨ sn_reason sn = Caller ∨ sn_reason sn = Callee.

Definition found_node (d : N) (f : Found) : SelectedNode :=
  mk_snode (f_node f) (f_reason f) d f32_zero (Some (from_selection_reason (f_reason f))).

(** A node is found from a selected one. *)
Definition found_from (ns : list SelectedNode) (sn : SelectedNode) : Prop :=
  ∃ p f l, p ∈ ns ∧ expandable p ∧ neighbours (sn_distance p + 1) (name p) = Ok l ∧ f ∈ l ∧
    sn = found_node (sn_distance p + 1) f.

(** The neighbours of a selected node are selected, no farther than one hop from it. *)
Definition neighbours_in (ns : list SelectedNode) (p : SelectedNode) : Prop :=
  ∀ l f, neighbours (sn_distance p + 1) (name p) = Ok l → f ∈ l →
    ∃ sn, sn ∈ ns ∧ name sn = n_qualified_name (f_node f) ∧ (sn_distance sn ≤ sn_distance p + 1)%N.

Record expansion_ok (hop : N) (done : list string) (x : Expansion) : Prop := {
  eo_seen q : q ∈ x_seen x ↔ q ∈ map (λ sn, name sn) (x_nodes x);
  eo_nodup : NoDup (map (λ sn, name sn) (x_nodes x));
  eo_seed : ∃ ns, x_nodes x = direct_node seed :: ns;
  eo_origin sn : sn ∈ x_nodes x → sn = direct_node seed ∨ found_from (x_nodes x) sn;
  eo_dist sn : sn ∈ x_nodes x → (sn_distance sn ≤ hop)%N;
  eo_next q : q ∈ x_next x ↔
    ∃ sn, sn ∈ x_nodes x ∧ name sn = q ∧ sn_distance sn = hop ∧ expandable sn;
  eo_done sn : sn ∈ x_nodes x → expandable sn →
    (sn_distance sn + 1 < hop)%N ∨ (sn_distance sn + 1 = hop)%N ∧ name sn ∈ done →
    neighbours_in (x_nodes x) sn
}.

Lemma expand_reason f l hop fqname :
  neighbours hop fqname = Ok l → f ∈ l →
  f_expand f = true ↔ expandable (found_node hop f).
Proof.
  unfold neighbours. intros Hl Hf.
  destruct (query_if (include_callers rq) _) as [callers|]; simpl in *; [|done].
  destruct (query_if (include_callees rq) _) as [callees|]; simpl in *; [|done].
  destruct (query_if (include_imports rq) _) as [imports|]; simpl in *; [|done].
  destruct (query_if (_ && include_neighbors rq) _) as [siblings|]; simpl in *; [|done].
  destruct (query_if (_ && include_tests rq) _) as [tests|]; simpl in *; [|done].
  injection Hl as <-. unfold of_pairs in Hf. rewrite !elem_of_app, !list_elem_of_fmap in Hf.
  unfold expandable. naive_solver.
Qed.

Lemma found_from_mono ns ms sn : (∀ y, y ∈ ns → y ∈ ms) → found_from ns sn → found_from ms sn.
Proof. intros H (p & f & l & Hp & ?). exists p, f, l. split; [by apply H|done]. Qed.

Lemma neighbours_in_mono ns ms p : (∀ y, y ∈ ns → y ∈ ms) → neighbours_in ns p → neighbours_in ms p.
Proof.
  intros H Hp l f Hl Hf. destruct (Hp l f Hl Hf) as (sn & Hsn & ?). exists sn. split; [by apply H|done].
Qed.

Lemma select_found_ok hop done x p l f :
  expansion_ok hop done x → p ∈ x_nodes x → expandable p → (sn_distance p + 1 = hop)%N →
  neighbours hop (name p) = Ok l → f ∈ l →
  expansion_ok hop done (select_found hop x f) ∧
  (∀ y, y ∈ x_nodes x → y ∈ x_nodes (select_found hop x f)) ∧
  n_qualified_name (f_node f) ∈ map (λ sn, name sn) (x_nodes (select_found hop x f)).
Proof.
  intros [Hseen Hnd [ns0 Hseed] Hor Hd Hnext Hdone] Hp Hexp Hhop Hl Hf.
  unfold select_found, select. destruct (bool_decide_reflect (n_qualified_name (f_node f) ∈ x_seen x))
    as [Hin|Hnin].
  { split; [by split; eauto|]. split; [done|]. by apply Hseen. }
  set (sn := mk_snode (f_node f) (f_reason f) hop f32_zero (Some (from_selection_reason (f_reason f)))).
  assert (∀ y, y ∈ x_nodes x → y ∈ x_nodes x ++ [sn]) as Hmono by (intros; apply elem_of_app; auto).
  cbn [x_nodes x_seen x_next x_edges]. split_and!; [|done|].
  - split; cbn [x_nodes x_seen x_next x_edges].
    + intros q. rewrite map_app, elem_of_app, elem_of_union, elem_of_singleton, Hseen. simpl.
      rewrite list_elem_of_singleton. tauto.
    + rewrite map_app. apply NoDup_app. split_and!; [done| |apply NoDup_singleton].
      intros q Hq ->%list_elem_of_singleton. apply Hnin, Hseen. done.
    + exists (ns0 ++ [sn]). by rewrite Hseed.
    + intros y [Hy| ->%list_elem_of_singleton]%elem_of_app.
      * destruct (Hor y Hy) as [?|?]; [by left|right]. by eapply found_from_mono.
      * right. exists p, f, l. rewrite Hhop. split_and!; [by apply Hmono|done..].
    + intros y [Hy| ->%list_elem_of_singleton]%elem_of_app; [by apply Hd|done].
    + intros q. pose proof (expand_reason f l hop (name p) Hl Hf) as He.
      assert ((∃ y, y ∈ x_nodes x ++ [sn] ∧ name y = q ∧ sn_distance y = hop ∧ expandable y) ↔
        q ∈ x_next x ∨ q = n_qualified_name (f_node f) ∧ expandable (found_node hop f)) as ->.
      { rewrite Hnext. split.
        - intros (y & [Hy| ->%list_elem_of_singleton]%elem_of_app & Hq & Hy1 & Hy2); [left; eauto|].
          right. done.
        - intros [(y & Hy & ?)|[-> Hx]].
          + exists y. split; [by apply Hmono|done].
          + exists sn. split; [apply elem_of_app; right; constructor|]. done. }
      destruct (f_expand f).
      * rewrite elem_of_app, list_elem_of_singleton. tauto.
      * split; [tauto|]. intros [?|[_ Hx]]; [done|]. by apply He in Hx.
    + intros y [Hy| ->%list_elem_of_singleton]%elem_of_app Hy1 Hy2.
      * eapply neighbours_in_mono; [exact Hmono|]. by apply Hdone.
      * simpl in Hy2. lia.
  - rewrite map_app. apply elem_of_app. right. simpl. constructor.
Qed.

Lemma NoDup_map_inj {A B} (f : A → B) l x y :
  NoDup (map f l) → x ∈ l → y ∈ l → f x = f y → x = y.
Proof.
  induction l as [|z l IH]; simpl; [by intros _ ?%elem_of_nil|].
  intros [Hz Hnd]%NoDup_cons [->|Hx]%elem_of_cons [->|Hy]%elem_of_cons Hf; [done| | |by apply IH].
  - destruct Hz. rewrite Hf. apply list_elem_of_fmap. by exists y.
  - destruct Hz. rewrite <-Hf. apply list_elem_of_fmap. by exists x.
Qed.

(** The nodes a hop adds are at its distance. *)
Lemma fold_new hop k : ∀ x y,
  y ∈ x_nodes (foldl (select_found hop) x k) → y ∈ x_nodes x ∨ sn_distance y = hop.
Proof.
  induction k as [|f k IH]; intros x y; simpl; [by left|].
  intros [Hy|?]%IH; [|by right]. unfold select_found, select in Hy.
  destruct (bool_decide _); [by left|]. simpl in Hy.
  apply elem_of_app in Hy as [Hy| ->%list_elem_of_singleton]; [by left|by right].
Qed.

Lemma frontier_new hop frontier : ∀ x x' y,
  expand_frontier extra_str rq (node_repo_id extra_str seed) hop frontier x = Ok x' →
  y ∈ x_nodes x' → y ∈ x_nodes x ∨ sn_distance y = hop.
Proof.
  induction frontier as [|q frontier IH]; intros x x' y; simpl; [intros [= <-]; by left|].
  rewrite expand_symbol_found. destruct (neighbours hop q) as [l|]; simpl; [|done].
  intros Hx' Hy. destruct (IH _ _ _ Hx' Hy) as [Hy'|?]; [|by right]. by apply fold_new in Hy'.
Qed.

(** One symbol of the frontier. *)
Lemma expand_symbol_ok hop done x p x' :
  expansion_ok hop done x → p ∈ x_nodes x → expandable p → (sn_distance p + 1 = hop)%N →
  expand_symbol extra_str rq (node_repo_id extra_str seed) hop (name p) x = Ok x' →
  expansion_ok hop (name p :: done) x' ∧ ∀ y, y ∈ x_nodes x → y ∈ x_nodes x'.
Proof.
  intros Hok Hp Hexp Hhop. rewrite expand_symbol_found.
  destruct (neighbours hop (name p)) as [l|] eqn:Hl; simpl; [|done]. intros [= <-].
  assert (∀ k, (∀ f, f ∈ k → f ∈ l) → ∀ x, expansion_ok hop done x → p ∈ x_nodes x →
    let x' := foldl (select_found hop) x k in
    expansion_ok hop done x' ∧ (∀ y, y ∈ x_nodes x → y ∈ x_nodes x') ∧
    ∀ f, f ∈ k → n_qualified_name (f_node f) ∈ map (λ sn, name sn) (x_nodes x')) as H.
  { clear x Hok Hp. induction k as [|f k IH]; intros Hk x Hok Hp x'.
    { split_and!; [done|done|]. by intros f ?%elem_of_nil. }
    destruct (select_found_ok hop done x p l f Hok Hp Hexp Hhop Hl (Hk f ltac:(constructor)))
      as (Hok1 & Hm1 & Hin1).
    destruct (IH (λ g Hg, Hk g (list_elem_of_further _ _ _ Hg)) _ Hok1 (Hm1 p Hp)) as (Hok2 & Hm2 & Hin2).
    split_and!; [done|by auto|]. intros g [->|Hg]%elem_of_cons; [|by apply Hin2].
    apply list_elem_of_fmap in Hin1 as (sn & -> & Hsn). apply list_elem_of_fmap. exists sn. auto. }
  destruct (H l (λ f Hf, Hf) x Hok Hp) as (Hok' & Hm & Hin). split; [|done].
  destruct Hok' as [Hseen Hnd Hs Hor Hd Hnext Hdone]. split; try done.
  intros sn Hsn He [Hlt|[Heq [Hq|Hq]%elem_of_cons]]; [apply Hdone; auto| |apply Hdone; auto].
  assert (sn = p) as -> by (apply (NoDup_map_inj (λ sn, name sn) _ _ _ Hnd); auto).
  intros l' f Hl' Hf. rewrite Hhop, Hl in Hl'. injection Hl' as <-.
  specialize (Hin f Hf). apply list_elem_of_fmap in Hin as (y & -> & Hy). exists y.
  split_and!; [done|done|]. rewrite Hhop. by apply Hd.
Qed.

Lemma expand_frontier_ok hop frontier : ∀ done x x',
  expansion_ok hop done x →
  (∀ q, q ∈ frontier → ∃ p, p ∈ x_nodes x ∧ name p = q ∧ expandable p ∧ (sn_distance p + 1 = hop)%N) →
  expand_frontier extra_str rq (node_repo_id extra_str seed) hop frontier x = Ok x' →
  ∃ done', expansion_ok hop done' x' ∧ (∀ q, q ∈ done' ↔ q ∈ frontier ∨ q ∈ done) ∧
    ∀ y, y ∈ x_nodes x → y ∈ x_nodes x'.
Proof.
  induction frontier as [|q frontier IH]; intros done x x' Hok Hf; simpl.
  { intros [= <-]. exists done. split_and!; [done| |done]. intros q. set_solver. }
  destruct (Hf q ltac:(constructor)) as (p & Hp & <- & Hexp & Hhop).
  destruct (expand_symbol _ _ _ _ _ _) as [x1|] eqn:Hx1; simpl; [|done]. intros Hx'.
  destruct (expand_symbol_ok hop done x p x1 Hok Hp Hexp Hhop Hx1) as [Hok1 Hm1].
  destruct (IH (name p :: done) x1 x' Hok1) as (done' & Hok' & Hd' & Hm'); [|done|].
  { intros q Hq. destruct (Hf q ltac:(by constructor)) as (p' & Hp' & ?). exists p'. auto. }
  exists done'. split_and!; [done| |auto]. intros q. rewrite Hd'. set_solver.
Qed.

(** After a hop every expandable node before it has its neighbours. *)
Lemma hop_done hop (frontier done : list string) x :
  expansion_ok hop done x → (∀ q, q ∈ frontier → q ∈ done) →
  (∀ sn, sn ∈ x_nodes x → expandable sn → (sn_distance sn + 1 = hop)%N → name sn ∈ frontier) →
  ∀ sn, sn ∈ x_nodes x → expandable sn → (sn_distance sn < hop)%N → neighbours_in (x_nodes x) sn.
Proof.
  intros Hok Hd Hf sn Hsn He Hlt. apply (eo_done _ _ _ Hok); [done|done|].
  destruct (decide (sn_distance sn + 1 = hop)%N) as [Heq|]; [right|left; lia].
  split; [done|]. by apply Hd, Hf.
Qed.

Definition restart (x : Expansion) : Expansion :=
  mk_expansion (x_nodes x) (x_edges x) (x_seen x) [].

Lemma restart_ok hop done x :
  expansion_ok hop done x →
  (∀ sn, sn ∈ x_nodes x → expandable sn → (sn_distance sn < hop)%N → neighbours_in (x_nodes x) sn) →
  expansion_ok (hop + 1) [] (restart x).
Proof.
  intros [Hseen Hnd Hs Hor Hd Hnext Hdone] Hbefore. split; try done.
  - intros sn Hsn. specialize (Hd sn Hsn). simpl in *. lia.
  - intros q. simpl. split; [by intros ?%elem_of_nil|].
    intros (sn & Hsn & _ & Heq & _). specialize (Hd sn Hsn). lia.
  - intros sn Hsn He [Hlt|[_ []%elem_of_nil]]. apply Hbefore; [done|done|lia].
Qed.

Lemma expand_hops_ok rounds : ∀ hop frontier x x',
  (0 < hop)%N → expansion_ok hop [] (restart x) →
  (∀ sn, sn ∈ x_nodes x → (sn_distance sn < hop)%N) →
  (∀ q, q ∈ frontier ↔ ∃ p, p ∈ x_nodes x ∧ name p = q ∧ (sn_distance p + 1 = hop)%N ∧ expandable p) →
  expand_hops extra_str rounds rq (node_repo_id extra_str seed) hop frontier x = Ok x' →
  let bound := (hop - 1 + N.of_nat rounds)%N in
  NoDup (map (λ sn, name sn) (x_nodes x')) ∧ (∃ ns, x_nodes x' = direct_node seed :: ns) ∧
  ∀ sn, sn ∈ x_nodes x' →
    (sn = direct_node seed ∨ found_from (x_nodes x') sn) ∧ (sn_distance sn ≤ bound)%N ∧
    (expandable sn → (sn_distance sn < bound)%N → neighbours_in (x_nodes x') sn).
Proof.
  induction rounds as [|rounds IH]; intros hop frontier x x' Hhop Hok Hlt Hfr; cbn [expand_hops].
  { intros [= <-]. destruct Hok as [Hseen Hnd Hs Hor Hd Hnext Hdone]. split_and!; [done|done|].
    intros sn Hsn. specialize (Hlt sn Hsn). split_and!; [by auto|lia|].
    intros He Hb. apply Hdone; [done|done|lia]. }
  fold (restart x).
  destruct (expand_frontier _ _ _ hop frontier (restart x)) as [x1|] eqn:Hx1; simpl; [|done].
  destruct (expand_frontier_ok hop frontier [] (restart x) x1 Hok) as (done' & Hok1 & Hd1 & Hm1);
    [|done|].
  { intros q (p & ? & ? & ? & ?)%Hfr. exists p. auto. }
  assert (∀ sn, sn ∈ x_nodes x1 → expandable sn → (sn_distance sn + 1 = hop)%N → name sn ∈ frontier)
    as Hlast.
  { intros sn Hsn He Heq. apply Hfr. exists sn. split_and!; try done.
    destruct (frontier_new _ _ _ _ _ Hx1 Hsn) as [?|?]; [done|lia]. }
  assert (∀ sn, sn ∈ x_nodes x1 → expandable sn → (sn_distance sn < hop)%N →
    neighbours_in (x_nodes x1) sn) as Hbefore.
  { apply (hop_done hop frontier done'); [done| |done]. intros q Hq. apply Hd1. by left. }
  destruct (x_next x1) as [|q next] eqn:Hnext.
  - intros [= <-]. destruct Hok1 as [Hseen Hnd Hs Hor Hd Hn Hdone].
    split_and!; [done|done|]. intros sn Hsn. specialize (Hd sn Hsn).
    split_and!; [by auto|lia|]. intros He _.
    destruct (decide (sn_distance sn < hop)%N) as [?|Hge]; [by apply Hbefore|].
    assert (name sn ∈ x_next x1) as Hin.
    { apply Hn. exists sn. split_and!; (done || lia). }
    rewrite Hnext in Hin. by apply elem_of_nil in Hin.
  - intros Hx'.
    replace (hop - 1 + N.of_nat (S rounds))%N with (hop + 1 - 1 + N.of_nat rounds)%N by lia.
    apply (IH (hop + 1)%N (q :: next) x1 x'); [lia|by apply (restart_ok hop done')| | |done].
    + intros sn Hsn. pose proof (eo_dist _ _ _ Hok1 sn Hsn). lia.
    + intros r. rewrite <-Hnext, (eo_next _ _ _ Hok1). split.
      * intros (p & ? & ? & ? & ?). exists p. split_and!; (done || lia).
      * intros (p & ? & ? & ? & ?). exists p. split_and!; (done || lia).
Qed.

Definition start : Expansion :=
  mk_expansion [direct_node seed] [] {[n_qualified_name seed]} [].

Lemma start_ok : expansion_ok 1 [] (restart start).
Proof.
  split; simpl.
  - intros q. by rewrite list_elem_of_singleton, elem_of_singleton.
  - apply NoDup_singleton.
  - by exists [].
  - intros sn ->%list_elem_of_singleton. by left.
  - by intros sn ->%list_elem_of_singleton.
  - intros q. split; [by intros ?%elem_of_nil|].
    by intros (sn & ->%list_elem_of_singleton & _ & ? & _).
  - intros sn ->%list_elem_of_singleton _ [?|[_ []%elem_of_nil]]. simpl in *. lia.
Qed.
End neighbourhood.

(** ** Lemmas: the finished result *)

Section finished.
Context {E : Type} `{!ContextStore E}.
Context (extra_str : Node → string → option string) (extra_has : Node → string → bool).
Context (set_order : gset string → list string) (debug_target : ContextTarget → string).

Abbreviation finish := (finish extra_str extra_has set_order).

Lemma finish_graph rq r :
  request (finish rq r) = request r ∧ nodes (finish rq r) = nodes (trim_context r) ∧
  edges (finish rq r) = edges (trim_context r).
Proof. unfold ContextBuild.finish. by destruct (include_code_spans rq). Qed.

(** A result within the caps of a request, its edges between its nodes. *)
Definition bounded (rq : ContextRequest) (r : ContextResult) : Prop :=
  (len (nodes r) ≤ tp_max_nodes (from_request rq))%N ∧
  (len (edges r) ≤ tp_max_edges (from_request rq))%N ∧
  closed (nodes r) (edges r) ∧
  from_request (request r) = from_request rq.

Lemma finish_bounded rq r :
  from_request (request r) = from_request rq → bounded rq (finish rq r).
Proof.
  intros Hrq. unfold bounded. destruct (finish_graph rq r) as (-> & -> & ->).
  cbn [trim_context set_truncation set_graph nodes edges]. rewrite trim_nodes_len, Hrq.
  split_and!; [lia| |apply trim_edges_closed|done]. rewrite <-Hrq. apply trim_edges_len.
Qed.

Lemma empty_bounded rq r :
  nodes r = [] → edges r = [] → from_request (request r) = from_request rq → bounded rq r.
Proof.
  intros Hn He Hrq. unfold bounded. rewrite Hn, He. unfold len. simpl. split_and!; try lia; [|done].
  constructor.
Qed.

Lemma symbol_bounded seed rq r :
  build_symbol_context extra_str extra_has set_order seed rq = Ok r → bounded rq r.
Proof.
  unfold build_symbol_context. destruct (expand_hops _ _ _ _ _ _ _); simpl; [|done].
  intros [= <-]. by apply finish_bounded.
Qed.

Lemma review_bounded fuel rq policy r :
  build_review_context extra_str extra_has set_order fuel rq policy = Some (Ok r) → bounded rq r.
Proof.
  unfold build_review_context. destruct (impact_radius _ _ _ _) as [impact|]; [|done].
  destruct (Impact.analyze _ _ _ _); simpl; [|done].
  destruct (foldl impact_step _ _) as [ns seen]. intros [= <-]. by apply finish_bounded.
Qed.

Lemma impact_seeds_immediate rq policy r :
  impact_seeds debug_target rq policy = Ok (Immediate r) → bounded rq r.
Proof.
  unfold impact_seeds. intros H.
  destruct (target rq); try done;
    try (destruct (resolve_target _) as [[| | |]|]; simpl in H; simplify_eq; by apply empty_bounded).
  - destruct (paths_of_symbols _); simpl in H; done.
  - destruct (node_by_qname _) as [[|]|]; simpl in H; simplify_eq. by apply empty_bounded.
Qed.

Lemma impact_bounded fuel rq policy r :
  build_impact_context extra_str extra_has set_order debug_target fuel rq policy = Some (Ok r) →
  bounded rq r.
Proof.
  unfold build_impact_context. destruct (impact_seeds _ _ _) as [[paths budgets|r0]|] eqn:Hs; [| |done].
  - destruct (build_review_context _ _ _ _ _ _) as [[r0|]|] eqn:Hr; simpl; [|done|done].
    intros [= <-]. apply review_bounded in Hr. exact Hr.
  - intros [= <-]. by apply (impact_seeds_immediate rq policy).
Qed.

Lemma resolved_bounded rq r :
  build_resolved extra_str extra_has set_order debug_target rq = Ok r → bounded rq r.
Proof.
  unfold build_resolved. destruct (resolve_target _) as [[node|path|meta|sugg]|]; simpl; [| | | |done].
  - apply symbol_bounded.
  - destruct (nodes_by_file _) as [[|n ns]|]; simpl; [|apply symbol_bounded|done].
    intros [= <-]. by apply empty_bounded.
  - intros [= <-]. by apply empty_bounded.
  - intros [= <-]. by apply empty_bounded.
Qed.

Lemma context_bounded fuel rq policy r :
  build_context extra_str extra_has set_order debug_target fuel rq policy = Some (Ok r) →
  bounded rq r.
Proof.
  unfold build_context. intros H.
  assert (∀ t, bounded (with_target t rq) r → bounded rq r) as Ht by done.
  assert (∀ qn, (found <-? node_by_qname qn;;
    match found with
    | Some node => build_symbol_context extra_str extra_has set_order node rq
    | None => Ok (build_not_found_result debug_target rq [])
    end) = Ok r → bounded rq r) as Hseed.
  { intros qn. destruct (node_by_qname qn) as [[n|]|]; simpl; [apply symbol_bounded| |done].
    intros [= <-]. by apply empty_bounded. }
  destruct (intent rq); try (by apply review_bounded in H); try (by apply impact_bounded in H);
    (destruct (target rq); try (apply resolved_bounded; congruence);
     [destruct (paths_of_symbols _) as [paths|]; [|done]; apply impact_bounded in H; by eapply Ht
     |injection H as H; by apply (Hseed _ H)]).
Qed.

Lemma review_returns rq policy :
  ∃ fuel r, build_review_context extra_str extra_has set_order fuel rq policy = Some r.
Proof.
  unfold build_review_context. destruct (impact_radius _ _ _ _) as [impact|e]; [|by exists 0%nat; eexists].
  destruct (Impact.propagate_returns (Impact.adjacency (Impact.relevant_edges impact))
    (Impact.seed_scores (Impact.changed_nodes impact))
    (map n_qualified_name (Impact.changed_nodes impact)) (Impact.seed_scores_ok _))
    as (fuel & scores & Hs).
  exists fuel. unfold Impact.analyze, Impact.score_nodes. rewrite Hs. simpl.
  destruct (foldl impact_step _ _). by eexists.
Qed.

Lemma impact_returns rq policy :
  ∃ fuel r, build_impact_context extra_str extra_has set_order debug_target fuel rq policy = Some r.
Proof.
  unfold build_impact_context. destruct (impact_seeds _ _ _) as [[paths budgets|r0]|e].
  - destruct (review_returns (with_target (ChangedFiles paths) rq) policy) as (fuel & r & Hr).
    exists fuel. rewrite Hr. simpl. by eexists.
  - exists 0%nat. by eexists.
  - exists 0%nat. by eexists.
Qed.

Lemma context_returns rq policy :
  ∃ fuel r, build_context extra_str extra_has set_order debug_target fuel rq policy = Some r.
Proof.
  unfold build_context.
  pose proof (review_returns rq policy) as Hr. pose proof (impact_returns rq policy) as Hi.
  destruct (intent rq); try done;
    (destruct (target rq) as [| | | |qnames|]; try (exists 0%nat; by eexists);
     destruct (paths_of_symbols qnames) as [paths|]; [apply impact_returns|exists 0%nat; by eexists]).
Qed.

(** ** Properties *)

(** Whatever the request and the store's answers, a context that is built stays within
    the node and edge caps of its request, and each of its edges joins two of its nodes. *)
Theorem build_context_bounded fuel rq policy r :
  build_context extra_str extra_has set_order debug_target fuel rq policy = Some (Ok r) →
  (len (nodes r) ≤ default DEFAULT_MAX_NODES (max_nodes rq))%N ∧
  (len (edges r) ≤ default DEFAULT_MAX_EDGES (max_edges rq))%N ∧
  Forall (λ e, e_source_qn (se_edge e) ∈ map (λ n, n_qualified_name (sn_node n)) (nodes r) ∧
               e_target_qn (se_edge e) ∈ map (λ n, n_qualified_name (sn_node n)) (nodes r)) (edges r).
Proof.
  intros (Hn & He & Hc & _)%context_bounded. split_and!; [done|done|].
  eapply Forall_impl; [exact Hc|]. unfold names_of. intros e. by rewrite !elem_of_list_to_set.
Qed.

(** The construction of a context always ends, in a result or an error of the store. *)
Theorem build_context_total rq policy :
  ∃ fuel r, build_context extra_str extra_has set_order debug_target fuel rq policy = Some r.
Proof. apply context_returns. Qed.

(** C12. The neighbourhood of a symbol is a breadth-first search over the store's answers: the
    selected nodes have distinct names; every one but the seed was found, for its reason, from
    a selected target, caller or callee one hop nearer; and every neighbour the store knows
    of such a node nearer than the depth is selected, at most one hop farther. *)
Theorem symbol_neighbourhood_exact (rq : ContextRequest) (seed : Node) (x : Expansion) :
  let depth := N.max (default 1%N (depth rq)) 1 in
  expand_hops extra_str (N.to_nat depth) rq (node_repo_id extra_str seed) 1
    [n_qualified_name seed] (start seed) = Ok x →
  NoDup (map (λ sn, n_qualified_name (sn_node sn)) (x_nodes x)) ∧
  (∃ ns, x_nodes x = direct_node seed :: ns) ∧
  (∀ sn, sn ∈ x_nodes x →
    (sn = direct_node seed ∨ found_from extra_str rq seed (x_nodes x) sn) ∧
    (sn_distance sn ≤ depth)%N ∧
    (expandable sn → (sn_distance sn < depth)%N → neighbours_in extra_str rq seed (x_nodes x) sn)).
Proof.
  intros depth Hx.
  apply (expand_hops_ok extra_str rq seed _ 1 [n_qualified_name seed]) in Hx as (H1 & H2 & H3);
    [|done|apply start_ok| |].
  - split_and!; [done|done|]. intros sn Hsn. destruct (H3 sn Hsn) as (Ho & Hd & Hn).
    split_and!; [done|lia|]. intros He Hlt. apply Hn; [done|lia].
  - by intros sn ->%list_elem_of_singleton.
  - intros q. rewrite list_elem_of_singleton. split.
    + intros ->. exists (direct_node seed). split_and!; [constructor|done|done|by left].
    + by intros (p & ->%list_elem_of_singleton & <- & _).
Qed.
End finished.

(** ** A run on a small graph *)

Definition demo_node (name file : string) : Node :=
  mk_node 1 NkFunction name ("crate::" +:+ name) file 10 20 "rust" None None None (Some "pub") false "".

Definition demo_call (src dst : string) : Edge :=
  mk_edge 1 EkCalls ("crate::" +:+ src) ("crate::" +:+ dst) "src/lib.rs" None f32_1 None.

Definition demo_nodes : list Node :=
  [demo_node "main" "src/main.rs"; demo_node "parse" "src/lib.rs"; demo_node "lex" "src/lex.rs";
   demo_node "read" "src/io.rs"].

Definition demo_edges : list Edge :=
  [demo_call "main" "parse"; demo_call "parse" "lex"; demo_call "lex" "read"; demo_call "read" "lex"].

Definition demo_find (qn : string) : option Node :=
  List.find (λ n, String.eqb (n_qualified_name n) qn) demo_nodes.

Definition demo_ends (near far : Edge → string) (qn : string) (limit : N) : list (Node * Edge) :=
  takeN limit (omap (λ e, (λ n, (n, e)) <$> demo_find (far e))
    (filter (λ e, String.eqb (near e) qn) demo_edges)).

Definition demo_store : ContextStore string := {|
  node_by_qname qn := Ok (demo_find qn);
  nodes_by_name name limit :=
    Ok (takeN limit (filter (λ n, String.eqb (n_name n) name) demo_nodes));
  nodes_by_file path := Ok (filter (λ n, String.eqb (n_file_path n) path) demo_nodes);
  direct_callers qn limit := Ok (demo_ends e_target_qn e_source_qn qn limit);
  direct_callees qn limit := Ok (demo_ends e_source_qn e_target_qn qn limit);
  import_neighbors _ _ := Ok [];
  containment_siblings _ _ := Ok [];
  test_neighbors _ _ := Ok [];
  impact_radius paths _ _ _ := Err "no radius";
  fts_search _ _ := Ok []
|}.

Definition no_metadata (n : Node) (key : string) : option string := None.
Definition no_key (n : Node) (key : string) : bool := false.

Definition demo_request : ContextRequest :=
  with_target (SymbolName "parse") (with_limits 3 2 5 3 default_request).

Definition demo_context : option (result string ContextResult) :=
  build_context (ContextStore0 := demo_store) no_metadata no_key elements (λ _, "target") 0
    demo_request default_policy.

Definition names_in (r : ContextResult) : list string :=
  map (λ n, n_qualified_name (sn_node n)) (nodes r).

(** The callee and the caller fit, the node two hops away is trimmed, its edges with it. *)
Lemma build_context_bounded_witness :
  ∃ r, demo_context = Some (Ok r) ∧ names_in r = ["crate::parse"; "crate::lex"; "crate::main"] ∧
    nodes_dropped (truncation r) = 1%N ∧ edges_dropped (truncation r) = 1%N ∧
    (len (nodes r) ≤ 3)%N ∧ (len (edges r) ≤ 2)%N.
Proof.
  eexists. split; [vm_compute; reflexivity|]. split; [reflexivity|]. split; [reflexivity|].
  split; [reflexivity|].
  match goal with |- (len (nodes ?r) ≤ _)%N ∧ _ =>
    assert (demo_context = Some (Ok r)) as H by (vm_compute; reflexivity);
    destruct (build_context_bounded (ContextStore0 := demo_store) no_metadata no_key elements
      (λ _, "target") 0 demo_request default_policy r H) as (Hn & He & _) end.
  split; [exact Hn|exact He].
Defined.

Definition demo_expansion : result string Expansion :=
  expand_hops (ContextStore0 := demo_store) no_metadata 2 (with_limits 3 2 5 2 demo_request) None 1
    ["crate::parse"] (start (demo_node "parse" "src/lib.rs")).

Lemma symbol_neighbourhood_exact_witness :
  ∃ x, demo_expansion = Ok x ∧
    map (λ sn, (n_name (sn_node sn), sn_distance sn)) (x_nodes x) =
      [("parse", 0); ("main", 1); ("lex", 1); ("read", 2)]%N ∧
    NoDup (map (λ sn, n_qualified_name (sn_node sn)) (x_nodes x)).
Proof.
  eexists. split; [vm_compute; reflexivity|]. split; [reflexivity|].
  match goal with |- NoDup (map _ (x_nodes ?x)) =>
    assert (demo_expansion = Ok x) as H by (vm_compute; reflexivity);
    destruct (symbol_neighbourhood_exact (ContextStore0 := demo_store) no_metadata
      (with_limits 3 2 5 2 demo_request) (demo_node "parse" "src/lib.rs") x H) as [Hnd _] end.
  exact Hnd.
Defined.
