(* ===== verification/ContextPayload.v ===== *)
(** * Review contexts: payload budgets and the engine

    Model of [packages/atlas-review/src/context/payload.rs], of [packages/atlas-token-count]
    and of the engine of [context/mod.rs]: a built context is cut down, one unit at a time
    in a fixed order of value, until its serialized form is within the byte and token limits
    of the policy; the engine resolves the limits of a request and reports what was dropped.
    Serialization ([serde_json]), the tokenizer and the retrieval of saved context and
    content assets are parameters. *)

From Stdlib Require Import Floats.SpecFloat.
From S2P Require Import Prelude RustStr RustFloat Budget Kinds Graph ContextData ContextRank.
From S2P Require Import ContextWorkflow ContextBuild.

(** ** Token counts *)

Inductive TokenCountMethod :=
| MTokenizer (provider : string) (model : option string)
| MHeuristicBytes (bytes_per_token : N).

Record TokenCount := mk_count {
  tokens : N;
  method : TokenCountMethod;
  fallback_reason : option string
}.

(** A tokenizer is the number of tokens it gives a text, or its error. *)
Inductive TokenCounter :=
| Tokenizer (encode : string → result string N) (provider : string) (model : option string)
| Heuristic (bytes_per_token : N).

Definition div_ceil (n d : N) : N := if (n mod d =? 0)%N then (n / d)%N else (n / d + 1)%N.

Definition heuristic (bytes_per_token : N) : result string TokenCounter :=
  if (bytes_per_token =? 0)%N then Err "bytes_per_token must be greater than zero"
  else Ok (Heuristic bytes_per_token).

Definition count_text (c : TokenCounter) (text : string) : result string TokenCount :=
  match c with
  | Tokenizer encode provider model =>
      n <-? encode text;; Ok (mk_count n (MTokenizer provider model) None)
  | Heuristic b =>
      Ok (mk_count (div_ceil (N.of_nat (String.length text)) b) (MHeuristicBytes b) None)
  end.

Definition count_json_bytes (c : TokenCounter) (bytes : string) : result string TokenCount :=
  if valid_utf8 bytes then count_text c bytes
  else Err "cannot count tokens: input is not valid UTF-8".

(** ** What is dropped first *)

Record DropCandidate := mk_candidate {
  dc_index : nat;
  dc_keep_priority : N;
  dc_score : spec_float;
  dc_key_a : string;
  dc_key_b : string
}.

Definition compare_drop_candidates : DropCandidate → DropCandidate → comparison :=
  cmp_lex (cmp_on dc_keep_priority N.compare)
    (cmp_lex (λ a b, partial_cmp_or_equal (dc_score a) (dc_score b))
       (cmp_lex (cmp_on dc_key_a String.compare) (cmp_on dc_key_b String.compare))).

(** [Iterator::min_by]: the first of the least elements. *)
Definition min_by {A} (cmp : A → A → comparison) (l : list A) : option A :=
  match l with
  | [] => None
  | x :: l => Some (foldl (λ m y, match cmp m y with Gt => y | _ => m end) x l)
  end.

Definition select_best_drop (cs : list DropCandidate) : option nat :=
  dc_index <$> min_by compare_drop_candidates cs.

Definition file_keep_priority (reason : SelectionReason) : N :=
  match reason with
  | DirectTarget => 6
  | TestAdjacent => 5
  | ImpactNeighbor => 4
  | Caller | Callee => 3
  | Importer | Importee => 2
  | ContainmentSibling => 1
  end.

Definition edge_keep_priority (reason : SelectionReason) : N := file_keep_priority reason.

Definition node_keep_priority (sn : SelectedNode) : N :=
  if n_is_test (sn_node sn) then 5 else file_keep_priority (sn_reason sn).

(** The candidates among the items that satisfy a condition. *)
Definition candidates_of {A} (p : A → bool) (c : nat → A → DropCandidate) (l : list A) :
    list DropCandidate :=
  omap id (imap (λ i x, if p x then Some (c i x) else None) l).

Definition file_candidate (i : nat) (f : SelectedFile) : DropCandidate :=
  mk_candidate i (file_keep_priority (sf_reason f)) (f32_of_N (sf_node_count f)) (sf_path f) "".

Definition has_ranges (f : SelectedFile) : bool :=
  match sf_line_ranges f with [] => false | _ => true end.

Definition select_excerpt_drop_index (r : ContextResult) : option nat :=
  select_best_drop (candidates_of has_ranges file_candidate (files r)).

Definition select_saved_source_drop_index (r : ContextResult) : option nat :=
  select_best_drop
    (candidates_of (λ _, true) (λ i s, mk_candidate i 0 (sv_score s) (sv_source_id s) "")
       (saved_context_sources r)).

(** Items that are no direct target, unless all are. *)
Definition droppable {A} (reason : A → SelectionReason) (l : list A) (x : A) : bool :=
  negb (existsb (λ y, negb (is_direct (reason y))) l) || negb (is_direct (reason x)).

Definition select_file_drop_index (r : ContextResult) : option nat :=
  select_best_drop (candidates_of (droppable sf_reason (files r)) file_candidate (files r)).

Definition select_edge_drop_index (r : ContextResult) : option nat :=
  select_best_drop
    (candidates_of (λ _, true)
       (λ i e, mk_candidate i (edge_keep_priority (se_reason e)) (se_score e)
                 (e_source_qn (se_edge e)) (e_target_qn (se_edge e)))
       (edges r)).

Definition node_candidate (i : nat) (n : SelectedNode) : DropCandidate :=
  mk_candidate i (node_keep_priority n) (sn_score n) (n_qualified_name (sn_node n)) "".

Definition select_node_drop_index (r : ContextResult) : option nat :=
  if (length (nodes r) <=? 1)%nat then None
  else select_best_drop (candidates_of (droppable sn_reason (nodes r)) node_candidate (nodes r)).

(** [Vec::pop]. *)
Definition pop {A} (l : list A) : list A := take (length l - 1) l.

Definition set_workflow (w : WorkflowSummary) (r : ContextResult) : ContextResult :=
  set_summaries (ambiguity r) (Some w) r.

(** [None] when there is nothing to trim. *)
Definition trim_workflow (r : ContextResult) : option ContextResult :=
  match workflow r with
  | None => None
  | Some w =>
      let keep focus components chains effects :=
        Some (set_workflow
          (mk_workflow (headline w) focus components chains effects (noise_reduction w)) r) in
      let focus := high_impact_nodes w in
      let components := impacted_components w in
      let chains := call_chains w in
      let effects := ripple_effects w in
      match chains, effects, components with
      | _ :: _, _, _ => keep focus components (pop chains) effects
      | [], _ :: _, _ => keep focus components chains (pop effects)
      | [], [], _ :: _ => keep focus (pop components) chains effects
      | [], [], [] =>
          if (1 <? length focus)%nat then keep (pop focus) components chains effects else None
      end
  end.

Definition trim_ambiguity (r : ContextResult) : option ContextResult :=
  match ambiguity r with
  | None => None
  | Some a =>
      if (1 <? length (candidates a))%nat
      then Some (set_summaries (Some (mk_ambiguity (query a) (pop (candidates a)) (resolved a)))
                   (workflow r) r)
      else None
  end.

(** [Vec::remove] of an index in range. *)
Definition remove_at {A} (i : nat) (l : list A) : list A := delete i l.

Definition remove_node (i : nat) (r : ContextResult) : ContextResult :=
  match nodes r !! i with
  | None => r
  | Some removed =>
      let qn := n_qualified_name (sn_node removed) in
      set_graph (remove_at i (nodes r))
        (filter (λ e, negb (String.eqb (e_source_qn (se_edge e)) qn) &&
                      negb (String.eqb (e_target_qn (se_edge e)) qn)) (edges r))
        (files r) r
  end.

(** One unit less, or [None] when nothing removable remains. *)
Definition trim_one_payload_unit (r : ContextResult) : option ContextResult :=
  match select_saved_source_drop_index r with
  | Some i => Some (set_sources (content_assets r) (remove_at i (saved_context_sources r)) r)
  | None =>
      match trim_workflow r with
      | Some r => Some r
      | None =>
          match trim_ambiguity r with
          | Some r => Some r
          | None =>
              match select_file_drop_index r with
              | Some i => Some (set_graph (nodes r) (edges r) (remove_at i (files r)) r)
              | None =>
                  match select_edge_drop_index r with
                  | Some i => Some (set_graph (nodes r) (remove_at i (edges r)) (files r) r)
                  | None =>
                      match select_node_drop_index r with
                      | Some i => Some (remove_node i r)
                      | None => None
                      end
                  end
              end
          end
      end
  end.

(** The number of removable units, and more: the fuel of every loop. *)
Definition workflow_size (w : WorkflowSummary) : nat :=
  length (call_chains w) + length (ripple_effects w) + length (impacted_components w) +
  length (high_impact_nodes w).

Definition payload_size (r : ContextResult) : nat :=
  length (saved_context_sources r) + default 0%nat (workflow_size <$> workflow r) +
  default 0%nat (length ∘ candidates <$> ambiguity r) + length (files r) + length (edges r) +
  length (nodes r).

Section payload.
(** [serde_json::to_vec]; the result is serialized without its payload metadata. *)
Context (ser_result : ContextResult → option string).
Context (ser_nodes : list SelectedNode → option string) (ser_edges : list SelectedEdge → option string).
Context (ser_files : list SelectedFile → option string).
Context (ser_saved : list SavedContextSource → option string).
Context (ser_assets : list ContentAsset → option string).
Context (ser_ranges : list (list (N * N)) → option string).

Record PayloadMeasurement := mk_measure {
  m_bytes : N;
  m_tokens : N;
  m_method : TokenCountMethod;
  m_fallback_reason : option string
}.

Definition str_len (s : string) : N := N.of_nat (String.length s).

Definition without_payload (r : ContextResult) : ContextResult :=
  let t := truncation r in
  set_truncation (mk_truncation (nodes_dropped t) (edges_dropped t) (files_dropped t)
    (content_assets_dropped t) (truncated t) None) r.

Definition measure_payload (counter : TokenCounter) (r : ContextResult) : PayloadMeasurement :=
  match ser_result (without_payload r) with
  | None => mk_measure 0 0 (MHeuristicBytes 4) (Some "payload serialization failed")
  | Some bytes =>
      let count :=
        match count_json_bytes counter bytes with
        | Ok c => c
        | Err _ => mk_count (div_ceil (str_len bytes) 4) (MHeuristicBytes 4)
                     (Some "tokenizer count failed")
        end in
      mk_measure (str_len bytes) (tokens count) (method count) (fallback_reason count)
  end.

Definition ser_len {A} (ser : A → option string) (x : A) : N :=
  match ser x with Some bytes => str_len bytes | None => 0 end.

(** *** The loops; [None] is no more fuel. *)

Definition clear_ranges (f : SelectedFile) : SelectedFile :=
  mk_sfile (sf_path f) (sf_reason f) [] (sf_language f) (sf_node_count f).

Fixpoint trim_file_excerpt_bytes (fuel : nat) (limit : N) (r : ContextResult) : option ContextResult :=
  if (ser_len ser_ranges (map sf_line_ranges (files r)) <=? limit)%N then Some r
  else
    match fuel with
    | O => None
    | S fuel =>
        match select_excerpt_drop_index r with
        | None => Some r
        | Some i =>
            trim_file_excerpt_bytes fuel limit
              (set_graph (nodes r) (edges r) (alter clear_ranges i (files r)) r)
        end
    end.

Fixpoint trim_saved_context_bytes (fuel : nat) (limit : N) (r : ContextResult) : option ContextResult :=
  if (ser_len ser_saved (saved_context_sources r) <=? limit)%N then Some r
  else
    match fuel with
    | O => None
    | S fuel =>
        match select_saved_source_drop_index r with
        | None => Some r
        | Some i =>
            trim_saved_context_bytes fuel limit
              (set_sources (content_assets r) (remove_at i (saved_context_sources r)) r)
        end
    end.

Fixpoint trim_review_source_bytes (fuel : nat) (limit : N) (r : ContextResult) : option ContextResult :=
  if (ser_len ser_files (files r) <=? limit)%N then Some r
  else
    match fuel with
    | O => None
    | S fuel =>
        match select_file_drop_index r with
        | None => Some r
        | Some i =>
            trim_review_source_bytes fuel limit
              (set_graph (nodes r) (edges r) (remove_at i (files r)) r)
        end
    end.

Definition fits (byte_limit token_limit : N) (m : PayloadMeasurement) : bool :=
  (m_bytes m <=? byte_limit)%N && (m_tokens m <=? token_limit)%N.

Fixpoint trim_context_payload (fuel : nat) (byte_limit token_limit : N) (counter : TokenCounter)
    (r : ContextResult) : option (PayloadMeasurement * ContextResult) :=
  let m := measure_payload counter r in
  if fits byte_limit token_limit m then Some (m, r)
  else
    match fuel with
    | O => None
    | S fuel =>
        match trim_one_payload_unit r with
        | None => Some (m, r)
        | Some r => trim_context_payload fuel byte_limit token_limit counter r
        end
    end.

(** *** Metadata *)

Record DropCounts := mk_drops {
  d_nodes : N;
  d_edges : N;
  d_files : N;
  d_sources : N;
  d_content_assets : N
}.

Record TokenFallbackInfo := mk_fallback { used : bool; reason : option string }.

Definition count_section_tokens (counter : TokenCounter) (bytes : option string) : N :=
  match count_json_bytes counter (default "" bytes) with
  | Ok c => tokens c
  | Err _ => 0
  end.

Definition compute_source_mix (r : ContextResult) (dropped : DropCounts) (counter : TokenCounter) :
    list ContextSourceMix :=
  let section := count_section_tokens counter in
  let graph_tokens :=
    (section (ser_nodes (nodes r)) + section (ser_edges (edges r)) + section (ser_files (files r)))%N in
  let saved_tokens := section (ser_saved (saved_context_sources r)) in
  let asset_tokens := section (ser_assets (content_assets r)) in
  if (graph_tokens + saved_tokens + asset_tokens =? 0)%N then []
  else
    let part (kind : string) (included dropped tokens : N) : list ContextSourceMix :=
      if (0 <? included)%N || (0 <? dropped)%N then [mk_source_mix kind included dropped tokens]
      else [] in
    part "graph_context" (len (nodes r) + len (edges r) + len (files r))%N
      (d_nodes dropped + d_edges dropped + d_files dropped)%N graph_tokens ++
    part "content_assets" (len (content_assets r)) (d_content_assets dropped) asset_tokens ++
    part "saved_artifacts" (len (saved_context_sources r)) (d_sources dropped) saved_tokens.

Definition build_token_accounting_meta (emitted : PayloadMeasurement) (fallback : TokenFallbackInfo) :
    TokenAccountingMeta :=
  let '(provider, model, bytes_per_token) :=
    match m_method emitted with
    | MTokenizer provider model => (provider, model, None)
    | MHeuristicBytes b => ("heuristic", None, Some b)
    end in
  mk_accounting provider model
    (used fallback || match m_fallback_reason emitted with Some _ => true | None => false end)
    (match reason fallback with Some x => Some x | None => m_fallback_reason emitted end)
    bytes_per_token.

Definition continuation_hint (r : ContextResult) (omitted_sources : N) : string :=
  if (0 <? omitted_sources)%N
  then "reduce saved-context scope or retrieve full artifacts by source_id"
  else if include_code_spans (request r)
  then "narrow query, lower depth, or disable code_spans for larger payloads"
  else "narrow query, lower depth, or split changed-file set".

(** *** [apply_payload_budgets] *)

(** The token limit of a request: never above the policy's default and ceiling. *)
Definition effective_token_limit (rq : ContextRequest) (policy : BudgetPolicy) : N :=
  let rule := pl_context_tokens_estimate (mcp_cli_payload_serialization policy) in
  match token_budget rq with
  | Some requested => N.min (N.min requested (max_limit rule)) (default_limit rule)
  | None => default_limit rule
  end.

(** The three section caps, then the whole payload. *)
Definition trim_payload (fuel : nat) (policy : BudgetPolicy) (counter : TokenCounter)
    (r : ContextResult) : option (PayloadMeasurement * ContextResult) :=
  let p := mcp_cli_payload_serialization policy in
  let token_limit := effective_token_limit (request r) policy in
  r ← trim_file_excerpt_bytes fuel (default_limit (pl_file_excerpt_bytes p)) r;
  r ← trim_saved_context_bytes fuel (default_limit (pl_saved_context_bytes p)) r;
  r ← trim_review_source_bytes fuel (default_limit (pl_review_source_bytes p)) r;
  trim_context_payload fuel (default_limit (pl_context_payload_bytes p)) token_limit counter r.

Definition apply_payload_budgets (fuel : nat) (policy : BudgetPolicy) (counter : TokenCounter)
    (fallback : TokenFallbackInfo) (r0 : ContextResult) : option ContextResult :=
  let policy_token_limit :=
    default_limit (pl_context_tokens_estimate (mcp_cli_payload_serialization policy)) in
  let effective := effective_token_limit (request r0) policy in
  let applied :=
    match token_budget (request r0) with
    | Some _ => if (effective <? policy_token_limit)%N then Some effective else None
    | None => None
    end in
  let requested := measure_payload counter r0 in
  '(emitted, r) ← trim_payload fuel policy counter r0;
  let r := update_file_node_counts r in
  let dropped := mk_drops (len (nodes r0) - len (nodes r)) (len (edges r0) - len (edges r))
    (len (files r0) - len (files r))
    (len (saved_context_sources r0) - len (saved_context_sources r))
    (len (content_assets r0) - len (content_assets r)) in
  let omitted := (m_bytes requested - m_bytes emitted)%N in
  let cut := (0 <? d_nodes dropped)%N || (0 <? d_edges dropped)%N || (0 <? d_files dropped)%N ||
    (0 <? d_sources dropped)%N || (0 <? d_content_assets dropped)%N || (0 <? omitted)%N in
  if cut || match applied with Some _ => true | None => false end then
    let t0 := truncation r0 in
    let counted d := mk_truncation (nodes_dropped t0 + d_nodes dropped)
      (edges_dropped t0 + d_edges dropped) (files_dropped t0 + d_files dropped)
      (content_assets_dropped t0 + d_content_assets dropped) cut d in
    let meta := mk_payload (m_bytes requested) (m_bytes emitted) (m_tokens emitted) applied
      (d_nodes dropped) (d_files dropped) (d_sources dropped) omitted
      (if (0 <? omitted)%N || (0 <? d_nodes dropped)%N || (0 <? d_files dropped)%N
       then Some (continuation_hint r (d_sources dropped)) else None)
      (compute_source_mix r dropped counter)
      (Some (build_token_accounting_meta emitted fallback)) in
    Some (set_truncation (counted (Some meta)) r)
  else Some r.

(** ** The engine *)

Definition seed_budget_name (kind : string) : string :=
  if String.eqb kind "changed_files" then "graph_traversal.max_seed_files"
  else if String.eqb kind "changed_symbols" then "graph_traversal.max_seed_nodes"
  else if String.eqb kind "symbol_resolution" then "query_candidates_and_seeds.symbol_resolution"
  else kind.

Definition record_seed_budget (m : BudgetManager) (seed : SeedBudgetMeta) : BudgetManager :=
  if sb_budget_hit seed then
    let name := seed_budget_name (seed_kind seed) in
    let limit := N.max (accepted_seed_count seed) 1 in
    let observed := N.max (requested_seed_count seed) (accepted_seed_count seed) in
    record_report m
      (if sb_safe_to_answer seed then partial_result name limit observed true
       else blocked name limit observed)
  else m.

Definition record_seed_budget_reports (m : BudgetManager) (r : ContextResult) : BudgetManager :=
  foldl record_seed_budget m (seed_budgets r).

(** A usage of a payload rule is recorded when it exceeds the rule's default. *)
Definition record_over_default (m : BudgetManager) (rule : BudgetLimitRule) (name : string)
    (observed : N) : BudgetManager :=
  if (default_limit rule <? observed)%N
  then record_usage m rule name (default_limit rule) observed true else m.

Definition record_payload_budget_reports (m : BudgetManager) (r : ContextResult)
    (policy : BudgetPolicy) : BudgetManager :=
  match payload (truncation r) with
  | None => m
  | Some p =>
      let rules := mcp_cli_payload_serialization policy in
      let m := record_over_default m (pl_context_payload_bytes rules)
        "mcp_cli_payload_serialization.max_context_payload_bytes" (bytes_requested p) in
      record_over_default m (pl_context_tokens_estimate rules)
        "mcp_cli_payload_serialization.max_context_tokens_estimate" (div_ceil (bytes_requested p) 4)
  end.

(** The two retrievals of an attached content store: the sources with the number that
    matched, and the assets. *)
Record ContentRetrieval := mk_retrieval {
  retrieve_saved_context : ContextRequest → ContextResult → N → list SavedContextSource * N;
  retrieve_content_assets : ContextRequest → ContextResult → N → list ContentAsset
}.

Context {E : Type} `{!ContextStore E}.
Context (extra_str : Node → string → option string) (extra_has : Node → string → bool).
Context (set_order : gset string → list string) (debug_target : ContextTarget → string).
Context (content_store : option ContentRetrieval).
Context (policy : BudgetPolicy) (counter : TokenCounter) (fallback : TokenFallbackInfo).

Definition cast_u32 (n : N) : N := (n mod (u32_max + 1))%N.

Definition usage (m : BudgetManager) (rule : BudgetLimitRule) (name : string) (limit : option N)
    (default_cap kept dropped : N) : BudgetManager :=
  record_usage m rule name (default default_cap limit) (kept + dropped)%N (0 <? dropped)%N.

Definition attach_saved (rq : ContextRequest) (limit : N) (m : BudgetManager) (r : ContextResult) :
    BudgetManager * ContextResult :=
  match content_store with
  | Some cs =>
      if include_saved_context rq then
        let (sources, matched) := retrieve_saved_context cs rq r limit in
        (record_usage m (cl_sources (content_saved_context_lookup policy))
           "content_saved_context_lookup.max_sources" limit matched (limit <? matched)%N,
         set_sources (content_assets r) sources r)
      else (m, r)
  | None => (m, r)
  end.

Definition attach_assets (rq : ContextRequest) (limit : N) (m : BudgetManager) (r : ContextResult) :
    BudgetManager * ContextResult :=
  match content_store with
  | Some cs =>
      if include_content_assets rq then
        let assets := retrieve_content_assets cs rq r limit in
        (record_usage m (cl_content_assets (content_saved_context_lookup policy))
           "content_saved_context_lookup.max_content_assets" limit (len assets)
           (limit <=? len assets)%N,
         set_sources assets (saved_context_sources r) r)
      else (m, r)
  | None => (m, r)
  end.

(** The request with its limits resolved, the limits of the two retrievals, and the
    reports so far. *)
Definition resolve_request (rq : ContextRequest) : ContextRequest * N * N * BudgetManager :=
  let rc := review_context_extraction policy in
  let cl := content_saved_context_lookup policy in
  let (nodes_limit, m) :=
    resolve_limit new_manager (rc_nodes rc) "review_context_extraction.max_nodes" (max_nodes rq) in
  let (edges_limit, m) :=
    resolve_limit m (rc_edges rc) "review_context_extraction.max_edges" (max_edges rq) in
  let (files_limit, m) :=
    resolve_limit m (rc_files rc) "review_context_extraction.max_files" (max_files rq) in
  let (depth_limit, m) :=
    resolve_limit m (gt_depth (graph_traversal policy)) "graph_traversal.max_depth" (depth rq) in
  let (saved_limit, m) :=
    resolve_limit m (cl_sources cl) "content_saved_context_lookup.max_sources" None in
  let (asset_limit, m) :=
    resolve_limit m (cl_content_assets cl) "content_saved_context_lookup.max_content_assets"
      (max_content_assets rq) in
  (with_limits nodes_limit edges_limit files_limit (cast_u32 depth_limit) rq, saved_limit,
   asset_limit, m).

Definition report_extraction (m : BudgetManager) (r : ContextResult) : BudgetManager :=
  let rc := review_context_extraction policy in
  let t := truncation r in
  let m := usage m (rc_nodes rc) "review_context_extraction.max_nodes" (max_nodes (request r))
    DEFAULT_MAX_NODES (len (nodes r)) (nodes_dropped t) in
  let m := usage m (rc_edges rc) "review_context_extraction.max_edges" (max_edges (request r))
    DEFAULT_MAX_EDGES (len (edges r)) (edges_dropped t) in
  usage m (rc_files rc) "review_context_extraction.max_files" (max_files (request r))
    DEFAULT_MAX_FILES (len (files r)) (files_dropped t).

Definition engine_build (fuel : nat) (request0 : ContextRequest) : option (result E ContextResult) :=
  let '(rq, saved_limit, asset_limit, m) := resolve_request request0 in
  built ← build_context extra_str extra_has set_order debug_target fuel rq policy;
  match built with
  | Err e => Some (Err e)
  | Ok r =>
      let m := record_report m (budget r) in
      let (m, r) := attach_saved rq saved_limit m r in
      let (m, r) := attach_assets rq asset_limit m r in
      r ← apply_payload_budgets (S (payload_size r)) policy counter fallback r;
      let m := report_extraction m r in
      let m := record_payload_budget_reports (record_seed_budget_reports m r) r policy in
      Some (Ok (set_budget
        (summary m "review_context_extraction.max_nodes"
           (default DEFAULT_MAX_NODES (max_nodes (request r))) (len (nodes r))) r))
  end.
End payload.

(** ** Lemmas: what is selected *)

Lemma min_by_elem {A} (cmp : A → A → comparison) l m : min_by cmp l = Some m → m ∈ l.
Proof.
  destruct l as [|x l]; simpl; [done|]. intros [= <-]. revert x.
  induction l as [|y l IH]; intros x; simpl; [constructor|].
  rewrite !elem_of_cons. destruct (cmp x y).
  1,2: destruct (proj1 (elem_of_cons _ _ _) (IH x)); auto.
  right. apply elem_of_cons. apply (IH y).
Qed.

(** A component of the order that comes first is least whatever the rest of the order is. *)
Lemma min_by_priority {A} (key : A → N) (rest : A → A → comparison) l m :
  min_by (cmp_lex (cmp_on key N.compare) rest) l = Some m → ∀ y, y ∈ l → (key m ≤ key y)%N.
Proof.
  destruct l as [|x l]; simpl; [done|]. intros [= <-].
  assert (∀ z, (key (foldl (λ m y, match cmp_lex (cmp_on key N.compare) rest m y with
      | Gt => y | _ => m end) z l) ≤ key z)%N ∧
    ∀ y, y ∈ l → (key (foldl (λ m y, match cmp_lex (cmp_on key N.compare) rest m y with
      | Gt => y | _ => m end) z l) ≤ key y)%N) as H.
  { induction l as [|w l IH]; intros z; cbn [foldl]; [split; [lia|by intros y ?%elem_of_nil]|].
    set (z' := match cmp_lex _ _ z w with Gt => w | _ => z end).
    assert (key z' ≤ key z ∧ key z' ≤ key w)%N as [Hz Hw].
    { subst z'. unfold cmp_lex, cmp_on, then_with.
      destruct (N.compare_spec (key z) (key w)) as [Heq|Hlt|Hgt]; simpl.
      - destruct (rest z w); lia.
      - lia.
      - lia. }
    destruct (IH z') as [H1 H2]. split; [lia|].
    intros y [->|Hy]%elem_of_cons; [lia|by apply H2]. }
  destruct (H x) as [H1 H2]. intros y [->|Hy]%elem_of_cons; [exact H1|exact (H2 y Hy)].
Qed.

Lemma candidates_spec {A} (p : A → bool) (c : nat → A → DropCandidate) l x :
  x ∈ candidates_of p c l ↔ ∃ i y, l !! i = Some y ∧ p y = true ∧ x = c i y.
Proof.
  unfold candidates_of. rewrite list_elem_of_omap. split.
  - intros (o & Ho & Hx). simpl in Hx. subst o.
    apply elem_of_lookup_imap in Ho as (i & y & Heq & Hi).
    destruct (p y) eqn:Hp; simplify_eq. by exists i, y.
  - intros (i & y & Hi & Hp & ->). exists (Some (c i y)). split; [|done].
    apply elem_of_lookup_imap. exists i, y. by rewrite Hp.
Qed.

Section selection.
Context {A : Type} (p : A → bool) (c : nat → A → DropCandidate).
Context (c_index : ∀ i x, dc_index (c i x) = i).
Context (c_key : A → N) (c_priority : ∀ i x, dc_keep_priority (c i x) = c_key x).

(** The selected item is a candidate of least keep priority. *)
Lemma select_drop_some l i :
  select_best_drop (candidates_of p c l) = Some i →
  ∃ x, l !! i = Some x ∧ p x = true ∧ ∀ y, y ∈ l → p y = true → (c_key x ≤ c_key y)%N.
Proof.
  unfold select_best_drop. intros (d & Hd & ->)%fmap_Some_1.
  pose proof (min_by_elem _ _ _ Hd) as (i & x & Hi & Hp & ->)%candidates_spec.
  rewrite c_index. exists x. split_and!; [done|done|]. intros y [j Hj]%list_elem_of_lookup Hy.
  rewrite <-(c_priority i x), <-(c_priority j y).
  eapply min_by_priority; [exact Hd|]. apply candidates_spec. eauto.
Qed.

Lemma select_drop_none l :
  select_best_drop (candidates_of p c l) = None → ∀ x, x ∈ l → p x = false.
Proof.
  unfold select_best_drop. intros H x [i Hi]%list_elem_of_lookup.
  destruct (p x) eqn:Hp; [|done]. exfalso.
  assert (c i x ∈ candidates_of p c l) as Hin by (apply candidates_spec; eauto).
  destruct (candidates_of p c l); [by apply elem_of_nil in Hin|done].
Qed.
End selection.

Lemma droppable_some {A} (reason : A → SelectionReason) l :
  l ≠ [] → ∃ x, x ∈ l ∧ droppable reason l x = true.
Proof.
  intros Hl. unfold droppable.
  destruct (existsb (λ y, negb (is_direct (reason y))) l) eqn:E.
  - apply existsb_exists in E as (x & Hx & Hd). exists x. simpl. by rewrite <-list_elem_of_In in Hx.
  - destruct l as [|x l]; [done|]. exists x. split; [constructor|done].
Qed.

(** ** Lemmas: one unit less *)

(** Nothing is left to remove. *)
Definition minimal (r : ContextResult) : Prop :=
  saved_context_sources r = [] ∧ files r = [] ∧ edges r = [] ∧ (length (nodes r) ≤ 1)%nat ∧
  (∀ w, workflow r = Some w →
    call_chains w = [] ∧ ripple_effects w = [] ∧ impacted_components w = [] ∧
    (length (high_impact_nodes w) ≤ 1)%nat) ∧
  (∀ a, ambiguity r = Some a → (length (candidates a) ≤ 1)%nat).

Definition direct_nodes (ns : list SelectedNode) : list SelectedNode :=
  filter (λ n, is_direct (sn_reason n)) ns.

(** What trimming keeps. *)
Record kept (r r' : ContextResult) : Prop := {
  k_nodes : sublist (nodes r') (nodes r);
  k_edges : sublist (edges r') (edges r);
  k_files : sublist (map sf_path (files r')) (map sf_path (files r));
  k_saved : sublist (saved_context_sources r') (saved_context_sources r);
  k_assets : content_assets r' = content_assets r;
  k_request : request r' = request r;
  k_truncation : truncation r' = truncation r;
  k_budget : budget r' = budget r;
  k_direct : direct_nodes (nodes r') = direct_nodes (nodes r) ∨
             Forall (λ n, sn_reason n = DirectTarget) (nodes r');
  k_closed : closed (nodes r) (edges r) → closed (nodes r') (edges r');
  k_some : nodes r ≠ [] → nodes r' ≠ []
}.

Lemma Forall_sublist {A} (P : A → Prop) l k : sublist l k → Forall P k → Forall P l.
Proof.
  induction 1; intros Hk; [done| |]; apply Forall_cons in Hk as [??]; auto.
Qed.

#[export] Instance kept_preorder : PreOrder kept.
Proof.
  split.
  - intros r. split; auto.
  - intros x y z [] []. split; try (by etrans); auto.
    destruct k_direct1 as [Hd|Hd]; [|by right].
    destruct k_direct0 as [Hd'|Hd']; [left; congruence|right].
    by eapply Forall_sublist.
Qed.

Lemma delete_length {A} i (x : A) l : l !! i = Some x → S (length (delete i l)) = length l.
Proof.
  intros H. rewrite length_delete by eauto. pose proof (lookup_lt_Some _ _ _ H). lia.
Qed.

Lemma length_pop {A} (l : list A) : l ≠ [] → S (length (pop l)) = length l.
Proof. destruct l; [done|]. intros _. unfold pop. rewrite length_take. simpl. lia. Qed.

(** Deleting a node that is not a direct target, unless all are. *)
Lemma delete_direct i n ns :
  ns !! i = Some n → droppable sn_reason ns n = true →
  direct_nodes (delete i ns) = direct_nodes ns ∨
  Forall (λ n, sn_reason n = DirectTarget) (delete i ns).
Proof.
  unfold droppable, direct_nodes. intros Hi [Hall|Hn]%orb_true_iff.
  - right. apply (Forall_sublist _ _ ns); [apply sublist_delete|].
    apply Forall_forall. intros m Hm. apply negb_true_iff in Hall.
    apply list_elem_of_In in Hm. destruct (is_direct (sn_reason m)) eqn:E.
    + by apply bool_decide_eq_true in E.
    + exfalso. apply not_true_iff_false in Hall. apply Hall, existsb_exists. exists m.
      by rewrite E.
  - left. rewrite delete_take_drop. rewrite <-(take_drop_middle ns i n Hi) at 3.
    rewrite !filter_app, filter_cons. apply negb_true_iff in Hn. by rewrite Hn.
Qed.

(** The node and its edges go together. *)
Lemma delete_closed i n ns es :
  ns !! i = Some n → closed ns es →
  closed (delete i ns)
    (filter (λ e, negb (String.eqb (e_source_qn (se_edge e)) (n_qualified_name (sn_node n))) &&
                  negb (String.eqb (e_target_qn (se_edge e)) (n_qualified_name (sn_node n)))) es).
Proof.
  intros Hi Hc. unfold closed in *. rewrite Forall_forall in *.
  intros e [He Hin]%list_elem_of_filter. apply Is_true_true, andb_true_iff in He as [Hs Ht].
  apply negb_true_iff, String.eqb_neq in Hs, Ht. specialize (Hc e Hin).
  unfold names_of in *. rewrite !elem_of_list_to_set, delete_take_drop in *.
  rewrite <-(take_drop_middle ns i n Hi) in Hc. rewrite !map_app in *. simpl in Hc.
  rewrite !elem_of_app, !elem_of_cons in *. naive_solver.
Qed.

Lemma trim_workflow_spec r :
  match trim_workflow r with
  | Some r' => ∃ w w', workflow r = Some w ∧ r' = set_workflow w' r ∧
      S (workflow_size w') = workflow_size w
  | None => ∀ w, workflow r = Some w →
      call_chains w = [] ∧ ripple_effects w = [] ∧ impacted_components w = [] ∧
      (length (high_impact_nodes w) ≤ 1)%nat
  end.
Proof.
  unfold trim_workflow. destruct (workflow r) as [w|] eqn:Hw; [|done].
  destruct w as [h focus comps chains effects noise].
  cbn [call_chains ripple_effects impacted_components high_impact_nodes].
  destruct chains as [|c chains]; [destruct effects as [|e effects]; [destruct comps as [|k comps]|]|].
  - destruct (Nat.ltb_spec 1 (length focus)).
    + do 2 eexists. split_and!; [done|done|]. unfold workflow_size. cbn [call_chains ripple_effects
        impacted_components high_impact_nodes]. rewrite <-(length_pop focus) by (intros ->; simpl in *; lia).
      lia.
    + intros ? [= <-]. split_and!; try done; cbn; lia.
  - do 2 eexists. split_and!; [done|done|]. unfold workflow_size. cbn [call_chains ripple_effects
      impacted_components high_impact_nodes]. rewrite <-(length_pop (k :: comps)) by done. lia.
  - do 2 eexists. split_and!; [done|done|]. unfold workflow_size. cbn [call_chains ripple_effects
      impacted_components high_impact_nodes]. rewrite <-(length_pop (e :: effects)) by done. lia.
  - do 2 eexists. split_and!; [done|done|]. unfold workflow_size. cbn [call_chains ripple_effects
      impacted_components high_impact_nodes]. rewrite <-(length_pop (c :: chains)) by done. lia.
Qed.

Lemma trim_ambiguity_spec r :
  match trim_ambiguity r with
  | Some r' => ∃ a a', ambiguity r = Some a ∧ r' = set_summaries (Some a') (workflow r) r ∧
      S (length (candidates a')) = length (candidates a)
  | None => ∀ a, ambiguity r = Some a → (length (candidates a) ≤ 1)%nat
  end.
Proof.
  unfold trim_ambiguity. destruct (ambiguity r) as [a|] eqn:Ha; [|done].
  destruct (Nat.ltb_spec 1 (length (candidates a))).
  - exists a. eexists. split_and!; [done|done|]. cbn [candidates]. apply length_pop.
    intros Hn. rewrite Hn in *. simpl in *. lia.
  - by intros ? [= <-].
Qed.

Lemma select_file_spec r :
  match select_file_drop_index r with
  | Some i => ∃ f, files r !! i = Some f ∧ droppable sf_reason (files r) f = true ∧
      ∀ g, g ∈ files r → droppable sf_reason (files r) g = true →
        (file_keep_priority (sf_reason f) ≤ file_keep_priority (sf_reason g))%N
  | None => files r = []
  end.
Proof.
  unfold select_file_drop_index. destruct (select_best_drop _) as [i|] eqn:H.
  - by apply (select_drop_some _ file_candidate) with (c_key := λ f, file_keep_priority (sf_reason f)) in H.
  - destruct (decide (files r = [])) as [|Hne]; [done|].
    destruct (droppable_some sf_reason _ Hne) as (x & Hx & Hd).
    apply select_drop_none with (x := x) in H; [congruence|done].
Qed.

Lemma select_edge_spec r :
  match select_edge_drop_index r with
  | Some i => ∃ e, edges r !! i = Some e ∧
      ∀ g, g ∈ edges r → (edge_keep_priority (se_reason e) ≤ edge_keep_priority (se_reason g))%N
  | None => edges r = []
  end.
Proof.
  unfold select_edge_drop_index. destruct (select_best_drop _) as [i|] eqn:H.
  - apply select_drop_some with (c_key := λ e, edge_keep_priority (se_reason e)) in H as (e & ? & _ & ?);
      [|done..]. by exists e; auto.
  - destruct (edges r) as [|e es]; [done|].
    apply select_drop_none with (x := e) in H; [done|constructor].
Qed.

Lemma select_saved_spec r :
  match select_saved_source_drop_index r with
  | Some i => ∃ s, saved_context_sources r !! i = Some s
  | None => saved_context_sources r = []
  end.
Proof.
  unfold select_saved_source_drop_index. destruct (select_best_drop _) as [i|] eqn:H.
  - apply select_drop_some with (c_key := λ _, 0%N) in H as (s & ? & _); [|done..]. by exists s.
  - destruct (saved_context_sources r) as [|s ss]; [done|].
    apply select_drop_none with (x := s) in H; [done|constructor].
Qed.

Lemma select_node_spec r :
  match select_node_drop_index r with
  | Some i => (1 < length (nodes r))%nat ∧ ∃ n, nodes r !! i = Some n ∧
      droppable sn_reason (nodes r) n = true ∧
      ∀ m, m ∈ nodes r → droppable sn_reason (nodes r) m = true →
        (node_keep_priority n ≤ node_keep_priority m)%N
  | None => (length (nodes r) ≤ 1)%nat
  end.
Proof.
  unfold select_node_drop_index. destruct (Nat.leb_spec (length (nodes r)) 1); [done|].
  destruct (select_best_drop _) as [i|] eqn:H'.
  - split; [done|]. by apply (select_drop_some _ node_candidate) with (c_key := node_keep_priority) in H'.
  - destruct (decide (nodes r = [])) as [->|Hne]; [simpl; lia|].
    destruct (droppable_some sn_reason _ Hne) as (x & Hx & Hd).
    apply select_drop_none with (x := x) in H'; [congruence|done].
Qed.

Lemma map_remove {A B} (f : A → B) i l : map f (remove_at i l) = remove_at i (map f l).
Proof.
  unfold remove_at. revert i. induction l as [|x l IH]; intros [|i]; simpl; [done..|].
  f_equal. apply IH.
Qed.

(** A unit less keeps the structure and decreases the measure; no unit less is minimal. *)
Lemma trim_one_spec r :
  match trim_one_payload_unit r with
  | Some r' => kept r r' ∧ (payload_size r' < payload_size r)%nat
  | None => minimal r
  end.
Proof.
  unfold trim_one_payload_unit.
  pose proof (select_saved_spec r) as Hs. destruct (select_saved_source_drop_index r) as [i|].
  { destruct Hs as [s Hs]. split.
    - split; cbn; auto. apply sublist_delete.
    - unfold payload_size. cbn. rewrite <-(delete_length _ _ _ Hs). unfold remove_at. lia. }
  pose proof (trim_workflow_spec r) as Hw. destruct (trim_workflow r) as [r'|].
  { destruct Hw as (w & w' & Hw & -> & Hsz). split; [by split; cbn; auto|].
    unfold payload_size. cbn. rewrite Hw. cbn. lia. }
  pose proof (trim_ambiguity_spec r) as Ha. destruct (trim_ambiguity r) as [r'|].
  { destruct Ha as (a & a' & Ha & -> & Hsz). split; [by split; cbn; auto|].
    unfold payload_size. cbn. rewrite Ha. cbn. lia. }
  pose proof (select_file_spec r) as Hf. destruct (select_file_drop_index r) as [i|].
  { destruct Hf as (f & Hf & _ & _). split.
    - split; cbn; auto. rewrite map_remove. apply sublist_delete.
    - unfold payload_size. cbn. rewrite <-(delete_length _ _ _ Hf). unfold remove_at. lia. }
  pose proof (select_edge_spec r) as He. destruct (select_edge_drop_index r) as [i|].
  { destruct He as (e & He & _). split.
    - split; cbn; auto; [apply sublist_delete|]. apply Forall_sublist, sublist_delete.
    - unfold payload_size. cbn. rewrite <-(delete_length _ _ _ He). unfold remove_at. lia. }
  pose proof (select_node_spec r) as Hn. destruct (select_node_drop_index r) as [i|]; [|done].
  destruct Hn as (Hlen & n & Hn & Hd & _). unfold remove_node. rewrite Hn. unfold remove_at. split.
  - split; cbn; auto; [apply sublist_delete|apply sublist_filter|by eapply delete_direct
      |by apply delete_closed|].
    intros _ H0. apply (f_equal length) in H0. pose proof (delete_length _ _ _ Hn). simpl in H0. lia.
  - unfold payload_size. cbn. rewrite <-(delete_length _ _ _ Hn).
    pose proof (sublist_length _ _ (sublist_filter
      (λ e, negb (String.eqb (e_source_qn (se_edge e)) (n_qualified_name (sn_node n))) &&
            negb (String.eqb (e_target_qn (se_edge e)) (n_qualified_name (sn_node n)))) (edges r))).
    lia.
Qed.

(** ** Lemmas: the loops *)

(** The files that still have ranges: the measure of the excerpt loop. *)
Definition ranges_left (r : ContextResult) : nat := length (filter has_ranges (files r)).

Lemma clear_ranges_paths i l : map sf_path (alter clear_ranges i l) = map sf_path l.
Proof.
  revert i. induction l as [|f l IH]; intros [|i]; simpl; [done..|]. f_equal. apply IH.
Qed.

Lemma clear_ranges_left i l f :
  l !! i = Some f → has_ranges f = true →
  S (length (filter has_ranges (alter clear_ranges i l))) = length (filter has_ranges l).
Proof.
  revert i. induction l as [|g l IH]; intros [|i] Hi Hf; simplify_eq/=.
  - rewrite !filter_cons. by rewrite Hf.
  - specialize (IH i Hi Hf). rewrite !filter_cons. destruct (has_ranges g); simpl; by rewrite IH.
Qed.

Lemma clear_ranges_step r i :
  select_excerpt_drop_index r = Some i →
  let r' := set_graph (nodes r) (edges r) (alter clear_ranges i (files r)) r in
  kept r r' ∧ (ranges_left r' < ranges_left r)%nat ∧ payload_size r' = payload_size r.
Proof.
  unfold select_excerpt_drop_index. intros H. cbv zeta.
  apply (select_drop_some _ file_candidate) with (c_key := λ f, file_keep_priority (sf_reason f))
    in H as (f & Hf & Hp & _); [|done..].
  split_and!.
  - split; cbn; auto. by rewrite clear_ranges_paths.
  - unfold ranges_left. cbn [set_graph files]. pose proof (clear_ranges_left _ _ _ Hf Hp). lia.
  - unfold payload_size. cbn. by rewrite length_alter.
Qed.

Lemma remove_saved_step r i :
  select_saved_source_drop_index r = Some i →
  let r' := set_sources (content_assets r) (remove_at i (saved_context_sources r)) r in
  kept r r' ∧ (payload_size r' < payload_size r)%nat.
Proof.
  intros H. pose proof (select_saved_spec r) as Hs. rewrite H in Hs. destruct Hs as [s Hs]. split.
  - split; cbn; auto. apply sublist_delete.
  - unfold payload_size. cbn. rewrite <-(delete_length _ _ _ Hs). unfold remove_at. lia.
Qed.

Lemma remove_file_step r i :
  select_file_drop_index r = Some i →
  let r' := set_graph (nodes r) (edges r) (remove_at i (files r)) r in
  kept r r' ∧ (payload_size r' < payload_size r)%nat.
Proof.
  intros H. pose proof (select_file_spec r) as Hf. rewrite H in Hf. destruct Hf as (f & Hf & _).
  split.
  - split; cbn; auto. rewrite map_remove. apply sublist_delete.
  - unfold payload_size. cbn. rewrite <-(delete_length _ _ _ Hf). unfold remove_at. lia.
Qed.

Lemma ranges_left_size r : (ranges_left r ≤ payload_size r)%nat.
Proof.
  unfold ranges_left, payload_size. pose proof (length_filter has_ranges (files r)). lia.
Qed.

Section loops.
Context (ser_result : ContextResult → option string).
Context (ser_files : list SelectedFile → option string).
Context (ser_saved : list SavedContextSource → option string).
Context (ser_ranges : list (list (N * N)) → option string).

(** A loop's outcome: what is kept, and no more units. *)
Definition shrunk (r r' : ContextResult) : Prop :=
  kept r r' ∧ (payload_size r' ≤ payload_size r)%nat.

#[local] Instance shrunk_preorder : PreOrder shrunk.
Proof.
  split; [intros r; split; [done|lia]|].
  intros x y z [? ?] [? ?]. split; [by etrans|lia].
Qed.

Lemma excerpt_loop limit fuel : ∀ r,
  match trim_file_excerpt_bytes ser_ranges fuel limit r with
  | Some r' => shrunk r r'
  | None => (fuel ≤ ranges_left r)%nat
  end.
Proof.
  induction fuel as [|fuel IH]; intros r; cbn [trim_file_excerpt_bytes];
    (destruct (_ <=? _)%N; [done|]); [lia|].
  destruct (select_excerpt_drop_index r) as [i|] eqn:Hi; [|done].
  destruct (clear_ranges_step r i Hi) as (Hk & Hlt & Hsz).
  match goal with |- context [trim_file_excerpt_bytes _ _ _ ?r1] => specialize (IH r1) end.
  destruct (trim_file_excerpt_bytes _ _ _ _); [|lia].
  etrans; [|exact IH]. split; [done|lia].
Qed.

Lemma saved_loop limit fuel : ∀ r,
  match trim_saved_context_bytes ser_saved fuel limit r with
  | Some r' => shrunk r r'
  | None => (fuel ≤ payload_size r)%nat
  end.
Proof.
  induction fuel as [|fuel IH]; intros r; cbn [trim_saved_context_bytes];
    (destruct (_ <=? _)%N; [done|]); [lia|].
  destruct (select_saved_source_drop_index r) as [i|] eqn:Hi; [|done].
  destruct (remove_saved_step r i Hi) as (Hk & Hlt).
  match goal with |- context [trim_saved_context_bytes _ _ _ ?r1] => specialize (IH r1) end.
  destruct (trim_saved_context_bytes _ _ _ _); [|lia].
  etrans; [|exact IH]. split; [done|lia].
Qed.

Lemma review_source_loop limit fuel : ∀ r,
  match trim_review_source_bytes ser_files fuel limit r with
  | Some r' => shrunk r r'
  | None => (fuel ≤ payload_size r)%nat
  end.
Proof.
  induction fuel as [|fuel IH]; intros r; cbn [trim_review_source_bytes];
    (destruct (_ <=? _)%N; [done|]); [lia|].
  destruct (select_file_drop_index r) as [i|] eqn:Hi; [|done].
  destruct (remove_file_step r i Hi) as (Hk & Hlt).
  match goal with |- context [trim_review_source_bytes _ _ _ ?r1] => specialize (IH r1) end.
  destruct (trim_review_source_bytes _ _ _ _); [|lia].
  etrans; [|exact IH]. split; [done|lia].
Qed.

Lemma payload_loop byte_limit token_limit counter fuel : ∀ r,
  match trim_context_payload ser_result fuel byte_limit token_limit counter r with
  | Some (m, r') => shrunk r r' ∧ m = measure_payload ser_result counter r' ∧
      (fits byte_limit token_limit m = true ∨ minimal r')
  | None => (fuel ≤ payload_size r)%nat
  end.
Proof.
  induction fuel as [|fuel IH]; intros r; cbn [trim_context_payload];
    (destruct (fits _ _ _) eqn:Hfit; [by split_and!; [reflexivity|done|left]|]); [lia|].
  pose proof (trim_one_spec r) as Hs. destruct (trim_one_payload_unit r) as [r1|];
    [|by split_and!; [reflexivity|done|right]].
  destruct Hs as [Hk Hlt]. specialize (IH r1).
  destruct (trim_context_payload _ _ _ _ _ r1) as [[m r']|]; [|lia].
  destruct IH as (Hk' & -> & Hfin). split_and!; [|done|done].
  etrans; [|exact Hk']. split; [done|lia].
Qed.

(** The four loops in a row. *)
Lemma trim_payload_spec policy counter fuel r :
  let p := mcp_cli_payload_serialization policy in
  match trim_payload ser_result ser_files ser_saved ser_ranges fuel policy counter r with
  | Some (m, r') => kept r r' ∧ m = measure_payload ser_result counter r' ∧
      (fits (default_limit (pl_context_payload_bytes p)) (effective_token_limit (request r) policy)
         m = true ∨ minimal r')
  | None => (fuel ≤ payload_size r)%nat
  end.
Proof.
  intros p. unfold trim_payload. fold p.
  pose proof (excerpt_loop (default_limit (pl_file_excerpt_bytes p)) fuel r) as H1.
  pose proof (ranges_left_size r).
  destruct (trim_file_excerpt_bytes _ _ _ _) as [r1|]; cbn; [|lia].
  pose proof (saved_loop (default_limit (pl_saved_context_bytes p)) fuel r1) as H2.
  destruct H1 as [Hk1 Hs1].
  destruct (trim_saved_context_bytes _ _ _ _) as [r2|]; cbn; [|lia]. destruct H2 as [Hk2 Hs2].
  pose proof (review_source_loop (default_limit (pl_review_source_bytes p)) fuel r2) as H3.
  destruct (trim_review_source_bytes _ _ _ _) as [r3|]; cbn; [|lia]. destruct H3 as [Hk3 Hs3].
  pose proof (payload_loop (default_limit (pl_context_payload_bytes p))
    (effective_token_limit (request r) policy) counter fuel r3) as H4.
  destruct (trim_context_payload _ _ _ _ _ _) as [[m r4]|]; [|lia].
  destruct H4 as ([Hk4 _] & Hm & Hfit). split_and!; [|done|done].
  etrans; [exact Hk1|]. etrans; [exact Hk2|]. by etrans.
Qed.
End loops.

(** ** Lemmas: what the budgets leave *)

Lemma counted_paths r : map sf_path (files (update_file_node_counts r)) = map sf_path (files r).
Proof. unfold update_file_node_counts. cbn. by rewrite map_map. Qed.

Lemma files_counted r : len (files (update_file_node_counts r)) = len (files r).
Proof. unfold update_file_node_counts. cbn. unfold len. by rewrite length_map. Qed.

Section applied.
Context (ser_result : ContextResult → option string).
Context (ser_nodes : list SelectedNode → option string) (ser_edges : list SelectedEdge → option string).
Context (ser_files : list SelectedFile → option string).
Context (ser_saved : list SavedContextSource → option string).
Context (ser_assets : list ContentAsset → option string).
Context (ser_ranges : list (list (N * N)) → option string).
Context (policy : BudgetPolicy) (counter : TokenCounter) (fallback : TokenFallbackInfo).

Abbreviation apply_payload_budgets :=
  (apply_payload_budgets ser_result ser_nodes ser_edges ser_files ser_saved ser_assets ser_ranges).
Abbreviation trim_payload := (trim_payload ser_result ser_files ser_saved ser_ranges).

(** The nodes, edges, sources and drop counters after the budgets, from the trimmed result. *)
Lemma apply_budgets_trim fuel r0 r :
  apply_payload_budgets fuel policy counter fallback r0 = Some r →
  ∃ m r1, trim_payload fuel policy counter r0 = Some (m, r1) ∧
    nodes r = nodes r1 ∧ edges r = edges r1 ∧ map sf_path (files r) = map sf_path (files r1) ∧
    saved_context_sources r = saved_context_sources r1 ∧ request r = request r1 ∧
    nodes_dropped (truncation r) = (nodes_dropped (truncation r0) + (len (nodes r0) - len (nodes r1)))%N ∧
    edges_dropped (truncation r) = (edges_dropped (truncation r0) + (len (edges r0) - len (edges r1)))%N ∧
    files_dropped (truncation r) = (files_dropped (truncation r0) + (len (files r0) - len (files r1)))%N.
Proof.
  unfold ContextPayload.apply_payload_budgets. intros H. cbv zeta in H.
  destruct (trim_payload fuel policy counter r0) as [[m r1]|] eqn:Ht; [|done].
  cbn [mbind option_bind] in H. exists m, r1. split; [done|].
  pose proof (trim_payload_spec ser_result ser_files ser_saved ser_ranges policy counter fuel r0) as Hs.
  cbv zeta in Hs. rewrite Ht in Hs. destruct Hs as [Hk _].
  cbn [d_nodes d_edges d_files d_sources d_content_assets] in H.
  rewrite files_counted in H.
  match type of H with (if ?b then _ else _) = _ => destruct b eqn:Hcut end; injection H as <-.
  - split_and!; first [done|apply counted_paths].
  - rewrite !orb_false_iff, !N.ltb_ge in Hcut. 
    split_and!; try first [done|apply counted_paths]; cbn in *; rewrite (k_truncation _ _ Hk); lia.
Qed.

End applied.

(** ** Lemmas: the reports of the engine *)

(** A manager that only gained hits. *)
Definition grows (m m' : BudgetManager) : Prop :=
  ∃ rs, reports m' = reports m ++ rs ∧ Forall (λ r, budget_hit r = true) rs.

#[export] Instance grows_preorder : PreOrder grows.
Proof.
  split.
  - intros m. exists []. by rewrite app_nil_r.
  - intros x y z (rs & Hy & H1) (rs' & Hz & H2). exists (rs ++ rs').
    rewrite Hz, Hy, app_assoc. split; [done|]. by apply Forall_app.
Qed.

Lemma run_op_grows m op : grows m (run_op m op).
Proof. destruct (run_op_reports m op) as (rs & ? & _ & ? & _). by exists rs. Qed.

Lemma record_usage_grows m rule name limit observed p :
  grows m (record_usage m rule name limit observed p).
Proof. apply (run_op_grows m (OpUsage rule name limit observed p)). Qed.

Lemma resolve_limit_grows m rule name asked : grows m (snd (resolve_limit m rule name asked)).
Proof. apply (run_op_grows m (OpResolve rule name asked)). Qed.

Lemma resolve_limit_value m rule name asked :
  fst (resolve_limit m rule name asked) =
  N.min (default (default_limit rule) asked) (max_limit rule).
Proof.
  unfold resolve_limit. destruct (N.leb_spec (default (default_limit rule) asked) (max_limit rule));
    simpl; lia.
Qed.

Lemma record_report_grows m r : grows m (record_report m r).
Proof. apply (run_op_grows m (OpReport r)). Qed.

Lemma foldl_grows {A} (f : BudgetManager → A → BudgetManager) l m :
  (∀ m x, grows m (f m x)) → grows m (foldl f m l).
Proof.
  intros Hf. revert m. induction l as [|x l IH]; intros m; simpl; [done|].
  etrans; [apply Hf|apply IH].
Qed.

Lemma seed_reports_grow m r : grows m (record_seed_budget_reports m r).
Proof.
  apply foldl_grows. intros m' s. unfold record_seed_budget.
  destruct (sb_budget_hit s); [|done]. apply record_report_grows.
Qed.

Lemma over_default_grows m rule name observed : grows m (record_over_default m rule name observed).
Proof. unfold record_over_default. destruct (_ <? _)%N; [apply record_usage_grows|done]. Qed.

Lemma payload_reports_grow m r policy : grows m (record_payload_budget_reports m r policy).
Proof.
  unfold record_payload_budget_reports. destruct (payload (truncation r)); [|done].
  etrans; apply over_default_grows.
Qed.

Create HintDb budget_grows.
#[export] Hint Resolve record_usage_grows resolve_limit_grows record_report_grows
  seed_reports_grow payload_reports_grow over_default_grows : budget_grows.

(** A report a manager holds for a partial result or worse. *)
Definition overrun (m : BudgetManager) : Prop :=
  ∃ r, r ∈ reports m ∧ (2 ≤ severity (budget_status r))%N.

Lemma overrun_grows m m' : grows m m' → overrun m → overrun m'.
Proof.
  intros (rs & Hm & _) (r & Hr & Hs). exists r. split; [|done]. rewrite Hm, elem_of_app. by left.
Qed.

Lemma usage_overrun m rule name limit cap kept dropped :
  (0 < dropped)%N → overrun (usage m rule name limit cap kept dropped).
Proof.
  intros Hd. unfold usage, record_usage. apply N.ltb_lt in Hd. rewrite Hd, andb_false_r.
  eexists. split; [cbn; rewrite elem_of_app, list_elem_of_singleton; by right|].
  by destruct (hit_behavior rule).
Qed.

(** The summary of a manager that overran is a hit at least as severe. *)
Lemma summary_overrun m dn l o :
  grows new_manager m → overrun m →
  budget_hit (summary m dn l o) = true ∧
  (budget_status (summary m dn l o) = PartialResult ∨ budget_status (summary m dn l o) = Blocked).
Proof.
  intros (rs & Hm & Hh) (r & Hr & Hs). simpl in Hm.
  destruct (summary_elem m dn l o) as [Hin Hmax].
  { intros Hn. rewrite Hn in Hr. by apply elem_of_nil in Hr. }
  split; [rewrite Hm in Hin; rewrite Forall_forall in Hh; by apply Hh|].
  specialize (Hmax r Hr). apply is_worse_false_iff in Hmax.
  destruct (budget_status (summary m dn l o)), (budget_status r); simpl in *; auto;
    destruct Hmax as [?|[? _]]; (lia || congruence).
Qed.

(** ** Lemmas: the engine *)

Section engine.
Context (ser_result : ContextResult → option string).
Context (ser_nodes : list SelectedNode → option string) (ser_edges : list SelectedEdge → option string).
Context (ser_files : list SelectedFile → option string).
Context (ser_saved : list SavedContextSource → option string).
Context (ser_assets : list ContentAsset → option string).
Context (ser_ranges : list (list (N * N)) → option string).
Context {E : Type} `{!ContextStore E}.
Context (extra_str : Node → string → option string) (extra_has : Node → string → bool).
Context (set_order : gset string → list string) (debug_target : ContextTarget → string).
Context (content_store : option ContentRetrieval).
Context (policy : BudgetPolicy) (counter : TokenCounter) (fallback : TokenFallbackInfo).

Abbreviation engine_build :=
  (engine_build ser_result ser_nodes ser_edges ser_files ser_saved ser_assets ser_ranges
     extra_str extra_has set_order debug_target content_store policy counter fallback).
Abbreviation apply_payload_budgets :=
  (apply_payload_budgets ser_result ser_nodes ser_edges ser_files ser_saved ser_assets ser_ranges).

(** The limits a request is built with. *)
Lemma resolve_request_spec rq0 rq saved_limit asset_limit m :
  resolve_request policy rq0 = (rq, saved_limit, asset_limit, m) →
  let rc := review_context_extraction policy in
  let capped rule asked := N.min (default (default_limit rule) asked) (max_limit rule) in
  tp_max_nodes (from_request rq) = capped (rc_nodes rc) (max_nodes rq0) ∧
  tp_max_edges (from_request rq) = capped (rc_edges rc) (max_edges rq0) ∧
  tp_max_files (from_request rq) = capped (rc_files rc) (max_files rq0) ∧
  grows new_manager m.
Proof.
  unfold resolve_request. intros H.
  repeat match type of H with context [resolve_limit ?m0 ?rule ?name ?asked] =>
    pose proof (resolve_limit_grows m0 rule name asked);
    pose proof (resolve_limit_value m0 rule name asked);
    destruct (resolve_limit m0 rule name asked) as [? ?] end.
  simplify_eq/=. split_and!; [done..|].
  repeat (etrans; [eassumption|]). done.
Qed.

(** Saved context and assets leave the graph alone. *)
Lemma attach_graph rq l1 l2 m r m1 r1 m2 r2 :
  attach_saved content_store policy rq l1 m r = (m1, r1) →
  attach_assets content_store policy rq l2 m1 r1 = (m2, r2) →
  (∃ assets saved, r2 = set_sources assets saved r) ∧ grows m m2.
Proof.
  unfold attach_saved, attach_assets. intros H1 H2. destruct content_store as [cs|].
  - assert ((∃ saved, r1 = set_sources (content_assets r) saved r) ∧ grows m m1) as [[saved ->] Hg].
    { destruct (include_saved_context rq); simplify_eq; [|split; [by exists (saved_context_sources r1); destruct r1|done]].
      destruct (retrieve_saved_context cs rq r l1); simplify_eq. split; [by eexists|]. auto with budget_grows. }
    destruct (include_content_assets rq); simplify_eq; (split; [by do 2 eexists|]); [|done].
    etrans; [exact Hg|]. auto with budget_grows.
  - simplify_eq. split; [|done]. exists (content_assets r2), (saved_context_sources r2). by destruct r2.
Qed.

Lemma report_extraction_spec m r :
  grows m (report_extraction policy m r) ∧
  ((0 < nodes_dropped (truncation r))%N ∨ (0 < edges_dropped (truncation r))%N ∨
   (0 < files_dropped (truncation r))%N → overrun (report_extraction policy m r)).
Proof.
  unfold report_extraction. cbv zeta. split.
  - unfold usage. do 2 (etrans; [|apply record_usage_grows]). apply record_usage_grows.
  - intros [H|[H|H]].
    + eapply overrun_grows; [apply record_usage_grows|].
      eapply overrun_grows; [apply record_usage_grows|]. by apply usage_overrun.
    + eapply overrun_grows; [apply record_usage_grows|]. by apply usage_overrun.
    + by apply usage_overrun.
Qed.

(** A built result is a bounded context, its saved context attached, its payload budgeted,
    and the summary of a manager that holds a report of every drop. *)
Lemma engine_build_spec fuel rq0 r :
  engine_build fuel rq0 = Some (Ok r) →
  ∃ rq saved_limit asset_limit m0 built assets saved r1 m,
    resolve_request policy rq0 = (rq, saved_limit, asset_limit, m0) ∧
    build_context extra_str extra_has set_order debug_target fuel rq policy = Some (Ok built) ∧
    bounded rq built ∧
    apply_payload_budgets (S (payload_size (set_sources assets saved built))) policy counter fallback
      (set_sources assets saved built) = Some r1 ∧
    (∃ n l o, r = set_budget (summary m n l o) r1) ∧
    grows new_manager m ∧
    ((0 < nodes_dropped (truncation r1))%N ∨ (0 < edges_dropped (truncation r1))%N ∨
     (0 < files_dropped (truncation r1))%N → overrun m).
Proof.
  unfold ContextPayload.engine_build. intros H.
  destruct (resolve_request policy rq0) as [[[rq sl] al] m0] eqn:Hrq.
  destruct (build_context _ _ _ _ _ _ _) as [[built|e]|] eqn:Hb; cbn [mbind option_bind] in H;
    try done.
  pose proof (context_bounded _ _ _ _ _ _ _ _ Hb) as Hbd.
  destruct (attach_saved _ _ _ _ _ _) as [m1 r1] eqn:H1.
  destruct (attach_assets _ _ _ _ _ _) as [m2 r2] eqn:H2.
  destruct (attach_graph _ _ _ _ _ _ _ _ _ H1 H2) as [(assets & saved & ->) Hg].
  destruct (apply_payload_budgets _ _ _ _ _) as [r3|] eqn:Ha; cbn [mbind option_bind] in H; [|done].
  pose proof (resolve_request_spec _ _ _ _ _ Hrq) as (_ & _ & _ & Hg0).
  pose proof (report_extraction_spec m2 r3) as [Hg3 Ho].
  assert (grows (report_extraction policy m2 r3)
    (record_payload_budget_reports (record_seed_budget_reports (report_extraction policy m2 r3) r3)
       r3 policy)) as Hg4.
  { etrans; [apply seed_reports_grow|apply payload_reports_grow]. }
  injection H as <-.
  do 9 eexists. split_and!; [done|exact Hb|exact Hbd|exact Ha|by do 3 eexists| |].
  - etrans; [exact Hg0|]. etrans; [apply (record_report_grows m0 (budget built))|].
    etrans; [exact Hg|]. etrans; [exact Hg3|exact Hg4].
  - intros Hd. eapply overrun_grows; [exact Hg4|]. by apply Ho.
Qed.

Lemma apply_budgets_returns r :
  ∃ r', apply_payload_budgets (S (payload_size r)) policy counter fallback r = Some r'.
Proof.
  unfold ContextPayload.apply_payload_budgets. cbv zeta.
  pose proof (trim_payload_spec ser_result ser_files ser_saved ser_ranges policy counter
    (S (payload_size r)) r) as Hs. cbv zeta in Hs.
  destruct (trim_payload _ _ _ _ _ _ _ r) as [[m r1]|]; [|lia]. cbn [mbind option_bind].
  match goal with |- context [if ?b then _ else _] => destruct b end; by eexists.
Qed.

(** ** Properties *)

(** C26. Trimming a payload always ends, and ends well: the measured size of what remains is
    within the byte limit of the policy and the effective token limit, or nothing that may
    be removed remains - no saved source, file, edge or workflow detail, and one node. *)
Theorem payload_fits_or_minimal r :
  let p := mcp_cli_payload_serialization policy in
  let token_limit := effective_token_limit (request r) policy in
  ∃ m r', trim_payload ser_result ser_files ser_saved ser_ranges (S (payload_size r)) policy counter r =
      Some (m, r') ∧
    m = measure_payload ser_result counter r' ∧
    ((m_bytes m ≤ default_limit (pl_context_payload_bytes p))%N ∧ (m_tokens m ≤ token_limit)%N ∨
     minimal r') ∧
    (token_limit ≤ default_limit (pl_context_tokens_estimate p))%N.
Proof.
  intros p token_limit.
  pose proof (trim_payload_spec ser_result ser_files ser_saved ser_ranges policy counter
    (S (payload_size r)) r) as Hs. cbv zeta in Hs.
  destruct (trim_payload _ _ _ _ _ _ _ r) as [[m r1]|]; [|lia]. destruct Hs as (_ & Hm & Hfit).
  exists m, r1. split_and!; [done|done| |].
  - destruct Hfit as [Hfit|]; [left|by right].
    apply andb_true_iff in Hfit as [Hb Ht]. by apply N.leb_le in Hb, Ht.
  - unfold token_limit, effective_token_limit, p. destruct (token_budget (request r)); lia.
Qed.

(** Trimming a payload only removes: nodes, edges, files and sources are those of the
    result in their order; a result with nodes keeps one; edges that joined nodes of the
    result still do; and no direct target goes while another node is left. *)
Theorem payload_trim_keeps fuel r m r' :
  trim_payload ser_result ser_files ser_saved ser_ranges fuel policy counter r = Some (m, r') →
  sublist (nodes r') (nodes r) ∧ sublist (edges r') (edges r) ∧
  sublist (map sf_path (files r')) (map sf_path (files r)) ∧
  sublist (saved_context_sources r') (saved_context_sources r) ∧
  content_assets r' = content_assets r ∧
  (nodes r ≠ [] → nodes r' ≠ []) ∧
  (closed (nodes r) (edges r) → closed (nodes r') (edges r')) ∧
  ((∃ n, n ∈ nodes r' ∧ sn_reason n ≠ DirectTarget) →
   ∀ n, n ∈ nodes r → sn_reason n = DirectTarget → n ∈ nodes r').
Proof.
  intros H.
  pose proof (trim_payload_spec ser_result ser_files ser_saved ser_ranges policy counter fuel r) as Hs.
  cbv zeta in Hs. rewrite H in Hs. destruct Hs as [[] _]. split_and!; try done.
  intros (x & Hx & Hnd) n Hn Hd. destruct k_direct0 as [Heq|Hall].
  - assert (n ∈ direct_nodes (nodes r)) as Hin.
    { apply list_elem_of_filter. split; [|done]. rewrite Hd. done. }
    rewrite <-Heq in Hin. by apply list_elem_of_filter in Hin as [_ Hin].
  - rewrite Forall_forall in Hall. by destruct (Hnd (Hall x Hx)).
Qed.

(** C36. Whatever a request asks for, the engine's answer has at most the policy's maximum of
    nodes and edges, at most what was asked, and every edge joins two of its nodes. *)
Theorem engine_build_bounded fuel rq r :
  engine_build fuel rq = Some (Ok r) →
  let rc := review_context_extraction policy in
  (len (nodes r) ≤ N.min (default (default_limit (rc_nodes rc)) (max_nodes rq))
                     (max_limit (rc_nodes rc)))%N ∧
  (len (edges r) ≤ N.min (default (default_limit (rc_edges rc)) (max_edges rq))
                     (max_limit (rc_edges rc)))%N ∧
  closed (nodes r) (edges r).
Proof.
  intros (rq' & sl & al & m0 & built & assets & saved & r1 & m & Hrq & _ & (Hn & He & Hc & _) & Ha &
    (? & ? & ? & ->) & _)%engine_build_spec rc.
  apply resolve_request_spec in Hrq as (Hcn & Hce & _). fold rc in Hcn, Hce.
  apply apply_budgets_trim in Ha as (m1 & r2 & Ht & Hn2 & He2 & _).
  pose proof (trim_payload_spec ser_result ser_files ser_saved ser_ranges policy counter
    (S (payload_size (set_sources assets saved built))) (set_sources assets saved built)) as Hs.
  cbv zeta in Hs. rewrite Ht in Hs. destruct Hs as [[] _].
  apply sublist_length in k_nodes0, k_edges0.
  cbn [set_budget set_sources nodes edges] in *. rewrite Hn2, He2. unfold len in *.
  split_and!; [lia|lia|by apply k_closed0].
Qed.

Lemma sublist_same_length {A} (x y : list A) : sublist x y → length x = length y → x = y.
Proof.
  induction 1 as [|z x y _ IH|z x y Hs _]; simpl; [done| |].
  - intros [= H]. f_equal. by apply IH.
  - apply sublist_length in Hs. lia.
Qed.

(** C32. The engine never drops silently. Its answer has, in their order, nodes, edges and
    files of the context that was built from the store, and its counters are exact: what the
    caps had cut from that context, as the context itself counts it, and what the payload
    budgets removed after. When anything is missing, that is when a node, edge or file of
    the context is not in the answer or the caps had cut one, the budget report is a hit
    whose status is a partial result or worse. *)
Theorem engine_drops_reported fuel rq0 r :
  engine_build fuel rq0 = Some (Ok r) →
  ∃ rq saved_limit asset_limit m0 built,
    resolve_request policy rq0 = (rq, saved_limit, asset_limit, m0) ∧
    build_context extra_str extra_has set_order debug_target fuel rq policy = Some (Ok built) ∧
    sublist (nodes r) (nodes built) ∧ sublist (edges r) (edges built) ∧
    sublist (map sf_path (files r)) (map sf_path (files built)) ∧
    nodes_dropped (truncation r) =
      (nodes_dropped (truncation built) + (len (nodes built) - len (nodes r)))%N ∧
    edges_dropped (truncation r) =
      (edges_dropped (truncation built) + (len (edges built) - len (edges r)))%N ∧
    files_dropped (truncation r) =
      (files_dropped (truncation built) + (len (files built) - len (files r)))%N ∧
    (nodes r ≠ nodes built ∨ edges r ≠ edges built ∨
     map sf_path (files r) ≠ map sf_path (files built) ∨
     (0 < nodes_dropped (truncation built))%N ∨ (0 < edges_dropped (truncation built))%N ∨
     (0 < files_dropped (truncation built))%N →
     budget_hit (budget r) = true ∧
     (budget_status (budget r) = PartialResult ∨ budget_status (budget r) = Blocked)).
Proof.
  intros (rq & sl & al & m0 & built & assets & saved & r1 & m & Hrq & Hb & _ & Ha &
    (n & l & o & ->) & Hg & Ho)%engine_build_spec.
  exists rq, sl, al, m0, built.
  apply apply_budgets_trim in Ha as (m1 & r2 & Ht & Hn2 & He2 & Hf2 & _ & _ & Cn & Ce & Cf).
  pose proof (trim_payload_spec ser_result ser_files ser_saved ser_ranges policy counter
    (S (payload_size (set_sources assets saved built))) (set_sources assets saved built)) as Hs.
  cbv zeta in Hs. rewrite Ht in Hs. destruct Hs as [[] _].
  cbn [set_budget set_sources nodes edges files truncation] in *.
  assert (len (files r1) = len (files r2)) as Hfl.
  { apply (f_equal length) in Hf2. rewrite !length_map in Hf2. unfold len. by rewrite Hf2. }
  rewrite Hn2, He2, Hf2, Hfl. split_and!; [done..|].
  assert (∀ {A} (x y : list A), sublist x y → x ≠ y → (len x < len y)%N) as Hlt.
  { intros A x y Hxy Hne. unfold len. pose proof (sublist_length _ _ Hxy).
    destruct (decide (length x = length y)) as [Heq|]; [|lia].
    destruct Hne. by apply sublist_same_length. }
  intros Hd. apply summary_overrun; [exact Hg|]. apply Ho. rewrite Cn, Ce, Cf.
  assert (∀ x : list SelectedFile, len (map sf_path x) = len x) as Hml.
  { intros x. unfold len. by rewrite length_map. }
  destruct Hd as [H|[H|[H|[H|[H|H]]]]]; try lia.
  - apply Hlt in H; [lia|done].
  - apply Hlt in H; [lia|done].
  - apply Hlt in H; [|done]. rewrite !Hml in H. lia.
Qed.

(** The engine always answers: with a result, or with an error of the store. *)
Theorem engine_build_total rq : ∃ fuel a, engine_build fuel rq = Some a.
Proof.
  unfold ContextPayload.engine_build.
  destruct (resolve_request policy rq) as [[[rq' sl] al] m0].
  destruct (context_returns extra_str extra_has set_order debug_target rq' policy) as (fuel & a & Ha).
  exists fuel. rewrite Ha. destruct a as [r|e]; cbn [mbind option_bind]; [|by eexists].
  destruct (attach_saved _ _ _ _ _ _) as [m1 r1]. destruct (attach_assets _ _ _ _ _ _) as [m2 r2].
  destruct (apply_budgets_returns r2) as [r3 Hr]. rewrite Hr. by eexists.
Qed.
End engine.

(** One unit of payload is given up at a time and in a fixed order: saved sources before
    anything else, files only after them, a node only when no saved source, file or edge is
    left; and the file or node given up has the least keep priority among those that may go. *)
Theorem trim_unit_order r r' :
  trim_one_payload_unit r = Some r' →
  (payload_size r' < payload_size r)%nat ∧
  (saved_context_sources r ≠ [] →
   ∃ i, r' = set_sources (content_assets r) (delete i (saved_context_sources r)) r) ∧
  (files r' ≠ files r → saved_context_sources r = [] ∧
   ∃ i f, files r !! i = Some f ∧ files r' = delete i (files r) ∧
     ∀ g, g ∈ files r → droppable sf_reason (files r) g = true →
       (file_keep_priority (sf_reason f) ≤ file_keep_priority (sf_reason g))%N) ∧
  (nodes r' ≠ nodes r → saved_context_sources r = [] ∧ files r = [] ∧ edges r = [] ∧
   ∃ i n, nodes r !! i = Some n ∧ nodes r' = delete i (nodes r) ∧
     ∀ m, m ∈ nodes r → droppable sn_reason (nodes r) m = true →
       (node_keep_priority n ≤ node_keep_priority m)%N).
Proof.
  intros H. pose proof (trim_one_spec r) as Hs. rewrite H in Hs. destruct Hs as [_ Hlt].
  split; [exact Hlt|]. unfold trim_one_payload_unit in H.
  pose proof (select_saved_spec r) as Hsv. destruct (select_saved_source_drop_index r) as [i|].
  { injection H as <-. split_and!; [intros _; by exists i|by intros []|by intros []]. }
  pose proof (trim_workflow_spec r) as Hw. destruct (trim_workflow r) as [r1|].
  { injection H as <-. destruct Hw as (w & w' & _ & -> & _). by split_and!. }
  pose proof (trim_ambiguity_spec r) as Ha. destruct (trim_ambiguity r) as [r1|].
  { injection H as <-. destruct Ha as (w & w' & _ & -> & _). by split_and!. }
  pose proof (select_file_spec r) as Hf. destruct (select_file_drop_index r) as [i|].
  { injection H as <-. destruct Hf as (f & Hi & _ & Hp).
    split_and!; [done| |by intros []]. intros _. split; [done|]. by exists i, f. }
  pose proof (select_edge_spec r) as He. destruct (select_edge_drop_index r) as [i|].
  { injection H as <-. split_and!; [done|by intros []|by intros []]. }
  pose proof (select_node_spec r) as Hn. destruct (select_node_drop_index r) as [i|]; [|done].
  injection H as <-. destruct Hn as (_ & n & Hi & _ & Hp). unfold remove_node. rewrite Hi.
  split_and!; [done|by intros []|]. intros _. split_and!; [done..|]. by exists i, n.
Qed.

(** ** Runs on the small graph *)

Definition join_names (l : list string) : string := String.concat "," l.

(** A serialization: the names of what the result holds. *)
Definition demo_ser (r : ContextResult) : option string :=
  Some (join_names (map (λ n, n_qualified_name (sn_node n)) (nodes r) ++
    map (λ e, e_source_qn (se_edge e) +:+ "->" +:+ e_target_qn (se_edge e)) (edges r) ++
    map sf_path (files r))).

Definition demo_part {A} (key : A → string) (l : list A) : option string :=
  Some (join_names (map key l)).

Definition with_token_budget (b : option N) (r : ContextRequest) : ContextRequest :=
  mk_request (intent r) (target r) (max_nodes r) (max_edges r) (max_files r) (depth r)
    (include_tests r) (include_imports r) (include_neighbors r) (include_code_spans r)
    (include_callers r) (include_callees r) (allow_cross_repo_edges r) (include_saved_context r)
    (rq_session_id r) (rq_agent_id r) (merge_agent_partitions r) b (include_content_assets r)
    (max_content_assets r).

Definition demo_engine (rq : ContextRequest) : option (result string ContextResult) :=
  engine_build demo_ser (demo_part (λ n, n_qualified_name (sn_node n)))
    (demo_part (λ e, e_source_qn (se_edge e))) (demo_part sf_path) (demo_part sv_source_id)
    (demo_part ca_source_id) (λ _, Some "") (ContextStore0 := demo_store) no_metadata no_key elements
    (λ _, "target") None default_policy (Heuristic 4) (mk_fallback false None) 0 rq.

Definition demo_names (a : option (result string ContextResult)) : list string :=
  match a with Some (Ok r) => names_in r | _ => [] end.

(** With seven tokens the payload budgets drop a third node of the two that the caps left. *)
Definition demo_answer : option (result string ContextResult) :=
  demo_engine (with_token_budget (Some 7%N) demo_request).

Lemma engine_build_bounded_witness :
  ∃ r, demo_answer = Some (Ok r) ∧ names_in r = ["crate::parse"; "crate::main"] ∧
    (len (nodes r) ≤ 3)%N ∧ closed (nodes r) (edges r).
Proof.
  eexists. split; [vm_compute; reflexivity|]. split; [reflexivity|].
  match goal with |- (len (nodes ?r) ≤ _)%N ∧ _ =>
    assert (demo_answer = Some (Ok r)) as H by (vm_compute; reflexivity) end.
  destruct (engine_build_bounded _ _ _ _ _ _ _ (ContextStore0 := demo_store) _ _ _ _ _ _ _ _ _ _ _ H)
    as (Hn & _ & Hc).
  split; [exact Hn|exact Hc].
Defined.

Lemma engine_drops_reported_witness :
  ∃ r, demo_answer = Some (Ok r) ∧ nodes_dropped (truncation r) = 2%N ∧
    ∃ built : ContextResult, nodes_dropped (truncation built) = 1%N ∧
      sublist (nodes r) (nodes built) ∧ budget_hit (budget r) = true.
Proof.
  eexists. split; [vm_compute; reflexivity|]. split; [reflexivity|].
  match goal with |- ∃ _, _ ∧ sublist (nodes ?r) _ ∧ _ =>
    assert (demo_answer = Some (Ok r)) as H by (vm_compute; reflexivity) end.
  destruct (engine_drops_reported _ _ _ _ _ _ _ (ContextStore0 := demo_store) _ _ _ _ _ _ _ _ _ _ _ H)
    as (rq & sl & al & m0 & built & Hrq & Hb & Hn & _ & _ & Hc & _ & _ & Hhit).
  exists built.
  assert (nodes_dropped (truncation built) = 1%N) as H1.
  { vm_compute in Hrq. injection Hrq as <- _ _ _. vm_compute in Hb. injection Hb as <-. reflexivity. }
  split; [exact H1|]. split; [exact Hn|]. apply Hhit. right; right; right; left. by rewrite H1.
Defined.

Definition demo_built : ContextResult :=
  match demo_context with
  | Some (Ok r) => r
  | _ => build_ambiguous_result demo_request (mk_ambiguity "" [] false)
  end.

Definition demo_input : ContextResult :=
  mk_result (with_token_budget (Some 4%N) demo_request) (nodes demo_built) (edges demo_built)
    (files demo_built) [] truncation_none [] None None None [] (budget demo_built).

Abbreviation demo_trimmed :=
  (trim_payload demo_ser (demo_part sf_path) (demo_part sv_source_id) (λ _, Some "") 20 default_policy
    (Heuristic 4) demo_input).

Lemma payload_trim_keeps_witness :
  ∃ x, demo_trimmed = Some (fst x, snd x) ∧ names_in (snd x) = ["crate::parse"] ∧
    sublist (nodes (snd x)) (nodes demo_input).
Proof.
  eexists (_, _). split; [vm_compute; reflexivity|]. split; [reflexivity|].
  match goal with |- sublist (nodes (snd ?x)) _ =>
    assert (demo_trimmed = Some (fst x, snd x)) as H by (vm_compute; reflexivity) end.
  destruct (payload_trim_keeps _ _ _ _ _ _ _ _ _ _ H) as [Hn _]. exact Hn.
Defined.

Lemma trim_unit_order_witness :
  ∃ r, trim_one_payload_unit demo_built = Some r ∧
    (length ∘ call_chains <$> workflow demo_built, length ∘ call_chains <$> workflow r) =
      (Some 3%nat, Some 2%nat) ∧
    (payload_size r < payload_size demo_built)%nat.
Proof.
  eexists. split; [vm_compute; reflexivity|]. split; [reflexivity|].
  match goal with |- (payload_size ?r < _)%nat =>
    assert (trim_one_payload_unit demo_built = Some r) as H by (vm_compute; reflexivity) end.
  destruct (trim_unit_order _ _ H) as [Hlt _]. exact Hlt.
Defined.

(** A token budget that the payload meets resets the truncation flag of a context that the
    caps have cut: a node is counted as dropped and the flag says that nothing was. *)
Example truncated_flag_reset :
  match demo_engine (with_token_budget (Some 1000%N) demo_request), demo_engine demo_request with
  | Some (Ok r), Some (Ok r') =>
      nodes_dropped (truncation r) = 1%N ∧ truncated (truncation r) = false ∧
      nodes_dropped (truncation r') = 1%N ∧ truncated (truncation r') = true
  | _, _ => False
  end.
Proof. vm_compute. auto. Qed.
