(* ===== verification/Chunking.v ===== *)
(** * Chunking of artifact text

    Model of [packages/atlas-contentstore/src/chunking.rs]: text is split by headings,
    paragraphs or top-level JSON entries, and chunks above the byte cap are split again by
    line windows or byte windows. SHA-256 and the JSON parser and printer are parameters.
    Slicing a [str] inside a character, which panics, is an error value. *)

From S2P Require Import Prelude RustStr.

Definition MAX_CHUNK_BYTES : nat := 4096.
Definition LINE_WINDOW : nat := 60.

Record Chunk := mk_chunk {
  chunk_id : string;
  chunk_index : nat;
  title : option string;
  content : string;
  content_type : string
}.

Inductive ChunkError := SliceInsideChar | NoProgress.

(** A chunk whose identity and index are still to be set. *)
Definition base_chunk (title : option string) (content content_type : string) : Chunk :=
  mk_chunk "" 0 title content content_type.

(** ** Slices *)

(** [slice::chunks]; the fuel is the length. *)
Fixpoint chunks_fuel {A} (fuel n : nat) (l : list A) : list (list A) :=
  match fuel, l with
  | S fuel, _ :: _ => take n l :: chunks_fuel fuel n (drop n l)
  | _, _ => []
  end.
Definition chunks {A} (n : nat) (l : list A) : list (list A) := chunks_fuel (length l) n l.

(** [str::is_char_boundary]. *)
Definition is_char_boundary (s : string) (i : nat) : bool :=
  match String.get i s with
  | Some b => (i =? 0)%nat || negb (is_continuation b)
  | None => (i =? String.length s)%nat
  end.

(** [&s[first..last]], which panics outside character boundaries. *)
Definition slice (s : string) (first last : nat) : result ChunkError string :=
  if (first <=? last)%nat && is_char_boundary s first && is_char_boundary s last
  then Ok (str_take (last - first) (str_drop first s)) else Err SliceInsideChar.

(** ** Markdown *)

Definition hash : ascii := "#".

Definition extract_heading (line : string) : option string :=
  let trimmed := trim_start_char hash line in
  if (String.length trimmed <? String.length line)%nat && starts_with_char hash line then
    let title := trim trimmed in
    if str_is_empty title then None else Some title
  else None.

Definition flush_text_chunk (chunks : list Chunk) (lines : list string) (title : option string)
    (content_type : string) : list Chunk :=
  let trimmed := trim (join (String newline "") lines) in
  if str_is_empty trimmed then chunks else chunks ++ [base_chunk title trimmed content_type].

Definition markdown_step (st : list Chunk * list string * option string) (line : string) :
    list Chunk * list string * option string :=
  let '(chunks, current_lines, current_title) := st in
  match extract_heading line with
  | Some heading =>
      (flush_text_chunk chunks current_lines current_title "text/markdown", [], Some heading)
  | None => (chunks, current_lines ++ [line], current_title)
  end.

Definition chunk_markdown (src : string) : list Chunk :=
  let '(chunks, current_lines, current_title) := foldl markdown_step ([], [], None) (lines src) in
  match flush_text_chunk chunks current_lines current_title "text/markdown" with
  | [] => [base_chunk None src "text/markdown"]
  | chunks => chunks
  end.

(** ** Plain text *)

Definition is_blank (line : string) : bool := str_is_empty (trim line).

Definition paragraph_step (st : list (list string) * list string) (line : string) :
    list (list string) * list string :=
  let (paras, current) := st in
  if is_blank line then
    match current with [] => (paras, []) | _ => (paras ++ [current], []) end
  else (paras, current ++ [line]).

Definition paragraphs (ls : list string) : list (list string) :=
  let (paras, current) := foldl paragraph_step ([], []) ls in
  match current with [] => paras | _ => paras ++ [current] end.

Definition line_window_chunks (src : string) (window : nat) (content_type : string) : list Chunk :=
  map (λ w, base_chunk None (join (String newline "") w) content_type) (chunks window (lines src)).

Definition chunk_plain (src : string) : list Chunk :=
  match paragraphs (lines src) with
  | [] => line_window_chunks src LINE_WINDOW "text/plain"
  | paras => map (λ p, base_chunk None (join (String newline "") p) "text/plain") paras
  end.

(** ** Subdivision *)

(** The largest position from which the preceding byte is no continuation byte. *)
Fixpoint snap_utf8_from (bytes : string) (p : nat) : nat :=
  match p with
  | O => O
  | S q =>
      match String.get q bytes with
      | Some b => if is_continuation b then snap_utf8_from bytes q else p
      | None => p
      end
  end.
Definition snap_utf8 (bytes : string) (pos : nat) : nat :=
  snap_utf8_from bytes (Nat.min pos (String.length bytes)).

Definition part_title (parent_title : option string) (part : nat) : option string :=
  (λ t, t +:+ " (part " +:+ show_nat part +:+ ")") <$> parent_title.

Fixpoint byte_chunks (fuel : nat) (content : string) (parent_title : option string)
    (content_type : string) (start part : nat) : result ChunkError (list Chunk) :=
  if (start <? String.length content)%nat then
    match fuel with
    | O => Err NoProgress
    | S fuel =>
        let last := snap_utf8 content (Nat.min (start + MAX_CHUNK_BYTES) (String.length content)) in
        piece <-? slice content start last;;
        rest <-? byte_chunks fuel content parent_title content_type last (S part);;
        Ok (base_chunk (part_title parent_title part) piece content_type :: rest)
    end
  else Ok [].

Definition subdivide_window : nat := Nat.max (MAX_CHUNK_BYTES / 80) 10.

Definition subdivide (content : string) (parent_title : option string) (content_type : string) :
    result ChunkError (list Chunk) :=
  let ls := lines content in
  if (1 <? length ls)%nat then
    Ok (imap (λ i w, base_chunk (part_title parent_title i) (join (String newline "") w) content_type)
          (chunks subdivide_window ls))
  else byte_chunks (String.length content) content parent_title content_type 0 0.

(** ** JSON and the whole chunker *)

Inductive JsonTop (Value : Type) :=
| JsonObject (entries : list (string * Value))
| JsonArray (items : list Value)
| JsonOther.
Arguments JsonObject {Value} entries.
Arguments JsonArray {Value} items.
Arguments JsonOther {Value}.

Section chunker.
Context {Value : Type}.
(** [serde_json::from_str], the shape of a value, and [to_string_pretty] with its fallback. *)
Context (from_str : string → option Value) (top : Value → JsonTop Value).
Context (pretty : Value → string) (pretty_batch : list Value → string).
Context (sha256_hex : string → string).

Definition compute_chunk_id (source_id content : string) : string :=
  sha256_hex (source_id +:+ String (chr 0) (trim content)).

Definition chunk_json (src : string) : list Chunk :=
  match top <$> from_str src with
  | Some (JsonObject entries) =>
      map (λ e, base_chunk (Some (fst e)) (pretty (snd e)) "application/json") entries
  | Some (JsonArray items) =>
      imap (λ i batch,
          base_chunk
            (Some ("array[" +:+ show_nat (i * 20) +:+ ".." +:+ show_nat (i * 20 + length batch) +:+ "]"))
            (pretty_batch batch) "application/json")
        (chunks 20 items)
  | _ => chunk_plain src
  end.

Definition base_chunks (raw content_type : string) : list Chunk :=
  if String.eqb content_type "text/markdown" || String.eqb content_type "markdown"
  then chunk_markdown raw
  else if String.eqb content_type "application/json" || String.eqb content_type "json"
  then chunk_json raw
  else chunk_plain raw.

Definition number (source_id : string) (idx : nat) (c : Chunk) : Chunk :=
  mk_chunk (compute_chunk_id source_id (content c)) idx (title c) (content c) (content_type c).

Definition push_chunk (source_id : string) (out : list Chunk) (c : Chunk) : list Chunk :=
  out ++ [number source_id (length out) c].

Fixpoint split_oversized (source_id : string) (base out : list Chunk) :
    result ChunkError (list Chunk) :=
  match base with
  | [] => Ok out
  | c :: base =>
      if (String.length (content c) <=? MAX_CHUNK_BYTES)%nat
      then split_oversized source_id base (push_chunk source_id out c)
      else
        subs <-? subdivide (content c) (title c) (content_type c);;
        split_oversized source_id base (foldl (push_chunk source_id) out subs)
  end.

Definition chunk_text (source_id raw content_type : string) : result ChunkError (list Chunk) :=
  split_oversized source_id (base_chunks raw content_type) [].
End chunker.

(** ** Lemmas: slices and windows *)

Lemma chunks_fuel_spec {A} n : (0 < n)%nat → ∀ fuel (l : list A), (length l ≤ fuel)%nat →
  concat (chunks_fuel fuel n l) = l ∧
  Forall (λ w, w ≠ [] ∧ (length w ≤ n)%nat) (chunks_fuel fuel n l).
Proof.
  intros Hn. induction fuel as [|fuel IH]; intros [|x l] Hl; simpl in *; try by auto with lia.
  destruct (IH (drop n (x :: l))) as [Hc Hf]; [rewrite length_drop; simpl; lia|]. split.
  - rewrite Hc. apply take_drop.
  - constructor; [|done]. split; [destruct n; [lia|done]|]. rewrite length_take. lia.
Qed.

Lemma chunks_concat {A} n (l : list A) : (0 < n)%nat → concat (chunks n l) = l.
Proof. intros Hn. by apply (chunks_fuel_spec n Hn (length l) l). Qed.

Lemma boundary_le s i : is_char_boundary s i = true → (i ≤ String.length s)%nat.
Proof.
  unfold is_char_boundary. destruct (String.get i s) as [b|] eqn:Eg.
  - intros _. assert (i < String.length s)%nat by (apply str_get_lt; by eexists). lia.
  - intros ->%Nat.eqb_eq. done.
Qed.

Lemma slice_ok s first last t :
  slice s first last = Ok t →
  (first ≤ last)%nat ∧ (last ≤ String.length s)%nat ∧ t = str_take (last - first) (str_drop first s) ∧
  is_char_boundary s first = true ∧ is_char_boundary s last = true.
Proof.
  unfold slice. destruct (_ && _) eqn:E; [|done]. intros [= <-]. split_bools.
  split_and!; [by apply Nat.leb_le|by apply boundary_le|done..].
Qed.

Lemma snap_le s p : (snap_utf8_from s p ≤ p)%nat.
Proof. induction p as [|p IH]; simpl; [done|]. repeat case_match; lia. Qed.

(** The position found is behind a byte that continues no character. *)
Lemma snap_spec s p :
  (p ≤ String.length s)%nat →
  snap_utf8_from s p = 0%nat ∨
  ∃ b, String.get (snap_utf8_from s p - 1) s = Some b ∧ is_continuation b = false ∧
    (0 < snap_utf8_from s p)%nat.
Proof.
  induction p as [|p IH]; simpl; [by left|]. intros Hp.
  destruct (String.get p s) as [b|] eqn:Eg.
  - destruct (is_continuation b) eqn:Ec; [apply IH; lia|]. right. exists b.
    replace (S p - 1)%nat with p by lia. auto with lia.
  - assert (p < String.length s)%nat as [? ?]%str_get_lt by lia. congruence.
Qed.

Lemma snap_above s p q b :
  String.get q s = Some b → is_continuation b = false → (q < p)%nat →
  (q < snap_utf8_from s p)%nat.
Proof.
  intros Hg Hc. induction p as [|p IH]; [lia|]. intros Hq. simpl.
  destruct (decide (q = p)) as [->|Hne]; [rewrite Hg, Hc; lia|].
  assert (q < snap_utf8_from s p)%nat by (apply IH; lia). repeat case_match; lia.
Qed.

(** Whatever the windows are, they lose nothing and respect the cap. *)
Lemma byte_chunks_pieces fuel content parent ct : ∀ start part cs,
  byte_chunks fuel content parent ct start part = Ok cs →
  str_cat (map Chunking.content cs) = str_drop start content ∧
  Forall (λ c, (String.length (Chunking.content c) ≤ MAX_CHUNK_BYTES)%nat ∧ content_type c = ct) cs.
Proof.
  induction fuel as [|fuel IH]; intros start part cs; cbn [byte_chunks];
    destruct (Nat.ltb_spec start (String.length content)) as [Hlt|Hge]; try done.
  - intros [= <-]. split; [|constructor]. simpl. symmetry. apply str_is_empty_iff.
    unfold str_is_empty. rewrite str_length_drop. apply Nat.eqb_eq. lia.
  - intros (piece & Hs & (rest & Hr & [= <-])%res_bind_ok)%res_bind_ok.
    apply slice_ok in Hs as (H1 & H2 & -> & _ & _). destruct (IH _ _ _ Hr) as [Hc Hf].
    set (last := snap_utf8 _ _) in *.
    assert (last ≤ start + MAX_CHUNK_BYTES)%nat as Hlast.
    { unfold last, snap_utf8. etrans; [apply snap_le|]. lia. }
    split.
    + cbn [map str_cat foldr Chunking.content]. fold (str_cat (map Chunking.content rest)).
      rewrite Hc. rewrite <-(str_take_drop (last - start) (str_drop start content)) at 2.
      rewrite str_drop_drop. do 2 f_equal. lia.
    + constructor; [|done]. split; [|done]. simpl. rewrite str_length_take. lia.
  - intros [= <-]. split; [|constructor]. simpl. symmetry. apply str_is_empty_iff.
    unfold str_is_empty. rewrite str_length_drop. apply Nat.eqb_eq. lia.
Qed.

Lemma ascii_not_continuation b : is_ascii_byte b = true → is_continuation b = false.
Proof. destruct b as [[] [] [] [] [] [] [] []]; vm_compute; congruence. Qed.

Lemma ascii_boundary s i : is_ascii_str s = true → (i ≤ String.length s)%nat → is_char_boundary s i = true.
Proof.
  intros Ha Hi. unfold is_char_boundary. destruct (String.get i s) as [b|] eqn:Eg.
  - rewrite (ascii_not_continuation b); [by rewrite orb_true_r|]. by apply (str_forall_get _ s i).
  - apply Nat.eqb_eq. destruct (decide (i < String.length s)%nat) as [[? ?]%str_get_lt|]; [congruence|lia].
Qed.

Lemma ascii_snap s p : is_ascii_str s = true → (p ≤ String.length s)%nat → snap_utf8 s p = p.
Proof.
  intros Ha Hp. unfold snap_utf8. rewrite Nat.min_l by done. destruct p as [|p]; [done|]. simpl.
  destruct (String.get p s) as [b|] eqn:Eg; [|done].
  by rewrite (ascii_not_continuation b) by by apply (str_forall_get _ s p).
Qed.

(** ASCII text is always split. *)
Lemma byte_chunks_ascii fuel content parent ct : is_ascii_str content = true →
  ∀ start part, (String.length content - start ≤ fuel)%nat →
  ∃ cs, byte_chunks fuel content parent ct start part = Ok cs.
Proof.
  intros Ha. induction fuel as [|fuel IH]; intros start part Hf; cbn [byte_chunks];
    destruct (Nat.ltb_spec start (String.length content)) as [Hlt|Hge]; [lia|eauto| |eauto].
  rewrite ascii_snap by (done || lia).
  assert (0 < MAX_CHUNK_BYTES)%nat by (unfold MAX_CHUNK_BYTES; lia).
  unfold slice. rewrite !ascii_boundary by (done || lia).
  rewrite (proj2 (Nat.leb_le start _)) by lia. simpl.
  destruct (IH (Nat.min (start + MAX_CHUNK_BYTES) (String.length content)) (S part)) as [cs Hcs]; [lia|].
  rewrite Hcs. simpl. eauto.
Qed.

(** ** Lemmas: the chunker *)

Definition text_of (cs : list Chunk) : string := str_cat (map content cs).

Definition expand (c : Chunk) : result ChunkError (list Chunk) :=
  if (String.length (content c) <=? MAX_CHUNK_BYTES)%nat then Ok [c]
  else subdivide (content c) (title c) (content_type c).

Fixpoint expand_all (base : list Chunk) : result ChunkError (list Chunk) :=
  match base with
  | [] => Ok []
  | c :: base => subs <-? expand c;; rest <-? expand_all base;; Ok (subs ++ rest)
  end.

Lemma text_of_app cs cs' : text_of (cs ++ cs') = text_of cs +:+ text_of cs'.
Proof. unfold text_of. by rewrite map_app, str_cat_app. Qed.

(** The plain bytes a whole-text theorem is about. *)
Definition simple_text (s : string) : Prop :=
  is_ascii_str s = true ∧ no_char carriage_return s = true.

Definition no_lf : string → string := without newline.

Lemma no_lf_app s t : no_lf (s +:+ t) = no_lf s +:+ no_lf t.
Proof. apply str_filter_app. Qed.

Lemma map_no_lf ls :
  Forall (λ l, no_char newline l = true) ls → map no_lf ls = ls.
Proof. induction 1 as [|l ls Hl _ IH]; [done|]. simpl. unfold no_lf at 1. by rewrite without_id, IH. Qed.

Lemma simple_lines s : simple_text s →
  Forall (λ l, simple_text l ∧ no_char newline l = true) (lines s).
Proof.
  intros [Ha Hc]. eapply Forall_impl; [apply (lines_forall _ s Hc Ha)|].
  intros l (H1 & H2 & H3). by repeat split.
Qed.

Lemma join_text ws : Forall (λ l, no_char newline l = true) ws →
  no_lf (join (String newline "") ws) = str_cat ws.
Proof. intros H. etrans; [apply without_join|]. f_equal. by apply map_no_lf. Qed.

Lemma windows_text wss :
  Forall (Forall (λ l, no_char newline l = true)) wss →
  no_lf (str_cat (map (join (String newline "")) wss)) = str_cat (concat wss).
Proof.
  induction 1 as [|ws wss Hw _ IH]; [done|].
  simpl. rewrite no_lf_app, str_cat_app, IH. by rewrite join_text.
Qed.

Lemma expand_text c : simple_text (content c) →
  ∃ subs, expand c = Ok subs ∧ no_lf (text_of subs) = no_lf (content c).
Proof.
  intros Hs. unfold expand. destruct (_ <=? _)%nat.
  { exists [c]. split; [done|]. unfold text_of. simpl. by rewrite str_app_nil_r. }
  unfold subdivide. destruct (1 <? _)%nat.
  - eexists. split; [done|]. unfold text_of.
    pose proof (simple_lines _ Hs) as Hl.
    rewrite (map_imap _ content (join (String newline ""))) by done.
    rewrite windows_text.
    + rewrite chunks_concat by (unfold subdivide_window; lia). by apply lines_cat, Hs.
    + apply Forall_forall. intros w Hw. apply Forall_forall. intros l Hlw.
      rewrite Forall_forall in Hl. apply Hl.
      rewrite <-(chunks_concat subdivide_window (lines (content c))) by (unfold subdivide_window; lia).
      apply list_elem_of_In, in_concat. exists w. split; by apply list_elem_of_In.
  - destruct (byte_chunks_ascii (String.length (content c)) (content c) (title c) (content_type c)
      (proj1 Hs) 0 0) as [cs Hcs]; [lia|].
    exists cs. split; [done|]. f_equal. by destruct (byte_chunks_pieces _ _ _ _ _ _ _ Hcs) as [Ht _].
Qed.

Lemma expand_all_text base : Forall (λ c, simple_text (content c)) base →
  ∃ subs, expand_all base = Ok subs ∧ no_lf (text_of subs) = no_lf (text_of base).
Proof.
  induction 1 as [|c base Hc Hb (subs & Hs & Ht)]; simpl; [by exists []|].
  destruct (expand_text c Hc) as (cs & -> & Hcs). rewrite Hs. simpl. eexists. split; [done|].
  rewrite text_of_app, no_lf_app, Hcs, Ht. unfold text_of. simpl. by rewrite no_lf_app.
Qed.

(** Paragraphs: the lines that are not blank, in order. *)
Lemma paragraphs_fold ls : ∀ paras current,
  let (paras', current') := foldl paragraph_step (paras, current) ls in
  concat paras' ++ current' = concat paras ++ current ++ filter (λ l, negb (is_blank l)) ls.
Proof.
  induction ls as [|l ls IH]; intros paras current; simpl; [by rewrite app_nil_r|].
  rewrite filter_cons. destruct (is_blank l); simpl.
  - destruct current as [|x current].
    + apply (IH paras []).
    + specialize (IH (paras ++ [x :: current]) []). destruct (foldl _ _ _) as [p c]. rewrite IH.
      rewrite concat_app, concat_cons, app_nil_r. by rewrite <-!app_assoc.
  - specialize (IH paras (current ++ [l])). destruct (foldl _ _ _) as [p c]. rewrite IH.
    by rewrite <-app_assoc.
Qed.

Lemma paragraphs_concat ls : concat (paragraphs ls) = filter (λ l, negb (is_blank l)) ls.
Proof.
  unfold paragraphs. pose proof (paragraphs_fold ls [] []) as H.
  destruct (foldl _ _ _) as [paras [|l current]]; simpl in H.
  - by rewrite app_nil_r in H.
  - by rewrite concat_app, concat_cons, app_nil_r.
Qed.

(** The lines a plain text is indexed by: all but the blank ones, unless all are blank. *)
Definition kept_lines (ls : list string) : list string :=
  match filter (λ l, negb (is_blank l)) ls with [] => ls | kept => kept end.

Lemma paragraphs_nonempty ls : Forall (λ p, p ≠ []) (paragraphs ls).
Proof.
  assert (∀ paras current, Forall (λ p, p ≠ []) paras →
    Forall (λ p, p ≠ []) (foldl paragraph_step (paras, current) ls).1) as H.
  { induction ls as [|l ls IH]; intros paras current Hp; simpl; [done|].
    destruct (is_blank l); [|by apply IH]. destruct current as [|x current]; [by apply IH|].
    apply IH, Forall_app. split; [done|]. by repeat constructor. }
  unfold paragraphs. specialize (H [] [] ltac:(constructor)).
  destruct (foldl _ _ _) as [paras [|l current]]; [done|]. simpl in H.
  apply Forall_app. split; [done|]. by repeat constructor.
Qed.

(** The base chunks of a plain text are groups of its lines. *)
Lemma chunk_plain_lines src :
  ∃ wss, map content (chunk_plain src) = map (join (String newline "")) wss ∧
    concat wss = kept_lines (lines src).
Proof.
  unfold chunk_plain, kept_lines.
  pose proof (paragraphs_concat (lines src)) as Hc. pose proof (paragraphs_nonempty (lines src)) as Hn.
  destruct (paragraphs (lines src)) as [|p ps].
  - simpl in Hc. rewrite <-Hc. exists (chunks LINE_WINDOW (lines src)). split.
    + unfold line_window_chunks. by rewrite map_map.
    + apply chunks_concat. unfold LINE_WINDOW. lia.
  - exists (p :: ps). split; [by rewrite map_map|]. rewrite <-Hc.
    apply Forall_cons in Hn as [Hp _]. by destruct p.
Qed.

Lemma push_chunks sha source cs : ∀ out,
  foldl (push_chunk sha source) out cs =
  out ++ imap (λ i c, number sha source (length out + i) c) cs.
Proof.
  induction cs as [|c cs IH]; intros out; simpl; [by rewrite app_nil_r|].
  rewrite IH. unfold push_chunk. rewrite <-app_assoc. f_equal. simpl. rewrite Nat.add_0_r. f_equal.
  apply imap_ext. intros i x _. rewrite length_app. simpl. f_equal. lia.
Qed.

Lemma split_oversized_spec sha source base : ∀ out,
  split_oversized sha source base out =
  (subs <-? expand_all base;; Ok (foldl (push_chunk sha source) out subs)).
Proof.
  induction base as [|c base IH]; intros out; simpl; [done|]. unfold expand.
  destruct (_ <=? _)%nat; simpl.
  - rewrite IH. by destruct (expand_all base).
  - destruct (subdivide _ _ _) as [subs|e]; simpl; [|done]. rewrite IH.
    destruct (expand_all base); simpl; [|done]. by rewrite foldl_app.
Qed.

(** A valid text does not start with a continuation byte. *)
Lemma continuation_no_lead a : is_continuation a = true →
  is_ascii_byte a || byte_in 194 223 a || (byte_val a =? 224)%N || (byte_val a =? 237)%N ||
  byte_in 225 239 a || (byte_val a =? 240)%N || byte_in 241 243 a || (byte_val a =? 244)%N = false.
Proof. destruct a as [[] [] [] [] [] [] [] []]; vm_compute; congruence. Qed.

Lemma valid_utf8_first a s : valid_utf8 (String a s) = true → is_continuation a = false.
Proof.
  intros Hv. apply not_true_iff_false. intros Hc%continuation_no_lead. split_bools.
  cbn [valid_utf8] in Hv. revert Hv.
  repeat match goal with H : _ = false |- _ => rewrite H; clear H end.
  by destruct s as [|b [|c [|d s]]].
Qed.

(** A window behind a text that ends inside a character is never reached. *)
Lemma byte_chunks_stuck fuel content parent ct b :
  last_byte content = Some b → is_continuation b = true →
  ∀ start part, (start < String.length content)%nat → is_char_boundary content start = true →
  (start = 0%nat → ∃ a, String.get 0 content = Some a ∧ is_continuation a = false) →
  (String.length content - start ≤ fuel)%nat →
  byte_chunks fuel content parent ct start part = Err SliceInsideChar.
Proof.
  intros Hlast Hb. induction fuel as [|fuel IH]; intros start part Hlt Hbound H0 Hf; [lia|].
  cbn [byte_chunks]. rewrite (proj2 (Nat.ltb_lt _ _) Hlt).
  assert (∃ a, String.get start content = Some a ∧ is_continuation a = false) as (a & Ha & Hac).
  { destruct (decide (start = 0%nat)) as [->|Hne]; [by apply H0|].
    unfold is_char_boundary in Hbound.
    destruct (proj1 (str_get_lt _ _) Hlt) as [a Ha]. exists a. split; [done|].
    rewrite Ha in Hbound. destruct (Nat.eqb_spec start 0); [done|]. by apply negb_true_iff in Hbound. }
  set (stop := Nat.min (start + MAX_CHUNK_BYTES) (String.length content)).
  assert (start < stop)%nat as Hstop by (unfold stop, MAX_CHUNK_BYTES; lia).
  unfold snap_utf8. rewrite (Nat.min_l stop) by (unfold stop; lia).
  set (last := snap_utf8_from content stop).
  assert (start < last)%nat as Hgt by (by apply (snap_above _ _ _ a)).
  assert (last < String.length content)%nat as Hend.
  { pose proof (snap_le content stop) as Hle. fold last in Hle.
    destruct (decide (last = String.length content)) as [E|]; [|unfold stop in Hle; lia].
    destruct (snap_spec content stop) as [Hz|(x & Hx & Hxc & _)]; [unfold stop; lia| |].
    - fold last in Hz. lia.
    - fold last in Hx. rewrite E, <-last_byte_get in Hx. congruence. }
  unfold slice. rewrite Hbound, (proj2 (Nat.leb_le _ _)) by lia. simpl.
  destruct (is_char_boundary content last) eqn:El; [|done]. simpl.
  by rewrite IH by (done || lia).
Qed.

(** ** Properties *)

Section properties.
Context {Value : Type} (from_str : string → option Value) (top : Value → JsonTop Value).
Context (pretty : Value → string) (pretty_batch : list Value → string) (sha256_hex : string → string).
Abbreviation chunk_text := (chunk_text from_str top pretty pretty_batch sha256_hex).

(** Whatever the kind of document, the chunks are numbered from zero in document order
    and every identity is the hash of the source and of the chunk's own text: moving a
    chunk changes its index only. *)
Theorem chunks_numbered (source_id raw content_type : string) (cs : list Chunk) :
  chunk_text source_id raw content_type = Ok cs →
  ∀ i c, cs !! i = Some c →
    chunk_index c = i ∧ chunk_id c = compute_chunk_id sha256_hex source_id (content c).
Proof.
  unfold Chunking.chunk_text. rewrite split_oversized_spec.
  destruct (expand_all _) as [subs|e]; simpl; [|done]. intros [= <-] i c.
  rewrite push_chunks. simpl. rewrite list_lookup_imap.
  destruct (subs !! i); simpl; [|done]. by intros [= <-].
Qed.

(** Plain ASCII text without carriage returns is always chunked, and apart from line
    feeds the chunks' texts are, one after the other, exactly the lines that are not blank
    (all lines of a blank text): nothing is lost, repeated or reordered by the paragraph,
    line-window and byte-window splits. *)
Theorem plain_text_complete (source_id raw content_type : string) :
  simple_text raw →
  content_type ∉ ["text/markdown"; "markdown"; "application/json"; "json"] →
  ∃ cs, chunk_text source_id raw content_type = Ok cs ∧
    no_lf (text_of cs) = str_cat (kept_lines (lines raw)).
Proof.
  intros Hraw Hct. unfold Chunking.chunk_text, base_chunks.
  assert (∀ t, t ∈ ["text/markdown"; "markdown"; "application/json"; "json"] →
    String.eqb content_type t = false) as Hne.
  { intros t Ht. apply String.eqb_neq. by intros ->. }
  rewrite !Hne by (rewrite !elem_of_cons; auto). simpl.
  destruct (chunk_plain_lines raw) as (wss & Hw & Hc).
  assert (Forall (λ l, simple_text l ∧ no_char newline l = true) (concat wss)) as Hlines.
  { rewrite Hc. apply Forall_forall. intros l Hl.
    assert (l ∈ lines raw) as Hin.
    { unfold kept_lines in Hl. destruct (filter _ (lines raw)) as [|x ks] eqn:E; [done|].
      rewrite <-E in Hl. by apply list_elem_of_filter in Hl as [_ ?]. }
    pose proof (simple_lines raw Hraw) as Hf. rewrite Forall_forall in Hf. auto. }
  assert (Forall (λ c, simple_text (content c)) (chunk_plain raw)) as Hsimple.
  { apply Forall_forall. intros c Hin.
    assert (content c ∈ map (join (String newline "")) wss) as Hj.
    { rewrite <-Hw. apply list_elem_of_fmap. by exists c. }
    apply list_elem_of_fmap in Hj as (ws & -> & Hws).
    assert (Forall (λ l, simple_text l ∧ no_char newline l = true) ws) as Hwl.
    { apply Forall_forall. intros l Hl. rewrite Forall_forall in Hlines. apply Hlines.
      apply list_elem_of_In, in_concat. exists ws. split; by apply list_elem_of_In. }
    split; apply str_forall_join; try done; eapply Forall_impl; try exact Hwl;
      intros l [[? ?] _]; done. }
  destruct (expand_all_text _ Hsimple) as (subs & Hs & Ht).
  rewrite split_oversized_spec, Hs. simpl. eexists. split; [done|].
  rewrite push_chunks. simpl.
  transitivity (no_lf (text_of subs)); [unfold text_of; by rewrite (map_imap _ content content)|].
  rewrite Ht. unfold text_of. rewrite Hw, windows_text, Hc; [done|].
  apply Forall_forall. intros ws Hws. apply Forall_forall. intros l Hl.
  rewrite Forall_forall in Hlines. apply Hlines.
  apply list_elem_of_In, in_concat. exists ws. split; by apply list_elem_of_In.
Qed.

(** A line longer than the cap whose last character is not ASCII is not chunked: the
    byte windows are cut behind a lead byte and slicing the text there panics. (The
    position must not be inside a character; stepping back from continuation bytes stops
    one byte too early.) *)
Theorem long_non_ascii_line_panics (source_id line content_type : string) (b : ascii) :
  valid_utf8 line = true → (MAX_CHUNK_BYTES < String.length line)%nat →
  lines line = [line] → is_blank line = false →
  last_byte line = Some b → is_continuation b = true →
  content_type ∉ ["text/markdown"; "markdown"; "application/json"; "json"] →
  chunk_text source_id line content_type = Err SliceInsideChar.
Proof.
  intros Hv Hlen Hline Hblank Hlast Hb Hct. unfold Chunking.chunk_text, base_chunks.
  assert (∀ t, t ∈ ["text/markdown"; "markdown"; "application/json"; "json"] →
    String.eqb content_type t = false) as Hne.
  { intros t Ht. apply String.eqb_neq. by intros ->. }
  rewrite !Hne by (rewrite !elem_of_cons; auto). simpl.
  unfold chunk_plain, paragraphs. rewrite Hline. simpl. rewrite Hblank. simpl.
  rewrite (proj2 (Nat.leb_gt _ _) Hlen). unfold subdivide. rewrite Hline. simpl length. simpl Nat.ltb.
  rewrite (byte_chunks_stuck _ _ _ _ b); [done|done|done|lia| | |lia].
  - by destruct line.
  - intros _. destruct line as [|a line]; [simpl in Hlen; lia|]. exists a. split; [done|].
    by apply (valid_utf8_first a line).
Qed.
End properties.

(** ** Examples *)

Fixpoint repeat_char (n : nat) (a : ascii) : string :=
  match n with O => "" | S n => String a (repeat_char n a) end.

(** 4096 letters and an e with an acute accent. *)
Definition demo_line : string :=
  Eval vm_compute in repeat_char 4096 "x" +:+ String (chr 195) (String (chr 169) "").

Abbreviation demo_chunk_text :=
  (chunk_text (Value := unit) (λ _, None) (λ _, JsonOther) (λ _, "") (λ _, "") id).

Lemma long_non_ascii_line_panics_witness :
  (MAX_CHUNK_BYTES < String.length demo_line)%nat ∧
  demo_chunk_text "notes.txt" demo_line "text/plain" = Err SliceInsideChar.
Proof.
  assert (MAX_CHUNK_BYTES < String.length demo_line)%nat as H.
  { apply Nat.ltb_lt. vm_compute. reflexivity. }
  split; [exact H|].
  apply (long_non_ascii_line_panics (Value := unit) (λ _, None) (λ _, JsonOther) (λ _, "") (λ _, "") id
    "notes.txt" demo_line "text/plain" (chr 169)); try (vm_compute; reflexivity); [exact H|].
  apply (bool_decide_unpack _). vm_compute. exact I.
Defined.

Definition nl : string := String newline "".

Definition demo_text : string :=
  "one" +:+ nl +:+ "two" +:+ nl +:+ nl +:+ "three" +:+ nl.

Lemma plain_text_complete_witness :
  simple_text demo_text ∧
  ∃ cs, demo_chunk_text "notes.txt" demo_text "text/plain" = Ok cs ∧
    no_lf (text_of cs) = "onetwothree".
Proof.
  assert (simple_text demo_text) as H by (split; vm_compute; reflexivity).
  split; [exact H|].
  apply (plain_text_complete (Value := unit) (λ _, None) (λ _, JsonOther) (λ _, "") (λ _, "") id
    "notes.txt" demo_text "text/plain" H).
  apply (bool_decide_unpack _). vm_compute. exact I.
Defined.

Lemma chunks_numbered_witness :
  ∃ cs c, demo_chunk_text "notes.txt" demo_text "text/plain" = Ok cs ∧
    cs !! 1%nat = Some c ∧ chunk_index c = 1%nat ∧
    chunk_id c = "notes.txt" +:+ String (chr 0) "three".
Proof.
  destruct (demo_chunk_text "notes.txt" demo_text "text/plain") as [cs|e] eqn:E; [|by vm_compute in E].
  pose proof (chunks_numbered (Value := unit) (λ _, None) (λ _, JsonOther) (λ _, "") (λ _, "") id
    "notes.txt" demo_text "text/plain" cs E) as H.
  vm_compute in E. injection E as <-. eexists _, _. split; [reflexivity|]. split; [reflexivity|].
  apply (H 1%nat). reflexivity.
Defined.

(** Two lines are one window: the cap does not bound the chunks of a text with several lines. *)
Example long_lines_exceed_cap :
  (λ cs, map (λ c, String.length (content c)) cs) <$>
    match demo_chunk_text "a" (repeat_char 3000 "x" +:+ nl +:+ repeat_char 3000 "y") "text/plain" with
    | Ok cs => Some cs | Err _ => None end
  = Some [(3000 + 3001)%nat].
Proof. vm_compute. reflexivity. Qed.
