(* ===== verification/Tasks.v ===== *)
(** * Durable tasks of the MCP server

    Model of [packages/atlas-mcp/src/tasks.rs] and of the task records of
    [packages/atlas-session/src/store/mod.rs] and [types.rs]: a tool call that runs as a
    task has a worker thread, a record in the store, a cancel flag and clients that update,
    cancel and list tasks. The table of the store is a map by task id; one SQL statement is
    one atomic operation. The interleaving of workers, waiting callers and clients is a step
    relation over these operations. The clock, the conversion of input requests to the
    client library's types and the JSON form of a list cursor are parameters. *)

From S2P Require Import Prelude RustStr Json.

(** ** Records *)

Inductive DurableTaskStatus := Cancelled | Completed | Failed | InputRequired | Working.

#[global] Instance DurableTaskStatus_eq_dec : EqDecision DurableTaskStatus.
Proof. solve_decision. Defined.

Definition DurableTaskStatus_as_str (s : DurableTaskStatus) : string :=
  match s with
  | Cancelled => "cancelled"
  | Completed => "completed"
  | Failed => "failed"
  | InputRequired => "input_required"
  | Working => "working"
  end.

Definition DurableTaskStatus_from_str (value : string) : result string DurableTaskStatus :=
  if String.eqb value "cancelled" then Ok Cancelled
  else if String.eqb value "completed" then Ok Completed
  else if String.eqb value "failed" then Ok Failed
  else if String.eqb value "input_required" then Ok InputRequired
  else if String.eqb value "working" then Ok Working
  else Err ("unknown durable task status: " +:+ value).

Record DurableTaskRecord := mk_task {
  task_id : string;
  originating_method : string;
  request_id : option string;
  tool_name : option string;
  transport_kind : option string;
  session_id : option string;
  created_at : string;
  updated_at : string;
  status : DurableTaskStatus;
  status_message : option string;
  progress : option Json;
  task_result : option Json;
  task_error : option Json;
  input_requests : option Json;
  request_state : option string;
  ttl_ms : option N;
  cancel_requested : bool
}.

Record NewDurableTask := mk_new_task {
  nt_task_id : string;
  nt_originating_method : string;
  nt_request_id : option string;
  nt_tool_name : option string;
  nt_transport_kind : option string;
  nt_session_id : option string;
  nt_status : DurableTaskStatus;
  nt_status_message : option string;
  nt_ttl_ms : option N
}.

Record DurableTaskUpdate := mk_update {
  u_status : option DurableTaskStatus;
  u_status_message : option string;
  u_progress : option Json;
  u_result : option Json;
  u_error : option Json;
  u_input_requests : option Json;
  u_request_state : option string;
  u_cancel_requested : option bool
}.

(** ** The table *)

Abbreviation Table := (gmap string DurableTaskRecord).

Definition new_record (now : string) (task : NewDurableTask) : DurableTaskRecord :=
  mk_task (nt_task_id task) (nt_originating_method task) (nt_request_id task) (nt_tool_name task)
    (nt_transport_kind task) (nt_session_id task) now now (nt_status task) (nt_status_message task)
    None None None None None (nt_ttl_ms task) false.

Inductive StoreError := UniqueViolation | InvalidCursor.

(** The insertion fails when the primary key exists. *)
Definition create_durable_task (now : string) (task : NewDurableTask) (t : Table) :
    result StoreError (DurableTaskRecord * Table) :=
  match t !! nt_task_id task with
  | Some _ => Err UniqueViolation
  | None => Ok (new_record now task, <[nt_task_id task := new_record now task]> t)
  end.

(** [COALESCE(new, old)]. *)
Definition coalesce {A} (new old : option A) : option A :=
  match new with Some x => Some x | None => old end.

Definition apply_update (now : string) (u : DurableTaskUpdate) (r : DurableTaskRecord) :
    DurableTaskRecord :=
  mk_task (task_id r) (originating_method r) (request_id r) (tool_name r) (transport_kind r)
    (session_id r) (created_at r) now
    (default (status r) (u_status u))
    (coalesce (u_status_message u) (status_message r))
    (coalesce (u_progress u) (progress r))
    (coalesce (u_result u) (task_result r))
    (coalesce (u_error u) (task_error r))
    (coalesce (u_input_requests u) (input_requests r))
    (coalesce (u_request_state u) (request_state r))
    (ttl_ms r)
    (default (cancel_requested r) (u_cancel_requested u)).

(** An update of an id without a row changes nothing. *)
Definition update_durable_task (now id : string) (u : DurableTaskUpdate) (t : Table) : Table :=
  alter (apply_update now u) id t.

Definition delete_durable_task (id : string) (t : Table) : bool * Table :=
  (match t !! id with Some _ => true | None => false end, delete id t).

(** *** Listing *)

Record DurableTaskListCursor := mk_cursor {
  c_updated_at : string;
  c_created_at : string;
  c_task_id : string
}.

Record DurableTaskListPage := mk_page {
  tasks : list DurableTaskRecord;
  next_cursor : option string
}.

Definition row_key (r : DurableTaskRecord) : string * string * string :=
  (updated_at r, created_at r, task_id r).

Definition key_cmp : string * string * string → string * string * string → comparison :=
  cmp_lex (cmp_on (fst ∘ fst) String.compare)
    (cmp_lex (cmp_on (snd ∘ fst) String.compare) (cmp_on snd String.compare)).

(** A row of the query: its key, and the record that [row_to_durable_task] makes of it,
    [None] when its status or one of its JSON columns does not parse. *)
Record Row := mk_row { row_at : string * string * string; row_task : option DurableTaskRecord }.

(** The rows of records written by this code: they all parse. *)
Definition row_of (r : DurableTaskRecord) : Row := mk_row (row_key r) (Some r).
Definition table_rows (t : Table) : list Row := map (λ p, row_of p.2) (map_to_list t).

(** [ORDER BY updated_at DESC, created_at DESC, task_id DESC]. *)
Definition row_cmp : Row → Row → comparison := cmp_rev (cmp_on row_at key_cmp).

Definition is_lt (c : comparison) : bool := match c with Lt => true | _ => false end.

(** The rows behind the cursor. *)
Definition behind (c : DurableTaskListCursor) (r : Row) : bool :=
  let '(updated_at, created_at, task_id) := row_at r in
  is_lt (String.compare updated_at (c_updated_at c)) ||
  (String.eqb updated_at (c_updated_at c) &&
     is_lt (String.compare created_at (c_created_at c))) ||
  (String.eqb updated_at (c_updated_at c) && String.eqb created_at (c_created_at c) &&
     is_lt (String.compare task_id (c_task_id c))).

Section listing.
(** [serde_json] on the cursor. *)
Context (encode_cursor : DurableTaskListCursor → string)
  (decode_cursor : string → option DurableTaskListCursor).

Definition encode_durable_task_list_cursor (r : DurableTaskRecord) : string :=
  encode_cursor (mk_cursor (updated_at r) (created_at r) (task_id r)).

Definition clamp (lo hi n : nat) : nat := Nat.min hi (Nat.max lo n).

Definition rows_behind (cursor : option DurableTaskListCursor) (rows : list Row) : list Row :=
  sort_by row_cmp (match cursor with Some c => filter (behind c) rows | None => rows end).

(** The limit of the query counts the rows, then those that do not parse are dropped. *)
Definition list_durable_tasks (cursor : option string) (limit : nat) (rows : list Row) :
    result StoreError DurableTaskListPage :=
  let limit := clamp 1 100 limit in
  cursor <-? match cursor with
             | None => Ok None
             | Some c =>
                 match decode_cursor c with
                 | Some c => Ok (Some c)
                 | None => Err InvalidCursor
                 end
             end;;
  let tasks := omap row_task (take (limit + 1) (rows_behind cursor rows)) in
  if (limit <? length tasks)%nat
  then Ok (mk_page (removelast tasks)
             (encode_durable_task_list_cursor <$> last (removelast tasks)))
  else Ok (mk_page tasks None).

(** A client that follows the cursors. *)
Fixpoint list_all (fuel : nat) (cursor : option string) (limit : nat) (rows : list Row) :
    option (list DurableTaskRecord) :=
  match fuel with
  | O => None
  | S fuel =>
      match list_durable_tasks cursor limit rows with
      | Err _ => None
      | Ok page =>
          match next_cursor page with
          | None => Some (tasks page)
          | Some c => (λ rest, tasks page ++ rest) <$> list_all fuel (Some c) limit rows
          end
      end
  end.
End listing.

(** ** Requests *)

Definition task_ttl_from_request_params (params : Json) : option N :=
  task ← match json_get "task" params with
         | Some task => Some task
         | None => arguments ← json_get "arguments" params; json_get "task" arguments
         end;
  ttl ← json_get "ttl" task;
  as_u64 ttl.

Definition is_input_required_tool_result (v : Json) : bool :=
  bool_decide ((json_get "resultType" v ≫= as_str) = Some "input_required").

Definition is_auto_defer_candidate (name : string) : bool :=
  bool_decide (name ∈
    ["build_graph"; "update_graph"; "postprocess_graph"; "doctor"; "analyze_architecture";
     "analyze_metrics"; "assess_risk"; "analyze_patterns"; "find_large_functions";
     "find_complex_functions"; "find_similar_functions"; "find_duplicates"; "infer_modules";
     "label_components"; "analyze_dead_code"; "analyze_remove"; "analyze_safety";
     "analyze_dependency"]).

(** How a call runs: at once, as a task from the start, or as one that becomes a task when
    it takes longer than the threshold. *)
Inductive CallMode := Inline | ExplicitTask (ttl : N) | AutoDefer.

Definition call_mode (supports_tasks : bool) (explicit_task : option N) (name : string) : CallMode :=
  match explicit_task with
  | Some ttl => ExplicitTask ttl
  | None => if supports_tasks && is_auto_defer_candidate name then AutoDefer else Inline
  end.

Definition task_record_of_call (id : string) (request name : string)
    (transport session : option string) (ttl : option N) : NewDurableTask :=
  mk_new_task id "tools/call" (Some request) (Some name) transport session Working
    (Some "working") ttl.

Definition no_update : DurableTaskUpdate := mk_update None None None None None None None None.

(** The progress reporter's update. *)
Definition progress_update (message : string) (percentage : option N) : DurableTaskUpdate :=
  mk_update (Some Working) (Some message)
    (Some (JObject [("message", JString message); ("percentage", json_opt json_u64 percentage)]))
    None None None None None.

(** ** Clients *)

Inductive TaskApiErrorKind :=
| KindCancelled
| KindFailed
| KindInternal
| KindInvalidParams
| KindNotFound
| KindNotReady.

Record TaskApiError := mk_api_error { api_kind : TaskApiErrorKind; api_message : string }.

Definition is_terminal (s : DurableTaskStatus) : bool :=
  match s with Completed | Failed | Cancelled => true | InputRequired | Working => false end.

Definition task_record (id : string) (t : Table) : result TaskApiError DurableTaskRecord :=
  match t !! id with
  | Some r => Ok r
  | None => Err (mk_api_error KindNotFound ("unknown task_id '" +:+ id +:+ "'"))
  end.

Definition required_task_id (params : option Json) : result TaskApiError string :=
  match (params ≫= json_get "taskId") ≫= as_str with
  | Some id => Ok id
  | None => Err (mk_api_error KindInvalidParams "missing required argument: taskId")
  end.

Definition client_input (params : option Json) : result TaskApiError Json :=
  match v ← params;
        match json_get "input" v with
        | Some i => Some i
        | None => match json_get "payload" v with
                  | Some i => Some i
                  | None => json_get "inputResponses" v
                  end
        end
  with
  | Some i => Ok i
  | None => Err (mk_api_error KindInvalidParams "missing required argument: input")
  end.

Definition client_update (input : Json) : DurableTaskUpdate :=
  mk_update (Some Working) (Some "client input received") (Some (JObject [("clientInput", input)]))
    None None None None None.

Definition cancel_update : DurableTaskUpdate :=
  mk_update (Some Cancelled) (Some "cancelled") None None None None None (Some true).

(** The check both calls make before they write. *)
Definition accepts (what id : string) (t : Table) : result TaskApiError unit :=
  task <-? task_record id t;;
  if is_terminal (status task)
  then Err (mk_api_error KindInvalidParams ("task '" +:+ id +:+ "' no longer accepts " +:+ what))
  else Ok tt.

Definition tasks_update (now : string) (params : option Json) (t : Table) :
    result TaskApiError (DurableTaskRecord * Table) :=
  id <-? required_task_id params;;
  input <-? client_input params;;
  _ <-? accepts "updates" id t;;
  let t := update_durable_task now id (client_update input) t in
  task <-? task_record id t;;
  Ok (task, t).

(** The cancel flags of the live tasks. *)
Abbreviation Live := (gmap string bool).

Definition tasks_cancel (now id : string) (live : Live) (t : Table) :
    result TaskApiError (DurableTaskRecord * Live * Table) :=
  _ <-? accepts "cancellation" id t;;
  let live := alter (λ _, true) id live in
  let t := update_durable_task now id cancel_update t in
  task <-? task_record id t;;
  Ok (task, live, t).

(** ** Workers *)

Inductive RequestsError := NotObjectOrArray (got : Json) | NotConverted (message : string).

Inductive ToolResult := ToolOk (v : Json) | ToolErr (message : string).

Section system.
(** [atlas_input_requests_to_rmcp] and the JSON form of its result. *)
Context (requests_to_rmcp : list Json → result string Json).

Definition persisted_input_requests_from_atlas_tool_result (v : Json) :
    result RequestsError (option Json) :=
  match as_object v with
  | None => Ok None
  | Some entries =>
      if bool_decide ((assoc "resultType" entries ≫= as_str) = Some "input_required") then
        match assoc "inputRequests" entries with
        | None => Ok None
        | Some (JObject es) => Ok (Some (JObject es))
        | Some (JArray items) =>
            match requests_to_rmcp items with
            | Ok requests => Ok (Some requests)
            | Err message => Err (NotConverted message)
            end
        | Some other => Err (NotObjectOrArray other)
        end
      else Ok None
  end.

Definition error_json (message : string) : Json := JObject [("message", JString message)].

(** The update that ends a worker: [None] when it leaves the record alone. *)
Definition outcome_update (res : ToolResult) (current : option DurableTaskRecord) :
    option DurableTaskUpdate :=
  match current with
  | None => None
  | Some task =>
      if bool_decide (status task = Cancelled) then None
      else
        match res with
        | ToolOk v =>
            if is_input_required_tool_result v then
              match persisted_input_requests_from_atlas_tool_result v with
              | Ok requests =>
                  Some (mk_update (Some InputRequired) (Some "input required") None None None
                          requests (json_get "requestState" v ≫= as_str) None)
              | Err _ => None
              end
            else Some (mk_update (Some Completed) (Some "completed") None (Some v) None None None None)
        | ToolErr message =>
            Some (mk_update (Some Failed) (Some message) None None (Some (error_json message))
                    None None None)
        end
  end.

Inductive Worker :=
| Starting
| NotSpawned
| Running
| Returned (res : ToolResult)
| Decided (res : ToolResult) (current : option DurableTaskRecord)
| Done (res : ToolResult).

(** A caller that waits for the result of its call, or gave up waiting. *)
Inductive Caller := Waiting | TimedOut.

Record World := mk_world {
  table : Table;
  live : Live;
  workers : gmap string Worker;
  callers : gmap string Caller;
  (** Writes of clients that have passed their check. *)
  pending : list (string * DurableTaskUpdate)
}.

(** A process starts with the records that earlier ones left: the store outlives them, and
    the counter in the ids starts again at 1. *)
Definition start (t0 : Table) : World := mk_world t0 ∅ ∅ ∅ [].

Definition maybe_update (now id : string) (u : option DurableTaskUpdate) (t : Table) : Table :=
  match u with Some u => update_durable_task now id u t | None => t end.

Inductive Actor := ByServer | ByClient | ByFailure.

(** One atomic operation. A new call has an id that no call of the process had before (the
    counter in it only grows); the store may hold a record of that id all the same, left by
    an earlier process. *)
Inductive step : Actor → World → World → Prop :=
| step_create_explicit t l ws cs p id now task r t' :
    ws !! id = None → nt_task_id task = id → nt_status task = Working →
    create_durable_task now task t = Ok (r, t') →
    step ByServer (mk_world t l ws cs p) (mk_world t' l (<[id := Starting]> ws) cs p)
| step_spawn_explicit t l ws cs p id :
    ws !! id = Some Starting →
    step ByServer (mk_world t l ws cs p)
      (mk_world t (<[id := false]> l) (<[id := Running]> ws) cs p)
| step_spawn_failed t l ws cs p id :
    ws !! id = Some Starting →
    step ByFailure (mk_world t l ws cs p)
      (mk_world t (<[id := false]> l) (<[id := NotSpawned]> ws) cs p)
| step_spawn_auto t l ws cs p id :
    ws !! id = None →
    step ByServer (mk_world t l ws cs p)
      (mk_world t (<[id := false]> l) (<[id := Running]> ws) (<[id := Waiting]> cs) p)
| step_progress t l ws cs p id now message percentage :
    ws !! id = Some Running →
    step ByServer (mk_world t l ws cs p)
      (mk_world (update_durable_task now id (progress_update message percentage) t) l ws cs p)
| step_return t l ws cs p id res :
    ws !! id = Some Running →
    step ByServer (mk_world t l ws cs p) (mk_world t l (<[id := Returned res]> ws) cs p)
| step_check t l ws cs p id res :
    ws !! id = Some (Returned res) →
    step ByServer (mk_world t l ws cs p) (mk_world t l (<[id := Decided res (t !! id)]> ws) cs p)
| step_record t l ws cs p id now res current :
    ws !! id = Some (Decided res current) →
    step ByServer (mk_world t l ws cs p)
      (mk_world (maybe_update now id (outcome_update res current) t) (delete id l)
         (<[id := Done res]> ws) cs p)
| step_worker_store_error t l ws cs p id res current :
    ws !! id = Some (Returned res) ∨ ws !! id = Some (Decided res current) →
    step ByFailure (mk_world t l ws cs p) (mk_world t (delete id l) (<[id := Done res]> ws) cs p)
| step_caller_result t l ws cs p id res :
    cs !! id = Some Waiting → ws !! id = Some (Done res) →
    step ByServer (mk_world t l ws cs p) (mk_world t l ws (delete id cs) p)
| step_caller_timeout t l ws cs p id wk :
    cs !! id = Some Waiting → ws !! id = Some wk → (∀ res, wk ≠ Done res) →
    step ByServer (mk_world t l ws cs p) (mk_world t l ws (<[id := TimedOut]> cs) p)
| step_caller_create t l ws cs p id now task r t' :
    cs !! id = Some TimedOut → nt_task_id task = id → nt_status task = Working →
    create_durable_task now task t = Ok (r, t') →
    step ByServer (mk_world t l ws cs p) (mk_world t' l ws (delete id cs) p)
| step_client_update t l ws cs p id input :
    accepts "updates" id t = Ok tt →
    step ByClient (mk_world t l ws cs p) (mk_world t l ws cs ((id, client_update input) :: p))
| step_client_cancel t l ws cs p id :
    accepts "cancellation" id t = Ok tt →
    step ByClient (mk_world t l ws cs p)
      (mk_world t (alter (λ _, true) id l) ws cs ((id, cancel_update) :: p))
| step_client_write t l ws cs p1 p2 id now u :
    step ByClient (mk_world t l ws cs (p1 ++ (id, u) :: p2))
      (mk_world (update_durable_task now id u t) l ws cs (p1 ++ p2))
| step_client_store_error t l ws cs p1 p2 id u :
    step ByFailure (mk_world t l ws cs (p1 ++ (id, u) :: p2)) (mk_world t l ws cs (p1 ++ p2)).

Definition any_step (w w' : World) : Prop := ∃ actor, step actor w w'.
Definition server_step (w w' : World) : Prop := step ByServer w w'.
Definition reachable (t0 : Table) (w : World) : Prop := rtc any_step (start t0) w.
End system.

(** ** Lemmas: the table *)

Section invariant.
Context (requests_to_rmcp : list Json → result string Json).
Abbreviation any_step := (any_step requests_to_rmcp).
Abbreviation server_step := (server_step requests_to_rmcp).
Abbreviation reachable := (reachable requests_to_rmcp).
Abbreviation outcome_update := (outcome_update requests_to_rmcp).

Lemma update_lookup now id u (t : Table) id' :
  update_durable_task now id u t !! id' =
  if decide (id = id') then apply_update now u <$> t !! id' else t !! id'.
Proof.
  unfold update_durable_task. destruct (decide _) as [->|Hne].
  - by rewrite lookup_alter_eq.
  - by rewrite lookup_alter_ne.
Qed.

Lemma maybe_update_lookup now id u (t : Table) id' :
  maybe_update now id u t !! id' =
  if decide (id = id')
  then match u with Some u => apply_update now u <$> t !! id' | None => t !! id' end
  else t !! id'.
Proof. destruct u as [u|]; simpl; [apply update_lookup|]. by destruct (decide _). Qed.

(** What a client may write. *)
Definition client_write (u : DurableTaskUpdate) : Prop :=
  u = cancel_update ∨ ∃ input, u = client_update input.

(** What the store says about a task, in every interleaving. *)
Record record_ok (ws : gmap string Worker) (id : string) (r : DurableTaskRecord) : Prop := {
  ro_id : task_id r = id;
  ro_result v : task_result r = Some v →
    ws !! id = Some (Done (ToolOk v)) ∧ is_input_required_tool_result v = false;
  ro_error e : task_error r = Some e →
    ∃ message, ws !! id = Some (Done (ToolErr message)) ∧ e = error_json message;
  ro_completed : status r = Completed → is_Some (task_result r);
  ro_failed : status r = Failed → is_Some (task_error r);
  ro_cancelled : status r = Cancelled → cancel_requested r = true;
  ro_input : status r = InputRequired →
    ∃ v, ws !! id = Some (Done (ToolOk v)) ∧ is_input_required_tool_result v = true
}.

(** The records that were there at the start are not covered: their tasks ran elsewhere. *)
Record world_ok (t0 : Table) (w : World) : Prop := {
  wo_records id r : t0 !! id = None → table w !! id = Some r → record_ok (workers w) id r;
  wo_pending id u : (id, u) ∈ pending w → client_write u
}.

Lemma new_record_ok ws id now task :
  nt_task_id task = id → nt_status task = Working → record_ok ws id (new_record now task).
Proof. intros H1 H2. by split; simpl; rewrite ?H2. Qed.

Lemma create_ok (P : string → Prop) ws id now task r t t' :
  nt_task_id task = id → nt_status task = Working → create_durable_task now task t = Ok (r, t') →
  (∀ i r, P i → t !! i = Some r → record_ok ws i r) →
  ∀ i r, P i → t' !! i = Some r → record_ok ws i r.
Proof.
  intros Hid Hst Hcr Hrec i r' HP. unfold create_durable_task in Hcr.
  destruct (t !! nt_task_id task); [done|]. injection Hcr as <- <-. rewrite Hid.
  destruct (decide (i = id)) as [->|Hne].
  - rewrite lookup_insert_eq. intros [= <-]. by apply new_record_ok.
  - rewrite lookup_insert_ne by done. by apply Hrec.
Qed.

(** Progress and client writes keep a record sound. *)
Lemma working_update_ok ws id r now u :
  record_ok ws id r → u_status u = Some Working → u_result u = None → u_error u = None →
  record_ok ws id (apply_update now u r).
Proof.
  intros [H1 H2 H3 H4 H5 H6 H7] Hs Hr He. split; simpl; rewrite ?Hs, ?Hr, ?He; simpl; try done.
Qed.

Lemma cancel_update_ok ws id r now :
  record_ok ws id r → record_ok ws id (apply_update now cancel_update r).
Proof. intros [H1 H2 H3 H4 H5 H6 H7]. by split. Qed.

Lemma client_write_ok ws id r now u :
  client_write u → record_ok ws id r → record_ok ws id (apply_update now u r).
Proof.
  intros [->|[input ->]] H; [by apply cancel_update_ok|]. by apply working_update_ok.
Qed.

(** A worker that is not done has recorded nothing: its progress does not disturb records. *)
Lemma worker_moves ws id wk wk' id' r :
  ws !! id = wk → (∀ res, wk ≠ Some (Done res)) →
  record_ok ws id' r → record_ok (<[id := wk']> ws) id' r.
Proof.
  intros Hw Hd [H1 H2 H3 H4 H5 H6 H7].
  assert (∀ res, ws !! id' = Some (Done res) → (<[id := wk']> ws) !! id' = Some (Done res)) as Hk.
  { intros res Hres. rewrite lookup_insert_ne; [done|]. intros ->. apply (Hd res). congruence. }
  split; try done.
  - intros v Hv. destruct (H2 v Hv). auto.
  - intros e He. destruct (H3 e He) as (m & ? & ?). eauto.
  - intros Hi. destruct (H7 Hi) as (v & ? & ?). eauto.
Qed.

(** The outcome of a worker on its own record. *)
Lemma outcome_ok ws id r now res current :
  ws !! id = Some (Decided res current) → record_ok ws id r →
  record_ok (<[id := Done res]> ws) id
    (match outcome_update res current with Some u => apply_update now u r | None => r end).
Proof.
  intros Hw Hr.
  pose proof (worker_moves ws id _ (Done res) id r Hw (λ _, ltac:(done)) Hr) as Hr'.
  unfold Tasks.outcome_update. destruct current as [task|]; [|done].
  destruct (bool_decide _); [done|].
  destruct Hr' as [H1 H2 H3 H4 H5 H6 H7].
  destruct res as [v|message].
  - destruct (is_input_required_tool_result v) eqn:Ei.
    + destruct (persisted_input_requests_from_atlas_tool_result _ _); [|by split].
      split; simpl; try done. intros _. exists v. by rewrite lookup_insert_eq.
    + split; simpl; try done. intros v' [= <-]. by rewrite lookup_insert_eq.
  - split; simpl; try done. intros e [= <-]. exists message. by rewrite lookup_insert_eq.
Qed.

Lemma step_ok t0 actor w w' :
  step requests_to_rmcp actor w w' → world_ok t0 w → world_ok t0 w'.
Proof.
  intros Hstep [Hrec Hpen].
  assert (∀ id now u id' r', t0 !! id' = None →
    (∀ r, t0 !! id = None → table w !! id = Some r → record_ok (workers w) id (apply_update now u r)) →
    update_durable_task now id u (table w) !! id' = Some r' → record_ok (workers w) id' r') as Hupd.
  { intros id now u id' r' H0 Hu. rewrite update_lookup.
    destruct (decide _) as [->|]; [|by apply Hrec].
    destruct (table w !! id') as [r|] eqn:E; [|done]. intros [= <-]. by apply Hu. }
  destruct Hstep as [t l ws cs p id now task r t' Hw Hid Hst Hcr|t l ws cs p id Hw
    |t l ws cs p id Hw|t l ws cs p id Hw
    |t l ws cs p id now message percentage Hw|t l ws cs p id res Hw|t l ws cs p id res Hw
    |t l ws cs p id now res current Hw|t l ws cs p id res current Hw|t l ws cs p id res Hc Hw
    |t l ws cs p id wk Hc Hw Hd|t l ws cs p id now task r t' Hc Hid Hst Hcr
    |t l ws cs p id input Ha|t l ws cs p id Ha|t l ws cs p1 p2 id now u|t l ws cs p1 p2 id u];
    simpl in *; (split; simpl; [intros id' r' H0|intros id' u']).
  - intros Hr'. apply worker_moves with None; [done|done|].
    by apply (create_ok (λ i, t0 !! i = None) ws id now task r t t' Hid Hst Hcr Hrec).
  - apply Hpen.
  - intros Hr. apply worker_moves with (Some Starting); [done|done|]. by apply Hrec.
  - apply Hpen.
  - intros Hr. apply worker_moves with (Some Starting); [done|done|]. by apply Hrec.
  - apply Hpen.
  - intros Hr. apply worker_moves with None; [done|done|]. by apply Hrec.
  - apply Hpen.
  - apply Hupd; [done|]. intros r Hi Hr. apply working_update_ok; [by apply Hrec|done..].
  - apply Hpen.
  - intros Hr. apply worker_moves with (Some Running); [done|done|]. by apply Hrec.
  - apply Hpen.
  - intros Hr. apply worker_moves with (Some (Returned res)); [done|done|]. by apply Hrec.
  - apply Hpen.
  - rewrite maybe_update_lookup. destruct (decide _) as [->|Hne].
    + intros Hr. assert (∃ r, t !! id' = Some r ∧ r' = match outcome_update res current with
        | Some u => apply_update now u r | None => r end) as (r & Hr0 & ->).
      { destruct (outcome_update res current), (t !! id') as [r|]; simplify_eq/=; eauto. }
      apply (outcome_ok ws id' r now res current Hw). by apply Hrec.
    + intros Hr. apply worker_moves with (Some (Decided res current)); [done|done|]. by apply Hrec.
  - apply Hpen.
  - intros Hr. destruct Hw as [Hw|Hw];
      (eapply worker_moves; [exact Hw|done|]); by apply Hrec.
  - apply Hpen.
  - by apply Hrec.
  - apply Hpen.
  - by apply Hrec.
  - apply Hpen.
  - by apply (create_ok (λ i, t0 !! i = None) ws id now task r t t' Hid Hst Hcr Hrec).
  - apply Hpen.
  - by apply Hrec.
  - intros [[= -> ->]|Hu]%elem_of_cons; [right; eauto|by apply (Hpen id')].
  - by apply Hrec.
  - intros [[= -> ->]|Hu]%elem_of_cons; [by left|by apply (Hpen id')].
  - apply Hupd; [done|]. intros r Hi Hr. apply client_write_ok; [|by apply Hrec].
    apply (Hpen id). apply elem_of_app. right. constructor.
  - intros Hu. apply (Hpen id'). rewrite elem_of_app in *. rewrite elem_of_cons. tauto.
  - by apply Hrec.
  - intros Hu. apply (Hpen id'). rewrite elem_of_app in *. rewrite elem_of_cons. tauto.
Qed.

Lemma reachable_ok t0 w : reachable t0 w → world_ok t0 w.
Proof.
  intros Hr. unfold Tasks.reachable in Hr.
  assert (∀ w0, rtc any_step w0 w → world_ok t0 w0 → world_ok t0 w) as H.
  { intros w0. induction 1 as [|w1 w2 w3 [actor Hs] _ IH]; [done|].
    intros Hok. by apply IH, (step_ok t0 actor w1). }
  apply (H (start t0) Hr). split; simpl.
  - intros id r H0. by rewrite H0.
  - by intros id u ?%elem_of_nil.
Qed.
End invariant.

(** ** Properties of the task machine *)

Section properties.
Context (requests_to_rmcp : list Json → result string Json).
Abbreviation any_step := (any_step requests_to_rmcp).
Abbreviation server_step := (server_step requests_to_rmcp).
Abbreviation reachable := (reachable requests_to_rmcp).

(** C7. In every interleaving of workers, callers and clients of one server process, store
    failures included, what the record of a task says is true, when the store had no record
    of that id as the process started: a recorded result or error is what the task's tool
    returned, so no task has both; a completed task has a result, a failed one an error, a
    cancelled one its cancel request, and one that waits for input has a worker that ended
    by asking for it. *)
Theorem task_records_sound (t0 : Table) (w : World) (id : string) (r : DurableTaskRecord) :
  reachable t0 w → t0 !! id = None → table w !! id = Some r →
  (∀ v, task_result r = Some v →
    workers w !! id = Some (Done (ToolOk v)) ∧ task_error r = None) ∧
  (∀ e, task_error r = Some e →
    ∃ message, workers w !! id = Some (Done (ToolErr message)) ∧ e = error_json message) ∧
  match status r with
  | Completed => is_Some (task_result r)
  | Failed => is_Some (task_error r)
  | Cancelled => cancel_requested r = true
  | InputRequired =>
      ∃ v, workers w !! id = Some (Done (ToolOk v)) ∧ is_input_required_tool_result v = true
  | Working => True
  end.
Proof.
  intros Hw H0 Hr. destruct (wo_records _ _ (reachable_ok _ t0 w Hw) id r H0 Hr) as [H1 H2 H3 H4 H5 H6 H7].
  split_and!.
  - intros v Hv. destruct (H2 v Hv) as [Hd _]. split; [done|].
    destruct (task_error r) as [e|]; [|done]. destruct (H3 e eq_refl) as (m & Hm & _). congruence.
  - done.
  - destruct (status r); auto.
Qed.

(** What the record of a finished worker says. *)
Definition settled (res : ToolResult) (r : DurableTaskRecord) : Prop :=
  match res with
  | ToolOk v =>
      if is_input_required_tool_result v then
        match persisted_input_requests_from_atlas_tool_result requests_to_rmcp v with
        | Ok requests => status r = InputRequired
        | Err _ => status r = Working
        end
      else status r = Completed ∧ task_result r = Some v
  | ToolErr message => status r = Failed ∧ task_error r = Some (error_json message)
  end.

Definition in_progress (id : string) (w : World) : Prop :=
  ∃ r wk, table w !! id = Some r ∧ workers w !! id = Some wk ∧ callers w !! id = None ∧
    (∀ u, (id, u) ∉ pending w) ∧
    match wk with
    | Starting | Running | Returned _ => status r = Working
    | NotSpawned => False
    | Decided res current => status r = Working ∧ ∃ task, current = Some task ∧ status task = Working
    | Done res => settled res r
    end.

Lemma outcome_settles now res task r :
  status task = Working → status r = Working →
  settled res (match outcome_update requests_to_rmcp res (Some task) with
               | Some u => apply_update now u r | None => r end).
Proof.
  intros Ht Hr. unfold outcome_update, settled. rewrite bool_decide_false by congruence.
  destruct res as [v|m]; [|done].
  destruct (is_input_required_tool_result v); [|done].
  by destruct (persisted_input_requests_from_atlas_tool_result _ _).
Qed.

Lemma create_other now task r t t' id :
  create_durable_task now task t = Ok (r, t') → nt_task_id task ≠ id → t' !! id = t !! id.
Proof.
  unfold create_durable_task. destruct (t !! nt_task_id task); [done|].
  intros [= <- <-] Hne. by rewrite lookup_insert_ne.
Qed.

Lemma server_step_in_progress id w w' :
  server_step w w' → in_progress id w → in_progress id w'.
Proof.
  intros Hstep (r & wk & Hr & Hwk & Hc & Hp & Hst). unfold Tasks.server_step in Hstep.
  inversion Hstep as [t l ws cs p i now task r' t' Hw Hid Hs Hcr|t l ws cs p i Hw| |t l ws cs p i Hw
    |t l ws cs p i now message percentage Hw|t l ws cs p i res Hw|t l ws cs p i res Hw
    |t l ws cs p i now res current Hw| |t l ws cs p i res Hcs Hw
    |t l ws cs p i wk' Hcs Hw Hd|t l ws cs p i now task r' t' Hcs Hid Hs Hcr| | | |]; subst;
    simpl in *; unfold in_progress; simpl.
  - assert (nt_task_id task ≠ id) by congruence.
    exists r, wk. rewrite (create_other _ _ _ _ _ id Hcr), lookup_insert_ne by done. auto.
  - destruct (decide (i = id)) as [->|Hne].
    + exists r, Running. rewrite lookup_insert_eq. split_and!; try done.
      assert (wk = Starting) as -> by congruence. done.
    + exists r, wk. by rewrite lookup_insert_ne.
  - assert (i ≠ id) by congruence. exists r, wk. rewrite !lookup_insert_ne by done. auto.
  - rewrite update_lookup. destruct (decide _) as [->|Hne]; [|by exists r, wk].
    rewrite Hr. simpl. exists (apply_update now (progress_update message percentage) r), wk.
    split_and!; try done. assert (wk = Running) as -> by congruence. done.
  - destruct (decide (i = id)) as [->|Hne].
    + exists r, (Returned res). rewrite lookup_insert_eq. split_and!; try done.
      assert (wk = Running) as -> by congruence. done.
    + exists r, wk. by rewrite lookup_insert_ne.
  - destruct (decide (i = id)) as [->|Hne].
    + exists r, (Decided res (Some r)). rewrite lookup_insert_eq, Hr.
      assert (wk = Returned res) as -> by congruence. split_and!; try done. by exists r.
    + exists r, wk. by rewrite lookup_insert_ne.
  - rewrite maybe_update_lookup. destruct (decide _) as [->|Hne].
    + assert (wk = Decided res current) as -> by congruence.
      destruct Hst as (Hst & task & -> & Htask).
      pose proof (outcome_settles now res task r Htask Hst) as Hsettled.
      exists (match outcome_update requests_to_rmcp res (Some task) with
              | Some u => apply_update now u r | None => r end), (Done res).
      rewrite lookup_insert_eq, Hr. split_and!; [|done..].
      by destruct (outcome_update _ _ _).
    + exists r, wk. by rewrite lookup_insert_ne.
  - assert (i ≠ id) by congruence. exists r, wk. by rewrite lookup_delete_ne.
  - assert (i ≠ id) by congruence. exists r, wk. by rewrite lookup_insert_ne.
  - assert (nt_task_id task ≠ id) by congruence.
    exists r, wk. rewrite (create_other _ _ _ _ _ id Hcr), lookup_delete_ne by done. auto.
Qed.

Lemma server_steps_in_progress id w w' :
  rtc server_step w w' → in_progress id w → in_progress id w'.
Proof. induction 1; eauto using server_step_in_progress. Qed.

(** Every worker can end. *)
Lemma worker_ends id w : in_progress id w →
  ∃ w' res, rtc server_step w w' ∧ workers w' !! id = Some (Done res).
Proof.
  intros (r & wk & Hr & Hwk & _ & _ & Hst). destruct w as [t l ws cs p]. simpl in *.
  assert (∀ l ws res current, ws !! id = Some (Decided res current) →
    ∃ w', rtc server_step (mk_world t l ws cs p) w' ∧ workers w' !! id = Some (Done res)) as H1.
  { intros l1 ws1 res current Hd. eexists. split.
    - apply rtc_once. unfold Tasks.server_step. by eapply (step_record _ _ _ _ _ _ _ "").
    - simpl. apply lookup_insert_eq. }
  assert (∀ l ws res, ws !! id = Some (Returned res) →
    ∃ w', rtc server_step (mk_world t l ws cs p) w' ∧ workers w' !! id = Some (Done res)) as H2.
  { intros l1 ws1 res Hd.
    destruct (H1 l1 (<[id := Decided res (t !! id)]> ws1) res (t !! id)) as (w' & Hw' & Hdone);
      [apply lookup_insert_eq|].
    exists w'. split; [|done]. eapply rtc_l; [|exact Hw']. by apply step_check. }
  assert (∀ l ws, ws !! id = Some Running →
    ∃ w', rtc server_step (mk_world t l ws cs p) w' ∧ workers w' !! id = Some (Done (ToolErr ""))) as H3.
  { intros l1 ws1 Hd.
    destruct (H2 l1 (<[id := Returned (ToolErr "")]> ws1) (ToolErr "")) as (w' & Hw' & Hdone);
      [apply lookup_insert_eq|].
    exists w'. split; [|done]. eapply rtc_l; [|exact Hw']. by apply step_return. }
  destruct wk as [| | |res|res current|res].
  - destruct (H3 (<[id := false]> l) (<[id := Running]> ws)) as (w' & Hw' & Hdone);
      [apply lookup_insert_eq|].
    exists w', (ToolErr ""). split; [|done]. eapply rtc_l; [|exact Hw']. by apply step_spawn_explicit.
  - done.
  - destruct (H3 l ws Hwk) as (w' & ? & ?). eauto.
  - destruct (H2 l ws res Hwk) as (w' & ? & ?). eauto.
  - destruct (H1 l ws res current Hwk) as (w' & ? & ?). eauto.
  - eexists _, res. split; [constructor|done].
Qed.

(** C25. A call that runs as a task from the start settles while only the server acts, that
    is when no client call and no failed spawn or store access comes between: its record
    exists and says working until the worker ends, and when the worker has ended it says
    what the tool returned, except that a result that asks for input with malformed requests
    leaves it working; and from every such state the server can run the worker to its end. *)
Theorem explicit_task_settles t l ws cs p id now task (w : World) :
  nt_task_id task = id → nt_status task = Working → cs !! id = None → (∀ u, (id, u) ∉ p) →
  rtc server_step (mk_world (<[id := new_record now task]> t) l (<[id := Starting]> ws) cs p) w →
  (∃ r wk, table w !! id = Some r ∧ workers w !! id = Some wk ∧
    match wk with
    | Done res => settled res r
    | NotSpawned => False
    | _ => status r = Working
    end) ∧
  ∃ w' res, rtc server_step w w' ∧ workers w' !! id = Some (Done res).
Proof.
  intros Hid Hst Hc Hp Hsteps.
  assert (in_progress id w) as H.
  { apply (server_steps_in_progress id _ _ Hsteps).
    exists (new_record now task), Starting. simpl. rewrite !lookup_insert_eq. auto. }
  split; [|by apply worker_ends]. destruct H as (r & wk & Hr & Hwk & _ & _ & Hm).
  exists r, wk. split_and!; [done|done|]. destruct wk; try done. by destruct Hm.
Qed.

(** Without a worker, a waiting caller or a client nothing writes a record. *)
Lemma server_step_final id w w' res :
  server_step w w' → workers w !! id = Some (Done res) → callers w !! id = None →
  table w' !! id = table w !! id ∧ workers w' !! id = Some (Done res) ∧ callers w' !! id = None.
Proof.
  intros Hstep Hwk Hc. unfold Tasks.server_step in Hstep.
  inversion Hstep as [t l ws cs p i now task r' t' Hw Hid Hs Hcr|t l ws cs p i Hw| |t l ws cs p i Hw
    |t l ws cs p i now message percentage Hw|t l ws cs p i res' Hw|t l ws cs p i res' Hw
    |t l ws cs p i now res' current Hw| |t l ws cs p i res' Hcs Hw
    |t l ws cs p i wk' Hcs Hw Hd|t l ws cs p i now task r' t' Hcs Hid Hs Hcr| | | |]; subst;
    simpl in *; try (assert (i ≠ id) by congruence); try (assert (nt_task_id task ≠ id) by congruence);
    rewrite ?update_lookup, ?maybe_update_lookup, ?decide_False, ?lookup_insert_ne, ?lookup_delete_ne
      by done; auto.
  all: by rewrite (create_other _ _ _ _ _ id Hcr).
Qed.

Lemma server_steps_final id w w' res :
  rtc server_step w w' → workers w !! id = Some (Done res) → callers w !! id = None →
  table w' !! id = table w !! id.
Proof.
  induction 1 as [|w1 w2 w3 Hs _ IH]; [done|]. intros Hw Hc.
  destruct (server_step_final id w1 w2 res Hs Hw Hc) as (<- & H2 & H3). by apply IH.
Qed.

(** The race of a deferred call: when the call's deadline passes before its worker ends,
    but its record is created after, the record says working for ever: the tool's result is
    not recorded, and nothing the server does changes the record again. *)
Theorem deferred_result_lost (id request name now : string) (v : Json) :
  ∃ w r, reachable ∅ w ∧ workers w !! id = Some (Done (ToolOk v)) ∧
    table w !! id = Some r ∧ status r = Working ∧ task_result r = None ∧
    ∀ w', rtc server_step w w' → table w' !! id = Some r.
Proof.
  set (task := task_record_of_call id request name None None None).
  set (ws := <[id := Done (ToolOk v)]> (<[id := Decided (ToolOk v) None]>
    (<[id := Returned (ToolOk v)]> (<[id := Running]> (∅ : gmap string Worker))))).
  set (cs := delete id (<[id := TimedOut]> (<[id := Waiting]> (∅ : gmap string Caller)))).
  set (w := mk_world (<[id := new_record now task]> ∅) (delete id (<[id := false]> ∅)) ws cs []).
  assert (ws !! id = Some (Done (ToolOk v))) as Hws by (unfold ws; by rewrite lookup_insert_eq).
  assert (cs !! id = None) as Hcs by (unfold cs; by rewrite lookup_delete_eq).
  exists w, (new_record now task). split_and!; [|done|by apply lookup_insert_eq|done|done|].
  - unfold Tasks.reachable, start.
    eapply rtc_l; [exists ByServer; by apply (step_spawn_auto _ _ _ _ _ _ id)|].
    eapply rtc_l; [exists ByServer; eapply (step_caller_timeout _ _ _ _ _ _ id Running);
      by rewrite ?lookup_insert_eq|].
    eapply rtc_l; [exists ByServer; apply (step_return _ _ _ _ _ _ id (ToolOk v));
      by rewrite lookup_insert_eq|].
    eapply rtc_l; [exists ByServer; apply (step_check _ _ _ _ _ _ id (ToolOk v));
      by rewrite lookup_insert_eq|].
    rewrite lookup_empty.
    eapply rtc_l; [exists ByServer; apply (step_record _ _ _ _ _ _ id now (ToolOk v) None);
      by rewrite lookup_insert_eq|].
    apply rtc_once. exists ByServer.
    apply (step_caller_create _ _ _ _ _ _ id now task (new_record now task)); try done.
    by rewrite lookup_insert_eq.
  - intros w' Hsteps. rewrite (server_steps_final _ _ _ _ Hsteps Hws Hcs). apply lookup_insert_eq.
Qed.

(** A cancellation does not last: the progress a running tool reports after the record was
    cancelled sets it back to working, and when the tool ends it is completed, its cancel
    request still set. *)
Theorem cancelled_task_completes (id request name now message : string) (v : Json) :
  is_input_required_tool_result v = false →
  ∃ w1 r1 w2 r2, reachable ∅ w1 ∧ table w1 !! id = Some r1 ∧ status r1 = Cancelled ∧
    rtc server_step w1 w2 ∧ table w2 !! id = Some r2 ∧
    status r2 = Completed ∧ cancel_requested r2 = true.
Proof.
  intros Hv. set (task := task_record_of_call id request name None None None).
  set (r0 := new_record now task). set (r1 := apply_update now cancel_update r0).
  set (rp := apply_update now (progress_update message None) r1).
  set (t1 := update_durable_task now id cancel_update (<[id := r0]> (∅ : Table))).
  set (tp := update_durable_task now id (progress_update message None) t1).
  assert (t1 !! id = Some r1) as Ht1.
  { unfold t1. rewrite update_lookup, decide_True, lookup_insert_eq by done. done. }
  assert (tp !! id = Some rp) as Htp.
  { unfold tp. rewrite update_lookup, decide_True, Ht1 by done. done. }
  set (l := alter (λ _, true) id (<[id := false]> (∅ : Live))).
  set (ws := <[id := Running]> (<[id := Starting]> (∅ : gmap string Worker))).
  exists (mk_world t1 l ws ∅ []), r1.
  eexists _, _. split; [|split; [done|split; [done|split]]].
  - unfold Tasks.reachable, start.
    eapply rtc_l; [exists ByServer; by apply (step_create_explicit _ _ _ _ _ _ id now task r0)|].
    eapply rtc_l; [exists ByServer; apply (step_spawn_explicit _ _ _ _ _ _ id);
      by apply lookup_insert_eq|].
    eapply rtc_l; [exists ByClient; apply (step_client_cancel _ _ _ _ _ _ id)|].
    { unfold accepts, task_record. by rewrite lookup_insert_eq. }
    apply rtc_once. exists ByClient. apply (step_client_write _ _ _ _ _ [] [] id now).
  - eapply rtc_l; [apply (step_progress _ _ _ _ _ _ id now message None); by apply lookup_insert_eq|].
    eapply rtc_l; [apply (step_return _ _ _ _ _ _ id (ToolOk v)); by apply lookup_insert_eq|].
    eapply rtc_l; [apply (step_check _ _ _ _ _ _ id (ToolOk v)); by apply lookup_insert_eq|].
    fold tp. rewrite Htp. apply rtc_once.
    apply (step_record _ _ _ _ _ _ id now (ToolOk v) (Some rp)). by apply lookup_insert_eq.
  - cbn [table].
    assert (outcome_update requests_to_rmcp (ToolOk v) (Some rp) =
      Some (mk_update (Some Completed) (Some "completed") None (Some v) None None None None)) as ->.
    { unfold outcome_update. rewrite bool_decide_false by done. by rewrite Hv. }
    cbn [maybe_update]. rewrite update_lookup, decide_True, Htp by done. done.
Qed.

(** The ids restart with the process while the records stay: a deferred call whose id an
    earlier task had writes its outcome onto that task's record. A task that had completed
    turns failed, its result still there, although the new call returned in time and was
    never a task. *)
Theorem old_record_overwritten (t0 : Table) (id : string) r0 (message now : string) :
  t0 !! id = Some r0 → status r0 = Completed →
  ∃ w r, reachable t0 w ∧ callers w !! id = None ∧ table w !! id = Some r ∧
    created_at r = created_at r0 ∧ status r = Failed ∧ task_result r = task_result r0 ∧
    task_error r = Some (error_json message).
Proof.
  intros Hr0 Hst. set (res := ToolErr message). eexists _, _. split.
  - unfold Tasks.reachable, start.
    eapply rtc_l; [exists ByServer; by apply (step_spawn_auto _ _ _ _ _ _ id)|].
    eapply rtc_l; [exists ByServer; apply (step_return _ _ _ _ _ _ id res);
      by rewrite lookup_insert_eq|].
    eapply rtc_l; [exists ByServer; apply (step_check _ _ _ _ _ _ id res);
      by rewrite lookup_insert_eq|].
    rewrite Hr0.
    eapply rtc_l; [exists ByServer; apply (step_record _ _ _ _ _ _ id now res (Some r0));
      by rewrite lookup_insert_eq|].
    apply rtc_once. exists ByServer.
    apply (step_caller_result _ _ _ _ _ _ id res); by rewrite lookup_insert_eq.
  - cbn [callers table]. split; [by rewrite lookup_delete_eq|].
    assert (outcome_update requests_to_rmcp res (Some r0) =
      Some (mk_update (Some Failed) (Some message) None None (Some (error_json message))
        None None None)) as ->.
    { unfold outcome_update. by rewrite bool_decide_false by congruence. }
    cbn [maybe_update]. by rewrite update_lookup, decide_True, Hr0.
Qed.

(** Answering a task that waits for input leaves it working without a worker. *)
Lemma answered_input_never_resumes t0 w id r now input :
  reachable t0 w → t0 !! id = None → table w !! id = Some r → status r = InputRequired → callers w !! id = None →
  ∀ w', rtc server_step
    (mk_world (update_durable_task now id (client_update input) (table w)) (live w) (workers w)
       (callers w) (pending w)) w' →
    status <$> table w' !! id = Some Working.
Proof.
  intros Hw H0 Hr Hst Hc w' Hsteps.
  destruct (ro_input _ _ _ (wo_records _ _ (reachable_ok _ t0 w Hw) id r H0 Hr) Hst) as (v & Hd & _).
  rewrite (server_steps_final id _ _ _ Hsteps Hd Hc). simpl.
  by rewrite update_lookup, decide_True, Hr.
Qed.
(** The check of a client call, then its write. *)
Lemma accepts_spec what id (t : Table) :
  match accepts what id t with
  | Ok _ => ∃ r, t !! id = Some r ∧ is_terminal (status r) = false
  | Err e =>
      match t !! id with
      | None => api_kind e = KindNotFound
      | Some r => is_terminal (status r) = true ∧ api_kind e = KindInvalidParams
      end
  end.
Proof.
  unfold accepts, task_record. destruct (t !! id) as [r|]; simpl; [|done].
  destruct (is_terminal (status r)) eqn:E; simpl; eauto.
Qed.

Lemma write_after_check id now u (t : Table) r :
  t !! id = Some r →
  task_record id (update_durable_task now id u t) = Ok (apply_update now u r).
Proof. intros Hr. unfold task_record. by rewrite update_lookup, decide_True, Hr. Qed.

(** The two client calls, run without interruption, are steps of the machine: a cancel
    request writes the cancelled record and raises the flag of a live worker, an update
    writes the client's input; a task that is unknown or has ended is refused with an error
    of its own and nothing changes. *)
Theorem client_calls_refine (w : World) (now id : string) (input : Json) :
  match tasks_cancel now id (live w) (table w) with
  | Ok (r, l', t') =>
      (∃ r0, table w !! id = Some r0 ∧ is_terminal (status r0) = false ∧
        r = apply_update now cancel_update r0) ∧
      l' !! id = (λ _, true) <$> live w !! id ∧
      rtc any_step w (mk_world t' l' (workers w) (callers w) (pending w))
  | Err e =>
      match table w !! id with
      | None => api_kind e = KindNotFound
      | Some r0 => is_terminal (status r0) = true ∧ api_kind e = KindInvalidParams
      end
  end ∧
  match tasks_update now (Some (JObject [("taskId", JString id); ("input", input)])) (table w) with
  | Ok (r, t') =>
      (∃ r0, table w !! id = Some r0 ∧ is_terminal (status r0) = false ∧
        r = apply_update now (client_update input) r0) ∧
      rtc any_step w (mk_world t' (live w) (workers w) (callers w) (pending w))
  | Err e =>
      match table w !! id with
      | None => api_kind e = KindNotFound
      | Some r0 => is_terminal (status r0) = true ∧ api_kind e = KindInvalidParams
      end
  end.
Proof.
  destruct w as [t l ws cs p]. simpl. split.
  - unfold tasks_cancel. pose proof (accepts_spec "cancellation" id t) as Ha.
    destruct (accepts "cancellation" id t) as [[]|e] eqn:E; simpl; [|done].
    destruct Ha as (r & Hr & Hst). rewrite (write_after_check id now _ t r Hr). simpl.
    split_and!; [by exists r|by rewrite lookup_alter_eq|].
    eapply rtc_l; [exists ByClient; by apply (step_client_cancel _ _ _ _ _ _ id)|].
    apply rtc_once. exists ByClient. apply (step_client_write _ _ _ _ _ [] p id now).
  - unfold tasks_update, required_task_id, client_input. simpl.
    pose proof (accepts_spec "updates" id t) as Ha.
    destruct (accepts "updates" id t) as [[]|e] eqn:E; simpl; [|done].
    destruct Ha as (r & Hr & Hst). rewrite (write_after_check id now _ t r Hr). simpl.
    split; [by exists r|].
    eapply rtc_l; [exists ByClient; by apply (step_client_update _ _ _ _ _ _ id input)|].
    apply rtc_once. exists ByClient. apply (step_client_write _ _ _ _ _ [] p id now).
Qed.
End properties.

(** ** Listing *)

Section listing_properties.
Context (encode_cursor : DurableTaskListCursor → string)
  (decode_cursor : string → option DurableTaskListCursor).

#[local] Instance key_cmp_total : TotalCmp key_cmp.
Proof. unfold key_cmp. apply _. Qed.

Lemma key_cmp_eq k1 k2 : key_cmp k1 k2 = Eq → k1 = k2.
Proof.
  destruct k1 as [[a1 b1] c1], k2 as [[a2 b2] c2]. unfold key_cmp, cmp_lex, cmp_on. simpl.
  destruct (String.compare a1 a2) eqn:Ea; try done. simpl.
  destruct (String.compare b1 b2) eqn:Eb; try done. simpl. intros Ec.
  apply String.compare_eq_iff in Ea, Eb, Ec. by subst.
Qed.

Definition cursor_of (r : DurableTaskRecord) : DurableTaskListCursor :=
  mk_cursor (updated_at r) (created_at r) (task_id r).

(** The order of the rows, on the records. *)
Definition task_cmp : DurableTaskRecord → DurableTaskRecord → comparison :=
  cmp_rev (cmp_on row_key key_cmp).

Lemma behind_row_cmp x y : behind (cursor_of x) (row_of y) = true ↔ task_cmp x y = Lt.
Proof.
  unfold behind, task_cmp, cmp_rev, key_cmp, cmp_lex, cmp_on, row_key, cursor_of. unfold cmp_on. simpl.
  rewrite (cmp_opp String.compare (updated_at x)), (cmp_opp String.compare (created_at x)),
    (cmp_opp String.compare (task_id x)).
  assert (∀ a b, String.eqb a b = match String.compare a b with Eq => true | _ => false end) as He.
  { intros a b. destruct (String.eqb_spec a b) as [->|Hne]; [by rewrite (cmp_refl String.compare)|].
    destruct (String.compare a b) eqn:E; try done. by apply String.compare_eq_iff in E. }
  rewrite !He.
  rewrite (cmp_opp String.compare (updated_at x)), (cmp_opp String.compare (created_at x)).
  destruct (String.compare (updated_at x) _), (String.compare (created_at x) _),
    (String.compare (task_id x) _); simpl; done.
Qed.

Lemma behind_split (l1 l2 : list DurableTaskRecord) x :
  StronglySorted (λ x y, task_cmp x y = Lt) (l1 ++ x :: l2) →
  filter (λ y, behind (cursor_of x) (row_of y)) (l1 ++ x :: l2) = l2.
Proof.
  assert (∀ y z, task_cmp y z = Lt → task_cmp z y ≠ Lt) as Hasym.
  { intros y z H. unfold task_cmp, cmp_rev, cmp_on in *.
    rewrite (cmp_opp key_cmp (row_key y) (row_key z)). by destruct (key_cmp _ _). }
  induction l1 as [|y l1 IH]; simpl.
  - intros [_ Hx]%StronglySorted_inv. rewrite filter_cons.
    destruct (decide _) as [Hb|_].
    { apply Is_true_true, behind_row_cmp in Hb. by destruct (Hasym x x Hb). }
    rewrite Forall_forall in Hx. induction l2 as [|z l2 IH]; [done|]. rewrite filter_cons.
    rewrite decide_True by (apply Is_true_true, behind_row_cmp, Hx; constructor). f_equal.
    apply IH. intros u Hu. apply Hx. by constructor.
  - intros [Hs Hy]%StronglySorted_inv. rewrite filter_cons, decide_False, IH; [done|done|].
    intros Hb%Is_true_true%behind_row_cmp. rewrite Forall_forall in Hy.
    apply (Hasym y x); [|done]. apply Hy, elem_of_app. right. constructor.
Qed.

Context (t : Table) (limit : nat).
Context (Hcodec : ∀ c, decode_cursor (encode_cursor c) = Some c).

Definition all_rows : list DurableTaskRecord := sort_by task_cmp (map snd (map_to_list t)).

Context (Hstrict : StronglySorted (λ x y, task_cmp x y = Lt) all_rows).

Lemma sort_rows (l : list DurableTaskRecord) :
  sort_by row_cmp (map row_of l) = map row_of (sort_by task_cmp l).
Proof.
  induction l as [|x l IH]; [done|]. simpl. rewrite IH. clear IH.
  induction (sort_by task_cmp l) as [|y l' IH]; [done|]. simpl.
  change (leb_of row_cmp (row_of x) (row_of y)) with (leb_of task_cmp x y).
  destruct (leb_of task_cmp x y); [done|]. simpl. by rewrite IH.
Qed.

Lemma table_rows_map : table_rows t = map row_of (map snd (map_to_list t)).
Proof. unfold table_rows. by rewrite map_map. Qed.

Lemma rows_behind_none : rows_behind None (table_rows t) = map row_of all_rows.
Proof. unfold rows_behind. rewrite table_rows_map. apply sort_rows. Qed.

Lemma filter_map_rows (p : Row → bool) (l : list DurableTaskRecord) :
  filter p (map row_of l) = map row_of (filter (λ y, p (row_of y)) l).
Proof.
  induction l as [|x l IH]; [done|]. cbn [map]. rewrite !filter_cons, IH.
  by case_decide.
Qed.

Lemma rows_behind_some c :
  rows_behind (Some c) (table_rows t) = map row_of (filter (λ y, behind c (row_of y)) all_rows).
Proof.
  unfold rows_behind. rewrite table_rows_map, filter_map_rows, sort_rows. f_equal.
  apply (sort_by_filter task_cmp).
Qed.

(** A page of rows that all parse. *)
Lemma page_of cursor l :
  match cursor with
  | None => rows_behind None (table_rows t) = map row_of l
  | Some s => ∃ c, decode_cursor s = Some c ∧ rows_behind (Some c) (table_rows t) = map row_of l
  end →
  list_durable_tasks encode_cursor decode_cursor cursor limit (table_rows t) =
  let n := clamp 1 100 limit in
  if (n <? length l)%nat
  then Ok (mk_page (take n l) (encode_durable_task_list_cursor encode_cursor <$> last (take n l)))
  else Ok (mk_page l None).
Proof.
  intros Hl. unfold list_durable_tasks. set (n := clamp 1 100 limit). cbv zeta.
  assert (omap row_task (take (n + 1) (map row_of l)) = take (n + 1) l) as Ht.
  { rewrite firstn_map. induction (take (n + 1) l) as [|x l' IH]; [done|].
    change (x :: omap row_task (map row_of l') = x :: l'). by rewrite IH. }
  assert (∀ rows, rows = map row_of l →
    (if (n <? length (omap row_task (take (n + 1) rows)))%nat
     then Ok (mk_page (removelast (omap row_task (take (n + 1) rows)))
                (encode_durable_task_list_cursor encode_cursor <$>
                 last (removelast (omap row_task (take (n + 1) rows)))))
     else Ok (mk_page (omap row_task (take (n + 1) rows)) None) : result StoreError _) =
    if (n <? length l)%nat
    then Ok (mk_page (take n l) (encode_durable_task_list_cursor encode_cursor <$> last (take n l)))
    else Ok (mk_page l None)) as Hgo.
  { intros rows ->. rewrite Ht, length_take.
    destruct (Nat.ltb_spec n (length l)) as [Hlt|Hge].
    - replace (n + 1)%nat with (S n) by lia. rewrite removelast_firstn by done.
      by destruct (Nat.ltb_spec n (S n `min` length l)); [|lia].
    - destruct (Nat.ltb_spec n ((n + 1) `min` length l)); [lia|]. by rewrite take_ge by lia. }
  destruct cursor as [s|]; cbn [res_bind].
  - destruct Hl as (c & -> & Hl). cbn [res_bind]. by apply Hgo.
  - by apply Hgo.
Qed.

Lemma last_splits (n : nat) (l : list DurableTaskRecord) :
  (1 ≤ n)%nat → (n < length l)%nat →
  ∃ init y, last (take n l) = Some y ∧ take n l = init ++ [y] ∧ l = init ++ y :: drop n l.
Proof.
  intros Hn Hl. destruct (last (take n l)) as [y|] eqn:Hlast.
  - pose proof Hlast as [init Hinit]%last_Some. exists init, y. split_and!; [done|done|].
    rewrite <-(take_drop n l) at 1. by rewrite Hinit, <-app_assoc.
  - apply last_None in Hlast. assert (length (take n l) = 0)%nat as E by by rewrite Hlast.
    rewrite length_take in E. lia.
Qed.

Lemma list_from fuel : ∀ l1 x l2,
  all_rows = l1 ++ x :: l2 → (length l2 < fuel)%nat →
  list_all encode_cursor decode_cursor fuel (Some (encode_cursor (cursor_of x))) limit
    (table_rows t) = Some l2.
Proof.
  assert (1 ≤ clamp 1 100 limit)%nat as Hlim by (unfold clamp; lia).
  induction fuel as [|fuel IH]; intros l1 x l2 Hall Hf; [lia|]. cbn [list_all].
  rewrite (page_of _ l2).
  2:{ exists (cursor_of x). split; [apply Hcodec|]. rewrite rows_behind_some. f_equal.
      pose proof Hstrict as Hs. rewrite Hall in *. by apply behind_split. }
  cbv zeta. set (n := clamp 1 100 limit) in *.
  destruct (Nat.ltb_spec n (length l2)) as [Hlt|Hge]; [|done].
  destruct (last_splits n l2 Hlim Hlt) as (init & y & Hlast & Hinit & Hl2).
  cbn [next_cursor tasks]. rewrite Hlast. cbn [fmap option_fmap option_map].
  change (encode_durable_task_list_cursor encode_cursor y) with (encode_cursor (cursor_of y)).
  rewrite (IH (l1 ++ x :: init) y (drop n l2)).
  - cbn [fmap option_fmap option_map]. by rewrite take_drop.
  - rewrite Hall. rewrite Hl2 at 1. by rewrite <-app_assoc.
  - rewrite length_drop. lia.
Qed.

Lemma list_start :
  list_all encode_cursor decode_cursor (S (length all_rows)) None limit (table_rows t) =
  Some all_rows.
Proof.
  assert (1 ≤ clamp 1 100 limit)%nat as Hlim by (unfold clamp; lia).
  cbn [list_all]. rewrite (page_of None all_rows) by apply rows_behind_none.
  cbv zeta. set (n := clamp 1 100 limit) in *.
  destruct (Nat.ltb_spec n (length all_rows)) as [Hlt|Hge]; [|done].
  destruct (last_splits n all_rows Hlim Hlt) as (init & y & Hlast & Hinit & Hl).
  cbn [next_cursor tasks]. rewrite Hlast. cbn [fmap option_fmap option_map].
  change (encode_durable_task_list_cursor encode_cursor y) with (encode_cursor (cursor_of y)).
  rewrite (list_from _ init y (drop n all_rows) Hl).
  - cbn [fmap option_fmap option_map]. by rewrite take_drop.
  - rewrite length_drop. lia.
Qed.
End listing_properties.

(** The ids of the rows make their order strict. *)
Lemma rows_strict (t : Table) :
  (∀ id r, t !! id = Some r → task_id r = id) →
  StronglySorted (λ x y, task_cmp x y = Lt) (all_rows t).
Proof.
  intros Hid. apply (sorted_by_strict task_cmp row_key).
  - intros x y. unfold task_cmp, cmp_rev, cmp_on. intros H. apply key_cmp_eq.
    by destruct (key_cmp (row_key x) (row_key y)).
  - unfold all_rows. apply (NoDup_fmap_1 (snd : string * string * string → string)).
    change (snd <$> map row_key ?l) with (map snd (map row_key l)). rewrite map_map.
    change (λ x, snd (row_key x)) with task_id.
    rewrite (sort_by_perm task_cmp). rewrite map_map.
    pose proof (NoDup_fst_map_to_list t) as Hnd.
    replace (map (λ x, task_id x.2) (map_to_list t)) with ((map_to_list t).*1); [done|].
    apply list_fmap_ext. intros i [k r] Hk. simpl.
    apply list_elem_of_lookup_2, elem_of_map_to_list in Hk. symmetry. by apply Hid.
  - apply (sort_by_sorted task_cmp).
Qed.

(** C34. A client that follows the cursors of the task listing, whatever page size it asks
    for, comes to an end after at most one page per task and one more, and has seen every
    task of the store exactly once, the last updated first. *)
Theorem list_all_complete encode_cursor decode_cursor (t : Table) (limit : nat) :
  (∀ c, decode_cursor (encode_cursor c) = Some c) →
  (∀ id r, t !! id = Some r → task_id r = id) →
  ∃ rows, list_all encode_cursor decode_cursor (S (size t)) None limit (table_rows t) = Some rows ∧
    rows ≡ₚ map snd (map_to_list t) ∧ sorted_by task_cmp rows.
Proof.
  intros Hcodec Hid. exists (all_rows t).
  assert (size t = length (all_rows t)) as ->.
  { unfold all_rows. rewrite (sort_by_perm task_cmp), length_map. by rewrite length_map_to_list. }
  split_and!.
  - apply (list_start _ _ _ _ Hcodec). by apply rows_strict.
  - apply (sort_by_perm task_cmp).
  - apply (sort_by_sorted task_cmp).
Qed.

(** ** A run on concrete inputs *)

Definition demo_requests (items : list Json) : result string Json := Ok (JArray items).
Definition demo_task : NewDurableTask :=
  task_record_of_call "task-1" "7" "build_graph" None None (Some 60000%N).
Definition demo_record : DurableTaskRecord := new_record "10:00" demo_task.
Definition demo_table : Table := <["task-1" := demo_record]> ∅.

(** The call is spawned, returns, checks its record and writes it. *)
Definition demo_world (t : Table) (l : Live) (ws : list Worker) : World :=
  mk_world t l (foldr (λ wk m, <["task-1" := wk]> m) ∅ ws) ∅ [].

Definition demo_start : World := demo_world demo_table ∅ [Starting].

Definition demo_finish (v : Json) : World :=
  demo_world
    (maybe_update "10:01" "task-1" (outcome_update demo_requests (ToolOk v) (Some demo_record)) demo_table)
    (delete "task-1" (<["task-1" := false]> ∅))
    [Done (ToolOk v); Decided (ToolOk v) (Some demo_record); Returned (ToolOk v); Running; Starting].

Lemma demo_run v : rtc (server_step demo_requests) demo_start (demo_finish v).
Proof.
  unfold demo_start, demo_finish, demo_world.
  eapply rtc_l; [apply (step_spawn_explicit _ _ _ _ _ _ "task-1"); reflexivity|].
  eapply rtc_l; [apply (step_return _ _ _ _ _ _ "task-1" (ToolOk v)); reflexivity|].
  eapply rtc_l; [apply (step_check _ _ _ _ _ _ "task-1" (ToolOk v)); reflexivity|].
  apply rtc_once. apply (step_record _ _ _ _ _ _ "task-1" "10:01" (ToolOk v) (Some demo_record)).
  reflexivity.
Qed.

Lemma server_reachable requests t0 w w' :
  reachable requests t0 w → rtc (server_step requests) w w' → reachable requests t0 w'.
Proof.
  intros Hr Hs. unfold reachable in *. etransitivity; [exact Hr|].
  induction Hs as [|w1 w2 w3 H _ IH]; [done|]. eapply rtc_l; [by exists ByServer|].
  apply IH. eapply rtc_r; [exact Hr|]. by exists ByServer.
Qed.

Lemma demo_reachable v : reachable demo_requests ∅ (demo_finish v).
Proof.
  apply (server_reachable _ _ demo_start); [|apply demo_run].
  apply rtc_once. exists ByServer.
  apply (step_create_explicit _ ∅ ∅ ∅ ∅ [] "task-1" "10:00" demo_task demo_record); reflexivity.
Qed.

Lemma task_records_sound_witness :
  reachable demo_requests ∅ (demo_finish JNull) ∧
  ∃ r, table (demo_finish JNull) !! "task-1" = Some r ∧ status r = Completed ∧
    is_Some (task_result r).
Proof.
  split; [apply demo_reachable|]. eexists. split; [vm_compute; reflexivity|]. split; [reflexivity|].
  apply (task_records_sound demo_requests ∅ (demo_finish JNull) "task-1" _ (demo_reachable JNull)
    (lookup_empty _) eq_refl).
Defined.

Lemma explicit_task_settles_witness :
  rtc (server_step demo_requests) demo_start (demo_finish JNull) ∧
  ∃ r, table (demo_finish JNull) !! "task-1" = Some r ∧ status r = Completed ∧
    task_result r = Some JNull.
Proof.
  split; [apply demo_run|].
  destruct (explicit_task_settles demo_requests ∅ ∅ ∅ ∅ [] "task-1" "10:00" demo_task
    (demo_finish JNull) eq_refl eq_refl (lookup_empty _)
    (λ u, not_elem_of_nil _)
    (demo_run JNull)) as [(r & wk & Hr & Hwk & Hs) _].
  exists r. split; [exact Hr|]. injection Hwk as <-. exact Hs.
Defined.

Lemma cancelled_task_completes_witness :
  is_input_required_tool_result JNull = false ∧
  ∃ w1 r1 w2 r2, reachable demo_requests ∅ w1 ∧ table w1 !! "task-1" = Some r1 ∧
    status r1 = Cancelled ∧ rtc (server_step demo_requests) w1 w2 ∧
    table w2 !! "task-1" = Some r2 ∧ status r2 = Completed ∧ cancel_requested r2 = true.
Proof.
  split; [reflexivity|].
  apply (cancelled_task_completes demo_requests "task-1" "7" "build_graph" "10:00" "indexing" JNull).
  reflexivity.
Defined.

(** A codec of cursors: the bits of the number of the triple. *)
Fixpoint bits (p : positive) : string :=
  match p with
  | xH => EmptyString
  | xO p => String "0" (bits p)
  | xI p => String "1" (bits p)
  end.

Fixpoint unbits (s : string) : positive :=
  match s with
  | EmptyString => xH
  | String c s => if Ascii.eqb c "0" then xO (unbits s) else xI (unbits s)
  end.

Definition demo_encode (c : DurableTaskListCursor) : string :=
  bits (encode (c_updated_at c, c_created_at c, c_task_id c)).

Definition demo_decode (s : string) : option DurableTaskListCursor :=
  (λ k, mk_cursor k.1.1 k.1.2 k.2) <$> (decode (unbits s) : option (string * string * string)).

Lemma demo_codec c : demo_decode (demo_encode c) = Some c.
Proof.
  assert (∀ p, unbits (bits p) = p) as H.
  { induction p as [p IH|p IH|]; simpl; [by rewrite IH..|done]. }
  unfold demo_decode, demo_encode. rewrite H, decode_encode. by destruct c.
Qed.

Definition demo_three : Table :=
  <["a" := apply_update "10:05" no_update (new_record "10:00" (task_record_of_call "a" "1" "doctor" None None None))]>
  (<["b" := new_record "10:02" (task_record_of_call "b" "2" "doctor" None None None)]>
  (<["c" := new_record "10:03" (task_record_of_call "c" "3" "doctor" None None None)]> ∅)).

Lemma demo_three_ids id r : demo_three !! id = Some r → task_id r = id.
Proof.
  unfold demo_three. intros H.
  repeat (apply lookup_insert_Some in H as [[<- <-]|[_ H]]; [reflexivity|]).
  by rewrite lookup_empty in H.
Qed.

(** A row that does not parse ends the listing when a page would follow it: the page comes
    back one task short, so it looks like the last one, and the tasks behind are never
    shown. *)
Example damaged_row_ends_listing :
  map task_id <$> list_all demo_encode demo_decode 9 None 1
    (map row_of (map (λ p, p.2) (map_to_list (delete "c" demo_three))) ++
     [mk_row ("10:03", "10:03", "c") None]) = Some ["a"].
Proof. vm_compute. reflexivity. Qed.

(** Pages of one task: four requests. *)
Lemma list_all_complete_witness :
  (map task_id <$> list_all demo_encode demo_decode 4 None 0 (table_rows demo_three)) = Some ["a"; "c"; "b"] ∧
  ∃ rows, list_all demo_encode demo_decode (S (size demo_three)) None 0 (table_rows demo_three) = Some rows ∧
    rows ≡ₚ map snd (map_to_list demo_three) ∧ sorted_by task_cmp rows.
Proof.
  split; [vm_compute; reflexivity|].
  apply (list_all_complete demo_encode demo_decode demo_three 0 demo_codec demo_three_ids).
Defined.
