(* ===== verification/SearchData.v ===== *)
(** * Search: queries, scored nodes and ranking evidence

    Model of [packages/atlas-core/src/model/search.rs]: what a search asks, and the hits it
    returns with the evidence that explains their scores. Scores are binary64 values. *)

From Stdlib Require Import Floats.SpecFloat.
From S2P Require Import Prelude RustStr RustFloat Kinds Graph.

(** ** Evidence *)

Inductive RetrievalMode := Fts5 | RegexStructuralScan | Vector | Hybrid | GraphExpand.

Inductive SearchMatchedField := MfName | MfQualifiedName | MfFilePath | MfContent | MfEmbedding.

Inductive HybridRankingSource := SrcFts5 | SrcVector.

#[export] Instance SearchMatchedField_eq_dec : EqDecision SearchMatchedField.
Proof. solve_decision. Defined.
#[export] Instance HybridRankingSource_eq_dec : EqDecision HybridRankingSource.
Proof. solve_decision. Defined.

Record FuzzyCorrectionEvidence := mk_fuzzy {
  corrected_term : option string;
  edit_distance : option N;
  fuzzy_threshold : option N
}.

Record GraphExpansionEvidence := mk_expansion {
  hop_distance : N;
  seed_qualified_name : option string
}.

Record HybridRankContribution := mk_contribution {
  hc_source : HybridRankingSource;
  hc_rank : N;
  score_contribution : spec_float
}.

Record RankingEvidence := mk_ranking {
  base_mode : RetrievalMode;
  raw_score : option spec_float;
  final_score : spec_float;
  matched_fields : list SearchMatchedField;
  exact_name_match : bool;
  exact_qualified_name_match : bool;
  prefix_match : bool;
  fuzzy : option FuzzyCorrectionEvidence;
  kind_boost : option spec_float;
  public_exported_boost : option spec_float;
  same_directory_boost : option spec_float;
  same_language_boost : option spec_float;
  recent_file_boost : option spec_float;
  changed_file_boost : option spec_float;
  graph_expansion : option GraphExpansionEvidence;
  hybrid_rrf : option (list HybridRankContribution)
}.

Definition new_evidence (mode : RetrievalMode) (final : spec_float) : RankingEvidence :=
  mk_ranking mode None final [] false false false None None None None None None None None None.

(** The fields a step of the search assigns. *)
Definition set_base (mode : RetrievalMode) (raw : option spec_float) (e : RankingEvidence) :
    RankingEvidence :=
  mk_ranking mode raw (final_score e) (matched_fields e) (exact_name_match e)
    (exact_qualified_name_match e) (prefix_match e) (fuzzy e) (kind_boost e)
    (public_exported_boost e) (same_directory_boost e) (same_language_boost e)
    (recent_file_boost e) (changed_file_boost e) (graph_expansion e) (hybrid_rrf e).

Definition set_final (x : spec_float) (e : RankingEvidence) : RankingEvidence :=
  mk_ranking (base_mode e) (raw_score e) x (matched_fields e) (exact_name_match e)
    (exact_qualified_name_match e) (prefix_match e) (fuzzy e) (kind_boost e)
    (public_exported_boost e) (same_directory_boost e) (same_language_boost e)
    (recent_file_boost e) (changed_file_boost e) (graph_expansion e) (hybrid_rrf e).

Definition set_matches (fs : list SearchMatchedField) (exact qexact prefix : bool)
    (fz : option FuzzyCorrectionEvidence) (e : RankingEvidence) : RankingEvidence :=
  mk_ranking (base_mode e) (raw_score e) (final_score e) fs exact qexact prefix fz (kind_boost e)
    (public_exported_boost e) (same_directory_boost e) (same_language_boost e)
    (recent_file_boost e) (changed_file_boost e) (graph_expansion e) (hybrid_rrf e).

Definition set_boosts (kind public dir lang recent changed : option spec_float)
    (e : RankingEvidence) : RankingEvidence :=
  mk_ranking (base_mode e) (raw_score e) (final_score e) (matched_fields e) (exact_name_match e)
    (exact_qualified_name_match e) (prefix_match e) (fuzzy e) kind public dir lang recent changed
    (graph_expansion e) (hybrid_rrf e).

Definition set_provenance (g : option GraphExpansionEvidence)
    (h : option (list HybridRankContribution)) (e : RankingEvidence) : RankingEvidence :=
  mk_ranking (base_mode e) (raw_score e) (final_score e) (matched_fields e) (exact_name_match e)
    (exact_qualified_name_match e) (prefix_match e) (fuzzy e) (kind_boost e)
    (public_exported_boost e) (same_directory_boost e) (same_language_boost e)
    (recent_file_boost e) (changed_file_boost e) g h.

Definition with_raw_score (x : spec_float) (e : RankingEvidence) : RankingEvidence :=
  set_base (base_mode e) (Some x) e.

Definition push_field (fs : list SearchMatchedField) (f : SearchMatchedField) :
    list SearchMatchedField :=
  if bool_decide (f ∈ fs) then fs else fs ++ [f].

Definition add_matched_field (f : SearchMatchedField) (e : RankingEvidence) : RankingEvidence :=
  set_matches (push_field (matched_fields e) f) (exact_name_match e)
    (exact_qualified_name_match e) (prefix_match e) (fuzzy e) e.

(** ** Merging *)

Definition merge_option_f64 (target incoming : option spec_float) : option spec_float :=
  match incoming with
  | Some x =>
      match target with
      | Some y => if float_gt x y then Some x else Some y
      | None => Some x
      end
  | None => target
  end.

Definition choose_fuzzy (existing incoming : FuzzyCorrectionEvidence) : FuzzyCorrectionEvidence :=
  match edit_distance existing, edit_distance incoming with
  | Some l, Some r => if (r <? l)%N then incoming else existing
  | None, Some _ => incoming
  | _, None => existing
  end.

Definition choose_graph_expansion (existing incoming : GraphExpansionEvidence) :
    GraphExpansionEvidence :=
  if (hop_distance incoming <? hop_distance existing)%N then incoming else existing.

(** The two [match] blocks that combine optional evidence. *)
Definition merge_option {A} (choose : A → A → A) (existing incoming : option A) : option A :=
  match existing, incoming with
  | Some x, Some y => Some (choose x y)
  | None, y => y
  | x, None => x
  end.

(** 2^-52 *)
Definition f64_epsilon : spec_float := S754_finite false 4503599627370496 (-104).

Definition same_contribution (present source : HybridRankContribution) : bool :=
  bool_decide (hc_source present = hc_source source) && (hc_rank present =? hc_rank source)%N &&
  float_lt (SFabs (f64_sub (score_contribution present) (score_contribution source))) f64_epsilon.

Definition merge_sources (existing incoming : list HybridRankContribution) :
    list HybridRankContribution :=
  foldl (λ acc s, if existsb (λ p, same_contribution p s) acc then acc else acc ++ [s])
    existing incoming.

Definition merge_from (self other : RankingEvidence) : RankingEvidence :=
  mk_ranking (base_mode self)
    (match raw_score self with None => raw_score other | r => r end)
    (final_score self)
    (foldl push_field (matched_fields self) (matched_fields other))
    (exact_name_match self || exact_name_match other)
    (exact_qualified_name_match self || exact_qualified_name_match other)
    (prefix_match self || prefix_match other)
    (merge_option choose_fuzzy (fuzzy self) (fuzzy other))
    (merge_option_f64 (kind_boost self) (kind_boost other))
    (merge_option_f64 (public_exported_boost self) (public_exported_boost other))
    (merge_option_f64 (same_directory_boost self) (same_directory_boost other))
    (merge_option_f64 (same_language_boost self) (same_language_boost other))
    (merge_option_f64 (recent_file_boost self) (recent_file_boost other))
    (merge_option_f64 (changed_file_boost self) (changed_file_boost other))
    (merge_option choose_graph_expansion (graph_expansion self) (graph_expansion other))
    (merge_option merge_sources (hybrid_rrf self) (hybrid_rrf other)).

(** ** Scored nodes *)

Record ScoredNode := mk_scored {
  sc_node : Node;
  sc_score : spec_float;
  ranking_evidence : option RankingEvidence
}.

(** [r.node.qualified_name] *)
Definition sc_qn (r : ScoredNode) : string := n_qualified_name (sc_node r).

Definition scored_new (n : Node) (score : spec_float) : ScoredNode := mk_scored n score None.

Definition with_ranking_evidence (n : Node) (score : spec_float) (e : RankingEvidence) : ScoredNode :=
  mk_scored n score (Some (set_final score e)).

Definition sync_ranking_score (r : ScoredNode) : ScoredNode :=
  mk_scored (sc_node r) (sc_score r) (set_final (sc_score r) <$> ranking_evidence r).

(** ** Queries *)

Record SearchQuery := mk_query {
  q_text : string;
  q_kind : option string;
  q_language : option string;
  include_files : bool;
  q_file_path : option string;
  subpath : option string;
  q_is_test : option bool;
  q_limit : N;
  graph_expand_on : bool;
  graph_max_hops : N;
  reference_file : option string;
  reference_language : option string;
  fuzzy_match : bool;
  recent_boost : bool;
  changed_files : list string;
  hybrid : bool;
  top_k_fts : N;
  top_k_vector : N;
  rrf_k : N;
  regex_pattern : option string;
  repo_ids : list string
}.

Definition default_query : SearchQuery :=
  mk_query "" None None false None None None 20 false 1 None None false false [] false 60 60 60
    None [].

(** [SearchQuery { text, limit, ..query.clone() }] *)
Definition with_text (text : string) (limit : N) (q : SearchQuery) : SearchQuery :=
  mk_query text (q_kind q) (q_language q) (include_files q) (q_file_path q) (subpath q)
    (q_is_test q) limit (graph_expand_on q) (graph_max_hops q) (reference_file q)
    (reference_language q) (fuzzy_match q) (recent_boost q) (changed_files q) (hybrid q)
    (top_k_fts q) (top_k_vector q) (rrf_k q) (regex_pattern q) (repo_ids q).

(** [SearchQuery { changed_files, graph_expand: true, ..query.clone() }] *)
Definition with_context (files : list string) (q : SearchQuery) : SearchQuery :=
  mk_query (q_text q) (q_kind q) (q_language q) (include_files q) (q_file_path q) (subpath q)
    (q_is_test q) (q_limit q) true (graph_max_hops q) (reference_file q)
    (reference_language q) (fuzzy_match q) (recent_boost q) files (hybrid q)
    (top_k_fts q) (top_k_vector q) (rrf_k q) (regex_pattern q) (repo_ids q).

(** ** Merging keeps the score, and the stronger evidence *)

Lemma merge_from_final e f : final_score (merge_from e f) = final_score e.
Proof. done. Qed.

Lemma push_fields_elem fs gs f : f ∈ foldl push_field fs gs ↔ f ∈ fs ∨ f ∈ gs.
Proof.
  revert fs. induction gs as [|g gs IH]; intros fs; simpl; [set_solver|].
  rewrite IH. unfold push_field. case_bool_decide; set_solver.
Qed.

Lemma push_fields_NoDup fs gs : NoDup fs → NoDup (foldl push_field fs gs).
Proof.
  revert fs. induction gs as [|g gs IH]; intros fs Hfs; simpl; [done|]. apply IH.
  unfold push_field. case_bool_decide; [done|]. apply NoDup_app. split_and!; [done| |apply NoDup_singleton].
  set_solver.
Qed.

Lemma merge_sources_kept (ex inc : list HybridRankContribution) s : s ∈ ex → s ∈ merge_sources ex inc.
Proof.
  unfold merge_sources. revert ex. induction inc as [|x inc IH]; intros ex Hs; simpl; [done|].
  apply IH. destruct (existsb _ _); set_solver.
Qed.
