(* ===== verification/SearchRank.v ===== *)
(** * Search: query texts, boosts and merging

    Model of [packages/atlas-search/src/tokenize.rs], [fuzzy.rs], [ranking.rs] and
    [scoring.rs]: the texts a query is expanded to, the heuristic boosts of a hit, and the
    merge of hit lists. The Unicode tables of the standard library, the edit distance of
    [strsim] and the order of hash tables are parameters. *)

From Stdlib Require Import Floats.SpecFloat.
From S2P Require Import Prelude RustStr RustFloat Kinds Graph SearchData.

(** ** Characters *)

Definition continues (s : string) : bool :=
  match s with String a _ => is_continuation a | EmptyString => false end.

(** [str::chars]: each character with the bytes of its encoding. *)
Fixpoint chars (s : string) : list string :=
  match s with
  | EmptyString => []
  | String a s' =>
      match chars s' with
      | c :: cs => if continues c then String a c :: cs else String a "" :: c :: cs
      | [] => [String a ""]
      end
  end.

Definition char_count (s : string) : N := N.of_nat (length (chars s)).

(** The tables of Unicode: [str::to_lowercase], [char::is_lowercase], [char::is_uppercase]
    and [char::is_alphanumeric]. *)
Class Unicode := {
  to_lowercase : string → string;
  is_lowercase : string → bool;
  is_uppercase : string → bool;
  is_alphanumeric : string → bool
}.

(** The tables on ASCII text. *)
Definition ascii_class (p : ascii → bool) (c : string) : bool :=
  match c with String a EmptyString => p a | _ => false end.
#[local] Instance ascii_unicode : Unicode :=
  { to_lowercase := to_ascii_lowercase; is_lowercase := ascii_class is_ascii_lower;
    is_uppercase := ascii_class is_ascii_upper; is_alphanumeric := ascii_class is_ascii_alphanumeric }.

(** ** [tokenize.rs] *)

Section tokenize.
Context `{!Unicode}.

Definition opt_char (p : string → bool) (o : option string) : bool :=
  match o with Some c => p c | None => false end.

Fixpoint split_camel_go (prev : option string) (current : string) (cs : list string) : list string :=
  match cs with
  | [] => if str_is_empty current then [] else [current]
  | ch :: rest =>
      let prev_lower := opt_char is_lowercase prev in
      let next_lower := opt_char is_lowercase (head rest) in
      if is_uppercase ch && bool_decide (is_Some prev) && (prev_lower || next_lower) &&
         negb (str_is_empty current)
      then current :: split_camel_go (Some ch) ch rest
      else split_camel_go (Some ch) (current +:+ ch) rest
  end.
Definition split_camel (s : string) : list string := split_camel_go None "" (chars s).

Definition non_empty (ws : list string) : list string := filter (λ w, negb (str_is_empty w)) ws.

(** The parts when there is more than one. *)
Definition several (ws : list string) : list string :=
  if (1 <? length ws)%nat then ws else [].

Definition snake_parts (s : string) : list string := non_empty (split_char "_" s).

Definition build_fts_query (text : string) : string :=
  let trimmed := trim text in
  if str_is_empty trimmed then trimmed
  else
    let tokens := to_lowercase trimmed ::
      (to_lowercase <$> several (split_camel trimmed)) ++
      (to_lowercase <$> several (snake_parts trimmed)) ++
      (to_lowercase <$> several (split_whitespace trimmed)) in
    join " OR " (dedup_by_key id tokens).

Definition matches_subpath (file_path : string) (sub : option string) : bool :=
  match sub with
  | Some value =>
      let prefix := trim value in
      if str_is_empty prefix then true else starts_with prefix file_path
  | None => true
  end.

Definition relaxed_prefix (token : string) : option string :=
  let n := char_count token in
  if (n <? 4)%N then None
  else
    let prefix_len := if (6 <=? n)%N then 3%nat else 2%nat in
    Some (str_cat (take prefix_len (chars token)) +:+ "*").

Definition relaxed_parts (ws : list string) : list string :=
  omap (λ part, relaxed_prefix (to_lowercase part)) (several ws).

Definition build_relaxed_fts_query (text : string) : string :=
  let trimmed := trim text in
  if str_is_empty trimmed then ""
  else
    let prefixes := option_list (relaxed_prefix (to_lowercase trimmed)) ++
      relaxed_parts (split_camel trimmed) ++ relaxed_parts (snake_parts trimmed) ++
      relaxed_parts (split_whitespace trimmed) in
    join " OR " (dedup_by_key id prefixes).
End tokenize.

(** ** [ranking.rs] *)

Record GraphSearchRankingPrimitives := mk_boosts {
  exact_name_boost : spec_float;
  prefix_name_boost : spec_float;
  exact_qualified_name_boost : spec_float;
  fuzzy_distance_0_boost : spec_float;
  fuzzy_distance_1_boost : spec_float;
  fuzzy_distance_2_boost : spec_float;
  fuzzy_distance_3_boost : spec_float;
  function_kind_boost : spec_float;
  type_kind_boost : spec_float;
  enum_kind_boost : spec_float;
  public_api_boost : spec_float;
  p_same_directory_boost : spec_float;
  p_same_language_boost : spec_float;
  p_recent_file_boost : spec_float;
  p_changed_file_boost : spec_float
}.

Definition default_primitives : GraphSearchRankingPrimitives :=
  mk_boosts (f64_of_N 20) (f64_of_N 5) (f64_of_N 15) (f64_of_N 24) (f64_of_N 18) (f64_of_N 12)
    (f64_of_N 8) (f64_of_N 3) (f64_of_N 2) (f64_of_N 1) (f64_of_N 2) (f64_of_N 3) (f64_of_N 2)
    (f64_of_N 4) (f64_of_N 5).

Definition fuzzy_distance_bonus (p : GraphSearchRankingPrimitives) (distance : N) : spec_float :=
  match distance with
  | 0 => fuzzy_distance_0_boost p
  | 1 => fuzzy_distance_1_boost p
  | 2 => fuzzy_distance_2_boost p
  | _ => fuzzy_distance_3_boost p
  end%N.

Definition search_kind_boost (p : GraphSearchRankingPrimitives) (kind : NodeKind) : spec_float :=
  match kind with
  | NkFunction | NkMethod => function_kind_boost p
  | NkClass | NkStruct | NkTrait | NkInterface => type_kind_boost p
  | NkEnum => enum_kind_boost p
  | _ => f64_zero
  end.

(** [right.score.partial_cmp(&left.score).unwrap_or(Equal).then_with(..)] *)
Definition scored_node_cmp : ScoredNode → ScoredNode → comparison :=
  cmp_lex (λ l r, partial_cmp_or_equal (sc_score r) (sc_score l)) (cmp_on sc_qn String.compare).

Definition sort_scored_nodes (results : list ScoredNode) : list ScoredNode :=
  sort_by scored_node_cmp results.

(** ** [scoring.rs]: evidence *)

Definition scoring_base_mode (r : ScoredNode) : RetrievalMode :=
  match ranking_evidence r with Some e => base_mode e | None => Fts5 end.

Definition evidence_or_new (r : ScoredNode) : RankingEvidence :=
  default (with_raw_score (sc_score r) (new_evidence (scoring_base_mode r) (sc_score r)))
    (ranking_evidence r).

(** [ensure_ranking_evidence], the update of the evidence, and [sync_ranking_score]. *)
Definition with_evidence (f : RankingEvidence → RankingEvidence) (r : ScoredNode) : ScoredNode :=
  sync_ranking_score (mk_scored (sc_node r) (sc_score r) (Some (f (evidence_or_new r)))).

Definition annotate_graph_seed (hop : N) (seed : string) (r : ScoredNode) : ScoredNode :=
  with_evidence (λ e, set_provenance (Some (mk_expansion hop (Some seed))) (hybrid_rrf e) e) r.

Definition merge_result_evidence (preferred discarded : ScoredNode) : ScoredNode :=
  sync_ranking_score (mk_scored (sc_node preferred) (sc_score preferred)
    (merge_option merge_from (ranking_evidence preferred) (ranking_evidence discarded))).

Definition is_file_node (r : ScoredNode) : bool :=
  match n_kind (sc_node r) with NkFile => true | _ => false end.

Definition maybe_exclude_file_nodes (include : bool) (limit : N) (results : list ScoredNode) :
    list ScoredNode :=
  take (N.to_nat limit) (if include then results else filter (λ r, negb (is_file_node r)) results).

(** ** [fuzzy.rs] *)

Section fuzzy.
Context `{!Unicode} (levenshtein : string → string → N).

Definition edit_distance_capped (a b : string) (cap : N) : N :=
  let na := char_count a in
  let nb := char_count b in
  if (cap <? N.max na nb - N.min na nb)%N then (cap + 1)%N
  else
    let distance := levenshtein a b in
    if (cap <? distance)%N then (cap + 1)%N else distance.

Definition fuzzy_threshold_of (len : N) : N :=
  if (len <=? 3)%N then 0%N
  else if (len <=? 5)%N then 1%N
  else if (len <=? 8)%N then 2%N
  else 3%N.

Definition is_non_code_language (language : string) : bool :=
  existsb (String.eqb (to_ascii_lowercase language)) ["markdown"; "md"; "json"; "toml"; "yaml"; "yml"].

Definition fuzzy_kind_bonus (kind : NodeKind) : spec_float :=
  match kind with
  | NkFunction | NkMethod => f64_of_N 10
  | NkClass | NkStruct | NkTrait | NkInterface | NkEnum | NkConstant | NkVariable | NkTest => f64_of_N 8
  | NkModule | NkPackage => f64_of_N 5
  | NkImport => SFopp (f64_of_N 4)
  | NkFile => SFopp (f64_of_N 8)
  end.

Definition fuzzy_typo_details (n : Node) (q_lower : string) (fuzzy_cap : N)
    (p : GraphSearchRankingPrimitives) : option (N * spec_float) :=
  if (fuzzy_cap =? 0)%N then None
  else
    let dist := edit_distance_capped q_lower (to_lowercase (n_name n)) fuzzy_cap in
    if (fuzzy_cap <? dist)%N then None
    else
      let penalty := if is_non_code_language (n_language n) then SFopp (f64_of_N 6) else f64_zero in
      Some (dist, f64_max (f64_add (f64_add (fuzzy_distance_bonus p dist)
        (fuzzy_kind_bonus (n_kind n))) penalty) f64_zero).

(** ** [apply_ranking_boosts] *)

(** Everything before the last slash. *)
Definition dir_of (f : string) : string :=
  match rfind_sub "/" f with Some idx => str_take idx f | None => "" end.

Definition public_exported (n : Node) : bool :=
  match n_modifiers n with
  | Some mods =>
      let m := to_lowercase mods in
      contains "pub" m || contains "public" m || contains "export" m
  | None => false
  end.

(** What the hits of one query are compared with. *)
Record BoostContext := mk_boost_context {
  bc_q_lower : string;
  bc_fuzzy_cap : N;
  bc_ref_dir : option string;
  bc_ref_lang : option string;
  bc_fuzzy : bool;
  bc_recent : gset string;
  bc_changed : gset string
}.

Definition boost_context (query : string) (ref_file ref_lang : option string) (fz : bool)
    (recent changed : gset string) : BoostContext :=
  let q_lower := to_lowercase (trim query) in
  mk_boost_context q_lower (fuzzy_threshold_of (char_count q_lower)) (dir_of <$> ref_file)
    (to_lowercase <$> ref_lang) fz recent changed.

(** The local variables of the loop body. *)
Record Matches := mk_matches {
  m_exact : bool;
  m_prefix : bool;
  m_qualified : bool;
  m_fuzzy : option (N * spec_float);
  m_kind : spec_float;
  m_public : bool;
  m_directory : bool;
  m_language : bool;
  m_recent : bool;
  m_changed : bool
}.

Definition matches_of (c : BoostContext) (n : Node) : Matches :=
  let name_lower := to_lowercase (n_name n) in
  let exact := String.eqb name_lower (bc_q_lower c) in
  let prefix := negb exact && starts_with (bc_q_lower c) name_lower in
  mk_matches exact prefix (String.eqb (to_lowercase (n_qualified_name n)) (bc_q_lower c))
    (if bc_fuzzy c && negb (exact || prefix)
     then fuzzy_typo_details n (bc_q_lower c) (bc_fuzzy_cap c) default_primitives else None)
    (search_kind_boost default_primitives (n_kind n)) (public_exported n)
    (match bc_ref_dir c with Some d => String.eqb (dir_of (n_file_path n)) d | None => false end)
    (match bc_ref_lang c with Some l => String.eqb (to_lowercase (n_language n)) l | None => false end)
    (bool_decide (n_file_path n ∈ bc_recent c)) (bool_decide (n_file_path n ∈ bc_changed c)).

Definition add_if (b : bool) (x acc : spec_float) : spec_float := if b then f64_add acc x else acc.

Definition score_delta (m : Matches) : spec_float :=
  let p := default_primitives in
  let d := add_if (m_exact m) (exact_name_boost p) f64_zero in
  let d := add_if (m_prefix m) (prefix_name_boost p) d in
  let d := add_if (m_qualified m) (exact_qualified_name_boost p) d in
  let d := match m_fuzzy m with Some (_, bonus) => f64_add d bonus | None => d end in
  let d := f64_add d (m_kind m) in
  let d := add_if (m_public m) (public_api_boost p) d in
  let d := add_if (m_directory m) (p_same_directory_boost p) d in
  let d := add_if (m_language m) (p_same_language_boost p) d in
  let d := add_if (m_recent m) (p_recent_file_boost p) d in
  add_if (m_changed m) (p_changed_file_boost p) d.

Definition field_if (b : bool) (f : SearchMatchedField) (fs : list SearchMatchedField) :
    list SearchMatchedField := if b then push_field fs f else fs.

(** [as u8] *)
Definition as_u8 (n : N) : N := (n mod 256)%N.

(** The evidence of the matches; the raw score is set when it is missing. *)
Definition evidence_of (c : BoostContext) (m : Matches) (name : string) (raw : spec_float)
    (e : RankingEvidence) : RankingEvidence :=
  let p := default_primitives in
  let boost (b : bool) x old := if b then Some x else old in
  let e := set_base (base_mode e) (match raw_score e with None => Some raw | r => r end) e in
  let fs := field_if (m_exact m) MfName (matched_fields e) in
  let fs := field_if (m_prefix m) MfName fs in
  let fs := field_if (m_qualified m) MfQualifiedName fs in
  let fs := field_if (bool_decide (is_Some (m_fuzzy m))) MfName fs in
  let e := set_matches fs (m_exact m || exact_name_match e)
    (m_qualified m || exact_qualified_name_match e) (m_prefix m || prefix_match e)
    (match m_fuzzy m with
     | Some (d, _) => Some (mk_fuzzy (Some name) (Some (as_u8 d)) (Some (as_u8 (bc_fuzzy_cap c))))
     | None => fuzzy e
     end) e in
  set_boosts (boost (float_gt (m_kind m) f64_zero) (m_kind m) (kind_boost e))
    (boost (m_public m) (public_api_boost p) (public_exported_boost e))
    (boost (m_directory m) (p_same_directory_boost p) (same_directory_boost e))
    (boost (m_language m) (p_same_language_boost p) (same_language_boost e))
    (boost (m_recent m) (p_recent_file_boost p) (recent_file_boost e))
    (boost (m_changed m) (p_changed_file_boost p) (changed_file_boost e)) e.

(** One hit: the score grows first, so new evidence takes the grown score as raw score. *)
Definition boost_result (c : BoostContext) (r : ScoredNode) : ScoredNode :=
  let m := matches_of c (sc_node r) in
  let r' := mk_scored (sc_node r) (f64_add (sc_score r) (score_delta m)) (ranking_evidence r) in
  with_evidence (evidence_of c m (n_name (sc_node r)) (sc_score r)) r'.

Definition apply_ranking_boosts (results : list ScoredNode) (query : string)
    (ref_file ref_lang : option string) (fz : bool) (recent changed : gset string) :
    list ScoredNode :=
  sort_scored_nodes
    (map (boost_result (boost_context query ref_file ref_lang fz recent changed)) results).
End fuzzy.

(** ** [merge_scored_nodes] *)

#[local] Abbreviation hits := (gmap string ScoredNode).

(** The order in which a hash table yields its values. *)
Class HashOrder := {
  into_values : hits → list ScoredNode;
  into_values_perm (m : hits) : into_values m ≡ₚ map snd (map_to_list m)
}.

Definition merge_one (merged : hits) (r : ScoredNode) : hits :=
  match merged !! sc_qn r with
  | Some existing =>
      if float_gt (sc_score r) (sc_score existing)
      then <[sc_qn r := merge_result_evidence r existing]> merged
      else <[sc_qn r := merge_result_evidence existing r]> merged
  | None => <[sc_qn r := r]> merged
  end.

Definition merge_scored_nodes `{!HashOrder} (primary secondary : list ScoredNode) : list ScoredNode :=
  into_values (foldl merge_one ∅ (primary ++ secondary)).

(** ** Splitting words loses nothing *)

Lemma str_cat_chars s : str_cat (chars s) = s.
Proof.
  induction s as [|a s IH]; simpl; [done|]. destruct (chars s) as [|c cs]; simpl in *.
  - by rewrite <-IH.
  - rewrite <-IH. destruct (continues c); simpl; by rewrite ?str_app_cons.
Qed.

Lemma split_camel_go_cat `{!Unicode} cs : ∀ prev current,
  str_cat (split_camel_go prev current cs) = current +:+ str_cat cs.
Proof.
  induction cs as [|ch cs IH]; intros prev current; simpl.
  - destruct (str_is_empty current) eqn:E; simpl; [|done].
    apply str_is_empty_iff in E. by subst.
  - case_match; simpl; rewrite IH; [done|]. by rewrite str_app_assoc.
Qed.

Lemma split_camel_cat `{!Unicode} s : str_cat (split_camel s) = s.
Proof. unfold split_camel. by rewrite split_camel_go_cat, str_cat_chars. Qed.

(** ** The boosts are small whole numbers *)

(** [score_delta] in whole numbers. *)
Definition fuzzy_bonus_Z (dist : N) (n : Node) : Z :=
  Z.max 0
    (match dist with 0%N => 24 | 1%N => 18 | 2%N => 12 | _ => 8 end +
     match n_kind n with
     | NkFunction | NkMethod => 10
     | NkClass | NkStruct | NkTrait | NkInterface | NkEnum | NkConstant | NkVariable | NkTest => 8
     | NkModule | NkPackage => 5
     | NkImport => -4
     | NkFile => -8
     end + if is_non_code_language (n_language n) then -6 else 0)%Z.

Definition kind_boost_N (k : NodeKind) : N :=
  match k with
  | NkFunction | NkMethod => 3
  | NkClass | NkStruct | NkTrait | NkInterface => 2
  | NkEnum => 1
  | _ => 0
  end.

Definition if_N (b : bool) (n : N) : N := if b then n else 0%N.

Definition delta_N (n : Node) (m : Matches) : N :=
  (if_N (m_exact m) 20 + if_N (m_prefix m) 5 + if_N (m_qualified m) 15 +
   match m_fuzzy m with Some (d, _) => Z.to_N (fuzzy_bonus_Z d n) | None => 0 end +
   kind_boost_N (n_kind n) + if_N (m_public m) 2 + if_N (m_directory m) 3 +
   if_N (m_language m) 2 + if_N (m_recent m) 4 + if_N (m_changed m) 5)%N.

#[export] Instance spec_float_eq_dec : EqDecision spec_float.
Proof. solve_decision. Defined.

Lemma f64_add_small (a b : N) :
  (a ≤ 100)%N → (b ≤ 40)%N → f64_add (f64_of_N a) (f64_of_N b) = f64_of_N (a + b).
Proof.
  assert (List.forallb (λ a, List.forallb (λ b, bool_decide (f64_add (f64_of_N (N.of_nat a)) (f64_of_N (N.of_nat b)) =
    f64_of_N (N.of_nat a + N.of_nat b))) (seq 0 41)) (seq 0 101) = true) as H by (vm_compute; reflexivity).
  intros Ha Hb.
  pose proof (proj1 (List.forallb_forall _ _) H (N.to_nat a) ltac:(apply List.in_seq; lia)) as H1.
  pose proof (proj1 (List.forallb_forall _ _) H1 (N.to_nat b) ltac:(apply List.in_seq; lia)) as H2.
  apply bool_decide_eq_true in H2. by rewrite !N2Nat.id in H2.
Qed.

Lemma add_if_small b (a x : N) :
  (a ≤ 100)%N → (x ≤ 40)%N → add_if b (f64_of_N x) (f64_of_N a) = f64_of_N (a + if_N b x).
Proof.
  intros Ha Hx. destruct b; simpl; [by apply f64_add_small|]. by rewrite N.add_0_r.
Qed.

Lemma fuzzy_bonus_exact `{!Unicode} lev n q cap d x :
  fuzzy_typo_details lev n q cap default_primitives = Some (d, x) →
  x = f64_of_N (Z.to_N (fuzzy_bonus_Z d n)) ∧ (0 ≤ fuzzy_bonus_Z d n ≤ 34)%Z.
Proof.
  unfold fuzzy_typo_details. destruct (_ =? 0)%N; [done|]. destruct (_ <? _)%N; [done|].
  intros [= <- <-]. generalize (edit_distance_capped lev q (to_lowercase (n_name n)) cap) as dist.
  intros dist. unfold fuzzy_bonus_Z, fuzzy_kind_bonus, fuzzy_distance_bonus.
  destruct dist as [|[[]|[]|]], (n_kind n), (is_non_code_language _);
    (split; [vm_compute; reflexivity|lia]).
Qed.

Lemma kind_boost_exact k :
  search_kind_boost default_primitives k = f64_of_N (kind_boost_N k) ∧ (kind_boost_N k ≤ 3)%N.
Proof. destruct k; (split; [reflexivity|simpl; lia]). Qed.

(** The sum of the boosts is exact: no rounding happens. *)
Lemma score_delta_exact `{!Unicode} lev c n :
  let m := matches_of lev c n in
  score_delta m = f64_of_N (delta_N n m) ∧ (delta_N n m ≤ 100)%N.
Proof.
  intros m. unfold score_delta, delta_N.
  change f64_zero with (f64_of_N 0).
  change (exact_name_boost default_primitives) with (f64_of_N 20).
  change (prefix_name_boost default_primitives) with (f64_of_N 5).
  change (exact_qualified_name_boost default_primitives) with (f64_of_N 15).
  change (public_api_boost default_primitives) with (f64_of_N 2).
  change (p_same_directory_boost default_primitives) with (f64_of_N 3).
  change (p_same_language_boost default_primitives) with (f64_of_N 2).
  change (p_recent_file_boost default_primitives) with (f64_of_N 4).
  change (p_changed_file_boost default_primitives) with (f64_of_N 5).
  destruct (kind_boost_exact (n_kind n)) as [Hk Hk3].
  change (m_kind m) with (search_kind_boost default_primitives (n_kind n)). rewrite Hk.
  assert (∀ b x, if_N b x ≤ x)%N as Hif by (intros []; simpl; lia).
  pose proof (Hif (m_exact m) 20%N). pose proof (Hif (m_prefix m) 5%N).
  pose proof (Hif (m_qualified m) 15%N). pose proof (Hif (m_public m) 2%N).
  pose proof (Hif (m_directory m) 3%N). pose proof (Hif (m_language m) 2%N).
  pose proof (Hif (m_recent m) 4%N). pose proof (Hif (m_changed m) 5%N). clear Hif.
  rewrite !(add_if_small (m_exact m)), !(add_if_small (m_prefix m)) by lia.
  rewrite !(add_if_small (m_qualified m)) by lia.
  set (fz := match m_fuzzy m with Some (d, _) => Z.to_N (fuzzy_bonus_Z d n) | None => 0%N end).
  set (base := (0 + if_N (m_exact m) 20 + if_N (m_prefix m) 5 + if_N (m_qualified m) 15)%N).
  assert ((match m_fuzzy m with Some (_, bonus) => f64_add (f64_of_N base) bonus
    | None => f64_of_N base end = f64_of_N (base + fz)) ∧ (fz ≤ 34)%N) as [-> Hfz].
  { unfold fz. destruct (m_fuzzy m) as [[d x]|] eqn:Hf; [|split; [f_equal; lia|lia]].
    unfold m, matches_of in Hf. cbn [m_fuzzy] in Hf.
    destruct (_ && _) in Hf; [|done]. apply fuzzy_bonus_exact in Hf as [-> Hb].
    rewrite f64_add_small by lia. split; [done|lia]. }
  rewrite f64_add_small by lia.
  rewrite (add_if_small (m_public m)) by lia. rewrite (add_if_small (m_directory m)) by lia.
  rewrite (add_if_small (m_language m)) by lia. rewrite (add_if_small (m_recent m)) by lia.
  rewrite (add_if_small (m_changed m)) by lia.
  split; [f_equal; lia|lia].
Qed.

(** ** Order *)

(** The score of a hit is a number. *)
Definition number (r : ScoredNode) : Prop := is_nan (sc_score r) = false.

(** The order of hits whose scores are numbers. *)
Definition scored_rank : ScoredNode → ScoredNode → comparison :=
  cmp_lex (cmp_rev (cmp_on (λ r, float_key (sc_score r)) key_compare)) (cmp_on sc_qn String.compare).

#[export] Instance scored_rank_total : TotalCmp scored_rank.
Proof. unfold scored_rank. apply _. Qed.

Lemma scored_node_cmp_rank x y : number x → number y → scored_node_cmp x y = scored_rank x y.
Proof.
  intros Hx Hy. unfold scored_node_cmp, scored_rank, cmp_lex. rewrite float_compare_key by done.
  f_equal. apply (cmp_opp key_compare).
Qed.

Lemma scored_rank_eq x y : scored_rank x y = Eq → sc_qn x = sc_qn y.
Proof.
  unfold scored_rank, cmp_lex, then_with. destruct (cmp_rev _ x y); [|done..].
  intros H. by apply (cmp_eq String.compare).
Qed.

Lemma sort_scored_rank l : Forall number l → sort_scored_nodes l = sort_by scored_rank l.
Proof.
  intros H. rewrite Forall_forall in H. apply sort_by_ext. intros x y Hx Hy.
  apply scored_node_cmp_rank; auto.
Qed.

Lemma sort_scored_unique l1 l2 :
  Forall number l1 → NoDup (map sc_qn l1) → l1 ≡ₚ l2 → sort_scored_nodes l1 = sort_scored_nodes l2.
Proof.
  intros H Hnd Hp. assert (Forall number l2) by (by rewrite <-Hp).
  rewrite !sort_scored_rank by done.
  apply (sort_by_unique_on scored_rank sc_qn); [apply scored_rank_eq|done|done].
Qed.

Lemma sort_scored_sorted l :
  Forall number l → StronglySorted (λ x y, scored_node_cmp x y ≠ Gt) (sort_scored_nodes l).
Proof.
  intros H. rewrite sort_scored_rank by done.
  assert (Forall number (sort_by scored_rank l)) as Hn by (by rewrite sort_by_perm).
  pose proof (sort_by_sorted scored_rank l) as Hs. revert Hn.
  induction Hs as [|x k Hs IH Hx]; intros Hn; constructor.
  - apply IH. by inversion Hn.
  - inversion Hn as [|? ? Hnx Hnk]; subst. rewrite Forall_forall in *. intros y Hy.
    rewrite scored_node_cmp_rank by auto. specialize (Hx y Hy). unfold leb_of in Hx.
    by destruct (scored_rank x y).
Qed.

(** ** Merging by name *)

Definition keyed (m : hits) : Prop := ∀ k r, m !! k = Some r → sc_qn r = k.

(** The hit kept for a name that is found again. *)
Definition merge_pair (existing r : ScoredNode) : ScoredNode :=
  if float_gt (sc_score r) (sc_score existing) then merge_result_evidence r existing
  else merge_result_evidence existing r.

Definition merge_opt (existing : option ScoredNode) (r : ScoredNode) : ScoredNode :=
  match existing with Some e => merge_pair e r | None => r end.

Lemma merge_one_insert (m : hits) r : merge_one m r = <[sc_qn r := merge_opt (m !! sc_qn r) r]> m.
Proof. unfold merge_one, merge_opt, merge_pair. destruct (m !! sc_qn r); [|done]. by case_match. Qed.

Lemma merge_pair_cases e r :
  (float_gt (sc_score r) (sc_score e) = true ∧ sc_node (merge_pair e r) = sc_node r ∧
   sc_score (merge_pair e r) = sc_score r) ∨
  (float_gt (sc_score r) (sc_score e) = false ∧ sc_node (merge_pair e r) = sc_node e ∧
   sc_score (merge_pair e r) = sc_score e).
Proof. unfold merge_pair. destruct (float_gt _ _); auto. Qed.

Lemma merge_pair_qn e r : sc_qn e = sc_qn r → sc_qn (merge_pair e r) = sc_qn r.
Proof. unfold sc_qn. by destruct (merge_pair_cases e r) as [(_ & -> & _)|(_ & -> & _)]. Qed.

Lemma merge_one_keyed (m : hits) r : keyed m → keyed (merge_one m r).
Proof.
  intros Hm k x. rewrite merge_one_insert. intros [[<- <-]|[Hne Hx]]%lookup_insert_Some; [|by apply Hm].
  unfold merge_opt. destruct (m !! sc_qn r) as [e|] eqn:He; [|done].
  apply merge_pair_qn. by apply (Hm (sc_qn r)).
Qed.

Lemma merge_keyed l : ∀ m : hits, keyed m → keyed (foldl merge_one m l).
Proof. induction l as [|r l IH]; intros m Hm; simpl; [done|]. by apply IH, merge_one_keyed. Qed.

Lemma keyed_empty : keyed ∅.
Proof. intros k r H. by rewrite lookup_empty in H. Qed.

Lemma merge_names l : ∀ (m : hits) k,
  is_Some (foldl merge_one m l !! k) ↔ is_Some (m !! k) ∨ k ∈ map sc_qn l.
Proof.
  induction l as [|r l IH]; intros m k; simpl; [set_solver|].
  rewrite IH, merge_one_insert, lookup_insert_is_Some', elem_of_cons.
  destruct (decide (k = sc_qn r)) as [->|]; naive_solver.
Qed.

Lemma merge_other l : ∀ (m : hits) k, k ∉ map sc_qn l → foldl merge_one m l !! k = m !! k.
Proof.
  induction l as [|r l IH]; intros m k Hk; simpl; [done|]. simpl in Hk.
  apply not_elem_of_cons in Hk as [Hne Hk].
  rewrite IH by done. rewrite merge_one_insert. by rewrite lookup_insert_ne.
Qed.

Lemma merge_distinct l : ∀ (m : hits) r,
  NoDup (map sc_qn l) → r ∈ l → foldl merge_one m l !! sc_qn r = Some (merge_opt (m !! sc_qn r) r).
Proof.
  induction l as [|x l IH]; intros m r Hnd Hr; simpl; [by apply elem_of_nil in Hr|].
  simpl in Hnd. apply NoDup_cons in Hnd as [Hx Hnd].
  apply elem_of_cons in Hr as [->|Hr].
  - rewrite merge_other by done. by rewrite merge_one_insert, lookup_insert_eq.
  - rewrite IH by done. rewrite merge_one_insert, lookup_insert_ne; [done|].
    intros Heq. apply Hx. rewrite Heq. by apply list_elem_of_fmap_2.
Qed.

(** Lists of distinct names merge in any order. *)
Lemma merge_perm (m : hits) l1 l2 :
  NoDup (map sc_qn l1) → l1 ≡ₚ l2 → foldl merge_one m l1 = foldl merge_one m l2.
Proof.
  intros Hnd Hp. apply map_eq. intros k.
  destruct (decide (k ∈ map sc_qn l1)) as [Hk|Hk].
  - apply list_elem_of_fmap in Hk as (r & -> & Hr). rewrite !merge_distinct; [done| |by rewrite <-Hp|done..].
    by rewrite <-Hp.
  - rewrite !merge_other; [done| |done]. by rewrite <-Hp.
Qed.

Section into_values.
Context `{!HashOrder}.

Lemma into_values_elem (m : hits) r : r ∈ into_values m ↔ ∃ k, m !! k = Some r.
Proof.
  rewrite into_values_perm, list_elem_of_fmap. split.
  - intros ([k x] & -> & Hx%elem_of_map_to_list). by exists k.
  - intros [k Hk%elem_of_map_to_list]. by exists (k, r).
Qed.

Lemma into_values_names (m : hits) : keyed m → NoDup (map sc_qn (into_values m)).
Proof.
  intros Hm. rewrite into_values_perm, map_map.
  assert (map (λ x, sc_qn (snd x)) (map_to_list m) = (map_to_list m).*1) as ->.
  { apply list_fmap_ext. intros i [k r] Hi%list_elem_of_lookup_2%elem_of_map_to_list. simpl. by apply Hm. }
  apply NoDup_fst_map_to_list.
Qed.

(** A table is what merging its own values gives. *)
Lemma merge_rebuild (m : hits) : keyed m → foldl merge_one ∅ (into_values m) = m.
Proof.
  intros Hm. pose proof (into_values_names m Hm) as Hnd. apply map_eq. intros k.
  destruct (m !! k) as [r|] eqn:Hk.
  - pose proof (Hm k r Hk) as <-. rewrite merge_distinct; [by rewrite lookup_empty|done|].
    apply into_values_elem. eauto.
  - rewrite merge_other; [by rewrite lookup_empty|].
    intros (r & -> & [k' Hr]%into_values_elem)%list_elem_of_fmap.
    pose proof (Hm k' r Hr) as <-. congruence.
Qed.

Lemma merge_scored_elem p s r : r ∈ merge_scored_nodes p s ↔ foldl merge_one ∅ (p ++ s) !! sc_qn r = Some r.
Proof.
  unfold merge_scored_nodes. rewrite into_values_elem. split; [|by eauto].
  intros [k Hk]. by rewrite <-(merge_keyed _ _ keyed_empty k r Hk) in Hk.
Qed.
End into_values.

(** The numbers among the scores stay numbers. *)
Lemma merge_number l : ∀ m : hits,
  Forall number l → map_Forall (λ _, number) m → map_Forall (λ _, number) (foldl merge_one m l).
Proof.
  induction l as [|r l IH]; intros m Hl Hm; simpl; [done|].
  inversion Hl as [|? ? Hr Hl']; subst. apply IH; [done|]. rewrite merge_one_insert.
  apply map_Forall_insert_2; [|done]. unfold merge_opt. destruct (m !! sc_qn r) as [e|] eqn:He; [|done].
  unfold number. destruct (merge_pair_cases e r) as [(_ & _ & ->)|(_ & _ & ->)]; [done|].
  by apply (Hm (sc_qn r)).
Qed.

(** ** What merging keeps *)

Lemma float_gt_key x y : is_nan x = false → is_nan y = false →
  float_gt x y = true ↔ key_compare (float_key y) (float_key x) = Lt.
Proof.
  intros Hx Hy. rewrite <-float_compare_key by done.
  unfold float_gt, SFltb, partial_cmp_or_equal. destruct (SFcompare y x) as [[]|]; simpl; split; done.
Qed.

Lemma float_gt_false x y : is_nan x = false → is_nan y = false →
  float_gt x y = false ↔ leb_of key_compare (float_key x) (float_key y) = true.
Proof.
  intros Hx Hy. rewrite <-not_true_iff_false, float_gt_key by done. unfold leb_of.
  rewrite (cmp_lt_gt key_compare). by destruct (key_compare (float_key x) (float_key y)).
Qed.

Lemma float_gt_trans x y z : is_nan x = false → is_nan y = false → is_nan z = false →
  float_gt x y = false → float_gt z y = true → float_gt x z = false.
Proof.
  intros Hx Hy Hz. rewrite !float_gt_false, float_gt_key by done. intros H1 H2.
  eapply (leb_of_trans key_compare); [done|]. unfold leb_of. by rewrite H2.
Qed.

Lemma float_gt_asym x y : is_nan x = false → is_nan y = false →
  float_gt x y = true → float_gt y x = false.
Proof.
  intros Hx Hy. rewrite float_gt_false, float_gt_key by done. unfold leb_of. by intros ->.
Qed.

(** Optional evidence that is at least as strong. *)
Definition opt_le {A} (R : A → A → Prop) (x y : option A) : Prop :=
  match x with Some a => ∃ b, y = Some b ∧ R a b | None => True end.

Definition distance_le (f e : FuzzyCorrectionEvidence) : Prop :=
  opt_le (λ d d', (d' ≤ d)%N) (edit_distance f) (edit_distance e).
Definition hop_le (f e : GraphExpansionEvidence) : Prop := (hop_distance e ≤ hop_distance f)%N.

(** Everything [f] shows, [e] shows: the matched fields, the exact matches, a fuzzy match at
    most as far, a boost wherever there is one, a path at most as long, each contribution. *)
Definition evidence_le (f e : RankingEvidence) : Prop :=
  matched_fields f ⊆ matched_fields e ∧
  (exact_name_match f = true → exact_name_match e = true) ∧
  (exact_qualified_name_match f = true → exact_qualified_name_match e = true) ∧
  (prefix_match f = true → prefix_match e = true) ∧
  opt_le distance_le (fuzzy f) (fuzzy e) ∧
  opt_le hop_le (graph_expansion f) (graph_expansion e) ∧
  Forall (λ boost, is_Some (boost f) → is_Some (boost e))
    [kind_boost; public_exported_boost; same_directory_boost; same_language_boost;
     recent_file_boost; changed_file_boost].

Lemma opt_le_refl {A} (R : A → A → Prop) x : (∀ a, R a a) → opt_le R x x.
Proof. intros H. destruct x; simpl; eauto. Qed.

Lemma opt_le_trans {A} (R : A → A → Prop) x y z :
  (∀ a b c, R a b → R b c → R a c) → opt_le R x y → opt_le R y z → opt_le R x z.
Proof. intros H. destruct x as [a|]; simpl; [|done]. intros (b & -> & Hab) (c & -> & Hbc). eauto. Qed.

Lemma distance_le_refl f : distance_le f f.
Proof. apply opt_le_refl. done. Qed.

Lemma distance_le_trans a b c : distance_le a b → distance_le b c → distance_le a c.
Proof. apply opt_le_trans. lia. Qed.

#[export] Instance evidence_le_preorder : PreOrder evidence_le.
Proof.
  split.
  - intros e. split_and!; try done; [apply opt_le_refl, distance_le_refl|by apply opt_le_refl; intros; red|].
    by repeat constructor.
  - intros a b c (A1 & A2 & A3 & A4 & A5 & A6 & A7) (B1 & B2 & B3 & B4 & B5 & B6 & B7).
    split_and!; eauto using opt_le_trans, distance_le_trans; [by etrans| |].
    + eapply opt_le_trans; [|exact A6|exact B6]. unfold hop_le. lia.
    + rewrite Forall_forall in *. intros f Hf H. by apply B7, A7.
Qed.

Lemma merge_option_f64_some x y : is_Some x ∨ is_Some y → is_Some (merge_option_f64 x y).
Proof. destruct x, y; simpl; intros [[? ?]|[? ?]]; try done; try case_match; by eexists. Qed.

Lemma choose_fuzzy_le x y : distance_le x (choose_fuzzy x y) ∧ distance_le y (choose_fuzzy x y).
Proof.
  unfold distance_le, choose_fuzzy. destruct x as [c [d|] t], y as [c' [d'|] t']; simpl.
  - destruct (N.ltb_spec d' d); simpl; split; eexists; split; (done || lia).
  - split; [|done]. eauto.
  - split; [done|]. eauto.
  - done.
Qed.

Lemma choose_graph_le x y : hop_le x (choose_graph_expansion x y) ∧ hop_le y (choose_graph_expansion x y).
Proof.
  unfold hop_le, choose_graph_expansion. destruct (N.ltb_spec (hop_distance y) (hop_distance x)); lia.
Qed.

Lemma merge_option_le {A} (R : A → A → Prop) f x y :
  (∀ a, R a a) → (∀ a b, R a (f a b) ∧ R b (f a b)) →
  opt_le R x (merge_option f x y) ∧ opt_le R y (merge_option f x y).
Proof.
  intros Hr Hf. destruct x as [a|], y as [b|]; simpl; split; eauto.
  - eexists. split; [done|]. apply Hf.
  - eexists. split; [done|]. apply Hf.
Qed.

(** Merged evidence shows what either part shows. *)
Lemma merge_from_le e f : evidence_le e (merge_from e f) ∧ evidence_le f (merge_from e f).
Proof.
  destruct (merge_option_le distance_le choose_fuzzy (fuzzy e) (fuzzy f) distance_le_refl choose_fuzzy_le).
  destruct (merge_option_le hop_le choose_graph_expansion (graph_expansion e) (graph_expansion f)
    ltac:(intros; red; done) choose_graph_le).
  split; split_and!; try done; simpl;
    try (by intros ->); try (by intros ->; rewrite orb_true_r);
    try (intros x Hx; apply push_fields_elem; auto; fail);
    repeat (constructor; [intros; apply merge_option_f64_some; auto|]); constructor.
Qed.

Lemma set_final_le x e : evidence_le e (set_final x e) ∧ evidence_le (set_final x e) e.
Proof.
  assert (evidence_le e e) as (H1 & H2 & H3 & H4 & H5 & H6 & _) by done.
  split; split_and!; try done; by repeat (constructor; [done|]).
Qed.

Definition hit_le (r x : ScoredNode) : Prop :=
  opt_le evidence_le (ranking_evidence r) (ranking_evidence x).

#[export] Instance hit_le_preorder : PreOrder hit_le.
Proof.
  split.
  - intros r. apply opt_le_refl. done.
  - intros a b c. apply opt_le_trans. intros x y z. by etrans.
Qed.

Lemma opt_set_final_le x e o : opt_le evidence_le e o → opt_le evidence_le e (set_final x <$> o).
Proof.
  destruct e as [f|]; simpl; [|done]. intros (g & -> & Hg). exists (set_final x g).
  split; [done|]. etrans; [exact Hg|]. apply set_final_le.
Qed.

Lemma merge_result_le a b : hit_le a (merge_result_evidence a b) ∧ hit_le b (merge_result_evidence a b).
Proof.
  destruct (merge_option_le evidence_le merge_from (ranking_evidence a) (ranking_evidence b)
    ltac:(done) merge_from_le) as [H1 H2].
  split; apply opt_set_final_le; [exact H1|exact H2].
Qed.

Lemma merge_pair_le e r : hit_le e (merge_pair e r) ∧ hit_le r (merge_pair e r).
Proof. unfold merge_pair. destruct (float_gt _ _); [destruct (merge_result_le r e)|]; auto using merge_result_le. Qed.

Lemma merge_pair_best e r : number e → number r →
  float_gt (sc_score e) (sc_score (merge_pair e r)) = false ∧
  float_gt (sc_score r) (sc_score (merge_pair e r)) = false.
Proof.
  intros He Hr. assert (∀ x, is_nan x = false → float_gt x x = false) as Hirr.
  { intros x Hx. rewrite float_gt_false by done. unfold leb_of. by rewrite (cmp_refl key_compare). }
  destruct (merge_pair_cases e r) as [(H & _ & ->)|(H & _ & ->)]; split; auto.
  by apply float_gt_asym.
Qed.

(** The table after merging [l]. *)
Definition merged_of (l : list ScoredNode) (m : hits) : Prop :=
  ∀ k x, m !! k = Some x →
    (∃ r, r ∈ l ∧ sc_node x = sc_node r ∧ sc_score x = sc_score r) ∧
    ∀ r, r ∈ l → sc_qn r = k → float_gt (sc_score r) (sc_score x) = false ∧ hit_le r x.

Lemma merged_of_fold l : Forall number l → merged_of l (foldl merge_one ∅ l).
Proof.
  induction l as [|r l IH] using rev_ind; intros Hl; [by intros k x H; simpl in H; rewrite lookup_empty in H|].
  apply Forall_app in Hl as [Hl [Hr _]%Forall_cons]. specialize (IH Hl).
  pose proof (merge_number l ∅ Hl (map_Forall_empty _)) as Hm.
  pose proof (merge_names l ∅) as Hnames.
  rewrite foldl_snoc. set (m := foldl merge_one ∅ l) in *. intros k x. rewrite merge_one_insert.
  intros [[<- Hx]|[Hne Hx]]%lookup_insert_Some.
  - unfold merge_opt in Hx. destruct (m !! sc_qn r) as [e|] eqn:He; subst x.
    + destruct (IH _ _ He) as [(r0 & Hr0 & Hn & Hs) Hall].
      pose proof (Hm _ _ He) as Hne. simpl in Hne.
      destruct (merge_pair_best e r Hne Hr) as [B1 B2]. destruct (merge_pair_le e r) as [L1 L2].
      split.
      * destruct (merge_pair_cases e r) as [(_ & -> & ->)|(_ & -> & ->)]; [exists r|exists r0]; set_solver.
      * intros r1 Hr1 Hk. apply elem_of_app in Hr1 as [Hr1|Hr1%list_elem_of_singleton]; [|by subst].
        destruct (Hall r1 Hr1 Hk) as [G1 G2]. split; [|by etrans].
        rewrite Forall_forall in Hl. pose proof (Hl r1 Hr1) as Hnr.
        destruct (merge_pair_cases e r) as [(Hg & _ & ->)|(_ & _ & ->)]; [|done].
        by eapply (float_gt_trans _ (sc_score e)).
    + split; [exists r; set_solver|].
      intros r1 Hr1 Hk. apply elem_of_app in Hr1 as [Hr1|Hr1%list_elem_of_singleton].
      * exfalso. specialize (Hnames (sc_qn r)). rewrite He in Hnames.
        destruct Hnames as [_ H]. destruct H as [? ?]; [|done]. right. rewrite <-Hk. by apply list_elem_of_fmap_2.
      * subst r1. split; [|done]. rewrite float_gt_false by done. unfold leb_of. by rewrite (cmp_refl key_compare).
  - destruct (IH _ _ Hx) as [(r0 & Hr0 & Hn & Hs) Hall]. split; [exists r0; set_solver|].
    intros r1 Hr1 Hk. apply elem_of_app in Hr1 as [Hr1|Hr1%list_elem_of_singleton];
      [by apply Hall|by subst].
Qed.

(** ** Properties *)

(** Merging two lists of hits keeps exactly one hit for every name in either: the node
    and the score of one of the highest-scored hits of that name, with evidence that shows
    everything the evidence of any of them shows. *)
Theorem merge_scored_nodes_best `{!HashOrder} (primary secondary : list ScoredNode)
    (Hnum : Forall number (primary ++ secondary)) :
  let out := merge_scored_nodes primary secondary in
  NoDup (map sc_qn out) ∧
  (∀ qn, qn ∈ map sc_qn out ↔ qn ∈ map sc_qn (primary ++ secondary)) ∧
  ∀ x, x ∈ out →
    (∃ r, r ∈ primary ++ secondary ∧ sc_node x = sc_node r ∧ sc_score x = sc_score r) ∧
    ∀ r, r ∈ primary ++ secondary → sc_qn r = sc_qn x →
      float_gt (sc_score r) (sc_score x) = false ∧ hit_le r x.
Proof.
  intros out. pose proof (merge_keyed (primary ++ secondary) ∅ keyed_empty) as Hk.
  pose proof (merge_names (primary ++ secondary) ∅) as Hn. split_and!.
  - by apply into_values_names.
  - intros qn. rewrite list_elem_of_fmap. split.
    + intros (x & -> & Hx%merge_scored_elem).
      destruct (proj1 (Hn (sc_qn x)) ltac:(by eexists)) as [[y Hy]|Hy]; [by rewrite lookup_empty in Hy|done].
    + intros Hq. destruct (proj2 (Hn qn) ltac:(by right)) as [x Hx]. exists x.
      pose proof (Hk _ _ Hx) as <-. split; [done|]. by apply merge_scored_elem.
  - intros x Hx%merge_scored_elem. exact (merged_of_fold _ Hnum _ _ Hx).
Qed.

(** A table that yields its entries in the order of the keys of the model. *)
Definition key_order : HashOrder := {|
  into_values m := map snd (map_to_list m);
  into_values_perm m := reflexivity _
|}.

Definition sample_node (kind : NodeKind) (name qn file : string) : Node :=
  mk_node 0 kind name qn file 1 2 "rust" None None None None false "".
Definition sample_hit (name qn : string) (score : N) : ScoredNode :=
  scored_new (sample_node NkFunction name qn "src/a.rs") (f64_of_N score).

Lemma merge_scored_nodes_best_witness :
  let p := [sample_hit "f" "a::f" 80; sample_hit "g" "a::g" 3] in
  let s := [sample_hit "g" "a::g" 5] in
  let out := @merge_scored_nodes key_order p s in
  map (λ r, (sc_qn r, sc_score r)) out ≡ₚ [("a::f", f64_of_N 80); ("a::g", f64_of_N 5)] ∧
  NoDup (map sc_qn out) ∧
  (∀ qn, qn ∈ map sc_qn out ↔ qn ∈ map sc_qn (p ++ s)) ∧
  ∀ x, x ∈ out →
    (∃ r, r ∈ p ++ s ∧ sc_node x = sc_node r ∧ sc_score x = sc_score r) ∧
    ∀ r, r ∈ p ++ s → sc_qn r = sc_qn x →
      float_gt (sc_score r) (sc_score x) = false ∧ hit_le r x.
Proof.
  intros p s out. split; [apply (bool_decide_unpack _); vm_compute; exact I|].
  apply (@merge_scored_nodes_best key_order p s). repeat constructor.
Defined.

Section boosts.
Context `{!Unicode} (lev : string → string → N).

Lemma boost_result_score c r :
  sc_score (boost_result lev c r) =
    f64_add (sc_score r) (f64_of_N (delta_N (sc_node r) (matches_of lev c (sc_node r)))).
Proof. unfold boost_result. simpl. by rewrite (proj1 (score_delta_exact lev c (sc_node r))). Qed.

Lemma boost_result_number c r : number r → number (boost_result lev c r).
Proof.
  intros Hr. unfold number. rewrite boost_result_score. apply f64_add_number; [done|].
  eapply f64_mag_finite, f64_of_N_mag.
  pose proof (proj2 (score_delta_exact lev c (sc_node r))). unfold u64_max. lia.
Qed.

Lemma boosts_number c l : Forall number l → Forall number (map (boost_result lev c) l).
Proof. intros Hl. apply Forall_map. eapply Forall_impl; [exact Hl|]. apply boost_result_number. Qed.

Lemma boosts_names c l : map sc_qn (map (boost_result lev c) l) = map sc_qn l.
Proof. rewrite map_map. done. Qed.

(** Boosting keeps every hit, adds to its score exactly the whole number its matches
    earn, at most 100, without rounding among the boosts, and sorts: no hit stands behind
    one of a lower score, and equal scores are in the order of their names. *)
Theorem apply_ranking_boosts_exact results query ref_file ref_lang fz recent changed
    (Hnum : Forall number results) :
  let c := boost_context query ref_file ref_lang fz recent changed in
  let delta n := delta_N n (matches_of lev c n) in
  let out := apply_ranking_boosts lev results query ref_file ref_lang fz recent changed in
  map (λ r, (sc_node r, sc_score r)) out ≡ₚ
    map (λ r, (sc_node r, f64_add (sc_score r) (f64_of_N (delta (sc_node r))))) results ∧
  (∀ n, (delta n ≤ 100)%N) ∧
  Forall number out ∧ StronglySorted (λ x y, scored_node_cmp x y ≠ Gt) out.
Proof.
  intros c delta out. split_and!.
  - unfold out, apply_ranking_boosts, sort_scored_nodes. rewrite sort_by_perm, map_map.
    erewrite map_ext; [done|]. intros r. by rewrite boost_result_score.
  - intros n. apply score_delta_exact.
  - unfold out, apply_ranking_boosts, sort_scored_nodes. rewrite sort_by_perm. by apply boosts_number.
  - by apply sort_scored_sorted, boosts_number.
Qed.

(** A hit that comes without evidence gets its boosted score as the raw one. *)
Lemma boost_raw_score c r :
  ranking_evidence r = None →
  ∃ e, ranking_evidence (boost_result lev c r) = Some e ∧
    raw_score e = Some (sc_score (boost_result lev c r)).
Proof.
  intros Hr. unfold boost_result, with_evidence, evidence_or_new, scoring_base_mode. simpl.
  rewrite Hr. simpl. eauto.
Qed.
End boosts.

Lemma apply_ranking_boosts_exact_witness :
  let results := [sample_hit "parser" "a::parser" 1; sample_hit "parse" "a::parse" 1] in
  let c := boost_context "parser" None None true ∅ ∅ in
  let delta n := delta_N n (matches_of (λ _ _, 1%N) c n) in
  let out := apply_ranking_boosts (λ _ _, 1%N) results "parser" None None true ∅ ∅ in
  map (λ r, (sc_node r, sc_score r)) out ≡ₚ
    map (λ r, (sc_node r, f64_add (sc_score r) (f64_of_N (delta (sc_node r))))) results ∧
  (∀ n, (delta n ≤ 100)%N) ∧
  Forall number out ∧ StronglySorted (λ x y, scored_node_cmp x y ≠ Gt) out.
Proof.
  apply (apply_ranking_boosts_exact (λ _ _, 1%N)
    [sample_hit "parser" "a::parser" 1; sample_hit "parse" "a::parse" 1]).
  repeat constructor.
Defined.

(** The near miss outranks the exact name: a fuzzy match earns 28, an exact one 20. *)
Example fuzzy_before_exact :
  let results := [sample_hit "parser" "a::parser" 1; sample_hit "parse" "a::parse" 1] in
  map (λ r, (sc_qn r, sc_score r))
    (apply_ranking_boosts (λ _ _, 1%N) results "parser" None None true ∅ ∅) =
  [("a::parse", f64_of_N 32); ("a::parser", f64_of_N 24)].
Proof. vm_compute. reflexivity. Qed.
