(* ===== verification/Search.v ===== *)
(** * Search: retrieval, fusion and graph expansion

    Model of [packages/atlas-search/src/search.rs], [hybrid.rs], [expand.rs], [semantic.rs],
    [execution.rs] and [capabilities.rs], and of the store-backed part of [scoring.rs]: how a
    query is run. The queries of the graph store and the embedding service are an interface
    whose calls may fail. *)

From Stdlib Require Import Floats.SpecFloat.
From S2P Require Import Prelude RustStr RustFloat Kinds Graph SearchData SearchRank.

#[local] Abbreviation hits := (gmap string ScoredNode).

(** ** The store and the embedding service *)

Class SearchStore (E V : Type) := {
  st_search : SearchQuery → result E (list ScoredNode);
  st_node_by_qname : string → result E (option Node);
  st_nodes_by_name : string → N → result E (list Node);
  st_nodes_by_qualified_names : list string → result E (list Node);
  st_nodes_connected_to : list string → result E (list Node);
  st_nodes_by_vector_similarity : V → N → result E (list ScoredNode);
  st_recently_indexed_files : N → result E (list string);
  st_files_referencing_symbols_in : string → N → result E (list (string * string));
  st_files_sharing_references_with : string → N → result E (list (string * string))
}.

(** ** [capabilities.rs] *)

Record BackendCapabilities := mk_caps {
  lexical_fts : bool;
  dense_vector : bool;
  hybrid_lexical_vector : bool;
  sparse_bm25_native : bool;
  metadata_filtering : bool
}.

Inductive ModeUnsupportedReason :=
| DenseVectorUnavailable | HybridUnavailable | LexicalFtsUnavailable | SparseBm25Unavailable.

Definition derive_capabilities {A} (embed_cfg : option A) : BackendCapabilities :=
  let has_vector := match embed_cfg with Some _ => true | None => false end in
  mk_caps true has_vector has_vector false true.

(** The first unsupported mode: its name and the reason. *)
Definition validate_mode_request (hybrid dense_only sparse lexical : bool)
    (caps : BackendCapabilities) : result (string * ModeUnsupportedReason) unit :=
  if hybrid && negb (hybrid_lexical_vector caps) then Err ("hybrid", HybridUnavailable)
  else if dense_only && negb (dense_vector caps) then Err ("dense_vector", DenseVectorUnavailable)
  else if sparse && negb (sparse_bm25_native caps) then Err ("sparse_bm25", SparseBm25Unavailable)
  else if lexical && negb (lexical_fts caps) then Err ("lexical_fts", LexicalFtsUnavailable)
  else Ok tt.

(** ** Reciprocal rank fusion *)

(** The entry of a name: its node, the sum so far and the contributions. *)
#[local] Abbreviation fused := (gmap string (ScoredNode * spec_float * list HybridRankContribution)).

Definition f64_one : spec_float := f64_of_N 1.

Definition rrf_contribution (k : N) (rank : nat) : spec_float :=
  f64_div f64_one (f64_add (f64_add (f64_of_N k) (f64_of_N (N.of_nat rank))) f64_one).

Definition rrf_entry (source : HybridRankingSource) (k : N) (acc : fused) (rank : nat)
    (n : ScoredNode) : fused :=
  let contribution := rrf_contribution k rank in
  let '(best, sum, sources) := default (n, f64_zero, []) (acc !! sc_qn n) in
  <[sc_qn n := (merge_result_evidence best n, f64_add sum contribution,
      sources ++ [mk_contribution source (N.of_nat rank + 1)%N contribution])]> acc.

Fixpoint rrf_list (source : HybridRankingSource) (k : N) (rank : nat) (acc : fused)
    (l : list ScoredNode) : fused :=
  match l with
  | [] => acc
  | n :: l' => rrf_list source k (S rank) (rrf_entry source k acc rank n) l'
  end.

Definition rrf_result (entry : ScoredNode * spec_float * list HybridRankContribution) : ScoredNode :=
  let '(n, score, sources) := entry in
  let e := default (new_evidence Hybrid score) (ranking_evidence n) in
  let e := set_base Hybrid (match raw_score e with None => Some score | r => r end) e in
  let e := set_provenance (graph_expansion e) (Some sources) (set_final score e) in
  mk_scored (sc_node n) score (Some e).

(** [acc.into_values().map(..)]: the results, in the order of the hash table. *)
Definition reciprocal_rank_fusion `{!HashOrder} (fts vector : list ScoredNode) (k : N) :
    list ScoredNode :=
  let acc := rrf_list SrcVector k 0 (rrf_list SrcFts5 k 0 ∅ fts) vector in
  sort_scored_nodes (into_values (rrf_result <$> acc)).

(** ** Searching *)

Section search.
Context {E V : Type} `{!SearchStore E V} `{!Unicode} `{!HashOrder}.
Context (levenshtein : string → string → N).

(** *** [exact_symbol_hits] *)

Definition admitted (q : SearchQuery) (n : Node) : bool :=
  (include_files q || negb (bool_decide (n_kind n = NkFile))) &&
  matches_subpath (n_file_path n) (subpath q).

Definition exact_qname_hit (n : Node) : ScoredNode :=
  let score := f64_of_N 100 in
  with_ranking_evidence n score
    (set_matches [MfQualifiedName] false true false None (new_evidence Fts5 score)).

Definition exact_name_hit (score : spec_float) (n : Node) : ScoredNode :=
  with_ranking_evidence n score
    (set_matches [MfName] true false false None (new_evidence Fts5 score)).

Definition exact_name_step (merged : hits) (n : Node) : hits :=
  let qn := n_qualified_name n in
  match merged !! qn with
  | Some existing => <[qn := merge_result_evidence existing (exact_name_hit (f64_of_N 100) n)]> merged
  | None => <[qn := exact_name_hit (f64_of_N 80) n]> merged
  end.

Definition exact_symbol_hits (q : SearchQuery) : result E (list ScoredNode) :=
  let trimmed := trim (q_text q) in
  if str_is_empty trimmed then Ok []
  else
    found <-? st_node_by_qname trimmed;;
    let merged : hits :=
      match found with
      | Some n => if admitted q n then {[n_qualified_name n := exact_qname_hit n]} else ∅
      | None => ∅
      end in
    if (length (split_whitespace trimmed) =? 1)%nat then
      named <-? st_nodes_by_name trimmed (N.max (q_limit q) 25);;
      Ok (into_values (foldl exact_name_step merged (filter (λ n, admitted q n) named)))
    else Ok (into_values merged).

(** *** [graph_expand] *)

Definition seed_map (seeds : list ScoredNode) : hits :=
  foldl (λ m s,
    let seeded := annotate_graph_seed 0 (sc_qn s) s in
    match m !! sc_qn seeded with Some _ => m | None => <[sc_qn seeded := seeded]> m end) ∅ seeds.

Definition max_seed_score (seeds : list ScoredNode) : spec_float :=
  f64_max (foldl (λ acc s, f64_max acc (sc_score s)) f64_zero seeds) f64_one.

Definition expanded_hit (hop : N) (score : spec_float) (seed : string) (n : Node) : ScoredNode :=
  annotate_graph_seed hop seed
    (with_ranking_evidence n score (with_raw_score score (new_evidence GraphExpand score))).

(** The map of results and the next frontier: names with the seed they come from. *)
Definition add_neighbor (hop : N) (score : spec_float) (seed : string)
    (st : hits * list (string * string)) (n : Node) : hits * list (string * string) :=
  let qn := n_qualified_name n in
  match fst st !! qn with
  | Some _ => st
  | None => (<[qn := expanded_hit hop score seed n]> (fst st), snd st ++ [(qn, seed)])
  end.

Fixpoint expand_one_hop (hop : N) (score : spec_float) (frontier : list (string * string))
    (st : hits * list (string * string)) : result E (hits * list (string * string)) :=
  match frontier with
  | [] => Ok st
  | (qn, seed) :: rest =>
      neighbors <-? st_nodes_connected_to [qn];;
      expand_one_hop hop score rest (foldl (add_neighbor hop score seed) st neighbors)
  end.

Fixpoint expand_all_hops (count : nat) (hop : N) (max_seed : spec_float) (limit : N) (m : hits)
    (frontier : list (string * string)) : result E hits :=
  match count with
  | O => Ok m
  | S count =>
      if bool_decide (frontier = []) || (limit <=? N.of_nat (size m))%N then Ok m
      else
        let hop_score := f64_div max_seed (f64_add (f64_of_N hop) f64_one) in
        st <-? expand_one_hop hop hop_score frontier (m, []);;
        expand_all_hops count (hop + 1)%N max_seed limit (fst st) (snd st)
  end.

Definition expand_map (seeds : list ScoredNode) (max_hops limit : N) : result E hits :=
  expand_all_hops (N.to_nat max_hops) 1 (max_seed_score seeds) limit (seed_map seeds)
    (map (λ s, (sc_qn s, sc_qn s)) seeds).

Definition graph_expand (seeds : list ScoredNode) (max_hops limit : N) : result E (list ScoredNode) :=
  m <-? expand_map seeds max_hops limit;;
  Ok (take (N.to_nat limit) (sort_scored_nodes (into_values m))).

(** *** [search_with_embedding] *)

Definition changed_set (q : SearchQuery) : gset string := list_to_set (changed_files q).

Definition recent_set (q : SearchQuery) : result E (gset string) :=
  if recent_boost q
  then (files <-? st_recently_indexed_files 50;; Ok (list_to_set files))
  else Ok ∅.

Definition boosts (q : SearchQuery) (recent changed : gset string) (rs : list ScoredNode) :
    list ScoredNode :=
  apply_ranking_boosts levenshtein rs (q_text q) (reference_file q) (reference_language q)
    (fuzzy_match q) recent changed.

(** An embedding configuration, as the call it makes. *)
Definition Embedding : Type := string → result E V.

Definition search_hybrid (q : SearchQuery) (embed_text : Embedding) : result E (list ScoredNode) :=
  fts_raw <-? st_search (with_text (build_fts_query (q_text q)) (top_k_fts q) q);;
  recent <-? recent_set q;;
  let fts_boosted := boosts q recent (changed_set q) fts_raw in
  query_vec <-? embed_text (q_text q);;
  vectors <-? st_nodes_by_vector_similarity query_vec (top_k_vector q);;
  let vector_results := maybe_exclude_file_nodes (include_files q) (top_k_vector q) vectors in
  Ok (maybe_exclude_file_nodes (include_files q) (q_limit q)
        (reciprocal_rank_fusion fts_boosted vector_results (rrf_k q))).

(** One relaxed candidate: kept within the edit distance, with the correction as evidence. *)
Definition relaxed_hit (q : SearchQuery) (r : ScoredNode) : option ScoredNode :=
  let text := trim (q_text q) in
  let cap := fuzzy_threshold_of (char_count text) in
  if (cap =? 0)%N then None
  else
    let distance := edit_distance_capped levenshtein (to_lowercase text)
      (to_lowercase (n_name (sc_node r))) cap in
    if (cap <? distance)%N then None
    else Some (with_evidence (λ e,
      add_matched_field MfName
        (set_matches (matched_fields e) (exact_name_match e) (exact_qualified_name_match e)
           (prefix_match e)
           (Some (mk_fuzzy (Some (n_name (sc_node r))) (Some (as_u8 distance)) (Some (as_u8 cap)))) e)) r).

Definition relaxed_limit (q : SearchQuery) : N := N.max (N.min (q_limit q * 5) u64_max) 25.

Definition fuzzy_results (q : SearchQuery) (fts_results : list ScoredNode) :
    result E (list ScoredNode) :=
  if fuzzy_match q then
    let relaxed_text := build_relaxed_fts_query (q_text q) in
    if str_is_empty relaxed_text then Ok fts_results
    else
      relaxed <-? st_search (with_text relaxed_text (relaxed_limit q) q);;
      Ok (merge_scored_nodes fts_results (omap (relaxed_hit q) relaxed))
  else Ok fts_results.

(** Expand the boosted seeds when asked to, and cut to the limit. *)
Definition finish (q : SearchQuery) (expand : bool) (boosted : list ScoredNode) :
    result E (list ScoredNode) :=
  if expand && negb (bool_decide (boosted = [])) then
    expanded <-? graph_expand boosted (graph_max_hops q) (q_limit q);;
    Ok (maybe_exclude_file_nodes (include_files q) (q_limit q) expanded)
  else Ok (maybe_exclude_file_nodes (include_files q) (q_limit q) boosted).

Definition search_fts (q : SearchQuery) : result E (list ScoredNode) :=
  exact_hits <-? exact_symbol_hits q;;
  fts <-? st_search (with_text (build_fts_query (q_text q)) (q_limit q) q);;
  fts <-? fuzzy_results q fts;;
  recent <-? recent_set q;;
  finish q (graph_expand_on q) (boosts q recent (changed_set q) (merge_scored_nodes exact_hits fts)).

Definition search_with_embedding (q : SearchQuery) (embed_cfg : option Embedding) :
    result E (list ScoredNode) :=
  match embed_cfg with
  | Some embed_text => if hybrid q then search_hybrid q embed_text else search_fts q
  | None => search_fts q
  end.

(** *** [semantic.rs] *)

Definition graph_query_expansion (seeds : list ScoredNode) (max_terms : N) :
    result E (list string) :=
  if bool_decide (seeds = []) || (max_terms =? 0)%N then Ok []
  else
    neighbors <-? st_nodes_connected_to (map sc_qn seeds);;
    let seed_names : gset string := list_to_set (map (λ s, to_lowercase (n_name (sc_node s))) seeds) in
    let terms := filter (λ name, name ∉ seed_names) (map (λ n, to_lowercase (n_name n)) neighbors) in
    Ok (take (N.to_nat max_terms) (dedup_by_key id (sort_by String.compare terms))).

Definition expanded_search (q : SearchQuery) : result E (list ScoredNode) :=
  initial <-? st_search (with_text (build_fts_query (q_text q)) (q_limit q) q);;
  extra_terms <-? graph_query_expansion initial 8;;
  if bool_decide (extra_terms = []) then
    Ok (maybe_exclude_file_nodes (include_files q) (q_limit q) (boosts q ∅ (changed_set q) initial))
  else
    let expanded_text := build_fts_query (q_text q) +:+ " OR " +:+ join " OR " extra_terms in
    expanded <-? st_search
      (with_text expanded_text (N.max (N.min (q_limit q * 2) u64_max) 40) q);;
    Ok (maybe_exclude_file_nodes (include_files q) (q_limit q)
          (boosts q ∅ (changed_set q) (merge_scored_nodes initial expanded))).

Definition context_boosted_search (q : SearchQuery) (context_files context_symbols : list string) :
    result E (list ScoredNode) :=
  let files := foldl (λ acc f, if bool_decide (f ∈ acc) then acc else acc ++ [f])
    (changed_files q) context_files in
  let effective := with_context files q in
  seeds <-? st_search (with_text (build_fts_query (q_text effective)) (q_limit effective) effective);;
  seeds <-? (if bool_decide (context_symbols = []) then Ok seeds
             else
               ctx <-? st_nodes_by_qualified_names context_symbols;;
               Ok (foldl (λ acc n,
                 if existsb (λ s, String.eqb (sc_qn s) (n_qualified_name n)) acc then acc
                 else acc ++ [scored_new n f64_one]) seeds ctx));;
  recent <-? recent_set effective;;
  finish q true (boosts q recent (changed_set effective) seeds).

(** *** [execution.rs] *)

Definition execute_query_inner (q : SearchQuery) (semantic : bool) (embed_cfg : option Embedding) :
    result E (list ScoredNode) :=
  results <-? (if semantic then expanded_search q else search_with_embedding q embed_cfg);;
  if semantic && graph_expand_on q && negb (bool_decide (results = [])) then
    expanded <-? graph_expand results (graph_max_hops q) (q_limit q);;
    Ok (maybe_exclude_file_nodes (include_files q) (q_limit q) expanded)
  else Ok results.

Inductive QueryExecutionMode :=
| ModeFts5 | ModeRegexScan | ModeRegexScanExpand | ModeFts5VectorHybrid | ModeFts5Expand
| ModeFts5Regex | ModeFts5RegexExpand.

Definition QueryExecutionMode_as_str (m : QueryExecutionMode) : string :=
  match m with
  | ModeFts5 => "fts5"
  | ModeRegexScan => "regex_structural_scan"
  | ModeRegexScanExpand => "regex_structural_scan_graph_expand"
  | ModeFts5VectorHybrid => "fts5_vector_hybrid"
  | ModeFts5Expand => "fts5_graph_expand"
  | ModeFts5Regex => "fts5_regex_filter"
  | ModeFts5RegexExpand => "fts5_regex_filter_graph_expand"
  end.

Definition query_execution_mode_for (q : SearchQuery) (semantic hybrid_backend_available : bool) :
    QueryExecutionMode :=
  let graph_aware := semantic || graph_expand_on q in
  match str_is_empty (trim (q_text q)), bool_decide (is_Some (regex_pattern q)), graph_aware,
        hybrid q && hybrid_backend_available with
  | true, true, false, _ => ModeRegexScan
  | true, true, true, _ => ModeRegexScanExpand
  | false, false, _, true => ModeFts5VectorHybrid
  | false, false, true, false => ModeFts5Expand
  | false, true, false, false => ModeFts5Regex
  | false, true, true, false => ModeFts5RegexExpand
  | _, _, _, _ => ModeFts5
  end.

Definition hybrid_backend_available (q : SearchQuery) (embed_cfg : option Embedding) : bool :=
  hybrid q && hybrid_lexical_vector (derive_capabilities embed_cfg).

(** The answer and the mode its latency is recorded under. *)
Definition execute_query_with_embedding (q : SearchQuery) (semantic : bool)
    (embed_cfg : option Embedding) : result E (list ScoredNode) * string :=
  (execute_query_inner q semantic embed_cfg,
   QueryExecutionMode_as_str
     (query_execution_mode_for q semantic (hybrid_backend_available q embed_cfg))).
End search.

(** ** Names and numbers *)

Lemma annotate_graph_seed_name hop seed r :
  sc_qn (annotate_graph_seed hop seed r) = sc_qn r ∧
  sc_score (annotate_graph_seed hop seed r) = sc_score r ∧
  sc_node (annotate_graph_seed hop seed r) = sc_node r.
Proof. done. Qed.

(** The tables of a search: entries under their names, with numbers for scores. *)
Definition table_ok (m : hits) : Prop := keyed m ∧ map_Forall (λ _, number) m.

Lemma table_ok_insert (m : hits) r : table_ok m → number r → table_ok (<[sc_qn r := r]> m).
Proof.
  intros [Hk Hn] Hr. split.
  - intros k x [[<- <-]|[Hne Hx]]%lookup_insert_Some; [done|by apply Hk].
  - by apply map_Forall_insert_2.
Qed.

Lemma table_ok_empty : table_ok ∅.
Proof. split; [apply keyed_empty|apply map_Forall_empty]. Qed.

Lemma table_ok_merge l m : Forall number l → table_ok m → table_ok (foldl merge_one m l).
Proof. intros Hl [Hk Hn]. split; [by apply merge_keyed|by apply merge_number]. Qed.

Section tables.
Context `{!HashOrder}.

Lemma table_values_number (m : hits) : table_ok m → Forall number (into_values m).
Proof.
  intros [_ Hn]. apply Forall_forall. intros r [k Hk]%into_values_elem. by apply (Hn k).
Qed.

Lemma merged_number l1 l2 : Forall number l1 → Forall number l2 → Forall number (merge_scored_nodes l1 l2).
Proof.
  intros H1 H2. apply table_values_number, table_ok_merge; [by apply Forall_app|apply table_ok_empty].
Qed.

Lemma merged_names l1 l2 : NoDup (map sc_qn (merge_scored_nodes l1 l2)).
Proof. apply into_values_names, merge_keyed, keyed_empty. Qed.
End tables.

(** Two hash tables yield the same values in some order, so they sort alike. *)
Lemma into_values_both (o1 o2 : HashOrder) (m : hits) :
  @into_values o1 m ≡ₚ @into_values o2 m.
Proof. by rewrite !into_values_perm. Qed.

Lemma sort_values_both (o1 o2 : HashOrder) (m : hits) :
  table_ok m → sort_scored_nodes (@into_values o1 m) = sort_scored_nodes (@into_values o2 m).
Proof.
  intros Hm. apply sort_scored_unique; [by apply table_values_number| |apply into_values_both].
  apply into_values_names, Hm.
Qed.

(** Merging with the values of a table does not depend on their order. *)
Lemma merge_values_both (o1 o2 : HashOrder) (m : hits) l1 l2 :
  keyed m → (l1 = l2 ∨ NoDup (map sc_qn l1) ∧ l1 ≡ₚ l2) →
  foldl merge_one ∅ (@into_values o1 m ++ l1) = foldl merge_one ∅ (@into_values o2 m ++ l2).
Proof.
  intros Hm Hl. rewrite !foldl_app, !merge_rebuild by done.
  destruct Hl as [->|[Hnd Hp]]; [done|]. by apply merge_perm.
Qed.

(** ** Sums of positive numbers *)

Definition positive_or_zero (x : spec_float) : Prop :=
  match x with
  | S754_finite s _ _ | S754_infinity s | S754_zero s => s = false
  | S754_nan => False
  end.

Lemma positive_number x : positive_or_zero x → is_nan x = false.
Proof. by destruct x. Qed.

Lemma binary_round_aux_sign m e l : (0 ≤ m)%Z → positive_or_zero (binary_round_aux 53 1024 false m e l).
Proof.
  intros Hm. pose proof (binary_round_aux_number false m e l Hm) as H. revert H.
  unfold binary_round_aux. destruct (shr_fexp _ _ m e l) as [r1 e1].
  destruct (shr_fexp _ _ (round_nearest_even _ _) e1 loc_Exact) as [r2 e2].
  destruct (shr_m r2); [done| |done]. by destruct (_ <=? _)%Z.
Qed.

Lemma f64_of_N_positive n : positive_or_zero (f64_of_N n).
Proof.
  unfold f64_of_N. destruct n as [|p]; simpl; [done|]. unfold binary_round.
  destruct (shl_align _ _ _) as [mz ez]. by apply binary_round_aux_sign.
Qed.

Lemma f64_add_positive x y : positive_or_zero x → positive_or_zero y → positive_or_zero (f64_add x y).
Proof.
  destruct x as [[]|[]| |[] m e], y as [[]|[]| |[] m' e']; try done; intros _ _; unfold f64_add; simpl.
  unfold binary_round. destruct (shl_align _ _ _) as [mz ez]. by apply binary_round_aux_sign.
Qed.

Lemma rrf_contribution_positive k rank : positive_or_zero (rrf_contribution k rank).
Proof.
  unfold rrf_contribution.
  assert (positive_or_zero (f64_add (f64_add (f64_of_N k) (f64_of_N (N.of_nat rank))) f64_one)) as H
    by eauto using f64_add_positive, f64_of_N_positive.
  destruct (f64_add _ f64_one) as [[]|[]| |[] m e]; try done;
    change f64_one with (S754_finite false 4503599627370496 (-52)); unfold f64_div; cbn [SFdiv xorb].
  - set (r := SFdiv_core_binary 53 1024 _ _ _ _).
    assert (0 ≤ fst (fst r))%Z as Hr.
    { unfold r, SFdiv_core_binary. set (m' := match (_ - _)%Z with Z0 => _ | _ => _ end).
      assert (0 ≤ m')%Z as Hm'.
      { unfold m'. destruct (_ - _)%Z as [|p|p]; [lia| |lia]. apply Z.shiftl_nonneg. lia. }
      pose proof (Z.div_pos m' (Z.pos m) Hm' ltac:(lia)) as Hq. unfold Z.div in Hq.
      by destruct (Z.div_eucl m' (Z.pos m)). }
    destruct r as [[mz ez] lz]. simpl in Hr. by apply binary_round_aux_sign.
Qed.

(** ** Fusion *)

Definition fused_ok (acc : fused) : Prop :=
  ∀ k n s l, acc !! k = Some (n, s, l) → sc_qn n = k ∧ positive_or_zero s.

Lemma rrf_entry_ok src k (acc : fused) rank n : fused_ok acc → fused_ok (rrf_entry src k acc rank n).
Proof.
  intros Ha. unfold rrf_entry.
  assert (∀ b s l, default (n, f64_zero, []) (acc !! sc_qn n) = (b, s, l) →
    sc_qn b = sc_qn n ∧ positive_or_zero s) as Hd.
  { intros b s l. destruct (acc !! sc_qn n) as [[[b' s'] l']|] eqn:E; simpl; intros [= <- <- <-]; [|done].
    by apply (Ha _ _ _ _ E). }
  destruct (default _ _) as [[b s] l]. destruct (Hd b s l eq_refl) as [Hb Hs].
  intros k' n' s' l' [[<- [= <- <- <-]]|[Hne Hx]]%lookup_insert_Some; [|by apply (Ha _ _ _ l')].
  split; [done|]. apply f64_add_positive; [done|apply rrf_contribution_positive].
Qed.

Lemma rrf_list_ok src k l : ∀ rank acc, fused_ok acc → fused_ok (rrf_list src k rank acc l).
Proof. induction l as [|n l IH]; intros rank acc Ha; simpl; [done|]. by apply IH, rrf_entry_ok. Qed.

Lemma fused_empty : fused_ok ∅.
Proof. intros k n s l H. by rewrite lookup_empty in H. Qed.

Lemma rrf_table_ok (acc : fused) : fused_ok acc → table_ok (rrf_result <$> acc).
Proof.
  intros Ha. split.
  - intros k r. rewrite lookup_fmap. intros ([[n s] l] & H & ->)%fmap_Some. by destruct (Ha _ _ _ _ H).
  - intros k r. rewrite lookup_fmap. intros ([[n s] l] & H & ->)%fmap_Some.
    apply positive_number. by destruct (Ha _ _ _ _ H).
Qed.

Definition rrf_table (fts vector : list ScoredNode) (k : N) : hits :=
  rrf_result <$> rrf_list SrcVector k 0 (rrf_list SrcFts5 k 0 ∅ fts) vector.

Lemma rrf_table_fine fts vector k : table_ok (rrf_table fts vector k).
Proof. by apply rrf_table_ok, rrf_list_ok, rrf_list_ok, fused_empty. Qed.

Lemma rrf_both (o1 o2 : HashOrder) fts vector k :
  @reciprocal_rank_fusion o1 fts vector k = @reciprocal_rank_fusion o2 fts vector k.
Proof. apply sort_values_both, rrf_table_fine. Qed.

(** ** Graph expansion is a breadth-first search *)

Section expand.
Context {E V : Type} `{!SearchStore E V}.

(** A path of [d] hops from a seed, through the answers of the store. *)
Inductive path (seed : string) : nat → string → Prop :=
| path_seed : path seed 0 seed
| path_step d q ns n : path seed d q → st_nodes_connected_to [q] = Ok ns → n ∈ ns →
    path seed (S d) (n_qualified_name n).

Definition hop_score (max_seed : spec_float) (h : nat) : spec_float :=
  f64_div max_seed (f64_add (f64_of_N (N.of_nat h)) f64_one).

Section levels.
Context (seeds : list ScoredNode) (max_seed : spec_float).

Definition from_seed (d : nat) (qn : string) : Prop := ∃ seed, seed ∈ map sc_qn seeds ∧ path seed d qn.

(** What an entry of the table tells about its node. *)
Definition entry_at (h : nat) (k : string) (r : ScoredNode) : Prop :=
  sc_qn r = k ∧
  ∃ e seed, ranking_evidence r = Some e ∧ final_score e = sc_score r ∧
    graph_expansion e = Some (mk_expansion (N.of_nat h) (Some seed)) ∧
    seed ∈ map sc_qn seeds ∧ path seed h k ∧
    match h with
    | O => ∃ s, s ∈ seeds ∧ sc_node r = sc_node s ∧ sc_score r = sc_score s
    | S _ => sc_score r = hop_score max_seed h
    end.

(** The table and the frontier once all distances below [j] are done. *)
Record level (j : nat) (m : hits) (frontier : list (string * string)) : Prop := {
  level_entries : ∀ k r, m !! k = Some r → ∃ h, (h < j)%nat ∧ entry_at h k r;
  level_done : ∀ d k, (d < j)%nat → from_seed d k →
    ∃ r h, m !! k = Some r ∧ (h ≤ d)%nat ∧ entry_at h k r;
  level_frontier : ∀ k r, m !! k = Some r → entry_at (pred j) k r → k ∈ map fst frontier;
  level_seeds : ∀ k seed, (k, seed) ∈ frontier →
    seed ∈ map sc_qn seeds ∧ path seed (pred j) k
}.

Lemma entry_at_fun h h' k r : entry_at h k r → entry_at h' k r → h = h'.
Proof.
  intros (_ & e & s & He & _ & Hg & _) (_ & e' & s' & He' & _ & Hg' & _).
  simplify_eq. lia.
Qed.

Lemma seed_map_spec l : ∀ (m : hits), (∀ s, s ∈ l → s ∈ seeds) →
  (∀ k r, m !! k = Some r → entry_at 0 k r) →
  let m' := foldl (λ m s,
    let seeded := annotate_graph_seed 0 (sc_qn s) s in
    match m !! sc_qn seeded with Some _ => m | None => <[sc_qn seeded := seeded]> m end) m l in
  (∀ k r, m' !! k = Some r → entry_at 0 k r) ∧
  (∀ k, is_Some (m' !! k) ↔ is_Some (m !! k) ∨ k ∈ map sc_qn l).
Proof.
  induction l as [|s l IH]; intros m Hl Hm; simpl; [split; [done|set_solver]|].
  change (sc_qn (annotate_graph_seed 0 (sc_qn s) s)) with (sc_qn s).
  destruct (m !! sc_qn s) as [r|] eqn:Hs.
  - destruct (IH m ltac:(set_solver) Hm) as [H1 H2]. split; [done|]. intros k. rewrite H2.
    split; [set_solver|]. intros [?|[->|?]%elem_of_cons]; eauto.
  - destruct (IH (<[sc_qn s := annotate_graph_seed 0 (sc_qn s) s]> m)) as [H1 H2].
    + set_solver.
    + intros k r [[<- <-]|[Hne Hr]]%lookup_insert_Some; [|by apply Hm].
      assert (sc_qn s ∈ map sc_qn seeds) by (apply list_elem_of_fmap_2; set_solver).
      split; [done|]. eexists _, (sc_qn s). split_and!; [done..|constructor|].
      exists s. split; [set_solver|done].
    + split; [done|]. intros k. rewrite H2, lookup_insert_is_Some'. set_solver.
Qed.

Lemma level_start : level 1 (seed_map seeds) (map (λ s, (sc_qn s, sc_qn s)) seeds).
Proof.
  destruct (seed_map_spec seeds ∅) as [H1 H2]; [done|by intros k r H; rewrite lookup_empty in H|].
  fold (seed_map seeds) in H1, H2.
  assert (map fst (map (λ s, (sc_qn s, sc_qn s)) seeds) = map sc_qn seeds) as Hf by (by rewrite map_map).
  split.
  - intros k r Hr. exists 0%nat. split; [lia|by apply H1].
  - intros d k Hd (seed & Hs & Hp). destruct d as [|d]; [|lia]. inversion Hp; subst.
    destruct (proj2 (H2 k) ltac:(by right)) as [r Hr]. exists r, 0%nat.
    split_and!; [done|lia|by apply H1].
  - intros k r Hr _. rewrite Hf. destruct (proj1 (H2 k) ltac:(by eexists)) as [[x Hx]|]; [|done].
    by rewrite lookup_empty in Hx.
  - intros k seed (s & [= -> ->] & Hs)%list_elem_of_fmap.
    split; [by apply list_elem_of_fmap_2|constructor].
Qed.

(** The nodes a frontier adds: all at the same distance, all in the next frontier. *)
Record adding (j : nat) (m : hits) (st : hits * list (string * string)) : Prop := {
  adding_old : ∀ k r, m !! k = Some r → fst st !! k = Some r;
  adding_new : ∀ k r, fst st !! k = Some r → m !! k = Some r ∨ m !! k = None ∧ entry_at j k r ∧ k ∈ map fst (snd st);
  adding_seeds : ∀ k seed, (k, seed) ∈ snd st → seed ∈ map sc_qn seeds ∧ path seed j k
}.

Lemma add_neighbors_spec j m q seed all ns : ∀ st,
  seed ∈ map sc_qn seeds → path seed j q → st_nodes_connected_to [q] = Ok all →
  (∀ n, n ∈ ns → n ∈ all) → adding (S j) m st →
  let st' := foldl (add_neighbor (N.of_nat (S j)) (hop_score max_seed (S j)) seed) st ns in
  adding (S j) m st' ∧
  (∀ k, is_Some (fst st !! k) → is_Some (fst st' !! k)) ∧
  (∀ n, n ∈ ns → is_Some (fst st' !! n_qualified_name n)).
Proof.
  induction ns as [|n ns IH]; intros st Hseed Hp Hall Hns Hst; simpl.
  { split_and!; [done|done|set_solver]. }
  assert (adding (S j) m (add_neighbor (N.of_nat (S j)) (hop_score max_seed (S j)) seed st n) ∧
    (∀ k, is_Some (fst st !! k) →
       is_Some (fst (add_neighbor (N.of_nat (S j)) (hop_score max_seed (S j)) seed st n) !! k)) ∧
    is_Some (fst (add_neighbor (N.of_nat (S j)) (hop_score max_seed (S j)) seed st n) !! n_qualified_name n))
    as (Hst' & Hmono & Hin).
  { unfold add_neighbor. destruct (fst st !! n_qualified_name n) as [r|] eqn:Hq; [by rewrite Hq|].
    destruct Hst as [H1 H2 H3]. cbn [fst snd].
    assert (path seed (S j) (n_qualified_name n)) as Hpn by (eapply path_step; eauto; set_solver).
    split; [split|split].
    - intros k r Hr. cbn [fst]. rewrite lookup_insert_ne; [by apply H1|]. intros <-.
      rewrite (H1 _ _ Hr) in Hq. done.
    - intros k r. cbn [fst snd]. rewrite map_app. intros [[<- <-]|[Hne Hr]]%lookup_insert_Some.
      + right. split_and!; [|split; [done|eexists _, seed; by split_and!]|set_solver].
        destruct (m !! n_qualified_name n) as [r|] eqn:Hm; [|done]. by rewrite (H1 _ _ Hm) in Hq.
      + destruct (H2 _ _ Hr) as [?|(? & ? & ?)]; [by left|right]. split_and!; [done..|set_solver].
    - intros k s. cbn [snd]. intros [?|[= -> ->]%list_elem_of_singleton]%elem_of_app; [by apply H3|done].
    - intros k Hk. rewrite lookup_insert_is_Some'. auto.
    - rewrite lookup_insert_eq. by eexists. }
  destruct (IH _ Hseed Hp Hall ltac:(set_solver) Hst') as (H1 & H2 & H3).
  split_and!; [done|auto|]. intros n' [->|Hn']%elem_of_cons; [by apply H2|by apply H3].
Qed.

Lemma expand_one_hop_spec j m frontier : ∀ st st',
  (∀ k seed, (k, seed) ∈ frontier → seed ∈ map sc_qn seeds ∧ path seed j k) →
  adding (S j) m st →
  expand_one_hop (N.of_nat (S j)) (hop_score max_seed (S j)) frontier st = Ok st' →
  adding (S j) m st' ∧
  (∀ k, is_Some (fst st !! k) → is_Some (fst st' !! k)) ∧
  (∀ q ns n, q ∈ map fst frontier → st_nodes_connected_to [q] = Ok ns → n ∈ ns →
     is_Some (fst st' !! n_qualified_name n)).
Proof.
  induction frontier as [|[q seed] rest IH]; intros st st' Hf Hst; simpl.
  { intros [= <-]. split_and!; [done|done|set_solver]. }
  intros (ns & Hns & Hrest)%res_bind_ok.
  destruct (Hf q seed ltac:(set_solver)) as [Hseed Hp].
  destruct (add_neighbors_spec j m q seed ns ns st Hseed Hp Hns ltac:(done) Hst) as (H1 & H2 & H3).
  destruct (IH _ _ ltac:(set_solver) H1 Hrest) as (G1 & G2 & G3).
  split_and!; [done|by auto|]. intros q' ns' n [->|Hq]%elem_of_cons Hok Hn; [|by eapply G3].
  apply G2, H3. simpl in Hok. congruence.
Qed.

Lemma level_step j m frontier st' :
  level (S j) m frontier →
  expand_one_hop (N.of_nat (S j)) (hop_score max_seed (S j)) frontier (m, []) = Ok st' →
  level (S (S j)) (fst st') (snd st').
Proof.
  intros [L1 L2 L3 L4] Hex. simpl in L3, L4.
  assert (adding (S j) m (m, [])) as Hst by (split; simpl; [done|auto|set_solver]).
  destruct (expand_one_hop_spec j m frontier _ _ L4 Hst Hex) as ([A1 A2 A3] & _ & Hnew).
  split; simpl.
  - intros k r Hr. destruct (A2 _ _ Hr) as [Hm|(_ & He & _)].
    + destruct (L1 _ _ Hm) as (h & Hh & He). exists h. split; [lia|done].
    + exists (S j). split; [lia|done].
  - intros d k Hd Hf. destruct (decide (d = S j)) as [->|Hne].
    2:{ destruct (L2 d k ltac:(lia) Hf) as (r & h & Hr & Hh & He). exists r, h. auto. }
    destruct Hf as (seed & Hseed & Hp). inversion Hp as [|d' q ns n Hpq Hns Hn]; subst.
    destruct (L2 j q ltac:(lia) ltac:(by exists seed)) as (rq & hq & Hrq & Hhq & Heq).
    assert (∃ r, fst st' !! n_qualified_name n = Some r) as [r Hr].
    { destruct (decide (hq = j)) as [->|Hlt].
      - destruct (Hnew q ns n (L3 _ _ Hrq Heq) Hns Hn) as [r Hr]. by exists r.
      - destruct Heq as (_ & e & s & _ & _ & _ & Hs & Hps & _).
        destruct (L2 (S hq) (n_qualified_name n) ltac:(lia)) as (r & h & Hr & _).
        { exists s. split; [done|]. by eapply path_step. }
        exists r. by apply A1. }
    exists r. destruct (A2 _ _ Hr) as [Hm|(_ & He & _)].
    + destruct (L1 _ _ Hm) as (h & Hh & He). exists h. split_and!; [done|lia|done].
    + exists (S j). split_and!; [done|lia|done].
  - intros k r Hr He. destruct (A2 _ _ Hr) as [Hm|(_ & _ & Hk)]; [|done].
    destruct (L1 _ _ Hm) as (h & Hh & He'). pose proof (entry_at_fun _ _ _ _ He He'). lia.
  - intros k seed Hk. by apply A3.
Qed.

(** An empty frontier: nothing further is reachable. *)
Lemma level_exhausted j m : level (S j) m [] → ∀ d k, from_seed d k → is_Some (m !! k).
Proof.
  intros [L1 L2 L3 _] d. induction d as [|d IH]; intros k (seed & Hs & Hp).
  - destruct (L2 0%nat k ltac:(lia) ltac:(by exists seed)) as (r & _ & Hr & _). by exists r.
  - inversion Hp as [|d' q ns n Hpq Hns Hn]; subst.
    destruct (IH q ltac:(by exists seed)) as [rq Hrq].
    destruct (L1 _ _ Hrq) as (hq & Hhq & Heq).
    assert (hq ≠ j) as Hne.
    { intros ->. specialize (L3 _ _ Hrq Heq). by apply elem_of_nil in L3. }
    destruct Heq as (_ & e & s & _ & _ & _ & Hsd & Hps & _).
    destruct (L2 (S hq) (n_qualified_name n) ltac:(lia)) as (r & h & Hr & _); [|by exists r].
    exists s. split; [done|]. by eapply path_step.
Qed.

(** All hops: either all distances up to the bound are done, or nothing more is reachable,
    or the table has reached the limit. *)
Lemma expand_all_hops_spec limit count : ∀ j m frontier m',
  level (S j) m frontier →
  expand_all_hops count (N.of_nat (S j)) max_seed limit m frontier = Ok m' →
  ∃ j' frontier', (j ≤ j' ≤ j + count)%nat ∧ level (S j') m' frontier' ∧
    (j' = (j + count)%nat ∨ frontier' = [] ∨ (limit ≤ N.of_nat (size m'))%N).
Proof.
  induction count as [|count IH]; intros j m frontier m' Hl; cbn [expand_all_hops].
  { intros [= <-]. exists j, frontier. split; [lia|]. split; [done|]. left. lia. }
  destruct (bool_decide (frontier = []) || (limit <=? N.of_nat (size m))%N) eqn:Hstop.
  { intros [= <-]. exists j, frontier. split; [lia|]. split; [done|]. right.
    apply orb_true_iff in Hstop as [H%bool_decide_eq_true|H%N.leb_le]; auto. }
  intros (st & Hst & Hrest)%res_bind_ok.
  replace (N.of_nat (S j) + 1)%N with (N.of_nat (S (S j))) in Hrest by lia.
  pose proof (level_step j m frontier st Hl Hst) as Hl'.
  destruct (IH _ _ _ _ Hl' Hrest) as (j' & f' & Hj & Hl2 & Hor).
  exists j', f'. split; [lia|]. split; [done|]. destruct Hor as [->|?]; [left; lia|by right].
Qed.
End levels.
End expand.

(** ** Scores of expanded nodes *)

Lemma max_seed_positive seeds :
  is_nan (max_seed_score seeds) = false ∧ float_gt (max_seed_score seeds) f64_zero = true.
Proof.
  unfold max_seed_score. split; [by apply f64_max_number|].
  generalize (foldl (λ acc s, f64_max acc (sc_score s)) f64_zero seeds). intros x.
  unfold f64_max. change (is_nan f64_one) with false. cbn iota.
  destruct (is_nan x) eqn:Hx; [done|].
  destruct x as [[]|[]| |[] m e]; try done. destruct (SFltb _ f64_one); done.
Qed.

Lemma hop_score_number seeds h :
  (N.of_nat h ≤ u32_max)%N → is_nan (hop_score (max_seed_score seeds) h) = false.
Proof.
  intros Hh. destruct (max_seed_positive seeds) as [Hn Hp].
  apply f64_div_number; [done| |done]. eapply (f64_mag_finite _ 67).
  apply (f64_add_mag _ _ 65); [apply f64_of_N_mag|by apply (f64_of_N_mag 1)|apply f64_of_N_nonneg|done|lia].
  unfold u32_max, u64_max in *. lia.
Qed.

Section expanded.
Context {E V : Type} `{!SearchStore E V}.

Lemma expand_map_spec seeds max_hops limit m :
  expand_map seeds max_hops limit = Ok m →
  ∃ j frontier, (j ≤ N.to_nat max_hops)%nat ∧ level seeds (max_seed_score seeds) (S j) m frontier ∧
    (j = N.to_nat max_hops ∨ frontier = [] ∨ (limit ≤ N.of_nat (size m))%N).
Proof.
  intros H. destruct (expand_all_hops_spec seeds (max_seed_score seeds) limit (N.to_nat max_hops) 0
    (seed_map seeds) _ m (level_start seeds (max_seed_score seeds)) H) as (j & f & Hj & Hl & Hor).
  exists j, f. split; [lia|]. by split.
Qed.

Lemma expand_map_ok seeds max_hops limit m :
  (max_hops ≤ u32_max)%N → Forall number seeds →
  expand_map seeds max_hops limit = Ok m → table_ok m.
Proof.
  intros Hmax Hnum H. destruct (expand_map_spec _ _ _ _ H) as (j & f & Hj & [L1 _ _ _] & _).
  split.
  - intros k r Hr. destruct (L1 _ _ Hr) as (h & _ & Hk & _). done.
  - intros k r Hr. destruct (L1 _ _ Hr) as (h & Hh & _ & e & s & _ & _ & _ & _ & _ & Hs).
    rewrite Forall_forall in Hnum. unfold number. destruct h as [|h].
    + destruct Hs as (s' & Hs' & _ & ->). by apply Hnum.
    + rewrite Hs. apply hop_score_number. lia.
Qed.

Lemma graph_expand_both (o1 o2 : HashOrder) seeds max_hops limit :
  (max_hops ≤ u32_max)%N → Forall number seeds →
  @graph_expand E V _ o1 seeds max_hops limit = @graph_expand E V _ o2 seeds max_hops limit.
Proof.
  intros Hmax Hnum. unfold graph_expand. destruct (expand_map seeds max_hops limit) as [m|e] eqn:Hm; [|done].
  simpl. do 2 f_equal. apply sort_values_both. by eapply expand_map_ok.
Qed.

Lemma graph_expand_shape `{!HashOrder} seeds max_hops limit out :
  (max_hops ≤ u32_max)%N → Forall number seeds → graph_expand seeds max_hops limit = Ok out →
  NoDup (map sc_qn out) ∧ (length out ≤ N.to_nat limit)%nat ∧
  StronglySorted (λ x y, scored_node_cmp x y ≠ Gt) out.
Proof.
  intros Hmax Hnum Hok. unfold graph_expand in Hok. apply res_bind_ok in Hok as (m & Hm & [= <-]).
  pose proof (expand_map_ok _ _ _ _ Hmax Hnum Hm) as Htab.
  set (s := sort_scored_nodes (into_values m)). split_and!.
  - eapply sublist_NoDup; [|apply fmap_sublist, sublist_take].
    change (NoDup (map sc_qn s)). unfold s, sort_scored_nodes.
    rewrite (Permutation_map sc_qn (sort_by_perm scored_node_cmp _)). apply into_values_names, Htab.
  - rewrite length_take. lia.
  - apply (StronglySorted_app_1_l _ _ (drop (N.to_nat limit) s)). rewrite take_drop.
    by apply sort_scored_sorted, table_values_number.
Qed.

(** C22. Graph expansion is a breadth-first search: the results are distinct nodes, sorted,
    within the limit; each is marked with its distance from the nearest seed, which is at
    most the number of hops, and with a seed at that distance; it keeps the score of a seed
    at distance zero and otherwise has the best seed score divided by the distance plus
    one. If there is room left, every node within the hops is among them. *)
Theorem graph_expand_bfs `{!HashOrder} seeds max_hops limit out
    (Hmax : (max_hops ≤ u32_max)%N) (Hnum : Forall number seeds)
    (Hok : graph_expand seeds max_hops limit = Ok out) :
  NoDup (map sc_qn out) ∧ (length out ≤ N.to_nat limit)%nat ∧
  StronglySorted (λ x y, scored_node_cmp x y ≠ Gt) out ∧
  (∀ r, r ∈ out → ∃ h, (h ≤ N.to_nat max_hops)%nat ∧
     entry_at seeds (max_seed_score seeds) h (sc_qn r) r ∧
     ∀ d, from_seed seeds d (sc_qn r) → (h ≤ d)%nat) ∧
  ((length out < N.to_nat limit)%nat →
   ∀ d k, (d ≤ N.to_nat max_hops)%nat → from_seed seeds d k → k ∈ map sc_qn out).
Proof.
  destruct (graph_expand_shape seeds max_hops limit out Hmax Hnum Hok) as (Hnames & Hlen & Hsorted).
  split; [done|]. split; [done|]. split; [done|]. clear Hnames Hlen Hsorted.
  unfold graph_expand in Hok. apply res_bind_ok in Hok as (m & Hm & [= <-]).
  pose proof (expand_map_ok _ _ _ _ Hmax Hnum Hm) as Htab.
  destruct (expand_map_spec _ _ _ _ Hm) as (j & f & Hj & Hl & Hor).
  set (s := sort_scored_nodes (into_values m)).
  assert (s ≡ₚ into_values m) as Hperm by apply sort_by_perm.
  assert (∀ r, r ∈ s → m !! sc_qn r = Some r) as Hin.
  { intros r Hr. rewrite Hperm in Hr. apply into_values_elem in Hr as [k Hk].
    destruct Htab as [Hkey _]. by rewrite (Hkey _ _ Hk). }
  split.
  - intros r (i & Hi & _)%elem_of_take. apply list_elem_of_lookup_2 in Hi as Hr. specialize (Hin r Hr). destruct Hl as [L1 L2 _ _].
    destruct (L1 _ _ Hin) as (h & Hh & He). exists h. split_and!; [lia|done|].
    intros d Hd. destruct (decide (d < S j)%nat) as [Hlt|]; [|lia].
    destruct (L2 _ _ Hlt Hd) as (r' & h' & Hr' & Hle & He'). simplify_eq.
    by rewrite (entry_at_fun _ _ _ _ _ _ He He').
  - rewrite length_take. intros Hlen d k Hd Hk.
    assert (length s = size m) as Hsize.
    { rewrite Hperm, into_values_perm. rewrite length_map. apply length_map_to_list. }
    rewrite take_ge by lia.
    assert (is_Some (m !! k)) as [r Hr].
    { destruct Hor as [->|[->|Hge]]; [|by eapply level_exhausted|lia].
      destruct Hl as [_ L2 _ _]. destruct (L2 d k ltac:(lia) Hk) as (r & _ & Hr & _). by exists r. }
    destruct Htab as [Hkey _]. apply list_elem_of_fmap. exists r. split; [by rewrite (Hkey _ _ Hr)|].
    rewrite Hperm. apply into_values_elem. eauto.
Qed.
End expanded.

(** ** One answer, whatever the order of the hash tables *)

Section answers.
Context {E V : Type} {store : SearchStore E V} {unicode : Unicode} (levenshtein : string → string → N).

(** The store reports numbers as scores: BM25 ranks and cosines. *)
Definition store_numbers : Prop :=
  ∀ q rs, st_search q = Ok rs → Forall number rs.

(** The table behind [exact_symbol_hits]. *)
Definition exact_table (q : SearchQuery) : result E hits :=
  let trimmed := trim (q_text q) in
  if str_is_empty trimmed then Ok ∅
  else
    found <-? st_node_by_qname trimmed;;
    let merged : hits :=
      match found with
      | Some n => if admitted q n then {[n_qualified_name n := exact_qname_hit n]} else ∅
      | None => ∅
      end in
    if (length (split_whitespace trimmed) =? 1)%nat then
      named <-? st_nodes_by_name trimmed (N.max (q_limit q) 25);;
      Ok (foldl exact_name_step merged (filter (λ n, admitted q n) named))
    else Ok merged.

Lemma into_values_empty `{!HashOrder} : into_values ∅ = [].
Proof. apply Permutation_nil. rewrite into_values_perm, map_to_list_empty. done. Qed.

Lemma exact_symbol_hits_table `{!HashOrder} q :
  exact_symbol_hits q = (m <-? exact_table q;; Ok (into_values m)).
Proof.
  unfold exact_symbol_hits, exact_table. destruct (str_is_empty _); simpl; [by rewrite into_values_empty|].
  destruct (st_node_by_qname _) as [found|e]; simpl; [|done].
  destruct (_ =? 1)%nat; [|done]. by destruct (st_nodes_by_name _ _).
Qed.

Lemma exact_name_steps_ok ns : ∀ m : hits, table_ok m → table_ok (foldl exact_name_step m ns).
Proof.
  induction ns as [|n ns IH]; intros m Hm; simpl; [done|]. apply IH. unfold exact_name_step.
  destruct (m !! n_qualified_name n) as [x|] eqn:Hx.
  - destruct Hm as [Hk Hn]. pose proof (Hk _ _ Hx) as <-.
    apply (table_ok_insert m (merge_result_evidence x _)); [done|exact (Hn _ _ Hx)].
  - by apply (table_ok_insert m (exact_name_hit (f64_of_N 80) n)).
Qed.

Lemma exact_table_ok q m : exact_table q = Ok m → table_ok m.
Proof.
  unfold exact_table. destruct (str_is_empty _); [intros [= <-]; apply table_ok_empty|].
  intros (found & _ & H)%res_bind_ok.
  assert (table_ok match found with
    | Some n => if admitted q n then {[n_qualified_name n := exact_qname_hit n]} else ∅
    | None => ∅ end) as Hm.
  { destruct found as [n|]; [|apply table_ok_empty]. destruct (admitted q n); [|apply table_ok_empty].
    apply (table_ok_insert ∅ (exact_qname_hit n)); [apply table_ok_empty|done]. }
  destruct (_ =? 1)%nat; [|by injection H as <-].
  apply res_bind_ok in H as (named & _ & [= <-]). by apply exact_name_steps_ok.
Qed.

Lemma relaxed_number q rs : Forall number rs → Forall number (omap (relaxed_hit levenshtein q) rs).
Proof.
  intros H. rewrite Forall_forall in *. intros r (x & Hx & Hr)%list_elem_of_omap.
  specialize (H x Hx). unfold relaxed_hit in Hr. destruct (_ =? 0)%N; [done|].
  destruct (_ <? _)%N; [done|]. by injection Hr as <-.
Qed.

(** The lists two hash orders leave: the same, or the values of one table. *)
Definition alike (l1 l2 : list ScoredNode) : Prop :=
  Forall number l1 ∧ (l1 = l2 ∨ NoDup (map sc_qn l1) ∧ l1 ≡ₚ l2).

Lemma fuzzy_both (o1 o2 : HashOrder) q fts :
  store_numbers → Forall number fts →
  match @fuzzy_results E V _ _ o1 levenshtein q fts, @fuzzy_results E V _ _ o2 levenshtein q fts with
  | Ok l1, Ok l2 => alike l1 l2
  | Err e1, Err e2 => e1 = e2
  | _, _ => False
  end.
Proof.
  intros Hstore Hf. unfold fuzzy_results. destruct (fuzzy_match q); [|split; auto].
  destruct (str_is_empty _); [split; auto|].
  destruct (st_search _) as [rs|e] eqn:Hrs; simpl; [|done].
  apply Hstore in Hrs. split; [by apply merged_number, relaxed_number|right].
  split; [apply merged_names|apply into_values_both].
Qed.

Lemma boosts_numbers q recent changed l : Forall number l → Forall number (boosts levenshtein q recent changed l).
Proof.
  intros H. unfold boosts, apply_ranking_boosts, sort_scored_nodes. rewrite sort_by_perm.
  by apply boosts_number.
Qed.

Lemma boosts_table_both (o1 o2 : HashOrder) q recent changed (m : hits) :
  table_ok m →
  boosts levenshtein q recent changed (@into_values o1 m) =
    boosts levenshtein q recent changed (@into_values o2 m).
Proof.
  intros Hm. unfold boosts, apply_ranking_boosts. apply sort_scored_unique.
  - by apply boosts_number, table_values_number.
  - rewrite boosts_names. apply into_values_names, Hm.
  - apply Permutation_map, into_values_both.
Qed.

Lemma merged_table_ok l1 l2 : Forall number l1 → Forall number l2 → table_ok (foldl merge_one ∅ (l1 ++ l2)).
Proof. intros H1 H2. apply table_ok_merge; [by apply Forall_app|apply table_ok_empty]. Qed.

Lemma boosts_both (o1 o2 : HashOrder) q recent changed m l1 l2 :
  table_ok m → alike l1 l2 →
  boosts levenshtein q recent changed (@merge_scored_nodes o1 (@into_values o1 m) l1) =
    boosts levenshtein q recent changed (@merge_scored_nodes o2 (@into_values o2 m) l2).
Proof.
  intros Hm [Hn Hl]. unfold merge_scored_nodes.
  rewrite <-(merge_values_both o1 o2 m l1 l2); [|apply Hm|done].
  by apply boosts_table_both, merged_table_ok, Hn; try apply table_values_number.
Qed.

Lemma finish_both (o1 o2 : HashOrder) q expand l :
  (graph_max_hops q ≤ u32_max)%N → Forall number l →
  @finish E V _ o1 q expand l = @finish E V _ o2 q expand l.
Proof.
  intros Hmax Hl. unfold finish. destruct (_ && _); [|done].
  by rewrite (graph_expand_both o1 o2).
Qed.

Lemma search_fts_both (o1 o2 : HashOrder) q :
  store_numbers → (graph_max_hops q ≤ u32_max)%N →
  @search_fts E V _ _ o1 levenshtein q = @search_fts E V _ _ o2 levenshtein q.
Proof.
  intros Hstore Hmax. unfold search_fts. rewrite !exact_symbol_hits_table.
  destruct (exact_table q) as [m|e] eqn:Hm; simpl; [|done]. apply exact_table_ok in Hm.
  destruct (st_search _) as [fts|e] eqn:Hf; simpl; [|done]. apply Hstore in Hf.
  pose proof (fuzzy_both o1 o2 q fts Hstore Hf) as Hfz.
  destruct (@fuzzy_results E V _ _ o1 levenshtein q fts) as [l1|e1],
    (@fuzzy_results E V _ _ o2 levenshtein q fts) as [l2|e2]; simpl; [|done|done|by subst].
  destruct (recent_set q) as [recent|e]; simpl; [|done].
  rewrite <-(boosts_both o1 o2 q recent (changed_set q) m l1 l2 Hm Hfz).
  apply finish_both; [done|]. apply boosts_numbers, merged_number; [by apply table_values_number|apply Hfz].
Qed.

Lemma exclude_sublist include limit l : sublist (maybe_exclude_file_nodes include limit l) l.
Proof.
  unfold maybe_exclude_file_nodes. etrans; [apply sublist_take|].
  destruct include; [done|apply sublist_filter].
Qed.

Lemma exclude_number include limit l :
  Forall number l → Forall number (maybe_exclude_file_nodes include limit l).
Proof.
  rewrite !Forall_forall. intros H r Hr. apply H.
  eapply elem_of_submseteq; [exact Hr|]. apply sublist_submseteq, exclude_sublist.
Qed.

(** Two runs that differ in the continuation of the same call. *)
Ltac each_bind :=
  repeat match goal with
  | |- res_bind ?r _ = res_bind ?r _ => destruct r; simpl; [|done]
  end.

(** What a query answers does not depend on the order in which hash tables are walked:
    lexical, hybrid or semantic, with or without expansion, errors included. *)
Theorem search_order_independent (o1 o2 : HashOrder) q semantic (embed_cfg : option Embedding)
    (Hstore : store_numbers) (Hmax : (graph_max_hops q ≤ u32_max)%N) :
  @execute_query_inner E V _ _ o1 levenshtein q semantic embed_cfg =
  @execute_query_inner E V _ _ o2 levenshtein q semantic embed_cfg.
Proof.
  assert (@search_with_embedding E V _ _ o1 levenshtein q embed_cfg =
    @search_with_embedding E V _ _ o2 levenshtein q embed_cfg) as Hs.
  { unfold search_with_embedding, search_hybrid.
    destruct embed_cfg as [embed|]; [destruct (hybrid q)|]; try by apply search_fts_both.
    each_bind. by rewrite (rrf_both o1 o2). }
  assert (@expanded_search E V _ _ o1 levenshtein q = @expanded_search E V _ _ o2 levenshtein q ∧
    ∀ out, @expanded_search E V _ _ o1 levenshtein q = Ok out → Forall number out) as [He Hen].
  { unfold expanded_search. destruct (st_search _) as [initial|e] eqn:Hi; simpl; [|done].
    apply Hstore in Hi. destruct (graph_query_expansion _ _) as [terms|e]; simpl; [|done].
    case_bool_decide.
    { split; [done|]. intros out [= <-]. by apply exclude_number, boosts_numbers. }
    destruct (st_search _) as [expanded|e] eqn:Hx; simpl; [|done]. apply Hstore in Hx. split.
    - unfold merge_scored_nodes. by rewrite (boosts_table_both o1 o2) by by apply merged_table_ok.
    - intros out [= <-]. by apply exclude_number, boosts_numbers, merged_number. }
  unfold execute_query_inner. destruct semantic; simpl; [|by rewrite Hs].
  rewrite <-He. destruct (@expanded_search _ _ _ _ o1 levenshtein q) as [out|e]; simpl; [|done].
  destruct (_ && _); [|done]. by rewrite (graph_expand_both o1 o2) by auto.
Qed.

Lemma boosts_names_perm q recent changed l : map sc_qn (boosts levenshtein q recent changed l) ≡ₚ map sc_qn l.
Proof.
  unfold boosts, apply_ranking_boosts, sort_scored_nodes.
  rewrite (Permutation_map sc_qn (sort_by_perm scored_node_cmp _)). by rewrite boosts_names.
Qed.

(** What a list of answers looks like. *)
Record answer_ok (q : SearchQuery) (out : list ScoredNode) : Prop := {
  answer_names : NoDup (map sc_qn out);
  answer_limit : (length out ≤ N.to_nat (q_limit q))%nat;
  answer_sorted : StronglySorted (λ x y, scored_node_cmp x y ≠ Gt) out;
  answer_files : include_files q = false → Forall (λ r, n_kind (sc_node r) ≠ NkFile) out
}.

Lemma exclude_answer q l :
  NoDup (map sc_qn l) → StronglySorted (λ x y, scored_node_cmp x y ≠ Gt) l →
  answer_ok q (maybe_exclude_file_nodes (include_files q) (q_limit q) l).
Proof.
  intros Hnd Hs. split.
  - eapply sublist_NoDup; [exact Hnd|]. apply fmap_sublist, exclude_sublist.
  - unfold maybe_exclude_file_nodes. rewrite length_take. lia.
  - unfold maybe_exclude_file_nodes. set (l' := if include_files q then l else _).
    apply (StronglySorted_app_1_l _ _ (drop (N.to_nat (q_limit q)) l')). rewrite take_drop.
    unfold l'. destruct (include_files q); [done|]. clear -Hs. induction Hs as [|x l Hs IH Hx]; [constructor|].
    rewrite filter_cons. destruct (decide _); [|done]. constructor; [done|].
    rewrite Forall_forall in *. intros y [_ Hy]%list_elem_of_filter. auto.
  - unfold maybe_exclude_file_nodes. intros ->. apply Forall_forall.
    intros r (i & Hi & _)%elem_of_take. apply list_elem_of_lookup_2, list_elem_of_filter in Hi as [Hf _].
    intros Hk. unfold is_file_node in Hf. by rewrite Hk in Hf.
Qed.

(** An answer to a query holds each name once and at most the limit, best first with
    ties in the order of the names, and no file unless files were asked for. *)
Theorem search_answers_ok (o : HashOrder) q (embed_cfg : option Embedding) out
    (Hstore : store_numbers) (Hmax : (graph_max_hops q ≤ u32_max)%N)
    (Hok : search_with_embedding levenshtein q embed_cfg = Ok out) :
  answer_ok q out.
Proof.
  assert (search_fts levenshtein q = Ok out → answer_ok q out) as Hfts.
  { unfold search_fts. rewrite exact_symbol_hits_table. destruct (exact_table q) as [m|e] eqn:Hm; simpl; [|done].
    apply exact_table_ok in Hm. intros (fts & Hf%Hstore & H)%res_bind_ok.
    pose proof (fuzzy_both o o q fts Hstore Hf) as Hfz.
    apply res_bind_ok in H as (l & Hl & H). rewrite Hl in Hfz. destruct Hfz as [Hn _].
    apply res_bind_ok in H as (recent & _ & H).
    set (b := boosts _ _ _ _ _) in H.
    assert (Forall number b) as Hb by (apply boosts_numbers, merged_number; [by apply table_values_number|done]).
    assert (NoDup (map sc_qn b)) as Hnd by (unfold b; rewrite boosts_names_perm; apply merged_names).
    assert (StronglySorted (λ x y, scored_node_cmp x y ≠ Gt) b) as Hs.
    { apply sort_scored_sorted, boosts_number, merged_number; [by apply table_values_number|done]. }
    unfold finish in H. destruct (_ && _); [|injection H as <-; by apply exclude_answer].
    apply res_bind_ok in H as (ex & Hex & [= <-]).
    destruct (graph_expand_shape b _ _ _ Hmax Hb Hex) as (H1 & _ & H3). by apply exclude_answer. }
  unfold search_with_embedding in Hok. destruct embed_cfg as [embed|]; [destruct (hybrid q)|]; auto.
  unfold search_hybrid in Hok. repeat (apply res_bind_ok in Hok as (? & _ & Hok)). injection Hok as <-.
  pose proof (rrf_table_fine (boosts levenshtein q x0 (changed_set q) x)
    (maybe_exclude_file_nodes (include_files q) (top_k_vector q) x2) (rrf_k q)) as Hm.
  apply exclude_answer.
  - unfold reciprocal_rank_fusion, sort_scored_nodes.
    rewrite (Permutation_map sc_qn (sort_by_perm scored_node_cmp _)). apply into_values_names, Hm.
  - by apply sort_scored_sorted, table_values_number.
Qed.

(** With semantic expansion the embedding service is never asked, hybrid or not. *)
Lemma semantic_ignores_embedding (o : HashOrder) q embed_cfg :
  execute_query_inner levenshtein q true embed_cfg = execute_query_inner levenshtein q true None.
Proof. done. Qed.

(** Yet such a query is counted as a hybrid one. *)
Lemma semantic_hybrid_label (o : HashOrder) q embed :
  hybrid q = true → str_is_empty (trim (q_text q)) = false → regex_pattern q = None →
  execute_query_with_embedding levenshtein q true (Some embed) =
    (execute_query_inner levenshtein q true None, "fts5_vector_hybrid").
Proof.
  intros Hh Ht Hr. unfold execute_query_with_embedding, query_execution_mode_for, hybrid_backend_available.
  by rewrite Hh, Ht, Hr.
Qed.
End answers.

(** ** Fusion adds up the ranks *)

(** The contributions of a name in a ranked list. *)
Fixpoint occurrences (source : HybridRankingSource) (k : N) (rank : nat) (qn : string)
    (l : list ScoredNode) : list HybridRankContribution :=
  match l with
  | [] => []
  | n :: l' =>
      (if String.eqb (sc_qn n) qn
       then [mk_contribution source (N.of_nat rank + 1)%N (rrf_contribution k rank)] else []) ++
      occurrences source k (S rank) qn l'
  end.

Definition entry_view (acc : fused) (qn : string) : spec_float * list HybridRankContribution :=
  match acc !! qn with Some (_, s, l) => (s, l) | None => (f64_zero, []) end.

Lemma rrf_list_view src k qn l : ∀ rank acc,
  let occ := occurrences src k rank qn l in
  entry_view (rrf_list src k rank acc l) qn =
    (foldl f64_add (fst (entry_view acc qn)) (map score_contribution occ), snd (entry_view acc qn) ++ occ) ∧
  (is_Some (rrf_list src k rank acc l !! qn) ↔ is_Some (acc !! qn) ∨ qn ∈ map sc_qn l).
Proof.
  induction l as [|n l IH]; intros rank acc; simpl.
  { rewrite app_nil_r. split; [by destruct (entry_view acc qn)|set_solver]. }
  destruct (IH (S rank) (rrf_entry src k acc rank n)) as [-> ->].
  assert (entry_view (rrf_entry src k acc rank n) qn =
    if String.eqb (sc_qn n) qn then
      (f64_add (fst (entry_view acc qn)) (rrf_contribution k rank),
       snd (entry_view acc qn) ++ [mk_contribution src (N.of_nat rank + 1)%N (rrf_contribution k rank)])
    else entry_view acc qn) as ->.
  { unfold entry_view, rrf_entry. destruct (String.eqb_spec (sc_qn n) qn) as [<-|Hne].
    - destruct (acc !! sc_qn n) as [[[b s] lc]|]; simpl; by rewrite lookup_insert_eq.
    - destruct (default _ _) as [[b s] lc]. by rewrite lookup_insert_ne. }
  assert (is_Some (rrf_entry src k acc rank n !! qn) ↔ is_Some (acc !! qn) ∨ qn = sc_qn n) as ->.
  { unfold rrf_entry. destruct (default _ _) as [[b s] lc]. rewrite lookup_insert_is_Some'.
    split; intros [H|H]; auto. }
  split.
  - destruct (String.eqb _ _); simpl; [|done]. by rewrite <-app_assoc.
  - rewrite elem_of_cons. tauto.
Qed.

(** Fusing two ranked lists yields every name of either list once, best first. Its score
    is the sum, in the order of the lists, of one over [k] plus the rank for each place it
    has in them, and exactly these places are its evidence. *)
Theorem reciprocal_rank_fusion_exact `{!HashOrder} fts vector k :
  let out := reciprocal_rank_fusion fts vector k in
  NoDup (map sc_qn out) ∧
  (∀ qn, qn ∈ map sc_qn out ↔ qn ∈ map sc_qn fts ∨ qn ∈ map sc_qn vector) ∧
  StronglySorted (λ x y, scored_node_cmp x y ≠ Gt) out ∧
  ∀ r, r ∈ out →
    let places := occurrences SrcFts5 k 0 (sc_qn r) fts ++ occurrences SrcVector k 0 (sc_qn r) vector in
    sc_score r = foldl f64_add f64_zero (map score_contribution places) ∧
    ∃ e, ranking_evidence r = Some e ∧ base_mode e = Hybrid ∧ final_score e = sc_score r ∧
      hybrid_rrf e = Some places.
Proof.
  intros out. pose proof (rrf_table_fine fts vector k) as Hm.
  assert (out ≡ₚ into_values (rrf_table fts vector k)) as Hp by apply sort_by_perm.
  set (acc1 := rrf_list SrcFts5 k 0 ∅ fts). set (acc := rrf_list SrcVector k 0 acc1 vector).
  assert (∀ qn, entry_view acc qn = (foldl f64_add f64_zero (map score_contribution
      (occurrences SrcFts5 k 0 qn fts ++ occurrences SrcVector k 0 qn vector)),
      occurrences SrcFts5 k 0 qn fts ++ occurrences SrcVector k 0 qn vector) ∧
    (is_Some (acc !! qn) ↔ qn ∈ map sc_qn fts ∨ qn ∈ map sc_qn vector)) as Hacc.
  { intros qn. destruct (rrf_list_view SrcVector k qn vector 0 acc1) as [V1 V2].
    destruct (rrf_list_view SrcFts5 k qn fts 0 ∅) as [W1 W2]. fold acc in V1, V2. fold acc1 in W1, W2.
    rewrite W1 in V1. rewrite V1, V2, W2. unfold entry_view. rewrite lookup_empty. cbn [fst snd].
    rewrite map_app, foldl_app, is_Some_alt. split; [done|tauto]. }
  assert (∀ r, r ∈ out ↔ ∃ x, acc !! sc_qn r = Some x ∧ r = rrf_result x) as Hin.
  { intros r. rewrite Hp, into_values_elem. unfold rrf_table. fold acc1 acc. split.
    - intros [q Hq]. pose proof (proj1 Hm q r Hq) as <-. rewrite lookup_fmap in Hq.
      apply fmap_Some in Hq as (x & Hx & ->). eauto.
    - intros (x & Hx & ->). exists (sc_qn (rrf_result x)). rewrite lookup_fmap, Hx. done. }
  split_and!.
  - rewrite (Permutation_map sc_qn Hp). apply into_values_names, Hm.
  - intros qn. rewrite list_elem_of_fmap, <-(proj2 (Hacc qn)). split.
    + intros (r & -> & (x & Hx & _)%Hin). by exists x.
    + intros [x Hx]. exists (rrf_result x).
      assert (sc_qn (rrf_result x) = qn) as Hqn.
      { apply (proj1 Hm qn). unfold rrf_table. fold acc1 acc. by rewrite lookup_fmap, Hx. }
      split; [done|]. apply Hin. rewrite Hqn. eauto.
  - by apply sort_scored_sorted, table_values_number.
  - intros r ([[n s] l] & Hx & Hr)%Hin. cbv zeta.
    destruct (Hacc (sc_qn r)) as [Hv _]. unfold entry_view in Hv. rewrite Hx in Hv. injection Hv as Hs Hl.
    rewrite <-Hs, <-Hl. rewrite Hr. split; [done|]. eexists. split_and!; done.
Qed.

(** ** A small store *)

(** Three functions in a row, [f - g - h]; the text index finds only [f]. *)
Definition row : list string := ["f"; "g"; "h"].
Definition row_node (name : string) : Node := sample_node NkFunction name ("a::" +:+ name) "src/a.rs".
Definition row_neighbors (qn : string) : list Node :=
  if String.eqb qn "a::f" then [row_node "g"]
  else if String.eqb qn "a::g" then [row_node "f"; row_node "h"]
  else if String.eqb qn "a::h" then [row_node "g"]
  else [].

#[local] Instance row_store : SearchStore string unit := {|
  st_search q := Ok (if bool_decide (q_kind q = Some "struct") then []
    else [scored_new (row_node "f") (f64_of_N 3)]);
  st_node_by_qname qn := Ok (List.find (λ n, String.eqb (n_qualified_name n) qn) (map row_node row));
  st_nodes_by_name name _ := Ok (List.filter (λ n, String.eqb (n_name n) name) (map row_node row));
  st_nodes_by_qualified_names qns := Ok (List.filter (λ n, bool_decide (n_qualified_name n ∈ qns)) (map row_node row));
  st_nodes_connected_to qns := Ok (flat_map row_neighbors qns);
  st_nodes_by_vector_similarity _ _ := Ok [scored_new (row_node "h") (f64_of_N 1)];
  st_recently_indexed_files _ := Ok [];
  st_files_referencing_symbols_in _ _ := Ok [];
  st_files_sharing_references_with _ _ := Ok []
|}.
#[local] Existing Instance ascii_unicode.
#[local] Existing Instance key_order.

(** A table that yields its entries backwards. *)
Definition reverse_order : HashOrder := {|
  into_values m := reverse (map snd (map_to_list m));
  into_values_perm m := reverse_Permutation _
|}.

Lemma row_numbers : store_numbers.
Proof.
  intros q rs. cbn [st_search row_store]. intros [= <-]. case_bool_decide; by repeat constructor.
Qed.

Definition row_query (text : string) (limit hops : N) : SearchQuery :=
  mk_query text None None false None None None limit true hops None None false false [] true 60 60 60
    None [].

Lemma graph_expand_bfs_witness :
  let out := map (annotate_graph_seed 0 "a::f") [scored_new (row_node "f") (f64_of_N 3)] ++
    [expanded_hit 1 (f64_lit 3 2) "a::f" (row_node "g"); expanded_hit 2 f64_one "a::f" (row_node "h")] in
  graph_expand [scored_new (row_node "f") (f64_of_N 3)] 2 10 = Ok out ∧
  NoDup (map sc_qn out) ∧ (length out ≤ 10)%nat ∧
  StronglySorted (λ x y, scored_node_cmp x y ≠ Gt) out ∧
  (∀ r, r ∈ out → ∃ h, (h ≤ 2)%nat ∧
     entry_at [scored_new (row_node "f") (f64_of_N 3)]
       (max_seed_score [scored_new (row_node "f") (f64_of_N 3)]) h (sc_qn r) r ∧
     ∀ d, from_seed [scored_new (row_node "f") (f64_of_N 3)] d (sc_qn r) → (h ≤ d)%nat) ∧
  ((length out < 10)%nat →
   ∀ d k, (d ≤ 2)%nat → from_seed [scored_new (row_node "f") (f64_of_N 3)] d k → k ∈ map sc_qn out).
Proof.
  intros out.
  assert (graph_expand [scored_new (row_node "f") (f64_of_N 3)] 2 10 = Ok out) as Hok
    by (vm_compute; reflexivity).
  split; [exact Hok|].
  apply (graph_expand_bfs [scored_new (row_node "f") (f64_of_N 3)] 2 10 out); [done|by repeat constructor|done].
Defined.

Lemma search_order_independent_witness :
  map sc_qn <$> (match @execute_query_inner string unit _ _ key_order (λ _ _, 0%N) (row_query "f" 10 1) false None with
    | Ok l => Some l | Err _ => None end) = Some ["a::f"; "a::g"] ∧
  @execute_query_inner string unit _ _ key_order (λ _ _, 0%N) (row_query "f" 10 1) false None =
  @execute_query_inner string unit _ _ reverse_order (λ _ _, 0%N) (row_query "f" 10 1) false None.
Proof.
  split; [vm_compute; reflexivity|].
  exact (search_order_independent (λ _ _, 0%N) key_order reverse_order (row_query "f" 10 1) false None
    row_numbers ltac:(done)).
Defined.

Lemma search_answers_ok_witness :
  let q := row_query "f" 1 0 in
  ∃ out, search_with_embedding (λ _ _, 0%N) q (Some (λ _, Ok tt)) = Ok out ∧
    map sc_qn out = ["a::f"] ∧ answer_ok q out.
Proof.
  intros q.
  assert (∃ out, search_with_embedding (λ _ _, 0%N) q (Some (λ _, Ok tt)) = Ok out ∧
    map sc_qn out = ["a::f"]) as (o & Ho & Hn).
  { eexists. split; [vm_compute; reflexivity|reflexivity]. }
  exists o. split; [exact Ho|]. split; [exact Hn|].
  exact (search_answers_ok (λ _ _, 0%N) key_order q (Some (λ _, Ok tt)) o row_numbers ltac:(done) Ho).
Defined.

(** The filters of a query do not apply to exact hits: asked for structs, the search
    answers with a function that has the name. *)
Example exact_hits_bypass_filters :
  let q := mk_query "f" (Some "struct") None false None None None 10 false 0 None None false false []
    false 60 60 60 None ["another-repository"] in
  match search_with_embedding (λ _ _, 0%N) q None with
  | Ok out => map (λ r, (sc_qn r, n_kind (sc_node r))) out = [("a::f", NkFunction)]
  | Err _ => False
  end.
Proof. vm_compute. reflexivity. Qed.
