(* ===== verification/Redact.v ===== *)
(** * Redaction of event payloads

    Model of [packages/atlas-adapters/src/redact.rs]: what is removed from a JSON payload
    before it is written to the session ledger or indexed. The redaction of plain text works
    with the [regex] crate and is left out. *)

From Stdlib Require Import Floats.SpecFloat.
From S2P Require Import Prelude RustStr Json.

Definition REDACTED : string := "[REDACTED]".
Definition TOKEN_MIN_LEN : N := 16.
Definition HEX_SECRET_MIN_LEN : N := 32.
Definition B64_SECRET_MIN_LEN : N := 40.

Definition SECRET_KEY_PATTERNS : list string :=
  ["token"; "secret"; "password"; "passwd"; "credential"; "api_key"; "apikey"; "auth";
   "authorization"; "private_key"; "access_key"; "bearer"; "refresh_token"; "session_token";
   "client_secret"].

Definition TOKEN_PREFIXES : list string :=
  ["bearer "; "sk-"; "ghp_"; "gho_"; "ghs_"; "xoxb-"; "xoxp-"].

Record RedactionRules := mk_rules {
  secret_key_patterns : list string;
  token_prefixes : list string;
  token_min_len : N;
  hex_secret_min_len : N;
  base64_secret_min_len : N
}.

Definition default_rules : RedactionRules :=
  mk_rules SECRET_KEY_PATTERNS TOKEN_PREFIXES TOKEN_MIN_LEN HEX_SECRET_MIN_LEN B64_SECRET_MIN_LEN.

(** The message of the first text that is blank. *)
Fixpoint first_blank (name : string) (index : nat) (texts : list string) : result string unit :=
  match texts with
  | [] => Ok tt
  | value :: rest =>
      if str_is_empty (trim value)
      then Err ("redaction rules: " +:+ name +:+ "[" +:+ show_nat index +:+ "] must not be empty")
      else first_blank name (S index) rest
  end.

Definition positive (name : string) (n : N) : result string unit :=
  if (n =? 0)%N then Err ("redaction rules: " +:+ name +:+ " must be greater than 0") else Ok tt.

Definition validate (r : RedactionRules) : result string unit :=
  _ <-? positive "token_min_len" (token_min_len r);;
  _ <-? positive "hex_secret_min_len" (hex_secret_min_len r);;
  _ <-? positive "base64_secret_min_len" (base64_secret_min_len r);;
  _ <-? first_blank "secret_key_patterns" 0 (secret_key_patterns r);;
  first_blank "token_prefixes" 0 (token_prefixes r).

(** ** Classification of keys and values *)

Definition underscore : ascii := "_".
Definition byte_len (s : string) : N := N.of_nat (String.length s).

Definition is_env_var_key (key : string) : bool :=
  (2 <=? byte_len key)%N &&
  str_forall (λ c, is_ascii_upper c || is_ascii_digit c || Ascii.eqb c underscore) key.

Definition is_secret_key (key : string) (r : RedactionRules) : bool :=
  let lower := to_ascii_lowercase key in
  existsb (λ pat, contains (to_ascii_lowercase pat) lower) (secret_key_patterns r).

Definition is_hexdigit (c : ascii) : bool :=
  is_ascii_digit c || byte_in 65 70 c || byte_in 97 102 c.
(** [+ / = - _] *)
Definition is_b64_mark (c : ascii) : bool :=
  existsb (Ascii.eqb c) ["+"; "/"; "="; "-"; "_"]%char.

Definition str_exists (p : ascii → bool) (s : string) : bool := negb (str_forall (λ c, negb (p c)) s).

Definition looks_like_token (value : string) (r : RedactionRules) : bool :=
  if (byte_len value <? token_min_len r)%N then false
  else
    let lower := to_ascii_lowercase value in
    if existsb (λ prefix, starts_with (to_ascii_lowercase prefix) lower) (token_prefixes r) then true
    else if (hex_secret_min_len r <=? byte_len value)%N && str_forall is_hexdigit value then true
    else
      (base64_secret_min_len r <=? byte_len value)%N && negb (contains " " value) &&
      str_forall (λ c, is_ascii_alphanumeric c || is_b64_mark c) value &&
      str_exists (λ c, is_ascii_digit c || is_b64_mark c) value.

(** ** Redaction *)

Definition hidden_key (k : string) (r : RedactionRules) : bool := is_env_var_key k || is_secret_key k r.

Fixpoint redact_value (r : RedactionRules) (value : Json) : Json :=
  match value with
  | JObject entries =>
      JObject (map (λ '(k, v),
        (k, if hidden_key k r then JString REDACTED else redact_value r v)) entries)
  | JArray items => JArray (map (redact_value r) items)
  | JString s => if looks_like_token s r then JString REDACTED else JString s
  | other => other
  end.

Definition redact_map (r : RedactionRules) (entries : list (string * Json)) : list (string * Json) :=
  map (λ '(k, v), (k, if hidden_key k r then JString REDACTED else redact_value r v)) entries.

Definition redact_payload (payload : Json) : Json := redact_value default_rules payload.

(** ** What is left *)

Section redact.
Context (r : RedactionRules).

(** No secret is left: no string looks like a token, and secret fields hold the marker. *)
Inductive clean : Json → Prop :=
| clean_null : clean JNull
| clean_bool b : clean (JBool b)
| clean_number n : clean (JNumber n)
| clean_marker : clean (JString REDACTED)
| clean_string s : looks_like_token s r = false → clean (JString s)
| clean_array items : Forall clean items → clean (JArray items)
| clean_object entries :
    Forall (λ e, hidden_key (fst e) r = true ∧ snd e = JString REDACTED ∨
      hidden_key (fst e) r = false ∧ clean (snd e)) entries →
    clean (JObject entries).

(** A string whose text is not shown. *)
Definition masked (s : string) : Prop := looks_like_token s r = true ∨ s = REDACTED.

(** Two payloads with the same public part: they agree but for tokens and secret fields. *)
Inductive same_public : Json → Json → Prop :=
| public_null : same_public JNull JNull
| public_bool b : same_public (JBool b) (JBool b)
| public_number n : same_public (JNumber n) (JNumber n)
| public_string s : same_public (JString s) (JString s)
| public_masked s t : masked s → masked t → same_public (JString s) (JString t)
| public_array l l' : Forall2 same_public l l' → same_public (JArray l) (JArray l')
| public_object l l' :
    Forall2 (λ e e', fst e = fst e' ∧ (hidden_key (fst e) r = true ∨ same_public (snd e) (snd e'))) l l' →
    same_public (JObject l) (JObject l').

(** Induction over JSON values, with the values inside arrays and objects. *)
Definition Json_deep_ind (P : Json → Prop) (Hnull : P JNull) (Hbool : ∀ b, P (JBool b))
    (Hnumber : ∀ n, P (JNumber n)) (Hstring : ∀ s, P (JString s))
    (Harray : ∀ l, Forall P l → P (JArray l))
    (Hobject : ∀ l, Forall (λ e, P (snd e)) l → P (JObject l)) : ∀ v, P v :=
  fix go v :=
    match v with
    | JNull => Hnull
    | JBool b => Hbool b
    | JNumber n => Hnumber n
    | JString s => Hstring s
    | JArray l => Harray l ((fix all l : Forall P l :=
        match l with [] => Forall_nil_2 P | x :: l' => Forall_cons_2 P x l' (go x) (all l') end) l)
    | JObject l => Hobject l ((fix all l : Forall (λ e, P (snd e)) l :=
        match l with
        | [] => Forall_nil_2 _
        | e :: l' => Forall_cons_2 (λ e, P (snd e)) e l' (go (snd e)) (all l')
        end) l)
    end.

Lemma redact_clean v : clean (redact_value r v).
Proof.
  induction v as [| | |s|l IH|l IH] using Json_deep_ind; simpl; try (by constructor).
  - destruct (looks_like_token s r) eqn:Hs; by constructor.
  - constructor. apply Forall_map. exact IH.
  - constructor. apply Forall_map. eapply Forall_impl; [exact IH|].
    intros [k v] Hv. simpl. destruct (hidden_key k r); [by left|by right].
Qed.

Lemma redact_same_public v : same_public v (redact_value r v).
Proof.
  induction v as [| | |s|l IH|l IH] using Json_deep_ind; simpl; try (by constructor).
  - destruct (looks_like_token s r) eqn:Hs; [|constructor]. apply public_masked; [by left|by right].
  - constructor. apply Forall2_fmap_r. apply Forall_Forall2_diag. exact IH.
  - constructor. apply Forall2_fmap_r. apply Forall_Forall2_diag.
    eapply Forall_impl; [exact IH|]. intros [k v] Hv. simpl. split; [done|].
    destruct (hidden_key k r); [by left|by right].
Qed.

Lemma redact_masked s : masked s → redact_value r (JString s) = JString REDACTED.
Proof. simpl. intros [->| ->]; [done|]. by destruct (looks_like_token REDACTED r). Qed.

Lemma map_Forall2_eq {A B} (f : A → B) (R : A → A → Prop) l l' :
  Forall2 R l l' → Forall (λ x, ∀ y, R x y → f x = f y) l → map f l = map f l'.
Proof.
  induction 1 as [|x y l l' Hx Hl IH]; intros Hf; [done|].
  apply Forall_cons in Hf as [Hfx Hfl]. simpl. by rewrite (Hfx y Hx), (IH Hfl).
Qed.

Lemma same_public_redact v : ∀ w, same_public v w → redact_value r v = redact_value r w.
Proof.
  induction v as [| | |s|l IH|l IH] using Json_deep_ind; intros w Hw; inversion Hw; subst; try done.
  - by rewrite !redact_masked.
  - simpl. f_equal. by eapply map_Forall2_eq.
  - simpl. f_equal. eapply map_Forall2_eq; [eassumption|].
    eapply Forall_impl; [exact IH|]. intros [k x] Hx [k' x'] [Hk Hor]. simpl in *. subst k'.
    destruct (hidden_key k r); [done|]. destruct Hor as [?|Hor]; [done|]. by rewrite (Hx x').
Qed.

Lemma masked_redacted s : redact_value r (JString s) = JString REDACTED → masked s.
Proof. simpl. destruct (looks_like_token s r) eqn:Hs; [by left|]. intros [= ->]. by right. Qed.

Lemma map_eq_Forall2 {A B} (f : A → B) l : ∀ l', map f l = map f l' → Forall2 (λ x y, f x = f y) l l'.
Proof.
  induction l as [|x l IH]; intros [|y l'] H; simpl in H; try done; constructor.
  - by injection H.
  - apply IH. by injection H.
Qed.

Lemma redact_reveals v : ∀ w, redact_value r v = redact_value r w → same_public v w.
Proof.
  induction v as [|b|n|s|l IH|l IH] using Json_deep_ind; intros w Hw;
    destruct w as [|b'|n'|t|l'|l']; simpl in Hw; try done;
    try (destruct (looks_like_token _ r); done);
    try (injection Hw as Hw).
  - constructor.
  - subst. constructor.
  - subst. constructor.
  - destruct (looks_like_token s r) eqn:Hs, (looks_like_token t r) eqn:Ht.
    + apply public_masked; by left.
    + injection Hw as <-. apply public_masked; [by left|by right].
    + injection Hw as ->. apply public_masked; [by right|by left].
    + injection Hw as ->. constructor.
  - constructor. apply map_eq_Forall2 in Hw. revert IH.
    induction Hw as [|x y a c Hx Hl IHl]; intros IH; constructor; apply Forall_cons in IH as [H1 H2]; auto.
  - constructor. apply map_eq_Forall2 in Hw. revert IH.
    induction Hw as [|[k x] [k' y] a c Hx Hl IHl]; intros IH; constructor;
      apply Forall_cons in IH as [H1 H2]; auto.
    injection Hx as <- Hx. simpl in *. split; [done|]. destruct (hidden_key k r); [by left|right; auto].
Qed.

(** ** Properties *)

(** C21. Redaction hides everything it should and nothing else: what it leaves holds no
    token-like string as a value (names of fields are kept) and a marker in each secret field,
    at any depth, and two payloads become equal exactly when they differ in nothing but the texts of tokens and the values
    of secret fields. Redacting again changes nothing. *)
Theorem redact_hides_exactly v w :
  clean (redact_value r v) ∧
  (redact_value r v = redact_value r w ↔ same_public v w) ∧
  redact_value r (redact_value r v) = redact_value r v.
Proof.
  split_and!; [apply redact_clean| |symmetry; apply same_public_redact, redact_same_public].
  split; [apply redact_reveals|apply same_public_redact].
Qed.
End redact.

(** The names of fields are kept, even those that look like tokens. *)
Example token_names_are_kept :
  let name := "ghp_0123456789abcdef0123" in
  looks_like_token name default_rules = true ∧
  redact_payload (JObject [(name, JBool true)]) = JObject [(name, JBool true)].
Proof. split; reflexivity. Qed.

Example default_rules_valid : validate default_rules = Ok tt.
Proof. reflexivity. Qed.
