(* ===== verification/Auth.v ===== *)
(** * MCP server: authorization of requests

    Model of [packages/atlas-mcp/src/auth.rs]: the protected-resource policy is loaded from
    the authorization server, a request is admitted by its bearer token, and a refusal is
    explained in a challenge. The JSON web tokens of [jsonwebtoken] and the HTTP client are
    parameters. *)

From Stdlib Require Import Floats.SpecFloat.
From S2P Require Import Prelude RustStr Json BTree.

Definition ROUTE_FAMILY_MCP : string := "mcp".
Definition OIDC_DISCOVERY_PATH : string := "/.well-known/openid-configuration".

(** ** Tokens and keys *)

Inductive Algorithm :=
| HS256 | HS384 | HS512 | RS256 | RS384 | RS512 | PS256 | PS384 | PS512 | ES256 | ES384 | EdDSA.
#[export] Instance Algorithm_eq_dec : EqDecision Algorithm.
Proof. solve_decision. Defined.

(** The algorithm a key names: one that signs, or another use. *)
Inductive KeyAlgorithm := Signing (a : Algorithm) | OtherUse.

Definition parse_algorithm_name (value : KeyAlgorithm) : option Algorithm :=
  match value with Signing a => Some a | OtherUse => None end.

Record JwtHeader := mk_header { jh_alg : Algorithm; jh_kid : option string }.

(** A key of the key set; [M] is its material. *)
Record Jwk (M : Type) := mk_jwk {
  key_id : option string;
  key_algorithm : option KeyAlgorithm;
  material : M
}.
Arguments mk_jwk {M}.
Arguments key_id {M}.
Arguments key_algorithm {M}.
Arguments material {M}.

Record Validation := mk_validation {
  v_alg : Algorithm;
  v_issuer : list string;
  v_audience : list string;
  required_spec_claims : list string;
  leeway : N
}.

Record TokenClaims := mk_claims {
  iss : string;
  aud : option Json;
  c_exp : N;
  nbf : option N;
  iat : option N;
  sub : option string;
  scope : option string;
  scp : option Json
}.

(** [jsonwebtoken]: reading a header, making a key and decoding a token with it. *)
Class JwtLibrary (M D : Type) := {
  decode_header : string → option JwtHeader;
  from_jwk : Jwk M → option D;
  decode : string → D → Validation → option TokenClaims
}.

(** ** The policy *)

Record ProtectedResourceAuthConfig := mk_config {
  cfg_issuer : string;
  cfg_discovery_url : option string;
  cfg_jwks_url : option string;
  cfg_resource : string;
  cfg_required_scopes : gmap string (list string);
  cfg_allowed_origins : list string
}.

Record ProtectedResourceAuthPolicy (M : Type) := mk_policy {
  issuer : string;
  resource : string;
  policy_scopes : gmap string (list string);
  scopes_supported : list string;
  allowed_origins : gset string;
  jwks : list (Jwk M)
}.
Arguments mk_policy {M}.
Arguments issuer {M}.
Arguments resource {M}.
Arguments policy_scopes {M}.
Arguments scopes_supported {M}.
Arguments allowed_origins {M}.
Arguments jwks {M}.

Record AuthorizedToken := mk_authorized { granted : gset string; subject : option string }.

Record AuthChallenge := mk_challenge {
  status : N;
  body_error : string;
  body_message : string;
  error_code : string;
  required : list string;
  www_authenticate_header : string
}.

(** ** Scopes *)

Definition words_set (s : string) : gset string :=
  list_to_set (filter (λ w, negb (str_is_empty w)) (split_whitespace s)).

Definition scp_scopes (v : Json) : gset string :=
  match v with
  | JString s => words_set s
  | JArray items => list_to_set (filter (λ w, negb (str_is_empty w)) (omap as_str items))
  | _ => ∅
  end.

Definition extract_scopes (c : TokenClaims) : gset string :=
  from_option words_set ∅ (scope c) ∪ from_option scp_scopes ∅ (scp c).

(** ** Challenges *)

Definition quote : ascii := chr 34.

(** [str::replace] of one character. *)
Fixpoint replace_with (c : ascii) (t s : string) : string :=
  match s with
  | EmptyString => EmptyString
  | String a s' => (if Ascii.eqb a c then t else String a "") +:+ replace_with c t s'
  end.

Definition escape_header_value (value : string) : string :=
  replace_with quote (String backslash (String quote ""))
    (replace_with backslash (String backslash (String backslash "")) value).

Definition quoted (name value : string) : string :=
  name +:+ "=" +:+ String quote (escape_header_value value +:+ String quote "").

Section policy.
Context {M D : Type} `{!JwtLibrary M D}.
Context (p : ProtectedResourceAuthPolicy M).

Definition required_scopes (route_family : string) : list string :=
  default [] (policy_scopes p !! route_family).

Definition www_authenticate (error description : string) (scopes : list string) : string :=
  join ", "
    (("Bearer realm=" +:+ String quote ("atlas-mcp" +:+ String quote "")) ::
     [quoted "resource" (resource p); quoted "error" error; quoted "error_description" description] ++
     match scopes with [] => [] | _ => [quoted "scope" (join " " scopes)] end).

Definition challenge_missing_token (route_family : string) : AuthChallenge :=
  let scopes := required_scopes route_family in
  mk_challenge 401 "unauthorized" "Bearer token required" "invalid_token" scopes
    (www_authenticate "invalid_token" "Bearer token required" scopes).

Definition challenge_invalid_token (route_family : string) : AuthChallenge :=
  let scopes := required_scopes route_family in
  mk_challenge 401 "unauthorized" "invalid bearer token" "invalid_token" scopes
    (www_authenticate "invalid_token" "invalid bearer token" scopes).

Definition challenge_insufficient_scope (route_family : string) : AuthChallenge :=
  let scopes := required_scopes route_family in
  mk_challenge 403 "forbidden" "insufficient scope for this route" "insufficient_scope" scopes
    (www_authenticate "insufficient_scope" "additional scope consent required" scopes).

(** ** Decoding *)

(** The key a token is checked with, or nothing on one of the errors. *)
Definition select_jwk (h : JwtHeader) : option (Jwk M) :=
  match jh_kid h with
  | Some kid => List.find (λ k, bool_decide (key_id k = Some kid)) (jwks p)
  | None => match jwks p with [k] => Some k | _ => None end
  end.

Definition decoding_key_for_header (h : JwtHeader) : option D :=
  jwk ← select_jwk h;
  key ← from_jwk jwk;
  let supported_alg := default (jh_alg h) (key_algorithm jwk ≫= parse_algorithm_name) in
  if bool_decide (jh_alg h = supported_alg) then Some key else None.

(** [Validation::new] requires [exp]; the code adds [exp] and [iss]. *)
Definition validation_for (h : JwtHeader) : Validation :=
  mk_validation (jh_alg h) [issuer p] [resource p] ["exp"; "iss"] 30.

Definition decode_token (token : string) : option TokenClaims :=
  h ← decode_header token;
  key ← decoding_key_for_header h;
  decode token key (validation_for h).

(** *** [authorize] *)

(** [HeaderValue::to_str]: visible ASCII and tabs. *)
Definition header_to_str (value : string) : option string :=
  if str_forall (λ c, byte_in 32 126 c || (byte_val c =? 9)%N) value then Some value else None.

(** The headers of a request, names in lower case; the first of a name is taken. *)
Definition bearer_token (headers : list (string * string)) : option string :=
  value ← assoc "authorization" headers;
  value ← header_to_str value;
  value ← strip_prefix "Bearer " value;
  let value := trim value in
  if str_is_empty value then None else Some value.

Definition authorize (headers : list (string * string)) (route_family : string) :
    result AuthChallenge AuthorizedToken :=
  match bearer_token headers with
  | None => Err (challenge_missing_token route_family)
  | Some token =>
      match decode_token token with
      | None => Err (challenge_invalid_token route_family)
      | Some claims =>
          let granted_scopes := extract_scopes claims in
          let missing := filter (λ s, s ∉ granted_scopes) (required_scopes route_family) in
          match missing with
          | [] => Ok (mk_authorized granted_scopes (sub claims))
          | _ => Err (challenge_insufficient_scope route_family)
          end
      end
  end.

Definition metadata_json : Json :=
  JObject [("resource", JString (resource p));
    ("authorization_servers", JArray [JString (issuer p)]);
    ("bearer_methods_supported", JArray [JString "header"]);
    ("scopes_supported", JArray (map JString (scopes_supported p)))].
End policy.

(** ** Loading the policy *)

(** A GET request that decodes a JSON body. *)
Inductive Reply (A : Type) := SendFailed | BadStatus | BadBody | Body (a : A).
Arguments SendFailed {A}.
Arguments BadStatus {A}.
Arguments BadBody {A}.
Arguments Body {A}.

Record DiscoveryDocument := mk_discovery { d_issuer : option string; jwks_uri : option string }.

Definition oidc_discovery_url (iss : string) : string := trim_end_char slash iss +:+ OIDC_DISCOVERY_PATH.

Definition reply {A} (send status body : string) (r : Reply A) : result string A :=
  match r with
  | SendFailed => Err send
  | BadStatus => Err status
  | BadBody => Err body
  | Body a => Ok a
  end.

Section load.
Context {M : Type} (get_discovery : string → Reply DiscoveryDocument) (get_jwks : string → Reply (list (Jwk M))).

Definition discovered_url (config : ProtectedResourceAuthConfig) : result string string :=
  match cfg_jwks_url config with
  | Some url => Ok url
  | None =>
      let url := default (oidc_discovery_url (cfg_issuer config)) (cfg_discovery_url config) in
      discovery <-? reply ("cannot fetch OIDC discovery document from " +:+ url)
        ("OIDC discovery request failed for " +:+ url)
        ("cannot parse OIDC discovery document from " +:+ url) (get_discovery url);;
      let mismatch := match d_issuer discovery with
        | Some i => negb (String.eqb i (cfg_issuer config)) | None => false end in
      if mismatch
      then Err ("OIDC discovery issuer mismatch: expected " +:+ cfg_issuer config +:+ ", got " +:+
                default "" (d_issuer discovery))
      else match jwks_uri discovery with
           | Some uri => Ok uri
           | None => Err ("OIDC discovery document at " +:+ url +:+ " is missing jwks_uri")
           end
  end.

Definition load (config : ProtectedResourceAuthConfig) : result string (ProtectedResourceAuthPolicy M) :=
  url <-? discovered_url config;;
  keys <-? reply ("cannot fetch JWKS from " +:+ url) ("JWKS request failed for " +:+ url)
    ("cannot parse JWKS document from " +:+ url) (get_jwks url);;
  match keys with
  | [] => Err ("JWKS document at " +:+ url +:+ " does not contain any keys")
  | _ =>
      Ok (mk_policy (cfg_issuer config) (cfg_resource config) (cfg_required_scopes config)
        (btree_set String.compare (concat (map snd (map_to_list (cfg_required_scopes config)))))
        (list_to_set (cfg_allowed_origins config)) keys)
  end.
End load.

(** ** Reading a challenge back *)

(** The text of a quoted string, up to its closing quote, and what follows. *)
Fixpoint unquote (s : string) : option (string * string) :=
  match s with
  | EmptyString => None
  | String a s' =>
      if Ascii.eqb a quote then Some ("", s')
      else if Ascii.eqb a backslash then
        match s' with
        | String b s'' => '(v, rest) ← unquote s''; Some (String b v, rest)
        | EmptyString => None
        end
      else '(v, rest) ← unquote s'; Some (String a v, rest)
  end.

(** The parameters [name="value"], separated by a comma and a space. *)
Fixpoint read_params (count : nat) (s : string) : option (list (string * string)) :=
  match count with
  | O => None
  | S count =>
      '(name, rest) ← split_once "=" s;
      match rest with
      | String q rest =>
          if Ascii.eqb q quote then
            '(v, rest) ← unquote rest;
            if str_is_empty rest then Some [(name, v)]
            else rest ← strip_prefix ", " rest; cons (name, v) <$> read_params count rest
          else None
      | EmptyString => None
      end
  end.

Definition read_challenge (s : string) : option (list (string * string)) :=
  rest ← strip_prefix "Bearer " s; read_params 5 rest.

Lemma replace_with_app c t a b : replace_with c t (a +:+ b) = replace_with c t a +:+ replace_with c t b.
Proof.
  induction a as [|x a IH]; simpl; [done|].
  by rewrite IH, str_app_assoc.
Qed.

Lemma unquote_escape v rest : unquote (escape_header_value v +:+ String quote rest) = Some (v, rest).
Proof.
  unfold escape_header_value. induction v as [|a v IH]; [done|]. cbn [replace_with].
  rewrite replace_with_app, <-str_app_assoc.
  destruct (Ascii.eqb_spec a backslash) as [->|Hb].
  - change (replace_with quote _ (String backslash (String backslash ""))) with
      (String backslash (String backslash "")).
    rewrite !str_app_cons, str_app_nil_l. cbn [unquote].
    change (Ascii.eqb backslash quote) with false. change (Ascii.eqb backslash backslash) with true.
    cbn iota. by rewrite IH.
  - cbn [replace_with]. destruct (Ascii.eqb_spec a quote) as [->|Hq].
    + rewrite str_app_nil_r, !str_app_cons, str_app_nil_l. cbn [unquote].
      change (Ascii.eqb backslash quote) with false. change (Ascii.eqb backslash backslash) with true.
      cbn iota. by rewrite IH.
    + rewrite str_app_nil_r, str_app_cons, str_app_nil_l. cbn [unquote].
      apply Ascii.eqb_neq in Hq as ->. apply Ascii.eqb_neq in Hb as ->. by rewrite IH.
Qed.

(** A parameter whose name is known. *)
Definition plain_name (name : string) : Prop := ∀ rest, split_once "=" (name +:+ "=" +:+ rest) = Some (name, rest).

Lemma read_quoted count name value more :
  plain_name name →
  read_params (S count) (quoted name value +:+ ", " +:+ more) =
    cons (name, value) <$> read_params count more.
Proof.
  intros Hn. unfold quoted. cbn [read_params].
  rewrite <-!str_app_assoc. rewrite Hn. cbn [mbind option_bind].
  rewrite str_app_cons. cbn iota. change (Ascii.eqb quote quote) with true. cbn iota.
  rewrite <-str_app_assoc, str_app_cons, unquote_escape. cbn [mbind option_bind].
  by rewrite str_app_nil_l.
Qed.

Lemma read_last count name value :
  plain_name name → read_params (S count) (quoted name value) = Some [(name, value)].
Proof.
  intros Hn. unfold quoted. cbn [read_params]. rewrite Hn. cbn [mbind option_bind].
  change (Ascii.eqb quote quote) with true. cbn iota. by rewrite unquote_escape.
Qed.

Lemma quoted_realm : "Bearer realm=" +:+ String quote ("atlas-mcp" +:+ String quote "") =
  "Bearer " +:+ quoted "realm" "atlas-mcp".
Proof. done. Qed.

Section properties.
Context {M D : Type} `{!JwtLibrary M D} (p : ProtectedResourceAuthPolicy M).

(** The header of a challenge can be read back, whatever quotes and backslashes the
    resource and the scopes contain: it states the realm, the resource, the error with its
    description and, when the route requires any, the scopes. *)
Theorem challenge_readable error description scopes :
  read_challenge (www_authenticate p error description scopes) =
  Some ([("realm", "atlas-mcp"); ("resource", resource p); ("error", error);
         ("error_description", description)] ++
        match scopes with [] => [] | _ => [("scope", join " " scopes)] end).
Proof.
  unfold read_challenge, www_authenticate. rewrite quoted_realm.
  assert (∀ s, strip_prefix "Bearer " ("Bearer " +:+ s) = Some s) as Hs by done.
  destruct scopes as [|w ws]; cbn [app].
  - rewrite !join_cons by done. cbn [join String.concat]. rewrite <-str_app_assoc, Hs.
    cbn [mbind option_bind]. rewrite !read_quoted by done. by rewrite read_last.
  - rewrite !join_cons by done. cbn [join String.concat]. rewrite <-str_app_assoc, Hs.
    cbn [mbind option_bind]. rewrite !read_quoted by done. by rewrite read_last.
Qed.

(** What [jsonwebtoken] documents of [decode]: the signature verifies under the key with the
    algorithm of the validation, the required issuer is one of those given, the token has not
    expired by more than the leeway, and an audience, when there is one, is accepted. *)
Definition audience_ok (a : Json) (accepted : list string) : Prop :=
  match a with
  | JString s => s ∈ accepted
  | JArray items => ∃ s, JString s ∈ items ∧ s ∈ accepted
  | _ => False
  end.

Definition decode_documented (verifies : string → D → Algorithm → TokenClaims → Prop) (now : N) : Prop :=
  ∀ token key v c, decode token key v = Some c →
    verifies token key (v_alg v) c ∧ iss c ∈ v_issuer v ∧ (now ≤ c_exp c + leeway v)%N ∧
    ∀ a, aud c = Some a → audience_ok a (v_audience v).

(** A key of the policy for the header of a token. *)
Definition key_for (h : JwtHeader) (jwk : Jwk M) (key : D) : Prop :=
  jwk ∈ jwks p ∧ from_jwk jwk = Some key ∧
  (∀ kid, jh_kid h = Some kid → key_id jwk = Some kid) ∧
  (∀ a, key_algorithm jwk = Some (Signing a) → jh_alg h = a).

Lemma decoding_key_sound h key : decoding_key_for_header p h = Some key → ∃ jwk, key_for h jwk key.
Proof.
  unfold decoding_key_for_header. intros (jwk & Hsel & (k & Hk & H)%bind_Some)%bind_Some.
  case_bool_decide as Halg; [|done]. injection H as ->. exists jwk.
  assert (jwk ∈ jwks p ∧ ∀ kid, jh_kid h = Some kid → key_id jwk = Some kid) as [Hin Hkid].
  { unfold select_jwk in Hsel. destruct (jh_kid h) as [kid|].
    - apply List.find_some in Hsel as [Hin Hb]. apply bool_decide_eq_true in Hb.
      split; [by apply list_elem_of_In|]. by intros ? [= <-].
    - destruct (jwks p) as [|k [|]]; try done. injection Hsel as ->. split; [set_solver|done]. }
  split_and!; [done..|]. intros a Ha. rewrite Ha in Halg. done.
Qed.

Lemma filter_nil_all {A} (P : A → Prop) `{!∀ x, Decision (P x)} l : filter P l = [] → ∀ x, x ∈ l → ¬ P x.
Proof. intros Hf x Hx HP. assert (x ∈ filter P l) by (by apply list_elem_of_filter). rewrite Hf in *. set_solver. Qed.

(** A request is admitted only with a bearer token that verifies under a key of the
    authorization server, chosen by the key id and with the algorithm this key allows, that
    the issuer issued and that has not expired, and only if its claims grant every scope the
    route requires; the scopes and the subject passed on are those of the claims. *)
Theorem admitted_requests_sound verifies now headers route_family t
    (Hdoc : decode_documented verifies now) (Hok : authorize p headers route_family = Ok t) :
  ∃ token h jwk key claims,
    bearer_token headers = Some token ∧ decode_header token = Some h ∧ key_for h jwk key ∧
    verifies token key (jh_alg h) claims ∧
    iss claims = issuer p ∧ (now ≤ c_exp claims + 30)%N ∧
    (∀ a, aud claims = Some a → audience_ok a [resource p]) ∧
    (∀ s, s ∈ required_scopes p route_family → s ∈ extract_scopes claims) ∧
    t = mk_authorized (extract_scopes claims) (sub claims).
Proof.
  unfold authorize in Hok. destruct (bearer_token headers) as [token|]; [|done].
  destruct (decode_token p token) as [claims|] eqn:Hdec; [|done].
  destruct (filter _ _) as [|x l] eqn:Hmiss; [|done]. injection Hok as <-.
  unfold decode_token in Hdec. apply bind_Some in Hdec as (h & Hh & (key & Hkey & Hd)%bind_Some).
  apply decoding_key_sound in Hkey as [jwk Hkey].
  destruct (Hdoc _ _ _ _ Hd) as (Hv & Hiss & Hexp & Haud). simpl in *.
  exists token, h, jwk, key, claims. split_and!; try done.
  - by apply list_elem_of_singleton in Hiss.
  - intros s Hs. pose proof (filter_nil_all _ _ Hmiss s Hs) as Hn. simpl in Hn.
    destruct (decide (s ∈ extract_scopes claims)); [done|tauto].
Qed.

(** Every refusal says why: 401 without a bearer token or with one that does not decode,
    403 when the claims lack a scope the route requires; and there is no other refusal. *)
Theorem authorize_refusals headers route_family :
  match authorize p headers route_family with
  | Ok _ => is_Some ((bearer_token headers) ≫= (decode_token p))
  | Err c =>
      required c = required_scopes p route_family ∧
      (bearer_token headers = None ∧ status c = 401%N ∧ body_message c = "Bearer token required" ∨
       (∃ token, bearer_token headers = Some token ∧ decode_token p token = None ∧
          status c = 401%N ∧ body_message c = "invalid bearer token") ∨
       (∃ claims s, (bearer_token headers ≫= decode_token p) = Some claims ∧
          s ∈ required_scopes p route_family ∧ (s ∉ extract_scopes claims) ∧
          status c = 403%N ∧ error_code c = "insufficient_scope"))
  end.
Proof.
  unfold authorize. destruct (bearer_token headers) as [token|]; simpl; [|by auto].
  destruct (decode_token p token) as [claims|] eqn:Hd; simpl; [|split; [done|right; left; eauto]].
  destruct (filter _ _) as [|x l] eqn:Hmiss; [by eexists|]. split; [done|]. right. right.
  exists claims, x. assert (x ∈ filter (λ s, s ∉ extract_scopes claims) (required_scopes p route_family)) as Hx
    by (rewrite Hmiss; constructor).
  by apply list_elem_of_filter in Hx as [? ?].
Qed.
End properties.

(** ** A key set with one shared secret

    A token is the text [secret:subject:scopes]; the claims have no audience. *)

Definition toy_claims (token : string) : TokenClaims :=
  let parts := split_char ":" token in
  mk_claims "https://idp" None 1000 None None (nth_error parts 1) (nth_error parts 2) None.

#[local] Instance toy_jwt : JwtLibrary string string := {|
  decode_header token := if contains ":" token then Some (mk_header HS256 None) else None;
  from_jwk jwk := Some (material jwk);
  decode token key v :=
    if starts_with (key +:+ ":") token && bool_decide ("https://idp" ∈ v_issuer v)
    then Some (toy_claims token) else None
|}.

Definition toy_verifies (token key : string) (_ : Algorithm) (c : TokenClaims) : Prop :=
  starts_with (key +:+ ":") token = true ∧ c = toy_claims token.

Lemma toy_documented : decode_documented toy_verifies 0.
Proof.
  intros token key v c. cbn [decode toy_jwt]. destruct (starts_with _ _) eqn:Hs; [|done].
  case_bool_decide; [|done]. intros [= <-]. split_and!; [by split|done|lia|done].
Qed.

Definition toy_request : list (string * string) := [("authorization", "Bearer key:alice:atlas read")].
Definition toy_open_policy : ProtectedResourceAuthPolicy string :=
  mk_policy "https://idp" "https://atlas.test/mcp" {["mcp" := ["read"]]} ["read"] ∅
    [mk_jwk None (Some (Signing HS256)) "key"].

Lemma admitted_requests_sound_witness :
  let t := mk_authorized {["atlas"; "read"]} (Some "alice") in
  authorize toy_open_policy toy_request "mcp" = Ok t ∧
  ∃ token h jwk key claims,
    bearer_token toy_request = Some token ∧ decode_header token = Some h ∧
    key_for toy_open_policy h jwk key ∧ toy_verifies token key (jh_alg h) claims ∧
    iss claims = issuer toy_open_policy ∧ (0 ≤ c_exp claims + 30)%N ∧
    (∀ a, aud claims = Some a → audience_ok a [resource toy_open_policy]) ∧
    (∀ s, s ∈ required_scopes toy_open_policy "mcp" → s ∈ extract_scopes claims) ∧
    t = mk_authorized (extract_scopes claims) (sub claims).
Proof.
  intros t.
  assert (authorize toy_open_policy toy_request "mcp" = Ok t) as Hok by (vm_compute; reflexivity).
  split; [exact Hok|].
  exact (admitted_requests_sound toy_open_policy toy_verifies 0 toy_request "mcp" t toy_documented Hok).
Defined.

(** The policy names an audience, but a token without one is admitted. *)
Example token_without_audience_admitted :
  v_audience (validation_for toy_open_policy (mk_header HS256 None)) = ["https://atlas.test/mcp"] ∧
  aud (toy_claims "key:alice:atlas read") = None ∧
  res_is_ok (authorize toy_open_policy toy_request "mcp") = true.
Proof. split_and!; vm_compute; reflexivity. Qed.

(** Loading: the keys come from the configured URL or from a discovery document that does
    not name another issuer, and there is at least one. *)
Lemma load_sound {M} get_discovery get_jwks config (p : ProtectedResourceAuthPolicy M) :
  load get_discovery get_jwks config = Ok p →
  issuer p = cfg_issuer config ∧ resource p = cfg_resource config ∧ jwks p ≠ [] ∧
  ∃ url, get_jwks url = Body (jwks p) ∧
    (cfg_jwks_url config = Some url ∨
     cfg_jwks_url config = None ∧ ∃ d from, get_discovery from = Body d ∧ jwks_uri d = Some url ∧
       ∀ i, d_issuer d = Some i → i = cfg_issuer config).
Proof.
  unfold load. intros (url & Hurl & (keys & Hkeys & H)%res_bind_ok)%res_bind_ok.
  destruct keys as [|k keys]; [done|]. injection H as <-. simpl. split_and!; [done..|].
  exists url. split; [destruct (get_jwks url); simpl in Hkeys; congruence|].
  unfold discovered_url in Hurl. destruct (cfg_jwks_url config) as [u|]; [left; congruence|right].
  split; [done|]. apply res_bind_ok in Hurl as (d & Hd & H).
  destruct (get_discovery _) as [| | |d'] eqn:Hg in Hd; try done. injection Hd as ->.
  exists d, (default (oidc_discovery_url (cfg_issuer config)) (cfg_discovery_url config)).
  assert (∀ i, d_issuer d = Some i → i = cfg_issuer config) as Hiss.
  { intros i Hi. rewrite Hi in H. by destruct (String.eqb_spec i (cfg_issuer config)). }
  destruct (match d_issuer d with Some _ => _ | None => _ end); [done|].
  destruct (jwks_uri d) as [u|]; [|done]. injection H as ->. done.
Qed.
