(* ===== verification/GraphTables.v ===== *)
(** * The tables of the graph store

    Model of [packages/atlas-store-sqlite/src/store/mutation.rs], of the canonical spelling of
    names in helpers.rs and of the chunk rows in retrieval.rs: the tables of files, nodes,
    edges, the full-text index and the retrieval chunks, and every operation that changes
    them, statement by statement on a connection ([Sqlite]). Rows hold the values their columns
    are written from; [nfc] is the Unicode normalisation of paths and [sqlite_now] the clock of
    SQLite. *)

From Stdlib Require Import Floats.SpecFloat.
From S2P Require Import Prelude RustStr RustFloat Kinds Json Graph RepoPath Owners Sqlite.

(** ** Data *)

Inductive AtlasError :=
| DbError (message : string)
| InvalidPath (path : string) (e : RepoPathError)
| NodePathMismatch (node_path canonical_path : string)
| OtherError (message : string).

Record RepoProvenance := mk_provenance {
  pv_repo_id : string;
  pv_fingerprint : option string;
  pv_root : option string;
  pv_remote_url : option string
}.

(** What the parser hands over; the rows do not exist yet, so the ids mean nothing. *)
Record NewNode := mk_new_node { nn_node : CNode; nn_provenance : option RepoProvenance }.
Record NewEdge := mk_new_edge { ne_edge : CEdge; ne_provenance : option RepoProvenance }.

Record ParsedFile := mk_parsed {
  pf_path : string;
  pf_language : option string;
  pf_hash : string;
  pf_size : option Z;
  pf_nodes : list NewNode;
  pf_edges : list NewEdge
}.

(** *** Rows *)

Record NodeRow := mk_node_row { nr_repo : string; nr_node : CNode }.
Record EdgeRow := mk_edge_row { er_repo : string; er_edge : CEdge }.

Definition row_node (r : NodeRow) : Node := cn_node (nr_node r).
Definition row_edge (r : EdgeRow) : Edge := ce_edge (er_edge r).
Definition nr_id (r : NodeRow) : Z := n_id (row_node r).
Definition nr_qn (r : NodeRow) : string := n_qualified_name (row_node r).
Definition nr_path (r : NodeRow) : string := n_file_path (row_node r).
Definition er_id (r : EdgeRow) : Z := e_id (row_edge r).
Definition er_path (r : EdgeRow) : string := e_file_path (row_edge r).

Record OwnerColumns := mk_owner_columns {
  oc_id : option string;
  oc_kind : option string;
  oc_root : option string;
  oc_manifest : option string;
  oc_name : option string
}.
Definition no_owner : OwnerColumns := mk_owner_columns None None None None None.

Record FileRow := mk_file_row {
  fr_repo : string;
  fr_path : string;
  fr_language : option string;
  fr_hash : string;
  fr_size : option Z;
  fr_indexed_at : string;
  fr_owner : OwnerColumns
}.

(** The columns of a node the full-text index holds. *)
Record FtsDoc := mk_fts_doc {
  fts_qn : string;
  fts_name : string;
  fts_kind : string;
  fts_path : string;
  fts_language : string;
  fts_params : option string;
  fts_return_type : option string;
  fts_modifiers : option string
}.
#[export] Instance FtsDoc_eq_dec : EqDecision FtsDoc.
Proof. solve_decision. Defined.

Record ChunkRow := mk_chunk_row { ck_repo : string; ck_qn : string; ck_idx : Z; ck_text : string }.

Record GraphDb := mk_graph_db {
  t_nodes : list NodeRow;
  t_edges : list EdgeRow;
  t_files : list FileRow;
  t_fts : list (Z * FtsDoc);
  t_chunks : list ChunkRow
}.
Definition empty_graph : GraphDb := mk_graph_db [] [] [] [] [].

Definition set_nodes (t : list NodeRow) (d : GraphDb) : GraphDb :=
  mk_graph_db t (t_edges d) (t_files d) (t_fts d) (t_chunks d).
Definition set_edges (t : list EdgeRow) (d : GraphDb) : GraphDb :=
  mk_graph_db (t_nodes d) t (t_files d) (t_fts d) (t_chunks d).
Definition set_files (t : list FileRow) (d : GraphDb) : GraphDb :=
  mk_graph_db (t_nodes d) (t_edges d) t (t_fts d) (t_chunks d).
Definition set_fts (t : list (Z * FtsDoc)) (d : GraphDb) : GraphDb :=
  mk_graph_db (t_nodes d) (t_edges d) (t_files d) t (t_chunks d).
Definition set_chunks (t : list ChunkRow) (d : GraphDb) : GraphDb :=
  mk_graph_db (t_nodes d) (t_edges d) (t_files d) (t_fts d) t.

(** *** Copies with other columns *)

Definition set_id (id : Z) (n : Node) : Node :=
  mk_node id (n_kind n) (n_name n) (n_qualified_name n) (n_file_path n) (n_line_start n) (n_line_end n)
    (n_language n) (n_parent_name n) (n_params n) (n_return_type n) (n_modifiers n) (n_is_test n)
    (n_file_hash n).
Definition set_path (path : string) (n : Node) : Node :=
  mk_node (n_id n) (n_kind n) (n_name n) (n_qualified_name n) path (n_line_start n) (n_line_end n)
    (n_language n) (n_parent_name n) (n_params n) (n_return_type n) (n_modifiers n) (n_is_test n)
    (n_file_hash n).
Definition set_names (path qn : string) (parent : option string) (n : Node) : Node :=
  mk_node (n_id n) (n_kind n) (n_name n) qn path (n_line_start n) (n_line_end n)
    (n_language n) parent (n_params n) (n_return_type n) (n_modifiers n) (n_is_test n) (n_file_hash n).
Definition set_edge_id (id : Z) (e : Edge) : Edge :=
  mk_edge id (e_kind e) (e_source_qn e) (e_target_qn e) (e_file_path e) (e_line e) (e_confidence e)
    (e_confidence_tier e).
Definition set_edge_names (path source target : string) (e : Edge) : Edge :=
  mk_edge (e_id e) (e_kind e) source target path (e_line e) (e_confidence e) (e_confidence_tier e).

(** ** Canonical spelling *)

Section canonical.
Context (nfc : string → string).

Definition canonicalize_repo_path (path : string) : result AtlasError string :=
  match from_repo_relative nfc path with
  | Ok p => Ok p
  | Err e => Err (InvalidPath path e)
  end.

(** Names that have a canonical prefix stay; others get it in place of a raw one. *)
Fixpoint rewrite_raw_prefix (value : string) (mappings : list (string * string)) : string :=
  match mappings with
  | [] => value
  | (raw, canonical) :: mappings =>
      if str_is_empty raw || String.eqb raw canonical then rewrite_raw_prefix value mappings
      else if String.eqb value raw then canonical
      else
        match strip_prefix raw value with
        | Some rest => if starts_with "::" rest then canonical +:+ rest else rewrite_raw_prefix value mappings
        | None => rewrite_raw_prefix value mappings
        end
  end.

Definition rewrite_known_path_prefixes (value : string) (mappings : list (string * string)) : string :=
  if existsb (λ m, String.eqb value (snd m) || starts_with (snd m +:+ "::") value) mappings
  then value else rewrite_raw_prefix value mappings.

Definition canonicalize_node (raw_path canonical_path : string) (n : NewNode) : result AtlasError NewNode :=
  let node := cn_node (nn_node n) in
  let raw_node_path := n_file_path node in
  normalized <-? canonicalize_repo_path raw_node_path;;
  if negb (String.eqb normalized canonical_path) then Err (NodePathMismatch raw_node_path canonical_path)
  else
    let mappings := [(raw_path, canonical_path); (raw_node_path, canonical_path)] in
    Ok (mk_new_node
          (mk_cnode
             (set_names normalized (rewrite_known_path_prefixes (n_qualified_name node) mappings)
                ((λ p, rewrite_known_path_prefixes p mappings) <$> n_parent_name node) node)
             (cn_extra (nn_node n)))
          (nn_provenance n)).

Definition canonicalize_edge (raw_path canonical_path : string) (e : NewEdge) : result AtlasError NewEdge :=
  let edge := ce_edge (ne_edge e) in
  let raw_edge_path := e_file_path edge in
  normalized <-? canonicalize_repo_path raw_edge_path;;
  let mappings := [(raw_path, canonical_path); (raw_edge_path, normalized)] in
  Ok (mk_new_edge
        (mk_cedge
           (set_edge_names normalized (rewrite_known_path_prefixes (e_source_qn edge) mappings)
              (rewrite_known_path_prefixes (e_target_qn edge) mappings) edge)
           (ce_extra (ne_edge e)))
        (ne_provenance e)).

Fixpoint collect {E A B : Type} (f : A → result E B) (l : list A) : result E (list B) :=
  match l with
  | [] => Ok []
  | x :: l => y <-? f x;; ys <-? collect f l;; Ok (y :: ys)
  end.

Definition canonicalize_graph_slice (path : string) (nodes : list NewNode) (edges : list NewEdge) :
    result AtlasError (string * list NewNode * list NewEdge) :=
  canonical <-? canonicalize_repo_path path;;
  nodes <-? collect (canonicalize_node path canonical) nodes;;
  edges <-? collect (canonicalize_edge path canonical) edges;;
  Ok (canonical, nodes, edges).

Definition canonicalize_parsed_file (f : ParsedFile) : result AtlasError ParsedFile :=
  slice <-? canonicalize_graph_slice (pf_path f) (pf_nodes f) (pf_edges f);;
  let '(path, nodes, edges) := slice in
  Ok (mk_parsed path (pf_language f) (pf_hash f) (pf_size f) nodes edges).
End canonical.

(** ** Provenance *)

Definition provenance_new (repo_id : string) : RepoProvenance := mk_provenance repo_id None None None.
Definition with_repo_fingerprint (fp : string) (p : RepoProvenance) : RepoProvenance :=
  mk_provenance (pv_repo_id p) (Some fp) (pv_root p) (pv_remote_url p).

(** [serde_json::to_value]: absent fields are skipped, keys are in order. *)
Definition provenance_json (p : RepoProvenance) : Json :=
  let field key o := match o with Some v => [(key, JString v)] | None => [] end in
  JObject (field "remote_url" (pv_remote_url p) ++ field "repo_fingerprint" (pv_fingerprint p) ++
    [("repo_id", JString (pv_repo_id p))] ++ field "repo_root" (pv_root p)).

Definition upsert_repo_provenance_json (extra : Json) (p : RepoProvenance) : Json :=
  JObject (obj_or_insert "repo_provenance" (provenance_json p)
    (obj_or_insert "repo_id" (JString (pv_repo_id p)) (object_or_empty extra))).

Definition default_provenance (source_repo_id : string) : RepoProvenance :=
  with_repo_fingerprint ("repo_fp_" +:+ source_repo_id) (provenance_new source_repo_id).

(** ** Statements *)

Definition fts_doc (n : Node) : FtsDoc :=
  mk_fts_doc (n_qualified_name n) (n_name n) (NodeKind_as_str (n_kind n)) (n_file_path n) (n_language n)
    (n_params n) (n_return_type n) (n_modifiers n).

(** [SELECT ... FROM nodes WHERE source_repo_id = ? AND file_path = ?] *)
Definition in_node_file (repo path : string) (r : NodeRow) : bool :=
  String.eqb (nr_repo r) repo && String.eqb (nr_path r) path.
Definition file_nodes (d : GraphDb) (repo path : string) : list NodeRow :=
  filter (λ r, in_node_file repo path r) (t_nodes d).

Fixpoint remove_one (x : Z * FtsDoc) (l : list (Z * FtsDoc)) : list (Z * FtsDoc) :=
  match l with
  | [] => []
  | y :: l => if decide (y = x) then l else y :: remove_one x l
  end.

(** The [delete] command of the full-text index, for the columns the row was indexed with. *)
Definition fts_delete (n : Node) (d : GraphDb) : GraphDb :=
  set_fts (remove_one (n_id n, fts_doc n) (t_fts d)) d.
Definition fts_insert (id : Z) (n : Node) (d : GraphDb) : GraphDb :=
  set_fts (t_fts d ++ [(id, fts_doc n)]) d.

Definition in_edge_file (repo path : string) (r : EdgeRow) : bool :=
  String.eqb (er_repo r) repo && String.eqb (er_path r) path.
Definition delete_file_edges (repo path : string) (d : GraphDb) : GraphDb :=
  set_edges (filter (λ r, negb (in_edge_file repo path r)) (t_edges d)) d.

Definition touches (repo : string) (names : gset string) (r : EdgeRow) : bool :=
  String.eqb (er_repo r) repo &&
  (bool_decide (e_source_qn (row_edge r) ∈ names) || bool_decide (e_target_qn (row_edge r) ∈ names)).
Definition delete_edges_touching (repo : string) (names : gset string) (d : GraphDb) : GraphDb :=
  set_edges (filter (λ r, negb (touches repo names r)) (t_edges d)) d.

Definition delete_file_nodes (repo path : string) (d : GraphDb) : GraphDb :=
  set_nodes (filter (λ r, negb (in_node_file repo path r)) (t_nodes d)) d.

Definition of_symbols (repo : string) (names : gset string) (c : ChunkRow) : bool :=
  String.eqb (ck_repo c) repo && bool_decide (ck_qn c ∈ names).
Definition delete_chunks (repo : string) (names : gset string) (d : GraphDb) : GraphDb :=
  set_chunks (filter (λ c, negb (of_symbols repo names c)) (t_chunks d)) d.

Definition is_file (repo path : string) (f : FileRow) : bool :=
  String.eqb (fr_repo f) repo && String.eqb (fr_path f) path.
Definition find_file (d : GraphDb) (repo path : string) : option FileRow :=
  List.find (is_file repo path) (t_files d).
Definition delete_file_row (repo path : string) (d : GraphDb) : GraphDb :=
  set_files (filter (λ f, negb (is_file repo path f)) (t_files d)) d.

(** [INSERT OR REPLACE INTO files]: a row with the key gives way; its owner is taken over. *)
Definition upsert_file_row (repo path hash : string) (language : option string) (size : option Z)
    (now : string) (d : GraphDb) : GraphDb :=
  let owner := from_option fr_owner no_owner (find_file d repo path) in
  set_files (filter (λ f, negb (is_file repo path f)) (t_files d) ++
    [mk_file_row repo path language hash size now owner]) d.

(** [INSERT OR REPLACE INTO nodes]: the new row gets the next id; a row with the same name in
    the repository gives way, without any change of the full-text index. *)
Definition same_symbol (repo qn : string) (r : NodeRow) : bool :=
  String.eqb (nr_repo r) repo && String.eqb (nr_qn r) qn.
Definition node_row (repo : string) (id : Z) (n : NewNode) : NodeRow :=
  mk_node_row repo
    (mk_cnode (set_id id (cn_node (nn_node n)))
       (upsert_repo_provenance_json (cn_extra (nn_node n))
          (default (default_provenance repo) (nn_provenance n)))).
Definition next_node_id (d : GraphDb) : Z := next_id (map nr_id (t_nodes d)).
Definition insert_node (repo : string) (n : NewNode) (d : GraphDb) : GraphDb :=
  set_nodes (filter (λ r, negb (same_symbol repo (n_qualified_name (cn_node (nn_node n))) r)) (t_nodes d) ++
    [node_row repo (next_node_id d) n]) d.

Definition edge_row (repo : string) (id : Z) (e : NewEdge) : EdgeRow :=
  mk_edge_row repo
    (mk_cedge (set_edge_id id (ce_edge (ne_edge e)))
       (upsert_repo_provenance_json (ce_extra (ne_edge e))
          (default (default_provenance repo) (ne_provenance e)))).
Definition next_edge_id (d : GraphDb) : Z := next_id (map er_id (t_edges d)).
Definition insert_edge_row (r : Z → EdgeRow) (d : GraphDb) : GraphDb :=
  set_edges (t_edges d ++ [r (next_edge_id d)]) d.

Definition set_file_owner (repo path : string) (owner : OwnerColumns) (d : GraphDb) : GraphDb :=
  set_files (map (λ f,
    if is_file repo path f
    then mk_file_row (fr_repo f) (fr_path f) (fr_language f) (fr_hash f) (fr_size f) (fr_indexed_at f) owner
    else f) (t_files d)) d.

Definition upsert_chunk_row (repo qn : string) (idx : Z) (text : string) (d : GraphDb) : GraphDb :=
  let same c := String.eqb (ck_repo c) repo && String.eqb (ck_qn c) qn && (ck_idx c =? idx)%Z in
  if existsb same (t_chunks d)
  then set_chunks (map (λ c, if same c then mk_chunk_row repo qn idx text else c) (t_chunks d)) d
  else set_chunks (t_chunks d ++ [mk_chunk_row repo qn idx text]) d.

Definition row_names (rows : list NodeRow) : gset string := list_to_set (map nr_qn rows).

(** ** Operations *)

Abbreviation Conn := (@Sqlite.Conn GraphDb).
Abbreviation M := (@Sqlite.M GraphDb).

Section operations.
Context (nfc : string → string) (fault : nat → option Fault) (sqlite_now : nat → string).

#[local] Abbreviation query := (Sqlite.query fault).
#[local] Abbreviation canonicalize_repo_path := (canonicalize_repo_path nfc).

Definition run (f : GraphDb → GraphDb) : M string unit := execute fault (λ d, Ok (f d)).
Definition datetime_now : M string string := λ c, (Ok (sqlite_now (tick c)), c).
Definition lift {A} (r : result AtlasError A) : M AtlasError A := λ c, (r, c).
Definition db {A} (m : M string A) : M AtlasError A := map_err DbError m.

(** The distinct repositories that own a value, at most two; the pseudo-identities of old
    databases do not count. *)
Definition stable_owners (owners : list string) : list string :=
  take 2 (remove_dups (filter (λ r, negb (existsb (String.eqb r) ["legacy"; "registry"])) owners)).
Definition single {A} (ids : list A) : option A := match ids with [id] => Some id | _ => None end.

Definition file_owners (d : GraphDb) (path : string) : list string :=
  map fr_repo (filter (λ f, String.eqb (fr_path f) path) (t_files d)).
Definition node_owners (d : GraphDb) (path : string) : list string :=
  map nr_repo (filter (λ r, String.eqb (nr_path r) path) (t_nodes d)).
Definition single_source_repo_id_for_value (owners : GraphDb → string → list string) (value : string) :
    M AtlasError (option string) :=
  db (query (λ d, single (stable_owners (owners d value)))).
Definition single_source_repo_id : M AtlasError (option string) :=
  db (query (λ d, single (stable_owners (map fr_repo (t_files d))))).

(** A transaction of the code: an error of the body rolls back, one of [COMMIT] does not. *)
Definition transactional {A} (body : M AtlasError A) : M AtlasError A :=
  _ <-! db (begin_write fault);; λ c,
  match body c with
  | (Ok a, c) => (_ <-! db (commit_write fault);; ret a) c
  | (Err e, c) => (Err e, snd (@rollback_write GraphDb AtlasError c))
  end.

(** The same where an error leaves the function with the transaction open. *)
Definition unguarded (body : M string unit) : M AtlasError unit :=
  db (_ <-! begin_write fault;; _ <-! body;; commit_write fault).

(** *** Replacing a file *)

(** What the replacement removes: the names of the old rows that the new ones lack. *)
Definition gone (old : list NodeRow) (nodes : list NewNode) : list NodeRow :=
  let retained : gset string := list_to_set (map (λ n, n_qualified_name (cn_node (nn_node n))) nodes) in
  filter (λ r, nr_qn r ∉ retained) old.

Definition insert_indexed_node (repo : string) (n : NewNode) : M string unit :=
  id <-! sql fault (λ d, Ok (next_node_id d, insert_node repo n d));;
  run (fts_insert id (cn_node (nn_node n))).

Definition do_replace_file_graph (repo : string) (f : ParsedFile) : M string unit :=
  old <-! query (λ d, file_nodes d repo (pf_path f));;
  _ <-! for_each (λ r, run (fts_delete (row_node r))) old;;
  _ <-! run (delete_file_edges repo (pf_path f));;
  _ <-! for_each (λ r, run (delete_edges_touching repo {[nr_qn r]})) (gone old (pf_nodes f));;
  _ <-! run (delete_file_nodes repo (pf_path f));;
  _ <-! for_each (λ r, run (delete_chunks repo {[nr_qn r]})) (gone old (pf_nodes f));;
  now <-! datetime_now;;
  _ <-! run (upsert_file_row repo (pf_path f) (pf_hash f) (pf_language f) (pf_size f) now);;
  _ <-! for_each (insert_indexed_node repo) (pf_nodes f);;
  for_each (λ e, run (insert_edge_row (λ id, edge_row repo id e))) (pf_edges f).

Definition replace_file_graph_for_repo (repo : string) (f : ParsedFile) : M AtlasError unit :=
  f <-! lift (canonicalize_parsed_file nfc f);;
  transactional (db (do_replace_file_graph repo f)).

Definition replace_counted (repo : string) (totals : nat * nat) (f : ParsedFile) : M AtlasError (nat * nat) :=
  _ <-! db (do_replace_file_graph repo f);;
  ret (fst totals + length (pf_nodes f), snd totals + length (pf_edges f))%nat.

Definition replace_files_transactional_for_repo (repo : string) (files : list ParsedFile) :
    M AtlasError (nat * nat) :=
  match files with
  | [] => ret (0, 0)%nat
  | _ =>
      files <-! lift (collect (canonicalize_parsed_file nfc) files);;
      transactional (fold_each (replace_counted repo) (0, 0)%nat files)
  end.

(** *** Deleting a file *)

Definition delete_file_body (repo path : string) : M string unit :=
  old <-! query (λ d, file_nodes d repo path);;
  _ <-! for_each (λ r, run (fts_delete (row_node r))) old;;
  _ <-! run (delete_file_edges repo path);;
  _ <-! run (λ d, delete_edges_touching repo (row_names (file_nodes d repo path)) d);;
  _ <-! run (λ d, delete_chunks repo (row_names (file_nodes d repo path)) d);;
  _ <-! run (delete_file_nodes repo path);;
  run (delete_file_row repo path).

Definition delete_file_graph_for_repo (repo path : string) : M AtlasError unit :=
  path <-! lift (canonicalize_repo_path path);;
  transactional (db (delete_file_body repo path)).

Definition delete_file_graph (path : string) : M AtlasError unit :=
  path <-! lift (canonicalize_repo_path path);;
  repo <-! single_source_repo_id_for_value file_owners path;;
  match repo with
  | Some repo => delete_file_graph_for_repo repo path
  | None => ret tt
  end.

(** *** Renaming a file *)

Definition move_nodes (repo old_path new_path : string) (d : GraphDb) : GraphDb :=
  set_nodes (map (λ r,
    if in_node_file repo old_path r
    then mk_node_row (nr_repo r) (mk_cnode (set_path new_path (row_node r)) (cn_extra (nr_node r)))
    else r) (t_nodes d)) d.
Definition move_edges (repo old_path new_path : string) (d : GraphDb) : GraphDb :=
  set_edges (map (λ r,
    if in_edge_file repo old_path r
    then mk_edge_row (er_repo r)
           (mk_cedge (set_edge_names new_path (e_source_qn (row_edge r)) (e_target_qn (row_edge r)) (row_edge r))
              (ce_extra (er_edge r)))
    else r) (t_edges d)) d.
Definition move_file_row (repo old_path new_path now : string) (d : GraphDb) : GraphDb :=
  match find_file d repo old_path with
  | Some f =>
      set_files (filter (λ f, negb (is_file repo new_path f)) (t_files d) ++
        [mk_file_row repo new_path (fr_language f) (fr_hash f) (fr_size f) now (fr_owner f)]) d
  | None => d
  end.

Definition rename_body (repo old_path new_path : string) : M string unit :=
  old <-! query (λ d, file_nodes d repo old_path);;
  _ <-! for_each (λ r, run (fts_delete (row_node r))) old;;
  _ <-! run (move_nodes repo old_path new_path);;
  _ <-! run (move_edges repo old_path new_path);;
  now <-! datetime_now;;
  _ <-! run (move_file_row repo old_path new_path now);;
  _ <-! run (delete_file_row repo old_path);;
  for_each (λ r, run (fts_insert (nr_id r) (set_path new_path (row_node r)))) old.

Definition rename_file_graph_for_repo (repo old_path new_path : string) : M AtlasError unit :=
  old_path <-! lift (canonicalize_repo_path old_path);;
  new_path <-! lift (canonicalize_repo_path new_path);;
  if String.eqb old_path new_path then ret tt
  else unguarded (rename_body repo old_path new_path).

Definition rename_file_graph (old_path new_path : string) : M AtlasError unit :=
  old_path <-! lift (canonicalize_repo_path old_path);;
  repo <-! single_source_repo_id_for_value file_owners old_path;;
  match repo with
  | Some repo => rename_file_graph_for_repo repo old_path new_path
  | None => ret tt
  end.

(** *** Edges, owners and chunks *)

(** The rows the edges are written back to: their extra fields are kept as they are. *)
Definition edge_row_again (repo : string) (id : Z) (e : NewEdge) : EdgeRow :=
  mk_edge_row repo (mk_cedge (set_edge_id id (ce_edge (ne_edge e))) (ce_extra (ne_edge e))).

Definition rewrite_body (repo path : string) (edges : list NewEdge) : M string unit :=
  _ <-! run (delete_file_edges repo path);;
  for_each (λ e, run (insert_edge_row (λ id, edge_row_again repo id e))) edges.

Definition rewrite_file_edges_for_repo (repo path : string) (edges : list NewEdge) : M AtlasError unit :=
  slice <-! lift (canonicalize_graph_slice nfc path [] edges);;
  let '(path, _, edges) := slice in
  unguarded (rewrite_body repo path edges).

Definition owner_columns (owner : option PackageOwner) : OwnerColumns :=
  match owner with
  | Some o =>
      mk_owner_columns (Some (owner_id o)) (Some (PackageOwnerKind_as_str (owner_kind o)))
        (Some (owner_root o)) (Some (owner_manifest o)) (package_name o)
  | None => no_owner
  end.

Definition upsert_file_owner_for_repo (repo path : string) (owner : option PackageOwner) : M AtlasError unit :=
  path <-! lift (canonicalize_repo_path path);;
  db (run (set_file_owner repo path (owner_columns owner))).

Definition upsert_file_owner (path : string) (owner : option PackageOwner) : M AtlasError unit :=
  path <-! lift (canonicalize_repo_path path);;
  repo <-! single_source_repo_id_for_value file_owners path;;
  match repo with
  | Some repo => upsert_file_owner_for_repo repo path owner
  | None => ret tt
  end.

Definition upsert_chunk (repo qn : string) (idx : Z) (text : string) : M AtlasError unit :=
  db (run (upsert_chunk_row repo qn idx text)).

Definition delete_chunks_of_file (repo path : string) (d : GraphDb) : GraphDb :=
  delete_chunks repo (row_names (file_nodes d repo path)) d.
Definition delete_chunks_for_file (repo path : string) : M AtlasError unit :=
  db (run (delete_chunks_of_file repo path)).

Definition replace_chunks_of (repo : string) (written : nat) (f : ParsedFile) : M string nat :=
  _ <-! run (delete_chunks_of_file repo (pf_path f));;
  _ <-! for_each (λ n, run (upsert_chunk_row repo (n_qualified_name (cn_node (nn_node n))) 0
                              (chunk_text (cn_node (nn_node n))))) (pf_nodes f);;
  ret (written + length (pf_nodes f))%nat.

(** The paths and names are taken as they are. *)
Definition replace_chunks_for_parsed_files (repo : string) (files : list ParsedFile) : M AtlasError nat :=
  match files with
  | [] => ret 0%nat
  | _ => transactional (db (fold_each (replace_chunks_of repo) 0%nat files))
  end.
End operations.
