(* ===== verification/GraphStore.v ===== *)
(** * What the graph store keeps

    The operations of [GraphTables] as functions on the tables, the invariant of the tables,
    and what a replacement, a deletion and a renaming leave behind, on every connection. *)

From Stdlib Require Import Floats.SpecFloat.
From S2P Require Import Prelude RustStr RustFloat Kinds Json Graph RepoPath Owners Sqlite GraphTables.

(** ** Row ids *)

Lemma next_id_snoc ids : next_id (ids ++ [next_id ids]) = (next_id ids + 1)%Z.
Proof.
  assert (∀ k, (0 ≤ k)%Z → foldr Z.max 0%Z (ids ++ [k]) = Z.max (foldr Z.max 0%Z ids) k) as Happ.
  { intros k Hk. induction ids as [|x ids IH]; simpl; [lia|]. rewrite IH. lia. }
  assert (0 ≤ foldr Z.max 0 ids)%Z by (clear; induction ids; simpl; lia).
  unfold next_id. rewrite Happ by lia. lia.
Qed.

(** Rows with consecutive ids. *)
Definition numbered {A B} (mk : Z → A → B) (first : Z) (l : list A) : list B :=
  imap (λ i x, mk (first + Z.of_nat i)%Z x) l.

Lemma numbered_cons {A B} (mk : Z → A → B) k x l : numbered mk k (x :: l) = mk k x :: numbered mk (k + 1) l.
Proof.
  unfold numbered. cbn [imap]. f_equal; [f_equal; lia|]. apply imap_ext. intros i y _. cbn. f_equal. lia.
Qed.

Lemma numbered_fmap {A B C} (mk : Z → A → B) (g : B → C) (h : A → C) k l :
  (∀ i x, g (mk i x) = h x) → map g (numbered mk k l) = map h l.
Proof.
  intros Hg. revert k. induction l as [|x l IH]; intros k; [done|]. rewrite numbered_cons. cbn. by rewrite Hg, IH.
Qed.

(** ** The operations on the tables *)

Definition new_name (n : NewNode) : string := n_qualified_name (cn_node (nn_node n)).

Definition insert_indexed (repo : string) (n : NewNode) (d : GraphDb) : GraphDb :=
  fts_insert (next_node_id d) (cn_node (nn_node n)) (insert_node repo n d).

Definition unindex (rows : list NodeRow) (d : GraphDb) : GraphDb :=
  foldl (λ d r, fts_delete (row_node r) d) d rows.

Definition replaced (repo : string) (f : ParsedFile) (now : string) (d : GraphDb) : GraphDb :=
  let old := file_nodes d repo (pf_path f) in
  let d := unindex old d in
  let d := delete_file_edges repo (pf_path f) d in
  let d := foldl (λ d r, delete_edges_touching repo {[nr_qn r]} d) d (gone old (pf_nodes f)) in
  let d := delete_file_nodes repo (pf_path f) d in
  let d := foldl (λ d r, delete_chunks repo {[nr_qn r]} d) d (gone old (pf_nodes f)) in
  let d := upsert_file_row repo (pf_path f) (pf_hash f) (pf_language f) (pf_size f) now d in
  let d := foldl (λ d n, insert_indexed repo n d) d (pf_nodes f) in
  foldl (λ d e, insert_edge_row (λ id, edge_row repo id e) d) d (pf_edges f).

Definition deleted_file (repo path : string) (d : GraphDb) : GraphDb :=
  let d := unindex (file_nodes d repo path) d in
  let d := delete_file_edges repo path d in
  let d := delete_edges_touching repo (row_names (file_nodes d repo path)) d in
  let d := delete_chunks repo (row_names (file_nodes d repo path)) d in
  let d := delete_file_nodes repo path d in
  delete_file_row repo path d.

Definition renamed (repo old_path new_path now : string) (d : GraphDb) : GraphDb :=
  let old := file_nodes d repo old_path in
  let d := unindex old d in
  let d := move_nodes repo old_path new_path d in
  let d := move_edges repo old_path new_path d in
  let d := move_file_row repo old_path new_path now d in
  let d := delete_file_row repo old_path d in
  foldl (λ d r, fts_insert (nr_id r) (set_path new_path (row_node r)) d) d old.

Definition rewritten (repo path : string) (edges : list NewEdge) (d : GraphDb) : GraphDb :=
  foldl (λ d e, insert_edge_row (λ id, edge_row_again repo id e) d) (delete_file_edges repo path d) edges.

Section runs.
Context (nfc : string → string) (fault : nat → option Fault) (sqlite_now : nat → string).

#[local] Abbreviation run := (GraphTables.run fault).

Lemma run_ok f c u c' : run f c = (Ok u, c') → current c' = f (current c).
Proof. intros H%execute_ok. by injection H. Qed.

#[export] Instance plain_run f : Plain (run f) := plain_execute fault _.
#[export] Instance plain_datetime : Plain (datetime_now sqlite_now).
Proof. intros c. apply same_tx_refl. Qed.

Lemma datetime_ok c t c' : datetime_now sqlite_now c = (Ok t, c') → c' = c.
Proof. by intros [= _ <-]. Qed.

Lemma run_each {A} (g : A → GraphDb → GraphDb) l c u c' :
  for_each (λ x, run (g x)) l c = (Ok u, c') → current c' = foldl (λ d x, g x d) (current c) l.
Proof. apply for_each_pure. intros x. apply run_ok. Qed.

Lemma insert_indexed_ok repo n c u c' :
  insert_indexed_node fault repo n c = (Ok u, c') → current c' = insert_indexed repo n (current c).
Proof.
  unfold insert_indexed_node. intros (id & c1 & H1 & H2)%bind_ok.
  apply run_ok in H2. rewrite H2. unfold sql in H1. destruct (fault (tick c)); [done|].
  injection H1 as <- <-. by rewrite current_with.
Qed.
#[export] Instance plain_insert_indexed repo n : Plain (insert_indexed_node fault repo n).
Proof. unfold insert_indexed_node. apply plain_bind; [apply plain_sql|apply _]. Qed.

#[export] Instance plain_replace repo f : Plain (do_replace_file_graph fault sqlite_now repo f).
Proof. unfold do_replace_file_graph. apply _. Qed.
#[export] Instance plain_delete repo path : Plain (delete_file_body fault repo path).
Proof. unfold delete_file_body. apply _. Qed.

Lemma do_replace_ok repo f c u c' :
  do_replace_file_graph fault sqlite_now repo f c = (Ok u, c') →
  ∃ now, current c' = replaced repo f now (current c).
Proof.
  unfold do_replace_file_graph. intros H.
  apply bind_ok in H as (old & c1 & [-> H1]%query_current & H).
  apply bind_ok in H as (? & c2 & H2%run_each & H). apply bind_ok in H as (? & c3 & H3%run_ok & H).
  apply bind_ok in H as (? & c4 & H4%run_each & H). apply bind_ok in H as (? & c5 & H5%run_ok & H).
  apply bind_ok in H as (? & c6 & H6%run_each & H).
  apply bind_ok in H as (now & c7 & ->%datetime_ok & H).
  apply bind_ok in H as (? & c8 & H8%run_ok & H).
  apply bind_ok in H as (? & c9 & H9 & H%run_each).
  apply (for_each_pure _ (insert_indexed repo)) in H9; [|intros *; apply insert_indexed_ok].
  exists now. by rewrite H, H9, H8, H6, H5, H4, H3, H2, H1.
Qed.

Lemma delete_body_ok repo path c u c' :
  delete_file_body fault repo path c = (Ok u, c') → current c' = deleted_file repo path (current c).
Proof.
  unfold delete_file_body. intros H.
  apply bind_ok in H as (old & c1 & [-> H1]%query_current & H).
  apply bind_ok in H as (? & c2 & H2%run_each & H). apply bind_ok in H as (? & c3 & H3%run_ok & H).
  apply bind_ok in H as (? & c4 & H4%run_ok & H). apply bind_ok in H as (? & c5 & H5%run_ok & H).
  apply bind_ok in H as (? & c6 & H6%run_ok & H%run_ok).
  by rewrite H, H6, H5, H4, H3, H2, H1.
Qed.

(** *** Transactions *)

Lemma begin_ok (c : Conn) u c' :
  begin_write fault c = (Ok u, c') → working c = None ∧ current c' = committed c ∧ committed c' = committed c ∧
    is_Some (working c').
Proof. unfold begin_write. destruct (fault (tick c)), (working c) eqn:Hw; [done..|]. intros [= _ <-]. by split_and!. Qed.

Lemma commit_ok (c : Conn) u c' :
  commit_write fault c = (Ok u, c') → working c' = None ∧ committed c' = current c.
Proof.
  unfold commit_write, current. destruct (fault (tick c)), (working c) eqn:Hw; try done.
  by intros [= _ <-].
Qed.

Lemma transactional_ok {A} (body : M AtlasError A) c a c' :
  Plain body → transactional fault body c = (Ok a, c') →
  working c = None ∧ working c' = None ∧
  ∃ c1 c2, current c1 = committed c ∧ body c1 = (Ok a, c2) ∧ committed c' = current c2.
Proof.
  intros Hp H. unfold transactional in H. apply bind_ok in H as (? & c1 & H1 & H).
  apply map_err_ok, begin_ok in H1 as (Hw & H1 & _ & _). split; [done|].
  destruct (body c1) as [[y|e] c2] eqn:Hb; [|done].
  apply bind_ok in H as (? & c3 & [H3 H4]%map_err_ok%commit_ok & [= -> <-]).
  split; [done|]. by exists c1, c2.
Qed.

(** Whatever fails, nothing is committed. *)
Lemma transactional_err {A} (body : M AtlasError A) c e c' :
  Plain body → transactional fault body c = (Err e, c') → committed c' = committed c.
Proof.
  intros Hp H. unfold transactional, bind at 1 in H.
  destruct (db (begin_write fault) c) as [[u|e'] c1] eqn:Hb.
  - unfold db in Hb. apply map_err_ok, begin_ok in Hb as (_ & _ & Hc & Hs).
    pose proof (plain (m := body) c1) as Htx. unfold same_tx in Htx.
    destruct (working c1) as [w|]; [|by destruct Hs].
    destruct (body c1) as [[x|e'] c2]; cbn in *; destruct Htx as [Hc2 Hw2].
    + unfold bind, db, map_err, commit_write in H. destruct Hw2 as [w2 Hw2]; [done|]. rewrite Hw2 in H.
      destruct (fault (tick c2)) as [f|]; cbn in *; unfold ret in H; [|done]. injection H as _ <-.
      rewrite failed_committed. congruence.
    + injection H as _ <-. cbn. congruence.
  - injection H as _ <-. unfold db, map_err, begin_write in Hb.
    destruct (fault (tick c)), (working c); cbn in Hb; try done; injection Hb as _ <-; by rewrite ?failed_committed.
Qed.
End runs.

(** ** Statements in a row *)

Lemma set_edges_id d : set_edges (t_edges d) d = d. Proof. by destruct d. Qed.
Lemma set_chunks_id d : set_chunks (t_chunks d) d = d. Proof. by destruct d. Qed.
Lemma set_fts_id d : set_fts (t_fts d) d = d. Proof. by destruct d. Qed.

Lemma bool_decide_union (x y : string) (X : gset string) :
  bool_decide (x ∈ ({[y]} ∪ X)) = bool_decide (x ∈ ({[y]} : gset string)) || bool_decide (x ∈ X).
Proof. repeat case_bool_decide; set_solver. Qed.

Lemma delete_edges_rows repo rows d :
  foldl (λ d r, delete_edges_touching repo {[nr_qn r]} d) d rows = delete_edges_touching repo (row_names rows) d.
Proof.
  revert d. induction rows as [|r rows IH]; intros d; cbn [foldl].
  - unfold delete_edges_touching. rewrite filter_all; [by rewrite set_edges_id|].
    intros x _. unfold touches, row_names. cbn. rewrite !bool_decide_eq_false_2 by set_solver. by rewrite andb_false_r.
  - rewrite IH. unfold delete_edges_touching, set_edges. cbn. f_equal. apply filter_filter_bool.
    intros x. unfold touches, row_names. cbn [map list_to_set].
    rewrite !bool_decide_union. destruct (String.eqb (er_repo x) repo); cbn; [|done].
    by repeat case_bool_decide.
Qed.

Lemma delete_chunks_rows repo rows d :
  foldl (λ d r, delete_chunks repo {[nr_qn r]} d) d rows = delete_chunks repo (row_names rows) d.
Proof.
  revert d. induction rows as [|r rows IH]; intros d; cbn [foldl].
  - unfold delete_chunks. rewrite filter_all; [by rewrite set_chunks_id|].
    intros x _. unfold of_symbols, row_names. cbn. rewrite bool_decide_eq_false_2 by set_solver. by rewrite andb_false_r.
  - rewrite IH. unfold delete_chunks, set_chunks. cbn. f_equal. apply filter_filter_bool.
    intros x. unfold of_symbols, row_names. cbn [map list_to_set].
    rewrite bool_decide_union. destruct (String.eqb (ck_repo x) repo); cbn; [|done].
    by repeat case_bool_decide.
Qed.

Lemma unindex_eq rows d :
  unindex rows d = set_fts (foldl (λ l r, remove_one (nr_id r, fts_doc (row_node r)) l) (t_fts d) rows) d.
Proof.
  unfold unindex. revert d. induction rows as [|r rows IH]; intros d; cbn [foldl]; [by rewrite set_fts_id|].
  by rewrite IH.
Qed.

Lemma insert_edges_eq (mk : NewEdge → Z → EdgeRow) es d :
  (∀ e id, er_id (mk e id) = id) →
  foldl (λ d e, insert_edge_row (mk e) d) d es =
  set_edges (t_edges d ++ numbered (λ id e, mk e id) (next_edge_id d) es) d.
Proof.
  intros Hid. revert d. induction es as [|e es IH]; intros d; cbn [foldl].
  { unfold numbered. cbn [imap]. by rewrite app_nil_r, set_edges_id. }
  rewrite IH, numbered_cons. unfold insert_edge_row at 1 2, set_edges. cbn. f_equal.
  rewrite <- app_assoc. cbn. f_equal. f_equal. f_equal.
  unfold next_edge_id, insert_edge_row. cbn. rewrite map_app. cbn. rewrite Hid. apply next_id_snoc.
Qed.

Lemma row_of_new repo id n : nr_qn (node_row repo id n) = new_name n ∧ nr_id (node_row repo id n) = id.
Proof. done. Qed.

(** New rows whose names nobody in the repository has. *)
Lemma insert_nodes_eq repo ns d :
  NoDup (map new_name ns) → (∀ r, r ∈ t_nodes d → nr_repo r = repo → nr_qn r ∉ map new_name ns) →
  foldl (λ d n, insert_indexed repo n d) d ns =
  set_fts (t_fts d ++ numbered (λ id n, (id, fts_doc (cn_node (nn_node n)))) (next_node_id d) ns)
    (set_nodes (t_nodes d ++ numbered (node_row repo) (next_node_id d) ns) d).
Proof.
  revert d. induction ns as [|n ns IH]; intros d Hnd Hfresh; cbn [foldl].
  { unfold numbered. cbn [imap]. rewrite !app_nil_r. by destruct d. }
  cbn [map] in *. apply NoDup_cons in Hnd as [Hn Hnd].
  assert (insert_indexed repo n d =
    set_fts (t_fts d ++ [(next_node_id d, fts_doc (cn_node (nn_node n)))])
      (set_nodes (t_nodes d ++ [node_row repo (next_node_id d) n]) d)) as Hins.
  { unfold insert_indexed, fts_insert, insert_node, set_fts, set_nodes. cbn. f_equal.
    rewrite filter_all; [done|]. intros r Hr. unfold same_symbol.
    destruct (String.eqb_spec (nr_repo r) repo) as [He|]; [cbn|done].
    destruct (String.eqb_spec (nr_qn r) (n_qualified_name (cn_node (nn_node n)))) as [Hq|]; [|done].
    destruct (Hfresh r Hr He). rewrite Hq. apply elem_of_cons. by left. }
  assert (next_node_id (insert_indexed repo n d) = (next_node_id d + 1)%Z) as Hnext.
  { rewrite Hins. unfold next_node_id. cbn. rewrite map_app. apply next_id_snoc. }
  rewrite IH, Hnext, Hins; [|done|].
  - rewrite !numbered_cons. unfold set_fts, set_nodes. cbn. by rewrite <- !app_assoc.
  - intros r Hr Hrepo. rewrite Hins in Hr. cbn in Hr. apply elem_of_app in Hr as [Hr|Hr].
    + specialize (Hfresh r Hr Hrepo). set_solver.
    + apply list_elem_of_singleton in Hr as ->. by rewrite (proj1 (row_of_new _ _ _)).
Qed.

(** ** What the operations leave behind *)

Definition fresh_names (repo : string) (f : ParsedFile) (d : GraphDb) : Prop :=
  NoDup (map new_name (pf_nodes f)) ∧
  ∀ r, r ∈ t_nodes d → nr_repo r = repo → nr_path r ≠ pf_path f → nr_qn r ∉ map new_name (pf_nodes f).

(** A replacement changes the rows of its file, the edges and the chunks of symbols that are
    gone, and nothing else. *)
Record replacement (repo : string) (f : ParsedFile) (now : string) (d d' : GraphDb) : Prop := {
  rp_nodes : ∃ first,
    t_nodes d' = filter (λ r, negb (in_node_file repo (pf_path f) r)) (t_nodes d) ++
      numbered (node_row repo) first (pf_nodes f);
  rp_edges : ∃ first,
    t_edges d' = filter (λ e, negb (in_edge_file repo (pf_path f) e) &&
        negb (touches repo (row_names (gone (file_nodes d repo (pf_path f)) (pf_nodes f))) e)) (t_edges d) ++
      numbered (edge_row repo) first (pf_edges f);
  rp_files :
    t_files d' = filter (λ r, negb (is_file repo (pf_path f) r)) (t_files d) ++
      [mk_file_row repo (pf_path f) (pf_language f) (pf_hash f) (pf_size f) now
         (from_option fr_owner no_owner (find_file d repo (pf_path f)))];
  rp_chunks :
    t_chunks d' = filter (λ c, negb (of_symbols repo
        (row_names (gone (file_nodes d repo (pf_path f)) (pf_nodes f))) c)) (t_chunks d)
}.

Definition kept_nodes (repo path : string) (d : GraphDb) : list NodeRow :=
  filter (λ r, negb (in_node_file repo path r)) (t_nodes d).

Lemma kept_nodes_other repo path d r :
  r ∈ kept_nodes repo path d → r ∈ t_nodes d ∧ (nr_repo r = repo → nr_path r ≠ path).
Proof.
  intros [Hf Hr]%list_elem_of_filter. split; [done|]. intros <- <-.
  unfold in_node_file in Hf. by rewrite !String.eqb_refl in Hf.
Qed.

Lemma replaced_eq repo f now d :
  fresh_names repo f d →
  let old := file_nodes d repo (pf_path f) in
  let first := next_id (map nr_id (kept_nodes repo (pf_path f) d)) in
  let edges := filter (λ e, negb (in_edge_file repo (pf_path f) e) && negb (touches repo (row_names (gone old (pf_nodes f))) e))
    (t_edges d) in
  replaced repo f now d =
  mk_graph_db
    (kept_nodes repo (pf_path f) d ++ numbered (node_row repo) first (pf_nodes f))
    (edges ++ numbered (edge_row repo) (next_id (map er_id edges)) (pf_edges f))
    (filter (λ r, negb (is_file repo (pf_path f) r)) (t_files d) ++
      [mk_file_row repo (pf_path f) (pf_language f) (pf_hash f) (pf_size f) now
         (from_option fr_owner no_owner (find_file d repo (pf_path f)))])
    (t_fts (unindex old d) ++ numbered (λ id n, (id, fts_doc (cn_node (nn_node n)))) first (pf_nodes f))
    (filter (λ c, negb (of_symbols repo (row_names (gone old (pf_nodes f))) c)) (t_chunks d)).
Proof.
  intros [Hnd Hfresh]. cbn zeta. unfold replaced.
  rewrite delete_edges_rows, delete_chunks_rows, insert_nodes_eq; [|done|].
  - rewrite (insert_edges_eq (λ e id, edge_row repo id e)) by done. rewrite unindex_eq.
    unfold set_fts, set_nodes, set_edges, upsert_file_row, delete_chunks, delete_file_nodes, delete_edges_touching,
      delete_file_edges, set_files, set_chunks. cbn.
    rewrite (filter_filter_bool (λ e, negb (touches repo _ e)) _
      (λ e, negb (in_edge_file repo (pf_path f) e) && negb (touches repo _ e))) by done.
    f_equal.
  - intros r Hr Hrepo. apply (Hfresh r); [..|done| ].
    + unfold upsert_file_row, delete_chunks, delete_file_nodes, delete_edges_touching, delete_file_edges in Hr.
      rewrite unindex_eq in Hr. cbn in Hr. by apply kept_nodes_other in Hr as [? _].
    + unfold upsert_file_row, delete_chunks, delete_file_nodes, delete_edges_touching, delete_file_edges in Hr.
      rewrite unindex_eq in Hr. cbn in Hr. apply kept_nodes_other in Hr as [_ Hp]. by apply Hp.
Qed.

Lemma replaced_spec repo f now d : fresh_names repo f d → replacement repo f now d (replaced repo f now d).
Proof. intros Hf. rewrite replaced_eq by done. by constructor; cbn; eauto. Qed.

(** ** The invariant of the tables *)

Definition fts_entry (r : NodeRow) : Z * FtsDoc := (nr_id r, fts_doc (row_node r)).

(** Ids and keys are unique, and the full-text index has exactly the nodes. *)
Record wf (d : GraphDb) : Prop := {
  wf_node_ids : NoDup (map nr_id (t_nodes d));
  wf_names : NoDup (map (λ r, (nr_repo r, nr_qn r)) (t_nodes d));
  wf_fts : t_fts d ≡ₚ map fts_entry (t_nodes d);
  wf_edge_ids : NoDup (map er_id (t_edges d));
  wf_files : NoDup (map (λ f, (fr_repo f, fr_path f)) (t_files d))
}.

Lemma numbered_ids {A B} (mk : Z → A → B) (id : B → Z) k l :
  (∀ i x, id (mk i x) = i) → NoDup (map id (numbered mk k l)) ∧ ∀ i, i ∈ map id (numbered mk k l) → (k ≤ i)%Z.
Proof.
  intros Hid. revert k. induction l as [|x l IH]; intros k; [split; [constructor|set_solver]|].
  rewrite numbered_cons. cbn. rewrite Hid. destruct (IH (k + 1)%Z) as [Hnd Hle]. split.
  - constructor; [|done]. intros Hin. specialize (Hle k Hin). lia.
  - intros i [->|Hi]%elem_of_cons; [lia|]. specialize (Hle i Hi). lia.
Qed.

Lemma NoDup_numbered {A B} (mk : Z → A → B) (id : B → Z) (kept : list B) l :
  (∀ i x, id (mk i x) = i) → NoDup (map id kept) →
  NoDup (map id (kept ++ numbered mk (next_id (map id kept)) l)).
Proof.
  intros Hid Hnd. rewrite map_app. apply NoDup_app. split_and!; [done| |by apply numbered_ids].
  intros i Hi Hi'. apply next_id_above in Hi. eapply numbered_ids in Hi'; [|done]. lia.
Qed.

Lemma remove_one_perm x l l' : l ≡ₚ x :: l' → remove_one x l ≡ₚ l'.
Proof.
  revert l'. induction l as [|y l IH]; intros l' Hp.
  { apply Permutation_nil_l in Hp. done. }
  cbn. destruct (decide (y = x)) as [->|Hne]; [by apply Permutation_cons_inv in Hp|].
  assert (x ∈ l) as Hx.
  { assert (x ∈ y :: l) as [?|?]%elem_of_cons by (rewrite Hp; set_solver); [by subst|done]. }
  apply elem_of_Permutation in Hx as [l2 Hl2]. rewrite Hl2 in Hp.
  rewrite (Permutation_swap x y l2) in Hp. apply Permutation_cons_inv in Hp.
  rewrite <- Hp. apply perm_skip. apply IH. done.
Qed.

Lemma remove_rows_perm rows l l' :
  l ≡ₚ map fts_entry rows ++ l' → foldl (λ l r, remove_one (nr_id r, fts_doc (row_node r)) l) l rows ≡ₚ l'.
Proof.
  revert l. induction rows as [|r rows IH]; intros l Hp; cbn in *; [done|].
  apply IH. by apply remove_one_perm.
Qed.

(** Without the entries of a file, the index has the nodes of the others. *)
Lemma unindex_perm repo path d :
  t_fts d ≡ₚ map fts_entry (t_nodes d) →
  t_fts (unindex (file_nodes d repo path) d) ≡ₚ map fts_entry (kept_nodes repo path d).
Proof.
  intros Hp. rewrite unindex_eq. cbn. apply remove_rows_perm. rewrite Hp, <- map_app.
  apply Permutation_map, filter_split.
Qed.

Lemma numbered_map2 {A B C} (mk : Z → A → B) (mk' : Z → A → C) (g : B → C) k l :
  (∀ i x, g (mk i x) = mk' i x) → map g (numbered mk k l) = numbered mk' k l.
Proof.
  intros Hg. revert k. induction l as [|x l IH]; intros k; [done|]. rewrite !numbered_cons. cbn. by rewrite Hg, IH.
Qed.

Lemma file_key_gone repo path l :
  (repo, path) ∉ map (λ f, (fr_repo f, fr_path f)) (filter (λ r, negb (is_file repo path r)) l).
Proof.
  intros Hk. apply list_elem_of_fmap in Hk as (row & [= Hr Hp] & [Hf _]%list_elem_of_filter).
  unfold is_file in Hf. by rewrite <- Hr, <- Hp, !String.eqb_refl in Hf.
Qed.

Lemma replaced_wf repo f now d : wf d → fresh_names repo f d → wf (replaced repo f now d).
Proof.
  intros [Hid Hqn Hfts Heid Hfile] Hfresh. rewrite replaced_eq by done. constructor; cbn.
  - apply NoDup_numbered; [done|]. by apply NoDup_map_filter.
  - rewrite map_app. apply NoDup_app. split_and!.
    + by apply NoDup_map_filter.
    + intros [r q] Hk Hn. apply list_elem_of_fmap in Hk as (row & [= -> ->] & Hrow).
      rewrite (numbered_fmap _ _ (λ n, (repo, new_name n))) in Hn by done.
      apply list_elem_of_fmap in Hn as (n & [= Hr Hq] & Hn).
      apply kept_nodes_other in Hrow as [Hrow Hp].
      apply (proj2 Hfresh row Hrow Hr (Hp Hr)). rewrite Hq. by apply list_elem_of_fmap_2.
    + rewrite (numbered_fmap _ _ (λ n, (repo, new_name n))) by done.
      change (λ n, (repo, new_name n)) with (λ n, pair repo (new_name n)).
      rewrite <- (map_map new_name (pair repo)). apply NoDup_fmap_2; [by intros ?? [=]|]. apply Hfresh.
  - rewrite map_app, unindex_perm by done. by rewrite (numbered_map2 _ (λ id n, (id, fts_doc (cn_node (nn_node n))))).
  - apply NoDup_numbered; [done|]. by apply NoDup_map_filter.
  - rewrite map_app. apply NoDup_app. split_and!; [by apply NoDup_map_filter| |apply NoDup_singleton].
    intros k Hk ->%list_elem_of_singleton. by apply file_key_gone in Hk.
Qed.

Lemma deleted_file_eq repo path d :
  deleted_file repo path d =
  mk_graph_db (kept_nodes repo path d)
    (filter (λ e, negb (in_edge_file repo path e) && negb (touches repo (row_names (file_nodes d repo path)) e)) (t_edges d))
    (filter (λ r, negb (is_file repo path r)) (t_files d))
    (t_fts (unindex (file_nodes d repo path) d))
    (filter (λ c, negb (of_symbols repo (row_names (file_nodes d repo path)) c)) (t_chunks d)).
Proof.
  unfold deleted_file. rewrite unindex_eq.
  unfold delete_file_row, delete_file_nodes, delete_chunks, delete_edges_touching, delete_file_edges, set_files, set_nodes,
    set_edges, set_chunks, set_fts, file_nodes. cbn.
  by rewrite (filter_filter_bool (λ e, negb (touches repo _ e)) _
      (λ e, negb (in_edge_file repo path e) && negb (touches repo _ e))) by done.
Qed.

Lemma deleted_wf repo path d : wf d → wf (deleted_file repo path d).
Proof.
  intros [Hid Hqn Hfts Heid Hfile]. rewrite deleted_file_eq. constructor; cbn; try by apply NoDup_map_filter.
  by apply unindex_perm.
Qed.

Lemma fts_inserts_eq (new : NodeRow → Z * Node) rows d :
  foldl (λ d r, fts_insert (fst (new r)) (snd (new r)) d) d rows =
  set_fts (t_fts d ++ map (λ r, (fst (new r), fts_doc (snd (new r)))) rows) d.
Proof.
  revert d. induction rows as [|r rows IH]; intros d; cbn [foldl map]; [by rewrite app_nil_r, set_fts_id|].
  rewrite IH. unfold fts_insert, set_fts. cbn. by rewrite <- app_assoc.
Qed.

Definition moved (repo old_path new_path : string) (r : NodeRow) : NodeRow :=
  if in_node_file repo old_path r
  then mk_node_row (nr_repo r) (mk_cnode (set_path new_path (row_node r)) (cn_extra (nr_node r))) else r.

Lemma moved_key repo old_path new_path r :
  nr_id (moved repo old_path new_path r) = nr_id r ∧
  (nr_repo (moved repo old_path new_path r), nr_qn (moved repo old_path new_path r)) = (nr_repo r, nr_qn r).
Proof. unfold moved. by destruct (in_node_file repo old_path r). Qed.

Lemma moved_entries repo old_path new_path d :
  map fts_entry (map (moved repo old_path new_path) (t_nodes d)) ≡ₚ
  map fts_entry (kept_nodes repo old_path d) ++
  map (λ r, (nr_id r, fts_doc (set_path new_path (row_node r)))) (file_nodes d repo old_path).
Proof.
  unfold kept_nodes, file_nodes. induction (t_nodes d) as [|r l IH]; [done|]. cbn [map]. unfold moved at 1.
  destruct (in_node_file repo old_path r) eqn:Hin.
  - rewrite (filter_cons_False (λ r, negb (in_node_file repo old_path r))) by (rewrite Hin; by intros ?).
    rewrite (filter_cons_True (λ r, in_node_file repo old_path r)) by by rewrite Hin.
    cbn [map]. rewrite IH. by rewrite <- Permutation_middle.
  - rewrite (filter_cons_True (λ r, negb (in_node_file repo old_path r))) by by rewrite Hin.
    rewrite (filter_cons_False (λ r, in_node_file repo old_path r)) by (rewrite Hin; by intros ?).
    cbn [map app]. by rewrite IH.
Qed.

Definition moved_files (repo old_path new_path now : string) (l : list FileRow) : list FileRow :=
  match List.find (is_file repo old_path) l with
  | Some f =>
      filter (λ f, negb (is_file repo new_path f)) l ++
      [mk_file_row repo new_path (fr_language f) (fr_hash f) (fr_size f) now (fr_owner f)]
  | None => l
  end.

Lemma moved_files_keys repo old_path new_path now l :
  NoDup (map (λ f, (fr_repo f, fr_path f)) l) →
  NoDup (map (λ f, (fr_repo f, fr_path f)) (moved_files repo old_path new_path now l)).
Proof.
  intros Hnd. unfold moved_files. destruct (List.find _ l); [|done].
  rewrite map_app. apply NoDup_app. split_and!; [by apply NoDup_map_filter| |apply NoDup_singleton].
  intros k Hk ->%list_elem_of_singleton. by apply file_key_gone in Hk.
Qed.

Lemma renamed_eq repo old_path new_path now d :
  renamed repo old_path new_path now d =
  mk_graph_db (map (moved repo old_path new_path) (t_nodes d)) (t_edges (move_edges repo old_path new_path d))
    (filter (λ f, negb (is_file repo old_path f)) (moved_files repo old_path new_path now (t_files d)))
    (t_fts (unindex (file_nodes d repo old_path) d) ++
      map (λ r, (nr_id r, fts_doc (set_path new_path (row_node r)))) (file_nodes d repo old_path))
    (t_chunks d).
Proof.
  unfold renamed. rewrite (fts_inserts_eq (λ r, (nr_id r, set_path new_path (row_node r)))), unindex_eq.
  unfold move_file_row, find_file, moved_files, delete_file_row, set_files, set_fts, move_edges, move_nodes, set_edges,
    set_nodes. cbn. by destruct (List.find _ (t_files d)).
Qed.

Lemma renamed_wf repo old_path new_path now d : wf d → wf (renamed repo old_path new_path now d).
Proof.
  intros [Hid Hqn Hfts Heid Hfile]. rewrite renamed_eq. constructor; cbn.
  - erewrite map_map, map_ext; [exact Hid|]. intros r. apply moved_key.
  - erewrite map_map, map_ext; [exact Hqn|]. intros r. apply moved_key.
  - by rewrite moved_entries, unindex_perm.
  - erewrite map_map, map_ext; [exact Heid|]. intros r. by destruct (in_edge_file repo old_path r).
  - by apply NoDup_map_filter, moved_files_keys.
Qed.

Lemma rewritten_wf repo path es d : wf d → wf (rewritten repo path es d).
Proof.
  intros [Hid Hqn Hfts Heid Hfile]. unfold rewritten. rewrite (insert_edges_eq (λ e id, edge_row_again repo id e)) by done.
  constructor; cbn; [done..| |done]. apply NoDup_numbered; [done|]. by apply NoDup_map_filter.
Qed.

(** *** Deleting twice *)

Lemma deleted_again repo p d : deleted_file repo p (deleted_file repo p d) = deleted_file repo p d.
Proof.
  assert (file_nodes (deleted_file repo p d) repo p = []) as Hnil.
  { unfold file_nodes. rewrite deleted_file_eq. cbn. apply elem_of_nil_inv. intros r [Hin Hr]%list_elem_of_filter.
    apply list_elem_of_filter in Hr as [Hout _]. by apply negb_Is_true in Hout. }
  rewrite (deleted_file_eq repo p (deleted_file repo p d)), Hnil. unfold unindex. cbn [foldl].
  rewrite deleted_file_eq. cbn. f_equal.
  - apply filter_idem.
  - apply filter_all. intros e [He _]%list_elem_of_filter. apply Is_true_true. apply andb_Is_true in He as [He _].
    apply andb_Is_true. split; [done|]. apply negb_Is_true. unfold touches, row_names. cbn.
    rewrite !bool_decide_eq_false_2 by set_solver. destruct (String.eqb (er_repo e) repo); by intros [].
  - apply filter_idem.
  - apply filter_all. intros k _. apply Is_true_true, negb_Is_true. unfold of_symbols, row_names. cbn.
    rewrite bool_decide_eq_false_2 by set_solver. destruct (String.eqb (ck_repo k) repo); by intros [].
Qed.

(** ** The operations on a connection *)

Section guarantees.
Context (nfc : string → string) (fault : nat → option Fault) (sqlite_now : nat → string).

#[local] Abbreviation run := (GraphTables.run fault).
#[local] Abbreviation canonicalize := (canonicalize_parsed_file nfc).

#[export] Instance plain_rename repo o n : Plain (rename_body fault sqlite_now repo o n).
Proof. unfold rename_body. apply _. Qed.
#[export] Instance plain_rewrite repo path es : Plain (rewrite_body fault repo path es).
Proof. unfold rewrite_body. apply _. Qed.
#[export] Instance plain_chunks repo w f : Plain (replace_chunks_of fault repo w f).
Proof. unfold replace_chunks_of. apply _. Qed.
#[export] Instance plain_counted repo t f : Plain (replace_counted fault sqlite_now repo t f).
Proof. unfold replace_counted, db. apply _. Qed.
#[export] Instance plain_db {A} (m : M string A) : Plain m → Plain (db m).
Proof. unfold db. apply _. Qed.

Lemma rename_body_ok repo o n c u c' :
  rename_body fault sqlite_now repo o n c = (Ok u, c') → ∃ now, current c' = renamed repo o n now (current c).
Proof.
  unfold rename_body. intros H.
  apply bind_ok in H as (old & c1 & [-> H1]%query_current & H).
  apply bind_ok in H as (? & c2 & H2%(run_each _ _) & H). apply bind_ok in H as (? & c3 & H3%run_ok & H).
  apply bind_ok in H as (? & c4 & H4%run_ok & H). apply bind_ok in H as (now & c5 & ->%datetime_ok & H).
  apply bind_ok in H as (? & c6 & H6%run_ok & H). apply bind_ok in H as (? & c7 & H7%run_ok & H%run_each).
  exists now. by rewrite H, H7, H6, H4, H3, H2, H1.
Qed.

Lemma rewrite_body_ok repo path es c u c' :
  rewrite_body fault repo path es c = (Ok u, c') → current c' = rewritten repo path es (current c).
Proof.
  unfold rewrite_body. intros H. apply bind_ok in H as (? & c1 & H1%run_ok & H).
  apply run_each in H. by rewrite H, H1.
Qed.

Lemma unguarded_ok body c u c' :
  Plain body → unguarded fault body c = (Ok u, c') →
  working c = None ∧ working c' = None ∧
  ∃ c1 c2 v, current c1 = committed c ∧ body c1 = (Ok v, c2) ∧ committed c' = current c2.
Proof.
  intros Hp H. unfold unguarded, db in H. apply map_err_ok in H.
  apply bind_ok in H as (? & c1 & (Hw & H1 & _ & _)%begin_ok & H).
  apply bind_ok in H as (v & c2 & Hb & [H3 H4]%commit_ok). split_and!; [done..|]. by exists c1, c2, v.
Qed.

(** After an error nothing is committed. *)
Lemma unguarded_err body c e c' :
  Plain body → unguarded fault body c = (Err e, c') → committed c' = committed c.
Proof.
  intros Hp H. unfold unguarded, db, map_err, bind in H. unfold begin_write in H.
  destruct (fault (tick c)) eqn:Hf; [injection H as _ <-; by rewrite failed_committed|].
  destruct (working c) eqn:Hw; [by injection H as _ <-|].
  set (c1 := mk_conn _ _ _) in H. pose proof (plain (m := body) c1) as Htx. unfold same_tx in Htx. cbn [working c1] in Htx.
  destruct (body c1) as [[v|e'] c2]; cbn in *; destruct Htx as [Hc2 Hw2].
  - destruct Hw2 as [w Hw2]; [done|]. unfold commit_write in H. rewrite Hw2 in H.
    destruct (fault (tick c2)); cbn in H; [|done]. injection H as _ <-. by rewrite failed_committed.
  - by injection H as _ <-.
Qed.

(** *** The operations as one type *)

Inductive GraphOp :=
| OpReplace (repo : string) (f : ParsedFile)
| OpReplaceAll (repo : string) (files : list ParsedFile)
| OpDelete (repo path : string)
| OpDeleteAny (path : string)
| OpRename (repo old_path new_path : string)
| OpRenameAny (old_path new_path : string)
| OpRewrite (repo path : string) (edges : list NewEdge)
| OpOwner (repo path : string) (owner : option PackageOwner)
| OpOwnerAny (path : string) (owner : option PackageOwner)
| OpChunk (repo qn : string) (idx : Z) (text : string)
| OpDeleteChunks (repo path : string)
| OpReplaceChunks (repo : string) (files : list ParsedFile).

Definition discard {A} (m : M AtlasError A) : M AtlasError unit := _ <-! m;; ret tt.

Definition run_op (op : GraphOp) : M AtlasError unit :=
  match op with
  | OpReplace repo f => replace_file_graph_for_repo nfc fault sqlite_now repo f
  | OpReplaceAll repo files => discard (replace_files_transactional_for_repo nfc fault sqlite_now repo files)
  | OpDelete repo path => delete_file_graph_for_repo nfc fault repo path
  | OpDeleteAny path => delete_file_graph nfc fault path
  | OpRename repo o n => rename_file_graph_for_repo nfc fault sqlite_now repo o n
  | OpRenameAny o n => rename_file_graph nfc fault sqlite_now o n
  | OpRewrite repo path es => rewrite_file_edges_for_repo nfc fault repo path es
  | OpOwner repo path o => upsert_file_owner_for_repo nfc fault repo path o
  | OpOwnerAny path o => upsert_file_owner nfc fault path o
  | OpChunk repo qn i t => upsert_chunk fault repo qn i t
  | OpDeleteChunks repo path => delete_chunks_for_file fault repo path
  | OpReplaceChunks repo files => discard (replace_chunks_for_parsed_files fault repo files)
  end.

(** Names are fresh for every file of a batch, also with those before it in place. *)
Fixpoint fresh_all (repo : string) (files : list ParsedFile) (d : GraphDb) : Prop :=
  match files with
  | [] => True
  | f :: files => fresh_names repo f d ∧ ∀ now, fresh_all repo files (replaced repo f now d)
  end.

Definition allowed (op : GraphOp) (d : GraphDb) : Prop :=
  match op with
  | OpReplace repo f => ∀ f', canonicalize f = Ok f' → fresh_names repo f' d
  | OpReplaceAll repo files => ∀ fs, collect canonicalize files = Ok fs → fresh_all repo fs d
  | _ => True
  end.

(** A call keeps an invariant of what is committed. *)
Definition commits {A} (I : GraphDb → Prop) (m : M AtlasError A) : Prop :=
  ∀ c, I (committed c) → I (committed (snd (m c))).

Lemma commits_bind {A B} I (m : M AtlasError A) (k : A → M AtlasError B) :
  commits I m → (∀ a, commits I (k a)) → commits I (bind m k).
Proof.
  intros Hm Hk c HI. unfold bind. specialize (Hm c HI). destruct (m c) as [[a|e] c']; [by apply Hk|done].
Qed.

Lemma commits_plain {A} (I : GraphDb → Prop) (m : M AtlasError A) `{Hp : !Plain m} :
  (∀ c, working c = None → I (committed c) → I (current (snd (m c)))) → commits I m.
Proof.
  intros Hf c HI. pose proof (plain (m := m) c) as Htx. unfold same_tx in Htx.
  destruct (working c) eqn:Hw.
  - by rewrite (proj1 Htx).
  - specialize (Hf c Hw HI). unfold current in Hf. by rewrite Htx in Hf.
Qed.

Lemma commits_lift {A} I (r : result AtlasError A) : commits I (lift r).
Proof. by intros c. Qed.
Lemma commits_ret {A} I (a : A) : commits I (ret a).
Proof. by intros c. Qed.

Lemma commits_run I f : (∀ d, I d → I (f d)) → commits I (db (run f)).
Proof.
  intros Hf. apply commits_plain; [apply _|]. intros c Hw HI. unfold db, map_err.
  destruct (run f c) as [[u|e] c'] eqn:Hr; cbn.
  - apply run_ok in Hr. rewrite Hr. apply Hf. by rewrite current_idle.
  - unfold GraphTables.run, execute, sql in Hr. destruct (fault (tick c)); [|done]. injection Hr as _ <-.
    unfold current, failed_at. destruct (rolls_back f0); cbn; by rewrite ?Hw.
Qed.

Lemma commits_query I {A} (f : GraphDb → A) : commits I (db (query fault f)).
Proof.
  intros c HI. unfold db, map_err, query, sql. destruct (fault (tick c)); cbn; [by rewrite failed_committed|].
  unfold with_current, current. destruct (working c) eqn:Hw; cbn; rewrite Hw; cbn; done.
Qed.

Lemma commits_transactional {A} (I : GraphDb → Prop) (body : M AtlasError A) `{Hp : !Plain body} :
  (∀ c a c', I (current c) → body c = (Ok a, c') → I (current c')) → commits I (transactional fault body).
Proof.
  intros Hf c HI. destruct (transactional fault body c) as [[a|e] c'] eqn:Ht; cbn.
  - apply transactional_ok in Ht as (_ & _ & c1 & c2 & Hc1 & Hb & ->); [|done]. eapply Hf, Hb. by rewrite Hc1.
  - by rewrite (transactional_err _ _ _ _ _ _ Ht).
Qed.

Lemma commits_unguarded (I : GraphDb → Prop) body `{Hp : !Plain body} :
  (∀ c u c', I (current c) → body c = (Ok u, c') → I (current c')) → commits I (unguarded fault body).
Proof.
  intros Hf c HI. destruct (unguarded fault body c) as [[a|e] c'] eqn:Ht; cbn.
  - apply unguarded_ok in Ht as (_ & _ & c1 & c2 & v & Hc1 & Hb & ->); [|done]. eapply Hf, Hb. by rewrite Hc1.
  - by rewrite (unguarded_err _ _ _ _ _ Ht).
Qed.

(** *** The invariant *)

Lemma set_owner_wf repo path o d : wf d → wf (set_file_owner repo path o d).
Proof.
  intros [????? ]. constructor; try done. cbn. erewrite map_map, map_ext; [done|].
  intros f. by destruct (is_file repo path f).
Qed.

Lemma chunk_rows_wf (t : GraphDb → list ChunkRow) d : wf d → wf (set_chunks (t d) d).
Proof. by intros [?????]. Qed.

Lemma upsert_chunk_wf repo qn i t d : wf d → wf (upsert_chunk_row repo qn i t d).
Proof. intros Hd. unfold upsert_chunk_row. destruct (existsb _ _); by apply (chunk_rows_wf (λ _, _)). Qed.

Lemma delete_chunks_wf repo path d : wf d → wf (delete_chunks_of_file repo path d).
Proof. intros Hd. by apply (chunk_rows_wf (λ _, _)). Qed.

Lemma replace_all_run repo files : ∀ t c r c',
  fold_each (replace_counted fault sqlite_now repo) t files c = (Ok r, c') →
  ∃ nows, length nows = length files ∧
    current c' = foldl (λ d p, replaced repo (fst p) (snd p) d) (current c) (zip files nows) ∧
    r = (fst t + list_sum (map (λ f, length (pf_nodes f)) files),
         snd t + list_sum (map (λ f, length (pf_edges f)) files))%nat.
Proof.
  induction files as [|f files IH]; intros t c r c'; cbn [fold_each].
  { intros [= <- <-]. exists []. split_and!; [done..|]. cbn. rewrite !Nat.add_0_r. by destruct t. }
  intros H. apply bind_ok in H as (t1 & c1 & H1 & H).
  unfold replace_counted in H1. apply bind_ok in H1 as (u & c0 & H0 & [= <- <-]).
  unfold db in H0. apply map_err_ok, do_replace_ok in H0 as [now H0].
  apply IH in H as (nows & Hlen & Hcur & ->). exists (now :: nows). cbn. split_and!; [by rewrite Hlen|by rewrite Hcur, H0|].
  unfold list_sum. simpl. f_equal; lia.
Qed.

Lemma replace_all_wf repo files nows d :
  length nows = length files → fresh_all repo files d → wf d →
  wf (foldl (λ d p, replaced repo (fst p) (snd p) d) d (zip files nows)).
Proof.
  revert nows d. induction files as [|f files IH]; intros [|now nows] d Hlen Hfresh Hwf; try done.
  destruct Hfresh as [Hf Hall]. cbn. apply IH; [by injection Hlen|by apply Hall|by apply replaced_wf].
Qed.

Lemma replace_chunks_wf repo files : ∀ w c r c',
  wf (current c) → fold_each (replace_chunks_of fault repo) w files c = (Ok r, c') → wf (current c').
Proof.
  induction files as [|f files IH]; intros w c r c' Hwf; cbn [fold_each]; [by intros [= _ <-]|].
  intros H. apply bind_ok in H as (w1 & c1 & H1 & H). eapply IH, H.
  unfold replace_chunks_of in H1. apply bind_ok in H1 as (? & c2 & H2%run_ok & H1).
  apply bind_ok in H1 as (? & c3 & H3 & [= _ <-]).
  eapply for_each_inv, H3; [|rewrite H2; by apply delete_chunks_wf].
  intros n c4 u c5 _ H4 ->%run_ok. by apply upsert_chunk_wf.
Qed.

#[local] Hint Resolve commits_lift commits_ret : core.

Lemma commits_delete repo path : commits wf (delete_file_graph_for_repo nfc fault repo path).
Proof.
  apply commits_bind; [done|]. intros p. apply commits_transactional; [apply _|].
  intros c u c' Hwf ->%map_err_ok%delete_body_ok. by apply deleted_wf.
Qed.
Lemma commits_rename repo o n : commits wf (rename_file_graph_for_repo nfc fault sqlite_now repo o n).
Proof.
  apply commits_bind; [done|]. intros o'. apply commits_bind; [done|]. intros n'. case_match; [done|].
  apply commits_unguarded; [apply _|]. intros c u c' Hwf [now ->]%rename_body_ok. by apply renamed_wf.
Qed.
Lemma commits_owner repo path o : commits wf (upsert_file_owner_for_repo nfc fault repo path o).
Proof. apply commits_bind; [done|]. intros p. apply commits_run. intros d. apply set_owner_wf. Qed.

Lemma commits_single {A} owners v (k : option string → M AtlasError A) :
  (∀ r, commits wf (k r)) → commits wf (bind (single_source_repo_id_for_value fault owners v) k).
Proof. intros Hk. apply commits_bind; [apply commits_query|done]. Qed.

(** The operations that put no limits on names. *)
Lemma run_op_commits op :
  match op with OpReplace _ _ | OpReplaceAll _ _ => True | _ => commits wf (run_op op) end.
Proof.
  destruct op as [repo f|repo fs|repo p|p|repo o n|o n|repo p es|repo p ow|p ow|repo q i t|repo p|repo fs];
    cbn [run_op]; [done|done|..].
  - apply commits_delete.
  - apply commits_bind; [done|]. intros p'. apply commits_single. intros [r|]; [apply commits_delete|done].
  - apply commits_rename.
  - apply commits_bind; [done|]. intros p'. apply commits_single. intros [r|]; [apply commits_rename|done].
  - apply commits_bind; [done|]. intros [[p' ns] es']. apply commits_unguarded; [apply _|].
    intros c1 u c' H1 ->%rewrite_body_ok. by apply rewritten_wf.
  - apply commits_owner.
  - apply commits_bind; [done|]. intros p'. apply commits_single. intros [r|]; [apply commits_owner|done].
  - apply commits_run. intros d. apply upsert_chunk_wf.
  - apply commits_run. intros d. apply delete_chunks_wf.
  - apply commits_bind; [|done]. unfold replace_chunks_for_parsed_files. destruct fs; [done|].
    apply commits_transactional; [apply _|]. intros c1 a c' H1 H2%map_err_ok. by eapply replace_chunks_wf.
Qed.

Lemma run_op_wf op c :
  wf (committed c) → allowed op (committed c) → wf (committed (snd (run_op op c))).
Proof.
  intros Hwf Hall. pose proof (run_op_commits op) as Hother. destruct op as [repo f|repo fs| | | | | | | | | | ];
    try by apply Hother.
  - cbn [run_op]. unfold replace_file_graph_for_repo, bind, lift.
    destruct (canonicalize f) as [f'|e] eqn:Hf; cbn; [|done].
    destruct (transactional fault _ c) as [[u|e] c'] eqn:Ht; cbn.
    + apply transactional_ok in Ht as (_ & _ & c1 & c2 & Hc1 & Hb & ->); [|apply _].
      apply map_err_ok, do_replace_ok in Hb as [now ->]. rewrite Hc1. apply replaced_wf; [done|by apply Hall].
    + apply transactional_err in Ht as ->; [done|apply _].
  - cbn [run_op]. unfold discard, replace_files_transactional_for_repo. destruct fs as [|f fs]; [done|].
    unfold bind at 1 2, lift. destruct (collect canonicalize (f :: fs)) as [fs'|e] eqn:Hf; [|done].
    destruct (transactional fault _ c) as [[u|e] c'] eqn:Ht; cbn.
    + apply transactional_ok in Ht as (_ & _ & c1 & c2 & Hc1 & Hb & ->); [|apply _].
      apply replace_all_run in Hb as (nows & Hlen & -> & _). rewrite Hc1.
      apply replace_all_wf; [done|by apply Hall|done].
    + apply transactional_err in Ht as ->; [done|apply _].
Qed.

(** One call of any operation, on whatever connection, failing or not. *)
Definition graph_step (c c' : Conn) : Prop :=
  ∃ op, allowed op (committed c) ∧ c' = snd (run_op op c).

(** *** With a transaction open *)

Context (Hgentle : gentle fault).

Lemma begin_open (c : Conn) :
  is_Some (working c) → ∃ e, begin_write fault c = (Err e, bump c).
Proof.
  intros [w Hw]. unfold begin_write. destruct (fault (tick c)) as [e|] eqn:He; [|rewrite Hw; by eexists].
  rewrite (failed_gentle fault) by done. by eexists.
Qed.

(** A call that leaves an open transaction open and what is committed alone. *)
Definition inert {A} (m : M AtlasError A) : Prop :=
  ∀ c, is_Some (working c) → committed (snd (m c)) = committed c ∧ is_Some (working (snd (m c))).

Lemma inert_bind {A B} (m : M AtlasError A) (k : A → M AtlasError B) :
  inert m → (∀ a, inert (k a)) → inert (bind m k).
Proof.
  intros Hm Hk c Hw. unfold bind. destruct (Hm c Hw) as [Hc Hw'].
  destruct (m c) as [[a|e] c']; cbn in *; [|done]. destruct (Hk a c' Hw') as [Hc2 Hw2]. by rewrite Hc2.
Qed.
Lemma inert_lift {A} (r : result AtlasError A) : inert (lift r).
Proof. by intros c. Qed.
Lemma inert_ret {A} (a : A) : inert (ret a).
Proof. by intros c. Qed.
Lemma inert_plain {A} (m : M AtlasError A) `{Hp : !Plain m} : Steady m → inert m.
Proof.
  intros Hs c Hc. split; [|by apply Hs]. pose proof (plain (m := m) c) as Htx. unfold same_tx in Htx.
  destruct Hc as [w Hw]. rewrite Hw in Htx. apply Htx.
Qed.
Lemma inert_transactional {A} (body : M AtlasError A) : inert (transactional fault body).
Proof. intros c Hc. unfold transactional, db, map_err, bind. by destruct (begin_open c Hc) as [e ->]. Qed.
Lemma inert_unguarded body : inert (unguarded fault body).
Proof. intros c Hc. unfold unguarded, db, map_err, bind. by destruct (begin_open c Hc) as [e ->]. Qed.
Lemma steady_run f : Steady (run f).
Proof. apply steady_sql, Hgentle. Qed.

Ltac steady_call :=
  repeat first [ apply steady_map_err | apply steady_run | apply steady_sql, Hgentle
               | apply steady_bind; [|intros] | by intros c ].
Ltac inert_call :=
  repeat first [ apply inert_lift | apply inert_ret | apply inert_transactional | apply inert_unguarded
               | apply inert_bind; [|intros] ].

Lemma inert_delete repo p : inert (delete_file_graph_for_repo nfc fault repo p).
Proof. unfold delete_file_graph_for_repo. inert_call. Qed.
Lemma inert_owner repo p o : inert (upsert_file_owner_for_repo nfc fault repo p o).
Proof. unfold upsert_file_owner_for_repo. inert_call. apply inert_plain; [apply _|]. steady_call. Qed.
Lemma inert_rename repo o n : inert (rename_file_graph_for_repo nfc fault sqlite_now repo o n).
Proof. unfold rename_file_graph_for_repo. inert_call. case_match; inert_call. Qed.
Lemma inert_single {A} owners v (k : option string → M AtlasError A) :
  (∀ r, inert (k r)) → inert (bind (single_source_repo_id_for_value fault owners v) k).
Proof. intros Hk. apply inert_bind; [|done]. apply inert_plain; [apply _|]. steady_call. Qed.

Lemma run_op_open op : inert (run_op op).
Proof.
  destruct op as [repo f|repo fs|repo p|p|repo o n|o n|repo p es|repo p ow|p ow|repo q i t|repo p|repo fs];
    cbn [run_op].
  - unfold replace_file_graph_for_repo. inert_call.
  - unfold discard, replace_files_transactional_for_repo. destruct fs; inert_call.
  - apply inert_delete.
  - unfold delete_file_graph. apply inert_bind; [inert_call|intros]. apply inert_single.
    intros [r|]; [apply inert_delete|inert_call].
  - apply inert_rename.
  - unfold rename_file_graph. apply inert_bind; [inert_call|intros]. apply inert_single.
    intros [r|]; [apply inert_rename|inert_call].
  - unfold rewrite_file_edges_for_repo. apply inert_bind; [inert_call|intros [[p' ns] es']]. inert_call.
  - apply inert_owner.
  - unfold upsert_file_owner. apply inert_bind; [inert_call|intros]. apply inert_single.
    intros [r|]; [apply inert_owner|inert_call].
  - apply inert_plain; [apply _|]. steady_call.
  - apply inert_plain; [apply _|]. steady_call.
  - unfold discard, replace_chunks_for_parsed_files. destruct fs; inert_call.
Qed.
End guarantees.

(** C9. What is committed is always well formed, after any sequence of operations, whichever
    statements fail: row ids, symbol names of a repository and file rows are unique, and the
    full-text index holds exactly the nodes. The parsed files must not name a symbol twice,
    or one that another file of the repository has. *)
Theorem graph_store_wf (nfc : string → string) (fault : nat → option Fault) (sqlite_now : nat → string)
    (c c' : Conn) :
  wf (committed c) → rtc (graph_step nfc fault sqlite_now) c c' → wf (committed c').
Proof. intros Hwf Hsteps. induction Hsteps as [|c c1 c2 (op & Hall & ->) _ IH]; [done|]. by apply IH, run_op_wf. Qed.


(** A batch of files is replaced as a whole or not at all, with the effect of replacing
    them one after the other, and the totals it reports are those of the batch. *)
Theorem replace_files_all_or_nothing (nfc : string → string) (fault : nat → option Fault)
    (sqlite_now : nat → string) (repo : string) (files : list ParsedFile) (c : Conn) :
  match replace_files_transactional_for_repo nfc fault sqlite_now repo files c with
  | (Ok totals, c') =>
      ∃ fs nows, collect (canonicalize_parsed_file nfc) files = Ok fs ∧ length nows = length fs ∧
        committed c' = foldl (λ d p, replaced repo (fst p) (snd p) d) (committed c) (zip fs nows) ∧
        totals = (list_sum (map (λ f, length (pf_nodes f)) fs), list_sum (map (λ f, length (pf_edges f)) fs))
  | (Err _, c') => committed c' = committed c
  end.
Proof.
  unfold replace_files_transactional_for_repo. destruct files as [|f files]; [by exists [], []|].
  unfold bind, lift. destruct (collect _ _) as [fs|e] eqn:Hf; [|done].
  destruct (transactional fault _ c) as [[t|e] c'] eqn:Ht.
  - apply transactional_ok in Ht as (_ & Hw & c1 & c2 & Hc1 & Hb & ->); [|apply _].
    apply replace_all_run in Hb as (nows & Hlen & -> & ->). rewrite Hc1. by exists fs, nows.
  - apply transactional_err in Ht; [done|apply _].
Qed.

(** C28. Deleting a file removes every trace of it from its repository, and nothing else: its
    nodes, its edges and those of other files that touch its symbols, its row, its entries in
    the full-text index and the chunks of its symbols. Deleting it again changes nothing. *)
Theorem delete_file_graph_exact (nfc : string → string) (fault : nat → option Fault)
    (repo path : string) (c : Conn) :
  wf (committed c) →
  match delete_file_graph_for_repo nfc fault repo path c with
  | (Ok _, c') =>
      ∃ p, canonicalize_repo_path nfc path = Ok p ∧
      let names := row_names (file_nodes (committed c) repo p) in
      (∀ r, r ∈ t_nodes (committed c') ↔ r ∈ t_nodes (committed c) ∧ ¬ (nr_repo r = repo ∧ nr_path r = p)) ∧
      (∀ e, e ∈ t_edges (committed c') ↔ e ∈ t_edges (committed c) ∧
         ¬ (er_repo e = repo ∧
            (er_path e = p ∨ e_source_qn (row_edge e) ∈ names ∨ e_target_qn (row_edge e) ∈ names))) ∧
      (∀ f, f ∈ t_files (committed c') ↔ f ∈ t_files (committed c) ∧ ¬ (fr_repo f = repo ∧ fr_path f = p)) ∧
      (∀ k, k ∈ t_chunks (committed c') ↔ k ∈ t_chunks (committed c) ∧ ¬ (ck_repo k = repo ∧ ck_qn k ∈ names)) ∧
      t_fts (committed c') ≡ₚ map fts_entry (t_nodes (committed c')) ∧
      deleted_file repo p (committed c') = committed c'
  | (Err _, c') => committed c' = committed c
  end.
Proof.
  intros Hwf. unfold delete_file_graph_for_repo, bind, lift.
  destruct (canonicalize_repo_path nfc path) as [p|e] eqn:Hf; [|done].
  destruct (transactional fault _ c) as [[t|e] c'] eqn:Ht; [|apply transactional_err in Ht; [done|apply _]].
  apply transactional_ok in Ht as (_ & Hw & c1 & c2 & Hc1 & Hb & ->); [|apply _].
  apply map_err_ok, delete_body_ok in Hb as ->. rewrite Hc1. clear c1 c2 Hc1 Hw. exists p. split; [done|].
  cbn zeta. pose proof (deleted_wf repo p _ Hwf) as Hwf'.
  split_and!; [| | | |apply Hwf'|].
  - intros r. rewrite deleted_file_eq. cbn. unfold kept_nodes. rewrite list_elem_of_filter, negb_Is_true. unfold in_node_file.
    rewrite andb_Is_true, !eqb_Is_true. naive_solver.
  - intros r. rewrite deleted_file_eq. cbn. rewrite list_elem_of_filter, andb_Is_true, !negb_Is_true.
    unfold in_edge_file, touches. rewrite !andb_Is_true, orb_Is_true, !eqb_Is_true, !bool_decide_spec. naive_solver.
  - intros r. rewrite deleted_file_eq. cbn. rewrite list_elem_of_filter, negb_Is_true. unfold is_file.
    rewrite andb_Is_true, !eqb_Is_true. naive_solver.
  - intros r. rewrite deleted_file_eq. cbn. rewrite list_elem_of_filter, negb_Is_true. unfold of_symbols.
    rewrite andb_Is_true, !eqb_Is_true, bool_decide_spec. naive_solver.
  - apply deleted_again.
Qed.

(** Once an operation has left its transaction open, nothing more is ever committed, as long
    as no failure makes SQLite roll the transaction back: every later operation, also one that
    reports success, leaves the committed tables alone and the transaction open. *)
Theorem open_transaction_commits_nothing (nfc : string → string) (fault : nat → option Fault)
    (sqlite_now : nat → string) (c c' : Conn) :
  gentle fault → is_Some (working c) →
  rtc (λ c1 c2, ∃ op, c2 = snd (run_op nfc fault sqlite_now op c1)) c c' →
  committed c' = committed c ∧ is_Some (working c').
Proof.
  intros Hgentle Hw Hsteps. revert Hw. induction Hsteps as [|c c1 c2 [op ->] _ IH]; intros Hw; [done|].
  destruct (run_op_open nfc fault sqlite_now Hgentle op c Hw) as [Hc Hw']. rewrite <- Hc. by apply IH.
Qed.

(** ** A small store *)

Definition ex_fault : nat → option Fault := λ _, None.
Definition ex_now : nat → string := λ _, "2026-01-01 00:00:00".

Definition ex_new_node (path name : string) (line : N) : NewNode :=
  mk_new_node
    (mk_cnode (mk_node 0 NkFunction name (path +:+ "::fn::" +:+ name) path line line "rust" None None None None false "h")
       JNull) None.
Definition ex_new_edge (path source target : string) : NewEdge :=
  mk_new_edge
    (mk_cedge (mk_edge 0 EkCalls source target path None (S754_finite false 8388608 (-23)) None) JNull) None.

Definition ex_file (path : string) (names : list string) (edges : list NewEdge) : ParsedFile :=
  mk_parsed path (Some "rust") "h" None (map (λ n, ex_new_node path n 1) names) edges.

Definition ex_conn (d : GraphDb) : Conn := mk_conn d None 0.
Definition ex_op (op : GraphOp) (c : Conn) : Conn := snd (run_op id ex_fault ex_now op c).

(** [b.rs] calls into [a.rs]. *)
Definition ex_a : ParsedFile := ex_file "./src/a.rs" ["x"; "y"] [].
Definition ex_b : ParsedFile :=
  ex_file "src/b.rs" ["z"] [ex_new_edge "src/b.rs" "src/b.rs::fn::z" "src/a.rs::fn::x";
                            ex_new_edge "src/b.rs" "src/b.rs::fn::z" "src/a.rs::fn::y"].
Definition ex_store : Conn := ex_op (OpReplaceAll "r" [ex_a; ex_b]) (ex_conn empty_graph).

Definition names_of (d : GraphDb) : list (string * string) := map (λ r, (nr_qn r, nr_path r)) (t_nodes d).
Definition targets_of (d : GraphDb) : list string := map (λ e, e_target_qn (row_edge e)) (t_edges d).

Example ex_store_names :
  names_of (committed ex_store) =
    [("src/a.rs::fn::x", "src/a.rs"); ("src/a.rs::fn::y", "src/a.rs"); ("src/b.rs::fn::z", "src/b.rs")].
Proof. vm_compute. reflexivity. Qed.

(** The edge into the symbol that stays is kept, the other one goes. *)
Example ex_replace_targets :
  targets_of (committed (ex_op (OpReplace "r" (ex_file "src/a.rs" ["x"] [])) ex_store)) = ["src/a.rs::fn::x"].
Proof. vm_compute. reflexivity. Qed.

Example ex_delete_targets :
  targets_of (committed (ex_op (OpDeleteAny "src/a.rs") ex_store)) = [] ∧
  names_of (committed (ex_op (OpDeleteAny "src/a.rs") ex_store)) = [("src/b.rs::fn::z", "src/b.rs")].
Proof. vm_compute. by split. Qed.

(** Renaming moves the paths and leaves the names: a new file under the old path that defines
    the same symbol takes the row of the renamed file away. *)
Example renamed_symbol_lost :
  let moved := ex_op (OpRename "r" "src/a.rs" "src/c.rs") ex_store in
  let again := ex_op (OpReplace "r" (ex_file "src/a.rs" ["x"] [])) moved in
  names_of (committed moved) =
    [("src/a.rs::fn::x", "src/c.rs"); ("src/a.rs::fn::y", "src/c.rs"); ("src/b.rs::fn::z", "src/b.rs")] ∧
  names_of (committed again) =
    [("src/a.rs::fn::y", "src/c.rs"); ("src/b.rs::fn::z", "src/b.rs"); ("src/a.rs::fn::x", "src/a.rs")] ∧
  (length (t_fts (committed again)), length (t_nodes (committed again))) = (4, 3)%nat.
Proof. vm_compute. by split_and!. Qed.

(** Two symbols of one name: the second takes the row of the first, whose entry stays in the
    full-text index, also after the file is deleted. *)
Example duplicate_name_stays_indexed :
  let twice := ex_op (OpReplace "r" (ex_file "src/a.rs" ["x"; "x"] [])) (ex_conn empty_graph) in
  (length (t_fts (committed twice)), length (t_nodes (committed twice))) = (2, 1)%nat ∧
  length (t_fts (committed (ex_op (OpDelete "r" "src/a.rs") twice))) = 1%nat.
Proof. vm_compute. by split. Qed.

(** A statement of a renaming fails; what is done afterwards is never committed. *)
Example failed_rename_blocks :
  let busy n := if decide (n = 3)%nat then Some (mk_fault "database is locked" false) else None in
  let c := snd (run_op id busy ex_now (OpRename "r" "src/a.rs" "src/c.rs") (ex_conn (committed ex_store))) in
  let owner := Some (mk_owner "cargo:Cargo.toml" Cargo "" "Cargo.toml" None) in
  let later := run_op id ex_fault ex_now (OpOwner "r" "src/b.rs" owner) c in
  fst later = Ok tt ∧ committed (snd later) = committed ex_store ∧
  fst (run_op id ex_fault ex_now (OpDelete "r" "src/b.rs") (snd later)) =
    Err (DbError "cannot start a transaction within a transaction").
Proof. vm_compute. by split_and!. Qed.

(** *** Witnesses *)

Lemma empty_wf : wf empty_graph.
Proof. constructor; cbn; constructor. Qed.

Lemma ex_fresh : allowed id (OpReplaceAll "r" [ex_a; ex_b]) empty_graph.
Proof.
  intros fs [= <-]. cbn. split_and!; [split|intros now; split_and!; [split|done]].
  - apply (bool_decide_unpack _). vm_compute. exact I.
  - cbn. set_solver.
  - apply (bool_decide_unpack _). vm_compute. exact I.
  - intros r Hr _ _. vm_compute in Hr. set_solver.
Qed.

Lemma graph_store_wf_witness : wf (committed ex_store).
Proof.
  apply (graph_store_wf id ex_fault ex_now (ex_conn empty_graph) ex_store empty_wf).
  apply rtc_once. exists (OpReplaceAll "r" [ex_a; ex_b]). split; [exact ex_fresh|reflexivity].
Defined.


Lemma ex_store_wf : wf (committed ex_store).
Proof. apply (run_op_wf id ex_fault ex_now (OpReplaceAll "r" [ex_a; ex_b]) (ex_conn empty_graph) empty_wf ex_fresh). Qed.

Lemma delete_file_graph_exact_witness :
  match delete_file_graph_for_repo id ex_fault "r" "src/a.rs" ex_store with
  | (Ok _, c') =>
      ∃ p, canonicalize_repo_path id "src/a.rs" = Ok p ∧
      let names := row_names (file_nodes (committed ex_store) "r" p) in
      (∀ r, r ∈ t_nodes (committed c') ↔ r ∈ t_nodes (committed ex_store) ∧ ¬ (nr_repo r = "r" ∧ nr_path r = p)) ∧
      (∀ e, e ∈ t_edges (committed c') ↔ e ∈ t_edges (committed ex_store) ∧
         ¬ (er_repo e = "r" ∧
            (er_path e = p ∨ e_source_qn (row_edge e) ∈ names ∨ e_target_qn (row_edge e) ∈ names))) ∧
      (∀ f, f ∈ t_files (committed c') ↔ f ∈ t_files (committed ex_store) ∧ ¬ (fr_repo f = "r" ∧ fr_path f = p)) ∧
      (∀ k, k ∈ t_chunks (committed c') ↔ k ∈ t_chunks (committed ex_store) ∧ ¬ (ck_repo k = "r" ∧ ck_qn k ∈ names)) ∧
      t_fts (committed c') ≡ₚ map fts_entry (t_nodes (committed c')) ∧
      deleted_file "r" p (committed c') = committed c'
  | (Err _, c') => committed c' = committed ex_store
  end.
Proof. apply (delete_file_graph_exact id ex_fault "r" "src/a.rs" ex_store ex_store_wf). Defined.

Lemma open_transaction_commits_nothing_witness :
  let c := mk_conn empty_graph (Some (committed ex_store)) 7 in
  let c' := ex_op (OpDelete "r" "src/a.rs") c in
  committed c' = empty_graph ∧ is_Some (working c').
Proof.
  apply (open_transaction_commits_nothing id ex_fault ex_now (mk_conn empty_graph (Some (committed ex_store)) 7)).
  - done.
  - by eexists.
  - apply rtc_once. by exists (OpDelete "r" "src/a.rs").
Defined.
