(* ===== verification/GraphQueries.v ===== *)
(** * Queries of the graph store

    Model of [packages/atlas-store-sqlite/src/store/graph.rs] and context.rs, and of the
    lookups of mutation.rs, as functions on the tables of [GraphTables]: joins, filters,
    orders and limits as the statements have them. Rows that an [ORDER BY] does not tell apart
    stay in table order. Rows are those the store writes, so every row is read back. A failing
    statement ends a query with an error and is left out here. *)

From Stdlib Require Import Floats.SpecFloat.
From S2P Require Import Prelude RustStr RustFloat Budget Kinds Json Graph RepoPath Owners ContextData Impact Sqlite GraphTables GraphStore.

(** ** SQL *)

(** [LIKE]: a percent sign stands for any text, an underscore for one character, ASCII letters
    match in either case. *)
Fixpoint skip_continuation (s : string) : string :=
  match s with
  | String a rest => if byte_in 128 191 a then skip_continuation rest else s
  | EmptyString => EmptyString
  end.
Definition drop_char (s : string) : option string :=
  match s with EmptyString => None | String _ rest => Some (skip_continuation rest) end.

Fixpoint like (pattern : string) : string → bool :=
  match pattern with
  | EmptyString => str_is_empty
  | String p rest =>
      if Ascii.eqb p "%" then
        fix any (v : string) : bool := like rest v || match v with EmptyString => false | String _ v => any v end
      else if Ascii.eqb p "_" then λ v, match drop_char v with Some v => like rest v | None => false end
      else λ v, match v with
        | String a v => Ascii.eqb (to_ascii_lower a) (to_ascii_lower p) && like rest v
        | EmptyString => false
        end
  end.

(** The same with the wildcards of the text escaped, and a percent sign after it. *)
Definition like_prefix (prefix v : string) : bool :=
  starts_with (to_ascii_lowercase prefix) (to_ascii_lowercase v).

Definition len {A} (l : list A) : N := N.of_nat (length l).
Definition limit_rows {A} (n : N) (l : list A) : list A :=
  if (len l <=? n)%N then l else take (N.to_nat n) l.

Definition by_position : CNode → CNode → comparison :=
  cmp_lex (cmp_on (λ n, n_file_path (cn_node n)) String.compare) (cmp_on (λ n, n_line_start (cn_node n)) N.compare).
Definition by_position_and_name : CNode → CNode → comparison :=
  cmp_lex by_position (cmp_on (λ n, n_qualified_name (cn_node n)) String.compare).

Definition select_nodes (d : GraphDb) (p : NodeRow → bool) : list CNode :=
  map nr_node (filter (λ r, p r) (t_nodes d)).
Definition select_edges (d : GraphDb) (p : EdgeRow → bool) : list CEdge :=
  map er_edge (filter (λ r, p r) (t_edges d)).

(** ** Files and nodes *)

Section queries.
Context (nfc : string → string).

#[local] Abbreviation canonicalize := (canonicalize_repo_path nfc).

Definition nodes_by_file (d : GraphDb) (path : string) : result AtlasError (list CNode) :=
  path <-? canonicalize path;;
  Ok (sort_by (cmp_on (λ n, n_line_start (cn_node n)) N.compare) (select_nodes d (λ r, String.eqb (nr_path r) path))).

Definition nodes_by_file_for_repo (d : GraphDb) (repo path : string) : result AtlasError (list CNode) :=
  path <-? canonicalize path;;
  Ok (sort_by (cmp_on (λ n, n_line_start (cn_node n)) N.compare) (select_nodes d (in_node_file repo path))).

Definition list_files (d : GraphDb) : list FileRow := sort_by (cmp_on fr_path String.compare) (t_files d).

Definition list_all_nodes (d : GraphDb) : list CNode := sort_by by_position_and_name (select_nodes d (λ _, true)).

Definition list_all_edges (d : GraphDb) : list CEdge :=
  sort_by (cmp_lex (cmp_on (λ e, e_source_qn (ce_edge e)) String.compare)
    (cmp_lex (cmp_on (λ e, e_target_qn (ce_edge e)) String.compare)
      (cmp_lex (cmp_on (λ e, EdgeKind_as_str (e_kind (ce_edge e))) String.compare)
        (cmp_on (λ e, e_file_path (ce_edge e)) String.compare)))) (select_edges d (λ _, true)).

Definition edges_by_file (d : GraphDb) (path : string) : result AtlasError (list CEdge) :=
  path <-? canonicalize path;; Ok (select_edges d (λ r, String.eqb (er_path r) path)).
Definition edges_by_file_for_repo (d : GraphDb) (repo path : string) : result AtlasError (list CEdge) :=
  path <-? canonicalize path;; Ok (select_edges d (in_edge_file repo path)).

Definition callable_kind (k : NodeKind) : bool :=
  match k with NkFunction | NkMethod | NkTest => true | _ => false end.
Definition callable_nodes_by_name (d : GraphDb) (language name : string) : list CNode :=
  sort_by by_position
    (select_nodes d (λ r, String.eqb (n_language (row_node r)) language && String.eqb (n_name (row_node r)) name &&
       callable_kind (n_kind (row_node r)))).

Definition file_hashes_for_repo (d : GraphDb) (repo : string) : gmap string string :=
  list_to_map (rev (map (λ f, (fr_path f, fr_hash f)) (filter (λ f, String.eqb (fr_repo f) repo) (t_files d)))).

Definition recently_indexed_files (d : GraphDb) (n : N) : list string :=
  limit_rows n (map fr_path (sort_by (cmp_rev (cmp_on fr_indexed_at String.compare)) (t_files d))).

Definition file_graph_exists_for_repo (d : GraphDb) (repo path : string) : result AtlasError bool :=
  path <-? canonicalize path;;
  Ok (existsb (is_file repo path) (t_files d) || existsb (in_node_file repo path) (t_nodes d)).

Definition file_hash (d : GraphDb) (path : string) : result AtlasError (option string) :=
  path <-? canonicalize path;; Ok (fr_hash <$> List.find (λ f, String.eqb (fr_path f) path) (t_files d)).
Definition file_hash_for_repo (d : GraphDb) (repo path : string) : result AtlasError (option string) :=
  path <-? canonicalize path;; Ok (fr_hash <$> find_file d repo path).

Definition node_signature (n : Node) : string :=
  NodeKind_as_str (n_kind n) +:+ "|" +:+ default "" (n_params n) +:+ "|" +:+ default "" (n_return_type n) +:+ "|" +:+
  default "" (n_modifiers n) +:+ "|" +:+ (if n_is_test n then "1" else "0").
Definition node_signatures_by_file_for_repo (d : GraphDb) (repo path : string) :
    result AtlasError (gmap string string) :=
  path <-? canonicalize path;;
  Ok (list_to_map (rev (map (λ r, (nr_qn r, node_signature (row_node r))) (file_nodes d repo path)))).
Definition node_signatures_by_file (d : GraphDb) (path : string) : result AtlasError (gmap string string) :=
  path <-? canonicalize path;;
  match single (stable_owners (node_owners d path)) with
  | Some repo => node_signatures_by_file_for_repo d repo path
  | None => Ok ∅
  end.

(** *** Owners *)

Definition owner_kind_from_str (s : string) : option PackageOwnerKind :=
  if String.eqb s "cargo" then Some Cargo
  else if String.eqb s "npm" then Some Npm
  else if String.eqb s "go" then Some Go
  else None.
Definition read_owner (c : OwnerColumns) : option PackageOwner :=
  id ← oc_id c; kind ← oc_kind c; root ← oc_root c; manifest ← oc_manifest c;
  kind ← owner_kind_from_str kind;
  Some (mk_owner id kind root manifest (oc_name c)).

Definition file_owner_for_repo (d : GraphDb) (repo path : string) : result AtlasError (option PackageOwner) :=
  path <-? canonicalize path;; Ok (f ← find_file d repo path; read_owner (fr_owner f)).
Definition file_owner (d : GraphDb) (path : string) : result AtlasError (option PackageOwner) :=
  path <-? canonicalize path;;
  match single (stable_owners (file_owners d path)) with
  | Some repo => file_owner_for_repo d repo path
  | None => Ok None
  end.
Definition file_owner_id (d : GraphDb) (path : string) : result AtlasError (option string) :=
  o <-? file_owner d path;; Ok (owner_id <$> o).
Definition file_owner_id_for_repo (d : GraphDb) (repo path : string) : result AtlasError (option string) :=
  o <-? file_owner_for_repo d repo path;; Ok (owner_id <$> o).

(** The prefix is a pattern as it is. *)
Definition file_paths_with_prefix_for_repo (d : GraphDb) (repo prefix : string) : list string :=
  sort_by String.compare
    (map fr_path (filter (λ f, String.eqb (fr_repo f) repo && like (prefix +:+ "%") (fr_path f)) (t_files d))).
End queries.

(** *** Pages *)

Definition MAX_NODE_LIST_LIMIT : N := 10000.

Record NodeListFilter := mk_node_filter {
  nf_kind : option string;
  nf_language : option string;
  nf_subpath : option string;
  nf_repo_id : option string
}.

Record NodeListPage := mk_page { pg_nodes : list CNode; pg_total : N; pg_limit : N; pg_offset : N }.

Definition next_offset (p : NodeListPage) : option N :=
  let consumed := sat_add64 (pg_offset p) (len (pg_nodes p)) in
  if (consumed <? pg_total p)%N then Some consumed else None.
Definition has_more (p : NodeListPage) : bool := bool_decide (is_Some (next_offset p)).

(** [prefix_upper_bound], on the characters of the prefix: the last one that has a next
    character gets it, and what follows is dropped. *)
Definition is_char (c : N) : bool := (((c <? 55296) || (57344 <=? c)) && (c <=? 1114111))%N.
Fixpoint next_char (fuel : nat) (candidate : N) : option N :=
  match fuel with
  | O => None
  | S fuel =>
      if (candidate <=? 1114111)%N then if is_char candidate then Some candidate else next_char fuel (candidate + 1)%N
      else None
  end.
Fixpoint bump_last (rev_chars : list N) : option (list N) :=
  match rev_chars with
  | [] => None
  | last :: rest =>
      match next_char 2049 (last + 1)%N with Some next => Some (rev (next :: rest)) | None => bump_last rest end
  end.
Definition prefix_upper_bound (chars : list N) : option (list N) := bump_last (rev chars).

(** The order of SQLite on texts is the order of their characters. *)
Fixpoint chars_compare (a b : list N) : comparison :=
  match a, b with
  | [], [] => Eq
  | [], _ => Lt
  | _, [] => Gt
  | x :: a, y :: b => match (x ?= y)%N with Eq => chars_compare a b | c => c end
  end.
Definition chars_leb (a b : list N) : bool := match chars_compare a b with Gt => false | _ => true end.
Definition chars_ltb (a b : list N) : bool := match chars_compare a b with Lt => true | _ => false end.

Section pages.
(** The characters of a text. *)
Context (chars : string → list N).

Definition in_subpath (subpath path : string) : bool :=
  match prefix_upper_bound (chars subpath) with
  | Some upper => chars_leb (chars subpath) (chars path) && chars_ltb (chars path) upper
  | None => bool_decide (take (length (chars subpath)) (chars path) = chars subpath)
  end.

Definition matches_filter (f : NodeListFilter) (r : NodeRow) : bool :=
  let is_opt o v := match o with Some x => String.eqb v x | None => true end in
  is_opt (normalize_kind_alias <$> nf_kind f) (NodeKind_as_str (n_kind (row_node r))) &&
  is_opt (nf_language f) (n_language (row_node r)) &&
  match nf_subpath f with Some sub => in_subpath sub (nr_path r) | None => true end &&
  is_opt (nf_repo_id f) (nr_repo r).

Definition matching_nodes (d : GraphDb) (f : NodeListFilter) : list CNode :=
  sort_by by_position_and_name (select_nodes d (matches_filter f)).

Definition list_nodes (d : GraphDb) (f : NodeListFilter) (limit offset : N) : NodeListPage :=
  let limit := N.max 1 (N.min limit MAX_NODE_LIST_LIMIT) in
  let all := matching_nodes d f in
  mk_page (limit_rows limit (drop (N.to_nat (N.min offset (len all))) all)) (len all) limit offset.
End pages.

(** ** Neighbours *)

Definition node_by_qname (d : GraphDb) (qname : string) : option CNode :=
  head (select_nodes d (λ r, String.eqb (nr_qn r) qname)).

Definition nodes_by_name (d : GraphDb) (name : string) (limit : N) : list CNode :=
  limit_rows limit (sort_by by_position (select_nodes d (λ r, String.eqb (n_name (row_node r)) name))).

Inductive EdgeDirection := Inbound | Outbound.

Definition join_name (dir : EdgeDirection) (e : CEdge) : string :=
  match dir with Inbound => e_source_qn (ce_edge e) | Outbound => e_target_qn (ce_edge e) end.
Definition filter_name (dir : EdgeDirection) (e : CEdge) : string :=
  match dir with Inbound => e_target_qn (ce_edge e) | Outbound => e_source_qn (ce_edge e) end.

Definition by_confidence (dir : EdgeDirection) : CNode * CEdge → CNode * CEdge → comparison :=
  cmp_lex (cmp_rev (cmp_on (λ p, e_confidence (ce_edge (snd p))) partial_cmp_or_equal))
    (cmp_on (λ p, join_name dir (snd p)) String.compare).

Definition joined (d : GraphDb) (dir : EdgeDirection) (qname : string) (calls_only : bool) : list (CNode * CEdge) :=
  select_edges d (λ r, String.eqb (filter_name dir (er_edge r)) qname &&
    (negb calls_only || bool_decide (e_kind (row_edge r) = EkCalls))) ≫= λ e,
  map (λ n, (n, e)) (select_nodes d (λ r, String.eqb (nr_qn r) (join_name dir e))).

Definition directed_edges (d : GraphDb) (qname : string) (limit : N) (dir : EdgeDirection) (calls_only : bool) :
    list (CNode * CEdge) :=
  limit_rows limit (sort_by (by_confidence dir) (joined d dir qname calls_only)).

Definition direct_callers d qname limit := directed_edges d qname limit Inbound true.
Definition direct_callees d qname limit := directed_edges d qname limit Outbound true.
Definition inbound_edges d qname limit := directed_edges d qname limit Inbound false.
Definition outbound_edges d qname limit := directed_edges d qname limit Outbound false.

(** Both directions of edges of some kinds, without the symbol itself. *)
Definition at_other_end (qname : string) (e : CEdge) (r : NodeRow) : bool :=
  (String.eqb (e_source_qn (ce_edge e)) qname && String.eqb (nr_qn r) (e_target_qn (ce_edge e)) ||
   String.eqb (e_target_qn (ce_edge e)) qname && String.eqb (nr_qn r) (e_source_qn (ce_edge e))) &&
  negb (String.eqb (nr_qn r) qname).
Definition kind_neighbors (d : GraphDb) (kinds : list EdgeKind) (qname : string) (limit : N) : list (CNode * CEdge) :=
  limit_rows limit
    (sort_by (cmp_lex (cmp_on (λ p, n_file_path (cn_node (fst p))) String.compare)
       (cmp_on (λ p, n_qualified_name (cn_node (fst p))) String.compare))
      (select_edges d (λ r, bool_decide (e_kind (row_edge r) ∈ kinds)) ≫= λ e,
       map (λ n, (n, e)) (select_nodes d (at_other_end qname e)))).
Definition import_neighbors d qname limit := kind_neighbors d [EkImports] qname limit.
Definition test_neighbors d qname limit := kind_neighbors d [EkTests; EkTestedBy] qname limit.

Definition containment_siblings (d : GraphDb) (qname : string) (limit : N) : list CNode :=
  limit_rows limit
    (sort_by (cmp_on (λ n, n_line_start (cn_node n)) N.compare)
      (select_nodes d (λ r, String.eqb (nr_qn r) qname) ≫= λ seed,
       match n_parent_name (cn_node seed) with
       | Some parent =>
           select_nodes d (λ s, String.eqb (nr_path s) (n_file_path (cn_node seed)) &&
             bool_decide (n_parent_name (row_node s) = Some parent) &&
             negb (String.eqb (nr_qn s) (n_qualified_name (cn_node seed))))
       | None => []
       end)).

Definition pair_compare : string * string → string * string → comparison :=
  cmp_lex (cmp_on fst String.compare) (cmp_on snd String.compare).

Definition files_referencing_symbols_in (d : GraphDb) (path : string) (max_edges : N) : list (string * string) :=
  limit_rows max_edges
    (sort_by pair_compare
      (t_edges d ≫= λ e,
       filter (λ nt, String.eqb (nr_qn nt) (e_target_qn (row_edge e)) && String.eqb (nr_path nt) path) (t_nodes d) ≫= λ _,
       map (λ ns, (nr_path ns, e_target_qn (row_edge e)))
         (filter (λ ns, String.eqb (nr_qn ns) (e_source_qn (row_edge e)) && negb (String.eqb (nr_path ns) path)) (t_nodes d)))).

Definition is_reference (k : EdgeKind) : bool :=
  match k with EkImports | EkCalls | EkReferences => true | _ => false end.
Definition files_sharing_references_with (d : GraphDb) (path : string) (max_edges : N) : list (string * string) :=
  limit_rows max_edges
    (sort_by pair_compare
      (remove_dups
        (filter (λ e, is_reference (e_kind (row_edge e))) (t_edges d) ≫= λ e1,
         filter (λ ns1, String.eqb (nr_qn ns1) (e_source_qn (row_edge e1)) && String.eqb (nr_path ns1) path) (t_nodes d) ≫= λ _,
         filter (λ e, is_reference (e_kind (row_edge e)) &&
           String.eqb (e_target_qn (row_edge e)) (e_target_qn (row_edge e1))) (t_edges d) ≫= λ e2,
         map (λ ns2, (nr_path ns2, e_target_qn (row_edge e1)))
           (filter (λ ns2, String.eqb (nr_qn ns2) (e_source_qn (row_edge e2)) && negb (String.eqb (nr_path ns2) path))
             (t_nodes d))))).

Definition dead_kind (k : NodeKind) : bool :=
  match k with
  | NkFunction | NkMethod | NkClass | NkStruct | NkEnum | NkTrait | NkInterface | NkConstant | NkVariable => true
  | _ => false
  end.
Definition keeps_alive (k : EdgeKind) : bool :=
  match k with EkCalls | EkReferences | EkImports | EkExtends | EkImplements => true | _ => false end.
Definition sql_public (n : Node) : bool :=
  let mods := default "" (n_modifiers n) in like "%pub%" mods || like "%export%" mods || like "%public%" mods.

Definition is_dead (d : GraphDb) (r : NodeRow) : bool :=
  let n := row_node r in
  negb (n_is_test n) && dead_kind (n_kind n) &&
  negb (existsb (String.eqb (n_language n)) ["toml"; "json"; "markdown"; "html"; "css"]) && negb (sql_public n) &&
  negb (existsb (λ e, String.eqb (e_target_qn (row_edge e)) (nr_qn r) && keeps_alive (e_kind (row_edge e))) (t_edges d)).

Definition dead_code_candidates_filtered (d : GraphDb) (subpath : option string) (limit : N) : list CNode :=
  limit_rows limit
    (sort_by by_position
      (select_nodes d (λ r, is_dead d r &&
         match subpath with Some sub => like_prefix sub (nr_path r) | None => true end))).
Definition dead_code_candidates (d : GraphDb) (limit : N) : list CNode := dead_code_candidates_filtered d None limit.

(** ** Dependents and impact *)

Definition find_dependents_for_qnames_for_repo (d : GraphDb) (repo : string) (changed : list string) : list string :=
  if bool_decide (changed = []) then []
  else
    let own := filter (λ q, existsb (same_symbol repo q) (t_nodes d)) changed in
    sort_by String.compare (remove_dups
      (filter (λ e, String.eqb (er_repo e) repo && bool_decide (e_target_qn (row_edge e) ∈ changed) &&
          negb (bool_decide (e_source_qn (row_edge e) ∈ own))) (t_edges d) ≫= λ e,
       map nr_path (filter (same_symbol repo (e_source_qn (row_edge e))) (t_nodes d)))).

(** The recursive table of [impact_radius]: rows of a name and its depth, each once; a row adds
    the far ends of its edges, first those that point at it. *)
Definition far_ends (d : GraphDb) (qn : string) : list string :=
  map (λ e, e_source_qn (row_edge e)) (filter (λ e, String.eqb (e_target_qn (row_edge e)) qn) (t_edges d)) ++
  map (λ e, e_target_qn (row_edge e)) (filter (λ e, String.eqb (e_source_qn (row_edge e)) qn) (t_edges d)).
(** [DISTINCT] and [UNION]: the first of equal rows stays. *)
Fixpoint distinct_from (seen : gset string) (l : list string) : list string :=
  match l with
  | [] => []
  | x :: l => if decide (x ∈ seen) then distinct_from seen l else x :: distinct_from ({[x]} ∪ seen) l
  end.
Definition distinct (l : list string) : list string := distinct_from ∅ l.

Fixpoint impact_levels (d : GraphDb) (depth : nat) (level : list string) : list string :=
  level ++ match depth with O => [] | S depth => impact_levels d depth (distinct (level ≫= far_ends d)) end.
Definition seed_rows (d : GraphDb) (paths : list string) : list NodeRow :=
  filter (λ r, bool_decide (nr_path r ∈ paths)) (t_nodes d).
Definition impact_names (d : GraphDb) (depth : nat) (paths : list string) : list string :=
  distinct (impact_levels d depth (distinct (map nr_qn (seed_rows d paths)))).

Definition line_compare (a b : option N) : comparison :=
  match a, b with
  | None, None => Eq
  | None, _ => Lt
  | _, None => Gt
  | Some a, Some b => N.compare a b
  end.
Definition edge_order : Edge → Edge → comparison :=
  cmp_lex (cmp_on e_source_qn String.compare) (cmp_lex (cmp_on e_target_qn String.compare)
    (cmp_lex (cmp_on (λ e, EdgeKind_as_str (e_kind e)) String.compare) (cmp_lex (cmp_on e_file_path String.compare)
      (cmp_on e_line line_compare)))).
Definition sort_impact_result (r : ImpactResult) : ImpactResult :=
  mk_impact (sort_by (cmp_on n_qualified_name String.compare) (changed_nodes r))
    (sort_by (cmp_on n_qualified_name String.compare) (impacted_nodes r))
    (dedup_by_key id (sort_by String.compare (impacted_files r)))
    (sort_by edge_order (relevant_edges r)) (impact_seed_budgets r) (impact_traversal_budget r) (impact_budget r).

Definition narrower_edges (max_edges : N) : string :=
  "reduce changed-file seed set or traversal depth so edge count stays within " +:+ pretty max_edges.

Definition impact_radius (d : GraphDb) (changed_paths : list string) (requested_depth requested_nodes requested_edges : N) :
    ImpactResult :=
  let gt := graph_traversal default_policy in
  let '(max_depth, budgets) := resolve_limit new_manager (gt_depth gt) "graph_traversal.max_depth" (Some requested_depth) in
  let '(max_nodes, budgets) := resolve_limit budgets (gt_nodes gt) "graph_traversal.max_nodes" (Some requested_nodes) in
  let '(max_edges, budgets) := resolve_limit budgets (gt_edges gt) "graph_traversal.max_edges" (Some requested_edges) in
  let meta := mk_traversal_budget requested_depth max_depth requested_nodes max_nodes requested_edges max_edges in
  if bool_decide (changed_paths = []) then
    sort_impact_result (mk_impact [] [] [] [] [] (Some (meta 0 0 0 false None)%N)
      (summary budgets "graph_traversal.max_nodes" max_nodes 0))
  else
    let changed := map row_node (seed_rows d changed_paths) in
    let all_qns := limit_rows max_nodes (impact_names d (N.to_nat max_depth) changed_paths) in
    let seeds := map n_qualified_name changed in
    let impacted_qns := filter (λ q, q ∉ seeds) all_qns in
    let impacted := map row_node (filter (λ r, bool_decide (nr_qn r ∈ impacted_qns)) (t_nodes d)) in
    let edges := map row_edge (filter (λ e, bool_decide (e_source_qn (row_edge e) ∈ all_qns) &&
        bool_decide (e_target_qn (row_edge e) ∈ all_qns)) (t_edges d)) in
    let observed := (len changed + len impacted)%N in
    let budgets := record_usage budgets (gt_nodes gt) "graph_traversal.max_nodes" max_nodes observed
        (max_nodes <=? observed)%N in
    let count := len edges in
    let over := (max_edges <? count)%N in
    let budgets := if over then record_usage budgets (gt_edges gt) "graph_traversal.max_edges" max_edges count true
        else budgets in
    sort_impact_result
      (mk_impact changed impacted (dedup_by_key id (sort_by String.compare (map n_file_path impacted)))
        (limit_rows max_edges edges) []
        (Some (meta observed (N.min count max_edges) (count - max_edges)
           (negb (requested_depth =? max_depth) || negb (requested_nodes =? max_nodes) ||
            negb (requested_edges =? max_edges) || over)
           (if over then Some (narrower_edges max_edges) else None))%N)
        (summary budgets "graph_traversal.max_nodes" max_nodes observed)).

(** ** Path prefixes as ranges *)

Lemma is_char_bound c : is_char c = true → (c ≤ 1114111)%N.
Proof. unfold is_char. intros [_ H]%andb_true_iff. by apply N.leb_le. Qed.

Lemma next_char_some fuel c n :
  next_char fuel c = Some n → (c ≤ n)%N ∧ is_char n = true ∧ ∀ x, (c ≤ x)%N → (x < n)%N → is_char x = false.
Proof.
  revert c. induction fuel as [|fuel IH]; intros c; cbn; [done|].
  destruct (c <=? 1114111)%N; [|done]. destruct (is_char c) eqn:Hc.
  - intros [= <-]. split_and!; [lia|done|]. intros x. lia.
  - intros (Hle & Hn & Hx)%IH. split_and!; [lia|done|]. intros x Hcx Hxn.
    destruct (decide (x = c)) as [->|]; [done|]. apply Hx; lia.
Qed.

Lemma next_char_none fuel c :
  (2049 ≤ fuel)%nat → next_char fuel c = None → (1114111 < c)%N.
Proof.
  intros Hf. assert (∀ f c, (c ≤ 1114111)%N → (is_char c = true ∧ (0 < f)%nat ∨ (55296 ≤ c < 57344)%N ∧ (N.to_nat (57344 - c) < f)%nat) →
    next_char f c ≠ None) as Haux.
  { induction f as [|f IH]; intros x Hx Hcase; cbn; [destruct Hcase as [[_ ?]|[_ ?]]; lia|].
    destruct (x <=? 1114111)%N eqn:Hle; [|apply N.leb_gt in Hle; lia].
    destruct (is_char x) eqn:Hc; [done|]. destruct Hcase as [[? _]|[Hr Hlt]]; [done|].
    apply IH; [lia|]. destruct (decide (x = 57343)%N) as [->|]; [left; split; [done|]|right]; lia. }
  intros Hn. destruct (decide (1114111 < c)%N) as [|Hle]; [done|]. exfalso. apply (Haux fuel c); [lia| |done].
  destruct (is_char c) eqn:Hc; [left; split; [done|lia]|right].
  unfold is_char in Hc. apply andb_false_iff in Hc as [Hc|Hc]; [|apply N.leb_gt in Hc; lia].
  apply orb_false_iff in Hc as [H1%N.ltb_ge H2%N.leb_gt]. split; lia.
Qed.

Lemma chars_compare_eq a b : chars_compare a b = Eq → a = b.
Proof.
  revert b. induction a as [|x a IH]; intros [|y b]; cbn; try done.
  destruct (x ?= y)%N eqn:Hc; [|done..]. apply N.compare_eq in Hc as ->. intros H. by rewrite (IH b H).
Qed.

Lemma range_common q x y s :
  y ≠ [] →
  chars_leb (q ++ x) s && chars_ltb s (q ++ y) = true ↔
  ∃ s', s = q ++ s' ∧ chars_leb x s' && chars_ltb s' y = true.
Proof.
  intros Hy. revert s. induction q as [|a q IH]; intros s; cbn [app].
  { split; [by eauto|]. by intros (s' & -> & ?). }
  destruct s as [|b s].
  { split; [done|]. by intros (s' & [=] & _). }
  unfold chars_leb, chars_ltb. cbn. rewrite (N.compare_antisym a b).
  destruct (a ?= b)%N eqn:Hc; cbn.
  - apply N.compare_eq in Hc as ->. unfold chars_leb, chars_ltb in IH. rewrite IH.
    split; intros (s' & Hs & ?); exists s'; [by rewrite Hs|]. by injection Hs as ->.
  - split; [done|]. intros (s' & [= -> ->] & _). by rewrite N.compare_refl in Hc.
  - split; [done|]. intros (s' & [= -> ->] & _). by rewrite N.compare_refl in Hc.
Qed.

(** A text of maximal characters is below the texts it starts, and no others. *)
Lemma maximal_leb t s :
  Forall (λ c, c = 1114111%N) t → Forall (λ c, is_char c = true) s →
  chars_leb t s = true ↔ ∃ r, s = t ++ r.
Proof.
  intros Ht. revert s. induction Ht as [|c t -> Ht IH]; intros s Hs.
  { split; [by exists s|]. by destruct s. }
  destruct Hs as [|b s Hb Hs].
  { split; [done|]. by intros [r [=]]. }
  specialize (IH s Hs). unfold chars_leb in *. cbn [chars_compare]. apply is_char_bound in Hb.
  destruct (1114111 ?= b)%N eqn:Hc.
  - apply N.compare_eq in Hc as <-. rewrite IH. split; intros [r Hr]; exists r; [by rewrite Hr|]. by injection Hr.
  - rewrite N.compare_lt_iff in Hc. exfalso. lia.
  - split; [done|]. intros [r [= -> _]]. by rewrite N.compare_refl in Hc.
Qed.

Lemma bump_last_spec l u :
  Forall (λ c, is_char c = true) l → bump_last l = Some u →
  ∃ q last t n, rev l = q ++ last :: t ∧ Forall (λ c, c = 1114111%N) t ∧ u = q ++ [n] ∧ is_char last = true ∧
    next_char 2049 (last + 1) = Some n.
Proof.
  intros Hl. induction Hl as [|c l Hc Hl IH]; cbn [bump_last]; [done|].
  destruct (next_char 2049 (c + 1)) as [n|] eqn:Hn.
  - intros [= <-]. exists (rev l), c, [], n. cbn [rev].
    split; [reflexivity|]. split; [constructor|]. split; [reflexivity|]. split; [exact Hc|exact Hn].
  - intros Hu. destruct (IH Hu) as (q & last & t & n & Hrev & Ht & -> & Hlast & Hnext).
    exists q, last, (t ++ [c]), n. cbn [rev]. rewrite Hrev.
    split; [by rewrite <- app_assoc|]. split; [|split; [reflexivity|split; [exact Hlast|exact Hnext]]].
    apply Forall_app. split; [done|]. constructor; [|constructor].
    apply next_char_none in Hn; [|lia]. apply is_char_bound in Hc. lia.
Qed.

(** The subpath filter of a node listing asks for a range of paths in the order of the
    index instead of comparing prefixes; the range holds exactly the paths that start with the
    subpath, whatever characters it ends with, the maximal one and those before the
    surrogates included. *)
Theorem subpath_range_exact (chars : string → list N) (subpath path : string) :
  Forall (λ c, is_char c = true) (chars subpath) → Forall (λ c, is_char c = true) (chars path) →
  in_subpath chars subpath path = true ↔ ∃ rest, chars path = chars subpath ++ rest.
Proof.
  intros Hp Hs. unfold in_subpath. destruct (prefix_upper_bound (chars subpath)) as [u|] eqn:Hu.
  - apply bump_last_spec in Hu as (q & last & t & n & Hrev & Ht & -> & Hlast & Hn); [|by apply Forall_rev].
    rewrite rev_involutive in Hrev. rewrite Hrev, range_common by done. rewrite Hrev in Hp. clear Hrev.
    apply next_char_some in Hn as (Hln & _ & Hgap).
    split.
    + intros (s' & Hs' & Hr). rewrite Hs' in *. apply andb_true_iff in Hr as [Hle Hlt].
      apply Forall_app in Hs as [_ Hs]. destruct Hs as [|c s Hc Hs]; [done|].
      unfold chars_leb, chars_ltb in *. cbn in Hle, Hlt.
      destruct (last ?= c)%N eqn:Hcmp; [| |done].
      * apply N.compare_eq in Hcmp as ->. apply (maximal_leb t s Ht Hs) in Hle as [r ->].
        exists r. by rewrite <- app_assoc.
      * rewrite N.compare_lt_iff in Hcmp. exfalso.
        destruct (c ?= n)%N eqn:Hcn; [by destruct s| |done]. rewrite N.compare_lt_iff in Hcn.
        rewrite Hgap in Hc; [done|lia|lia].
    + intros [r Hr]. rewrite Hr, <- app_assoc. exists (last :: t ++ r). split; [done|].
      rewrite Hr in Hs. apply Forall_app in Hs as [Hs Hr']. apply andb_true_iff. unfold chars_leb, chars_ltb. cbn.
      rewrite N.compare_refl. split.
      * apply (maximal_leb t (t ++ r) Ht); [|by exists r]. apply Forall_app in Hs as [_ Hs]. apply Forall_cons in Hs as [_ Hs].
        by apply Forall_app.
      * destruct (last ?= n)%N eqn:Hcmp; [|done|]; [apply N.compare_eq in Hcmp|rewrite N.compare_gt_iff in Hcmp]; lia.
  - rewrite bool_decide_eq_true. split.
    + intros Ht. exists (drop (length (chars subpath)) (chars path)). rewrite <- (take_drop (length (chars subpath)) (chars path)) at 1. by rewrite Ht.
    + intros [r ->]. by rewrite take_app_length.
Qed.

(** ** Pages *)

Lemma limit_rows_take {A} n (l : list A) : limit_rows n l = take (N.to_nat n) l.
Proof.
  unfold limit_rows, len. destruct (_ <=? n)%N eqn:Hl; [|done]. apply N.leb_le in Hl.
  by rewrite take_ge by lia.
Qed.

Section paging.
Context (chars : string → list N) (d : GraphDb) (f : NodeListFilter) (limit : N).

(** A reader that asks for the next page as long as there is one. *)
Fixpoint read_pages (fuel : nat) (offset : N) : option (list NodeListPage) :=
  match fuel with
  | O => None
  | S fuel =>
      let page := list_nodes chars d f limit offset in
      match next_offset page with
      | Some next => cons page <$> read_pages fuel next
      | None => Some [page]
      end
  end.

Lemma read_pages_from fuel offset :
  (len (matching_nodes chars d f) ≤ u64_max)%N →
  (length (matching_nodes chars d f) < fuel + N.to_nat offset)%nat → (N.to_nat offset ≤ length (matching_nodes chars d f))%nat →
  (0 < fuel)%nat →
  ∃ pages, read_pages fuel offset = Some pages ∧
    concat (map pg_nodes pages) = drop (N.to_nat offset) (matching_nodes chars d f) ∧
    Forall (λ p, (len (pg_nodes p) ≤ N.max 1 (N.min limit MAX_NODE_LIST_LIMIT))%N) pages.
Proof.
  intros Hmax. revert offset. induction fuel as [|fuel IH]; intros offset Hfuel Hoff Hpos; [lia|].
  cbn [read_pages]. set (all := matching_nodes chars d f) in *.
  set (size := N.max 1 (N.min limit MAX_NODE_LIST_LIMIT)).
  assert (pg_nodes (list_nodes chars d f limit offset) = take (N.to_nat size) (drop (N.to_nat offset) all)) as Hpage.
  { unfold list_nodes. cbn. rewrite limit_rows_take. fold all. unfold len. f_equal. f_equal. lia. }
  assert (len (pg_nodes (list_nodes chars d f limit offset)) = N.min size (len all - offset))%N as Hlen.
  { rewrite Hpage. unfold len. rewrite length_take, length_drop. lia. }
  assert (1 ≤ size)%N as Hsize by (unfold size; lia).
  unfold next_offset. rewrite Hlen. cbn [pg_offset pg_total list_nodes]. fold all.
  assert (sat_add64 offset (N.min size (len all - offset)) = N.min (offset + size) (len all))%N as Hnext.
  { unfold sat_add64, len in *. lia. }
  rewrite Hnext. destruct (_ <? len all)%N eqn:Hmore.
  - apply N.ltb_lt in Hmore. assert (N.min (offset + size) (len all) = offset + size)%N as Heq by lia. rewrite Heq in *.
    destruct (IH (offset + size)%N) as (pages & -> & Hcat & Hall); [lia|unfold len in *; lia|unfold len in *; lia|].
    exists (list_nodes chars d f limit offset :: pages). cbn [map concat fmap option_fmap option_map]. split_and!; [done| |].
    + rewrite Hcat, Hpage. replace (N.to_nat (offset + size)) with (N.to_nat offset + N.to_nat size)%nat by lia.
      rewrite <- drop_drop. apply take_drop.
    + constructor; [rewrite Hlen; lia|done].
  - apply N.ltb_ge in Hmore. exists [list_nodes chars d f limit offset]. cbn [map concat]. split_and!; [done| |].
    + rewrite app_nil_r, Hpage. apply take_ge. rewrite length_drop. unfold len in *. lia.
    + constructor; [rewrite Hlen; lia|constructor].
Qed.
End paging.

(** Reading a node listing page by page, each from the offset the page before it names,
    ends and yields every matching node exactly once, in the order of the listing, whatever
    limit is asked for; no page is longer than the limit, which is at least 1 and at most
    10000. *)
Theorem pages_complete (chars : string → list N) (d : GraphDb) (f : NodeListFilter) (limit : N)
    (fits : (len (matching_nodes chars d f) ≤ u64_max)%N) :
  ∃ pages, read_pages chars d f limit (S (length (matching_nodes chars d f))) 0 = Some pages ∧
    concat (map pg_nodes pages) = matching_nodes chars d f ∧
    Forall (λ p, (len (pg_nodes p) ≤ N.max 1 (N.min limit MAX_NODE_LIST_LIMIT))%N) pages.
Proof. apply (read_pages_from chars d f limit _ 0 fits); simpl; lia. Qed.

(** ** Impact *)

Section impact.
Context (d : GraphDb) (paths : list string).

(** Two names an edge connects, in either direction. *)
Definition linked (a b : string) : Prop :=
  ∃ e, e ∈ t_edges d ∧
    (e_source_qn (row_edge e) = a ∧ e_target_qn (row_edge e) = b ∨ e_source_qn (row_edge e) = b ∧ e_target_qn (row_edge e) = a).

(** A name that is so many edges away from a symbol of the changed files. *)
Inductive reaches : nat → string → Prop :=
| reaches_seed r : r ∈ t_nodes d → nr_path r ∈ paths → reaches 0 (nr_qn r)
| reaches_step k a b : reaches k a → linked a b → reaches (S k) b.

Lemma distinct_from_elem seen l x : x ∈ distinct_from seen l ↔ x ∈ l ∧ x ∉ seen.
Proof.
  revert seen. induction l as [|y l IH]; intros seen; cbn; [set_solver|].
  case_decide as Hy; [rewrite IH; set_solver|].
  rewrite elem_of_cons, IH. destruct (decide (x = y)); set_solver.
Qed.
Lemma distinct_elem l x : x ∈ distinct l ↔ x ∈ l.
Proof. unfold distinct. rewrite distinct_from_elem. set_solver. Qed.
Lemma distinct_NoDup l : NoDup (distinct l).
Proof.
  unfold distinct. generalize (∅ : gset string) as seen. induction l as [|y l IH]; intros seen; cbn; [constructor|].
  case_decide; [done|]. constructor; [|done]. rewrite distinct_from_elem. set_solver.
Qed.

Lemma far_ends_elem a b : b ∈ far_ends d a ↔ linked a b.
Proof.
  unfold far_ends, linked. rewrite elem_of_app. setoid_rewrite list_elem_of_fmap.
  setoid_rewrite list_elem_of_filter. split.
  - intros [(e & -> & Ha%eqb_Is_true & He)|(e & -> & Ha%eqb_Is_true & He)]; exists e; auto.
  - intros (e & He & [[<- <-]|[<- <-]]); [right|left]; exists e; (split; [done|split; [by apply eqb_Is_true|done]]).
Qed.

(** The levels from level [k] on. *)
Lemma impact_levels_elem depth k level x :
  (∀ y, y ∈ level ↔ reaches k y) →
  x ∈ impact_levels d depth level ↔ ∃ j, (k ≤ j ≤ k + depth)%nat ∧ reaches j x.
Proof.
  revert k level. induction depth as [|depth IH]; intros k level Hl; cbn [impact_levels]; rewrite elem_of_app, Hl.
  - split; [intros [Hx|Hx]; [exists k; split; [lia|done]|by apply not_elem_of_nil in Hx]|].
    intros (j & Hj & Hx). left. by replace k with j by lia.
  - rewrite (IH (S k)).
    + split.
      * intros [Hx|(j & Hj & Hx)]; [exists k; split; [lia|done]|exists j; split; [lia|done]].
      * intros (j & Hj & Hx). destruct (decide (j = k)) as [->|]; [by left|]. right. exists j. split; [lia|done].
    + intros y. rewrite distinct_elem. rewrite list_elem_of_bind. split.
      * intros (a & Hy%far_ends_elem & Ha%Hl). by econstructor.
      * intros Hy. inversion Hy as [|k' a b Ha Hab]; subst. exists a. split; [by apply far_ends_elem|by apply Hl].
Qed.

Lemma seed_rows_elem r : r ∈ seed_rows d paths ↔ r ∈ t_nodes d ∧ nr_path r ∈ paths.
Proof. unfold seed_rows. rewrite list_elem_of_filter, bool_decide_spec. tauto. Qed.

Lemma impact_names_elem depth x : x ∈ impact_names d depth paths ↔ ∃ j, (j ≤ depth)%nat ∧ reaches j x.
Proof.
  unfold impact_names. rewrite distinct_elem, (impact_levels_elem depth 0).
  - split; intros (j & Hj & Hx); exists j; (split; [lia|done]).
  - intros y. rewrite distinct_elem, list_elem_of_fmap. split.
    + intros (r & -> & [Hr Hp]%seed_rows_elem). by apply reaches_seed.
    + intros Hy. inversion Hy as [r Hr Hp|]; subst. exists r. split; [done|]. by apply seed_rows_elem.
Qed.
End impact.

Lemma impact_radius_parts d paths rd rn re :
  paths ≠ [] →
  let max_depth := N.min rd 10 in let max_nodes := N.min rn 1000 in let max_edges := N.min re 2000 in
  let all := limit_rows max_nodes (impact_names d (N.to_nat max_depth) paths) in
  let changed := map row_node (seed_rows d paths) in
  let impacted := map row_node (filter (λ r, bool_decide (nr_qn r ∈ filter (λ q, q ∉ map n_qualified_name changed) all)) (t_nodes d)) in
  let edges := map row_edge (filter (λ e, bool_decide (e_source_qn (row_edge e) ∈ all) &&
        bool_decide (e_target_qn (row_edge e) ∈ all)) (t_edges d)) in
  let r := impact_radius d paths rd rn re in
  changed_nodes r = sort_by (cmp_on n_qualified_name String.compare) changed ∧
  impacted_nodes r = sort_by (cmp_on n_qualified_name String.compare) impacted ∧
  impacted_files r = dedup_by_key id (sort_by String.compare (dedup_by_key id (sort_by String.compare (map n_file_path impacted)))) ∧
  relevant_edges r = sort_by edge_order (limit_rows max_edges edges).
Proof.
  intros Hne. cbn zeta.
  assert (∀ m rule name req, fst (resolve_limit m rule name (Some req)) = N.min req (max_limit rule)) as Hlim.
  { intros m rule name req. unfold resolve_limit. simpl default. destruct (_ <=? _)%N eqn:Hl; cbn [fst].
    - apply N.leb_le in Hl. lia.
    - apply N.leb_gt in Hl. lia. }
  unfold impact_radius. cbn zeta.
  pose proof (Hlim new_manager (gt_depth (graph_traversal default_policy)) "graph_traversal.max_depth" rd) as H1.
  destruct (resolve_limit _ (gt_depth _) _ _) as [md b1]. cbn [fst] in H1.
  pose proof (Hlim b1 (gt_nodes (graph_traversal default_policy)) "graph_traversal.max_nodes" rn) as H2.
  destruct (resolve_limit b1 _ _ _) as [mn b2]. cbn [fst] in H2.
  pose proof (Hlim b2 (gt_edges (graph_traversal default_policy)) "graph_traversal.max_edges" re) as H3.
  destruct (resolve_limit b2 _ _ _) as [me b3]. cbn [fst] in H3.
  cbn in H1, H2, H3. subst md mn me. rewrite bool_decide_eq_false_2 by done. by split_and!.
Qed.

Lemma limit_rows_id {A} n (l : list A) : (len l ≤ n)%N → limit_rows n l = l.
Proof. intros Hl. unfold limit_rows. by apply N.leb_le in Hl as ->. Qed.

(** C13. The impact radius is the set of symbols within the accepted depth of the changed files,
    over edges in both directions: as long as the names reached fit the node limit, the
    impacted nodes are exactly the rows that some path of at most that many edges reaches and
    that no changed file defines, the changed nodes are exactly those of the changed files, the
    files are those of the impacted nodes, and the edges are edges between symbols reached: all
    of them when they fit the edge limit, and as many as the limit otherwise. The depth a
    caller asks for is cut at 10, the nodes at 1000, the edges at 2000. *)
Theorem impact_radius_exact (d : GraphDb) (paths : list string) (rd rn re : N)
    (Hne : paths ≠ []) (Hnodes : (len (impact_names d (N.to_nat (N.min rd 10)) paths) ≤ N.min rn 1000)%N) :
  let reached q := ∃ j, (j ≤ N.to_nat (N.min rd 10))%nat ∧ reaches d paths j q in
  let r := impact_radius d paths rd rn re in
  let inner := filter (λ row, bool_decide (e_source_qn (row_edge row) ∈ impact_names d (N.to_nat (N.min rd 10)) paths) &&
    bool_decide (e_target_qn (row_edge row) ∈ impact_names d (N.to_nat (N.min rd 10)) paths)) (t_edges d) in
  (∀ n, n ∈ changed_nodes r ↔ ∃ row, row ∈ t_nodes d ∧ row_node row = n ∧ nr_path row ∈ paths) ∧
  (∀ n, n ∈ impacted_nodes r ↔ ∃ row, row ∈ t_nodes d ∧ row_node row = n ∧ reached (nr_qn row) ∧
     ∀ seed, seed ∈ t_nodes d → nr_path seed ∈ paths → nr_qn seed ≠ nr_qn row) ∧
  (∀ f, f ∈ impacted_files r ↔ ∃ n, n ∈ impacted_nodes r ∧ n_file_path n = f) ∧
  (∀ row, row ∈ inner ↔ row ∈ t_edges d ∧
     reached (e_source_qn (row_edge row)) ∧ reached (e_target_qn (row_edge row))) ∧
  (∀ e, e ∈ relevant_edges r → ∃ row, row ∈ inner ∧ row_edge row = e) ∧
  ((len inner ≤ N.min re 2000)%N → ∀ row, row ∈ inner → row_edge row ∈ relevant_edges r) ∧
  len (relevant_edges r) = N.min (len inner) (N.min re 2000).
Proof.
  cbn zeta. destruct (impact_radius_parts d paths rd rn re Hne) as (-> & -> & -> & ->).
  rewrite !(limit_rows_id _ (impact_names _ _ _)) by done.
  assert (∀ row, nr_qn row ∈ map n_qualified_name (map row_node (seed_rows d paths)) ↔
    ∃ seed, seed ∈ t_nodes d ∧ nr_path seed ∈ paths ∧ nr_qn seed = nr_qn row) as Hseed.
  { intros row. rewrite map_map, list_elem_of_fmap. split.
    - intros (s & Hs & [? ?]%seed_rows_elem). by exists s.
    - intros (s & ? & ? & Hs). exists s. split; [done|]. by apply seed_rows_elem. }
  assert (∀ n, n ∈ map row_node (filter (λ r, bool_decide (nr_qn r ∈ filter (λ q, q ∉
      map n_qualified_name (map row_node (seed_rows d paths))) (impact_names d (N.to_nat (N.min rd 10)) paths))) (t_nodes d)) ↔
    ∃ row, row ∈ t_nodes d ∧ row_node row = n ∧
      (∃ j, (j ≤ N.to_nat (N.min rd 10))%nat ∧ reaches d paths j (nr_qn row)) ∧
      ∀ seed, seed ∈ t_nodes d → nr_path seed ∈ paths → nr_qn seed ≠ nr_qn row) as Himp.
  { intros n. rewrite list_elem_of_fmap. split.
    - intros (row & -> & [Hq Hrow]%list_elem_of_filter). rewrite bool_decide_spec in Hq.
      apply list_elem_of_filter in Hq as [Hns Hq%impact_names_elem]. exists row. split_and!; [done..|].
      intros seed Hs Hp Heq. apply Hns, Hseed. by exists seed.
    - intros (row & Hrow & <- & Hq & Hns). exists row. split; [done|]. apply list_elem_of_filter. split; [|done].
      rewrite bool_decide_spec. apply list_elem_of_filter. split; [|by apply impact_names_elem].
      intros (seed & Hs & Hp & Heq)%Hseed. by eapply Hns. }
  split_and!.
  - intros n. rewrite sort_by_elem, list_elem_of_fmap. setoid_rewrite seed_rows_elem. naive_solver.
  - intros n. rewrite sort_by_elem. apply Himp.
  - intros f. rewrite dedup_id_elem, sort_by_elem, dedup_id_elem, sort_by_elem, list_elem_of_fmap.
    setoid_rewrite sort_by_elem. naive_solver.
  - intros row. rewrite list_elem_of_filter, andb_Is_true, !bool_decide_spec, !impact_names_elem. tauto.
  - intros e. rewrite sort_by_elem, limit_rows_take. intros (i & Hi & _)%elem_of_take.
    apply list_elem_of_lookup_2, list_elem_of_fmap in Hi as (row & -> & Hrow). by exists row.
  - intros Hl row Hrow. rewrite sort_by_elem, limit_rows_id by (unfold len in *; by rewrite length_map).
    apply list_elem_of_fmap. by exists row.
  - unfold len. rewrite (sort_by_perm edge_order). rewrite limit_rows_take, length_take, length_map. lia.
Qed.

(** ** What was written is read back *)

Lemma filter_nothing {A} (p : A → bool) (l : list A) : (∀ x, x ∈ l → p x = false) → filter (λ x, p x) l = [].
Proof.
  induction l as [|x l IH]; intros Hp; [done|]. rewrite filter_cons_False; [|rewrite Hp by set_solver; by intros []].
  apply IH. set_solver.
Qed.

Lemma find_after_kept {A} (p : A → bool) (l : list A) x :
  p x = true → List.find p (filter (λ y, negb (p y)) l ++ [x]) = Some x.
Proof.
  intros Hx. induction l as [|y l IH]; [by cbn; rewrite Hx|]. destruct (p y) eqn:Hy.
  - rewrite filter_cons_False by (rewrite Hy; by intros []). done.
  - rewrite filter_cons_True by by rewrite Hy. cbn. by rewrite Hy.
Qed.

Lemma elem_of_numbered {A B} (mk : Z → A → B) k l y : y ∈ numbered mk k l → ∃ i x, y = mk i x ∧ x ∈ l.
Proof.
  revert k. induction l as [|x l IH]; intros k; [by intros ?%not_elem_of_nil|]. rewrite numbered_cons.
  intros [->|Hy]%elem_of_cons; [exists k, x; set_solver|]. destruct (IH _ Hy) as (i & z & ? & ?). exists i, z. set_solver.
Qed.

Lemma canonicalize_parsed_path nfc f f' :
  canonicalize_parsed_file nfc f = Ok f' → canonicalize_repo_path nfc (pf_path f) = Ok (pf_path f') ∧
    pf_hash f' = pf_hash f ∧ Forall (λ n, n_file_path (cn_node (nn_node n)) = pf_path f') (pf_nodes f').
Proof.
  unfold canonicalize_parsed_file, canonicalize_graph_slice. intros H.
  apply res_bind_ok in H as ([[p ns] es] & H & [= <-]).
  apply res_bind_ok in H as (p' & Hp & H). apply res_bind_ok in H as (ns' & Hns & H).
  apply res_bind_ok in H as (es' & _ & [= <- <- <-]). cbn. split_and!; [done..|].
  clear Hp. revert ns' Hns. induction (pf_nodes f) as [|n l IH]; intros ns'; cbn [collect].
  { intros [= <-]. constructor. }
  intros (y & Hy & (ys & Hys & [= <-])%res_bind_ok)%res_bind_ok. constructor; [|by apply IH].
  unfold canonicalize_node in Hy. apply res_bind_ok in Hy as (q & _ & Hy).
  destruct (String.eqb_spec q p') as [Heq|]; cbn [negb] in Hy; [|done]. by injection Hy as <-.
Qed.

(** What the parser found in a file is what a reader gets back once it is stored: the nodes
    of the file in the order of their lines, ties in the order of the parser, each with its
    provenance, and the content hash; the owner the file had stays. The path may be spelt as
    the parser spelt it. *)
Theorem stored_file_reads_back (nfc : string → string) (fault : nat → option Fault) (sqlite_now : nat → string)
    (repo : string) (f : ParsedFile) (c c' : Conn)
    (Hfresh : ∀ f', canonicalize_parsed_file nfc f = Ok f' → fresh_names repo f' (committed c))
    (Hrun : replace_file_graph_for_repo nfc fault sqlite_now repo f c = (Ok tt, c')) :
  ∃ f' first, canonicalize_parsed_file nfc f = Ok f' ∧
    nodes_by_file_for_repo nfc (committed c') repo (pf_path f) =
      Ok (sort_by (cmp_on (λ n, n_line_start (cn_node n)) N.compare)
            (map nr_node (numbered (node_row repo) first (pf_nodes f')))) ∧
    file_hash_for_repo nfc (committed c') repo (pf_path f) = Ok (Some (pf_hash f)) ∧
    file_owner_for_repo nfc (committed c') repo (pf_path f) = file_owner_for_repo nfc (committed c) repo (pf_path f).
Proof.
  unfold replace_file_graph_for_repo, bind, lift in Hrun.
  destruct (canonicalize_parsed_file nfc f) as [f'|e] eqn:Hf; [|done].
  apply transactional_ok in Hrun as (_ & _ & c1 & c2 & Hc1 & Hb & ->); [|apply _].
  apply map_err_ok, do_replace_ok in Hb as [now ->]. rewrite Hc1.
  destruct (canonicalize_parsed_path _ _ _ Hf) as (Hp & Hhash & Hpaths).
  destruct (replaced_spec repo f' now (committed c) (Hfresh f' eq_refl)) as [[first Hn] _ Hfiles _].
  exists f', first. split; [done|].
  assert (find_file (replaced repo f' now (committed c)) repo (pf_path f') =
    Some (mk_file_row repo (pf_path f') (pf_language f') (pf_hash f') (pf_size f') now
      (from_option fr_owner no_owner (find_file (committed c) repo (pf_path f'))))) as Hfind.
  { unfold find_file at 1. rewrite Hfiles. apply find_after_kept. cbn. unfold is_file. cbn. by rewrite !String.eqb_refl. }
  unfold nodes_by_file_for_repo, file_hash_for_repo, file_owner_for_repo. rewrite Hp. cbn [res_bind].
  rewrite Hfind. cbn. rewrite Hhash. split_and!; [|done|].
  - f_equal. f_equal. unfold select_nodes. f_equal. rewrite Hn, filter_app.
    rewrite (filter_nothing (in_node_file repo (pf_path f'))) by (intros r [Hr _]%list_elem_of_filter; by apply negb_true_iff, Is_true_true).
    cbn [app]. apply filter_all. intros r Hr. apply elem_of_numbered in Hr as (i & n & -> & Hin).
    rewrite Forall_forall in Hpaths. unfold in_node_file, nr_path, row_node. cbn. rewrite Hpaths by done.
    by rewrite !String.eqb_refl.
  - destruct (find_file (committed c) repo (pf_path f')); done.
Qed.

(** ** Examples *)

Definition ascii_chars (s : string) : list N := map N_of_ascii (list_ascii_of_string s).

Lemma subpath_range_exact_witness :
  in_subpath ascii_chars "src/a" "src/ab.rs" = true ↔ ∃ rest, ascii_chars "src/ab.rs" = ascii_chars "src/a" ++ rest.
Proof. apply (subpath_range_exact ascii_chars "src/a" "src/ab.rs"); repeat constructor. Defined.

Lemma pages_complete_witness :
  ∃ pages, read_pages ascii_chars (committed ex_store) (mk_node_filter (Some "func") None (Some "src") None) 2 4 0 = Some pages ∧
    concat (map pg_nodes pages) =
      matching_nodes ascii_chars (committed ex_store) (mk_node_filter (Some "func") None (Some "src") None) ∧
    Forall (λ p, (len (pg_nodes p) ≤ N.max 1 (N.min 2 MAX_NODE_LIST_LIMIT))%N) pages.
Proof.
  apply (pages_complete ascii_chars (committed ex_store) (mk_node_filter (Some "func") None (Some "src") None) 2).
  apply (bool_decide_unpack _). vm_compute. exact I.
Defined.

Lemma impact_radius_exact_witness :
  let reached q := ∃ j, (j ≤ N.to_nat (N.min 3 10))%nat ∧ reaches (committed ex_store) ["src/a.rs"] j q in
  let r := impact_radius (committed ex_store) ["src/a.rs"] 3 200 500 in
  (∀ n, n ∈ changed_nodes r ↔
     ∃ row, row ∈ t_nodes (committed ex_store) ∧ row_node row = n ∧ nr_path row ∈ ["src/a.rs"]) ∧
  (∀ n, n ∈ impacted_nodes r ↔ ∃ row, row ∈ t_nodes (committed ex_store) ∧ row_node row = n ∧ reached (nr_qn row) ∧
     ∀ seed, seed ∈ t_nodes (committed ex_store) → nr_path seed ∈ ["src/a.rs"] → nr_qn seed ≠ nr_qn row) ∧
  (∀ f, f ∈ impacted_files r ↔ ∃ n, n ∈ impacted_nodes r ∧ n_file_path n = f) ∧
  (length (relevant_edges r) = 2%nat).
Proof.
  cbn zeta.
  destruct (impact_radius_exact (committed ex_store) ["src/a.rs"] 3 200 500) as (H1 & H2 & H3 & _);
    [done|apply (bool_decide_unpack _); vm_compute; exact I|].
  split; [exact H1|]. split; [exact H2|]. split; [exact H3|]. vm_compute. reflexivity.
Defined.

Lemma stored_file_reads_back_witness :
  ∃ f' first, canonicalize_parsed_file id ex_a = Ok f' ∧
    let d := committed (ex_op (OpReplace "r" ex_a) (ex_conn empty_graph)) in
    nodes_by_file_for_repo id d "r" "./src/a.rs" =
      Ok (sort_by (cmp_on (λ n, n_line_start (cn_node n)) N.compare)
            (map nr_node (numbered (node_row "r") first (pf_nodes f')))) ∧
    file_hash_for_repo id d "r" "./src/a.rs" = Ok (Some "h") ∧
    file_owner_for_repo id d "r" "./src/a.rs" = file_owner_for_repo id empty_graph "r" "./src/a.rs".
Proof.
  apply (stored_file_reads_back id ex_fault ex_now "r" ex_a (ex_conn empty_graph)
    (ex_op (OpReplace "r" ex_a) (ex_conn empty_graph))).
  - intros f' [= <-]. split; [apply (bool_decide_unpack _); vm_compute; exact I|cbn; set_solver].
  - vm_compute. reflexivity.
Defined.

(** The prefix of a listing is a pattern: an underscore in it stands for any character. *)
Example prefix_is_a_pattern :
  let f := ex_file "src/axb.rs" [] [] in
  file_paths_with_prefix_for_repo (committed (ex_op (OpReplace "r" f) (ex_conn empty_graph))) "r" "SRC/a_b" = ["src/axb.rs"].
Proof. vm_compute. reflexivity. Qed.
