(* ===== verification/Reasoning.v ===== *)
(** * Reasoning over the graph

    Model of [packages/atlas-reasoning/src/engine]: [helpers.rs], [removal.rs], [dead_code.rs],
    [rename.rs] and the questions about one symbol of [risk.rs] (refactor safety, removal of a
    dependency, adjacent tests, risk of a change), with their data from
    [packages/atlas-core/src/model/reasoning.rs]. The engine asks a store, which is an interface
    whose calls may fail; the graph store of [GraphTables] implements it. The breadth-first walk
    of a removal has the source's queue and stops for the source's reasons: the fuel only bounds
    the number of turns, by the seeds and the cap. The order in which a hash table yields its
    entries is a parameter. *)

From Stdlib Require Import Floats.SpecFloat.
From S2P Require Import Prelude RustStr RustFloat Kinds Json Budget Graph Refactor Imports Impact Owners Sqlite GraphTables GraphStore GraphQueries.

(** ** Data *)

Inductive ConfidenceTier := TierHigh | TierMedium | TierLow.
Inductive ImpactClass := Definite | Probable | Weak.
Inductive CoverageStrength := Direct | IndirectThroughCallers | SameFile | SameModule | NoCoverage.
Inductive ReferenceScope := ScopeSameFile | ScopeSameModule | ScopeCrossModule | ScopeTest.

#[export] Instance ConfidenceTier_eq_dec : EqDecision ConfidenceTier.
Proof. solve_decision. Defined.
#[export] Instance ImpactClass_eq_dec : EqDecision ImpactClass.
Proof. solve_decision. Defined.
#[export] Instance CoverageStrength_eq_dec : EqDecision CoverageStrength.
Proof. solve_decision. Defined.
#[export] Instance ReferenceScope_eq_dec : EqDecision ReferenceScope.
Proof. solve_decision. Defined.

Record ReasoningEvidence := mk_evidence { ev_key : string; ev_value : string }.
Record ReasoningWarning := mk_warning {
  rw_message : string; rw_confidence : ConfidenceTier; rw_error_code : option string; rw_suggestions : list string }.
Record ImpactedNode := mk_impacted {
  im_node : CNode; im_depth : N; im_class : ImpactClass; im_via : option EdgeKind }.
Record RemovalImpactResult := mk_removal {
  ri_seed : list CNode;
  ri_symbols : list ImpactedNode;
  ri_files : list string;
  ri_tests : list CNode;
  ri_edges : list CEdge;
  ri_evidence_nodes : list CNode;
  ri_warnings : list ReasoningWarning;
  ri_evidence : list ReasoningEvidence;
  ri_uncertainty : list string;
  ri_budget : BudgetReport
}.
Record DeadCodeCandidate := mk_dead {
  dc_node : CNode; dc_reasons : list string; dc_certainty : ConfidenceTier; dc_blockers : list string }.
Record SafetyScore := mk_safety {
  sf_score : spec_float; sf_band : SafetyBand; sf_reasons : list string; sf_validations : list string }.
Record RefactorSafetyResult := mk_refactor_safety {
  rs_node : CNode; rs_safety : SafetyScore; rs_fan_in : N; rs_fan_out : N; rs_linked_tests : N; rs_unresolved : N;
  rs_coverage : CoverageStrength; rs_evidence : list ReasoningEvidence; rs_budget : BudgetReport }.
Record DependencyRemovalResult := mk_dependency {
  dr_target : string; dr_removable : bool; dr_blocking : list CNode; dr_edges : list CEdge;
  dr_confidence : ConfidenceTier; dr_cleanups : list string; dr_evidence : list ReasoningEvidence;
  dr_uncertainty : list string; dr_budget : BudgetReport }.
Record RenameReference := mk_reference { rr_node : CNode; rr_edge : CEdge; rr_scope : ReferenceScope }.
Record RenamePreviewResult := mk_preview {
  rp_target : CNode; rp_new_name : string; rp_references : list RenameReference; rp_files : list string;
  rp_risk : RiskLevel; rp_collisions : list string; rp_manual : list string }.
Record TestAdjacencyResult := mk_adjacency {
  ta_symbol : CNode; ta_tests : list CNode; ta_coverage : CoverageStrength; ta_recommendation : option string }.
Record ChangeRiskResult := mk_change_risk {
  cr_level : RiskLevel; cr_factors : list string; cr_focus : list string }.

Definition EDGE_QUERY_LIMIT : N := 500.

#[local] Abbreviation name_of c := (n_qualified_name (cn_node c)).
#[local] Abbreviation path_of c := (n_file_path (cn_node c)).

(** ** [helpers.rs] *)

Definition ENTRYPOINT_NAMES : list string :=
  ["main"; "new"; "init"; "setup"; "configure"; "run"; "start"; "handler"; "middleware"].

Definition classify_impact (depth : N) (via : option EdgeKind) : ImpactClass :=
  match via with
  | Some (EkCalls | EkImports | EkTests | EkTestedBy) => Definite
  | Some (EkImplements | EkExtends) => Definite
  | Some EkReferences => if (depth <=? 1)%N then Definite else Probable
  | Some (EkContains | EkDefines) => Weak
  | None => if (depth =? 0)%N then Definite else Weak
  end.

Definition is_public_node (n : Node) : bool :=
  let mods := default "" (n_modifiers n) in contains "pub" mods || contains "export" mods || contains "public" mods.

Definition parent_dir (path : string) : string :=
  match rfind_sub "/" path with Some i => str_take i path | None => "" end.
Definition same_module (a b : Node) : bool :=
  String.eqb (parent_dir (n_file_path a)) (parent_dir (n_file_path b)).
Definition top_dir (path : string) : string := default "" (head (split_char slash path)).
Definition different_package (a b : string) : bool :=
  negb (String.eqb (top_dir a) (top_dir b)) && negb (str_is_empty (top_dir a)) && negb (str_is_empty (top_dir b)).

Definition dead_code_reasons (n : Node) : list string * ConfidenceTier * list string :=
  let reasons := "no inbound call, reference, or import edges" ::
    match n_kind n with
    | NkFunction | NkMethod | NkConstant => [NodeKind_as_str (n_kind n) +:+ " with zero callers"]
    | _ => []
    end in
  match n_kind n with
  | NkConstant | NkVariable => (reasons, TierMedium, ["may be used via reflection or dynamic dispatch"])
  | NkClass | NkStruct | NkEnum | NkTrait | NkInterface =>
      (reasons, TierMedium, ["may be instantiated via reflection, macro, or config"])
  | _ => (reasons, TierHigh, [])
  end.

(** The score starts at one; each factor takes a penalty, in this order. *)
Definition when {A} (b : bool) (x : A) : list A := if b then [x] else [].

Definition penalty (count : N) (unit_penalty top : spec_float) : spec_float :=
  f64_min (f64_mul (f64_of_N count) unit_penalty) top.
Definition subtract_if (b : bool) (p score : spec_float) : spec_float := if b then f64_sub score p else score.

Definition safety_score_value (fan_in fan_out linked_tests : N) (is_public : bool) (cross_module unresolved : N) :
    spec_float :=
  let score := f64_of_N 1 in
  let score := subtract_if is_public (f64_lit 25 100) score in
  let score := subtract_if (0 <? fan_in)%N (penalty fan_in (f64_lit 4 100) (f64_lit 3 10)) score in
  let score := subtract_if (0 <? cross_module)%N (penalty cross_module (f64_lit 5 100) (f64_lit 25 100)) score in
  let score := subtract_if (10 <? fan_out)%N (f64_lit 1 10) score in
  let score :=
    if (linked_tests =? 0)%N then f64_sub score (f64_lit 15 100)
    else if (3 <=? linked_tests)%N then f64_add score (f64_lit 5 100) else score in
  let score := subtract_if (0 <? unresolved)%N (penalty unresolved (f64_lit 3 100) (f64_lit 2 10)) score in
  f64_clamp f64_zero (f64_of_N 1) score.

Definition safety_band (score : spec_float) : SafetyBand :=
  if float_ge score (f64_lit 7 10) then Safe else if float_ge score (f64_lit 4 10) then Caution else Risky.

Definition compute_safety_score (fan_in fan_out linked_tests : N) (is_public : bool) (cross_module unresolved : N) :
    SafetyScore :=
  let score := safety_score_value fan_in fan_out linked_tests is_public cross_module unresolved in
  mk_safety score (safety_band score)
    (when is_public "public/exported API — breaking change risk" ++
     when (5 <? fan_in)%N ("high fan-in: " +:+ pretty fan_in +:+ " inbound references") ++
     when (0 <? cross_module)%N (pretty cross_module +:+ " cross-module callers") ++
     when (10 <? fan_out)%N ("high fan-out: " +:+ pretty fan_out +:+ " outbound references") ++
     when (linked_tests =? 0)%N "no linked tests" ++
     when (3 <=? linked_tests)%N ("strong test adjacency (" +:+ pretty linked_tests +:+ " tests)") ++
     when (0 <? unresolved)%N (pretty unresolved +:+ " low-confidence/unresolved edges — dynamic usage risk"))
    (when is_public "run all integration tests after refactor" ++
     when (5 <? fan_in)%N "search all call sites before changing signature" ++
     when (0 <? cross_module)%N "verify cross-module consumers compile after change" ++
     when (linked_tests =? 0)%N "add tests before refactoring" ++
     when (0 <? unresolved)%N "verify no dynamic dispatch before removing").

Definition rename_risk (n : Node) (references manual_flags : N) (has_collisions : bool) : RiskLevel :=
  if has_collisions || (is_public_node n && (20 <? references)%N) then High
  else if (0 <? manual_flags)%N || (10 <? references)%N || is_public_node n then Medium
  else Low.

Record RiskInputs := mk_risk_inputs {
  in_fan_in : N; in_fan_out : N; in_public : bool; in_test_adj : bool; in_cross_module : bool;
  in_cross_package : bool; in_unresolved : N; in_files : N }.

(** The points of the factors that apply, in the order of the code. *)
Definition risk_factors (i : RiskInputs) : list (Z * option string) :=
  when (in_public i) (3%Z, Some "public/exported API touched") ++
  when (negb (in_test_adj i)) (2%Z, Some "no test adjacency") ++
  (if in_cross_package i then [(3%Z, Some "cross-package impact")]
   else when (in_cross_module i) (2%Z, Some "cross-module impact")) ++
  (if (10 <? in_fan_in i)%N then [(2%Z, Some ("high inbound caller count (" +:+ pretty (in_fan_in i) +:+ ")"))]
   else when (3 <? in_fan_in i)%N (1%Z, None)) ++
  when (0 <? in_unresolved i)%N (1%Z, Some (pretty (in_unresolved i) +:+ " unresolved/dynamic references")) ++
  when (15 <? in_fan_out i)%N (1%Z, Some ("high dependency fan-out (" +:+ pretty (in_fan_out i) +:+ ")")) ++
  when (10 <? in_files i)%N (1%Z, Some (pretty (in_files i) +:+ " impacted files")).

Definition risk_score (i : RiskInputs) : Z := foldr Z.add 0%Z (map fst (risk_factors i)).

Definition compute_risk_level (i : RiskInputs) : RiskLevel * list string :=
  let score := risk_score i in
  ((if 8 <=? score then Critical else if 5 <=? score then High else if 2 <=? score then Medium else Low)%Z,
   omap snd (risk_factors i)).

Definition build_review_focus (is_public cross_module cross_package : bool) (fan_in : N) (no_tests : bool) : list string :=
  when is_public "review public API contract and downstream consumers" ++
  (if cross_package then ["audit cross-package dependencies for breakage"]
   else when cross_module "check cross-module call sites for compatibility") ++
  when (5 <? fan_in)%N ("verify all " +:+ pretty fan_in +:+ " call sites handle change correctly") ++
  when no_tests "add tests before merging — symbol is uncovered".

(** ** The store of the engine *)

Class ReasoningStore := {
  rs_node_by_qname : string → result AtlasError (option CNode);
  rs_inbound_edges : string → N → result AtlasError (list (CNode * CEdge));
  rs_outbound_edges : string → N → result AtlasError (list (CNode * CEdge));
  rs_test_neighbors : string → N → result AtlasError (list (CNode * CEdge));
  rs_nodes_by_file : string → result AtlasError (list CNode);
  rs_file_owner_id : string → result AtlasError (option string);
  rs_dead_code : option string → N → result AtlasError (list CNode)
}.

(** The entry of a visited name, and the order in which a hash table yields its entries. *)
#[local] Abbreviation entry := (N * option EdgeKind)%type.

Class WalkOrder := {
  walk : gmap string entry → list (string * entry);
  walk_perm m : walk m ≡ₚ map_to_list m
}.

Definition unknown (qname : string) : AtlasError := OtherError ("node not found: " +:+ qname).

Section engine.
Context `{!ReasoningStore}.

(** ** [removal.rs] *)

Definition load_nodes (qnames : list string) : result AtlasError (list CNode) :=
  found <-? collect (λ qn, rs_node_by_qname (normalize_qn_kind_tokens qn)) qnames;;
  Ok (omap id found).

(** The neighbours of a name, inbound edges first. *)
Definition neighbors (qname : string) : result AtlasError (list (CNode * CEdge)) :=
  inbound <-? rs_inbound_edges qname EDGE_QUERY_LIMIT;;
  outbound <-? rs_outbound_edges qname EDGE_QUERY_LIMIT;;
  Ok (inbound ++ outbound).

Record Bfs := mk_bfs {
  visited : gmap string entry;
  queue : list (string * N);
  all_edges : list CEdge
}.

Definition visit (depth : N) (s : Bfs) (ne : CNode * CEdge) : Bfs :=
  let qn := name_of (fst ne) in
  let s := match visited s !! qn with
    | Some _ => s
    | None => mk_bfs (<[qn := ((depth + 1)%N, Some (e_kind (ce_edge (snd ne))))]> (visited s))
                (queue s ++ [(qn, (depth + 1)%N)]) (all_edges s)
    end in
  mk_bfs (visited s) (queue s) (all_edges s ++ [snd ne]).

Fixpoint bfs_loop (fuel : nat) (max_depth max_nodes : N) (s : Bfs) : result AtlasError Bfs :=
  match fuel, queue s with
  | S fuel, (qname, depth) :: rest =>
      if (max_depth <=? depth)%N || (max_nodes <=? N.of_nat (size (visited s)))%N then Ok s
      else
        nbrs <-? neighbors qname;;
        bfs_loop fuel max_depth max_nodes (foldl (visit depth) (mk_bfs (visited s) rest (all_edges s)) nbrs)
  | _, _ => Ok s
  end.

Definition bfs_start (seeds : list string) : Bfs :=
  mk_bfs (list_to_map (map (λ q, (q, (0%N, None))) seeds)) (map (λ q, (q, 0%N)) seeds) [].

(** A turn is taken for a seed or for a name visited while the cap was not reached. *)
Definition bfs_fuel (seeds : list string) (max_nodes : N) : nat := length seeds + N.to_nat max_nodes.

Definition by_depth_and_name : CNode * N * option EdgeKind → CNode * N * option EdgeKind → comparison :=
  cmp_lex (cmp_on (λ x, snd (fst x)) N.compare) (cmp_on (λ x, name_of (fst (fst x))) String.compare).

Definition bfs_impact `{!WalkOrder} (seeds : list string) (max_depth max_nodes : N) :
    result AtlasError (list (CNode * N * option EdgeKind) * list CEdge) :=
  s <-? bfs_loop (bfs_fuel seeds max_nodes) max_depth max_nodes (bfs_start seeds);;
  found <-? collect (λ p, n <-? rs_node_by_qname (fst p);;
              Ok (match n with Some n => Some (n, fst (snd p), snd (snd p)) | None => None end)) (walk (visited s));;
  Ok (sort_by by_depth_and_name (omap id found),
      dedup_by_key (λ e, e_id (ce_edge e)) (sort_by (cmp_on (λ e, e_id (ce_edge e)) Z.compare) (all_edges s))).

Definition is_test_node (n : Node) : bool := n_is_test n || bool_decide (n_kind n = NkTest).

Definition impacted_node (x : CNode * N * option EdgeKind) : ImpactedNode :=
  mk_impacted (fst (fst x)) (snd (fst x)) (classify_impact (snd (fst x)) (snd x)) (snd x).

Definition analyze_removal `{!WalkOrder} (seed_qnames : list string) (max_depth max_nodes : option N) :
    result AtlasError RemovalImpactResult :=
  let gt := graph_traversal default_policy in
  let seeds := map normalize_qn_kind_tokens seed_qnames in
  let '(depth, budgets) := resolve_limit new_manager (gt_depth gt) "graph_traversal.max_depth" max_depth in
  let '(cap, budgets) := resolve_limit budgets (gt_nodes gt) "graph_traversal.max_nodes" max_nodes in
  seed_nodes <-? load_nodes seeds;;
  if bool_decide (seed_nodes = []) then
    Ok (mk_removal [] [] [] [] [] []
      [mk_warning ("none of " +:+ pretty (len seeds) +:+ " seed qualified names resolved to graph nodes") TierHigh
         (Some "seed_not_found")
         ["run `atlas build` to populate the graph"; "verify the qualified name with `atlas query`"]]
      [] ["seed qualified names not found in graph — run `atlas build` first"]
      (summary budgets "graph_traversal.max_nodes" cap 0))
  else
    found <-? bfs_impact seeds depth cap;;
    let symbols := map impacted_node (filter (λ x, bool_decide (name_of (fst (fst x)) ∉ seeds)) (fst found)) in
    let observed := (len seed_nodes + len symbols)%N in
    let budgets := record_usage budgets (gt_nodes gt) "graph_traversal.max_nodes" cap observed (cap <=? observed)%N in
    Ok (mk_removal seed_nodes symbols
      (dedup_by_key id (sort_by String.compare (map (λ im, path_of (im_node im)) symbols)))
      (filter (λ n, is_test_node (cn_node n)) (map im_node symbols))
      (snd found) [] []
      [mk_evidence "seed_count" (pretty (len seed_nodes)); mk_evidence "impacted_symbol_count" (pretty (len symbols));
       mk_evidence "max_depth" (pretty depth)]
      [] (summary budgets "graph_traversal.max_nodes" cap observed)).

(** ** [dead_code.rs] *)

Definition dead_candidate (extra_allowlist : list string) (exclude_kinds : list NodeKind) (n : CNode) :
    option DeadCodeCandidate :=
  if bool_decide (n_name (cn_node n) ∈ ENTRYPOINT_NAMES) then None
  else if bool_decide (name_of n ∈ extra_allowlist) then None
  else if bool_decide (n_kind (cn_node n) ∈ exclude_kinds) then None
  else
    let '(reasons, certainty, blockers) := dead_code_reasons (cn_node n) in
    Some (mk_dead n reasons certainty blockers).

Definition detect_dead_code (extra_allowlist : list string) (subpath : option string) (limit : option N)
    (exclude_kinds : list NodeKind) : result AtlasError (list DeadCodeCandidate) :=
  raw <-? rs_dead_code subpath (default 500%N limit);;
  Ok (omap (dead_candidate extra_allowlist exclude_kinds) raw).

(** ** [rename.rs] *)

Definition reference_scope (target n : Node) : ReferenceScope :=
  if is_test_node n then ScopeTest
  else if String.eqb (n_file_path n) (n_file_path target) then ScopeSameFile
  else if same_module n target then ScopeSameModule
  else ScopeCrossModule.

Definition low_confidence (e : CEdge) : bool := float_lt (e_confidence (ce_edge e)) f32_0_5.

Definition manual_flag (n : Node) : string :=
  "unresolved reference in `" +:+ n_file_path n +:+ "` — verify manually".

Definition collision_warning (new_name : string) (target n : Node) : string :=
  "name `" +:+ new_name +:+ "` already exists in `" +:+ n_file_path target +:+ "` as `" +:+ n_qualified_name n +:+ "`".

Definition detect_name_collisions (new_name : string) (target : Node) : result AtlasError (list string) :=
  nodes <-? rs_nodes_by_file (n_file_path target);;
  Ok (map (λ n, collision_warning new_name target (cn_node n))
        (filter (λ n, String.eqb (n_name (cn_node n)) new_name &&
           negb (String.eqb (name_of n) (n_qualified_name target))) nodes)).

Definition find_symbol (qname : string) : result AtlasError CNode :=
  found <-? rs_node_by_qname qname;;
  match found with Some n => Ok n | None => Err (unknown qname) end.

Definition preview_rename_radius (qname new_name : string) : result AtlasError RenamePreviewResult :=
  let qname := normalize_qn_kind_tokens qname in
  target <-? find_symbol qname;;
  inbound <-? rs_inbound_edges qname EDGE_QUERY_LIMIT;;
  let references := map (λ p, mk_reference (fst p) (snd p) (reference_scope (cn_node target) (cn_node (fst p)))) inbound in
  let manual := map (λ p, manual_flag (cn_node (fst p)))
      (filter (λ p, negb (is_test_node (cn_node (fst p))) && low_confidence (snd p)) inbound) in
  collisions <-? detect_name_collisions new_name (cn_node target);;
  Ok (mk_preview target new_name references
        (dedup_by_key id (sort_by String.compare (map (λ p, path_of (fst p)) inbound)))
        (rename_risk (cn_node target) (len references) (len manual) (negb (bool_decide (collisions = []))))
        collisions manual).

(** ** [risk.rs] *)

(** A caller has a test: a question that fails counts as no. *)
Definition has_test (p : CNode * CEdge) : bool :=
  match rs_test_neighbors (name_of (fst p)) 1 with Ok tests => negb (bool_decide (tests = [])) | Err _ => false end.

Definition different_file (n : CNode) (p : CNode * CEdge) : bool := negb (String.eqb (path_of (fst p)) (path_of n)).

Definition unresolved_edge (p : CNode * CEdge) : bool :=
  String.eqb (default "" (e_confidence_tier (ce_edge (snd p)))) "low" || low_confidence (snd p).

Definition score_refactor_safety (qname : string) : result AtlasError RefactorSafetyResult :=
  let qname := normalize_qn_kind_tokens qname in
  node <-? find_symbol qname;;
  inbound <-? rs_inbound_edges qname EDGE_QUERY_LIMIT;;
  outbound <-? rs_outbound_edges qname EDGE_QUERY_LIMIT;;
  tests <-? rs_test_neighbors qname EDGE_QUERY_LIMIT;;
  let fan_in := len inbound in
  let fan_out := len outbound in
  let linked := len tests in
  let coverage := if (0 <? linked)%N then Direct
    else if existsb has_test inbound then IndirectThroughCallers else NoCoverage in
  let cross := len (filter (λ p, different_file node p) inbound) in
  let unresolved := len (filter (λ p, unresolved_edge p) (inbound ++ outbound)) in
  Ok (mk_refactor_safety node
        (compute_safety_score fan_in fan_out linked (is_public_node (cn_node node)) cross unresolved)
        fan_in fan_out linked unresolved coverage
        [mk_evidence "fan_in" (pretty fan_in); mk_evidence "fan_out" (pretty fan_out);
         mk_evidence "linked_tests" (pretty linked); mk_evidence "cross_module_callers" (pretty cross);
         mk_evidence "unresolved_edges" (pretty unresolved)]
        (within_budget "analysis.refactor_safety" EDGE_QUERY_LIMIT (fan_in + fan_out)%N)).

Definition blocks_removal (k : EdgeKind) : bool :=
  match k with EkCalls | EkImports | EkReferences | EkExtends | EkImplements => true | _ => false end.

Definition check_dependency_removal (qname : string) : result AtlasError DependencyRemovalResult :=
  let qname := normalize_qn_kind_tokens qname in
  inbound <-? rs_inbound_edges qname EDGE_QUERY_LIMIT;;
  let blocking := map fst (filter (λ p, blocks_removal (e_kind (ce_edge (snd p)))) inbound) in
  let uncertain := existsb (λ p, low_confidence (snd p)) inbound in
  let removable := bool_decide (blocking = []) in
  let confidence := if removable && negb uncertain then TierHigh else if uncertain then TierMedium else TierLow in
  Ok (mk_dependency qname removable blocking (map snd inbound) confidence
        (map (λ n, "remove reference in `" +:+ path_of n +:+ "`") (take 5 blocking) ++
         when (uncertain && removable) "verify no dynamic/reflective usage before removing")
        [mk_evidence "inbound_semantic_references" (pretty (len inbound));
         mk_evidence "blocking_references" (pretty (len blocking))]
        (when uncertain "low-confidence edges present; dynamic or reflective usage cannot be excluded")
        (within_budget "analysis.dependency_removal" EDGE_QUERY_LIMIT (len blocking))).

(** The tests of the callers: a question that fails adds none. *)
Definition tests_of_callers (callers : list (CNode * CEdge)) : list CNode :=
  callers ≫= λ p, match rs_test_neighbors (name_of (fst p)) 4 with Ok tests => map fst tests | Err _ => [] end.

Definition recommendation (c : CoverageStrength) : option string :=
  match c with
  | NoCoverage => Some "no tests found for this symbol — consider adding a dedicated test"
  | IndirectThroughCallers => Some "coverage is indirect through callers — consider adding a direct unit test"
  | SameFile => Some "tests are co-located in the same file but not directly linked via edge — verify coverage"
  | _ => None
  end.

Definition adjacent_tests (qname : string) (symbol : CNode) : result AtlasError (list CNode * CoverageStrength) :=
  pairs <-? rs_test_neighbors qname EDGE_QUERY_LIMIT;;
  if bool_decide (pairs = []) then
    callers <-? rs_inbound_edges qname EDGE_QUERY_LIMIT;;
    if existsb has_test callers
    then Ok (dedup_by_key (λ n, name_of n) (tests_of_callers callers), IndirectThroughCallers)
    else
      nodes <-? rs_nodes_by_file (path_of symbol);;
      let file_tests := filter (λ n, is_test_node (cn_node n)) nodes in
      Ok (if bool_decide (file_tests = []) then ([], NoCoverage) else (file_tests, SameFile))
  else Ok (map fst pairs, Direct).

Definition find_test_adjacency (qname : string) : result AtlasError TestAdjacencyResult :=
  let qname := normalize_qn_kind_tokens qname in
  symbol <-? find_symbol qname;;
  found <-? adjacent_tests qname symbol;;
  Ok (mk_adjacency symbol (fst found) (snd found) (recommendation (snd found))).

Definition file_paths_cross_package (a b : string) : result AtlasError bool :=
  owner_a <-? rs_file_owner_id a;;
  owner_b <-? rs_file_owner_id b;;
  Ok (match owner_a, owner_b with
      | Some x, Some y => negb (String.eqb x y)
      | _, _ => different_package a b
      end).

Definition other_package (n : CNode) (p : CNode * CEdge) : bool :=
  match file_paths_cross_package (path_of (fst p)) (path_of n) with Ok b => b | Err _ => false end.

Definition change_inputs (node : CNode) (inbound outbound tests : list (CNode * CEdge)) : RiskInputs :=
  mk_risk_inputs (len inbound) (len outbound) (is_public_node (cn_node node)) (negb (bool_decide (tests = [])))
    (existsb (different_file node) inbound) (existsb (other_package node) inbound)
    (len (filter (λ p, low_confidence (snd p)) (inbound ++ outbound)))
    (N.of_nat (size (list_to_set (map (λ p, path_of (fst p)) (inbound ++ outbound)) : gset string))).

Definition classify_change_risk (qname : string) : result AtlasError ChangeRiskResult :=
  let qname := normalize_qn_kind_tokens qname in
  node <-? find_symbol qname;;
  inbound <-? rs_inbound_edges qname EDGE_QUERY_LIMIT;;
  outbound <-? rs_outbound_edges qname EDGE_QUERY_LIMIT;;
  tests <-? rs_test_neighbors qname EDGE_QUERY_LIMIT;;
  let i := change_inputs node inbound outbound tests in
  let '(level, factors) := compute_risk_level i in
  Ok (mk_change_risk level factors
        (build_review_focus (in_public i) (in_cross_module i) (in_cross_package i) (in_fan_in i)
           (bool_decide (tests = [])))).

End engine.

(** ** The graph store as the store of the engine *)

Definition store_of (nfc : string → string) (d : GraphDb) : ReasoningStore := {|
  rs_node_by_qname := λ q, Ok (GraphQueries.node_by_qname d q);
  rs_inbound_edges := λ q limit, Ok (inbound_edges d q limit);
  rs_outbound_edges := λ q limit, Ok (outbound_edges d q limit);
  rs_test_neighbors := λ q limit, Ok (test_neighbors d q limit);
  rs_nodes_by_file := GraphQueries.nodes_by_file nfc d;
  rs_file_owner_id := GraphQueries.file_owner_id nfc d;
  rs_dead_code := λ sub limit, Ok (dead_code_candidates_filtered d sub limit)
|}.

(** Entries in the order of their names. *)
Definition name_order : WalkOrder := {| walk := map_to_list; walk_perm m := Permutation_refl (map_to_list m) |}.

(** ** Lemmas: the breadth-first walk *)

Section walk.
Context `{Questions : !ReasoningStore}.

(** The store names [v] as a neighbour of [u], over an edge of this kind. *)
Definition near (u v : string) (via : EdgeKind) : Prop :=
  ∃ nbrs p, neighbors u = Ok nbrs ∧ p ∈ nbrs ∧ name_of (fst p) = v ∧ e_kind (ce_edge (snd p)) = via.

(** [v] is reached from a seed by that many hops. *)
Inductive hops (seeds : list string) : nat → string → Prop :=
| hops_seed q : q ∈ seeds → hops seeds 0 q
| hops_next d u v via : hops seeds d u → near u v via → hops seeds (S d) v.

(** The least number of hops. *)
Definition distance (seeds : list string) (v : string) (d : nat) : Prop :=
  hops seeds d v ∧ ∀ d', hops seeds d' v → (d ≤ d')%nat.

(** One turn of the loop. *)
Lemma visit_all depth nbrs : ∀ s,
  let s' := foldl (visit depth) s nbrs in
  (∀ v e, visited s !! v = Some e → visited s' !! v = Some e) ∧
  (∀ v e, visited s' !! v = Some e → visited s !! v = Some e ∨
     visited s !! v = None ∧ ∃ p, p ∈ nbrs ∧ name_of (fst p) = v ∧
       e = ((depth + 1)%N, Some (e_kind (ce_edge (snd p))))) ∧
  (∀ p, p ∈ nbrs → is_Some (visited s' !! name_of (fst p))) ∧
  ∃ new, queue s' = queue s ++ new ∧
    size (visited s') = (size (visited s) + length new)%nat ∧
    (∀ x, x ∈ new → snd x = (depth + 1)%N ∧ visited s !! fst x = None ∧ is_Some (visited s' !! fst x)) ∧
    (∀ v, visited s !! v = None → is_Some (visited s' !! v) → (v, (depth + 1)%N) ∈ new) ∧
    all_edges s' = all_edges s ++ map snd nbrs.
Proof.
  induction nbrs as [|p nbrs IH]; intros s; cbn [foldl].
  { split_and!; [auto|auto|by intros p ?%elem_of_nil|]. exists []. rewrite !app_nil_r.
    split_and!; [done|simpl; lia|by intros x ?%elem_of_nil|intros v Hn [e He]; congruence|done]. }
  set (v0 := name_of (fst p)). destruct (visited s !! v0) as [e0|] eqn:H0.
  - assert (visit depth s p = mk_bfs (visited s) (queue s) (all_edges s ++ [snd p])) as ->.
    { unfold visit. fold v0. by rewrite H0. }
    destruct (IH (mk_bfs (visited s) (queue s) (all_edges s ++ [snd p])))
      as (H1 & H2 & H3 & new & H4 & H5 & H6 & H7 & H8). cbn [visited queue all_edges] in *.
    split_and!; [done| | |].
    + intros v e [?|(? & q & ? & ? & ?)]%H2; [by left|right]. split; [done|]. exists q.
      split_and!; [by right|done|done].
    + intros q [->|Hq]%elem_of_cons; [exists e0; by apply H1|by apply H3].
    + exists new. split_and!; try done. by rewrite H8, <-app_assoc.
  - set (e := ((depth + 1)%N, Some (e_kind (ce_edge (snd p)))) : entry).
    set (s1 := mk_bfs (<[v0 := e]> (visited s)) (queue s ++ [(v0, (depth + 1)%N)]) (all_edges s ++ [snd p])).
    assert (visit depth s p = s1) as ->. { unfold visit. fold v0. by rewrite H0. }
    destruct (IH s1) as (H1 & H2 & H3 & new & H4 & H5 & H6 & H7 & H8).
    cbn [visited queue all_edges s1] in *.
    assert (visited (foldl (visit depth) s1 nbrs) !! v0 = Some e) as Hv0.
    { apply H1. apply lookup_insert_eq. }
    split_and!.
    + intros v x Hv. apply H1. rewrite lookup_insert_ne; [done|]. intros <-. congruence.
    + intros v x [Hv|(Hn & q & Hq & Hqv & ->)]%H2.
      * apply lookup_insert_Some in Hv as [[<- <-]|[_ Hv]]; [right|by left].
        split; [done|]. exists p. split_and!; [by left|done|done].
      * right. apply lookup_insert_None in Hn as [Hn _]. split; [done|].
        exists q. split_and!; [by right|done|done].
    + intros q [->|Hq]%elem_of_cons; [by exists e|by apply H3].
    + exists ((v0, (depth + 1)%N) :: new). rewrite H4, <-app_assoc. split_and!; [done| | | |].
      * rewrite H5, map_size_insert_None by done. simpl. lia.
      * intros x [->|Hx]%elem_of_cons; [by split_and!; [|done|exists e]|].
        destruct (H6 x Hx) as (? & Hn & ?). apply lookup_insert_None in Hn as [Hn _]. done.
      * intros v Hn Hv. destruct (decide (v = v0)) as [->|Hne]; [by left|right].
        apply H7; [by rewrite lookup_insert_ne|done].
      * by rewrite H8, <-app_assoc.
Qed.

(** What holds between two turns. *)
Record bfs_inv (seeds : list string) (max_depth : N) (s : Bfs) : Prop := {
  bi_seed q : q ∈ seeds → ∃ via, visited s !! q = Some (0%N, via);
  bi_sound v h via : visited s !! v = Some (h, via) → (h ≤ max_depth)%N ∧ hops seeds (N.to_nat h) v;
  bi_via v h via : visited s !! v = Some (h, via) →
    match via with
    | None => h = 0%N ∧ v ∈ seeds
    | Some k => ∃ u h', h = (h' + 1)%N ∧ hops seeds (N.to_nat h') u ∧ near u v k
    end;
  bi_queued q h : (q, h) ∈ queue s → ∃ via, visited s !! q = Some (h, via);
  bi_sorted : StronglySorted (λ x y, (snd x ≤ snd y)%N) (queue s);
  bi_near q h v h' via : (q, h) ∈ queue s → visited s !! v = Some (h', via) → (h' ≤ h + 1)%N;
  bi_closed u h via : visited s !! u = Some (h, via) → (u, h) ∈ queue s ∨
    ∀ v k, near u v k → ∃ h' via', visited s !! v = Some (h', via') ∧ (h' ≤ h + 1)%N
}.

Lemma seeds_visited seeds v e :
  (list_to_map (map (λ q, (q, (0%N, None))) seeds) : gmap string entry) !! v = Some e ↔
  v ∈ seeds ∧ e = (0%N, None).
Proof.
  induction seeds as [|q seeds IH]; simpl; [by rewrite lookup_empty; split; [|intros [?%elem_of_nil _]]|].
  rewrite lookup_insert_Some, IH, elem_of_cons.
  destruct (decide (q = v)) as [->|Hne]; naive_solver.
Qed.

Lemma bfs_start_inv seeds max_depth : bfs_inv seeds max_depth (bfs_start seeds).
Proof.
  split; cbn [visited queue bfs_start].
  - intros q Hq. exists None. by apply seeds_visited.
  - intros v h via [Hv [= -> _]]%seeds_visited. split; [lia|]. by constructor.
  - intros v h via [Hv [= -> ->]]%seeds_visited. done.
  - intros q h (x & [= -> ->] & Hx)%list_elem_of_fmap. exists None. by apply seeds_visited.
  - induction seeds as [|q seeds IH]; constructor; [done|].
    apply Forall_forall. intros x (y & -> & _)%list_elem_of_fmap. simpl. lia.
  - intros q h v h' via _ [_ [= -> _]]%seeds_visited. lia.
  - intros u h via [Hu [= -> ->]]%seeds_visited. left. apply list_elem_of_fmap. by exists u.
Qed.

Lemma near_neighbors u nbrs v k :
  neighbors u = Ok nbrs →
  near u v k ↔ ∃ p, p ∈ nbrs ∧ name_of (fst p) = v ∧ e_kind (ce_edge (snd p)) = k.
Proof.
  intros Hn. split.
  - intros (nbrs' & p & Hn' & Hp). rewrite Hn in Hn'. injection Hn' as <-. by exists p.
  - intros (p & ?). by exists nbrs, p.
Qed.

Lemma turn_inv seeds max_depth q h rest s nbrs :
  bfs_inv seeds max_depth s → queue s = (q, h) :: rest → (h < max_depth)%N → neighbors q = Ok nbrs →
  bfs_inv seeds max_depth (foldl (visit h) (mk_bfs (visited s) rest (all_edges s)) nbrs).
Proof.
  intros [Hseed Hs Hv Hq Hso Hne Hc] Hqueue Hh Hn.
  pose proof (λ v k, near_neighbors q nbrs v k Hn) as Hnear.
  destruct (visit_all h nbrs (mk_bfs (visited s) rest (all_edges s)))
    as (H1 & H2 & H3 & new & H4 & H5 & H6 & H7 & _). cbn [visited queue all_edges] in *.
  set (s' := foldl _ _ _) in *. rewrite Hqueue in *.
  assert ((q, h) ∈ (q, h) :: rest) as Hhead by left.
  destruct (Hq q h Hhead) as [via Hqv]. destruct (Hs q h via Hqv) as [_ Hqhops].
  assert (∀ v x, visited s' !! v = Some x → visited s !! v = None →
    fst x = (h + 1)%N ∧ ∃ k, snd x = Some k ∧ near q v k) as Hnew.
  { intros v x Hx Hnone. destruct (H2 v x Hx) as [?|(_ & p & Hp & Hpv & ->)]; [congruence|].
    split; [done|]. eexists. split; [done|]. apply Hnear. by exists p. }
  assert (∀ v h' via', visited s' !! v = Some (h', via') → (h' ≤ h + 1)%N) as Hmax.
  { intros v h' via' Hx. destruct (visited s !! v) as [[h0 via0]|] eqn:E.
    - pose proof (H1 v _ E). simplify_eq. by apply (Hne q h v h' via').
    - destruct (Hnew v _ Hx E) as [? _]. simpl in *. lia. }
  apply StronglySorted_inv in Hso as [Hso Hall]. rewrite Forall_forall in Hall.
  split.
  - intros x Hx. destruct (Hseed x Hx) as [via' Hx']. exists via'. by apply H1.
  - intros v h' via' Hx. destruct (visited s !! v) as [e|] eqn:E.
    + pose proof (H1 v _ E). simplify_eq. by apply (Hs v h' via').
    + destruct (Hnew v _ Hx E) as (Hh' & k & _ & Hk). simpl in Hh'. subst h'.
      split; [lia|]. replace (N.to_nat (h + 1)) with (S (N.to_nat h)) by lia. by apply hops_next with q k.
  - intros v h' via' Hx. destruct (visited s !! v) as [e|] eqn:E.
    + pose proof (H1 v _ E). simplify_eq. by apply (Hv v h' via').
    + destruct (Hnew v _ Hx E) as (Hh' & k & Hk & Hnk). simpl in Hh', Hk. subst. by exists q, h.
  - intros x hx. rewrite H4, elem_of_app. intros [Hx|Hx].
    + destruct (Hq x hx ltac:(by right)) as [via' Hx']. exists via'. by apply H1.
    + destruct (H6 _ Hx) as (Hhx & Hnone & [[h' via'] Hx']). simpl in *. subst hx.
      exists via'. destruct (Hnew x _ Hx' Hnone) as [Hh' _]. simpl in Hh'. by subst.
  - rewrite H4. apply StronglySorted_app_2; [|exact Hso|].
    + intros [x hx] [y hy] Hx Hy. destruct (H6 _ Hy) as (Hhy & _). simpl in *. subst hy.
      destruct (Hq x hx ltac:(by right)) as [via' Hx']. by apply (Hne q h x hx via').
    + assert (∀ l, (∀ x, x ∈ l → snd x = (h + 1)%N) → StronglySorted (λ x y : string * N, (snd x ≤ snd y)%N) l) as Hsame.
      { intros l. induction l as [|x l IH]; intros Hl; constructor.
        - apply IH. intros y Hy. apply Hl. by right.
        - apply Forall_forall. intros y Hy. rewrite (Hl x), (Hl y); [done|by right|by left]. }
      apply Hsame. intros x Hx. by apply H6.
  - intros x hx v h' via'. rewrite H4, elem_of_app. intros Hx Hv'. pose proof (Hmax v h' via' Hv').
    destruct Hx as [Hx|Hx]; [specialize (Hall _ Hx); simpl in Hall; lia|].
    destruct (H6 _ Hx) as (Hhx & _). simpl in Hhx. lia.
  - intros u hu via' Hu. destruct (visited s !! u) as [e|] eqn:E.
    + pose proof (H1 u _ E). simplify_eq. destruct (Hc u hu via' E) as [[[= -> ->]|Hr]%elem_of_cons|Hclosed].
      * right. intros v k (p & Hp & <- & _)%Hnear. destruct (H3 p Hp) as [[h' via''] Hx].
        exists h', via''. split; [done|]. by apply (Hmax _ _ _ Hx).
      * left. rewrite H4. apply elem_of_app. by left.
      * right. intros v k Hk. destruct (Hclosed v k Hk) as (h' & via'' & Hx & ?).
        exists h', via''. split; [by apply H1|done].
    + left. rewrite H4. apply elem_of_app. right. destruct (Hnew u _ Hu E) as [Hh' _].
      simpl in Hh'. subst hu. apply H7; [done|by eexists].
Qed.

(** Why the loop stopped: nothing left, the depth, or the cap. *)
Definition stopped (max_depth max_nodes : N) (s : Bfs) : Prop :=
  match queue s with
  | [] => True
  | (_, h) :: _ => (max_depth ≤ h)%N ∨ (max_nodes ≤ N.of_nat (size (visited s)))%N
  end.

Lemma bfs_loop_ends seeds max_depth max_nodes fuel : ∀ s s',
  bfs_inv seeds max_depth s →
  (length (queue s) + (N.to_nat max_nodes - size (visited s)) ≤ fuel)%nat ∨
    (N.to_nat max_nodes ≤ size (visited s))%nat →
  bfs_loop fuel max_depth max_nodes s = Ok s' →
  bfs_inv seeds max_depth s' ∧ stopped max_depth max_nodes s'.
Proof.
  induction fuel as [|fuel IH]; intros s s' Hinv Hfuel; cbn [bfs_loop].
  - intros [= <-]. split; [done|]. unfold stopped. destruct (queue s) as [|[q h] rest]; [done|].
    right. simpl in Hfuel. lia.
  - destruct (queue s) as [|[q h] rest] eqn:Hqueue.
    { intros [= <-]. split; [done|]. unfold stopped. by rewrite Hqueue. }
    destruct ((max_depth <=? h)%N || (max_nodes <=? N.of_nat (size (visited s)))%N) eqn:Hstop.
    { intros [= <-]. split; [done|]. unfold stopped. rewrite Hqueue.
      apply orb_true_iff in Hstop as [H|H]; apply N.leb_le in H; auto. }
    apply orb_false_iff in Hstop as [Hd Hn]. apply N.leb_gt in Hd, Hn.
    destruct (neighbors q) as [nbrs|e] eqn:Hnbrs; cbn [res_bind]; [|done].
    apply IH; [by apply (turn_inv seeds max_depth q h rest s nbrs)|].
    destruct (visit_all h nbrs (mk_bfs (visited s) rest (all_edges s)))
      as (_ & _ & _ & new & H4 & H5 & _). cbn [visited queue] in *.
    rewrite H4, H5, length_app. simpl in Hfuel. lia.
Qed.

Lemma start_fuel seeds max_nodes :
  (length (queue (bfs_start seeds)) + (N.to_nat max_nodes - size (visited (bfs_start seeds))) ≤
   bfs_fuel seeds max_nodes)%nat.
Proof. unfold bfs_fuel. cbn [queue bfs_start]. rewrite length_map. lia. Qed.

(** Below the cap the walk visits exactly the names within the depth, at their distance. *)
Lemma bfs_exact seeds max_depth max_nodes s :
  bfs_loop (bfs_fuel seeds max_nodes) max_depth max_nodes (bfs_start seeds) = Ok s →
  (N.of_nat (size (visited s)) < max_nodes)%N →
  (∀ v d, hops seeds d v → (d ≤ N.to_nat max_depth)%nat →
     ∃ h via, visited s !! v = Some (h, via) ∧ (N.to_nat h ≤ d)%nat) ∧
  (∀ v h via, visited s !! v = Some (h, via) → (h ≤ max_depth)%N ∧ distance seeds v (N.to_nat h)).
Proof.
  intros Hs Hcap.
  destruct (bfs_loop_ends seeds _ _ _ _ _ (bfs_start_inv seeds max_depth)
    (or_introl (start_fuel seeds max_nodes)) Hs) as [[H0 H1 H2 H3 H4 H5 H6] Hstop].
  assert (∀ u h, (u, h) ∈ queue s → (max_depth ≤ h)%N) as Hq.
  { intros u h Hu. unfold stopped in Hstop. destruct (queue s) as [|[q h0] rest]; [by apply elem_of_nil in Hu|].
    destruct Hstop as [Hd|Hn]; [|lia]. apply StronglySorted_inv in H4 as [_ Hall].
    rewrite Forall_forall in Hall. apply elem_of_cons in Hu as [[= -> ->]|Hu]; [done|].
    specialize (Hall _ Hu). simpl in Hall. lia. }
  assert (∀ v d, hops seeds d v → (d ≤ N.to_nat max_depth)%nat →
     ∃ h via, visited s !! v = Some (h, via) ∧ (N.to_nat h ≤ d)%nat) as Hall.
  { intros v d. induction 1 as [v Hv|d u v k _ IH Hk]; intros Hd.
    - destruct (H0 v Hv) as [via Hvv]. exists 0%N, via. split; [done|simpl; lia].
    - destruct IH as (h & via & Hu & Hh); [lia|].
      destruct (H6 u h via Hu) as [Hin|Hclosed]; [specialize (Hq u h Hin); lia|].
      destruct (Hclosed v k Hk) as (h' & via' & Hv & Hle). exists h', via'. split; [done|lia]. }
  split; [done|]. intros v h via Hv. destruct (H1 v h via Hv) as [Hd Hh]. split; [done|].
  split; [done|]. intros d' Hd'. destruct (Nat.le_gt_cases d' (N.to_nat h)) as [Hle|]; [|lia].
  destruct (Hall v d' Hd' ltac:(lia)) as (h2 & via2 & Hv2 & Hle2). simplify_eq. lia.
Qed.
End walk.

Lemma collect_ok {E A B : Type} (f : A → result E B) l ys :
  collect f l = Ok ys ↔ Forall2 (λ x y, f x = Ok y) l ys.
Proof.
  revert ys. induction l as [|x l IH]; intros ys; cbn [collect].
  - split; [by intros [= <-]|]. by intros ->%Forall2_nil_inv_l.
  - split.
    + destruct (f x) as [y|e] eqn:Hx; cbn [res_bind]; [|done].
      destruct (collect f l) as [zs|e]; cbn [res_bind]; [|done]. intros [= <-].
      constructor; [done|]. by apply IH.
    + intros (y & zs & Hx & Hl & ->)%Forall2_cons_inv_l. rewrite Hx. cbn [res_bind].
      apply IH in Hl as ->. done.
Qed.

Lemma collect_found {E A B : Type} (f : A → result E (option B)) l ys b :
  collect f l = Ok ys → b ∈ omap id ys ↔ ∃ a, a ∈ l ∧ f a = Ok (Some b).
Proof.
  intros H%collect_ok. rewrite list_elem_of_omap. split.
  - intros (y & Hy & Hb). simpl in Hb. subst y. apply list_elem_of_lookup in Hy as [i Hi].
    destruct (Forall2_lookup_r _ _ _ _ _ H Hi) as (a & Ha & Hf). exists a.
    split; [by apply list_elem_of_lookup_2 in Ha|done].
  - intros (a & Ha & Hf). apply list_elem_of_lookup in Ha as [i Hi].
    destruct (Forall2_lookup_l _ _ _ _ _ H Hi) as (y & Hy & Hfy). rewrite Hf in Hfy. injection Hfy as <-.
    exists (Some b). split; [|done]. by apply list_elem_of_lookup_2 in Hy.
Qed.

(** ** Properties: what a removal reaches *)

Section removal.
Context `{Questions : !ReasoningStore} `{Order : !WalkOrder}.

(** The depth and the number of nodes that a request is given. *)
Definition accepted_depth (max_depth : option N) : N :=
  fst (resolve_limit new_manager (gt_depth (graph_traversal default_policy)) "graph_traversal.max_depth" max_depth).
Definition accepted_nodes (max_nodes : option N) : N :=
  fst (resolve_limit new_manager (gt_nodes (graph_traversal default_policy)) "graph_traversal.max_nodes" max_nodes).

Lemma resolve_limit_fst m m' rule name requested :
  fst (resolve_limit m rule name requested) = fst (resolve_limit m' rule name requested).
Proof. unfold resolve_limit. by destruct (_ <=? _)%N. Qed.

Lemma analyze_removal_cases seeds max_depth max_nodes r :
  analyze_removal seeds max_depth max_nodes = Ok r → ri_seed r ≠ [] →
  let names := map normalize_qn_kind_tokens seeds in
  ∃ s found, bfs_loop (bfs_fuel names (accepted_nodes max_nodes)) (accepted_depth max_depth)
      (accepted_nodes max_nodes) (bfs_start names) = Ok s ∧
    collect (λ p, (n <-? rs_node_by_qname (fst p);;
       Ok (match n with Some n => Some (n, fst (snd p), snd (snd p)) | None => None end))) (walk (visited s))
      = Ok found ∧
    ri_symbols r = map impacted_node (filter (λ x, bool_decide (name_of (fst (fst x)) ∉ names))
                     (sort_by by_depth_and_name (omap id found))) ∧
    ri_files r = dedup_by_key id (sort_by String.compare (map (λ im, path_of (im_node im)) (ri_symbols r))) ∧
    ri_tests r = filter (λ n, is_test_node (cn_node n)) (map im_node (ri_symbols r)).
Proof.
  unfold analyze_removal, accepted_nodes, accepted_depth.
  destruct (resolve_limit new_manager (gt_depth _) _ max_depth) as [depth b1]. cbn [fst].
  rewrite (resolve_limit_fst new_manager b1).
  destruct (resolve_limit b1 (gt_nodes _) _ max_nodes) as [cap b2]. cbn [fst].
  destruct (load_nodes _) as [seed_nodes|e]; cbn [res_bind]; [|done].
  case_bool_decide as Hseed; [by intros [= <-]|].
  destruct (bfs_impact _ _ _) as [found|e] eqn:Hb; cbn [res_bind]; [|done]. intros [= <-] _.
  cbn [ri_symbols ri_files ri_tests]. unfold bfs_impact in Hb.
  destruct (bfs_loop _ _ _ _) as [s|e]; cbn [res_bind] in Hb; [|done].
  destruct (collect _ _) as [f|e] eqn:Hf; cbn [res_bind] in Hb; [|done]. injection Hb as <-.
  exists s, f. by split_and!.
Qed.

End removal.

(** ** Properties: the order of the hash table *)

(** An analysis that succeeds answers the same whatever the order in which the table of
    visited names is walked, when the store finds a node under its own name. *)
Theorem removal_order_independent `{Questions : !ReasoningStore} (o1 o2 : WalkOrder)
    (Hnames : ∀ q n, rs_node_by_qname q = Ok (Some n) → name_of n = q)
    (seeds : list string) (max_depth max_nodes : option N) (r : RemovalImpactResult) :
  @analyze_removal _ o1 seeds max_depth max_nodes = Ok r →
  @analyze_removal _ o2 seeds max_depth max_nodes = Ok r.
Proof.
  assert (∀ names depth cap found, @bfs_impact _ o1 names depth cap = Ok found →
    @bfs_impact _ o2 names depth cap = Ok found) as Hbfs.
  { intros names depth cap found. unfold bfs_impact. destruct (bfs_loop _ _ _ _) as [s|e]; [|done].
    cbn [res_bind]. set (f := λ p : string * entry, n <-? rs_node_by_qname p.1;; _).
    destruct (collect f (@walk o1 (visited s))) as [ys|e] eqn:H1; cbn [res_bind]; [|done].
    assert (@walk o1 (visited s) ≡ₚ @walk o2 (visited s)) as Hperm by by rewrite !walk_perm.
    pose proof (proj1 (collect_ok _ _ _) H1) as HF.
    destruct (Permutation_Forall2 Hperm HF) as (zs & Hzs & HF2).
    assert (collect f (@walk o2 (visited s)) = Ok zs) as ->. { by apply collect_ok. }
    cbn [res_bind]. intros [= <-]. do 2 f_equal.
    apply (sort_by_unique_on by_depth_and_name (λ x, name_of (fst (fst x)))).
    - intros x y Heq. unfold by_depth_and_name, cmp_lex, cmp_on, then_with in Heq.
      destruct (_ ?= _)%N; try done. by apply String.compare_eq_iff in Heq.
    - assert (sublist (map (λ x, name_of (fst (fst x))) (omap id ys)) (map fst (@walk o1 (visited s)))) as Hsub.
      { clear - HF Hnames. induction HF as [|p y l l' Hf _ IH]; [constructor|]. unfold f in Hf.
        destruct (rs_node_by_qname p.1) as [[n|]|] eqn:E; cbn [res_bind] in Hf; simplify_eq.
        - cbn [omap list_omap id map fst]. rewrite (Hnames _ _ E). by constructor.
        - by constructor. }
      rewrite <-Hzs. eapply sublist_NoDup; [|exact Hsub]. rewrite (walk_perm (visited s)). apply NoDup_fst_map_to_list.
    - by rewrite Hzs. }
  unfold analyze_removal.
  destruct (resolve_limit new_manager _ _ _) as [depth b1]. destruct (resolve_limit b1 _ _ _) as [cap b2].
  destruct (load_nodes _) as [seed_nodes|e]; cbn [res_bind]; [|done].
  case_bool_decide; [done|].
  destruct (@bfs_impact _ o1 _ _ _) as [found|e] eqn:Hb; cbn [res_bind]; [|done].
  by rewrite (Hbfs _ _ _ _ Hb).
Qed.

(** ** Properties: the engine on the graph store *)

Section on_store.
Context (nfc : string → string) (d : GraphDb).

Lemma joined_elem dir q calls p :
  p ∈ joined d dir q calls ↔ ∃ er nr, er ∈ t_edges d ∧ nr ∈ t_nodes d ∧
    filter_name dir (er_edge er) = q ∧ (calls = true → e_kind (row_edge er) = EkCalls) ∧
    nr_qn nr = join_name dir (er_edge er) ∧ p = (nr_node nr, er_edge er).
Proof.
  unfold joined, select_edges, select_nodes. rewrite list_elem_of_bind. split.
  - intros (e & (nc & -> & (nr & -> & [Hq%Is_true_true%String.eqb_eq Hnr]%list_elem_of_filter)%list_elem_of_fmap)%list_elem_of_fmap
      & (er & -> & [Hf%Is_true_true Her]%list_elem_of_filter)%list_elem_of_fmap).
    apply andb_true_iff in Hf as [Hf%String.eqb_eq Hc]. exists er, nr. split_and!; try done.
    intros ->. simpl in Hc. by apply bool_decide_eq_true in Hc.
  - intros (er & nr & Her & Hnr & Hf & Hc & Hq & ->). exists (er_edge er). split.
    + apply list_elem_of_fmap. exists (nr_node nr). split; [done|]. apply list_elem_of_fmap. exists nr.
      split; [done|]. apply list_elem_of_filter. split; [|done]. apply Is_true_true. by apply String.eqb_eq.
    + apply list_elem_of_fmap. exists er. split; [done|]. apply list_elem_of_filter. split; [|done].
      apply Is_true_true. rewrite Hf, String.eqb_refl. destruct calls; simpl; [|done].
      apply bool_decide_eq_true. by apply Hc.
Qed.

Lemma directed_elem dir q limit p :
  p ∈ directed_edges d q limit dir false → p ∈ joined d dir q false.
Proof.
  unfold directed_edges. rewrite limit_rows_take. intros Hp.
  apply (sort_by_elem (by_confidence dir)). eapply elem_of_sublist; [exact Hp|apply sublist_take].
Qed.

Lemma directed_all dir q limit p :
  (len (joined d dir q false) ≤ limit)%N →
  p ∈ directed_edges d q limit dir false ↔ p ∈ joined d dir q false.
Proof.
  intros Hl. unfold directed_edges. rewrite limit_rows_id.
  - apply sort_by_elem.
  - unfold len. by rewrite (sort_by_perm (by_confidence dir)).
Qed.

Lemma found_under_name q n : @rs_node_by_qname (store_of nfc d) q = Ok (Some n) → name_of n = q.
Proof.
  cbn [rs_node_by_qname store_of]. unfold GraphQueries.node_by_qname, select_nodes. intros [= H].
  assert (n ∈ map nr_node (filter (λ r, String.eqb (nr_qn r) q) (t_nodes d))) as Hin.
  { destruct (map _ _) as [|x l]; [done|]. injection H as ->. by left. }
  by apply list_elem_of_fmap in Hin as (r & -> & [Hr%Is_true_true%String.eqb_eq _]%list_elem_of_filter).
Qed.

(** Names near a name are names of nodes. *)
Lemma near_known u v k :
  @near (store_of nfc d) u v k → v ∈ map nr_qn (t_nodes d).
Proof.
  intros (nbrs & p & [= <-] & Hp & <- & _). apply elem_of_app in Hp.
  assert (∀ dir, p ∈ joined d dir u false → name_of (fst p) ∈ map nr_qn (t_nodes d)) as H.
  { intros dir (er & nr & _ & Hnr & _ & _ & _ & ->)%joined_elem. apply list_elem_of_fmap. by exists nr. }
  destruct Hp as [Hp|Hp]; apply directed_elem in Hp; by eapply H.
Qed.

Lemma hops_known seeds n v :
  @hops (store_of nfc d) seeds n v → v ∈ seeds ++ map nr_qn (t_nodes d).
Proof.
  destruct 1 as [q Hq|n u v k _ Hk]; apply elem_of_app; [by left|right]. by eapply near_known.
Qed.

(** The answer whether a symbol may be removed is exact while no more edges come in than
    the engine asks for: it may be exactly when no known symbol calls, imports, references,
    extends or implements it, and the blocking references are exactly those symbols. *)
Theorem dependency_removal_exact (qname : string) (r : DependencyRemovalResult) :
  let q := normalize_qn_kind_tokens qname in
  @check_dependency_removal (store_of nfc d) qname = Ok r →
  (len (joined d Inbound q false) ≤ EDGE_QUERY_LIMIT)%N →
  let blocks nr := ∃ er, er ∈ t_edges d ∧ nr ∈ t_nodes d ∧ e_target_qn (row_edge er) = q ∧
    e_source_qn (row_edge er) = nr_qn nr ∧ blocks_removal (e_kind (row_edge er)) = true in
  (dr_removable r = true ↔ ¬ ∃ nr, blocks nr) ∧
  (∀ n, n ∈ dr_blocking r ↔ ∃ nr, blocks nr ∧ nr_node nr = n) ∧
  dr_budget r = within_budget "analysis.dependency_removal" EDGE_QUERY_LIMIT (len (dr_blocking r)).
Proof.
  intros q Hr Hlen blocks. unfold check_dependency_removal in Hr.
  cbn [rs_inbound_edges store_of res_bind] in Hr. fold q in Hr. injection Hr as <-.
  cbn [dr_removable dr_blocking dr_budget].
  set (blocking := map fst (filter _ _)).
  assert (∀ n, n ∈ blocking ↔ ∃ nr, blocks nr ∧ nr_node nr = n) as Hb.
  { intros n. unfold blocking. rewrite list_elem_of_fmap. setoid_rewrite list_elem_of_filter.
    setoid_rewrite (directed_all Inbound q EDGE_QUERY_LIMIT _ Hlen). setoid_rewrite joined_elem. split.
    - intros (p & -> & Hk%Is_true_true & er & nr & Her & Hnr & Hf & _ & Hq & ->).
      exists nr. split; [|done]. exists er. by split_and!.
    - intros (nr & (er & Her & Hnr & Ht & Hs & Hk) & <-). exists (nr_node nr, er_edge er).
      split; [done|]. split; [by apply Is_true_true|]. exists er, nr. by split_and!. }
  split_and!; [|exact Hb|done]. rewrite bool_decide_eq_true. split.
  - intros Hnil (nr & Hnr). assert (nr_node nr ∈ blocking) as Hin by (apply Hb; by exists nr).
    rewrite Hnil in Hin. by apply elem_of_nil in Hin.
  - intros Hno. destruct blocking as [|n l] eqn:E; [done|exfalso].
    assert (n ∈ n :: l) as Hin by left. apply Hb in Hin as (nr & Hnr & _). apply Hno. by exists nr.
Qed.
End on_store.

(** ** Properties: the risk of a change *)

Definition level_rank (l : RiskLevel) : nat :=
  match l with Low => 0 | Medium => 1 | High => 2 | Critical => 3 end.

(** At least as risky in every input. *)
Record riskier (i j : RiskInputs) : Prop := {
  rk_fan_in : (in_fan_in i ≤ in_fan_in j)%N;
  rk_fan_out : (in_fan_out i ≤ in_fan_out j)%N;
  rk_public : in_public i = true → in_public j = true;
  rk_tests : in_test_adj j = true → in_test_adj i = true;
  rk_module : in_cross_module i = true → in_cross_module j = true;
  rk_package : in_cross_package i = true → in_cross_package j = true;
  rk_unresolved : (in_unresolved i ≤ in_unresolved j)%N;
  rk_files : (in_files i ≤ in_files j)%N
}.

Lemma risk_score_sum i : risk_score i =
  ((if in_public i then 3 else 0) + (if in_test_adj i then 0 else 2) +
   (if in_cross_package i then 3 else if in_cross_module i then 2 else 0) +
   (if (10 <? in_fan_in i)%N then 2 else if (3 <? in_fan_in i)%N then 1 else 0) +
   (if (0 <? in_unresolved i)%N then 1 else 0) + (if (15 <? in_fan_out i)%N then 1 else 0) +
   (if (10 <? in_files i)%N then 1 else 0))%Z.
Proof.
  unfold risk_score, risk_factors, when.
  destruct (in_public i), (in_test_adj i), (in_cross_package i), (in_cross_module i); simpl;
    destruct (10 <? in_fan_in i)%N, (3 <? in_fan_in i)%N, (0 <? in_unresolved i)%N,
      (15 <? in_fan_out i)%N, (10 <? in_files i)%N; reflexivity.
Qed.

(** The risk level of a change never falls when an input grows: more callers, more edges out,
    more unresolved edges, more files, a public symbol, callers in other files or packages, or
    no test. *)
Theorem risk_level_monotone (i j : RiskInputs) :
  riskier i j →
  (level_rank (fst (compute_risk_level i)) ≤ level_rank (fst (compute_risk_level j)))%nat.
Proof.
  intros [H1 H2 H3 H4 H5 H6 H7 H8]. unfold compute_risk_level. cbn [fst].
  assert (risk_score i ≤ risk_score j)%Z as Hs.
  { rewrite !risk_score_sum.
    assert ((if in_public i then 3 else 0) ≤ (if in_public j then 3 else 0))%Z.
    { destruct (in_public i), (in_public j); first [lia|by specialize (H3 eq_refl)]. }
    assert ((if in_test_adj i then 0 else 2) ≤ (if in_test_adj j then 0 else 2))%Z.
    { destruct (in_test_adj i), (in_test_adj j); first [lia|by specialize (H4 eq_refl)]. }
    assert ((if in_cross_package i then 3 else if in_cross_module i then 2 else 0) ≤
      (if in_cross_package j then 3 else if in_cross_module j then 2 else 0))%Z.
    { destruct (in_cross_package i), (in_cross_package j), (in_cross_module i), (in_cross_module j);
        first [lia|by specialize (H6 eq_refl)|by specialize (H5 eq_refl)]. }
    destruct (N.ltb_spec 10 (in_fan_in i)), (N.ltb_spec 10 (in_fan_in j)), (N.ltb_spec 3 (in_fan_in i)),
      (N.ltb_spec 3 (in_fan_in j)); try lia;
    destruct (N.ltb_spec 0 (in_unresolved i)), (N.ltb_spec 0 (in_unresolved j)); try lia;
    destruct (N.ltb_spec 15 (in_fan_out i)), (N.ltb_spec 15 (in_fan_out j)); try lia;
    destruct (N.ltb_spec 10 (in_files i)), (N.ltb_spec 10 (in_files j)); lia. }
  destruct (Z.leb_spec 8 (risk_score i)), (Z.leb_spec 8 (risk_score j)), (Z.leb_spec 5 (risk_score i)),
    (Z.leb_spec 5 (risk_score j)), (Z.leb_spec 2 (risk_score i)), (Z.leb_spec 2 (risk_score j)); simpl; lia.
Qed.

(** ** Examples *)

Definition ex_graph : GraphDb := committed ex_store.

Definition ex_removal (seeds : list string) (depth nodes : N) : result AtlasError RemovalImpactResult :=
  @analyze_removal (store_of id ex_graph) name_order seeds (Some depth) (Some nodes).


(** Entries in the opposite order. *)
Definition reverse_order : WalkOrder :=
  {| walk m := rev (map_to_list m); walk_perm m := symmetry (Permutation_rev (map_to_list m)) |}.

Lemma removal_order_independent_witness :
  ∃ r, ex_removal ["src/a.rs::fn::x"] 2 100 = Ok r ∧
    @analyze_removal (store_of id ex_graph) reverse_order ["src/a.rs::fn::x"] (Some 2%N) (Some 100%N) = Ok r.
Proof.
  eexists. split; [vm_compute; reflexivity|].
  apply (@removal_order_independent (store_of id ex_graph) name_order reverse_order (found_under_name id ex_graph)).
  vm_compute. reflexivity.
Defined.

Lemma dependency_removal_exact_witness :
  ∃ r, @check_dependency_removal (store_of id ex_graph) "src/a.rs::fn::x" = Ok r ∧
    map (λ n, n_qualified_name (cn_node n)) (dr_blocking r) = ["src/b.rs::fn::z"] ∧
    (dr_removable r = true ↔ ¬ ∃ nr, ∃ er, er ∈ t_edges ex_graph ∧ nr ∈ t_nodes ex_graph ∧
       e_target_qn (row_edge er) = "src/a.rs::fn::x" ∧ e_source_qn (row_edge er) = nr_qn nr ∧
       blocks_removal (e_kind (row_edge er)) = true).
Proof.
  eexists. split; [vm_compute; reflexivity|]. split; [reflexivity|].
  match goal with |- dr_removable ?r = true ↔ _ =>
    assert (@check_dependency_removal (store_of id ex_graph) "src/a.rs::fn::x" = Ok r) as Hr
      by (vm_compute; reflexivity);
    destruct (dependency_removal_exact id ex_graph "src/a.rs::fn::x" r Hr) as (H & _ & _) end.
  - apply (bool_decide_unpack _). vm_compute. exact I.
  - exact H.
Defined.

(** A name that no node has may be removed with high confidence: the symbol is never looked
    up. *)
Example unknown_symbol_removable :
  match @check_dependency_removal (store_of id ex_graph) "src/none.rs::fn::q" with
  | Ok r => dr_removable r = true ∧ dr_confidence r = TierHigh
  | Err _ => False
  end.
Proof. vm_compute. by split. Qed.

(** Certain references leave the answer that a symbol is not removable with low confidence,
    uncertain ones with medium confidence. *)
Example certain_block_low_confidence :
  match @check_dependency_removal (store_of id ex_graph) "src/a.rs::fn::x" with
  | Ok r => dr_removable r = false ∧ dr_confidence r = TierLow
  | Err _ => False
  end.
Proof. vm_compute. by split. Qed.

(** The cap stops the walk between two names only: all neighbours of a name are taken. *)
Example cap_exceeded :
  accepted_nodes (Some 2%N) = 2%N ∧
  match ex_removal ["src/b.rs::fn::z"] 2 2 with
  | Ok r => (length (ri_seed r) + length (ri_symbols r) = 3)%nat
  | Err _ => False
  end.
Proof. vm_compute. by split. Qed.

Lemma risk_level_monotone_witness :
  let i := mk_risk_inputs 2 3 false true true false 0 2 in
  let j := mk_risk_inputs 12 3 true true true true 1 2 in
  (fst (compute_risk_level i), fst (compute_risk_level j)) = (Medium, Critical) ∧
  (level_rank (fst (compute_risk_level i)) ≤ level_rank (fst (compute_risk_level j)))%nat.
Proof.
  intros i j. split; [reflexivity|]. apply (risk_level_monotone i j). split; simpl; (done || lia).
Defined.
