(* ===== verification/CallResolution.v ===== *)
(** * Build engine: resolution of calls across files

    Model of [packages/atlas-engine/src/call_resolution.rs]: after the files of a repository
    are parsed, the targets of their call edges are resolved through the imports of the file
    or within its package. The graph store, the file system, the JSON parser, the registry of
    repositories and the order of hash sets are interfaces; the walk that lists the
    configuration files is a parameter. *)

From Stdlib Require Import Floats.SpecFloat.
From S2P Require Import Prelude RustStr RustFloat Kinds Graph Json.

(** ** Paths *)

Definition dot : ascii := "."%char.

(** [Path::extension]: after the last dot of the file name, unless nothing is before it. *)
Definition path_extension (p : string) : option string :=
  name ← file_name p;
  n ← rfind_sub "." name;
  if (n =? 0)%nat then None else Some (str_drop (n + 1) name).

(** [Utf8PathBuf::pop]. *)
Definition path_pop (p : string) : string := default p (path_parent p).

(** [Path::set_extension] of a path whose file name has none. *)
Definition add_extension (ext p : string) : string :=
  match file_name p with Some _ => p +:+ "." +:+ ext | None => p end.

Definition push_component (acc : string) (c : Component) : string :=
  match c with
  | CurDir => acc
  | ParentDir => path_pop acc
  | RootDir => path_join acc "/"
  | Normal part => path_join acc part
  end.

Definition normalize_relative_path (path : string) : string := foldl push_component "" (components path).

(** [Path::starts_with]: whole components. *)
#[export] Instance Component_eq_dec : EqDecision Component.
Proof. solve_decision. Defined.
Definition path_starts_with (p base : string) : bool :=
  bool_decide (take (length (components base)) (components p) = components base).

Definition parent_or_root (p : string) : string := default "" (path_parent p).

(** [Path::ancestors]: the path and its parents. *)
Fixpoint ancestors_fuel (fuel : nat) (p : string) : list string :=
  match fuel with
  | O => [p]
  | S fuel => p :: match path_parent p with Some q => ancestors_fuel fuel q | None => [] end
  end.
Definition ancestors (p : string) : list string := ancestors_fuel (String.length p) p.

(** ** Data *)

Record CallMeta := mk_meta {
  callee_name : string;
  receiver_text : option string;
  receiver_type : option string
}.

Record ImportBinding := mk_binding {
  ib_source : string;
  ib_local : string;
  ib_imported : option string;
  ib_kind : string;
  relative_level : N
}.

Record TsPathAlias := mk_alias { al_pattern : string; al_targets : list string }.
Record TsConfigEntry := mk_tsentry { ts_dir : string; ts_paths : list TsPathAlias }.
Record ResolverConfig := mk_resolver { tsconfigs : list TsConfigEntry; go_module : option string }.

(** A repository of the registry: its identity, what it depends on, and its parent. *)
Record Registration := mk_registration {
  rg_repo_id : string;
  rg_dependencies : list string;
  rg_parent : option string
}.

(** *** Interfaces *)

(** The file system under the repository root: paths are joined to the root by the code. *)
Class FileSystem := {
  fs_exists : string → bool;
  fs_read : string → option string;
  (** The names in a directory; an unreadable entry is [None]. *)
  fs_read_dir : string → option (list (option string));
  fs_is_dir : string → bool;
  parse_json : string → option Json
}.

(** The order in which a hash set is walked. *)
Class SetOrder := {
  set_values : gset string → list string;
  set_values_perm X : set_values X ≡ₚ elements X
}.

Class CallStore (S E : Type) := {
  nodes_by_file : S → string → string → result E (list CNode);
  edges_by_file : S → string → string → result E (list CEdge);
  callable_nodes_by_name : S → string → string → result E (list CNode);
  file_owner_id : S → string → string → result E (option string);
  rewrite_file_edges : S → string → string → list CEdge → result E S
}.

(** ** JSON objects *)

Definition non_empty_str (s : string) : option string := if str_is_empty s then None else Some s.

Definition str_field (key : string) (entries : list (string * Json)) : option string :=
  v ← assoc key entries; as_str v.
Definition text_field (key : string) (entries : list (string * Json)) : option string :=
  s ← str_field key entries; non_empty_str s.

Definition node_repo_id (n : CNode) : option string := extra ← as_object (cn_extra n); str_field "repo_id" extra.

Definition call_meta (e : CEdge) : option CallMeta :=
  extra ← as_object (ce_extra e);
  callee ← str_field "callee_name" extra;
  Some (mk_meta callee (text_field "receiver_text" extra) (text_field "receiver_type" extra)).

Definition binding_of (source : string) (extra : list (string * Json)) (item : Json) : option ImportBinding :=
  obj ← as_object item;
  local ← str_field "local" obj;
  Some (mk_binding source local (str_field "imported" obj) (default "module" (str_field "kind" obj))
    (default 0%N (v ← assoc "relative_level" extra; as_u64 v))).

Definition as_array (v : Json) : option (list Json) := match v with JArray l => Some l | _ => None end.

Definition array_field (key : string) (entries : list (string * Json)) : option (list Json) :=
  v ← assoc key entries; as_array v.

Definition bindings_of_extra (extra : list (string * Json)) : option (list ImportBinding) :=
  source ← str_field "source" extra;
  items ← array_field "bindings" extra;
  Some (omap (binding_of source extra) (items : list Json)).

Definition node_bindings (n : CNode) : list ImportBinding :=
  match n_kind (cn_node n) with
  | NkImport => default [] (extra ← as_object (cn_extra n); bindings_of_extra extra)
  | _ => []
  end.

Definition collect_import_bindings (nodes : list CNode) : list ImportBinding := nodes ≫= node_bindings.

(** ** Repositories *)

Definition allowed_repo_ids (registry : option (list Registration)) (source_repo_id : string) : gset string :=
  match registry with
  | None => {[source_repo_id]}
  | Some entries =>
      foldl (λ allowed e,
        let allowed :=
          if String.eqb (rg_repo_id e) source_repo_id
          then allowed ∪ list_to_set (rg_dependencies e) ∪ list_to_set (option_list (rg_parent e))
          else allowed in
        if existsb (String.eqb source_repo_id) (rg_dependencies e) ||
           bool_decide (rg_parent e = Some source_repo_id)
        then allowed ∪ {[rg_repo_id e]} else allowed) {[source_repo_id]} entries
  end.

Definition annotate_cross_repo_edge (e : CEdge) (source_repo_id : string) (target : CNode) (tier : string) : CEdge :=
  let target_repo_id := default source_repo_id (node_repo_id target) in
  let reason := if String.eqb target_repo_id source_repo_id then "import" else "dependency" in
  mk_cedge (ce_edge e) (JObject
    (obj_insert "confidence_tier_label" (JString tier)
    (obj_insert "relationship_reason" (JString reason)
    (obj_insert "target_repo" (JString target_repo_id)
    (obj_insert "source_repo" (JString source_repo_id) (object_or_empty (ce_extra e))))))).

Definition has_external_binding (bindings : list ImportBinding) (meta : CallMeta) : bool :=
  existsb (λ b, negb (starts_with "." (ib_source b)) &&
    (String.eqb (ib_local b) (callee_name meta) ||
     bool_decide (receiver_text meta = Some (ib_local b)) || String.eqb (ib_kind b) "wildcard")) bindings.

Definition mark_unresolved_cross_repo_edge `{!SetOrder} (e : CEdge) (source_repo_id : string)
    (allowed : gset string) (bindings : list ImportBinding) (meta : CallMeta) : CEdge :=
  if negb (has_external_binding bindings meta) || (size allowed <=? 1)%nat then e
  else
    mk_cedge (ce_edge e) (JObject
      (obj_insert "allowed_target_repos" (JArray (map JString (set_values allowed)))
      (obj_insert "unresolved_cross_repo" (JBool true)
      (obj_insert "confidence_tier_label" (JString "unresolved_cross_repo")
      (obj_insert "relationship_reason" (JString "import")
      (obj_insert "source_repo" (JString source_repo_id) (object_or_empty (ce_extra e)))))))).

(** ** Receivers *)

(** The text after the last occurrence. *)
Definition after_last (sep s : string) : string :=
  match rfind_sub sep s with Some n => str_drop (n + String.length sep) s | None => s end.
Definition before_last (sep s : string) : option string :=
  n ← rfind_sub sep s; Some (str_take n s).

Definition receiver_type_hint (receiver : string) : option string :=
  let receiver := trim receiver in
  if str_is_empty receiver then None
  else
    let receiver := trim (trim_char "&" (default receiver (head (split_char "<" receiver)))) in
    non_empty_str (trim (after_last "::" receiver)).

Definition method_receiver_name (n : Node) : option string :=
  match n_parent_name n with
  | Some parent =>
      if contains "::impl::" parent then Some (after_last "::" (after_last "::impl::" parent)) else
        '(_, tail) ← split_once "::method::" (n_qualified_name n);
        match before_last "::" tail with Some r => Some r | None => before_last "." tail end
  | None =>
      '(_, tail) ← split_once "::method::" (n_qualified_name n);
      match before_last "::" tail with Some r => Some r | None => before_last "." tail end
  end.

Definition matches_receiver_hint (hint : string) (n : CNode) : bool :=
  bool_decide (method_receiver_name (cn_node n) = Some hint).

Definition same_dir (current_dir candidate_path : string) : bool :=
  match path_parent candidate_path with
  | Some parent => bool_decide (components parent = components current_dir)
  | None => false
  end.

Definition unique_node (nodes : list CNode) : option CNode :=
  match nodes with [n] => Some n | _ => None end.

(** ** TypeScript path aliases *)

Definition match_alias_pattern (pattern source : string) : option string :=
  match split_once "*" pattern with
  | Some (prefix, suffix) =>
      if starts_with prefix source && ends_with suffix source &&
         (String.length prefix + String.length suffix <=? String.length source)%nat
      then Some (str_take (String.length source - String.length suffix - String.length prefix)
                   (str_drop (String.length prefix) source))
      else None
  | None => if String.eqb pattern source then Some "" else None
  end.

Definition apply_alias_target (target wildcard : string) : string :=
  match split_once "*" target with
  | Some (prefix, suffix) => prefix +:+ wildcard +:+ suffix
  | None => target
  end.

Definition candidate_extensions (language : string) : list string :=
  if String.eqb language "typescript" then ["ts"; "tsx"; "js"; "jsx"; "mjs"; "cjs"]
  else ["js"; "jsx"; "mjs"; "cjs"; "ts"; "tsx"].

Definition js_ts_candidates_for_base (base language : string) : list string :=
  match path_extension base with
  | Some _ => [base]
  | None => candidate_extensions language ≫= λ ext, [base +:+ "." +:+ ext; path_join base ("index." +:+ ext)]
  end.

Definition python_import_candidates (base_dir source : string) (imported : option string) : list string :=
  let normalized_source := trim_start_char dot source in
  if str_is_empty normalized_source then
    path_join base_dir "__init__.py" ::
    match imported with
    | Some name =>
        let module_path := replace_char dot slash name in
        [path_join base_dir (module_path +:+ ".py"); path_join base_dir (module_path +:+ "/__init__.py")]
    | None => []
    end
  else
    let module_path := replace_char dot slash normalized_source in
    let init := path_join base_dir (module_path +:+ "/__init__.py") in
    [path_join base_dir (module_path +:+ ".py"); init; init] ++
    match imported with
    | Some name =>
        if String.eqb name "" || String.eqb name "*" then []
        else
          let inner := module_path +:+ "/" +:+ replace_char dot slash name in
          [init; path_join base_dir (inner +:+ ".py"); path_join base_dir (inner +:+ "/__init__.py")]
    | None => []
    end.

Definition package_tsconfig_candidates (base_dir extends : string) : list string :=
  let base := path_join base_dir extends in
  base :: match path_extension base with Some _ => [] | None => [base +:+ ".json"] end ++
  [path_join base "tsconfig.json"].

(** ** Files of an import *)

Section files.
Context `{!FileSystem} `{!SetOrder}.
Context (repo_root : string) (config : ResolverConfig).

Definition existing_repo_paths (candidates : list string) : option (gset string) :=
  let paths := filter (λ p, fs_exists (path_join repo_root p)) (map normalize_relative_path candidates) in
  match paths with [] => None | _ => Some (list_to_set paths) end.

Definition resolve_tsconfig_import_files (entry : TsConfigEntry) (source language : string) :
    option (gset string) :=
  existing_repo_paths
    (ts_paths entry ≫= λ alias,
       match match_alias_pattern (al_pattern alias) source with
       | Some wildcard =>
           al_targets alias ≫= λ t, js_ts_candidates_for_base (apply_alias_target t wildcard) language
       | None => []
       end).

Definition find_nearest_tsconfig (path : string) : option TsConfigEntry :=
  List.find (λ e, path_starts_with (parent_or_root path) (ts_dir e)) (tsconfigs config).

Definition resolve_js_ts_import_files (path language source : string) : option (gset string) :=
  if starts_with "." source then
    current_dir ← path_parent path;
    existing_repo_paths (js_ts_candidates_for_base (path_join current_dir source) language)
  else
    entry ← find_nearest_tsconfig path;
    resolve_tsconfig_import_files entry source language.

Definition resolve_python_import_files (path : string) (b : ImportBinding) : option (gset string) :=
  let base_dir :=
    if (relative_level b =? 0)%N then ""
    else Nat.iter (N.to_nat (relative_level b) - 1) path_pop (parent_or_root path) in
  existing_repo_paths (python_import_candidates base_dir (ib_source b) (ib_imported b)).

Definition resolve_go_import_files (b : ImportBinding) : option (gset string) :=
  module_path ← go_module config;
  suffix ← (if String.eqb (ib_source b) module_path then Some ""
            else strip_prefix (module_path +:+ "/") (ib_source b));
  let abs_dir := path_join repo_root suffix in
  if fs_is_dir abs_dir then
    names ← fs_read_dir abs_dir;
    names ← mapM (M := option) id names;
    let files := filter (λ c, bool_decide (path_extension c = Some "go"))
      (map (path_join suffix) names) in
    match files with [] => None | _ => Some (list_to_set files) end
  else None.

Definition is_js_ts (language : string) : bool :=
  String.eqb language "javascript" || String.eqb language "typescript".

Definition resolve_import_files (path language : string) (b : ImportBinding) : option (gset string) :=
  if is_js_ts language then resolve_js_ts_import_files path language (ib_source b)
  else if String.eqb language "python" then resolve_python_import_files path b
  else if String.eqb language "go" then resolve_go_import_files b
  else None.

(** *** Re-exports *)

Definition is_quote (a : ascii) : bool := Ascii.eqb a (chr 34) || Ascii.eqb a (chr 39).

(** The text between the first quote and the next one of its kind. *)
Fixpoint quoted_module_source (s : string) : option string :=
  match s with
  | EmptyString => None
  | String a rest =>
      if is_quote a then (n ← find_sub (String a "") rest; Some (str_take n rest))
      else quoted_module_source rest
  end.

Definition reexport_spec (symbol module_source spec : string) : option (string * string) :=
  let '(local, exported) :=
    match split_once " as " spec with
    | Some (l, r) => (trim l, trim r)
    | None => (spec, spec)
    end in
  if String.eqb exported symbol then Some (module_source, local) else None.

Definition reexports_of_line (symbol line : string) : list (string * string) :=
  let trimmed := trim line in
  if negb (starts_with "export " trimmed) || negb (contains " from " trimmed) then []
  else
    match quoted_module_source trimmed with
    | None => []
    | Some module_source =>
        if starts_with "export * from " trimmed then [(module_source, symbol)]
        else
          match split_once "{" trimmed with
          | Some (_, rest) =>
              match split_once "}" rest with
              | Some (clause, _) =>
                  omap (reexport_spec symbol module_source)
                    (filter (λ w, negb (str_is_empty w)) (map trim (split_char "," clause)))
              | None => []
              end
          | None => []
          end
    end.

Definition js_ts_reexports_for_symbol (source symbol : string) : list (string * string) :=
  lines source ≫= reexports_of_line symbol.

#[local] Abbreviation options := (list (gset string * string)).

Definition reexport_binding (source name : string) : ImportBinding :=
  mk_binding source name (Some name) "named" 0.

(** The walk keeps the visited pairs of file and name and the results. [depth] counts the
    levels left: the code starts at depth 0 and stops at 4. *)
Fixpoint follow_js_ts_reexports (depth : nat) (language : string) (files : gset string)
    (imported_name : string) (visited : gset (string * string)) : options * gset (string * string) :=
  match depth with
  | O => ([], visited)
  | S depth =>
      foldl (λ st file,
        let '(results, visited) := st in
        if bool_decide ((file, imported_name) ∈ visited) then st
        else
          let visited := {[(file, imported_name)]} ∪ visited in
          match fs_read (path_join repo_root file) with
          | None => (results, visited)
          | Some source =>
              foldl (λ st reexport,
                let '(results, visited) := st in
                let '(reexport_source, next_name) := reexport in
                match resolve_import_files file language (reexport_binding reexport_source next_name) with
                | None => st
                | Some next_files =>
                    let '(more, visited) :=
                      follow_js_ts_reexports depth language next_files next_name visited in
                    (results ++ (next_files, next_name) :: more, visited)
                end) (results, visited) (js_ts_reexports_for_symbol source imported_name)
          end) ([], visited) (set_values files)
  end.

Definition imported_symbol_name (b : ImportBinding) (meta : CallMeta) : option string :=
  match receiver_text meta with
  | Some _ => Some (callee_name meta)
  | None =>
      if String.eqb (ib_kind b) "wildcard" then Some (callee_name meta)
      else if existsb (String.eqb (ib_kind b)) ["module"; "namespace"; "package"; "default"] then None
      else Some (default (ib_local b) (ib_imported b))
  end.

Definition import_resolution_options (path language : string) (b : ImportBinding) (imported_name : string) :
    option options :=
  files ← resolve_import_files path language b;
  Some ((files, imported_name) ::
    (if is_js_ts language then fst (follow_js_ts_reexports 4 language files imported_name ∅) else [])).
End files.

(** ** Configuration files *)

Section configs.
Context `{!FileSystem} (repo_root : string).

Definition resolve_ts_path_targets (config_dir : string) (base_url : option string) (item : string) :
    list string :=
  let direct := normalize_relative_path (path_join config_dir item) in
  match base_url with
  | Some base =>
      let legacy := normalize_relative_path (path_join base item) in
      if String.eqb legacy direct then [direct] else [direct; legacy]
  | None => [direct]
  end.

Definition resolve_tsconfig_extends_path (current_path extends : string) : option string :=
  if str_is_empty extends then None
  else
    let current_dir := parent_or_root current_path in
    if starts_with "." extends || starts_with "/" extends then
      let candidate := normalize_relative_path (path_join current_dir extends) in
      Some (match path_extension candidate with Some _ => candidate | None => add_extension "json" candidate end)
    else
      let modules ancestor := if str_is_empty ancestor then "node_modules" else path_join ancestor "node_modules" in
      List.find (λ c, fs_exists (path_join repo_root c))
        (ancestors current_dir ++ [""] ≫= λ a,
           map normalize_relative_path (package_tsconfig_candidates (modules a) extends)).

Definition alias_of (config_dir : string) (base_url : option string) (entry : string * Json) :
    option TsPathAlias :=
  items ← as_array (snd entry);
  let targets := omap as_str (items : list Json) ≫= resolve_ts_path_targets config_dir base_url in
  match targets with [] => None | _ => Some (mk_alias (fst entry) targets) end.

(** The aliases a document declares itself; [config_dir] is the directory of the document. *)
Definition own_paths (config_dir : string) (value : Json) : option (list TsPathAlias) :=
  options ← (v ← json_get "compilerOptions" value; as_object v);
  let base_url := (λ b, normalize_relative_path (path_join config_dir b)) <$> str_field "baseUrl" options in
  paths ← (v ← assoc "paths" options; as_object v);
  match omap (alias_of config_dir base_url) (paths : list (string * Json)) with [] => None | ps => Some ps end.

Definition extended_path (current : string) (value : Json) : option string :=
  e ← (v ← json_get "extends" value; as_str v); resolve_tsconfig_extends_path current e.

(** The parsed text of a file: [None] when it cannot be read or parsed. *)
Definition document (p : string) : option Json :=
  contents ← fs_read (path_join repo_root p); parse_json contents.

(** The outer option is the fuel; the inner is the answer. *)
Fixpoint parse_tsconfig_recursive (fuel : nat) (rel_path : string) (visited : gset string) :
    option (option (list TsPathAlias) * gset string) :=
  match fuel with
  | O => None
  | S fuel =>
      let normalized := normalize_relative_path rel_path in
      if bool_decide (normalized ∈ visited) then Some (None, visited)
      else
        let visited := {[normalized]} ∪ visited in
        match document normalized with
        | None => Some (None, visited)
        | Some value =>
            '(parent, visited) ←
              match extended_path normalized value with
              | Some parent_path => parse_tsconfig_recursive fuel parent_path visited
              | None => Some (None, visited)
              end;
            let paths :=
              match own_paths (parent_or_root normalized) value with
              | Some ps => ps
              | None => default [] parent
              end in
            Some (match paths with [] => None | _ => Some paths end, visited)
        end
  end.

Definition parse_tsconfig (fuel : nat) (rel_path : string) : option (option (list TsPathAlias)) :=
  fst <$> parse_tsconfig_recursive fuel rel_path ∅.

(** The entries of the configuration files that were found, the deepest directories first. *)
Definition load_tsconfigs (fuel : nat) (found : list string) : list TsConfigEntry :=
  sort_by (cmp_rev (cmp_on (λ e, N.of_nat (length (components (ts_dir e)))) N.compare))
    (omap (λ p, paths ← mjoin (parse_tsconfig fuel p); Some (mk_tsentry (parent_or_root p) paths)) found).

Definition module_of_line (line : string) : option string :=
  rest ← strip_prefix "module " (trim line); non_empty_str (trim rest).

Definition load_go_module : option string :=
  contents ← fs_read (path_join repo_root "go.mod");
  head (omap module_of_line (lines contents)).
End configs.

(** ** Resolution *)

#[local] Abbreviation cands := (gmap (string * string) (list CNode)).
#[local] Abbreviation ownerm := (gmap string (option string)).
#[local] Abbreviation hit := (CNode * string * spec_float)%type.

(** 0.75 and 0.65 as [f32]. *)
Definition f32_0_75 : spec_float := S754_finite false 12582912 (-24).
Definition f32_0_65 : spec_float := S754_finite false 10905190 (-24).

(** A loop body returns from the function, or the loop goes on. *)
Inductive flow (A : Type) := Return (a : option A) | Continue.
Arguments Return {A}.
Arguments Continue {A}.

Section resolve.
Context {S E : Type} `{!CallStore S E} `{!FileSystem} `{!SetOrder}.
Context (store : S) (repo_root source_repo_id : string) (config : ResolverConfig) (allowed : gset string).

(** [cached_owner_id]: failed and missing lookups are remembered too. *)
Definition cached_owner_id (path : string) (cache : ownerm) : option string * ownerm :=
  match cache !! path with
  | Some owner => (owner, cache)
  | None =>
      let owner := match file_owner_id store source_repo_id path with Ok o => o | Err _ => None end in
      (owner, <[path := owner]> cache)
  end.

Definition in_allowed_repo (n : CNode) : bool :=
  match node_repo_id n with Some id => bool_decide (id ∈ allowed) | None => true end.

(** A cached answer is returned as it is; a fresh one is cached, then filtered. *)
Definition callable_candidates (language name : string) (cache : cands) : result E (list CNode) * cands :=
  match cache !! (language, name) with
  | Some ns => (Ok ns, cache)
  | None =>
      match callable_nodes_by_name store language name with
      | Ok ns => (Ok (filter (λ n, in_allowed_repo n) ns), <[(language, name) := ns]> cache)
      | Err e => (Err e, cache)
      end
  end.

(** *** [resolve_import_target] *)

Definition matching_bindings (meta : CallMeta) (bindings : list ImportBinding) : list ImportBinding :=
  match receiver_text meta with
  | Some receiver => filter (λ b, String.eqb (ib_local b) receiver) bindings
  | None => filter (λ b, String.eqb (ib_local b) (callee_name meta) || String.eqb (ib_kind b) "wildcard") bindings
  end.

Fixpoint try_options (language : string) (options : list (gset string * string)) (cache : cands) :
    flow hit * cands :=
  match options with
  | [] => (Continue, cache)
  | (files, name) :: options =>
      let '(candidates, cache) := callable_candidates language name cache in
      match candidates with
      | Err _ => (Return None, cache)
      | Ok ns =>
          match unique_node (filter (λ n, bool_decide (n_file_path (cn_node n) ∈ files)) ns) with
          | Some n => (Return (Some (n, "imports", f32_0_75)), cache)
          | None => try_options language options cache
          end
      end
  end.

Fixpoint try_bindings (path language : string) (meta : CallMeta) (bindings : list ImportBinding) (cache : cands) :
    option hit * cands :=
  match bindings with
  | [] => (None, cache)
  | b :: bindings =>
      match imported_symbol_name b meta with
      | None => (None, cache)
      | Some name =>
          match import_resolution_options repo_root config path language b name with
          | None => (None, cache)
          | Some options =>
              match try_options language options cache with
              | (Return r, cache) => (r, cache)
              | (Continue, cache) => try_bindings path language meta bindings cache
              end
          end
      end
  end.

Definition resolve_import_target (path language : string) (meta : CallMeta) (bindings : list ImportBinding)
    (cache : cands) : option hit * cands :=
  try_bindings path language meta (matching_bindings meta bindings) cache.

(** *** [resolve_same_package_target] *)

Definition receiver_hint (meta : CallMeta) : option string :=
  match receiver_type meta with
  | Some t => Some t
  | None => r ← receiver_text meta; receiver_type_hint r
  end.

Definition narrow_by_receiver (meta : CallMeta) (candidates : list CNode) : list CNode :=
  match receiver_hint meta with
  | Some hint =>
      match filter (λ n, matches_receiver_hint hint n) candidates with
      | [] => candidates
      | matches => matches
      end
  | None => candidates
  end.

(** The candidates of other files with the owner, looking the owners up in order. *)
Fixpoint same_owner_matches (path owner : string) (candidates : list CNode) (cache : ownerm) :
    list CNode * ownerm :=
  match candidates with
  | [] => ([], cache)
  | n :: rest =>
      if String.eqb (n_file_path (cn_node n)) path then same_owner_matches path owner rest cache
      else
        let '(o, cache) := cached_owner_id (n_file_path (cn_node n)) cache in
        let '(ms, cache) := same_owner_matches path owner rest cache in
        (if bool_decide (o = Some owner) then n :: ms else ms, cache)
  end.

Definition same_package (n : CNode) : hit := (n, "same_package", f32_0_65).

Definition resolve_same_package_target (path language : string) (meta : CallMeta) (caches : cands * ownerm) :
    option hit * (cands * ownerm) :=
  let '(candidates, cache) := callable_candidates language (callee_name meta) (fst caches) in
  match candidates with
  | Err _ => (None, (cache, snd caches))
  | Ok ns =>
      let ns := narrow_by_receiver meta ns in
      let '(owner, owners) := cached_owner_id path (snd caches) in
      match owner with
      | Some owner =>
          let '(ms, owners) := same_owner_matches path owner ns owners in
          match unique_node ms with
          | Some n => (Some (same_package n), (cache, owners))
          | None =>
              (same_package <$> unique_node
                 (filter (λ n, same_dir (parent_or_root path) (n_file_path (cn_node n))) ms),
               (cache, owners))
          end
      | None =>
          (same_package <$> unique_node
             (filter (λ n, negb (String.eqb (n_file_path (cn_node n)) path) &&
                same_dir (parent_or_root path) (n_file_path (cn_node n))) ns),
           (cache, owners))
      end
  end.

(** Imports first, then the package; the two branches of the code are the same. *)
Definition resolve_call (path language : string) (meta : CallMeta) (bindings : list ImportBinding)
    (caches : cands * ownerm) : option hit * (cands * ownerm) :=
  let '(found, cache) := resolve_import_target path language meta bindings (fst caches) in
  match found with
  | Some h => (Some h, (cache, snd caches))
  | None => resolve_same_package_target path language meta (cache, snd caches)
  end.

(** *** One edge, one file *)

Definition set_target (e : Edge) (qn tier : string) (confidence : spec_float) : Edge :=
  mk_edge (e_id e) (e_kind e) (e_source_qn e) qn (e_file_path e) (e_line e) confidence (Some tier).

(** The edge afterwards and whether it counts as changed. *)
Definition reconcile_edge (path language : string) (bindings : list ImportBinding) (e : CEdge)
    (caches : cands * ownerm) : CEdge * bool * (cands * ownerm) :=
  match e_kind (ce_edge e) with
  | EkCalls =>
      match call_meta e with
      | None => (e, false, caches)
      | Some meta =>
          if bool_decide (e_confidence_tier (ce_edge e) = Some "same_file") then (e, false, caches)
          else
            let '(resolved, caches) := resolve_call path language meta bindings caches in
            match resolved with
            | None => (mark_unresolved_cross_repo_edge e source_repo_id allowed bindings meta, false, caches)
            | Some (target, tier, confidence) =>
                let qn := n_qualified_name (cn_node target) in
                if String.eqb (e_target_qn (ce_edge e)) qn &&
                   bool_decide (e_confidence_tier (ce_edge e) = Some tier)
                then (e, false, caches)
                else
                  (annotate_cross_repo_edge (mk_cedge (set_target (ce_edge e) qn tier confidence) (ce_extra e))
                     source_repo_id target tier, true, caches)
            end
      end
  | _ => (e, false, caches)
  end.

Fixpoint reconcile_edges (path language : string) (bindings : list ImportBinding) (edges : list CEdge)
    (caches : cands * ownerm) : list CEdge * bool * (cands * ownerm) :=
  match edges with
  | [] => ([], false, caches)
  | e :: edges =>
      let '(e', changed, caches) := reconcile_edge path language bindings e caches in
      let '(edges', changed', caches) := reconcile_edges path language bindings edges caches in
      (e' :: edges', changed || changed', caches)
  end.

Definition file_language (nodes : list CNode) : string :=
  match List.find (λ n, bool_decide (n_kind (cn_node n) = NkFile)) nodes with
  | Some n => n_language (cn_node n)
  | None => from_option (λ n, n_language (cn_node n)) "" (head nodes)
  end.
End resolve.

Section reconcile.
Context {S E : Type} `{!CallStore S E} `{!FileSystem} `{!SetOrder}.
Context (repo_root source_repo_id : string) (config : ResolverConfig) (allowed : gset string).

(** The body of the loop over files: the store, the caches and the number of files written. *)
Definition reconcile_file (path : string) (st : S * (cands * ownerm) * N) :
    result E (S * (cands * ownerm) * N) :=
  let '(store, caches, touched) := st in
  nodes <-? nodes_by_file store source_repo_id path;;
  let language := file_language nodes in
  if bool_decide (nodes = []) || str_is_empty language then Ok st
  else
    let bindings := collect_import_bindings nodes in
    edges <-? edges_by_file store source_repo_id path;;
    let '(edges, changed, caches) :=
      reconcile_edges store repo_root source_repo_id config allowed path language bindings edges caches in
    if changed
    then (store <-? rewrite_file_edges store source_repo_id path edges;; Ok (store, caches, touched + 1)%N)
    else Ok (store, caches, touched).

Fixpoint reconcile_files (file_paths : list string) (seen : gset string) (st : S * (cands * ownerm) * N) :
    result E (S * (cands * ownerm) * N) :=
  match file_paths with
  | [] => Ok st
  | path :: rest =>
      if bool_decide (path ∈ seen) then reconcile_files rest seen st
      else (st <-? reconcile_file path st;; reconcile_files rest ({[path]} ∪ seen) st)
  end.

Definition reconcile_call_targets (file_paths : list string) (store : S) : result E (S * N) :=
  st <-? reconcile_files file_paths ∅ (store, (∅, ∅), 0%N);;
  Ok (fst (fst st), snd st).
End reconcile.

(** ** Aliases *)

Lemma starts_with_app p r : starts_with p (p +:+ r) = true.
Proof. apply starts_with_iff. by exists r. Qed.

Lemma ends_with_app p r : ends_with p (r +:+ p) = true.
Proof. apply ends_with_iff. by exists r. Qed.

Lemma str_drop_prefix t r : str_drop (String.length t) (t +:+ r) = r.
Proof. rewrite <- (Nat.add_0_r (String.length t)). by rewrite str_drop_app, str_drop_0. Qed.

(** A pattern of [compilerOptions.paths] and the substitution of its wildcard are inverse
    to each other: [match_alias_pattern] finds the wildcard [w] in an import exactly when
    putting [w] in the place of the star gives back the import, and a pattern without a star
    matches only itself. Prefix and suffix never overlap in the import. *)
Theorem alias_pattern_exact (pattern source w : string) :
  match_alias_pattern pattern source = Some w ↔
  apply_alias_target pattern w = source ∧ (split_once "*" pattern = None → w = "").
Proof.
  unfold match_alias_pattern, apply_alias_target. destruct (split_once "*" pattern) as [[pre suf]|].
  - split.
    + destruct (starts_with pre source) eqn:Hs; [|done]. destruct (ends_with suf source) eqn:He; [|done].
      simpl. destruct (_ <=? _)%nat eqn:Hl; [|done]. apply Nat.leb_le in Hl.
      intros [= <-]. split; [|done].
      apply starts_with_iff in Hs as [r ->]. apply ends_with_iff in He as [r' He].
      rewrite str_length_app in *. rewrite str_drop_prefix.
      assert (∃ m, r = m +:+ suf) as [m ->].
      { exists (str_drop (String.length pre) r').
        assert (String.length pre ≤ String.length r')%nat as Hr.
        { apply (f_equal String.length) in He. rewrite !str_length_app in He. lia. }
        apply (f_equal (str_drop (String.length pre))) in He.
        rewrite str_drop_prefix in He. rewrite He.
        rewrite <- (str_take_drop (String.length pre) r') at 1. rewrite <- str_app_assoc.
        assert (String.length (str_take (String.length pre) r') = String.length pre) as Ht
          by (rewrite str_length_take; lia).
        rewrite <- Ht at 1. by rewrite str_drop_prefix. }
      rewrite str_length_app.
      replace (_ + _ - _ - _)%nat with (String.length m) by lia.
      by rewrite str_take_app.
    + intros [<- _]. rewrite starts_with_app, str_app_assoc, ends_with_app. simpl.
      rewrite !str_length_app.
      destruct (_ <=? _)%nat eqn:Hl; [|apply Nat.leb_gt in Hl; lia].
      rewrite <- str_app_assoc, str_drop_prefix.
      replace (_ + _ - _ - _)%nat with (String.length w) by lia.
      by rewrite str_take_app.
  - destruct (String.eqb_spec pattern source) as [->|Hne]; split; [by intros [= <-]|by intros [_ ->]|done|].
    by intros [? _].
Qed.

Example alias_wildcard : match_alias_pattern "@app/*" "@app/db/pool" = Some "db/pool".
Proof. vm_compute. reflexivity. Qed.
Example alias_no_overlap : match_alias_pattern "ab*ba" "aba" = None.
Proof. vm_compute. reflexivity. Qed.

(** ** Configuration files *)

Section documents.
Context `{FS : !FileSystem} (repo_root : string).

(** The aliases that hold for a document: its own, or those of the document it extends. *)
Inductive declares : nat → string → list TsPathAlias → Prop :=
| declares_own p v ps :
    document repo_root p = Some v → own_paths (parent_or_root p) v = Some ps → declares 0 p ps
| declares_inherited n p v q ps :
    document repo_root p = Some v → own_paths (parent_or_root p) v = None →
    extended_path repo_root p v = Some q → declares n (normalize_relative_path q) ps → declares (S n) p ps.

Lemma declares_inj n p ps : declares n p ps → ∀ m ps', declares m p ps' → n = m ∧ ps = ps'.
Proof.
  induction 1; intros m ps' H'; inversion H'; simplify_eq/=; [done|].
  by destruct (IHdeclares _ _ ltac:(eassumption)) as [-> ->].
Qed.

Lemma own_paths_ne dir v ps : own_paths dir v = Some ps → ps ≠ [].
Proof.
  unfold own_paths. intros H. destruct (v ← _; as_object v) as [o|]; simpl in H; [|done].
  destruct (v ← assoc "paths" o; as_object v) as [l|]; simpl in H; [|done].
  by destruct (omap _ l); simplify_eq.
Qed.

Lemma declares_ne n p ps : declares n p ps → ps ≠ [].
Proof. induction 1; eauto using own_paths_ne. Qed.

(** Every document of [visited] inherits from [p], so its aliases are found further away. *)
Definition behind (visited : gset string) (p : string) : Prop :=
  ∀ v n ps, v ∈ visited → declares n p ps → ∀ m ps', declares m v ps' → (n < m)%nat.

Lemma parse_tsconfig_recursive_spec (X : gset string) :
  (∀ p, p ∉ X → fs_read (path_join repo_root p) = None) →
  ∀ fuel rel visited, (size (X ∖ visited) < fuel)%nat →
  ∃ a visited', parse_tsconfig_recursive repo_root fuel rel visited = Some (a, visited') ∧
    (behind visited (normalize_relative_path rel) →
     ∀ ps, a = Some ps ↔ ∃ n, declares n (normalize_relative_path rel) ps).
Proof.
  intros HX fuel. induction fuel as [|fuel IH]; intros rel visited Hsize; [lia|].
  simpl. set (p := normalize_relative_path rel). case_bool_decide as Hv.
  { eexists _, _. split; [done|]. intros Hb ps. split; [done|].
    intros [n Hn]. pose proof (Hb p n ps Hv Hn n ps Hn). lia. }
  fold (document repo_root p). destruct (document repo_root p) as [v|] eqn:Hd.
  2: { eexists _, _. split; [done|]. intros _ ps. split; [done|].
       intros [n Hn]. inversion Hn; simplify_eq. }
  assert (p ∈ X) as Hp.
  { destruct (decide (p ∈ X)) as [|Hnx]; [done|]. unfold document in Hd. by rewrite (HX p Hnx) in Hd. }
  assert (size (X ∖ ({[p]} ∪ visited)) < fuel)%nat as Hlt.
  { assert (size (X ∖ ({[p]} ∪ visited)) < size (X ∖ visited))%nat; [|lia].
    apply subset_size. set_solver. }
  assert (∃ par visited', 
    match extended_path repo_root p v with
    | Some q => parse_tsconfig_recursive repo_root fuel q ({[p]} ∪ visited)
    | None => Some (None, {[p]} ∪ visited) end = Some (par, visited') ∧
    (own_paths (parent_or_root p) v = None → behind visited p →
     ∀ ps, par = Some ps ↔ ∃ n, declares n p ps)) as (par & visited' & -> & Hpar).
  { destruct (extended_path repo_root p v) as [q|] eqn:Hq.
    - destruct (IH q _ Hlt) as (par & visited' & -> & Hpar). exists par, visited'. split; [done|].
      intros Hown Hb ps. rewrite Hpar.
      + split; intros [n Hn]; [exists (S n); by econstructor|].
        inversion Hn; simplify_eq; eauto.
      + intros w n ps' Hw Hn m ps'' Hm. assert (declares (S n) p ps') as Hs by (by econstructor).
        apply elem_of_union in Hw as [->%elem_of_singleton|Hw].
        * destruct (declares_inj _ _ _ Hs _ _ Hm) as [<- _]. lia.
        * pose proof (Hb w _ _ Hw Hs _ _ Hm). lia.
    - eexists _, _. split; [done|]. intros Hown Hb ps. split; [done|].
      intros [n Hn]. inversion Hn; simplify_eq. }
  simpl. eexists _, _. split; [done|]. intros Hb ps.
  destruct (own_paths (parent_or_root p) v) as [own|] eqn:Hown.
  - pose proof (own_paths_ne _ _ _ Hown). destruct own; [done|]. split.
    + intros [= <-]. exists 0%nat. by econstructor.
    + intros [n Hn]. inversion Hn; simplify_eq; done.
  - rewrite <- (Hpar eq_refl Hb). destruct par as [[|a l]|]; simpl; [|done|done].
    split; [done|]. intros [= <-].
    destruct (proj1 (Hpar eq_refl Hb []) eq_refl) as [n Hn]. by apply declares_ne in Hn.
Qed.
End documents.

(** [parse_tsconfig] ends on every repository, also when configuration files extend each
    other in a cycle: fuel above the number of files that can be read is enough. Its answer
    are the aliases of the nearest document along the [extends] chain that declares any, and
    none when no document of the chain does. *)
Theorem parse_tsconfig_nearest `{!FileSystem} (repo_root : string) (X : gset string)
    (readable : ∀ p, p ∉ X → fs_read (path_join repo_root p) = None)
    (fuel : nat) (enough : (size X < fuel)%nat) (rel : string) :
  ∃ answer, parse_tsconfig repo_root fuel rel = Some answer ∧
    ∀ ps, answer = Some ps ↔ ∃ n, declares repo_root n (normalize_relative_path rel) ps.
Proof.
  destruct (parse_tsconfig_recursive_spec repo_root X readable fuel rel ∅) as (a & v & Hr & Ha).
  { by replace (X ∖ ∅) with X by set_solver. }
  exists a. unfold parse_tsconfig. rewrite Hr. split; [done|]. apply Ha.
  intros w n ps Hw. set_solver.
Qed.

(** ** Resolution *)

(** *** The extra fields *)

(** Fields [call_meta] does not read may be added. *)
Lemma call_meta_annotate e e' id target tier :
  is_Some (call_meta e) → call_meta (annotate_cross_repo_edge (mk_cedge e' (ce_extra e)) id target tier) = call_meta e.
Proof.
  unfold call_meta, annotate_cross_repo_edge, object_or_empty, text_field, str_field. simpl.
  destruct (as_object (ce_extra e)); simpl; [|by intros [??]].
  intros _. by rewrite !assoc_obj_insert_ne.
Qed.

Section resolved.
Context {S E : Type} `{CS : !CallStore S E} `{FS : !FileSystem} `{SO : !SetOrder}.
Context (store : S) (repo_root source_repo_id : string) (config : ResolverConfig) (allowed : gset string).

#[local] Abbreviation cands := (gmap (string * string) (list CNode)).
#[local] Abbreviation ownerm := (gmap string (option string)).

(** The owner of a file, when the store knows it. *)
Definition stored_owner (path : string) : option string :=
  match file_owner_id store source_repo_id path with Ok o => o | Err _ => None end.

(** Both caches answer what the store answers. *)
Definition caches_ok (caches : cands * ownerm) : Prop :=
  (∀ l n ns, fst caches !! (l, n) = Some ns → callable_nodes_by_name store l n = Ok ns) ∧
  (∀ p o, snd caches !! p = Some o → o = stored_owner p).

Lemma cached_owner_id_spec path c :
  (∀ p o, c !! p = Some o → o = stored_owner p) →
  fst (cached_owner_id store source_repo_id path c) = stored_owner path ∧
  ∀ p o, snd (cached_owner_id store source_repo_id path c) !! p = Some o → o = stored_owner p.
Proof.
  intros Hc. unfold cached_owner_id. destruct (c !! path) as [o|] eqn:Hp; simpl.
  - split; [by apply Hc|done].
  - split; [done|]. intros p o. rewrite lookup_insert_Some. intros [[<- <-]|[_ Hl]]; [done|by apply Hc].
Qed.

Lemma callable_candidates_spec language name c :
  (∀ l n ns, c !! (l, n) = Some ns → callable_nodes_by_name store l n = Ok ns) →
  (∀ ns, fst (callable_candidates store allowed language name c) = Ok ns →
     ∃ all, callable_nodes_by_name store language name = Ok all ∧ ns ⊆ all) ∧
  ∀ l n ns, snd (callable_candidates store allowed language name c) !! (l, n) = Some ns →
    callable_nodes_by_name store l n = Ok ns.
Proof.
  intros Hc. unfold callable_candidates. destruct (c !! _) as [ns|] eqn:Hp; simpl.
  - split; [|done]. intros ? [= <-]. eauto.
  - destruct (callable_nodes_by_name store language name) as [ns|] eqn:Hs; simpl; [|done]. split.
    + intros ? [= <-]. exists ns. split; [done|]. intros x Hx. by apply list_elem_of_filter in Hx as [_ ?].
    + intros l n ns'. rewrite lookup_insert_Some. intros [[[= <- <-] <-]|[_ Hl]]; [done|by apply Hc].
Qed.

Lemma unique_node_elem ns n : unique_node ns = Some n → n ∈ ns.
Proof. destruct ns as [|x [|]]; simpl; intros; simplify_eq. set_solver. Qed.

(** What a resolved target is: the only candidate in the files of an import of the caller, or
    a callable of the callee's name in another file of the same owner or directory. *)
Inductive justified (path language : string) (meta : CallMeta) (bindings : list ImportBinding) :
    CNode → string → spec_float → Prop :=
| by_import b name opts files target all n :
    b ∈ matching_bindings meta bindings → imported_symbol_name b meta = Some name →
    import_resolution_options repo_root config path language b name = Some opts →
    (files, target) ∈ opts → callable_nodes_by_name store language target = Ok all → n ∈ all →
    n_file_path (cn_node n) ∈ files → justified path language meta bindings n "imports" f32_0_75
| by_package all n :
    callable_nodes_by_name store language (callee_name meta) = Ok all → n ∈ all →
    n_file_path (cn_node n) ≠ path →
    ((∃ owner, stored_owner path = Some owner ∧ stored_owner (n_file_path (cn_node n)) = Some owner) ∨
     stored_owner path = None ∧ same_dir (parent_or_root path) (n_file_path (cn_node n)) = true) →
    justified path language meta bindings n "same_package" f32_0_65.

Lemma try_options_spec language opts c :
  (∀ l n ns, c !! (l, n) = Some ns → callable_nodes_by_name store l n = Ok ns) →
  (∀ l n ns, snd (try_options store allowed language opts c) !! (l, n) = Some ns →
    callable_nodes_by_name store l n = Ok ns) ∧
  ∀ n tier conf, fst (try_options store allowed language opts c) = Return (Some (n, tier, conf)) →
    tier = "imports" ∧ conf = f32_0_75 ∧
    ∃ files target all, (files, target) ∈ opts ∧ callable_nodes_by_name store language target = Ok all ∧
      n ∈ all ∧ n_file_path (cn_node n) ∈ files.
Proof.
  revert c. induction opts as [|[files name] opts IH]; intros c Hc; simpl; [done|].
  destruct (callable_candidates_spec language name c Hc) as [Hres Hc'].
  destruct (callable_candidates store allowed language name c) as [[ns|e] c']; simpl in *; [|done].
  destruct (unique_node _) as [n|] eqn:Hu; simpl.
  - split; [done|]. intros ? ? ? [= <- <- <-]. split_and!; [done..|].
    apply unique_node_elem, list_elem_of_filter in Hu as [Hf Hn]. rewrite bool_decide_spec in Hf.
    destruct (Hres ns eq_refl) as (all & Hall & Hsub). exists files, name, all. set_solver.
  - destruct (IH c' Hc') as [IH1 IH2]. split; [done|]. intros n tier conf Hr.
    destruct (IH2 _ _ _ Hr) as (-> & -> & fs & t & all & ? & ? & ? & ?). split_and!; [done..|].
    exists fs, t, all. set_solver.
Qed.

Lemma resolve_import_target_spec path language meta bindings c :
  (∀ l n ns, c !! (l, n) = Some ns → callable_nodes_by_name store l n = Ok ns) →
  (∀ l n ns, snd (resolve_import_target store repo_root config allowed path language meta bindings c) !! (l, n)
     = Some ns → callable_nodes_by_name store l n = Ok ns) ∧
  ∀ n tier conf,
    fst (resolve_import_target store repo_root config allowed path language meta bindings c)
      = Some (n, tier, conf) → justified path language meta bindings n tier conf.
Proof.
  unfold resolve_import_target.
  assert (matching_bindings meta bindings ⊆ matching_bindings meta bindings) as Hsub by done. revert Hsub.
  generalize (matching_bindings meta bindings) at 1 3 4 as bs. intros bs.
  revert c. induction bs as [|b bs IH]; intros c Hsub Hc; simpl; [done|].
  destruct (imported_symbol_name b meta) as [name|] eqn:Hname; simpl; [|done].
  destruct (import_resolution_options repo_root config path language b name) as [opts|] eqn:Hopts; simpl; [|done].
  destruct (try_options_spec language opts c Hc) as [Hc' Hres].
  destruct (try_options store allowed language opts c) as [[r|] c']; simpl in *.
  - split; [done|]. intros n tier conf ->.
    destruct (Hres _ _ _ eq_refl) as (-> & -> & files & target & all & ? & ? & ? & ?).
    eapply by_import; eauto. set_solver.
  - apply IH; [set_solver|done].
Qed.

Lemma same_owner_matches_spec path owner ns c :
  (∀ p o, c !! p = Some o → o = stored_owner p) →
  (∀ n, n ∈ fst (same_owner_matches store source_repo_id path owner ns c) →
     n ∈ ns ∧ n_file_path (cn_node n) ≠ path ∧ stored_owner (n_file_path (cn_node n)) = Some owner) ∧
  ∀ p o, snd (same_owner_matches store source_repo_id path owner ns c) !! p = Some o → o = stored_owner p.
Proof.
  revert c. induction ns as [|n ns IH]; intros c Hc; simpl; [set_solver|].
  destruct (String.eqb_spec (n_file_path (cn_node n)) path) as [Heq|Hne].
  { destruct (IH c Hc) as [IH1 IH2]. split; [|done]. intros m Hm. destruct (IH1 m Hm). set_solver. }
  destruct (cached_owner_id_spec (n_file_path (cn_node n)) c Hc) as [Ho Hc'].
  destruct (cached_owner_id store source_repo_id _ c) as [o c']; simpl in *.
  destruct (IH c' Hc') as [IH1 IH2].
  destruct (same_owner_matches store source_repo_id path owner ns c') as [ms c'']; simpl in *.
  split; [|done]. intros m. case_bool_decide as Hd; [|set_solver].
  intros [->|Hm]%elem_of_cons; [|set_solver]. split; [set_solver|]. split; [done|]. congruence.
Qed.

Lemma narrow_by_receiver_sub meta ns : narrow_by_receiver meta ns ⊆ ns.
Proof.
  unfold narrow_by_receiver. destruct (receiver_hint meta) as [hint|]; [|done].
  assert (filter (λ n, matches_receiver_hint hint n) ns ⊆ ns) as Hsub.
  { intros x Hx. by apply list_elem_of_filter in Hx as [_ ?]. }
  by destruct (filter (λ n, matches_receiver_hint hint n) ns).
Qed.

Lemma resolve_same_package_target_spec path language meta bindings caches :
  caches_ok caches →
  caches_ok (snd (resolve_same_package_target store source_repo_id allowed path language meta caches)) ∧
  ∀ n tier conf,
    fst (resolve_same_package_target store source_repo_id allowed path language meta caches)
      = Some (n, tier, conf) → justified path language meta bindings n tier conf.
Proof.
  intros [Hc Ho]. unfold resolve_same_package_target.
  destruct (callable_candidates_spec language (callee_name meta) (fst caches) Hc) as [Hres Hc'].
  destruct (callable_candidates store allowed language (callee_name meta) (fst caches)) as [[ns|e] c'];
    simpl in *; [|by split; [split|]].
  destruct (Hres ns eq_refl) as (all & Hall & Hsub).
  pose proof (narrow_by_receiver_sub meta ns) as Hnarrow.
  destruct (cached_owner_id_spec path (snd caches) Ho) as [Hown Ho'].
  destruct (cached_owner_id store source_repo_id path (snd caches)) as [[owner|] o']; simpl in *.
  - destruct (same_owner_matches_spec path owner (narrow_by_receiver meta ns) o' Ho') as [Hms Ho''].
    destruct (same_owner_matches store source_repo_id path owner _ o') as [ms o'']; simpl in *.
    assert (∀ n, n ∈ ms → justified path language meta bindings n "same_package" f32_0_65) as Hj.
    { intros n Hn. destruct (Hms n Hn) as (? & ? & ?). eapply by_package; eauto; set_solver. }
    destruct (unique_node ms) as [n|] eqn:Hu; simpl; (split; [by split|]); intros n' tier conf Hr.
    + unfold same_package in Hr. simplify_eq. eauto using unique_node_elem.
    + unfold same_package in Hr. apply fmap_Some in Hr as (n & Hn & [= -> -> ->]).
      apply unique_node_elem, list_elem_of_filter in Hn as [_ Hn]. eauto.
  - split; [by split|]. intros n' tier conf Hr.
    unfold same_package in Hr. apply fmap_Some in Hr as (n & Hn & [= -> -> ->]).
    apply unique_node_elem, list_elem_of_filter in Hn as [Hd Hn].
    apply Is_true_true, andb_true_iff in Hd as [Hp Hd]. apply negb_true_iff, String.eqb_neq in Hp.
    eapply by_package; [done|by apply Hsub, Hnarrow|done|by right].
Qed.

Lemma resolve_call_spec path language meta bindings caches :
  caches_ok caches →
  caches_ok (snd (resolve_call store repo_root source_repo_id config allowed path language meta bindings caches)) ∧
  ∀ n tier conf,
    fst (resolve_call store repo_root source_repo_id config allowed path language meta bindings caches)
      = Some (n, tier, conf) → justified path language meta bindings n tier conf.
Proof.
  intros Hok. unfold resolve_call.
  destruct (resolve_import_target_spec path language meta bindings (fst caches) (proj1 Hok)) as [Hc Hj].
  destruct (resolve_import_target store repo_root config allowed path language meta bindings (fst caches))
    as [[[[n tier] conf]|] c]; simpl in *.
  - split; [by split; [|apply Hok]|]. intros ? ? ? [= <- <- <-]. eauto.
  - apply resolve_same_package_target_spec. split; [done|apply Hok].
Qed.
End resolved.

(** *** Edges *)

Lemma obj_insert_same_meta e o id allowed bindings meta `{SO : !SetOrder} :
  call_meta e = Some o → call_meta (mark_unresolved_cross_repo_edge e id allowed bindings meta) = Some o.
Proof.
  intros He. unfold mark_unresolved_cross_repo_edge. destruct (_ || _); [done|].
  revert He. unfold call_meta, object_or_empty, text_field, str_field. simpl.
  destruct (as_object (ce_extra e)); simpl; [|done].
  by rewrite !assoc_obj_insert_ne.
Qed.

Lemma mark_unresolved_edge e id allowed bindings meta `{SO : !SetOrder} :
  ce_edge (mark_unresolved_cross_repo_edge e id allowed bindings meta) = ce_edge e.
Proof. unfold mark_unresolved_cross_repo_edge. by destruct (_ || _). Qed.

Section reconciled.
Context {S E : Type} `{CS : !CallStore S E} `{FS : !FileSystem} `{SO : !SetOrder}.
Context (store : S) (repo_root source_repo_id : string) (config : ResolverConfig) (allowed : gset string).

#[local] Abbreviation edge_step := (reconcile_edge store repo_root source_repo_id config allowed).
#[local] Abbreviation edges_step := (reconcile_edges store repo_root source_repo_id config allowed).

(** What may happen to an edge; the flag says that it counts as changed. *)
Inductive reconciled (path language : string) (bindings : list ImportBinding) : CEdge → CEdge → bool → Prop :=
| edge_kept e : reconciled path language bindings e e false
| edge_marked e meta :
    e_kind (ce_edge e) = EkCalls → call_meta e = Some meta →
    reconciled path language bindings e
      (mark_unresolved_cross_repo_edge e source_repo_id allowed bindings meta) false
| edge_retargeted e meta n tier conf :
    e_kind (ce_edge e) = EkCalls → call_meta e = Some meta →
    e_confidence_tier (ce_edge e) ≠ Some "same_file" →
    justified store repo_root source_repo_id config path language meta bindings n tier conf →
    ¬ (e_target_qn (ce_edge e) = n_qualified_name (cn_node n) ∧ e_confidence_tier (ce_edge e) = Some tier) →
    reconciled path language bindings e
      (annotate_cross_repo_edge
         (mk_cedge (set_target (ce_edge e) (n_qualified_name (cn_node n)) tier conf) (ce_extra e))
         source_repo_id n tier) true.

Lemma reconcile_edge_spec path language bindings e caches :
  caches_ok store source_repo_id caches →
  caches_ok store source_repo_id (snd (edge_step path language bindings e caches)) ∧
  reconciled path language bindings e (fst (fst (edge_step path language bindings e caches)))
    (snd (fst (edge_step path language bindings e caches))).
Proof.
  intros Hok. unfold reconcile_edge.
  destruct (e_kind (ce_edge e)) eqn:Hk; try (split; [done|constructor]).
  destruct (call_meta e) as [meta|] eqn:Hm; [|split; [done|constructor]].
  case_bool_decide as Hs; [split; [done|constructor]|].
  destruct (resolve_call_spec store repo_root source_repo_id config allowed path language meta bindings caches Hok)
    as [Hok' Hj].
  destruct (resolve_call store repo_root source_repo_id config allowed path language meta bindings caches)
    as [[[[n tier] conf]|] caches']; simpl in *.
  - destruct (_ && _) eqn:Hsame; simpl; (split; [done|]); [constructor|].
    econstructor; eauto. intros [Heq Ht]. rewrite Heq, Ht, String.eqb_refl, bool_decide_eq_true_2 in Hsame; done.
  - split; [done|]. by constructor.
Qed.

Lemma same_file_tier path language meta bindings n tier conf :
  justified store repo_root source_repo_id config path language meta bindings n tier conf → tier ≠ "same_file".
Proof. by destruct 1. Qed.

(** The same step on the edge it left: nothing counts as changed. *)
Lemma reconcile_edge_again path language bindings e caches e' changed caches' :
  caches_ok store source_repo_id caches →
  edge_step path language bindings e caches = (e', changed, caches') →
  ∃ e'', edge_step path language bindings e' caches = (e'', false, caches') ∧ ce_edge e'' = ce_edge e'.
Proof.
  intros Hok. unfold reconcile_edge at 1.
  destruct (e_kind (ce_edge e)) eqn:Hk;
    try (intros [= <- <- <-]; exists e; unfold reconcile_edge; by rewrite Hk).
  destruct (call_meta e) as [meta|] eqn:Hm;
    [|intros [= <- <- <-]; exists e; unfold reconcile_edge; by rewrite Hk, Hm].
  case_bool_decide as Hs.
  { intros [= <- <- <-]; exists e; unfold reconcile_edge. rewrite Hk, Hm. by rewrite bool_decide_eq_true_2. }
  pose proof (resolve_call_spec store repo_root source_repo_id config allowed path language meta bindings caches Hok)
    as [_ Hj].
  destruct (resolve_call store repo_root source_repo_id config allowed path language meta bindings caches)
    as [[[[n tier] conf]|] c'] eqn:Hr; simpl in *.
  - specialize (Hj _ _ _ eq_refl). destruct (_ && _) eqn:Hsame; intros [= <- <- <-].
    + exists e. unfold reconcile_edge. rewrite Hk, Hm, Hr, Hsame. by rewrite bool_decide_eq_false_2.
    + eexists. split; [|done]. unfold reconcile_edge. rewrite call_meta_annotate by eauto.
      simpl. rewrite Hk, Hm.
      rewrite bool_decide_eq_false_2 by (intros [= Ht]; by apply same_file_tier in Hj).
      by rewrite Hr, String.eqb_refl, bool_decide_eq_true_2.
  - intros [= <- <- <-]. eexists. split; [|apply mark_unresolved_edge].
    unfold reconcile_edge. rewrite mark_unresolved_edge, (obj_insert_same_meta e meta) by done.
    rewrite Hk, Hr. by rewrite bool_decide_eq_false_2.
Qed.
End reconciled.


(** Reconciliation settles: run again on the edges it left, from the same caches, it
    finds every edge in place. No edge gets another target, tier or confidence, nothing
    counts as changed, and the caches end up the same. *)
Theorem reconcile_edges_settle {S E : Type} `{!CallStore S E} `{!FileSystem} `{!SetOrder}
    (store : S) (repo_root source_repo_id : string) (config : ResolverConfig) (allowed : gset string)
    (path language : string) (bindings : list ImportBinding) (edges : list CEdge)
    (caches : gmap (string * string) (list CNode) * gmap string (option string))
    (Hok : caches_ok store source_repo_id caches) :
  let '(edges', _, caches') :=
    reconcile_edges store repo_root source_repo_id config allowed path language bindings edges caches in
  ∃ edges'',
    reconcile_edges store repo_root source_repo_id config allowed path language bindings edges' caches
      = (edges'', false, caches') ∧ map ce_edge edges'' = map ce_edge edges'.
Proof.
  revert caches Hok. induction edges as [|e edges IH]; intros caches Hok; simpl; [by exists []|].
  pose proof (reconcile_edge_spec store repo_root source_repo_id config allowed path language bindings e caches Hok)
    as [Hok' _].
  destruct (reconcile_edge _ _ _ _ _ _ _ _ e caches) as [[e' c] caches'] eqn:He; simpl in *.
  apply reconcile_edge_again in He as (e'' & He & Heq); [|done].
  specialize (IH caches' Hok').
  destruct (reconcile_edges _ _ _ _ _ _ _ _ edges caches') as [[edges' c'] caches''].
  destruct IH as (edges'' & Hes & Hmap). exists (e'' :: edges''). simpl.
  rewrite He, Hes. simpl. by rewrite Heq, Hmap.
Qed.

(** ** A small repository *)

(** [src/a.ts] imports [pool] from [./b]; the repositories "lib" and "other" have callables
    of the same name. The store is a list of nodes; [Err] stands for a failed query. *)
Definition ex_node (id : Z) (kind : NodeKind) (name qn path : string) (extra : Json) : CNode :=
  mk_cnode (mk_node id kind name qn path 1 9 "typescript" None None None None false "h") extra.

Definition ex_import : CNode :=
  ex_node 1 NkImport "./b" "src/a.ts::import::b" "src/a.ts"
    (JObject [("bindings", JArray [JObject [("kind", JString "named"); ("local", JString "pool")]]);
              ("source", JString "./b")]).
Definition ex_file : CNode := ex_node 2 NkFile "a.ts" "src/a.ts" "src/a.ts" JNull.
Definition ex_pool : CNode := ex_node 3 NkFunction "pool" "src/b.ts::fn::pool" "src/b.ts" JNull.
Definition ex_foreign : CNode :=
  ex_node 4 NkFunction "drain" "src/c.ts::fn::drain" "src/c.ts" (JObject [("repo_id", JString "other")]).
Definition ex_call (id : Z) (name : string) : CEdge :=
  mk_cedge (mk_edge id EkCalls "src/a.ts::fn::main" name "src/a.ts" (Some 4%N) f32_0_65 None)
    (JObject [("callee_name", JString name)]).

#[local] Instance ex_store : CallStore (list CNode * list CEdge) unit := {
  nodes_by_file s _ p := Ok (filter (λ n, String.eqb (n_file_path (cn_node n)) p) (fst s));
  edges_by_file s _ p := Ok (filter (λ e, String.eqb (e_file_path (ce_edge e)) p) (snd s));
  callable_nodes_by_name s l name :=
    Ok (filter (λ n, bool_decide (n_kind (cn_node n) = NkFunction) && String.eqb (n_name (cn_node n)) name)
          (fst s));
  file_owner_id _ _ _ := Ok None;
  rewrite_file_edges s _ p es :=
    Ok (fst s, filter (λ e, negb (String.eqb (e_file_path (ce_edge e)) p)) (snd s) ++ es)
}.
#[local] Instance ex_fs : FileSystem := {
  fs_exists p := existsb (String.eqb p) ["/r/src/a.ts"; "/r/src/b.ts"; "/r/src/c.ts"];
  fs_read p :=
    if String.eqb p "/r/tsconfig.json" then Some "a" else if String.eqb p "/r/base.json" then Some "b" else None;
  fs_read_dir _ := None;
  fs_is_dir _ := false;
  parse_json t :=
    if String.eqb t "a" then Some (JObject [("extends", JString "./base")])
    else Some (JObject [("compilerOptions",
        JObject [("paths", JObject [("@app/*", JArray [JString "src/*"])])]); ("extends", JString "./tsconfig")])
}.
#[local] Instance ex_order : SetOrder := { set_values X := elements X; set_values_perm X := reflexivity _ }.

Definition ex_nodes : list CNode := [ex_import; ex_file; ex_pool; ex_foreign].
Definition ex_edges : list CEdge := [ex_call 10 "pool"; ex_call 11 "drain"; ex_call 12 "drain"].

Definition ex_run (edges : list CEdge) :=
  reconcile_edges (ex_nodes, edges) "/r" "app" (mk_resolver [] None) {["app"]} "src/a.ts" "typescript"
    (collect_import_bindings ex_nodes) edges (∅, ∅).

(** The import of [./b] resolves; the first call of [drain] finds nothing, because its only
    candidate is of a repository that is not allowed; the second finds it in the cache. *)
Example ex_run_targets :
  map (λ e, (e_target_qn (ce_edge e), e_confidence_tier (ce_edge e))) (fst (fst (ex_run ex_edges))) =
  [("src/b.ts::fn::pool", Some "imports"); ("drain", None); ("src/c.ts::fn::drain", Some "same_package")].
Proof. vm_compute. reflexivity. Qed.

(** The same query, asked twice. *)
Example cached_candidates_unfiltered :
  let '(first, cache) := callable_candidates (ex_nodes, []) {["app"]} "typescript" "drain" ∅ in
  first = Ok [] ∧ fst (callable_candidates (ex_nodes, []) {["app"]} "typescript" "drain" cache) = Ok [ex_foreign].
Proof. vm_compute. by split. Qed.

(** An unresolved call is marked, but the mark alone does not rewrite the file. *)
Example mark_alone_is_lost :
  let edge := ex_call 10 "missing" in
  let binding := mk_binding "pg" "missing" None "named" 0 in
  let '(edges, changed, _) :=
    reconcile_edges (ex_nodes, [edge]) "/r" "app" (mk_resolver [] None) {["app"; "lib"]} "src/a.ts" "typescript"
      [binding] [edge] (∅, ∅) in
  map ce_extra edges ≠ [ce_extra edge] ∧ changed = false.
Proof. vm_compute. by split. Qed.

(** A first binding that is no file ends the search, although the second one is. *)
Example first_binding_aborts :
  let external := mk_binding "pg" "pg" None "wildcard" 0 in
  let local := mk_binding "./b" "pool" None "named" 0 in
  let resolve bs :=
    fst (resolve_import_target (ex_nodes, []) "/r" (mk_resolver [] None) {["app"]} "src/a.ts" "typescript"
           (mk_meta "pool" None None) bs ∅) in
  (λ h, fst (fst h)) <$> resolve [local; external] = Some ex_pool ∧ resolve [external; local] = None.
Proof. vm_compute. by split. Qed.

(** A relative import that climbs above the root comes back into it. *)
Example import_above_root : normalize_relative_path "src/../../lib/b" = "lib/b".
Proof. vm_compute. reflexivity. Qed.

(** The configuration files of the example extend each other. *)
Example extends_cycle :
  parse_tsconfig "/r" 3 "tsconfig.json" = Some (Some [mk_alias "@app/*" ["src/*"]]).
Proof. vm_compute. reflexivity. Qed.

Definition ex_documents : gset string :=
  {["tsconfig.json"; "base.json"; "/r/tsconfig.json"; "/r/base.json"]}.

Lemma ex_readable p : p ∉ ex_documents → fs_read (path_join "/r" p) = None.
Proof.
  intros Hp. change (path_join "/r" p) with (if is_absolute p then p else "/r/" +:+ p). simpl.
  destruct (String.eqb_spec (if is_absolute p then p else "/r/" +:+ p) "/r/tsconfig.json") as [Ht|_].
  { destruct (is_absolute p); [|injection Ht as Ht; rewrite str_app_nil_l in Ht]; subst; set_solver. }
  destruct (String.eqb_spec (if is_absolute p then p else "/r/" +:+ p) "/r/base.json") as [Hb|_]; [|done].
  destruct (is_absolute p); [|injection Hb as Hb; rewrite str_app_nil_l in Hb]; subst; set_solver.
Qed.

Lemma parse_tsconfig_nearest_witness :
  ∃ answer, parse_tsconfig "/r" 5 "tsconfig.json" = Some answer ∧
    ∀ ps, answer = Some ps ↔ ∃ n, declares "/r" n (normalize_relative_path "tsconfig.json") ps.
Proof.
  apply (parse_tsconfig_nearest "/r" ex_documents ex_readable 5 ltac:(vm_compute; lia) "tsconfig.json").
Defined.

Lemma ex_caches_ok : caches_ok (ex_nodes, ex_edges) "app" (∅, ∅).
Proof. split; simpl; intros *; by rewrite lookup_empty. Qed.


Lemma reconcile_edges_settle_witness :
  let '(edges', _, caches') := ex_run ex_edges in
  ∃ edges'',
    reconcile_edges (ex_nodes, ex_edges) "/r" "app" (mk_resolver [] None) {["app"]} "src/a.ts" "typescript"
      (collect_import_bindings ex_nodes) edges' (∅, ∅) = (edges'', false, caches') ∧
    map ce_edge edges'' = map ce_edge edges'.
Proof.
  exact (reconcile_edges_settle (ex_nodes, ex_edges) "/r" "app" (mk_resolver [] None) {["app"]} "src/a.ts"
    "typescript" (collect_import_bindings ex_nodes) ex_edges (∅, ∅) ex_caches_ok).
Defined.
